(* ===== verification/_CoqProject ===== *)
-Q . S2P
Prelude.v
Bytes.v
Lz77.v
RustStr.v
Utf16.v
KdcStore.v
RustNet.v
Router.v
Surreal.v
Dhcp.v
DhcpDb.v
DhcpService.v
Failover.v
Serde.v
Dns.v
DnsDb.v
Nsec.v
Nsec3.v
DnsWire.v
DnsRepl.v
DnsCache.v
AdDc.v
Rpc.v
AdDirectory.v
DrsSecret.v
Ntlm.v
Gss.v
Spnego.v
Ndr.v
DrsWire.v
DrsObject.v
Drs.v
Samr.v
Netlogon.v
RpcConn.v
DrsClient.v
RpcClient.v
AdStore.v
Ldap.v
LdapDb.v
