(* ===== verification/Prelude.v ===== *)
(** * Magnetite: a verification development

    Magnetite is an infrastructure server in Rust: a DHCP server, an authoritative
    and forwarding DNS server, a reverse proxy, an Active Directory domain controller
    (Kerberos, LDAP, SMB, RPC), mail, single sign-on and monitoring, over one document
    store (SurrealDB), with a separate "center" that watches several servers and fails
    over between them.  This library models parts of it as functions and relations
    and proves what makes them correct.

    ** How the parts interact

    The pure rules of a domain (data types, write-time checks) are in
    [crates/magnetite-core/src/domains]; the repositories in [crates/magnetite-db/src]
    store the data and enforce the rules that involve several rows; the services
    ([magnetite-dhcp], [magnetite-dns], [magnetite-proxy], [magnetite-smb], ...) read
    the repositories and answer clients.  The files here follow the same layers: a
    service file requires the file of its repository, which requires the file of its
    data, and each is proved against what the lower one promises.

    ** Conventions

    Integers are [Z], with the wrap-around of a machine operation written out where
    the code can reach it; [bytes] are lists of integers in [0, 256).  A [&str] is the
    [string] of its UTF-8 bytes.  A call that may panic or whose loop is bounded by
    fuel returns an [outcome]: [Ret], [Panic] or [OutOfFuel]; the theorems show
    that the last two do not occur, so that the fuel is enough (the length of the
    input for the compressor and the decompressor and for the walk up a domain name,
    eight for the chain of aliases, which is the bound in the code, the number of
    records for the chunks and difference sequences of a transfer).  A call on the
    store is a state transformer that may fail ([Surreal.M]).  Instants are integers
    and are arguments.  Third-party code is an argument of the definitions that use
    it, or a class with its laws: the tables of the store ([Surreal.Table]), JSON
    values ([Dns.Json], [Serde.Serde]), DNS names and messages ([DnsWire.Hickory]), the
    DHCP codec, RFC 3339 dates, ciphers, hashes ([Ntlm], [Gss], [Netlogon],
    [DrsSecret]) and the Kerberos exchange ([RpcConn], [RpcClient]).  Every theorem
    that assumes such laws is applied to a concrete instance by its witness.

    ** The files

    - [Prelude], [Bytes], [RustStr], [RustNet]: the iterators, integers, byte
      slices, strings and addresses of the Rust standard library the code uses.
    - [Lz77] ([magnetite-smb/src/comp.rs]): the LZ77 codec of SMB2 compression
      and its message wrapper.  Round trip on every input; on arbitrary bytes no
      panic and no output above the cap.
    - [Router] ([magnetite-proxy/src/router.rs], the routing prefix of
      [service.rs], the data and checks of [domains/proxy]): virtual hosts, access
      rules, block list, load balancing, SNI.  A request is forwarded only after the
      rules; the longest prefix wins; the first matching rule in priority order
      decides; weighted round robin is fair; the SNI parser never reads out of range
      and finds the name of a well-formed client hello.
    - [Surreal]: the tables of the document store, as a class with laws and
      a list instance, and the monad of repository calls.
    - [Dhcp] ([domains/dhcp], [magnetite-dhcp/src/alloc.rs]): pools, reservations,
      leases, their checks, the allocation policy and the split of a scope between
      two servers.  The address granted is free or the client's own, one is granted
      whenever there is one, and the two halves of a scope are disjoint.
    - [DhcpDb] ([magnetite-db/src/dhcp.rs]): every call of the repository.
      Over all sequences of calls pools never overlap, reservations are unique and
      attached, leases are unique per address; the feed of changes is complete and
      applying it is idempotent.
    - [DhcpService] ([magnetite-dhcp/src/service.rs], [wire.rs]): the handler of a
      datagram as a state machine over the store.  It keeps the invariants, never
      acknowledges an address another client holds, completes the exchange of a
      client that follows the protocol; two handlers interleaved can give one
      address to two clients.
    - [Failover] ([magnetite-center/src/failover.rs], [run_failover] of [poll.rs],
      the lease of [store.rs], [leader.rs]): the failover decision and its execution
      on a cluster, the leader lease.  One pass leaves one primary and the next has
      nothing to do; a promotion is justified; the terms of the lease are fencing
      tokens.
    - [Dns] ([domains/dns], [magnetite-dns/src/resolver.rs]): zones, records and
      policy rules with their checks, and the answer to a question.  Which zone
      answers and when a name is denied, what the answer section contains, which
      policy rule decides.
    - [Nsec], [Nsec3] ([magnetite-dns/src/nsec.rs], [nsec3.rs]): the canonical and
      the hashed chain of a zone, and the records that prove a negative answer.
    - [DnsCache] ([magnetite-dns/src/cache.rs]): the cache of forwarded answers,
      bounded and never stale.
    - [Serde]: values stored as JSON text, as a class with its round trip.
    - [DnsDb] ([magnetite-db/src/dns.rs]): every call on zones, records, journals,
      policy and GeoDNS rules, keys and forwarders.  Over all sequences of calls no
      alias shares its name, zone names are unique and every column reads back;
      deletion, replacement, deltas and repointing do exactly what they say.
    - [DnsWire] ([magnetite-dns/src/wire.rs], the pulls of [replication.rs]): records
      to and from resource records, and full and incremental transfers as streams of
      messages.  What is sent is what is received.
    - [DnsRepl] ([replication.rs], [dynupdate.rs], [geo.rs], the snapshots of
      [resolver.rs] and [build_axfr_stream] of [service.rs]): who may transfer, the
      refresh of a secondary, expiry, the background scan, and dynamic updates.  A
      refresh refines copying the zone; transfers are authorized; expired copies are
      not served; a refused update changes nothing, and any update only what it names.
    - [AdDc] ([magnetite-addc/src/fsmo.rs], [topology.rs], the peer health of
      [lib.rs]): single-master roles, pools of relative identifiers, the replication
      ring and a turn of the topology manager.  Pools are disjoint, the ring connects
      the live controllers, a turn converges.

    The domain controller is modelled from the bytes of a connection to the tables:

    - [Utf16] (the conversions of the standard library), [Ndr] ([magnetite-rpc/src/
      ndr.rs]): the encodings of the RPC interfaces; a valid string survives both
      conversions, and a logic relates what is written to what is read.
    - [KdcStore] ([magnetite-krb5/src/keys.rs]): the principals of the KDC.  A revoked
      principal has no key until it is registered again.
    - [AdDirectory] ([magnetite-rpc/src/directory.rs]): accounts, groups and pools of
      relative identifiers in memory.
    - [AdStore] ([magnetite-db/src/ad.rs], [replication.rs]): the tables of accounts,
      groups, stamps and cursors.  Each call refines a function on finite maps, and
      replicas that merge the same changes in any order converge.
    - [Rpc] ([pdu.rs], [request.rs], [bind.rs], [auth.rs]), [Ntlm] ([ntlmssp.rs]),
      [Gss] and [Spnego] ([magnetite-krb5/src/gss.rs], [spnego.rs]): packets and the
      three ways to protect them.  Streams are framed, tokens and sealed
      conversations read back; what does not fit a packet is not delivered.
    - [DrsSecret], [DrsWire], [DrsObject], [Drs] ([drsuapi.rs]), [DrsClient]
      ([client.rs]): the directory replication service and its consumer.  Replies read
      back, only authorized callers replicate, paging delivers every object once, and
      pools granted over any run are disjoint.
    - [Samr] ([samr.rs]), [Netlogon] ([netlogon.rs]): account management and the
      secure channel.  A password that is set reaches the KDC and the store; a machine
      that rotates its password stays in step; whose password a rotation changes.
    - [RpcConn] ([server.rs], [interface.rs]), [RpcClient] ([client.rs]): a connection
      in every security state, and a client talking to it.  Calls are attributed only
      to who proved to be it, a connection without the right to replicate learns
      nothing, and a Kerberos client obtains the whole directory; which client the
      server refuses, and what an anonymous one can do.
    - [Ldap] ([domains/ldap]), [LdapDb] ([magnetite-db/src/ldap.rs]): distinguished
      names, and the repository of the directory tree.  The directory stays a tree
      over all sequences of calls, deletion is guarded, a rename carries the
      references, access follows the rules, seizing a role moves that role, and a
      password that was set binds.

    Fuel: the walk up the missing ancestors of a name ([LdapDb]) takes the length of
    the name, and [missing_ancestors_fuel] shows that more changes nothing; the loops
    over pages ([DrsClient]) and packets ([RpcClient]) take bounds that the theorems on
    completeness show to suffice.

    ** What is not modelled

    Sockets, tasks, TLS, HTTP and the web interface; cryptographic primitives and the
    ASN.1 messages of Kerberos, which are classes with the laws the code relies on;
    DNSSEC and TSIG signing and SMB signing; the codecs of third-party crates; of the
    center store everything but the lease; the LDAP and SMB servers; the tasks of the
    domain controller that drive replication; mail, single sign-on and monitoring with
    their repositories.  Of [LdapDb], the projection of groups, which reads the tables
    of [AdStore] as well. *)

From Stdlib Require Export ZArith Lia Bool Ascii.
From stdpp Require Export base strings gmap sorting option list.
Open Scope Z_scope.

(** ** Automation *)

(** Case analysis on the scrutinee of the first [match] or [if] found in the
    goal or in a hypothesis. *)
Ltac case_goal :=
  match goal with
  | |- context [match ?x with _ => _ end] =>
      lazymatch x with context [match _ with _ => _ end] => fail | _ => destruct x eqn:? end
  end.

Ltac case_hyp :=
  match goal with
  | H : context [match ?x with _ => _ end] |- _ =>
      lazymatch x with context [match _ with _ => _ end] => fail | _ => destruct x eqn:? end
  end.

(** Turn boolean comparisons and connectives of the hypotheses and of the goal
    into propositions. *)
Ltac to_prop :=
  repeat match goal with
  | H : _ && _ = true |- _ => apply andb_true_iff in H; destruct H
  | H : _ || _ = false |- _ => apply orb_false_iff in H; destruct H
  | H : negb _ = true |- _ => apply negb_true_iff in H
  | H : negb _ = false |- _ => apply negb_false_iff in H
  | H : (_ <? _) = true |- _ => apply Z.ltb_lt in H
  | H : (_ <? _) = false |- _ => apply Z.ltb_ge in H
  | H : (_ <=? _) = true |- _ => apply Z.leb_le in H
  | H : (_ <=? _) = false |- _ => apply Z.leb_gt in H
  | H : (_ =? _) = true |- _ => apply Z.eqb_eq in H
  | H : (_ =? _) = false |- _ => apply Z.eqb_neq in H
  | H : bool_decide _ = true |- _ => apply bool_decide_eq_true in H
  | H : bool_decide _ = false |- _ => apply bool_decide_eq_false in H
  end.

(** [lia] with division and remainder by constants. *)
Ltac dlia := Z.to_euclidean_division_equations; lia.

Create HintDb magnetite.

(** ** Options *)

(** Rust's [Option::is_some_and]. *)
Definition is_some_and {A} (f : A -> bool) (o : option A) : bool :=
  match o with Some a => f a | None => false end.

(** Rust's [Option::is_none_or]. *)
Definition is_none_or {A} (f : A -> bool) (o : option A) : bool :=
  match o with Some a => f a | None => true end.

Definition unwrap_or {A} (d : A) (o : option A) : A :=
  match o with Some a => a | None => d end.

Lemma is_some_and_true {A} (f : A -> bool) o :
  is_some_and f o = true <-> exists a, o = Some a /\ f a = true.
Proof. destruct o; simpl; naive_solver. Qed.

(** ** Iterators *)

(** [Iterator::filter_map]. *)
Fixpoint filter_map {A B} (f : A -> option B) (l : list A) : list B :=
  match l with
  | [] => []
  | a :: l' =>
      match f a with
      | Some b => b :: filter_map f l'
      | None => filter_map f l'
      end
  end.

(** [Iterator::max_by_key]: of several greatest elements the last one. *)
Definition max_by_key {A} (key : A -> Z) (l : list A) : option A :=
  fold_left
    (fun best x =>
       match best with
       | None => Some x
       | Some y => if key y <=? key x then Some x else Some y
       end) l None.

(** [Iterator::min_by_key]: of several least elements the first one. *)
Definition min_by_key {A} (key : A -> Z) (l : list A) : option A :=
  fold_left
    (fun best x =>
       match best with
       | None => Some x
       | Some y => if key y <=? key x then Some y else Some x
       end) l None.

(** [Iterator::position]. *)
Fixpoint position {A} (f : A -> bool) (l : list A) : option nat :=
  match l with
  | [] => None
  | a :: l' => if f a then Some 0%nat else S <$> position f l'
  end.

(** [slice::sort_by], a stable sort, as insertion sort: an element goes before
    the first later element that is not smaller. *)
Fixpoint insert_by {A} (le : A -> A -> bool) (x : A) (l : list A) : list A :=
  match l with
  | [] => [x]
  | y :: l' => if le x y then x :: y :: l' else y :: insert_by le x l'
  end.

Fixpoint sort_by {A} (le : A -> A -> bool) (l : list A) : list A :=
  match l with
  | [] => []
  | x :: l' => insert_by le x (sort_by le l')
  end.

(** [Vec::dedup_by]: drops an element equal to its predecessor that was kept. *)
Fixpoint dedup_by {A} (same : A -> A -> bool) (l : list A) : list A :=
  match l with
  | [] => []
  | x :: l' =>
      match dedup_by same l' with
      | [] => [x]
      | y :: r => if same x y then x :: r else x :: y :: r
      end
  end.

Lemma filter_map_In {A B} (f : A -> option B) l b :
  In b (filter_map f l) <-> exists a, In a l /\ f a = Some b.
Proof.
  induction l as [|a l IH]; simpl; [naive_solver|].
  destruct (f a) eqn:E; simpl; rewrite IH; naive_solver.
Qed.

Lemma find_some_iff {A} (f : A -> bool) l x :
  find f l = Some x <->
  exists l1 l2, l = l1 ++ x :: l2 /\ f x = true /\ (forall y, In y l1 -> f y = false).
Proof.
  induction l as [|a l IH]; simpl.
  - split; [done|]. intros (l1 & l2 & E & _). by destruct l1.
  - destruct (f a) eqn:Fa; split.
    + intros [= ->]. exists [], l. naive_solver.
    + intros (l1 & l2 & E & Fx & H). destruct l1 as [|b l1]; simplify_eq/=; [done|].
      rewrite H in Fa; naive_solver.
    + intros (l1 & l2 & -> & Fx & H)%IH. exists (a :: l1), l2. naive_solver.
    + intros (l1 & l2 & E & Fx & H). destruct l1 as [|b l1]; simplify_eq/=; [congruence|].
      apply IH. exists l1, l2. naive_solver.
Qed.

Section extremum.
Context {A : Type} (key : A -> Z).

Lemma max_by_key_fold l : forall b,
  exists m, fold_left (fun best x =>
       match best with
       | None => Some x
       | Some y => if key y <=? key x then Some x else Some y
       end) l (Some b) = Some m /\
    (m = b \/ In m l) /\ key b <= key m /\ (forall y, In y l -> key y <= key m).
Proof.
  induction l as [|a l IH]; intros b; simpl.
  - exists b. naive_solver lia.
  - destruct (key b <=? key a) eqn:E; to_prop;
      [destruct (IH a) as (m & Hm & ? & ? & ?)|destruct (IH b) as (m & Hm & ? & ? & ?)];
      exists m; (split_and!; [done|naive_solver|lia|intros y [<-|?]; [lia|auto]]).
Qed.

Lemma max_by_key_spec l m :
  max_by_key key l = Some m -> In m l /\ forall y, In y l -> key y <= key m.
Proof.
  destruct l as [|a l]; [done|]. unfold max_by_key; simpl.
  destruct (max_by_key_fold l a) as (m' & -> & ? & ? & ?). intros [= ->].
  split; [naive_solver|]. intros y [<-|?]; auto.
Qed.

Lemma max_by_key_none l : max_by_key key l = None <-> l = [].
Proof.
  destruct l as [|a l]; [done|]. unfold max_by_key; simpl.
  destruct (max_by_key_fold l a) as (m' & -> & _). naive_solver.
Qed.

Lemma min_by_key_fold l : forall b,
  exists m, fold_left (fun best x =>
       match best with
       | None => Some x
       | Some y => if key y <=? key x then Some y else Some x
       end) l (Some b) = Some m /\
    (m = b \/ In m l) /\ key m <= key b /\ (forall y, In y l -> key m <= key y).
Proof.
  induction l as [|a l IH]; intros b; simpl.
  - exists b. naive_solver lia.
  - destruct (key b <=? key a) eqn:E; to_prop;
      [destruct (IH b) as (m & Hm & ? & ? & ?)|destruct (IH a) as (m & Hm & ? & ? & ?)];
      exists m; (split_and!; [done|naive_solver|lia|intros y [<-|?]; [lia|auto]]).
Qed.

Lemma min_by_key_spec l m :
  min_by_key key l = Some m -> In m l /\ forall y, In y l -> key m <= key y.
Proof.
  destruct l as [|a l]; [done|]. unfold min_by_key; simpl.
  destruct (min_by_key_fold l a) as (m' & -> & ? & ? & ?). intros [= ->].
  split; [naive_solver|]. intros y [<-|?]; auto.
Qed.

Lemma min_by_key_none l : min_by_key key l = None <-> l = [].
Proof.
  destruct l as [|a l]; [done|]. unfold min_by_key; simpl.
  destruct (min_by_key_fold l a) as (m' & -> & _). naive_solver.
Qed.
End extremum.

(** ** The stable sort *)

Section sorting.
Context {A : Type} (le : A -> A -> bool).

Lemma insert_by_perm x l : insert_by le x l ≡ₚ x :: l.
Proof.
  induction l as [|y l IH]; simpl; [done|].
  destruct (le x y); [done|]. rewrite IH. apply Permutation_swap.
Qed.

Lemma sort_by_perm l : sort_by le l ≡ₚ l.
Proof. induction l as [|x l IH]; simpl; [done|]. by rewrite insert_by_perm, IH. Qed.

Hypothesis le_total : forall x y, le x y = true \/ le y x = true.
Hypothesis le_trans : forall x y z, le x y = true -> le y z = true -> le x z = true.

Lemma insert_by_sorted x l :
  StronglySorted (fun a b => le a b = true) l ->
  StronglySorted (fun a b => le a b = true) (insert_by le x l).
Proof.
  induction 1 as [|y l Hs IH Hall]; simpl; [repeat constructor|].
  destruct (le x y) eqn:E.
  - constructor; [by constructor|]. constructor; [done|].
    eapply Forall_impl; [exact Hall|]. eauto.
  - constructor; [done|]. rewrite insert_by_perm. constructor; [|done].
    destruct (le_total x y); congruence.
Qed.

Lemma sort_by_sorted l : StronglySorted (fun a b => le a b = true) (sort_by le l).
Proof. induction l; simpl; [constructor|]. by apply insert_by_sorted. Qed.
End sorting.

#[export] Hint Resolve sort_by_perm : magnetite.

(** ** First match in a list sorted by key *)

(** [sort_by_key]: the stable sort by an integer key. *)
Definition sort_by_key {A} (key : A -> Z) : list A -> list A := sort_by (fun a b => key a <=? key b).

Section first_match.
Context {A : Type} (key : A -> Z) (f : A -> bool).

Lemma min_by_key_cons x l :
  min_by_key key (x :: l) =
  match min_by_key key l with
  | None => Some x
  | Some y => if key x <=? key y then Some x else Some y
  end.
Proof.
  unfold min_by_key. simpl.
  set (step := fun best x => _).
  assert (forall l x, fold_left step l (Some x) =
    match fold_left step l None with
    | None => Some x
    | Some y => if key x <=? key y then Some x else Some y
    end) as H; [|apply H].
  clear x l. induction l as [|y l IH]; intros x; [done|].
  change (fold_left step (y :: l) None) with (fold_left step l (Some y)).
  change (fold_left step (y :: l) (Some x))
    with (fold_left step l (if key x <=? key y then Some x else Some y)).
  rewrite (IH y). destruct (key x <=? key y) eqn:E; rewrite IH;
    destruct (fold_left step l None) as [z|]; repeat case_match; simplify_eq; to_prop; try done; lia.
Qed.

Lemma find_insert x l :
  StronglySorted (fun a b => (key a <=? key b) = true) l ->
  find f (insert_by (fun a b => key a <=? key b) x l) =
  if f x then match find f l with
              | None => Some x
              | Some y => if key x <=? key y then Some x else Some y
              end
  else find f l.
Proof.
  induction 1 as [|y l Hs IH Hall]; simpl; [done|].
  destruct (key x <=? key y) eqn:E; simpl.
  - destruct (f x) eqn:Fx; [|done]. destruct (f y); [by rewrite E|].
    destruct (find f l) as [z|] eqn:Ez; [|done].
    apply find_some in Ez as [Hz%list_elem_of_In _]. rewrite Forall_forall in Hall.
    specialize (Hall z Hz). to_prop. by rewrite (proj2 (Z.leb_le _ _)) by lia.
  - destruct (f y) eqn:Fy; [|done]. destruct (f x); [by rewrite E|done].
Qed.

(** Scanning the sorted list for the first match is taking the match with the
    least key, the earliest among equals. *)
Lemma find_sort_by_key l : find f (sort_by_key key l) = min_by_key key (List.filter f l).
Proof.
  unfold sort_by_key. induction l as [|x l IH]; simpl; [done|].
  rewrite find_insert by (apply sort_by_sorted; intros; rewrite ?Z.leb_le in *; lia).
  rewrite IH. destruct (f x); [|done]. by rewrite min_by_key_cons.
Qed.

(** Where the first least match stands. *)
Lemma min_by_key_filter_spec l m :
  min_by_key key (List.filter f l) = Some m ->
  exists l1 l2, l = l1 ++ m :: l2 /\ f m = true /\
    (forall y, In y l1 -> f y = true -> key m < key y) /\
    (forall y, In y l2 -> f y = true -> key m <= key y).
Proof.
  revert m; induction l as [|x l IH]; intros m; simpl; [done|].
  destruct (f x) eqn:Fx.
  - rewrite min_by_key_cons. destruct (min_by_key key (List.filter f l)) as [y|] eqn:E.
    + destruct (key x <=? key y) eqn:Ek; to_prop; intros [= <-].
      * exists [], l. split_and!; [done|done|done|].
        intros z Hz Fz. apply min_by_key_spec in E as [_ E].
        specialize (E z). rewrite filter_In in E. specialize (E (conj Hz Fz)). lia.
      * destruct (IH y eq_refl) as (l1 & l2 & -> & ? & H1 & H2).
        exists (x :: l1), l2. split_and!; [done|done| |done].
        intros z [<-|Hz]; [lia|auto].
    + intros [= <-]. exists [], l. split_and!; [done|done|done|].
      intros z Hz Fz. apply min_by_key_none in E.
      assert (In z (List.filter f l)) as Hin by by apply filter_In. by rewrite E in Hin.
  - intros (l1 & l2 & -> & ? & H1 & H2)%IH. exists (x :: l1), l2.
    split_and!; [done|done| |done]. intros z [<-|Hz] Fz; [congruence|auto].
Qed.
End first_match.

(** ** Filtering *)

Lemma existsb_ext {A} (f g : A -> bool) l : (forall x, f x = g x) -> existsb f l = existsb g l.
Proof. intros H. induction l as [|x l IH]; [done|]. simpl. by rewrite H, IH. Qed.

Lemma filter_filter {A} (f g : A -> bool) l :
  List.filter f (List.filter g l) = List.filter (fun x => g x && f x) l.
Proof.
  induction l as [|x l IH]; simpl; [done|].
  destruct (g x) eqn:G; simpl; [destruct (f x)|]; rewrite IH; done.
Qed.

Lemma filter_none {A} (f : A -> bool) l :
  (forall x, In x l -> f x = false) -> List.filter f l = [].
Proof.
  induction l as [|x l IH]; simpl; intros H; [done|].
  rewrite (H x) by auto. apply IH. auto.
Qed.

#[export] Instance filter_Proper {A} (f : A -> bool) :
  Proper (Permutation ==> Permutation) (List.filter f).
Proof.
  intros l1 l2 H. induction H as [|x l1 l2 _ IH|x y l|l1 l2 l3 _ IH1 _ IH2]; simpl; [done|..].
  - by destruct (f x); rewrite IH.
  - destruct (f x), (f y); done || apply Permutation_swap.
  - by rewrite IH1.
Qed.

Lemma filter_length_perm {A} (f : A -> bool) l1 l2 :
  l1 ≡ₚ l2 -> length (List.filter f l1) = length (List.filter f l2).
Proof. intros H. by rewrite H. Qed.

(** Which rule decides when rules are scanned by ascending priority: the first
    applicable one of least priority, and the default when none applies. *)
Lemma priority_scan {R Act} (prio : R -> Z) (pre app : R -> bool) (act : R -> Act) (dflt : Act) rules :
  let d := unwrap_or dflt (act <$> find app (sort_by_key prio (List.filter pre rules))) in
  (d = dflt /\ forall r, In r rules -> pre r && app r = false) \/
  (exists l1 r l2, rules = l1 ++ r :: l2 /\ pre r && app r = true /\ d = act r /\
     (forall y, In y l1 -> pre y && app y = true -> prio r < prio y) /\
     (forall y, In y l2 -> pre y && app y = true -> prio r <= prio y)).
Proof.
  simpl. rewrite find_sort_by_key, filter_filter.
  destruct (min_by_key prio _) as [r|] eqn:E.
  - right. apply min_by_key_filter_spec in E as (l1 & l2 & ? & ? & ? & ?).
    exists l1, r, l2. auto.
  - left. split; [done|]. intros r Hr. apply min_by_key_none in E.
    destruct (pre r && app r) eqn:Er; [|done].
    assert (In r (List.filter (fun x => pre x && app x) rules)) as Hin by by apply filter_In.
    by rewrite E in Hin.
Qed.

Lemma position_Some {A} (f : A -> bool) l i : position f l = Some i ->
  exists a, l !! i = Some a /\ f a = true /\ forall j b, (j < i)%nat -> l !! j = Some b -> f b = false.
Proof.
  revert i. induction l as [|a l IH]; intros i; simpl; [done|]. destruct (f a) eqn:E.
  - intros [= <-]. exists a. split_and!; [done|done|intros; lia].
  - destruct (position f l) as [k|]; [|done]. intros [= <-]. destruct (IH k eq_refl) as (x & Hx & Hf & Hlt).
    exists x. split_and!; [done|done|]. intros [|j] b Hj; simpl; [by intros [= <-]|]. apply Hlt. lia.
Qed.

Lemma position_None {A} (f : A -> bool) l : position f l = None -> forall a, In a l -> f a = false.
Proof.
  induction l as [|x l IH]; simpl; [done|]. destruct (f x) eqn:E; [done|]. destruct (position f l); [done|].
  intros _ a [<-|Hin]; auto.
Qed.

Lemma StronglySorted_lookup_lt {A} (R : A -> A -> Prop) l i j a b :
  StronglySorted R l -> l !! i = Some a -> l !! j = Some b -> (i < j)%nat -> R a b.
Proof.
  intros H. revert i j. induction H as [|x l H IH HF]; intros [|i] [|j]; simpl; try (done || lia).
  - intros [= ->] Hj _. eapply (proj1 (Forall_forall _ _) HF). by eapply list_elem_of_lookup_2.
  - intros Hi Hj Hij. eapply IH; eauto. lia.
Qed.
