(* ===== verification/Bytes.v ===== *)
(** * Machine integers, byte slices and running Rust code

    The shared model of the language: fixed-width unsigned integers as [Z] with
    the wrap-around written out, [u8] slices as [list Z] whose elements are
    bytes, [to_le_bytes] / [from_be_bytes] and friends, bounds-checked slicing,
    and the three ways a call can end (it returns, it panics, or the model's
    fuel runs out). *)

From S2P Require Import Prelude.

(** ** Outcomes of a call *)

(** [Ret a]: the call returns [a]; [Panic]: an index or slice out of range;
    [OutOfFuel]: the model's loop bound was too small (the theorems show that
    the bounds chosen never are). *)
Inductive outcome (A : Type) : Type :=
| Ret (a : A)
| Panic
| OutOfFuel.
Arguments Ret {A} _.
Arguments Panic {A}.
Arguments OutOfFuel {A}.

Definition obind {A B} (m : outcome A) (f : A -> outcome B) : outcome B :=
  match m with
  | Ret a => f a
  | Panic => Panic
  | OutOfFuel => OutOfFuel
  end.

Declare Scope outcome_scope.
Delimit Scope outcome_scope with outcome.
Notation "'let!' x ':=' m 'in' k" := (obind m (fun x => k))
  (at level 200, x pattern, m at level 100, k at level 200) : outcome_scope.

(** ** Unsigned integers *)

Definition u8 (z : Z) : Z := z mod 2 ^ 8.
Definition u16 (z : Z) : Z := z mod 2 ^ 16.
Definition u32 (z : Z) : Z := z mod 2 ^ 32.
Definition u64 (z : Z) : Z := z mod 2 ^ 64.

Definition U16_MAX : Z := 2 ^ 16 - 1.
Definition U32_MAX : Z := 2 ^ 32 - 1.
Definition U64_MAX : Z := 2 ^ 64 - 1.
Definition USIZE_MAX : Z := 2 ^ 64 - 1.
Definition U128_MAX : Z := 2 ^ 128 - 1.

Definition is_u8 (z : Z) : Prop := 0 <= z < 2 ^ 8.
Definition is_u16 (z : Z) : Prop := 0 <= z < 2 ^ 16.
Definition is_u32 (z : Z) : Prop := 0 <= z < 2 ^ 32.

(** [u32] addition that saturates. *)
Definition saturating_add32 (a b : Z) : Z := Z.min (a + b) U32_MAX.

(** [usize::saturating_sub]. *)
Definition saturating_sub (a b : Z) : Z := Z.max 0 (a - b).

(** [usize::checked_sub]. *)
Definition checked_sub (a b : Z) : option Z := if b <=? a then Some (a - b) else None.

(** [usize::checked_add] on a 64-bit target. *)
Definition checked_add (a b : Z) : option Z :=
  if a + b <=? USIZE_MAX then Some (a + b) else None.

(** [u32 << k] for [k < 32]: the bits shifted out are lost. *)
Definition u32_shl (a k : Z) : Z := u32 (Z.shiftl a k).
Definition u16_shl (a k : Z) : Z := u16 (Z.shiftl a k).

(** ** Byte slices *)

Abbreviation bytes := (list Z).

Definition bytes_ok (l : bytes) : Prop := Forall is_u8 l.

Definition len {A} (l : list A) : Z := Z.of_nat (length l).

(** [slice.get(i..j)]. *)
Definition slice_get {A} (l : list A) (i j : nat) : option (list A) :=
  if (i <=? j)%nat && (j <=? length l)%nat then Some (take (j - i) (drop i l)) else None.

(** [&slice[i..j]]: panics out of range. *)
Definition slice_idx {A} (l : list A) (i j : nat) : outcome (list A) :=
  match slice_get l i j with Some s => Ret s | None => Panic end.

(** [slice[i]]: panics out of range. *)
Definition idx {A} (l : list A) (i : nat) : outcome A :=
  match l !! i with Some b => Ret b | None => Panic end.

Fixpoint to_le_bytes (n : nat) (v : Z) : bytes :=
  match n with
  | O => []
  | S n' => v mod 256 :: to_le_bytes n' (v / 256)
  end.

Fixpoint from_le_bytes (l : bytes) : Z :=
  match l with
  | [] => 0
  | b :: l' => b + 256 * from_le_bytes l'
  end.

Definition to_be_bytes (n : nat) (v : Z) : bytes := rev (to_le_bytes n v).
Definition from_be_bytes (l : bytes) : Z := from_le_bytes (rev l).

Lemma to_le_bytes_length n v : length (to_le_bytes n v) = n.
Proof. revert v; induction n; intros v; simpl; auto. Qed.

Lemma to_le_bytes_ok n v : bytes_ok (to_le_bytes n v).
Proof.
  revert v; induction n; intros v; simpl; constructor; [|apply IHn].
  unfold is_u8. apply Z.mod_pos_bound. lia.
Qed.

Lemma from_to_le_bytes n v : 0 <= v < 256 ^ Z.of_nat n -> from_le_bytes (to_le_bytes n v) = v.
Proof.
  revert v; induction n as [|n IH]; intros v Hv.
  - simpl in *. lia.
  - rewrite Nat2Z.inj_succ, Z.pow_succ_r in Hv by lia.
    cbn [to_le_bytes from_le_bytes]. rewrite IH.
    + pose proof (Z.div_mod v 256). lia.
    + split; [apply Z.div_pos; lia|]. apply Z.div_lt_upper_bound; lia.
Qed.

Lemma to_be_bytes_length n v : length (to_be_bytes n v) = n.
Proof. unfold to_be_bytes. by rewrite length_rev, to_le_bytes_length. Qed.

Lemma to_be_bytes_ok n v : bytes_ok (to_be_bytes n v).
Proof. unfold to_be_bytes, bytes_ok. apply Forall_rev, to_le_bytes_ok. Qed.

Lemma from_to_be_bytes n v : 0 <= v < 256 ^ Z.of_nat n -> from_be_bytes (to_be_bytes n v) = v.
Proof. unfold from_be_bytes, to_be_bytes. rewrite rev_involutive. apply from_to_le_bytes. Qed.

Lemma from_le_bytes_bound l : bytes_ok l -> 0 <= from_le_bytes l < 256 ^ len l.
Proof.
  unfold len. induction 1 as [|b l Hb _ IH]; [simpl; lia|].
  simpl length. rewrite Nat2Z.inj_succ, Z.pow_succ_r by lia.
  cbn [from_le_bytes]. unfold is_u8 in Hb. lia.
Qed.

Lemma slice_get_Some {A} (l s : list A) i j :
  slice_get l i j = Some s <->
  (i <= j)%nat /\ (j <= length l)%nat /\ s = take (j - i) (drop i l).
Proof.
  unfold slice_get. destruct (i <=? j)%nat eqn:E1, (j <=? length l)%nat eqn:E2; simpl;
    rewrite ?Nat.leb_le, ?Nat.leb_gt in *; naive_solver lia.
Qed.

(** Reading the front of what is left of a buffer. *)
Lemma slice_get_app {A} (l p r : list A) i n :
  drop i l = p ++ r -> (i <= length l)%nat -> length p = n -> slice_get l i (i + n) = Some p.
Proof.
  intros Hd Hi <-. apply slice_get_Some. split_and!; [lia| |].
  - assert (length (drop i l) = length (p ++ r)) as HL by by rewrite Hd.
    rewrite length_drop, length_app in HL. lia.
  - replace (i + length p - i)%nat with (length p) by lia.
    by rewrite Hd, take_app_length.
Qed.

Lemma drop_app_shift {A} (l p r : list A) i :
  drop i l = p ++ r -> drop (i + length p) l = r.
Proof. intros Hd. by rewrite <- drop_drop, Hd, drop_app_length. Qed.

Lemma lookup_of_drop {A} (l r : list A) i x : drop i l = x :: r -> l !! i = Some x.
Proof. intros Hd. by rewrite <- (Nat.add_0_r i), <- lookup_drop, Hd. Qed.

(** [i64::from_le_bytes], and [x as i64] of a [u64] *)
Definition is_i64 (z : Z) : Prop := - 2 ^ 63 <= z < 2 ^ 63.
Definition as_i64 (x : Z) : Z := if x <? 2 ^ 63 then x else x - 2 ^ 64.
Definition from_le_bytes_i64 (l : bytes) : Z := as_i64 (from_le_bytes l).

Lemma to_le_bytes_wrap n : forall v, to_le_bytes n v = to_le_bytes n (v mod 256 ^ Z.of_nat n).
Proof.
  induction n as [|n IH]; intros v; [done|]. cbn [to_le_bytes]. rewrite Nat2Z.inj_succ, Z.pow_succ_r by lia.
  pose proof (Z.pow_pos_nonneg 256 (Z.of_nat n) ltac:(lia) ltac:(lia)).
  rewrite Z.rem_mul_r by lia. f_equal.
  - rewrite (Z.mul_comm 256), Z.mod_add, Z.mod_mod by lia. done.
  - rewrite (Z.mul_comm 256), Z.div_add, (Z.div_small (v mod 256)), Z.add_0_l by (try lia; apply Z.mod_pos_bound; lia). apply IH.
Qed.

Lemma as_i64_wrap v : is_i64 v -> as_i64 (v mod 2 ^ 64) = v.
Proof.
  unfold is_i64, as_i64. intros H. destruct (Z.ltb_spec (v mod 2 ^ 64) (2 ^ 63)); change (2 ^ 64) with (2 * 2 ^ 63) in *; dlia.
Qed.

Lemma from_to_le_bytes_i64 v : is_i64 v -> from_le_bytes_i64 (to_le_bytes 8 v) = v.
Proof.
  intros H. unfold from_le_bytes_i64. rewrite to_le_bytes_wrap. change (256 ^ Z.of_nat 8) with (2 ^ 64).
  rewrite from_to_le_bytes by (apply Z.mod_pos_bound; done). by apply as_i64_wrap.
Qed.

#[export] Hint Resolve to_le_bytes_ok to_be_bytes_ok : magnetite.
#[export] Hint Rewrite to_le_bytes_length to_be_bytes_length : magnetite.

(** ** Bit fields *)

Lemma testbit_small b k n : 0 <= b < 2 ^ k -> k <= n -> Z.testbit b n = false.
Proof.
  intros Hb Hn. destruct (decide (b = 0)) as [->|]; [apply Z.bits_0|].
  apply Z.bits_above_log2; [lia|].
  assert (Z.log2 b < k) by (apply Z.log2_lt_pow2; lia). lia.
Qed.

Lemma lor_shiftl_add a b k : 0 <= k -> 0 <= b < 2 ^ k -> Z.lor (Z.shiftl a k) b = a * 2 ^ k + b.
Proof.
  intros Hk Hb. rewrite <- Z.shiftl_mul_pow2 by done.
  assert (Z.land (Z.shiftl a k) b = 0) as E.
  { apply Z.bits_inj'. intros n Hn. rewrite Z.land_spec, Z.bits_0.
    destruct (decide (n < k)).
    - by rewrite Z.shiftl_spec_low by lia.
    - rewrite (testbit_small b k n) by lia. apply andb_false_r. }
  pose proof (Z.add_lor_land (Z.shiftl a k) b). lia.
Qed.

(** The top bit of a 32-bit word that is assembled as [b * 2^31 + x]. *)
Lemma land_top_bit b x : 0 <= x < 2 ^ 31 -> (b = 0 \/ b = 1) ->
  Z.land (b * 2 ^ 31 + x) 0x80000000 = b * 2 ^ 31.
Proof.
  intros Hx Hb. change 0x80000000 with (Z.shiftl 1 31).
  rewrite <- (lor_shiftl_add b x 31) by lia.
  apply Z.bits_inj'. intros n Hn. rewrite <- Z.shiftl_mul_pow2 by lia.
  rewrite Z.land_spec, Z.lor_spec, !Z.shiftl_spec by lia.
  destruct (decide (n < 31)) as [|].
  - rewrite !(Z.testbit_neg_r _ (n - 31)) by lia. apply andb_false_r.
  - rewrite (testbit_small x 31 n) by lia. rewrite orb_false_r.
    destruct Hb as [->| ->]; [by rewrite Z.bits_0|apply andb_diag].
Qed.

Lemma u32_shl_top_bit b x : 0 <= x < 2 ^ 31 -> (b = 0 \/ b = 1) ->
  u32_shl (b * 2 ^ 31 + x) 1 = 2 * x.
Proof.
  intros Hx Hb. unfold u32_shl, u32. rewrite Z.shiftl_mul_pow2 by lia.
  replace ((b * 2 ^ 31 + x) * 2 ^ 1) with (2 * x + b * 2 ^ 32) by lia.
  rewrite Z.mod_add by lia. apply Z.mod_small. lia.
Qed.

Lemma shiftr_field a b k : 0 <= k -> 0 <= b < 2 ^ k -> Z.shiftr (a * 2 ^ k + b) k = a.
Proof.
  intros Hk Hb. rewrite Z.shiftr_div_pow2 by done.
  rewrite Z.div_add_l by lia. rewrite Z.div_small by done. lia.
Qed.

Lemma land_field a b k : 0 <= k -> 0 <= b < 2 ^ k -> Z.land (a * 2 ^ k + b) (Z.ones k) = b.
Proof.
  intros Hk Hb. rewrite Z.land_ones by done.
  rewrite Z.add_comm, Z.mod_add by lia. by apply Z.mod_small.
Qed.

(** ** Lexicographic order ([Ord] of [Vec] and of tuples) *)

Fixpoint lex {A} (cmp : A -> A -> comparison) (a b : list A) : comparison :=
  match a, b with
  | [], [] => Eq
  | [], _ :: _ => Lt
  | _ :: _, [] => Gt
  | x :: a', y :: b' => match cmp x y with Eq => lex cmp a' b' | c => c end
  end.

(** The laws of [Ord::cmp]. *)
Class CmpLaws {A} (cmp : A -> A -> comparison) : Prop := {
  cmp_eq : forall a b, cmp a b = Eq <-> a = b;
  cmp_opp : forall a b, cmp b a = CompOpp (cmp a b);
  cmp_trans : forall a b c, cmp a b = Lt -> cmp b c = Lt -> cmp a c = Lt;
}.

#[export] Instance Z_CmpLaws : CmpLaws Z.compare.
Proof.
  split; intros *; [apply Z.compare_eq_iff|apply Z.compare_antisym|]. rewrite !Z.compare_lt_iff. lia.
Qed.

#[export] Instance lex_CmpLaws {A} (cmp : A -> A -> comparison) : CmpLaws cmp -> CmpLaws (lex cmp).
Proof.
  intros L. split.
  - induction a as [|x a IH]; intros [|y b]; simpl; try done. specialize (IH b).
    destruct (cmp x y) eqn:E; [apply cmp_eq in E as ->; rewrite IH; split; congruence|..];
      (split; [done|]); intros [= -> ->]; by rewrite (proj2 (cmp_eq y y) eq_refl) in E.
  - induction a as [|x a IH]; intros [|y b]; simpl; try done. rewrite (cmp_opp x y).
    destruct (cmp x y); simpl; auto.
  - induction a as [|x a IH]; intros [|y b] [|z c]; simpl; try done.
    destruct (cmp x y) eqn:E1; [apply cmp_eq in E1 as ->|..]; try done.
    + destruct (cmp y z) eqn:E2; try done. apply IH.
    + destruct (cmp y z) eqn:E2; try done; [apply cmp_eq in E2 as ->; by rewrite E1|].
      by rewrite (cmp_trans _ _ _ E1 E2).
Qed.

(** [Ord] of a tuple. *)
Definition pair_cmp {A B} (ca : A -> A -> comparison) (cb : B -> B -> comparison) (x y : A * B) : comparison :=
  match ca x.1 y.1 with Eq => cb x.2 y.2 | c => c end.

#[export] Instance pair_CmpLaws {A B} (ca : A -> A -> comparison) (cb : B -> B -> comparison) :
  CmpLaws ca -> CmpLaws cb -> CmpLaws (pair_cmp ca cb).
Proof.
  intros La Lb. split; unfold pair_cmp.
  - intros [a b] [a' b']. simpl. destruct (ca a a') eqn:E.
    + apply cmp_eq in E as ->. rewrite (cmp_eq b b'). split; congruence.
    + split; [done|]. intros [= -> _]. by rewrite (proj2 (cmp_eq a' a') eq_refl) in E.
    + split; [done|]. intros [= -> _]. by rewrite (proj2 (cmp_eq a' a') eq_refl) in E.
  - intros [a b] [a' b']. simpl. rewrite (cmp_opp (cmp := ca) a a'), (cmp_opp (cmp := cb) b b'). by destruct (ca a a').
  - intros [a b] [a' b'] [a'' b'']. simpl. destruct (ca a a') eqn:E1; [apply cmp_eq in E1 as ->| |done].
    + destruct (ca a' a''); [apply cmp_trans|done..].
    + destruct (ca a' a'') eqn:E2; [apply cmp_eq in E2 as ->; by rewrite E1| |done].
      by rewrite (cmp_trans _ _ _ E1 E2).
Qed.

Section cmp_facts.
Context {A : Type} (cmp : A -> A -> comparison) {L : CmpLaws cmp}.

Lemma cmp_refl a : cmp a a = Eq.
Proof. by apply cmp_eq. Qed.

Definition cle (a b : A) : bool := match cmp a b with Gt => false | _ => true end.
Definition clt (a b : A) : bool := match cmp a b with Lt => true | _ => false end.

Lemma clt_iff a b : clt a b = true <-> cmp a b = Lt.
Proof. unfold clt. by destruct (cmp a b). Qed.

Lemma clt_not_cle a b : clt a b = false <-> cle b a = true.
Proof. unfold clt, cle. rewrite (cmp_opp a b). by destruct (cmp a b). Qed.

Lemma cle_total a b : cle a b = true \/ cle b a = true.
Proof. unfold cle. rewrite (cmp_opp a b). destruct (cmp a b); simpl; auto. Qed.

Lemma clt_trans a b c : clt a b = true -> clt b c = true -> clt a c = true.
Proof. rewrite !clt_iff. apply cmp_trans. Qed.

Lemma cle_cases a b : cle a b = true <-> clt a b = true \/ a = b.
Proof. rewrite clt_iff, <-cmp_eq. unfold cle. destruct (cmp a b); naive_solver. Qed.

Lemma cle_trans a b c : cle a b = true -> cle b c = true -> cle a c = true.
Proof.
  rewrite !cle_cases. intros [H1| ->]; [|done]. intros [H2| <-]; left; [by eapply clt_trans|done].
Qed.

Lemma clt_irrefl a : clt a a = false.
Proof. unfold clt. by rewrite cmp_refl. Qed.

Lemma clt_cle_trans a b c : clt a b = true -> cle b c = true -> clt a c = true.
Proof. rewrite cle_cases. intros H [H2| <-]; [by eapply clt_trans|done]. Qed.

Lemma cle_clt_trans a b c : cle a b = true -> clt b c = true -> clt a c = true.
Proof. rewrite cle_cases. intros [H| ->] H2; [by eapply clt_trans|done]. Qed.
End cmp_facts.

Definition bytes_cmp : bytes -> bytes -> comparison := lex Z.compare.

#[export] Instance bytes_CmpLaws : CmpLaws bytes_cmp := _.
