(* ===== verification/Lz77.v ===== *)
(** * SMB2 compression: plain LZ77 and the compression transform

    Models [crates/magnetite-smb/src/comp.rs]: the greedy compressor
    ([lz77_compress], [find_match]), the decompressor with the full extended
    length encoding ([lz77_decompress]) and the transform header that wraps a
    message ([compress_message], [decompress_message]).  Loops run on fuel that
    the theorems show to be enough; an index that Rust would check at run time
    is [idx], which panics out of range. *)

From S2P Require Import Prelude Bytes.
Open Scope outcome_scope.

Definition COMPRESSION_PROTOCOL_ID : bytes := [0xFC; 0x53; 0x4D; 0x42].
Definition TRANSFORM_HEADER_LEN : nat := 16.
Definition COMPRESSION_ALGORITHM_LZ77 : Z := 0x0002.
Definition MAX_MATCH : nat := 9.
Definition MAX_OFFSET : nat := Z.to_nat 8192.
Definition MAX_DECOMPRESSED : Z := 16 * 1024 * 1024.

(** ** Compression *)

(** [while len < max_len && input[start + len] == input[pos + len]], with
    [room = max_len - len]; the indices are in range since
    [max_len <= input.len() - pos] and [start < pos]. *)
Fixpoint extend_match (input : bytes) (start pos len room : nat) : nat :=
  match room with
  | O => len
  | S room' =>
      if bool_decide (input !! (start + len)%nat = input !! (pos + len)%nat)
      then extend_match input start pos (S len) room'
      else len
  end.

(** The loop [for off in 1..=pos.min(MAX_OFFSET)] with its early [break]. *)
Fixpoint search_match (input : bytes) (pos max_len : nat) (offs : list nat)
    (best : nat * nat) : nat * nat :=
  match offs with
  | [] => best
  | off :: offs' =>
      let len := extend_match input (pos - off) pos 0 max_len in
      if (fst best <? len)%nat then
        if (len =? max_len)%nat then (len, off)
        else search_match input pos max_len offs' (len, off)
      else search_match input pos max_len offs' best
  end.

Definition find_match (input : bytes) (pos : nat) : nat * nat :=
  let max_len := Nat.min (length input - pos) MAX_MATCH in
  if (max_len <? 3)%nat then (0, 0)%nat
  else
    let best := search_match input pos max_len (seq 1 (Nat.min pos MAX_OFFSET)) (0, 0)%nat in
    if (3 <=? fst best)%nat then best else (0, 0)%nat.

(** The locals of [lz77_compress]. *)
Record cstate := CState {
  c_out : bytes;
  c_flags : Z;
  c_count : Z;
  c_group : bytes;
  c_i : nat;
}.

(** The end of the loop body: flush a group of 32 tokens. *)
Definition flush_full (st : cstate) : cstate :=
  if c_count st =? 32
  then CState (c_out st ++ to_le_bytes 4 (c_flags st) ++ c_group st) 0 0 [] (c_i st)
  else st.

Definition compress_step (input : bytes) (st : cstate) : outcome cstate :=
  let '(length, offset) := find_match input (c_i st) in
  if (3 <=? length)%nat then
    let meta := Z.lor (u16_shl (u16 (Z.of_nat offset - 1)) 3) (u16 (Z.of_nat length - 3)) in
    Ret (flush_full
           (CState (c_out st) (Z.lor (u32_shl (c_flags st) 1) 1) (c_count st + 1)
              (c_group st ++ to_le_bytes 2 meta) (c_i st + length)))
  else
    let! b := idx input (c_i st) in
    Ret (flush_full
           (CState (c_out st) (u32_shl (c_flags st) 1) (c_count st + 1)
              (c_group st ++ [b]) (S (c_i st)))).

Fixpoint compress_loop (fuel : nat) (input : bytes) (st : cstate) : outcome cstate :=
  if (c_i st <? length input)%nat then
    match fuel with
    | O => OutOfFuel
    | S fuel' => let! st' := compress_step input st in compress_loop fuel' input st'
    end
  else Ret st.

Definition lz77_compress (input : bytes) : outcome bytes :=
  let! st := compress_loop (length input) input (CState [] 0 0 [] 0) in
  Ret (if 0 <? c_count st
       then c_out st ++ to_le_bytes 4 (u32_shl (c_flags st) (32 - c_count st)) ++ c_group st
       else c_out st).

(** ** Decompression *)

(** The locals of [lz77_decompress]. *)
Record dstate := DState {
  d_out : bytes;
  d_i : nat;
  d_flags : Z;
  d_flag_count : Z;
  d_nibble : nat;
}.

(** How one iteration ends: go on, [break], or [return None] (the [?]s). *)
Inductive dstep :=
| Continue (st : dstate)
| Break
| Abort.

(** The extended length of a match token: shared nibble, byte, u16, u32.
    [None] is an early [return None]; otherwise the length, the new read index
    and the new pending-nibble index. *)
Definition read_length (input : bytes) (meta : Z) (i nibble : nat)
  : outcome (option (Z * nat * nat)) :=
  let length0 := Z.land meta 0x07 in
  if length0 =? 7 then
    let! nib :=
      if (nibble =? 0)%nat then
        Ret (match input !! i with
             | Some b => Some (Z.land b 0x0F, S i, i)
             | None => None
             end)
      else let! b := idx input nibble in Ret (Some (Z.shiftr b 4, i, 0%nat)) in
    Ret (match nib with
         | None => None
         | Some (l1, i1, nibble1) =>
             if l1 =? 15 then
               match input !! i1 with
               | None => None
               | Some l2 =>
                   if l2 =? 255 then
                     match slice_get input (S i1) (S i1 + 2) with
                     | None => None
                     | Some w =>
                         let l3 := from_le_bytes w in
                         let wide :=
                           if l3 =? 0 then
                             match slice_get input (S i1 + 2) (S i1 + 2 + 4) with
                             | None => None
                             | Some q => Some (from_le_bytes q, (S i1 + 2 + 4)%nat)
                             end
                           else Some (l3, (S i1 + 2)%nat) in
                         match wide with
                         | None => None
                         | Some (l4, i4) =>
                             match checked_sub l4 (15 + 7) with
                             | None => None
                             | Some l5 => Some (l5 + 15 + 7 + 3, i4, nibble1)
                             end
                         end
                     end
                   else Some (l2 + 15 + 7 + 3, S i1, nibble1)
               end
             else Some (l1 + 7 + 3, i1, nibble1)
         end)
  else Ret (Some (length0 + 3, i, nibble)).

(** [for _ in 0..length { out.push(out[out.len() - offset]); }] *)
Fixpoint copy_match (n : nat) (offset : nat) (out : bytes) : outcome bytes :=
  match n with
  | O => Ret out
  | S n' => let! b := idx out (length out - offset) in copy_match n' offset (out ++ [b])
  end.

Definition decompress_step (input : bytes) (max_out : Z) (st : dstate) : outcome dstep :=
  let reload :=
    if d_flag_count st =? 0 then
      match slice_get input (d_i st) (d_i st + 4) with
      | None => None
      | Some b => Some (from_le_bytes b, (d_i st + 4)%nat, 32)
      end
    else Some (d_flags st, d_i st, d_flag_count st) in
  match reload with
  | None => Ret Abort
  | Some (flags, i, flag_count) =>
      let is_match := negb (Z.land flags 0x80000000 =? 0) in
      let flags' := u32_shl flags 1 in
      if negb is_match then
        if max_out <=? len (d_out st) then Ret Abort
        else match input !! i with
             | None => Ret Abort
             | Some b =>
                 Ret (Continue (DState (d_out st ++ [b]) (S i) flags' (flag_count - 1) (d_nibble st)))
             end
      else if (length input <? i + 2)%nat then Ret Break
      else match slice_get input i (i + 2) with
           | None => Ret Abort
           | Some w =>
               let meta := from_le_bytes w in
               let offset := Z.shiftr meta 3 + 1 in
               let! r := read_length input meta (i + 2) (d_nibble st) in
               match r with
               | None => Ret Abort
               | Some (length, i', nibble') =>
                   if len (d_out st) <? offset then Ret Abort
                   else match checked_add (len (d_out st)) length with
                        | None => Ret Abort
                        | Some total =>
                            if max_out <? total then Ret Abort
                            else
                              let! out' := copy_match (Z.to_nat length) (Z.to_nat offset) (d_out st) in
                              Ret (Continue (DState out' i' flags' (flag_count - 1) nibble'))
                        end
               end
           end
  end.

Fixpoint decompress_loop (fuel : nat) (input : bytes) (max_out : Z) (st : dstate)
  : outcome (option bytes) :=
  if (d_i st <? length input)%nat then
    match fuel with
    | O => OutOfFuel
    | S fuel' =>
        let! r := decompress_step input max_out st in
        match r with
        | Continue st' => decompress_loop fuel' input max_out st'
        | Break => Ret (Some (d_out st))
        | Abort => Ret None
        end
    end
  else Ret (Some (d_out st)).

Definition lz77_decompress (input : bytes) (max_out : Z) : outcome (option bytes) :=
  decompress_loop (length input) input max_out (DState [] 0 0 0 0).

(** ** The transform header *)

Definition decompress_message (transform : bytes) : outcome (option bytes) :=
  if (length transform <? TRANSFORM_HEADER_LEN)%nat then Ret None
  else
    let! id := slice_idx transform 0 4 in
    if negb (bool_decide (id = COMPRESSION_PROTOCOL_ID)) then Ret None
    else
      match slice_get transform 4 8, slice_get transform 8 10, slice_get transform 12 16 with
      | Some osz, Some alg, Some off =>
          let original_size := from_le_bytes osz in
          let algorithm := from_le_bytes alg in
          let offset := from_le_bytes off in
          if negb (algorithm =? COMPRESSION_ALGORITHM_LZ77) then Ret None
          else if MAX_DECOMPRESSED <? original_size then Ret None
          else
            let payload := drop TRANSFORM_HEADER_LEN transform in
            if len payload <? offset then Ret None
            else
              let prefix := take (Z.to_nat offset) payload in
              let compressed := drop (Z.to_nat offset) payload in
              let! r := lz77_decompress compressed (saturating_sub original_size (len prefix)) in
              match r with
              | None => Ret None
              | Some d =>
                  let out := prefix ++ d in
                  Ret (if len out =? original_size then Some out else None)
              end
      | _, _, _ => Ret None
      end.

Definition compress_message (plaintext : bytes) : outcome bytes :=
  let! compressed := lz77_compress plaintext in
  Ret (COMPRESSION_PROTOCOL_ID ++ to_le_bytes 4 (u32 (len plaintext))
         ++ to_le_bytes 2 COMPRESSION_ALGORITHM_LZ77 ++ to_le_bytes 2 0 ++ to_le_bytes 4 0
         ++ compressed).

(** ** Runs of the code, from its unit tests *)

Example compress_abc : lz77_compress [97; 98; 99] = Ret [0; 0; 0; 0; 97; 98; 99].
Proof. vm_compute. reflexivity. Qed.

Example round_trip_abcabc :
  let c := [97; 98; 99; 97; 98; 99; 97; 98; 99; 97; 98; 99] in
  obind (lz77_compress c) (fun z => lz77_decompress z 100) = Ret (Some c).
Proof. vm_compute. reflexivity. Qed.

Example round_trip_run :
  let c := repeat 90 200 in
  (let! z := lz77_compress c in lz77_decompress z 200) = Ret (Some c)
  /\ (let! z := lz77_compress c in lz77_decompress z 199) = Ret None.
Proof. split; vm_compute; reflexivity. Qed.

(** ** The decompressor returns, never panics and respects the cap *)

Section safety.
Variables (input : bytes) (max_out : Z).
Hypothesis Hinput : bytes_ok input.

(** What holds between two iterations of [lz77_decompress]. *)
Definition dinv (st : dstate) : Prop :=
  bytes_ok (d_out st) /\ len (d_out st) <= max_out /\
  (d_nibble st = 0%nat \/ (d_nibble st < length input)%nat).

Lemma copy_match_total n : forall offset out,
  (1 <= offset <= length out)%nat -> bytes_ok out ->
  exists out', copy_match n offset out = Ret out' /\ length out' = (length out + n)%nat
               /\ bytes_ok out'.
Proof.
  induction n as [|n IH]; intros offset out Ho Hb; cbn [copy_match].
  - exists out. split_and!; [done|lia|done].
  - destruct (lookup_lt_is_Some_2 out (length out - offset)) as [b Eb]; [lia|].
    unfold idx. rewrite Eb; cbn [obind].
    assert (bytes_ok (out ++ [b])) as Hb'.
    { apply Forall_app_2; [done|]. constructor; [|done].
      eapply Forall_lookup_1 in Hb; eauto. }
    destruct (IH offset (out ++ [b])) as (out' & -> & Hl & Hok);
      [rewrite length_app; simpl; lia|done|].
    exists out'. rewrite length_app in Hl. simpl in Hl. split_and!; [done|lia|done].
Qed.

Lemma slice_bytes_ok (l s : bytes) i j : bytes_ok l -> slice_get l i j = Some s -> bytes_ok s.
Proof.
  intros Hl (_ & _ & ->)%slice_get_Some. by apply Forall_take, Forall_drop.
Qed.

Lemma read_length_total meta i nibble : 
  (nibble = 0%nat \/ (nibble < length input)%nat) -> 0 <= meta < 2 ^ 16 ->
  exists r, read_length input meta i nibble = Ret r /\
    (forall l i' n', r = Some (l, i', n') ->
       (i <= i')%nat /\ 0 <= l /\ (n' = 0%nat \/ (n' < length input)%nat)).
Proof.
  intros Hn Hm. unfold read_length.
  assert (0 <= Z.land meta 7) by (apply Z.land_nonneg; lia).
  destruct (Z.land meta 7 =? 7) eqn:E7; [|eexists; split; [done|intros; simplify_eq; lia]].
  assert (exists nib,
    (if (nibble =? 0)%nat then
        Ret (match input !! i with Some b => Some (Z.land b 0x0F, S i, i) | None => None end)
      else let! b := idx input nibble in Ret (Some (Z.shiftr b 4, i, 0%nat))) = Ret nib /\
    (forall l1 i1 n1, nib = Some (l1, i1, n1) ->
       (i <= i1)%nat /\ 0 <= l1 /\ (n1 = 0%nat \/ (n1 < length input)%nat))) as (nib & -> & Hnib).
  { destruct (nibble =? 0)%nat eqn:En.
    - eexists; split; [done|]. destruct (input !! i) as [b|] eqn:Eb; intros; simplify_eq.
      split_and!; [lia|apply Z.land_nonneg; right; lia|]. right. by eapply lookup_lt_Some.
    - apply Nat.eqb_neq in En. destruct Hn as [|Hn]; [lia|].
      destruct (lookup_lt_is_Some_2 input nibble Hn) as [b Eb].
      unfold idx. rewrite Eb; cbn [obind]. eexists; split; [done|]. intros; simplify_eq.
      split_and!; [lia| |by left]. apply Z.shiftr_nonneg.
      eapply Forall_lookup_1 in Eb; [|exact Hinput]. unfold is_u8 in Eb. lia. }
  cbn [obind]. eexists; split; [done|]. intros l i' n' Hr.
  destruct nib as [[[l1 i1] n1]|]; [|done].
  destruct (Hnib _ _ _ eq_refl) as (? & ? & ?).
  destruct (l1 =? 15); [|simplify_eq; lia].
  destruct (input !! i1) as [l2|] eqn:E2; [|done].
  eapply Forall_lookup_1 in E2; [|exact Hinput]. unfold is_u8 in E2.
  destruct (l2 =? 255); [|simplify_eq; lia].
  destruct (slice_get input (S i1) _) as [w|]; [|done].
  unfold checked_sub in Hr.
  repeat case_match; simplify_eq; to_prop; lia.
Qed.

Lemma decompress_step_total st :
  dinv st -> (d_i st < length input)%nat -> 
  exists r, decompress_step input max_out st = Ret r /\
    (forall st', r = Continue st' -> dinv st' /\ (d_i st < d_i st')%nat).
Proof.
  intros (Hb & Hc & Hn) Hi. unfold decompress_step.
  set (reload := if d_flag_count st =? 0 then _ else _).
  assert (forall f i c, reload = Some (f, i, c) -> (d_i st <= i)%nat) as Hre.
  { intros f i c. subst reload. repeat case_match; intros; simplify_eq; lia. }
  destruct reload as [[[flags i] fc]|]; [|eexists; naive_solver].
  specialize (Hre _ _ _ eq_refl).
  destruct (negb (negb _)).
  - destruct (max_out <=? _) eqn:Em; to_prop; [eexists; naive_solver|].
    destruct (input !! i) as [b|] eqn:Eb; [|eexists; naive_solver].
    eexists; split; [done|]. intros st' [= <-]. unfold dinv; cbn.
    eapply Forall_lookup_1 in Eb; [|exact Hinput].
    split_and!; [apply Forall_app_2; [done|by apply Forall_singleton]| |done|lia].
    unfold len in *. rewrite length_app; simpl. lia.
  - destruct (length input <? i + 2)%nat; [eexists; naive_solver|].
    destruct (slice_get input i (i + 2)) as [w|] eqn:Ew; [|eexists; naive_solver].
    assert (0 <= from_le_bytes w < 2 ^ 16) as Hw.
    { pose proof (slice_bytes_ok _ _ _ _ Hinput Ew) as Hok.
      apply from_le_bytes_bound in Hok. apply slice_get_Some in Ew as (? & ? & ->).
      unfold len in Hok. rewrite length_take, length_drop in Hok.
      replace (Nat.min _ _) with 2%nat in Hok by lia. simpl in Hok. lia. }
    destruct (read_length_total (from_le_bytes w) (i + 2) (d_nibble st) Hn Hw) as (r & -> & Hr).
    cbn [obind]. destruct r as [[[l i'] n']|]; [|eexists; naive_solver].
    destruct (Hr _ _ _ eq_refl) as (? & ? & ?).
    destruct (len (d_out st) <? _) eqn:Eo; to_prop; [eexists; naive_solver|].
    unfold checked_add. destruct (_ <=? USIZE_MAX); [|eexists; naive_solver].
    destruct (max_out <? _) eqn:Em; to_prop; [eexists; naive_solver|].
    assert (0 <= Z.shiftr (from_le_bytes w) 3) by (apply Z.shiftr_nonneg; lia).
    destruct (copy_match_total (Z.to_nat l) (Z.to_nat (Z.shiftr (from_le_bytes w) 3 + 1)) (d_out st))
      as (out' & -> & Hl & Hok); [unfold len in *; lia|done|].
    cbn [obind]. eexists; split; [done|]. intros st' [= <-]. unfold dinv, len in *; cbn.
    split_and!; [done|lia|done|lia].
Qed.

Lemma decompress_loop_total fuel : forall st,
  dinv st -> (length input - d_i st <= fuel)%nat ->
  exists r, decompress_loop fuel input max_out st = Ret r /\
    (forall out, r = Some out -> len out <= max_out /\ bytes_ok out).
Proof.
  induction fuel as [|fuel IH]; intros st Hst Hf; cbn [decompress_loop];
    (destruct (d_i st <? length input)%nat eqn:Ei;
       [apply Nat.ltb_lt in Ei|destruct Hst as (? & ? & ?); eexists; naive_solver]).
  - lia.
  - destruct (decompress_step_total st Hst Ei) as (r & -> & Hr). cbn [obind].
    destruct r as [st'| |].
    + destruct (Hr _ eq_refl). apply IH; [done|lia].
    + destruct Hst as (? & ? & ?). eexists; naive_solver.
    + eexists; naive_solver.
Qed.
End safety.

Lemma decompress_total input max_out :
  bytes_ok input -> 0 <= max_out ->
  exists r, lz77_decompress input max_out = Ret r /\
    (forall out, r = Some out -> len out <= max_out /\ bytes_ok out).
Proof.
  intros Hin Hm. apply decompress_loop_total; [done| |simpl; lia].
  split_and!; [constructor|done|by left].
Qed.

(** C26: on any byte string and any cap, the decompressor returns: it
    neither panics on an index nor loops beyond one iteration per input byte;
    and a result it accepts is a byte string no longer than [max_out], so a
    crafted back-reference cannot make it allocate past the cap. *)
Theorem lz77_decompress_safe input max_out :
  bytes_ok input -> 0 <= max_out ->
  exists r, lz77_decompress input max_out = Ret r /\
    (forall out, r = Some out -> len out <= max_out /\ bytes_ok out).
Proof. apply decompress_total. Qed.

Lemma lz77_decompress_safe_witness :
  exists r, lz77_decompress [0; 0; 0; 128; 255; 255; 255] 16 = Ret r /\
    (forall out, r = Some out -> len out <= 16 /\ bytes_ok out).
Proof.
  apply (lz77_decompress_safe [0; 0; 0; 128; 255; 255; 255] 16).
  - repeat constructor; unfold is_u8; lia.
  - lia.
Defined.

(** ** Round trip

    The compressed stream is read as groups of tokens: a token is a literal or
    a back-reference, and a group is a flag word (first token at bit 31)
    followed by the payloads of at most 32 tokens. *)

Inductive token :=
| Lit (b : Z)
| Ref (length offset : nat).

Definition token_bit (t : token) : Z := match t with Lit _ => 0 | Ref _ _ => 1 end.

Definition token_meta (length offset : nat) : Z :=
  Z.lor (u16_shl (u16 (Z.of_nat offset - 1)) 3) (u16 (Z.of_nat length - 3)).

Definition payload (t : token) : bytes :=
  match t with
  | Lit b => [b]
  | Ref l o => to_le_bytes 2 (token_meta l o)
  end.

Definition payloads (ts : list token) : bytes := concat (map payload ts).

Fixpoint bits (ts : list token) : Z :=
  match ts with
  | [] => 0
  | t :: ts' => token_bit t * 2 ^ len ts' + bits ts'
  end.

Definition enc_group (ts : list token) : bytes :=
  to_le_bytes 4 (bits ts * 2 ^ (32 - len ts)) ++ payloads ts.

(** A back-reference of plaintext [c] at position [pos]. *)
Definition valid_ref (c : bytes) (pos l o : nat) : Prop :=
  (3 <= l <= 9)%nat /\ (1 <= o <= pos)%nat /\ (o <= Z.to_nat 8192)%nat /\
  (pos + l <= length c)%nat /\
  (forall k, (k < l)%nat -> c !! (pos - o + k)%nat = c !! (pos + k)%nat).

(** [chain c pos ts pos']: the tokens [ts] spell [c] from [pos] to [pos']. *)
Inductive chain (c : bytes) : nat -> list token -> nat -> Prop :=
| chain_nil pos : chain c pos [] pos
| chain_lit pos b ts pos' :
    c !! pos = Some b -> chain c (S pos) ts pos' -> chain c pos (Lit b :: ts) pos'
| chain_ref pos l o ts pos' :
    valid_ref c pos l o -> chain c (pos + l) ts pos' -> chain c pos (Ref l o :: ts) pos'.

Lemma chain_app c pos ts1 pos1 ts2 pos2 :
  chain c pos ts1 pos1 -> chain c pos1 ts2 pos2 -> chain c pos (ts1 ++ ts2) pos2.
Proof. induction 1; intros; simpl; [done|constructor; auto..]. Qed.

Lemma chain_app_inv c ts1 : forall pos ts2 pos2,
  chain c pos (ts1 ++ ts2) pos2 -> exists pos1, chain c pos ts1 pos1 /\ chain c pos1 ts2 pos2.
Proof.
  induction ts1 as [|t ts1 IH]; intros pos ts2 pos2 H; simpl in *.
  - eexists; split; [constructor|done].
  - inversion H; subst.
    + match goal with X : chain _ _ _ pos2 |- _ => apply IH in X as (p & ? & ?) end.
      exists p; split; [by constructor|done].
    + match goal with X : chain _ _ _ pos2 |- _ => apply IH in X as (p & ? & ?) end.
      exists p; split; [by constructor|done].
Qed.

Lemma chain_le c pos ts pos' : chain c pos ts pos' -> (pos <= length c)%nat -> (pos' <= length c)%nat.
Proof.
  induction 1; intros Hp; [done| |].
  - apply IHchain. apply lookup_lt_Some in H. lia.
  - apply IHchain. destruct H as (_ & _ & _ & ? & _). lia.
Qed.

(** *** Tokens on the wire *)

Lemma bits_bound ts : 0 <= bits ts < 2 ^ len ts.
Proof.
  unfold len. induction ts as [|t ts IH]; [simpl; lia|].
  cbn [bits length]. rewrite Nat2Z.inj_succ, Z.pow_succ_r by lia.
  fold (len ts) in *. destruct t; simpl token_bit; lia.
Qed.

Lemma bits_snoc ts t : bits (ts ++ [t]) = 2 * bits ts + token_bit t.
Proof.
  induction ts as [|u ts IH]; cbn [bits app]; [unfold len; simpl; lia|].
  rewrite IH. unfold len. rewrite length_app. simpl length.
  rewrite Nat2Z.inj_add, Z.pow_add_r by lia. lia.
Qed.

Lemma token_meta_eq c pos l o : valid_ref c pos l o ->
  token_meta l o = (Z.of_nat o - 1) * 2 ^ 3 + (Z.of_nat l - 3).
Proof.
  intros (Hl & Ho & Ho' & _). unfold token_meta, u16_shl, u16.
  rewrite (Z.mod_small (Z.of_nat o - 1)) by lia.
  rewrite (Z.mod_small (Z.of_nat l - 3)) by lia.
  rewrite (Z.mod_small (Z.shiftl _ _)).
  - apply lor_shiftl_add; lia.
  - rewrite Z.shiftl_mul_pow2 by lia. lia.
Qed.

Lemma payload_length t : (1 <= length (payload t) <= 2)%nat.
Proof. destruct t; simpl; lia. Qed.

Lemma payloads_length ts : (length ts <= length (payloads ts))%nat.
Proof.
  unfold payloads. induction ts as [|t ts IH]; simpl; [lia|].
  rewrite length_app. pose proof (payload_length t). lia.
Qed.

Lemma payloads_cons t ts : payloads (t :: ts) = payload t ++ payloads ts.
Proof. done. Qed.

Lemma payloads_app ts1 ts2 : payloads (ts1 ++ ts2) = payloads ts1 ++ payloads ts2.
Proof. unfold payloads. by rewrite map_app, concat_app. Qed.

(** *** Decoding *)

Lemma copy_match_ref c pos l o : valid_ref c pos l o ->
  copy_match l o (take pos c) = Ret (take (pos + l) c).
Proof.
  intros (Hl & Ho & _ & Hc & Heq).
  assert (forall n k, (k + n = l)%nat ->
    copy_match n o (take (pos + k) c) = Ret (take (pos + l) c)) as Hgen.
  { induction n as [|n IH]; intros k Hk; cbn [copy_match].
    - by replace l with k by lia.
    - rewrite length_take_le by lia. unfold idx.
      rewrite lookup_take_lt by lia.
      replace (pos + k - o)%nat with (pos - o + k)%nat by lia.
      rewrite Heq by lia.
      destruct (lookup_lt_is_Some_2 c (pos + k)) as [b Eb]; [lia|].
      rewrite Eb; cbn [obind].
      rewrite <- (IH (S k)) by lia. f_equal.
      replace (pos + S k)%nat with (S (pos + k)) by lia.
      by rewrite (take_S_r _ _ _ Eb). }
  specialize (Hgen l 0%nat). rewrite Nat.add_0_r in Hgen. by apply Hgen.
Qed.

Lemma decompress_step_reload input max_out st word rest :
  d_flag_count st = 0 -> drop (d_i st) input = word ++ rest -> length word = 4%nat ->
  (d_i st <= length input)%nat ->
  decompress_step input max_out st =
  decompress_step input max_out
    (DState (d_out st) (d_i st + 4) (from_le_bytes word) 32 (d_nibble st)).
Proof.
  intros Hc Hd Hw Hi. unfold decompress_step at 1. rewrite Hc, Z.eqb_refl.
  by rewrite (slice_get_app _ _ _ _ _ Hd Hi Hw).
Qed.

(** The flag word of the tokens left: its top bit is that of the next token, and
    shifting it out leaves the flag word of the tokens after it. *)
Lemma flag_word_cons t ts : len (t :: ts) <= 32 ->
  let word := bits (t :: ts) * 2 ^ (32 - len (t :: ts)) in
  Z.land word 0x80000000 = token_bit t * 2 ^ 31 /\
  u32_shl word 1 = bits ts * 2 ^ (32 - len ts).
Proof.
  intros Hlen word. set (x := bits ts * 2 ^ (31 - len ts)).
  assert (len (t :: ts) = len ts + 1) as Hl1 by (unfold len; simpl; lia).
  assert (0 <= len ts <= 31) as Hlts by (unfold len in *; lia).
  assert (0 <= x < 2 ^ 31) as Hx.
  { pose proof (bits_bound ts). split; [apply Z.mul_nonneg_nonneg; lia|].
    replace (2 ^ 31) with (2 ^ len ts * 2 ^ (31 - len ts)); [apply Z.mul_lt_mono_pos_r; lia|].
    rewrite <- Z.pow_add_r by lia. f_equal. lia. }
  assert (word = token_bit t * 2 ^ 31 + x) as ->.
  { subst word x. rewrite Hl1. cbn [bits].
    replace (32 - (len ts + 1)) with (31 - len ts) by lia.
    rewrite Z.mul_add_distr_r, <- Z.mul_assoc, <- Z.pow_add_r by lia.
    by replace (len ts + (31 - len ts)) with 31 by lia. }
  assert (token_bit t = 0 \/ token_bit t = 1) by (destruct t; simpl; lia).
  split; [by apply land_top_bit|]. rewrite u32_shl_top_bit by done.
  subst x. replace (32 - len ts) with (Z.succ (31 - len ts)) by lia.
  rewrite Z.pow_succ_r by lia. lia.
Qed.

Section decoding.
Variables (c : bytes) (max_out : Z).
Hypothesis Hmax : len c <= max_out.
Hypothesis Husize : len c <= USIZE_MAX.

(** The decoder is inside a group with the tokens [ts] left to read, having
    produced the first [pos] bytes of [c]. *)
Definition in_group (input : bytes) (st : dstate) (ts : list token) (pos : nat) (rest : bytes) : Prop :=
  drop (d_i st) input = payloads ts ++ rest /\ (d_i st <= length input)%nat /\
  d_out st = take pos c /\ (pos <= length c)%nat /\ d_nibble st = 0%nat /\
  d_flags st = bits ts * 2 ^ (32 - len ts) /\ len ts <= d_flag_count st <= 32.

Lemma step_literal input st b ts pos rest :
  in_group input st (Lit b :: ts) pos rest -> c !! pos = Some b ->
  decompress_step input max_out st =
  Ret (Continue (DState (take (S pos) c) (S (d_i st)) (bits ts * 2 ^ (32 - len ts))
                   (d_flag_count st - 1) 0)).
Proof.
  intros (Hd & Hi & Hout & Hpos & Hnib & Hfl & Hfc) Hb.
  assert (len (Lit b :: ts) = len ts + 1 /\ 0 <= len ts) as [Hl1 ?] by (unfold len; simpl; lia).
  destruct (flag_word_cons (Lit b) ts) as [Htop Hshl]; [lia|].
  unfold decompress_step. rewrite (proj2 (Z.eqb_neq (d_flag_count st) 0)) by lia.
  rewrite Hfl, Htop, Hshl. simpl token_bit. simpl negb.
  pose proof (lookup_lt_Some _ _ _ Hb).
  rewrite (proj2 (Z.leb_gt max_out _))
    by (rewrite Hout; unfold len in *; rewrite length_take; lia).
  rewrite (lookup_of_drop _ _ _ _ Hd), Hout, <- (take_S_r _ _ _ Hb), Hnib. done.
Qed.

Lemma step_ref input st l o ts pos rest :
  in_group input st (Ref l o :: ts) pos rest -> valid_ref c pos l o ->
  decompress_step input max_out st =
  Ret (Continue (DState (take (pos + l) c) (d_i st + 2) (bits ts * 2 ^ (32 - len ts))
                   (d_flag_count st - 1) 0)).
Proof.
  intros (Hd & Hi & Hout & Hpos & Hnib & Hfl & Hfc) Hv.
  assert (len (Ref l o :: ts) = len ts + 1 /\ 0 <= len ts) as [Hl1 ?] by (unfold len; simpl; lia).
  destruct (flag_word_cons (Ref l o) ts) as [Htop Hshl]; [lia|].
  unfold decompress_step. rewrite (proj2 (Z.eqb_neq (d_flag_count st) 0)) by lia.
  rewrite Hfl, Htop, Hshl. simpl token_bit. simpl negb.
  pose proof Hv as (Hl & Ho & Ho' & Hc & _).
  rewrite payloads_cons, <- app_assoc in Hd. cbn [payload] in Hd.
  rewrite (slice_get_app _ _ _ _ 2 Hd Hi) by done.
  assert (length input <? d_i st + 2 = false)%nat as ->.
  { apply Nat.ltb_ge. apply (f_equal length) in Hd.
    rewrite length_drop, length_app, to_le_bytes_length in Hd. lia. }
  rewrite from_to_le_bytes
    by (rewrite (token_meta_eq _ _ _ _ Hv); change (256 ^ Z.of_nat 2) with 65536; lia).
  rewrite (token_meta_eq _ _ _ _ Hv), shiftr_field by lia.
  pose proof (land_field (Z.of_nat o - 1) (Z.of_nat l - 3) 3 ltac:(lia) ltac:(lia)) as Hland.
  change (Z.ones 3) with 7 in Hland. unfold read_length. rewrite Hland.
  rewrite (proj2 (Z.eqb_neq _ 7)) by lia.
  cbn [obind]. rewrite Hout. unfold checked_add, len in *. rewrite length_take_le by lia.
  rewrite (proj2 (Z.ltb_ge _ (Z.of_nat o - 1 + 1))) by lia.
  rewrite (proj2 (Z.leb_le _ USIZE_MAX)) by lia.
  rewrite (proj2 (Z.ltb_ge max_out _)) by lia.
  replace (Z.to_nat (Z.of_nat l - 3 + 3)) with l by lia.
  replace (Z.to_nat (Z.of_nat o - 1 + 1)) with o by lia.
  by rewrite (copy_match_ref _ _ _ _ Hv), Hnib.
Qed.

(** All the tokens left in a group. *)
Lemma loop_group input ts : forall st pos pos' rest fuel,
  chain c pos ts pos' -> in_group input st ts pos rest -> (length ts <= fuel)%nat ->
  exists st', decompress_loop fuel input max_out st =
              decompress_loop (fuel - length ts) input max_out st' /\
    in_group input st' [] pos' rest /\ d_flag_count st' = d_flag_count st - len ts.
Proof.
  induction ts as [|t ts IH]; intros st pos pos' rest fuel Hch Hg Hf.
  { inversion Hch; subst. exists st. rewrite Nat.sub_0_r. unfold len; simpl.
    split_and!; [done|done|lia]. }
  destruct fuel as [|fuel]; [simpl in Hf; lia|]. cbn [decompress_loop length] in *.
  pose proof Hg as (Hd & Hi & _ & Hpos & _ & _ & Hfc).
  rewrite payloads_cons, <- app_assoc in Hd.
  assert (d_i st <? length input = true)%nat as ->.
  { apply Nat.ltb_lt. apply (f_equal length) in Hd.
    rewrite length_drop, length_app in Hd. pose proof (payload_length t). lia. }
  apply drop_app_shift in Hd as Hd'.
  assert (d_i st + length (payload t) <= length input)%nat as Hi'.
  { apply (f_equal length) in Hd. rewrite length_drop, !length_app in Hd. lia. }
  assert (len (t :: ts) = len ts + 1) as Hl1 by (unfold len; simpl; lia).
  assert (exists pos1, chain c pos1 ts pos' /\ (pos1 <= length c)%nat /\
    decompress_step input max_out st =
    Ret (Continue (DState (take pos1 c) (d_i st + length (payload t))
           (bits ts * 2 ^ (32 - len ts)) (d_flag_count st - 1) 0))) as (pos1 & Hch1 & Hp1 & ->).
  { inversion Hch as [|? b ? ? Hb Hrest|? l o ? ? Hv Hrest]; subst.
    - exists (S pos). pose proof (lookup_lt_Some _ _ _ Hb). cbn [payload length].
      rewrite Nat.add_1_r. split_and!; [done|lia|by eapply step_literal].
    - exists (pos + l)%nat. destruct Hv as (? & ? & ? & ? & ?) eqn:HE.
      split_and!; [done|lia|by eapply step_ref]. }
  cbn [obind]. edestruct IH as (st' & -> & Hg' & Hc'); [exact Hch1| |lia|].
  { unfold in_group; cbn. split_and!; [exact Hd'|done|done|done|done|done|lia|lia]. }
  exists st'. split_and!; [done|done|]. rewrite Hc'. cbn [d_flag_count]. lia.
Qed.

(** The stream of the compressor: full groups, then a shorter last one. *)
Definition stream (gs : list (list token)) (cur : list token) : bytes :=
  concat (map enc_group gs) ++ (if bool_decide (cur = []) then [] else enc_group cur).

Lemma loop_enter_group input g st pos rest fuel :
  g <> [] -> len g <= 32 -> d_flag_count st = 0 -> in_group input st [] pos (enc_group g ++ rest) ->
  exists st1, decompress_loop fuel input max_out st = decompress_loop fuel input max_out st1 /\
    in_group input st1 g pos rest /\ d_flag_count st1 = 32.
Proof.
  intros Hne Hlen Hc (Hd & Hi & Hout & Hpos & Hnib & _ & _).
  unfold enc_group in Hd. cbn [payloads map concat app] in Hd. rewrite <- app_assoc in Hd.
  change (payloads [] ++ ?x) with x in Hd.
  set (word := to_le_bytes 4 _) in Hd.
  assert (length word = 4%nat) as Hw by apply to_le_bytes_length.
  exists (DState (d_out st) (d_i st + 4) (from_le_bytes word) 32 (d_nibble st)).
  pose proof (f_equal length Hd) as HL. rewrite length_drop, !length_app, Hw in HL.
  pose proof (payloads_length g). destruct g as [|t g]; [done|]. simpl length in *.
  split_and!; [| |done].
  - destruct fuel as [|fuel]; cbn [decompress_loop d_i d_out];
      rewrite !(proj2 (Nat.ltb_lt _ _)) by lia; [done|].
    by erewrite decompress_step_reload by eauto.
  - apply drop_app_shift in Hd. change (length word) with 4%nat in Hd.
    unfold in_group; cbn [d_i d_out d_nibble d_flags d_flag_count].
    split_and!; [done|lia|done|done|done| |lia|lia].
    subst word. apply from_to_le_bytes. change (256 ^ Z.of_nat 4) with (2 ^ 32).
    pose proof (bits_bound (t :: g)).
    replace (2 ^ 32) with (2 ^ len (t :: g) * 2 ^ (32 - len (t :: g)))
      by (rewrite <- Z.pow_add_r by (unfold len in *; lia); f_equal; lia).
    split; [apply Z.mul_nonneg_nonneg; lia|]. apply Z.mul_lt_mono_pos_r; [|lia].
    apply Z.pow_pos_nonneg; lia.
Qed.

Lemma loop_done input st fuel :
  in_group input st [] (length c) [] -> decompress_loop fuel input max_out st = Ret (Some c).
Proof.
  intros (Hd & Hi & Hout & _). apply (f_equal length) in Hd. rewrite length_drop in Hd.
  simpl in Hd. destruct fuel; cbn [decompress_loop];
    rewrite (proj2 (Nat.ltb_ge _ _)) by lia; by rewrite Hout, firstn_all.
Qed.

Lemma loop_stream input gs : forall st pos cur fuel,
  Forall (fun g => len g = 32) gs -> len cur < 32 ->
  chain c pos (concat gs ++ cur) (length c) -> d_flag_count st = 0 ->
  in_group input st [] pos (stream gs cur) -> (length (concat gs ++ cur) <= fuel)%nat ->
  decompress_loop fuel input max_out st = Ret (Some c).
Proof.
  induction gs as [|g gs IH]; intros st pos cur fuel Hgs Hcur Hch Hfc Hg Hf.
  - unfold stream in Hg. simpl in *. case_bool_decide as Hnil.
    + subst cur. inversion Hch; subst. by apply loop_done.
    + rewrite <- (app_nil_r (enc_group cur)) in Hg.
      destruct (loop_enter_group input cur st pos [] fuel) as (st1 & -> & Hg1 & _); [done|lia|done..|].
      edestruct loop_group as (st2 & -> & Hg2 & _); [exact Hch|exact Hg1|lia|].
      by apply loop_done.
  - apply Forall_cons in Hgs as [Hg32 Hgs]. unfold stream in Hg. simpl in *.
    rewrite <- app_assoc in Hg, Hch, Hf. fold (stream gs cur) in Hg.
    apply chain_app_inv in Hch as (pos1 & Hch1 & Hch2). rewrite length_app in Hf.
    destruct (loop_enter_group input g st pos (stream gs cur) fuel)
      as (st1 & -> & Hg1 & Hc1); [by intros ->|lia|done..|].
    edestruct loop_group as (st2 & -> & Hg2 & Hc2); [exact Hch1|exact Hg1|lia|].
    eapply IH; [done|done|exact Hch2|lia|done|lia].
Qed.
End decoding.

(** *** Encoding *)

Lemma extend_match_spec input start pos room : forall n,
  (n <= extend_match input start pos n room <= n + room)%nat /\
  (forall k, (n <= k < extend_match input start pos n room)%nat ->
     input !! (start + k)%nat = input !! (pos + k)%nat).
Proof.
  induction room as [|room IH]; intros n; cbn [extend_match]; [split; intros; lia|].
  case_bool_decide as E; [|split; intros; lia].
  destruct (IH (S n)) as [? Hk]. split; [lia|]. intros k ?.
  destruct (decide (k = n)) as [->|]; [done|]. apply Hk. lia.
Qed.

(** A candidate match of the search: a length and an offset. *)
Definition good_match (input : bytes) (pos max_len : nat) (m : nat * nat) : Prop :=
  fst m = 0%nat \/
  ((fst m <= max_len)%nat /\ (1 <= snd m <= Nat.min pos MAX_OFFSET)%nat /\
   forall k, (k < fst m)%nat -> input !! (pos - snd m + k)%nat = input !! (pos + k)%nat).

Lemma search_match_good input pos max_len offs : forall best,
  Forall (fun o => 1 <= o <= Nat.min pos MAX_OFFSET)%nat offs ->
  good_match input pos max_len best ->
  good_match input pos max_len (search_match input pos max_len offs best).
Proof.
  induction offs as [|o offs IH]; intros best Ho Hb; cbn [search_match]; [done|].
  apply Forall_cons in Ho as [Ho Hoffs].
  destruct (extend_match_spec input (pos - o) pos max_len 0) as [Hlen Heq].
  assert (good_match input pos max_len (extend_match input (pos - o) pos 0 max_len, o)).
  { right; simpl. split_and!; [lia|lia|lia|]. intros k ?. apply Heq. lia. }
  repeat case_match; auto.
Qed.

Lemma find_match_valid input pos l o :
  find_match input pos = (l, o) -> (3 <= l)%nat -> valid_ref input pos l o.
Proof.
  unfold find_match. set (max_len := Nat.min (length input - pos) MAX_MATCH).
  assert (max_len <= length input - pos /\ max_len <= 9)%nat by (unfold max_len, MAX_MATCH; lia).
  destruct (max_len <? 3)%nat; [naive_solver lia|].
  pose proof (search_match_good input pos max_len (seq 1 (Nat.min pos MAX_OFFSET)) (0, 0)%nat) as Hg.
  destruct (3 <=? _)%nat; [|naive_solver lia]. intros E Hl. rewrite E in Hg.
  destruct Hg as [Hg|(Hlen & Ho & Heq)]; simpl in *.
  - apply Forall_seq. intros; lia.
  - by left.
  - lia.
  - unfold MAX_OFFSET in *. unfold valid_ref. split_and!; [lia..|done].
Qed.

Section encoding.
Variable c : bytes.

(** Between two iterations of [lz77_compress]: what has been emitted are the
    full groups [gs], and [cur] are the tokens of the open one. *)
Definition cinv (st : cstate) (gs : list (list token)) (cur : list token) : Prop :=
  chain c 0 (concat gs ++ cur) (c_i st) /\ Forall (fun g => len g = 32) gs /\ len cur < 32 /\
  c_out st = concat (map enc_group gs) /\ c_flags st = bits cur /\ c_count st = len cur /\
  c_group st = payloads cur.

Lemma flush_full_inv out flags count group i gs cur t :
  chain c 0 (concat gs ++ cur ++ [t]) i -> Forall (fun g => len g = 32) gs -> len cur < 32 ->
  out = concat (map enc_group gs) -> flags = bits (cur ++ [t]) -> count = len cur + 1 ->
  group = payloads (cur ++ [t]) ->
  exists gs' cur', cinv (flush_full (CState out flags count group i)) gs' cur'.
Proof.
  intros Hch Hgs Hcur -> -> -> ->.
  assert (len (cur ++ [t]) = len cur + 1) as Hl by (unfold len; rewrite length_app; simpl; lia).
  unfold flush_full; cbn [c_count c_out c_flags c_group c_i].
  destruct (len cur + 1 =? 32) eqn:E; to_prop.
  - exists (gs ++ [cur ++ [t]]), []. unfold cinv; cbn [c_count c_out c_flags c_group c_i].
    rewrite concat_app, map_app, concat_app. simpl. rewrite !app_nil_r.
    split_and!; [by rewrite <- ?app_assoc| |done|..|done|done|done].
    + apply Forall_app_2; [done|]. apply Forall_singleton. lia.
    + unfold enc_group. rewrite Hl, E. by rewrite Z.sub_diag, Z.mul_1_r.
  - exists gs, (cur ++ [t]). unfold cinv; cbn [c_count c_out c_flags c_group c_i].
    split_and!; [done|done|lia|done|done|lia|done].
Qed.

Lemma u32_shl_bits cur : len cur < 32 ->
  u32_shl (bits cur) 1 = 2 * bits cur /\ Z.lor (2 * bits cur) 1 = 2 * bits cur + 1.
Proof.
  intros Hcur. pose proof (bits_bound cur) as Hb.
  assert (2 ^ len cur <= 2 ^ 31) by (apply Z.pow_le_mono_r; lia).
  unfold u32_shl, u32. rewrite Z.shiftl_mul_pow2 by lia. split.
  - rewrite Z.mod_small; lia.
  - replace (2 * bits cur) with (Z.shiftl (bits cur) 1) by (rewrite Z.shiftl_mul_pow2; lia).
    rewrite lor_shiftl_add by lia. rewrite Z.shiftl_mul_pow2 by lia. done.
Qed.

Lemma compress_step_inv st gs cur :
  cinv st gs cur -> (c_i st < length c)%nat ->
  exists st' gs' cur', compress_step c st = Ret st' /\ cinv st' gs' cur' /\
    (c_i st < c_i st')%nat.
Proof.
  intros (Hch & Hgs & Hcur & Hout & Hfl & Hcnt & Hgrp) Hi. unfold compress_step.
  destruct (u32_shl_bits cur Hcur) as [Hshl Hlor].
  assert (forall st, c_i (flush_full st) = c_i st) as Hci
    by (intros s; unfold flush_full; by destruct (_ =? 32)).
  destruct (find_match c (c_i st)) as [l o] eqn:Em. destruct (3 <=? l)%nat eqn:El.
  - apply Nat.leb_le in El. apply find_match_valid in Em as Hv; [|done].
    edestruct (flush_full_inv (c_out st) (Z.lor (u32_shl (c_flags st) 1) 1) (c_count st + 1)
      (c_group st ++ payload (Ref l o)) (c_i st + l) gs cur (Ref l o)) as (gs' & cur' & Hinv).
    + rewrite app_assoc. eapply chain_app; [done|]. constructor; [done|constructor].
    + done.
    + done.
    + done.
    + rewrite bits_snoc, Hfl, Hshl. done.
    + lia.
    + rewrite payloads_app, Hgrp. done.
    + eexists _, gs', cur'. split_and!; [done|exact Hinv|]. rewrite Hci. cbn [c_i]. lia.
  - destruct (lookup_lt_is_Some_2 c (c_i st) Hi) as [b Eb]. unfold idx. rewrite Eb. cbn [obind].
    edestruct (flush_full_inv (c_out st) (u32_shl (c_flags st) 1) (c_count st + 1)
      (c_group st ++ payload (Lit b)) (S (c_i st)) gs cur (Lit b)) as (gs' & cur' & Hinv).
    + rewrite app_assoc. eapply chain_app; [done|]. constructor; [done|constructor].
    + done.
    + done.
    + done.
    + rewrite bits_snoc, Hfl, Hshl. simpl. lia.
    + lia.
    + rewrite payloads_app, Hgrp. done.
    + eexists _, gs', cur'. split_and!; [done|exact Hinv|]. rewrite Hci. cbn [c_i]. lia.
Qed.

Lemma compress_loop_inv fuel : forall st gs cur,
  cinv st gs cur -> (c_i st <= length c)%nat -> (length c - c_i st <= fuel)%nat ->
  exists st' gs' cur', compress_loop fuel c st = Ret st' /\ cinv st' gs' cur' /\
    c_i st' = length c.
Proof.
  induction fuel as [|fuel IH]; intros st gs cur Hinv Hle Hf; cbn [compress_loop];
    (destruct (c_i st <? length c)%nat eqn:Ei;
      [apply Nat.ltb_lt in Ei|apply Nat.ltb_ge in Ei;
         exists st, gs, cur; split_and!; [done|done|lia]]); [lia|].
  destruct (compress_step_inv st gs cur Hinv Ei) as (st' & gs' & cur' & -> & Hinv' & Hlt).
  cbn [obind]. eapply IH; [exact Hinv'| |lia].
  destruct Hinv' as (Hch & _). by apply chain_le in Hch; [|lia].
Qed.

(** The compressor always returns, and its output is the stream of a token list
    that spells the input. *)
Lemma lz77_compress_stream :
  exists gs cur, lz77_compress c = Ret (stream gs cur) /\ Forall (fun g => len g = 32) gs /\
    len cur < 32 /\ chain c 0 (concat gs ++ cur) (length c).
Proof.
  destruct (compress_loop_inv (length c) (CState [] 0 0 [] 0) [] []) as
    (st & gs & cur & Hrun & (Hch & Hgs & Hcur & Hout & Hfl & Hcnt & Hgrp) & Hi).
  - split_and!; [constructor|constructor|done..].
  - simpl; lia.
  - simpl; lia.
  - exists gs, cur. unfold lz77_compress. rewrite Hrun. cbn [obind]. rewrite Hi in Hch.
    split_and!; [|done..]. rewrite Hcnt, Hout, Hgrp, Hfl. unfold stream. f_equal.
    case_bool_decide as Hnil; [subst cur; simpl; by rewrite app_nil_r|].
    assert (0 < len cur) by (destruct cur; [done|unfold len; simpl; lia]).
    rewrite (proj2 (Z.ltb_lt 0 _)) by done. do 2 f_equal. unfold enc_group. do 2 f_equal.
    unfold u32_shl, u32. rewrite Z.shiftl_mul_pow2 by lia. apply Z.mod_small.
    pose proof (bits_bound cur).
    replace (2 ^ 32) with (2 ^ len cur * 2 ^ (32 - len cur))
      by (rewrite <- Z.pow_add_r by lia; f_equal; lia).
    split; [apply Z.mul_nonneg_nonneg; lia|]. apply Z.mul_lt_mono_pos_r; [|lia].
    apply Z.pow_pos_nonneg; lia.
Qed.
End encoding.

Lemma stream_length gs cur :
  (length (concat gs ++ cur) <= length (stream gs cur))%nat.
Proof.
  assert (forall g, length g <= length (enc_group g))%nat as Hg.
  { intros g. unfold enc_group. rewrite length_app. pose proof (payloads_length g). lia. }
  unfold stream. rewrite !length_app.
  assert (length cur <= length (if bool_decide (cur = []) then [] else enc_group cur))%nat
    by (case_bool_decide; [by subst|auto]).
  induction gs as [|g gs IH]; cbn [concat map]; [simpl; lia|].
  rewrite !length_app. specialize (Hg g). lia.
Qed.

Lemma decompress_stream c max_out gs cur :
  len c <= max_out -> len c <= USIZE_MAX -> Forall (fun g => len g = 32) gs -> len cur < 32 ->
  chain c 0 (concat gs ++ cur) (length c) ->
  lz77_decompress (stream gs cur) max_out = Ret (Some c).
Proof.
  intros Hmax Husz Hgs Hcur Hch.
  eapply loop_stream; [done|done|exact Hgs|exact Hcur|exact Hch|done| |apply stream_length].
  unfold in_group, len; simpl. split_and!; try done; lia.
Qed.

(** C14: plain LZ77 is lossless.  Whatever the input, the compressor
    returns a stream, and decompressing that stream under any cap that is at
    least the input's length returns exactly the input. *)
Theorem lz77_round_trip c max_out :
  len c <= max_out -> len c <= USIZE_MAX ->
  (let! z := lz77_compress c in lz77_decompress z max_out) = Ret (Some c).
Proof.
  intros Hmax Husz. destruct (lz77_compress_stream c) as (gs & cur & -> & Hgs & Hcur & Hch).
  by apply decompress_stream.
Qed.

Lemma lz77_round_trip_witness :
  (let! z := lz77_compress (repeat 65 40) in lz77_decompress z 40) = Ret (Some (repeat 65 40)).
Proof. apply (lz77_round_trip (repeat 65 40) 40); by vm_compute. Defined.

(** ** The transform header *)

(** the transform wraps losslessly: any message within the 16 MiB
    frame cap that is compressed and wrapped unwraps to itself. *)
Theorem compress_message_round_trip p :
  len p <= MAX_DECOMPRESSED ->
  (let! z := compress_message p in decompress_message z) = Ret (Some p).
Proof.
  intros Hp. assert (0 <= len p) by (unfold len; lia).
  destruct (lz77_compress_stream p) as (gs & cur & Hrun & Hgs & Hcur & Hch).
  unfold compress_message. rewrite Hrun. cbn [obind].
  assert (u32 (len p) = len p) as -> by (apply Z.mod_small; unfold MAX_DECOMPRESSED in Hp; lia).
  unfold COMPRESSION_PROTOCOL_ID, decompress_message. cbn [to_le_bytes app].
  set (m := _ :: _). 
  assert (slice_get m 0 4 = Some COMPRESSION_PROTOCOL_ID /\
          slice_get m 4 8 = Some (to_le_bytes 4 (len p)) /\
          slice_get m 8 10 = Some (to_le_bytes 2 COMPRESSION_ALGORITHM_LZ77) /\
          slice_get m 12 16 = Some (to_le_bytes 4 0)) as (E0 & E1 & E2 & E3) by done.
  unfold slice_idx. rewrite E0, E1, E2, E3. simpl length. cbn [obind].
  rewrite bool_decide_eq_true_2 by done. cbn [negb].
  rewrite !from_to_le_bytes by
    (unfold MAX_DECOMPRESSED, COMPRESSION_ALGORITHM_LZ77 in *; split; [lia|];
     first [change (256 ^ Z.of_nat 4) with (2 ^ 32)|change (256 ^ Z.of_nat 2) with (2 ^ 16)]; lia).
  rewrite Z.eqb_refl. cbn [negb]. rewrite (proj2 (Z.ltb_ge _ (len p))) by done.
  change (drop TRANSFORM_HEADER_LEN m) with (stream gs cur).
  rewrite (proj2 (Z.ltb_ge _ 0)) by (unfold len; lia).
  change (Z.to_nat 0) with 0%nat. rewrite take_0, drop_0.
  replace (saturating_sub (len p) (len (@nil Z))) with (len p) by (unfold saturating_sub, len; simpl; lia).
  rewrite (decompress_stream p)
    by (first [exact Hgs|exact Hcur|exact Hch|unfold MAX_DECOMPRESSED, USIZE_MAX in *; lia]).
  cbn [obind app]. by rewrite Z.eqb_refl.
Qed.

Lemma compress_message_round_trip_witness :
  (let! z := compress_message (repeat 65 40) in decompress_message z) = Ret (Some (repeat 65 40)).
Proof. apply (compress_message_round_trip (repeat 65 40)). by vm_compute. Defined.

Definition declared_size (transform : bytes) : Z := from_le_bytes (take 4 (drop 4 transform)).

(** on any packet the transform decoder returns without panicking,
    and a message it accepts has exactly the size its header declares, which is
    at most 16 MiB. *)
Theorem decompress_message_safe transform :
  bytes_ok transform ->
  exists r, decompress_message transform = Ret r /\
    (forall out, r = Some out -> len out = declared_size transform /\ len out <= MAX_DECOMPRESSED).
Proof.
  intros Hok. unfold decompress_message.
  destruct (length transform <? TRANSFORM_HEADER_LEN)%nat eqn:El; [eexists; naive_solver|].
  apply Nat.ltb_ge in El. unfold TRANSFORM_HEADER_LEN in El.
  assert (forall i j, (i <= j <= 16)%nat ->
    slice_get transform i j = Some (take (j - i) (drop i transform))) as Hs.
  { intros i j ?. apply slice_get_Some. split_and!; [lia..|done]. }
  unfold slice_idx. rewrite !Hs by lia. cbn [obind].
  destruct (negb (bool_decide _)); [eexists; naive_solver|].
  destruct (negb _); [eexists; naive_solver|].
  destruct (MAX_DECOMPRESSED <? _) eqn:Em; [eexists; naive_solver|]. to_prop.
  destruct (len _ <? _); [eexists; naive_solver|].
  set (off := from_le_bytes (take (16 - 12) _)).
  destruct (decompress_total (drop (Z.to_nat off) (drop TRANSFORM_HEADER_LEN transform))
    (saturating_sub (from_le_bytes (take (8 - 4) (drop 4 transform)))
       (len (take (Z.to_nat off) (drop TRANSFORM_HEADER_LEN transform))))) as (r & -> & _).
  - by do 2 apply Forall_drop.
  - unfold saturating_sub. lia.
  - cbn [obind]. destruct r as [d|]; [|eexists; naive_solver].
    eexists; split; [done|]. intros out. destruct (len _ =? _) eqn:E; [|done].
    intros [= <-]. to_prop. rewrite E. split; [done|lia].
Qed.

Lemma decompress_message_safe_witness :
  exists r, decompress_message (COMPRESSION_PROTOCOL_ID ++ repeat 2 30) = Ret r /\
    (forall out, r = Some out ->
       len out = declared_size (COMPRESSION_PROTOCOL_ID ++ repeat 2 30) /\
       len out <= MAX_DECOMPRESSED).
Proof.
  apply (decompress_message_safe (COMPRESSION_PROTOCOL_ID ++ repeat 2 30)).
  repeat constructor; unfold is_u8; lia.
Defined.
