(* ===== verification/RustStr.v ===== *)
(** * Rust strings

    [&str] is its UTF-8 bytes, a Rocq [string]; [len] and indices count bytes,
    and the ASCII operations of the standard library ([to_ascii_lowercase],
    [eq_ignore_ascii_case], [split], [strip_prefix], ...) act byte by byte, so
    they are written here on bytes.  [trim] and [split_whitespace] use Unicode
    white space, whose characters are listed by their UTF-8 encodings. *)

From S2P Require Import Prelude Bytes.

#[global] Arguments String.append !_ _ / : simpl nomatch.

(** ** Bytes of a string *)

Definition code (c : ascii) : Z := Z.of_N (N_of_ascii c).

Definition in_codes (lo hi : Z) (c : ascii) : bool := (lo <=? code c) && (code c <=? hi).

Definition is_ascii_digit (c : ascii) : bool := in_codes 48 57 c.
Definition is_ascii_upper (c : ascii) : bool := in_codes 65 90 c.
Definition is_ascii_lower (c : ascii) : bool := in_codes 97 122 c.
Definition is_ascii_alphabetic (c : ascii) : bool := is_ascii_upper c || is_ascii_lower c.
Definition is_ascii_alphanumeric (c : ascii) : bool := is_ascii_alphabetic c || is_ascii_digit c.
Definition is_ascii_hexdigit (c : ascii) : bool :=
  is_ascii_digit c || in_codes 65 70 c || in_codes 97 102 c.

Definition ascii_lower (c : ascii) : ascii :=
  if is_ascii_upper c then ascii_of_N (N_of_ascii c + 32) else c.

Fixpoint str_map (f : ascii -> ascii) (s : string) : string :=
  match s with
  | EmptyString => EmptyString
  | String c s' => String (f c) (str_map f s')
  end.

Fixpoint str_forallb (f : ascii -> bool) (s : string) : bool :=
  match s with EmptyString => true | String c s' => f c && str_forallb f s' end.

Fixpoint str_existsb (f : ascii -> bool) (s : string) : bool :=
  match s with EmptyString => false | String c s' => f c || str_existsb f s' end.

Fixpoint str_filter (f : ascii -> bool) (s : string) : string :=
  match s with
  | EmptyString => EmptyString
  | String c s' => if f c then String c (str_filter f s') else str_filter f s'
  end.

(** [str::len]: bytes. *)
Definition str_len (s : string) : Z := Z.of_nat (String.length s).

Definition is_empty (s : string) : bool := match s with EmptyString => true | _ => false end.

Definition to_ascii_lowercase : string -> string := str_map ascii_lower.

Definition eq_ignore_ascii_case (a b : string) : bool :=
  String.eqb (to_ascii_lowercase a) (to_ascii_lowercase b).

Definition is_ascii (s : string) : bool := str_forallb (in_codes 0 127) s.

Definition ascii_upper (c : ascii) : ascii :=
  if is_ascii_lower c then ascii_of_N (Z.to_N (code c - 32)) else c.

(** The case mappings of strings that are not ASCII are data of the Unicode
    standard. *)
Class UnicodeTables := { unicode_lowercase : string -> string; unicode_uppercase : string -> string }.

Definition to_lowercase `{UnicodeTables} (s : string) : string :=
  if is_ascii s then to_ascii_lowercase s else unicode_lowercase s.
Definition to_uppercase `{UnicodeTables} (s : string) : string :=
  if is_ascii s then str_map ascii_upper s else unicode_uppercase s.

(** [str::contains(char)] for an ASCII character. *)
Definition contains_char (c : ascii) (s : string) : bool := str_existsb (Ascii.eqb c) s.

(** [chars().count()]: every byte that is not a UTF-8 continuation byte. *)
Fixpoint char_count (s : string) : Z :=
  match s with
  | EmptyString => 0
  | String c s' => (if in_codes 0x80 0xBF c then 0 else 1) + char_count s'
  end.

(** [Display] of an unsigned integer of at most 64 bits: at most 20 digits. *)
Fixpoint dec_digits (fuel : nat) (z : Z) (acc : string) : string :=
  match fuel with
  | O => acc
  | S fuel' =>
      let acc := String (ascii_of_N (Z.to_N (48 + z mod 10))) acc in
      if z <? 10 then acc else dec_digits fuel' (z / 10) acc
  end.
Definition dec_string (z : Z) : string := dec_digits 20 z EmptyString.

(** ** Prefixes and suffixes *)

Fixpoint strip_prefix (p s : string) : option string :=
  match p, s with
  | EmptyString, _ => Some s
  | String a p', String b s' => if Ascii.eqb a b then strip_prefix p' s' else None
  | String _ _, EmptyString => None
  end.

Definition starts_with (s p : string) : bool := is_some_and (fun _ => true) (strip_prefix p s).

(** [str::contains(&str)] *)
Fixpoint str_contains (p s : string) : bool :=
  starts_with s p || match s with EmptyString => false | String _ s' => str_contains p s' end.

Fixpoint ends_with (s suf : string) : bool :=
  String.eqb s suf || match s with EmptyString => false | String _ s' => ends_with s' suf end.

Fixpoint strip_suffix (suf s : string) : option string :=
  if String.eqb s suf then Some EmptyString
  else match s with
       | EmptyString => None
       | String c s' => String c <$> strip_suffix suf s'
       end.

(** [trim_end_matches(char)]. *)
Fixpoint trim_end_matches (c : ascii) (s : string) : string :=
  match s with
  | EmptyString => EmptyString
  | String a s' =>
      let r := trim_end_matches c s' in
      if is_empty r && Ascii.eqb a c then EmptyString else String a r
  end.

(** [trim_start_matches(pattern)] for a nonempty string pattern. *)
Fixpoint trim_start_matches_fuel (fuel : nat) (p s : string) : string :=
  match fuel with
  | O => s
  | S fuel' =>
      match strip_prefix p s with
      | Some s' => trim_start_matches_fuel fuel' p s'
      | None => s
      end
  end.
Definition trim_start_matches (p s : string) : string :=
  trim_start_matches_fuel (String.length s) p s.

(** ** White space *)

Fixpoint of_codes (l : list N) : string :=
  match l with [] => EmptyString | n :: l' => String (ascii_of_N n) (of_codes l') end.

(** The UTF-8 encodings of the characters with the Unicode White_Space property. *)
Definition white_space : list string :=
  map of_codes
    [[0x20]; [0x09]; [0x0A]; [0x0B]; [0x0C]; [0x0D]; [0xC2; 0x85]; [0xC2; 0xA0];
     [0xE1; 0x9A; 0x80]; [0xE2; 0x80; 0x80]; [0xE2; 0x80; 0x81]; [0xE2; 0x80; 0x82];
     [0xE2; 0x80; 0x83]; [0xE2; 0x80; 0x84]; [0xE2; 0x80; 0x85]; [0xE2; 0x80; 0x86];
     [0xE2; 0x80; 0x87]; [0xE2; 0x80; 0x88]; [0xE2; 0x80; 0x89]; [0xE2; 0x80; 0x8A];
     [0xE2; 0x80; 0xA8]; [0xE2; 0x80; 0xA9]; [0xE2; 0x80; 0xAF]; [0xE2; 0x81; 0x9F];
     [0xE3; 0x80; 0x80]]%N.

(** The white-space character at the front of [s], dropped. *)
Fixpoint strip_one (ws : list string) (s : string) : option string :=
  match ws with
  | [] => None
  | w :: ws' => match strip_prefix w s with Some s' => Some s' | None => strip_one ws' s end
  end.

Fixpoint trim_start_fuel (fuel : nat) (s : string) : string :=
  match fuel with
  | O => s
  | S fuel' =>
      match strip_one white_space s with
      | Some s' => trim_start_fuel fuel' s'
      | None => s
      end
  end.
Definition trim_start (s : string) : string := trim_start_fuel (String.length s) s.

(** All of [s] is white space. *)
Definition all_white (s : string) : bool := is_empty (trim_start s).

(** Cut at the first position from which everything is white space. *)
Fixpoint trim_end (s : string) : string :=
  if all_white s then EmptyString
  else match s with EmptyString => EmptyString | String c s' => String c (trim_end s') end.

Definition trim (s : string) : string := trim_end (trim_start s).

(** ** Splitting *)

(** [split_once(char)]: around the first occurrence. *)
Fixpoint split_once (c : ascii) (s : string) : option (string * string) :=
  match s with
  | EmptyString => None
  | String a s' =>
      if Ascii.eqb a c then Some (EmptyString, s')
      else '(l, r) ← split_once c s'; Some (String a l, r)
  end.

(** [split(char)]: always at least one piece. *)
Fixpoint split (c : ascii) (s : string) : list string :=
  match s with
  | EmptyString => [EmptyString]
  | String a s' =>
      if Ascii.eqb a c then EmptyString :: split c s'
      else match split c s' with
           | w :: ws => String a w :: ws
           | [] => [String a EmptyString]
           end
  end.

Fixpoint split_ws_fuel (fuel : nat) (s : string) (word : string) : list string :=
  let flush rest := if is_empty word then rest else word :: rest in
  match fuel with
  | O => flush []
  | S fuel' =>
      match s with
      | EmptyString => flush []
      | String c s' =>
          match strip_one white_space s with
          | Some s'' => flush (split_ws_fuel fuel' s'' EmptyString)
          | None => split_ws_fuel fuel' s' (word +:+ String c EmptyString)
          end
      end
  end.
(** [split_whitespace]: the nonempty pieces between runs of white space. *)
Definition split_whitespace (s : string) : list string :=
  split_ws_fuel (S (String.length s)) s EmptyString.

(** [join] of the pieces with a separator. *)
Fixpoint join (sep : string) (l : list string) : string :=
  match l with
  | [] => EmptyString
  | [w] => w
  | w :: l' => w +:+ sep +:+ join sep l'
  end.

(** ** Order *)

(** [str] compares byte by byte. *)
Definition str_le (a b : string) : bool := String.leb a b.
Definition str_lt (a b : string) : bool := String.ltb a b.

(** ** Lemmas *)

Lemma strip_prefix_Some p s r : strip_prefix p s = Some r <-> s = p +:+ r.
Proof.
  revert s; induction p as [|a p IH]; intros s; simpl; [by split; [intros [=]|intros ->]|].
  destruct s as [|b s]; [done|]. destruct (Ascii.eqb_spec a b) as [->|].
  - rewrite IH. split; [by intros ->|by intros [= ->]].
  - split; [done|]. by intros [= ->].
Qed.

Lemma starts_with_iff s p : starts_with s p = true <-> exists r, s = p +:+ r.
Proof.
  unfold starts_with. rewrite is_some_and_true. setoid_rewrite strip_prefix_Some. naive_solver.
Qed.

Lemma ends_with_iff s suf : ends_with s suf = true <-> exists p, s = p +:+ suf.
Proof.
  induction s as [|c s IH]; cbn [ends_with]; rewrite orb_true_iff, String.eqb_eq.
  - split; [intros [<-|]; [by exists EmptyString|done]|].
    intros [[|a p] E]; [by left|done].
  - rewrite IH. split.
    + intros [<-|[p ->]]; [by exists EmptyString|by exists (String c p)].
    + intros [[|a p] E]; [by left|]. injection E as -> ->. right. by exists p.
Qed.

Lemma str_length_app a b : String.length (a +:+ b) = (String.length a + String.length b)%nat.
Proof. induction a; simpl; auto. Qed.

Lemma str_app_nil_r s : s +:+ EmptyString = s.
Proof. induction s; simpl; congruence. Qed.

Lemma str_app_assoc a b c : (a +:+ b) +:+ c = a +:+ (b +:+ c).
Proof. induction a; simpl; congruence. Qed.

Lemma strip_suffix_Some suf s r : strip_suffix suf s = Some r -> s = r +:+ suf.
Proof.
  revert r; induction s as [|c s IH]; intros r; cbn [strip_suffix].
  - destruct (String.eqb_spec EmptyString suf) as [<-|]; [by intros [= <-]|done].
  - destruct (String.eqb_spec (String c s) suf) as [<-|]; [by intros [= <-]|].
    destruct (strip_suffix suf s) eqn:Es; simpl; [|done]. intros [= <-].
    simpl. f_equal. by apply IH.
Qed.

Lemma ascii_lower_idem c : ascii_lower (ascii_lower c) = ascii_lower c.
Proof. by destruct c as [[] [] [] [] [] [] [] []]. Qed.

Lemma to_ascii_lowercase_idem s : to_ascii_lowercase (to_ascii_lowercase s) = to_ascii_lowercase s.
Proof.
  unfold to_ascii_lowercase. induction s; simpl; [done|]. by rewrite ascii_lower_idem, IHs.
Qed.

Lemma to_ascii_lowercase_length s : String.length (to_ascii_lowercase s) = String.length s.
Proof. unfold to_ascii_lowercase. induction s; simpl; auto. Qed.

Lemma to_ascii_lowercase_app a b :
  to_ascii_lowercase (a +:+ b) = to_ascii_lowercase a +:+ to_ascii_lowercase b.
Proof. unfold to_ascii_lowercase. induction a; simpl; congruence. Qed.

Lemma eq_ignore_ascii_case_iff a b :
  eq_ignore_ascii_case a b = true <-> to_ascii_lowercase a = to_ascii_lowercase b.
Proof. apply String.eqb_eq. Qed.

Lemma split_once_Some c s l r :
  split_once c s = Some (l, r) -> s = l +:+ String c r /\ contains_char c l = false.
Proof.
  revert l r; induction s as [|a s IH]; intros l r; simpl; [done|].
  destruct (Ascii.eqb_spec a c) as [->|Ne]; [intros [= <- <-]; done|].
  destruct (split_once c s) as [[l' r']|]; simpl; [|done]. intros [= <- <-].
  destruct (IH l' r' eq_refl) as [-> Hc]. split; [done|]. unfold contains_char in *. simpl.
  rewrite Hc, orb_false_r. apply Ascii.eqb_neq. congruence.
Qed.

Lemma split_once_app c l r :
  contains_char c l = false -> split_once c (l +:+ String c r) = Some (l, r).
Proof.
  unfold contains_char. induction l as [|a l IH]; simpl; intros H.
  - by rewrite Ascii.eqb_refl.
  - apply orb_false_iff in H as [H1 H2]. rewrite (Ascii.eqb_sym a c), H1, IH by done. done.
Qed.

Lemma split_once_None c s : split_once c s = None <-> contains_char c s = false.
Proof.
  unfold contains_char. induction s as [|a s IH]; simpl; [done|].
  rewrite (Ascii.eqb_sym c a). destruct (Ascii.eqb a c); simpl; [done|].
  rewrite <- IH. destruct (split_once c s) as [[]|]; naive_solver.
Qed.

Lemma split_nonempty c s : split c s <> [].
Proof. destruct s as [|a s]; simpl; [done|]. destruct (Ascii.eqb a c), (split c s); done. Qed.

(** The order on strings is total and transitive. *)
Lemma ascii_compare_code a b : Ascii.compare a b = (code a ?= code b).
Proof. unfold Ascii.compare, code. by rewrite N2Z.inj_compare. Qed.

Lemma code_inj a b : code a = code b -> a = b.
Proof.
  unfold code. intros E%N2Z.inj. by rewrite <- (ascii_N_embedding a), <- (ascii_N_embedding b), E.
Qed.

Lemma str_compare_lt_trans a b c :
  String.compare a b = Lt -> String.compare b c = Lt -> String.compare a c = Lt.
Proof.
  revert b c; induction a as [|x a IH]; intros [|y b] [|z c]; simpl; try done.
  rewrite !ascii_compare_code.
  destruct (Z.compare_spec (code x) (code y)) as [E1|E1|E1],
    (Z.compare_spec (code y) (code z)) as [E2|E2|E2]; try done; intros H1 H2;
    destruct (Z.compare_spec (code x) (code z)); try done; try lia. eauto.
Qed.

Lemma String_compare_refl a : String.compare a a = Eq.
Proof. pose proof (String.compare_antisym a a) as E. by destruct (String.compare a a). Qed.

Lemma str_lt_iff a b : str_lt a b = true <-> String.compare a b = Lt.
Proof. unfold str_lt, String.ltb. by destruct (String.compare a b). Qed.

Lemma str_le_lt a b : str_le a b = true <-> str_lt a b = true \/ a = b.
Proof.
  unfold str_le, str_lt, String.leb, String.ltb.
  destruct (String.compare a b) eqn:E.
  - apply String.compare_eq_iff in E. split; [by right|done].
  - split; [by left|done].
  - split; [done|]. intros [?| ->]; [done|]. by rewrite String_compare_refl in E.
Qed.

Lemma str_lt_trans a b c : str_lt a b = true -> str_lt b c = true -> str_lt a c = true.
Proof. rewrite !str_lt_iff. apply str_compare_lt_trans. Qed.

Lemma str_lt_irrefl a : str_lt a a = false.
Proof.
  unfold str_lt, String.ltb. by rewrite String_compare_refl.
Qed.

Lemma str_lt_not_le a b : str_lt a b = false <-> str_le b a = true.
Proof.
  unfold str_lt, str_le, String.ltb, String.leb. rewrite (String.compare_antisym a b).
  by destruct (String.compare b a).
Qed.

Lemma str_le_total a b : str_le a b = true \/ str_le b a = true.
Proof. rewrite <- (str_lt_not_le a b), str_le_lt. destruct (str_lt a b); auto. Qed.

Lemma str_le_trans a b c : str_le a b = true -> str_le b c = true -> str_le a c = true.
Proof.
  rewrite !str_le_lt. intros [H1| ->] [H2| ->]; auto. left. eauto using str_lt_trans.
Qed.

Lemma str_le_antisym a b : str_le a b = true -> str_le b a = true -> a = b.
Proof.
  rewrite <- (str_lt_not_le a b), (str_le_lt a b). intros [H| ->]; [congruence|done].
Qed.

#[export] Hint Resolve str_le_total str_le_trans : magnetite.

(** ** UTF-8 *)

Definition in_range (lo hi b : Z) : bool := (lo <=? b) && (b <=? hi).
Definition utf8_cont (b : Z) : bool := in_range 0x80 0xBF b.

(** [std::str::from_utf8(..).is_ok()]: the well-formed byte sequences. *)
Fixpoint utf8_valid (l : bytes) : bool :=
  match l with
  | [] => true
  | b0 :: r0 =>
      if b0 <? 0x80 then utf8_valid r0
      else if in_range 0xC2 0xDF b0 then
        match r0 with b1 :: r1 => utf8_cont b1 && utf8_valid r1 | [] => false end
      else if in_range 0xE0 0xEF b0 then
        match r0 with
        | b1 :: b2 :: r2 =>
            (if b0 =? 0xE0 then in_range 0xA0 0xBF b1
             else if b0 =? 0xED then in_range 0x80 0x9F b1 else utf8_cont b1)
            && utf8_cont b2 && utf8_valid r2
        | _ => false
        end
      else if in_range 0xF0 0xF4 b0 then
        match r0 with
        | b1 :: b2 :: b3 :: r3 =>
            (if b0 =? 0xF0 then in_range 0x90 0xBF b1
             else if b0 =? 0xF4 then in_range 0x80 0x8F b1 else utf8_cont b1)
            && utf8_cont b2 && utf8_cont b3 && utf8_valid r3
        | _ => false
        end
      else false
  end.

Fixpoint string_of_bytes (l : bytes) : string :=
  match l with
  | [] => EmptyString
  | b :: l' => String (ascii_of_N (Z.to_N b)) (string_of_bytes l')
  end.

Fixpoint bytes_of_string (s : string) : bytes :=
  match s with EmptyString => [] | String c s' => code c :: bytes_of_string s' end.

Lemma code_bound c : 0 <= code c < 256.
Proof. unfold code. pose proof (N_ascii_bounded c). lia. Qed.

Lemma string_of_bytes_of_string s : string_of_bytes (bytes_of_string s) = s.
Proof.
  induction s as [|c s IH]; simpl; [done|]. unfold code. by rewrite N2Z.id, ascii_N_embedding, IH.
Qed.

Lemma bytes_of_string_ok s : bytes_ok (bytes_of_string s).
Proof. induction s; constructor; [apply code_bound|done]. Qed.

Lemma bytes_of_string_length s : length (bytes_of_string s) = String.length s.
Proof. induction s; simpl; auto. Qed.

(** ** Visible ASCII text *)

Definition is_graphic (c : ascii) : bool := in_codes 33 126 c.

Lemma strip_one_graphic c s : is_graphic c = true -> strip_one white_space (String c s) = None.
Proof. destruct c as [[] [] [] [] [] [] [] []]; intros H; first [discriminate H|reflexivity]. Qed.

Lemma trim_start_graphic c s : is_graphic c = true -> trim_start (String c s) = String c s.
Proof. intros H. unfold trim_start. cbn [String.length trim_start_fuel]. by rewrite strip_one_graphic. Qed.

Lemma trim_end_graphic s : str_forallb is_graphic s = true -> trim_end s = s.
Proof.
  induction s as [|c s IH]; [done|]. cbn [str_forallb]. intros [Hc Hs]%andb_true_iff.
  cbn [trim_end]. unfold all_white. rewrite trim_start_graphic by done. simpl. by rewrite IH.
Qed.

(** Trimming leaves visible text alone. *)
Lemma trim_graphic s : str_forallb is_graphic s = true -> trim s = s.
Proof.
  intros H. unfold trim. assert (trim_start s = s) as ->; [|by apply trim_end_graphic].
  destruct s as [|c s]; [done|]. apply trim_start_graphic. by apply andb_true_iff in H as [H _].
Qed.

Lemma str_forallb_app f a b : str_forallb f (a +:+ b) = str_forallb f a && str_forallb f b.
Proof. induction a as [|c a IH]; simpl; [done|]. by rewrite IH, andb_assoc. Qed.
