(* ===== verification/Utf16.v ===== *)
(** * UTF-16

    [str::encode_utf16] and [String::from_utf16_lossy], which the directory's
    RPC interfaces use for every name.  Rust strings are UTF-8, so both convert
    between byte strings and 16-bit units; [utf16_round_trip] states that a
    valid string survives the two conversions. *)

From S2P Require Import Prelude Bytes RustStr.

Local Open Scope Z_scope.

(** ** Code points *)

(** [char::encode_utf16] *)
Definition utf16_units (cp : Z) : list Z :=
  if cp <? 0x10000 then [cp]
  else [0xD800 + Z.shiftr (cp - 0x10000) 10; 0xDC00 + Z.land (cp - 0x10000) 0x3FF].

(** [char::encode_utf8] *)
Definition encode_utf8 (cp : Z) : bytes :=
  if cp <? 0x80 then [cp]
  else if cp <? 0x800 then [Z.lor 0xC0 (Z.shiftr cp 6); Z.lor 0x80 (Z.land cp 0x3F)]
  else if cp <? 0x10000 then
    [Z.lor 0xE0 (Z.shiftr cp 12); Z.lor 0x80 (Z.land (Z.shiftr cp 6) 0x3F); Z.lor 0x80 (Z.land cp 0x3F)]
  else [Z.lor 0xF0 (Z.shiftr cp 18); Z.lor 0x80 (Z.land (Z.shiftr cp 12) 0x3F);
        Z.lor 0x80 (Z.land (Z.shiftr cp 6) 0x3F); Z.lor 0x80 (Z.land cp 0x3F)].

(** ** Strings *)

(** The code points of a string held as UTF-8 bytes ([str::chars]). *)
Fixpoint chars (l : bytes) : list Z :=
  match l with
  | [] => []
  | b0 :: r0 =>
      if b0 <? 0x80 then b0 :: chars r0
      else if b0 <? 0xE0 then
        match r0 with
        | b1 :: r1 => Z.lor (Z.shiftl (Z.land b0 0x1F) 6) (Z.land b1 0x3F) :: chars r1
        | [] => []
        end
      else if b0 <? 0xF0 then
        match r0 with
        | b1 :: b2 :: r2 =>
            Z.lor (Z.shiftl (Z.land b0 0x0F) 12) (Z.lor (Z.shiftl (Z.land b1 0x3F) 6) (Z.land b2 0x3F)) :: chars r2
        | _ => []
        end
      else
        match r0 with
        | b1 :: b2 :: b3 :: r3 =>
            Z.lor (Z.shiftl (Z.land b0 0x07) 18)
              (Z.lor (Z.shiftl (Z.land b1 0x3F) 12) (Z.lor (Z.shiftl (Z.land b2 0x3F) 6) (Z.land b3 0x3F))) :: chars r3
        | _ => []
        end
  end.

Definition encode_utf16 (s : string) : list Z := flat_map utf16_units (chars (bytes_of_string s)).

Definition is_high_surrogate (u : Z) : bool := in_range 0xD800 0xDBFF u.
Definition is_low_surrogate (u : Z) : bool := in_range 0xDC00 0xDFFF u.

Definition REPLACEMENT_CHARACTER : Z := 0xFFFD.

(** [char::decode_utf16], an unpaired surrogate replaced. *)
Fixpoint decode_utf16 (units : list Z) : list Z :=
  match units with
  | [] => []
  | u :: r =>
      if is_high_surrogate u then
        match r with
        | v :: r' =>
            if is_low_surrogate v
            then (0x10000 + Z.lor (Z.shiftl (u - 0xD800) 10) (v - 0xDC00)) :: decode_utf16 r'
            else REPLACEMENT_CHARACTER :: decode_utf16 r
        | [] => [REPLACEMENT_CHARACTER]
        end
      else if is_low_surrogate u then REPLACEMENT_CHARACTER :: decode_utf16 r
      else u :: decode_utf16 r
  end.

Definition from_utf16_lossy (units : list Z) : string := string_of_bytes (flat_map encode_utf8 (decode_utf16 units)).

(** [s.encode_utf16().flat_map(u16::to_le_bytes)] *)
Definition utf16le (s : string) : bytes := flat_map (to_le_bytes 2) (encode_utf16 s).

(** [bytes.as_chunks::<2>().0], each read as a [u16]: an odd last byte is dropped. *)
Fixpoint le_units (b : bytes) : list Z :=
  match b with
  | b0 :: b1 :: r => from_le_bytes [b0; b1] :: le_units r
  | _ => []
  end.

Definition utf16le_to_string (b : bytes) : string := from_utf16_lossy (le_units b).

(** ** Round trip *)

(** The scalar values. *)
Definition scalar (cp : Z) : Prop := 0 <= cp < 0xD800 \/ 0xE000 <= cp < 0x110000.

Lemma land_mod x k : 0 <= k -> Z.land x (Z.ones k) = x mod 2 ^ k.
Proof. apply Z.land_ones. Qed.

Lemma lor_low a b k : 0 <= k -> 0 <= b < 2 ^ k -> Z.lor (a * 2 ^ k) b = a * 2 ^ k + b.
Proof. intros Hk Hb. transitivity (Z.lor (Z.shiftl a k) b); [by rewrite Z.shiftl_mul_pow2|by apply lor_shiftl_add]. Qed.

(** Bit operations as arithmetic. *)
Ltac bits :=
  change 0x3F with (Z.ones 6) in *; change 0x1F with (Z.ones 5) in *; change 0x0F with (Z.ones 4) in *;
  change 0x07 with (Z.ones 3) in *; change 0x3FF with (Z.ones 10) in *;
  rewrite ?Z.land_ones in * by lia; rewrite ?Z.shiftr_div_pow2 in * by lia; rewrite ?Z.shiftl_mul_pow2 in * by lia.

Lemma utf16_units_decode cp rest : scalar cp -> decode_utf16 (utf16_units cp ++ rest) = cp :: decode_utf16 rest.
Proof.
  intros H. unfold utf16_units. destruct (Z.ltb_spec cp 0x10000) as [Hl|Hl].
  - cbn [app decode_utf16]. unfold is_high_surrogate, is_low_surrogate, in_range.
    destruct (Z.leb_spec 0xD800 cp), (Z.leb_spec cp 0xDBFF), (Z.leb_spec 0xDC00 cp), (Z.leb_spec cp 0xDFFF); simpl;
      try done; destruct H; lia.
  - assert (0 <= cp - 0x10000 < 2 ^ 20) as Hr by (destruct H; lia). bits.
    set (x := cp - 0x10000) in *. assert (0 <= x / 2 ^ 10 < 2 ^ 10) as H1.
    { split; [apply Z.div_pos; lia|apply Z.div_lt_upper_bound; lia]. }
    pose proof (Z.mod_pos_bound x (2 ^ 10) ltac:(lia)) as H2.
    cbn [app decode_utf16]. unfold is_high_surrogate, is_low_surrogate, in_range.
    rewrite !(proj2 (Z.leb_le _ _)) by lia. simpl andb. cbv iota. f_equal. bits.
    replace (0xD800 + x / 2 ^ 10 - 0xD800) with (x / 2 ^ 10) by lia.
    replace (0xDC00 + x mod 2 ^ 10 - 0xDC00) with (x mod 2 ^ 10) by lia.
    rewrite lor_low by lia. pose proof (Z.div_mod x (2 ^ 10) ltac:(lia)). unfold x in *. lia.
Qed.

Lemma decode_encode_chars l : Forall scalar l -> decode_utf16 (flat_map utf16_units l) = l.
Proof.
  induction l as [|cp l IH]; [done|]. intros [Hc Hl]%Forall_cons. simpl. by rewrite utf16_units_decode, IH.
Qed.

(** Each well-formed sequence encodes a scalar value, which encodes back to it. *)
Lemma cont_range b : utf8_cont b = true -> exists x, b = 128 + x /\ 0 <= x < 64 /\ b mod 2 ^ 6 = x.
Proof.
  unfold utf8_cont, in_range. intros [H1%Z.leb_le H2%Z.leb_le]%andb_true_iff. exists (b - 128).
  split; [lia|]. split; [lia|]. rewrite <- (Z.mod_add b (-2) (2 ^ 6)) by lia. rewrite Z.mod_small; lia.
Qed.

Lemma utf8_two b0 b1 cp : in_range 0xC2 0xDF b0 = true -> utf8_cont b1 = true ->
  cp = Z.lor (Z.shiftl (Z.land b0 0x1F) 6) (Z.land b1 0x3F) -> scalar cp /\ encode_utf8 cp = [b0; b1].
Proof.
  intros [H1%Z.leb_le H2%Z.leb_le]%andb_true_iff (x & -> & Hx & Em)%cont_range ->. bits. rewrite Em.
  assert (b0 mod 2 ^ 5 = b0 - 192) as ->. { rewrite <- (Z.mod_add b0 (-6) (2 ^ 5)) by lia. rewrite Z.mod_small; lia. }
  rewrite lor_low by lia. set (cp := (b0 - 192) * 2 ^ 6 + x). assert (0x80 <= cp < 0x800) by (unfold cp; lia).
  split; [left; lia|]. unfold encode_utf8. rewrite (proj2 (Z.ltb_ge _ _)), (proj2 (Z.ltb_lt _ _)) by lia.
  assert (cp / 2 ^ 6 = b0 - 192) as Hd by (unfold cp; rewrite Z.div_add_l, Z.div_small; lia).
  assert (cp mod 2 ^ 6 = x) as Hm by (unfold cp; rewrite Z.add_comm, Z.mod_add, Z.mod_small; lia).
  bits. rewrite Hd, Hm. change 192 with (6 * 2 ^ 5) at 1. change 128 with (2 * 2 ^ 6). rewrite !lor_low by lia.
  repeat (f_equal; try lia).
Qed.

Lemma utf8_three b0 b1 b2 cp : in_range 0xE0 0xEF b0 = true ->
  (if b0 =? 0xE0 then in_range 0xA0 0xBF b1 else if b0 =? 0xED then in_range 0x80 0x9F b1 else utf8_cont b1) = true ->
  utf8_cont b2 = true ->
  cp = Z.lor (Z.shiftl (Z.land b0 0x0F) 12) (Z.lor (Z.shiftl (Z.land b1 0x3F) 6) (Z.land b2 0x3F)) ->
  scalar cp /\ encode_utf8 cp = [b0; b1; b2].
Proof.
  intros [H1%Z.leb_le H2%Z.leb_le]%andb_true_iff Hb1 (y & -> & Hy & Ey)%cont_range ->.
  assert (utf8_cont b1 = true /\ (b0 = 0xE0 -> 0xA0 <= b1) /\ (b0 = 0xED -> b1 <= 0x9F)) as ((x & -> & Hx & Ex)%cont_range & L1 & L2).
  { unfold utf8_cont, in_range in *. destruct (Z.eqb_spec b0 0xE0), (Z.eqb_spec b0 0xED); try lia;
      apply andb_true_iff in Hb1 as [?%Z.leb_le ?%Z.leb_le]; rewrite !(proj2 (Z.leb_le _ _)) by lia; split_and!; lia. }
  bits. rewrite Ex, Ey. clear Hb1.
  assert (b0 mod 2 ^ 4 = b0 - 224) as ->. { rewrite <- (Z.mod_add b0 (-14) (2 ^ 4)) by lia. rewrite Z.mod_small; lia. }
  rewrite (lor_low x y 6) by lia. rewrite lor_low by lia.
  set (cp := (b0 - 224) * 2 ^ 12 + (x * 2 ^ 6 + y)).
  assert (0x800 <= cp < 0x10000 /\ ~ (0xD800 <= cp < 0xE000)) as [Hc Hn].
  { unfold cp. destruct (Z.eq_dec b0 0xE0), (Z.eq_dec b0 0xED); lia. }
  split; [destruct (Z.lt_ge_cases cp 0xD800); [left|right]; lia|].
  assert (cp / 2 ^ 12 = b0 - 224) as D1 by (unfold cp; rewrite Z.div_add_l, Z.div_small; lia).
  assert (cp / 2 ^ 6 = (b0 - 224) * 2 ^ 6 + x) as D2.
  { unfold cp. replace ((b0 - 224) * 2 ^ 12 + (x * 2 ^ 6 + y)) with (((b0 - 224) * 2 ^ 6 + x) * 2 ^ 6 + y) by lia.
    rewrite Z.div_add_l, Z.div_small; lia. }
  assert (cp mod 2 ^ 6 = y) as M1.
  { unfold cp. replace ((b0 - 224) * 2 ^ 12 + (x * 2 ^ 6 + y)) with (y + ((b0 - 224) * 2 ^ 6 + x) * 2 ^ 6) by lia.
    rewrite Z.mod_add, Z.mod_small; lia. }
  unfold encode_utf8. rewrite (proj2 (Z.ltb_ge cp 0x80)), (proj2 (Z.ltb_ge cp 0x800)), (proj2 (Z.ltb_lt cp 0x10000)) by lia.
  bits. rewrite D1, D2, M1, Z.add_comm, Z.mod_add, Z.mod_small by lia.
  change 224 with (14 * 2 ^ 4) at 1. change 128 with (2 * 2 ^ 6). rewrite !lor_low by lia. repeat (f_equal; try lia).
Qed.

Lemma utf8_four b0 b1 b2 b3 cp : in_range 0xF0 0xF4 b0 = true ->
  (if b0 =? 0xF0 then in_range 0x90 0xBF b1 else if b0 =? 0xF4 then in_range 0x80 0x8F b1 else utf8_cont b1) = true ->
  utf8_cont b2 = true -> utf8_cont b3 = true ->
  cp = Z.lor (Z.shiftl (Z.land b0 0x07) 18)
         (Z.lor (Z.shiftl (Z.land b1 0x3F) 12) (Z.lor (Z.shiftl (Z.land b2 0x3F) 6) (Z.land b3 0x3F))) ->
  scalar cp /\ encode_utf8 cp = [b0; b1; b2; b3].
Proof.
  intros [H1%Z.leb_le H2%Z.leb_le]%andb_true_iff Hb1 (y & -> & Hy & Ey)%cont_range (z & -> & Hz & Ez)%cont_range ->.
  assert (utf8_cont b1 = true /\ (b0 = 0xF0 -> 0x90 <= b1) /\ (b0 = 0xF4 -> b1 <= 0x8F)) as ((x & -> & Hx & Ex)%cont_range & L1 & L2).
  { unfold utf8_cont, in_range in *. destruct (Z.eqb_spec b0 0xF0), (Z.eqb_spec b0 0xF4); try lia;
      apply andb_true_iff in Hb1 as [?%Z.leb_le ?%Z.leb_le]; rewrite !(proj2 (Z.leb_le _ _)) by lia; split_and!; lia. }
  bits. rewrite Ex, Ey, Ez. clear Hb1.
  assert (b0 mod 2 ^ 3 = b0 - 240) as ->. { rewrite <- (Z.mod_add b0 (-30) (2 ^ 3)) by lia. rewrite Z.mod_small; lia. }
  rewrite (lor_low y z 6) by lia. rewrite (lor_low x _ 12) by lia. rewrite lor_low by lia.
  set (cp := (b0 - 240) * 2 ^ 18 + (x * 2 ^ 12 + (y * 2 ^ 6 + z))).
  assert (0x10000 <= cp < 0x110000) as Hc. { unfold cp. destruct (Z.eq_dec b0 0xF0), (Z.eq_dec b0 0xF4); lia. }
  split; [right; lia|].
  assert (cp / 2 ^ 18 = b0 - 240) as D1 by (unfold cp; rewrite Z.div_add_l, Z.div_small; lia).
  assert (cp / 2 ^ 12 = (b0 - 240) * 2 ^ 6 + x) as D2.
  { unfold cp. replace ((b0 - 240) * 2 ^ 18 + (x * 2 ^ 12 + (y * 2 ^ 6 + z))) with (((b0 - 240) * 2 ^ 6 + x) * 2 ^ 12 + (y * 2 ^ 6 + z)) by lia.
    rewrite Z.div_add_l, Z.div_small; lia. }
  assert (cp / 2 ^ 6 = ((b0 - 240) * 2 ^ 12 + x * 2 ^ 6) + y) as D3.
  { unfold cp. replace ((b0 - 240) * 2 ^ 18 + (x * 2 ^ 12 + (y * 2 ^ 6 + z))) with ((((b0 - 240) * 2 ^ 12 + x * 2 ^ 6) + y) * 2 ^ 6 + z) by lia.
    rewrite Z.div_add_l, Z.div_small; lia. }
  assert (cp mod 2 ^ 6 = z) as M1.
  { unfold cp. replace ((b0 - 240) * 2 ^ 18 + (x * 2 ^ 12 + (y * 2 ^ 6 + z))) with (z + ((b0 - 240) * 2 ^ 12 + x * 2 ^ 6 + y) * 2 ^ 6) by lia.
    rewrite Z.mod_add, Z.mod_small; lia. }
  unfold encode_utf8. rewrite (proj2 (Z.ltb_ge cp 0x80)), (proj2 (Z.ltb_ge cp 0x800)), (proj2 (Z.ltb_ge cp 0x10000)) by lia.
  bits. rewrite D1, D2, D3, M1.
  assert (((b0 - 240) * 2 ^ 6 + x) mod 2 ^ 6 = x) as -> by (rewrite Z.add_comm, Z.mod_add, Z.mod_small; lia).
  assert (((b0 - 240) * 2 ^ 12 + x * 2 ^ 6 + y) mod 2 ^ 6 = y) as ->.
  { replace ((b0 - 240) * 2 ^ 12 + x * 2 ^ 6 + y) with (y + ((b0 - 240) * 2 ^ 6 + x) * 2 ^ 6) by lia. rewrite Z.mod_add, Z.mod_small; lia. }
  change 240 with (30 * 2 ^ 3) at 1. change 128 with (2 * 2 ^ 6). rewrite !lor_low by lia. repeat (f_equal; try lia).
Qed.

Lemma chars_spec l : utf8_valid l = true -> bytes_ok l -> Forall scalar (chars l) /\ flat_map encode_utf8 (chars l) = l.
Proof.
  remember (length l) as n eqn:En. revert l En. induction n as [n IH] using lt_wf_ind. intros l -> Hv Hb.
  destruct l as [|b0 r0]; [done|]. cbn [utf8_valid] in Hv. cbn [chars]. apply Forall_cons in Hb as [H0 Hb].
  destruct (Z.ltb_spec b0 0x80) as [L0|L0].
  { destruct (IH (length r0) ltac:(simpl; lia) r0 eq_refl Hv Hb) as [I1 I2]. unfold is_u8 in H0.
    split; [constructor; [left; lia|done]|]. cbn [flat_map]. rewrite I2. unfold encode_utf8.
    by rewrite (proj2 (Z.ltb_lt _ _)) by lia. }
  destruct (in_range 0xC2 0xDF b0) eqn:R2.
  { pose proof R2 as [_ R%Z.leb_le]%andb_true_iff. rewrite (proj2 (Z.ltb_lt b0 0xE0)) by lia.
    destruct r0 as [|b1 r1]; [done|]. apply andb_true_iff in Hv as [V1 Hv]. apply Forall_cons in Hb as [_ Hb].
    destruct (IH (length r1) ltac:(simpl; lia) r1 eq_refl Hv Hb) as [I1 I2].
    destruct (utf8_two b0 b1 _ R2 V1 eq_refl) as [S E]. split; [by constructor|]. cbn [flat_map]. by rewrite E, I2. }
  destruct (in_range 0xE0 0xEF b0) eqn:R3.
  { pose proof R3 as [R%Z.leb_le R'%Z.leb_le]%andb_true_iff. rewrite (proj2 (Z.ltb_ge b0 0xE0)), (proj2 (Z.ltb_lt b0 0xF0)) by lia.
    destruct r0 as [|b1 [|b2 r2]]; [done..|]. apply andb_true_iff in Hv as [[V1 V2]%andb_true_iff Hv].
    apply Forall_cons in Hb as [_ Hb]. apply Forall_cons in Hb as [_ Hb].
    destruct (IH (length r2) ltac:(simpl; lia) r2 eq_refl Hv Hb) as [I1 I2].
    destruct (utf8_three b0 b1 b2 _ R3 V1 V2 eq_refl) as [S E]. split; [by constructor|]. cbn [flat_map]. by rewrite E, I2. }
  destruct (in_range 0xF0 0xF4 b0) eqn:R4; [|done].
  pose proof R4 as [R%Z.leb_le R'%Z.leb_le]%andb_true_iff. rewrite (proj2 (Z.ltb_ge b0 0xE0)), (proj2 (Z.ltb_ge b0 0xF0)) by lia.
  destruct r0 as [|b1 [|b2 [|b3 r3]]]; [done..|]. apply andb_true_iff in Hv as [[[V1 V2]%andb_true_iff V3]%andb_true_iff Hv].
  apply Forall_cons in Hb as [_ Hb]. apply Forall_cons in Hb as [_ Hb]. apply Forall_cons in Hb as [_ Hb].
  destruct (IH (length r3) ltac:(simpl; lia) r3 eq_refl Hv Hb) as [I1 I2].
  destruct (utf8_four b0 b1 b2 b3 _ R4 V1 V2 V3 eq_refl) as [S E]. split; [by constructor|]. cbn [flat_map]. by rewrite E, I2.
Qed.

(** A Rust string: its bytes are well-formed UTF-8. *)
Definition is_str (s : string) : bool := utf8_valid (bytes_of_string s).

(** A string survives its conversion to UTF-16 and back. *)
Lemma utf16_round_trip s : is_str s = true -> from_utf16_lossy (encode_utf16 s) = s.
Proof.
  intros H. destruct (chars_spec _ H (bytes_of_string_ok s)) as [H1 H2]. unfold from_utf16_lossy, encode_utf16.
  by rewrite decode_encode_chars, H2, string_of_bytes_of_string.
Qed.

(** Units are 16 bits. *)
Lemma encode_utf16_u16 s : is_str s = true -> Forall is_u16 (encode_utf16 s).
Proof.
  intros H. destruct (chars_spec _ H (bytes_of_string_ok s)) as [H1 _]. unfold encode_utf16.
  induction (chars (bytes_of_string s)) as [|cp l IH]; [constructor|]. apply Forall_cons in H1 as [Hc Hl].
  cbn [flat_map]. apply Forall_app. split; [|by apply IH]. unfold utf16_units, is_u16.
  destruct (Z.ltb_spec cp 0x10000); [constructor; [destruct Hc; lia|constructor]|].
  bits. assert (0 <= (cp - 65536) / 2 ^ 10 < 2 ^ 10).
  { split; [apply Z.div_pos; lia|apply Z.div_lt_upper_bound; destruct Hc; lia]. }
  pose proof (Z.mod_pos_bound (cp - 65536) (2 ^ 10) ltac:(lia)). repeat constructor; lia.
Qed.

Lemma le_units_bytes us : Forall is_u16 us -> le_units (flat_map (to_le_bytes 2) us) = us.
Proof.
  induction us as [|u us IH]; [done|]. intros [Hu Hus]%Forall_cons. cbn [flat_map].
  pose proof (from_to_le_bytes 2 u Hu) as E. assert (exists x y, to_le_bytes 2 u = [x; y]) as (x & y & Exy) by (by eexists _, _).
  rewrite Exy in *. cbn [app le_units]. by rewrite IH, E.
Qed.

(** The same through bytes. *)
Lemma utf16le_round_trip s : is_str s = true -> utf16le_to_string (utf16le s) = s.
Proof. intros H. unfold utf16le_to_string, utf16le. by rewrite le_units_bytes, utf16_round_trip by auto using encode_utf16_u16. Qed.

Example utf16_sample : utf16le_to_string (utf16le (string_of_bytes [0x41; 0xC3; 0xA9; 0xE2; 0x82; 0xAC; 0xF0; 0x9F; 0x98; 0x80])) =
  string_of_bytes [0x41; 0xC3; 0xA9; 0xE2; 0x82; 0xAC; 0xF0; 0x9F; 0x98; 0x80].
Proof. vm_compute. reflexivity. Qed.

(** ** Concatenation and size *)

Lemma utf8_valid_app l1 l2 : utf8_valid l1 = true -> utf8_valid (l1 ++ l2) = utf8_valid l2.
Proof.
  remember (length l1) as n eqn:Hn. revert l1 Hn. induction (lt_wf n) as [n _ IH]. intros [|b0 r0] -> H; [done|].
  cbn [utf8_valid app] in *. destruct (b0 <? 0x80); [apply (IH (length r0)); simpl; (lia || done)|].
  destruct (in_range 0xC2 0xDF b0).
  { destruct r0 as [|b1 r1]; [done|]. apply andb_true_iff in H as [H1 H]. cbn [app]. rewrite H1. simpl.
    apply (IH (length r1)); simpl; (lia || done). }
  destruct (in_range 0xE0 0xEF b0).
  { destruct r0 as [|b1 [|b2 r2]]; [done..|]. apply andb_true_iff in H as [H1 H]. cbn [app]. rewrite H1. simpl.
    apply (IH (length r2)); simpl; (lia || done). }
  destruct (in_range 0xF0 0xF4 b0); [|done].
  destruct r0 as [|b1 [|b2 [|b3 r3]]]; [done..|]. apply andb_true_iff in H as [H1 H]. cbn [app]. rewrite H1. simpl.
  apply (IH (length r3)); simpl; (lia || done).
Qed.

Lemma bytes_of_string_app a b : bytes_of_string (a +:+ b) = bytes_of_string a ++ bytes_of_string b.
Proof. induction a as [|c a IH]; [done|]. simpl. by rewrite IH. Qed.

Lemma is_str_app a b : is_str a = true -> is_str b = true -> is_str (a +:+ b) = true.
Proof. unfold is_str. intros Ha Hb. by rewrite bytes_of_string_app, utf8_valid_app. Qed.

Lemma chars_length l : (length (chars l) <= length l)%nat.
Proof.
  remember (length l) as n eqn:Hn. revert l Hn. induction (lt_wf n) as [n _ IH]. intros [|b0 r0] ->; [done|].
  assert (forall r, (length r < length (b0 :: r0))%nat -> (length (chars r) <= length r)%nat) as Hr.
  { intros r Hr. by apply (IH (length r)). }
  cbn [chars]. destruct (b0 <? 0x80); [specialize (Hr r0); simpl in *; lia|].
  destruct r0 as [|b1 [|b2 [|b3 r3]]]; cbn [length] in *; repeat case_goal; cbn [length]; try lia.
  all: match goal with |- context [length (chars ?r)] => specialize (Hr r) end; cbn [length] in *; lia.
Qed.

Lemma encode_utf16_length s : (length (encode_utf16 s) <= 2 * String.length s)%nat.
Proof.
  unfold encode_utf16. rewrite <- (bytes_of_string_length s). pose proof (chars_length (bytes_of_string s)) as H.
  assert (forall l, (length (flat_map utf16_units l) <= 2 * length l)%nat) as Hl.
  { induction l as [|c l IHl]; [done|]. cbn [flat_map]. rewrite length_app. unfold utf16_units at 1. case_match; simpl; lia. }
  specialize (Hl (chars (bytes_of_string s))). lia.
Qed.

Lemma utf16le_length s : length (utf16le s) = (2 * length (encode_utf16 s))%nat.
Proof.
  unfold utf16le. induction (encode_utf16 s) as [|u l IH]; [done|]. cbn [flat_map]. rewrite length_app, to_le_bytes_length, IH. cbn [length]. lia.
Qed.
