(* ===== verification/KdcStore.v ===== *)
(** * The principal store of the key distribution centre

    [crates/magnetite-krb5/src/keys.rs]: long-term keys, the WTF-8 form of machine
    passwords, and the principals the KDC answers for.  Accounts loaded at
    start-up are [principals]; what is registered while the server runs is in
    [dynamic] and shadows them; [revoked] shadows both.

    The string-to-key function of the AES256 suite is an argument. *)

From S2P Require Import Prelude Bytes RustStr Utf16.

Local Open Scope Z_scope.

(** ** Keys *)

Definition AES256_CTS_HMAC_SHA1_96 : Z := 18.

Definition default_salt (realm : string) (name_components : list string) : string :=
  fold_left (fun salt component => salt +:+ component) name_components realm.

(** *** WTF-8 *)

(** The code points of UTF-16 units: a pair of surrogates is one, a lone
    surrogate stands for itself. *)
Fixpoint wtf8_points (units : list Z) : list Z :=
  match units with
  | [] => []
  | u :: r =>
      match r with
      | lo :: r' =>
          if (0xD800 <=? u) && (u <? 0xDC00) && ((0xDC00 <=? lo) && (lo <? 0xE000))
          then (0x10000 + Z.shiftl (u - 0xD800) 10 + (lo - 0xDC00)) :: wtf8_points r'
          else u :: wtf8_points r
      | [] => [u]
      end
  end.

Definition wtf8_bytes (cp : Z) : bytes :=
  if cp <=? 0x7F then [cp]
  else if cp <=? 0x7FF then [Z.lor 0xC0 (u8 (Z.shiftr cp 6)); Z.lor 0x80 (Z.land cp 0x3F)]
  else if cp <=? 0xFFFF then
    [Z.lor 0xE0 (u8 (Z.shiftr cp 12)); Z.lor 0x80 (Z.land (Z.shiftr cp 6) 0x3F); Z.lor 0x80 (Z.land cp 0x3F)]
  else [Z.lor 0xF0 (u8 (Z.shiftr cp 18)); Z.lor 0x80 (Z.land (Z.shiftr cp 12) 0x3F);
        Z.lor 0x80 (Z.land (Z.shiftr cp 6) 0x3F); Z.lor 0x80 (Z.land cp 0x3F)].

Definition wtf8 (units : list Z) : bytes := flat_map wtf8_bytes (wtf8_points units).

(** ** Principals *)

Record PrincipalKey := mkPrincipalKey { etype : Z; key : bytes; salt : string }.

Record Principal := mkPrincipal {
  name : list string;
  pkey : PrincipalKey;
  p_rid : Z;
  primary_group_rid : Z;
  group_rids : list Z;
}.

Definition DOMAIN_USERS_RID : Z := 513.

Definition with_default_identity (nm : list string) (k : PrincipalKey) : Principal :=
  mkPrincipal nm k 0 DOMAIN_USERS_RID [DOMAIN_USERS_RID].

Record PrincipalStore := mkPrincipalStore {
  realm : string;
  principals : gmap string Principal;
  dynamic : gmap string Principal;
  revoked : gset string;
  delegation : list (string * string);
  kdc_domain_sid : list Z;
}.

Definition with_principals (m : gmap string Principal) (s : PrincipalStore) : PrincipalStore :=
  mkPrincipalStore (realm s) m (dynamic s) (revoked s) (delegation s) (kdc_domain_sid s).
Definition with_runtime (m : gmap string Principal) (r : gset string) (s : PrincipalStore) : PrincipalStore :=
  mkPrincipalStore (realm s) (principals s) m r (delegation s) (kdc_domain_sid s).

Definition new_store (r : string) : PrincipalStore := mkPrincipalStore r ∅ ∅ ∅ [] [21; 1; 2; 3].

Definition set_kdc_domain_sid (sub_authorities : list Z) (s : PrincipalStore) : PrincipalStore :=
  match sub_authorities with
  | [] => s
  | _ => mkPrincipalStore (realm s) (principals s) (dynamic s) (revoked s) (delegation s) sub_authorities
  end.

Section store.
Context {UC : UnicodeTables}.
(** [generate_key_from_password] of the AES256 suite, with the text of its error. *)
Context (generate_key_from_password : bytes -> bytes -> string + bytes).

Definition derive_aes256_key_bytes (password salt : bytes) : string + bytes :=
  match generate_key_from_password password salt with
  | inl e => inl ("kerberos crypto error: " +:+ e)
  | inr k => inr k
  end.

Definition derive_aes256_key (password salt : string) : string + bytes :=
  derive_aes256_key_bytes (bytes_of_string password) (bytes_of_string salt).

Definition lookup_key (name_components : list string) : string := to_lowercase (join "/" name_components).

(** *** Delegation *)

Definition allow_delegation (from to : list string) (s : PrincipalStore) : PrincipalStore :=
  mkPrincipalStore (realm s) (principals s) (dynamic s) (revoked s)
    (delegation s ++ [(lookup_key from, lookup_key to)]) (kdc_domain_sid s).

Definition can_delegate (from to : list string) (s : PrincipalStore) : bool :=
  let from_key := lookup_key from in
  let to_key := lookup_key to in
  existsb (fun '(f, t) => String.eqb f from_key && String.eqb t to_key) (delegation s).

(** *** Accounts loaded at start-up *)

Definition add_password_principal (name_components : list string) (password : string) (s : PrincipalStore) :
    string + PrincipalStore :=
  let sl := default_salt (realm s) name_components in
  match derive_aes256_key password sl with
  | inl e => inl e
  | inr k =>
      let p := with_default_identity name_components (mkPrincipalKey AES256_CTS_HMAC_SHA1_96 k sl) in
      inr (with_principals (<[lookup_key name_components := p]> (principals s)) s)
  end.

Definition add_key_principal (name_components : list string) (aes256_key : bytes) (s : PrincipalStore) : PrincipalStore :=
  let sl := default_salt (realm s) name_components in
  let p := with_default_identity name_components (mkPrincipalKey AES256_CTS_HMAC_SHA1_96 aes256_key sl) in
  with_principals (<[lookup_key name_components := p]> (principals s)) s.

Definition user_principal (s : PrincipalStore) (sam : string) (aes256_key : bytes) (rid primary : Z) (groups : list Z) :
    Principal :=
  mkPrincipal [sam] (mkPrincipalKey AES256_CTS_HMAC_SHA1_96 aes256_key (default_salt (realm s) [sam])) rid primary groups.

Definition add_user_principal (sam : string) (aes256_key : bytes) (rid primary : Z) (groups : list Z)
    (s : PrincipalStore) : PrincipalStore :=
  with_principals (<[lookup_key [sam] := user_principal s sam aes256_key rid primary groups]> (principals s)) s.

(** *** Lookup *)

Definition get (name_components : list string) (s : PrincipalStore) : option Principal :=
  let k := lookup_key name_components in
  if decide (k ∈ revoked s) then None
  else match dynamic s !! k with
       | Some p => Some p
       | None => principals s !! k
       end.

Definition krbtgt (s : PrincipalStore) : option Principal := get ["krbtgt"; realm s] s.

(** *** Machine accounts *)

Definition machine_fqdn (r sam : string) : string :=
  to_lowercase (trim_end_matches "$" sam) +:+ "." +:+ to_lowercase r.

Definition machine_salt (r sam : string) : string := default_salt r ["host"; machine_fqdn r sam].

Definition machine_spn_aliases (r sam : string) : list (list string) :=
  let fqdn := machine_fqdn r sam in
  [[sam]; ["host"; fqdn]; ["cifs"; fqdn]].

Definition machine_kerberos_key (r sam : string) (pw_utf16le : bytes) : string + bytes :=
  derive_aes256_key_bytes (wtf8 (le_units pw_utf16le)) (bytes_of_string (machine_salt r sam)).

(** *** Changes while the server runs *)

Definition set_password (name_components : list string) (password : string) (s : PrincipalStore) :
    string + PrincipalStore :=
  let sl := default_salt (realm s) name_components in
  match derive_aes256_key password sl with
  | inl e => inl e
  | inr k =>
      let p := with_default_identity name_components (mkPrincipalKey AES256_CTS_HMAC_SHA1_96 k sl) in
      inr (with_runtime (<[lookup_key name_components := p]> (dynamic s)) (revoked s) s)
  end.

Definition register_machine := set_password.

Definition machine_principal (r sam : string) (k : bytes) (nm : list string) : Principal :=
  with_default_identity nm (mkPrincipalKey AES256_CTS_HMAC_SHA1_96 k (machine_salt r sam)).

(** The one key under every alias. *)
Definition with_aliases (r sam : string) (k : bytes) (m : gmap string Principal) : gmap string Principal :=
  fold_left (fun m nm => <[lookup_key nm := machine_principal r sam k nm]> m) (machine_spn_aliases r sam) m.

Definition register_machine_utf16 (sam : string) (pw_utf16le : bytes) (s : PrincipalStore) :
    string + bytes * PrincipalStore :=
  match machine_kerberos_key (realm s) sam pw_utf16le with
  | inl e => inl e
  | inr k => inr (k, with_runtime (with_aliases (realm s) sam k (dynamic s)) (revoked s) s)
  end.

Definition alias_keys (r sam : string) : list string := map lookup_key (machine_spn_aliases r sam).

Definition register_machine_key (sam : string) (k : bytes) (s : PrincipalStore) : PrincipalStore :=
  with_runtime (with_aliases (realm s) sam k (dynamic s)) (revoked s ∖ list_to_set (alias_keys (realm s) sam)) s.

Definition register_user_identity (sam : string) (k : bytes) (rid primary : Z) (groups : list Z)
    (s : PrincipalStore) : PrincipalStore :=
  let lk := lookup_key [sam] in
  with_runtime (<[lk := user_principal s sam k rid primary groups]> (dynamic s)) (revoked s ∖ {[lk]}) s.

Definition register_user_key (sam : string) (k : bytes) (s : PrincipalStore) : PrincipalStore :=
  register_user_identity sam k 0 DOMAIN_USERS_RID [DOMAIN_USERS_RID] s.

Definition revocation_keys (s : PrincipalStore) (sam : string) : list string :=
  if ends_with sam "$" then alias_keys (realm s) sam else [lookup_key [sam]].

Definition remove_dynamic_principal (sam : string) (s : PrincipalStore) : PrincipalStore :=
  let keys := revocation_keys s sam in
  with_runtime (fold_left (fun (m : gmap string Principal) k => delete k m) keys (dynamic s))
    (revoked s ∪ list_to_set keys) s.

(** ** Lookups after a change *)

Lemma get_spec nm s :
  get nm s = if decide (lookup_key nm ∈ revoked s) then None
             else match dynamic s !! lookup_key nm with Some p => Some p | None => principals s !! lookup_key nm end.
Proof. done. Qed.

Lemma fold_delete_lookup ks : forall (m : gmap string Principal) k,
  fold_left (fun (m : gmap string Principal) k => delete k m) ks m !! k = if decide (k ∈ ks) then None else m !! k.
Proof.
  induction ks as [|a ks IH]; intros m k; cbn [fold_left]; [by rewrite decide_False by set_solver|].
  rewrite IH. destruct (decide (k = a)) as [->|Hne].
  - rewrite lookup_delete_eq. destruct (decide (a ∈ ks)); by rewrite decide_True by set_solver.
  - rewrite lookup_delete_ne by done. destruct (decide (k ∈ ks)); [by rewrite decide_True by set_solver|by rewrite decide_False by set_solver].
Qed.

(** What is stored under the keys of a machine is its key. *)
Lemma with_aliases_lookup r sam k m lk :
  (exists nm, nm ∈ machine_spn_aliases r sam /\ lookup_key nm = lk /\ with_aliases r sam k m !! lk = Some (machine_principal r sam k nm))
  \/ lk ∉ alias_keys r sam /\ with_aliases r sam k m !! lk = m !! lk.
Proof.
  unfold with_aliases, alias_keys. generalize (machine_spn_aliases r sam) as l. intros l. revert m.
  induction l as [|nm l IH]; intros m; cbn [fold_left map]; [right; set_solver|].
  destruct (IH (<[lookup_key nm := machine_principal r sam k nm]> m)) as [(nm' & Hin & Hk & E)|[Hn E]].
  - left. exists nm'. set_solver.
  - destruct (decide (lookup_key nm = lk)) as [<-|Hne].
    + left. exists nm. rewrite E, lookup_insert_eq. set_solver.
    + right. rewrite E, lookup_insert_ne by done. set_solver.
Qed.

Lemma get_registered_user sam k rid primary groups s nm :
  get nm (register_user_identity sam k rid primary groups s) =
  if decide (lookup_key nm = lookup_key [sam]) then Some (user_principal s sam k rid primary groups) else get nm s.
Proof.
  unfold get, register_user_identity, with_runtime. simpl. destruct (decide (lookup_key nm = lookup_key [sam])) as [E|E].
  - rewrite E, decide_False by set_solver. by rewrite lookup_insert_eq.
  - rewrite lookup_insert_ne by done.
    destruct (decide (lookup_key nm ∈ revoked s)); [rewrite decide_True by set_solver|rewrite decide_False by set_solver]; done.
Qed.

Lemma get_registered_machine sam k s nm : lookup_key nm ∈ alias_keys (realm s) sam ->
  exists p, get nm (register_machine_key sam k s) = Some p /\ key (pkey p) = k /\ p_rid p = 0.
Proof.
  intros Hin. unfold get, register_machine_key, with_runtime. simpl. rewrite decide_False by set_solver.
  destruct (with_aliases_lookup (realm s) sam k (dynamic s) (lookup_key nm)) as [(nm' & _ & _ & ->)|[Hn _]]; [|done].
  by eexists.
Qed.

Lemma get_other_machine sam k s nm : lookup_key nm ∉ alias_keys (realm s) sam ->
  get nm (register_machine_key sam k s) = get nm s.
Proof.
  intros Hin. unfold get, register_machine_key, with_runtime. simpl.
  destruct (with_aliases_lookup (realm s) sam k (dynamic s) (lookup_key nm)) as [(nm' & H & E & _)|[_ ->]].
  { destruct Hin. rewrite <- E. unfold alias_keys. by apply list_elem_of_In, in_map, list_elem_of_In. }
  destruct (decide (lookup_key nm ∈ revoked s)); [rewrite decide_True by set_solver|rewrite decide_False by set_solver]; done.
Qed.

Lemma get_removed sam s nm :
  get nm (remove_dynamic_principal sam s) = if decide (lookup_key nm ∈ revocation_keys s sam) then None else get nm s.
Proof.
  unfold get, remove_dynamic_principal, with_runtime. simpl. rewrite fold_delete_lookup.
  destruct (decide (lookup_key nm ∈ revocation_keys s sam)); [by rewrite decide_True by set_solver|].
  destruct (decide (lookup_key nm ∈ revoked s)); [rewrite decide_True by set_solver|rewrite decide_False by set_solver]; done.
Qed.

(** ** Runs of the server *)

(** The calls that change the shared store while the server runs. *)
Inductive kdc_call :=
  | CallSetPassword (name_components : list string) (password : string)
  | CallMachineUtf16 (sam : string) (pw_utf16le : bytes)
  | CallMachineKey (sam : string) (k : bytes)
  | CallUser (sam : string) (k : bytes) (rid primary : Z) (groups : list Z)
  | CallRemove (sam : string).

Definition run_call (s : PrincipalStore) (c : kdc_call) : PrincipalStore :=
  match c with
  | CallSetPassword nm password => match set_password nm password s with inl _ => s | inr s' => s' end
  | CallMachineUtf16 sam pw => match register_machine_utf16 sam pw s with inl _ => s | inr (_, s') => s' end
  | CallMachineKey sam k => register_machine_key sam k s
  | CallUser sam k rid primary groups => register_user_identity sam k rid primary groups s
  | CallRemove sam => remove_dynamic_principal sam s
  end.

Definition run_calls (s : PrincipalStore) (cs : list kdc_call) : PrincipalStore := fold_left run_call cs s.

(** The lookup keys a call takes off the revoked set. *)
Definition reinstates (r : string) (c : kdc_call) : list string :=
  match c with
  | CallMachineKey sam _ => alias_keys r sam
  | CallUser sam _ _ _ _ => [lookup_key [sam]]
  | _ => []
  end.

Lemma run_call_realm s c : realm (run_call s c) = realm s.
Proof.
  destruct c; simpl; try done.
  - unfold set_password. by destruct (derive_aes256_key _ _).
  - unfold register_machine_utf16. by destruct (machine_kerberos_key _ _ _).
Qed.

Lemma run_call_revoked s c lk : lk ∈ revoked s -> lk ∉ reinstates (realm s) c -> lk ∈ revoked (run_call s c).
Proof.
  intros Hin Hn. destruct c; simpl in *.
  - unfold set_password. by destruct (derive_aes256_key _ _).
  - unfold register_machine_utf16. by destruct (machine_kerberos_key _ _ _).
  - unfold register_machine_key. simpl. set_solver.
  - unfold register_user_identity. simpl. set_solver.
  - unfold remove_dynamic_principal. simpl. set_solver.
Qed.

Lemma run_calls_revoked cs : forall s lk, lk ∈ revoked s -> (forall c, c ∈ cs -> lk ∉ reinstates (realm s) c) ->
  lk ∈ revoked (run_calls s cs).
Proof.
  induction cs as [|c cs IH]; intros s lk Hin Hn; [done|]. cbn [run_calls fold_left]. apply IH.
  - apply run_call_revoked; [done|]. apply Hn. set_solver.
  - intros c' Hc. rewrite run_call_realm. apply Hn. set_solver.
Qed.

(** C22: A principal that is revoked, a user under its name, a machine also under its
    service names, is not found by the KDC after any further calls, password
    changes and registrations of others included, until one of them registers
    that name again. *)
Theorem revoked_until_registered_again sam cs s nm :
  lookup_key nm ∈ revocation_keys s sam -> (forall c, c ∈ cs -> lookup_key nm ∉ reinstates (realm s) c) ->
  get nm (run_calls (remove_dynamic_principal sam s) cs) = None.
Proof.
  intros Hin Hn. unfold get. rewrite decide_True; [done|]. apply run_calls_revoked; [|done].
  unfold remove_dynamic_principal, with_runtime. simpl. set_solver.
Qed.
End store.

(** ** WTF-8 keeps every password *)

Lemma u8_shiftr cp k : 0 <= k -> 0 <= cp < 256 * 2 ^ k -> u8 (Z.shiftr cp k) = Z.shiftr cp k.
Proof.
  intros Hk H. unfold u8. rewrite Z.shiftr_div_pow2 by done. apply Z.mod_small. change (2 ^ 8) with 256.
  split; [apply Z.div_pos; lia|apply Z.div_lt_upper_bound; lia].
Qed.

Lemma wtf8_bytes_utf8 cp : 0 <= cp < 0x110000 -> wtf8_bytes cp = encode_utf8 cp.
Proof.
  intros H. unfold wtf8_bytes, encode_utf8.
  destruct (Z.leb_spec cp 0x7F), (Z.ltb_spec cp 0x80); try lia; [done|].
  destruct (Z.leb_spec cp 0x7FF), (Z.ltb_spec cp 0x800); try lia; [by rewrite u8_shiftr by lia|].
  destruct (Z.leb_spec cp 0xFFFF), (Z.ltb_spec cp 0x10000); try lia; by rewrite u8_shiftr by lia.
Qed.

(** UTF-8 decoding, for every code point including the surrogates. *)
Lemma lead_byte a y k : 0 <= k -> 0 <= y < 2 ^ k -> Z.lor (a * 2 ^ k) y = a * 2 ^ k + y.
Proof. apply lor_low. Qed.

Lemma cont_byte x : 0 <= x < 64 -> Z.lor 0x80 x = 128 + x /\ (128 + x) mod 2 ^ 6 = x.
Proof.
  intros H. split; [|change (2 ^ 6) with 64; dlia].
  change 0x80 with (2 * 2 ^ 6). rewrite lor_low by lia. lia.
Qed.

Lemma chars_encode cp rest : 0 <= cp < 0x110000 -> chars (encode_utf8 cp ++ rest) = cp :: chars rest.
Proof.
  intros H. unfold encode_utf8.
  destruct (Z.ltb_spec cp 0x80) as [H1|H1]; [cbn [app chars]; by rewrite (proj2 (Z.ltb_lt _ _)) by lia|].
  assert (Hc : forall q, 0 <= q mod 2 ^ 6 < 64) by (intros q; change (2 ^ 6) with 64; dlia).
  destruct (Z.ltb_spec cp 0x800) as [H2|H2]; [|destruct (Z.ltb_spec cp 0x10000) as [H3|H3]]; bits.
  - destruct (cont_byte _ (Hc cp)) as [-> Em].
    change 0xC0 with (6 * 2 ^ 5). rewrite lor_low by (try lia; change (2 ^ 6) with 64; change (2 ^ 5) with 32; dlia).
    cbn [app chars]. rewrite (proj2 (Z.ltb_ge _ _)), (proj2 (Z.ltb_lt _ _)) by (change (2 ^ 6) with 64; change (2 ^ 5) with 32; dlia).
    bits. rewrite Em. f_equal. rewrite lor_low by (try lia; done).
    change (2 ^ 6) with 64. change (2 ^ 5) with 32. dlia.
  - destruct (cont_byte _ (Hc cp)) as [-> E0], (cont_byte _ (Hc (cp / 2 ^ 6))) as [-> E1].
    change 0xE0 with (14 * 2 ^ 4). rewrite lor_low by (try lia; change (2 ^ 12) with 4096; change (2 ^ 4) with 16; dlia).
    cbn [app chars].
    rewrite (proj2 (Z.ltb_ge _ _)), (proj2 (Z.ltb_ge _ _)), (proj2 (Z.ltb_lt _ _)) by (change (2 ^ 12) with 4096; change (2 ^ 4) with 16; dlia).
    bits. rewrite E0, E1. f_equal. pose proof (Hc cp). pose proof (Hc (cp / 2 ^ 6)).
    rewrite (lor_low _ (cp mod 2 ^ 6)) by (try lia; done). rewrite lor_low by lia.
    change (2 ^ 12) with 4096 in *. change (2 ^ 6) with 64 in *. change (2 ^ 4) with 16. dlia.
  - destruct (cont_byte _ (Hc cp)) as [-> E0], (cont_byte _ (Hc (cp / 2 ^ 6))) as [-> E1], (cont_byte _ (Hc (cp / 2 ^ 12))) as [-> E2].
    change 0xF0 with (30 * 2 ^ 3). rewrite lor_low by (try lia; change (2 ^ 18) with 262144; change (2 ^ 3) with 8; dlia).
    cbn [app chars].
    rewrite (proj2 (Z.ltb_ge _ _)), (proj2 (Z.ltb_ge _ _)), (proj2 (Z.ltb_ge _ _)) by (change (2 ^ 18) with 262144; change (2 ^ 3) with 8; dlia).
    bits. rewrite E0, E1, E2. f_equal. pose proof (Hc cp). pose proof (Hc (cp / 2 ^ 6)). pose proof (Hc (cp / 2 ^ 12)).
    rewrite (lor_low _ (cp mod 2 ^ 6)) by (try lia; done). rewrite (lor_low ((cp / 2 ^ 12) mod 2 ^ 6)) by lia. rewrite lor_low by lia.
    change (2 ^ 18) with 262144 in *. change (2 ^ 12) with 4096 in *. change (2 ^ 6) with 64 in *. change (2 ^ 3) with 8. dlia.
Qed.

Lemma wtf8_points_cons u lo r :
  wtf8_points (u :: lo :: r) =
  if (0xD800 <=? u) && (u <? 0xDC00) && ((0xDC00 <=? lo) && (lo <? 0xE000))
  then (0x10000 + Z.shiftl (u - 0xD800) 10 + (lo - 0xDC00)) :: wtf8_points r
  else u :: wtf8_points (lo :: r).
Proof. done. Qed.

(** A unit or a pair of units is one code point. *)
Lemma wtf8_points_spec units : Forall is_u16 units ->
  flat_map utf16_units (wtf8_points units) = units /\ Forall (fun cp => 0 <= cp < 0x110000) (wtf8_points units).
Proof.
  remember (length units) as n eqn:Hn. assert (length units <= n)%nat as Hle by lia. clear Hn. revert units Hle.
  induction n as [|n IH]; intros units Hle Hu; [by destruct units; [|simpl in Hle; lia]|].
  destruct units as [|u [|lo r]]; [done| |].
  - apply Forall_cons in Hu as [Hu _]. unfold is_u16 in Hu. simpl. unfold utf16_units. rewrite (proj2 (Z.ltb_lt _ _)) by lia.
    split; [done|]. constructor; [lia|done].
  - apply Forall_cons in Hu as [Hu Hr]. rewrite wtf8_points_cons. destruct (_ && _) eqn:E.
    + apply Forall_cons in Hr as [Hlo Hr]. rewrite !andb_true_iff, !Z.leb_le, !Z.ltb_lt in E. destruct E as [E1 E2].
      destruct (IH r ltac:(simpl in Hle; lia) Hr) as [IH1 IH2]. rewrite Z.shiftl_mul_pow2 by lia. change (2 ^ 10) with 1024.
      split; [|constructor; [lia|done]]. cbn [flat_map]. rewrite IH1. unfold utf16_units.
      rewrite (proj2 (Z.ltb_ge _ _)) by lia. bits. change (2 ^ 10) with 1024. cbn [app]. repeat f_equal; dlia.
    + destruct (IH (lo :: r) ltac:(simpl in *; lia) Hr) as [IH1 IH2]. unfold is_u16 in Hu.
      split; [|constructor; [lia|done]]. cbn [flat_map]. rewrite IH1. unfold utf16_units. by rewrite (proj2 (Z.ltb_lt _ _)) by lia.
Qed.

Lemma chars_wtf8 l : Forall (fun cp => 0 <= cp < 0x110000) l -> chars (flat_map wtf8_bytes l) = l.
Proof.
  induction l as [|cp l IH]; [done|]. intros [Hc Hl]%Forall_cons. cbn [flat_map].
  by rewrite wtf8_bytes_utf8, chars_encode, IH.
Qed.

Lemma wtf8_points_scalar l : Forall scalar l -> wtf8_points (flat_map utf16_units l) = l.
Proof.
  induction l as [|cp l IH]; [done|]. intros [Hc Hl]%Forall_cons. cbn [flat_map]. specialize (IH Hl). unfold utf16_units at 1.
  destruct (Z.ltb_spec cp 0x10000) as [H|H].
  - cbn [app]. revert IH. generalize (flat_map utf16_units l) as r. intros [|lo r] IH; [by rewrite <- IH|].
    rewrite wtf8_points_cons, IH. destruct (_ && _ && _) eqn:E; [|done].
    rewrite !andb_true_iff, !Z.leb_le, !Z.ltb_lt in E. destruct Hc; lia.
  - assert (cp < 0x110000) as Hb by (destruct Hc; lia). bits. change (2 ^ 10) with 1024. cbn [app]. rewrite wtf8_points_cons.
    rewrite !(proj2 (Z.leb_le _ _)), !(proj2 (Z.ltb_lt _ _)) by dlia. cbn [andb]. rewrite IH. f_equal. bits. dlia.
Qed.

(** The bytes that go into the key of a machine account determine its password,
    lone surrogates included; for a password that is a string they are its
    UTF-8 bytes. *)
Theorem wtf8_keeps_the_password : 
  (forall units, Forall is_u16 units -> flat_map utf16_units (chars (wtf8 units)) = units) /\
  (forall s, is_str s = true -> wtf8 (encode_utf16 s) = bytes_of_string s).
Proof.
  split.
  - intros units Hu. destruct (wtf8_points_spec units Hu) as [H1 H2]. unfold wtf8. by rewrite chars_wtf8.
  - intros s Hs. destruct (chars_spec _ Hs (bytes_of_string_ok s)) as [Hc Hb].
    unfold wtf8, encode_utf16. rewrite wtf8_points_scalar by done. rewrite <- Hb at 2. clear Hb.
    induction Hc as [|cp l Hcp _ IH]; [done|]. cbn [flat_map]. rewrite IH, wtf8_bytes_utf8; [done|]. destruct Hcp; lia.
Qed.

(** Witness material: tables that map nothing beyond ASCII, and a key derivation
    that concatenates. *)
#[local] Instance ascii_only : UnicodeTables := {| unicode_lowercase s := s; unicode_uppercase s := s |}.
Definition demo_kdc : PrincipalStore :=
  register_machine_key "PC1$" [9] (add_user_principal "alice" [1; 2] 1000 513 [513] (new_store "EX.COM")).

(** A machine account revoked under its three names, while a password change and
    the registration of a user go on. *)
Lemma revoked_until_registered_again_witness :
  get ["host"; "pc1.ex.com"]%string
    (run_calls (fun p s => inr (p ++ s)) (remove_dynamic_principal "PC1$" demo_kdc)
       [CallSetPassword ["PC1$"]%string "new"; CallMachineUtf16 "PC1$" [65; 0]; CallUser "bob" [3] 1001 513 [513]]) = None.
Proof.
  apply revoked_until_registered_again.
  - vm_compute. right. left.
  - intros c Hc. rewrite !elem_of_cons, elem_of_nil in Hc.
    destruct Hc as [->|[->|[->|[]]]]; simpl; [by apply not_elem_of_nil..|].
    intros H%list_elem_of_singleton. vm_compute in H. discriminate.
Defined.
