(* ===== verification/RustNet.v ===== *)
(** * Parsing integers and IP addresses

    The parsers of the Rust standard library that the services call on
    configured and received strings: [u32::from_str] and friends,
    [Ipv4Addr::from_str], [Ipv6Addr::from_str] and [IpAddr::from_str], and the
    dotted-decimal [Display] of [Ipv4Addr].  An [Ipv4Addr] is its [u32] value,
    an [Ipv6Addr] its [u128] value.  A parser takes the input left and returns
    a value with the input after it, as the library's cursor does. *)

From S2P Require Import Prelude Bytes RustStr.

(** ** Integers *)

Definition digit_val (radix : Z) (c : ascii) : option Z :=
  let n := code c in
  let d := if in_codes 48 57 c then Some (n - 48)
           else if in_codes 97 122 c then Some (n - 87)
           else if in_codes 65 90 c then Some (n - 55)
           else None in
  match d with Some v => if v <? radix then Some v else None | None => None end.

Fixpoint parse_digits (acc : Z) (s : string) : option Z :=
  match s with
  | EmptyString => Some acc
  | String c s' =>
      match digit_val 10 c with
      | Some d => parse_digits (acc * 10 + d) s'
      | None => None
      end
  end.

(** [from_str] of an unsigned type with the given maximum: an optional [+],
    at least one digit, no overflow. *)
Definition parse_uint (max : Z) (s : string) : option Z :=
  let body := match strip_prefix "+" s with Some r => r | None => s end in
  if is_empty body then None
  else match parse_digits 0 body with
       | Some n => if n <=? max then Some n else None
       | None => None
       end.

Definition parse_u16 : string -> option Z := parse_uint U16_MAX.
Definition parse_u32 : string -> option Z := parse_uint U32_MAX.
Definition parse_u64 : string -> option Z := parse_uint U64_MAX.
Definition parse_usize : string -> option Z := parse_uint USIZE_MAX.

(** ** Addresses *)

Inductive IpAddr :=
| V4 (n : Z)
| V6 (n : Z).

#[export] Instance IpAddr_eq_dec : EqDecision IpAddr.
Proof. solve_decision. Defined.

(** The digits of [read_number]: value, how many, what is left; [None] when
    more than [max_digits] are found. *)
Fixpoint read_digits (radix : Z) (max_digits : nat) (acc : Z) (count : nat) (s : string)
  : option (Z * nat * string) :=
  match s with
  | EmptyString => Some (acc, count, s)
  | String c s' =>
      match digit_val radix c with
      | Some d =>
          if (max_digits <? S count)%nat then None
          else read_digits radix max_digits (acc * radix + d) (S count) s'
      | None => Some (acc, count, s)
      end
  end.

Definition read_number (radix : Z) (max_digits : nat) (allow_zero_prefix : bool) (bound : Z)
    (s : string) : option (Z * string) :=
  match read_digits radix max_digits 0 0 s with
  | None => None
  | Some (v, count, rest) =>
      if (count =? 0)%nat then None
      else if negb allow_zero_prefix && starts_with s "0" && (1 <? count)%nat then None
      else if v <? bound then Some (v, rest) else None
  end.

Definition read_given_char (c : ascii) (s : string) : option string :=
  match s with
  | String a s' => if Ascii.eqb a c then Some s' else None
  | EmptyString => None
  end.

Definition read_octet (s : string) : option (Z * string) := read_number 10 3 false 256 s.

(** Four octets separated by dots. *)
Definition read_ipv4_addr (s : string) : option (Z * string) :=
  '(a, s1) ← read_octet s; s2 ← read_given_char "." s1;
  '(b, s3) ← read_octet s2; s4 ← read_given_char "." s3;
  '(c, s5) ← read_octet s4; s6 ← read_given_char "." s5;
  '(d, s7) ← read_octet s6;
  Some (((a * 256 + b) * 256 + c) * 256 + d, s7).

(** [read_separator(':', i, inner)]: group [i > 0] is preceded by a colon. *)
Definition read_separator {A} (i : nat) (inner : string -> option (A * string)) (s : string)
  : option (A * string) :=
  if (i =? 0)%nat then inner s else s' ← read_given_char ":" s; inner s'.

(** [read_groups] with [limit - i] slots left: the groups read, whether a
    trailing IPv4 address was read, and what is left. *)
Fixpoint read_groups (limit i left_ : nat) (s : string) : list Z * bool * string :=
  match left_ with
  | O => ([], false, s)
  | S left' =>
      match (if (i <? limit - 1)%nat then read_separator i read_ipv4_addr s else None) with
      | Some (v4, s') => ([v4 / 65536; v4 mod 65536], true, s')
      | None =>
          match read_separator i (read_number 16 4 true 65536) s with
          | Some (g, s') =>
              let '(gs, v4, rest) := read_groups limit (S i) left' s' in (g :: gs, v4, rest)
          | None => ([], false, s)
          end
      end
  end.

Definition groups_value (gs : list Z) : Z := fold_left (fun acc g => acc * 65536 + g) gs 0.

Definition read_ipv6_addr (s : string) : option (Z * string) :=
  let '(head, head_ipv4, s1) := read_groups 8 0 8 s in
  if (length head =? 8)%nat then Some (groups_value head, s1)
  else if head_ipv4 then None
  else
    s2 ← read_given_char ":" s1; s3 ← read_given_char ":" s2;
    let limit := (8 - (length head + 1))%nat in
    let '(tail, _, s4) := read_groups limit 0 limit s3 in
    Some (groups_value (head ++ repeat 0 (8 - length head - length tail) ++ tail), s4).

(** The whole input must be read. *)
Definition parse_all_input {A} (p : string -> option (A * string)) (s : string) : option A :=
  '(v, rest) ← p s; if is_empty rest then Some v else None.

(** [Ipv4Addr::from_str]: at most the 15 bytes of a longest address. *)
Definition parse_ipv4 (s : string) : option Z :=
  if 15 <? str_len s then None else parse_all_input read_ipv4_addr s.

Definition parse_ipv6 (s : string) : option Z := parse_all_input read_ipv6_addr s.

Definition parse_ip (s : string) : option IpAddr :=
  parse_all_input
    (fun s => match read_ipv4_addr s with
              | Some (v, r) => Some (V4 v, r)
              | None => '(v, r) ← read_ipv6_addr s; Some (V6 v, r)
              end) s.

Definition is_ipv4 (ip : IpAddr) : bool := match ip with V4 _ => true | V6 _ => false end.
Definition is_ipv6 (ip : IpAddr) : bool := match ip with V4 _ => false | V6 _ => true end.

(** [u32::MAX << (32 - prefix)], with the [prefix == 0] case of the callers. *)
Definition mask32 (prefix : Z) : Z := if prefix =? 0 then 0 else u32_shl U32_MAX (32 - prefix).
Definition mask128 (prefix : Z) : Z :=
  if prefix =? 0 then 0 else (Z.shiftl U128_MAX (128 - prefix)) mod 2 ^ 128.

(** ** Display *)

Definition digit (d : Z) : string := String (ascii_of_N (Z.to_N (48 + d))) EmptyString.

Definition octet_to_string (b : Z) : string :=
  if b <? 10 then digit b
  else if b <? 100 then digit (b / 10) +:+ digit (b mod 10)
  else digit (b / 100) +:+ digit (b / 10 mod 10) +:+ digit (b mod 10).

(** [Ipv4Addr::to_string]. *)
Definition ipv4_to_string (n : Z) : string :=
  octet_to_string (n / 2 ^ 24 mod 256) +:+ "." +:+ octet_to_string (n / 2 ^ 16 mod 256)
  +:+ "." +:+ octet_to_string (n / 2 ^ 8 mod 256) +:+ "." +:+ octet_to_string (n mod 256).

(** ** Samples *)

Example parse_ipv4_ok : parse_ipv4 "192.0.2.10" = Some 3221225994. Proof. reflexivity. Qed.
Example parse_ipv4_zero : parse_ipv4 "192.0.02.10" = None. Proof. reflexivity. Qed.
Example parse_ipv4_short : parse_ipv4 "192.0.2" = None. Proof. reflexivity. Qed.
Example parse_ipv6_ok : parse_ipv6 "2001:db8::1" = Some (0x20010db8 * 2 ^ 96 + 1).
Proof. vm_compute. reflexivity. Qed.
Example parse_ipv6_any : parse_ipv6 "::" = Some 0. Proof. reflexivity. Qed.
Example parse_ipv6_v4 : parse_ipv6 "::ffff:192.0.2.10" = Some (0xffff * 2 ^ 32 + 3221225994).
Proof. vm_compute. reflexivity. Qed.
Example parse_ipv6_bad : parse_ipv6 "1:2:3" = None. Proof. reflexivity. Qed.
Example parse_ip_v4 : parse_ip "10.1.2.3" = Some (V4 167838211). Proof. reflexivity. Qed.
(** [{:x}] of a 16-bit segment. *)
Definition hex_digit (d : Z) : string :=
  String (ascii_of_N (Z.to_N (if d <? 10 then 48 + d else 87 + d))) EmptyString.

(** [{:02x}] of each byte. *)
Fixpoint hex_of (b : bytes) : string :=
  match b with
  | [] => EmptyString
  | x :: b' => hex_digit (x / 16) +:+ hex_digit (x mod 16) +:+ hex_of b'
  end.

(** [u8::from_str_radix(h, 16)] of at most two characters. *)
Definition from_str_radix16 (h : string) : option Z :=
  match h with
  | String c EmptyString => digit_val 16 c
  | String a (String b EmptyString) =>
      if Ascii.eqb a "+" then digit_val 16 b
      else match digit_val 16 a, digit_val 16 b with
           | Some x, Some y => Some (16 * x + y)
           | _, _ => None
           end
  | _ => None
  end.

Definition segment_to_string (g : Z) : string :=
  if g <? 16 then hex_digit g
  else if g <? 256 then hex_digit (g / 16) +:+ hex_digit (g mod 16)
  else if g <? 4096 then hex_digit (g / 256) +:+ hex_digit (g / 16 mod 16) +:+ hex_digit (g mod 16)
  else hex_digit (g / 4096) +:+ hex_digit (g / 256 mod 16) +:+ hex_digit (g / 16 mod 16) +:+ hex_digit (g mod 16).

Definition segments_of (n : Z) : list Z := map (fun i => n / 2 ^ (16 * i) mod 65536) [7; 6; 5; 4; 3; 2; 1; 0].

(** The first longest run of zero segments, as its start and length. *)
Fixpoint longest_zeros (i : nat) (gs : list Z) (cur longest : nat * nat) : nat * nat :=
  match gs with
  | [] => longest
  | g :: gs' =>
      if g =? 0 then
        let cur := ((if (cur.2 =? 0)%nat then i else cur.1), S cur.2) in
        longest_zeros (S i) gs' cur (if (longest.2 <? cur.2)%nat then cur else longest)
      else longest_zeros (S i) gs' (0, 0)%nat longest
  end.

Definition segments_to_string (gs : list Z) : string := join ":" (map segment_to_string gs).

(** [Display] of [Ipv6Addr]. *)
Definition ipv6_to_string (n : Z) : string :=
  if n / 2 ^ 32 =? 65535 then "::ffff:" +:+ ipv4_to_string (n mod 2 ^ 32)
  else
    let gs := segments_of n in
    let '(start, len) := longest_zeros 0 gs (0, 0)%nat (0, 0)%nat in
    if (1 <? len)%nat
    then segments_to_string (take start gs) +:+ "::" +:+ segments_to_string (drop (start + len) gs)
    else segments_to_string gs.

Example ipv6_display : map ipv6_to_string [0; 1; 0x20010db8000000000001000000000001; 0xffffc0000201; 0x20010db80000000100010001000100ab]
  = ["::"; "::1"; "2001:db8::1:0:0:1"; "::ffff:192.0.2.1"; "2001:db8:0:1:1:1:1:ab"]%string.
Proof. reflexivity. Qed.

Example ipv4_display : ipv4_to_string 3221225994 = "192.0.2.10". Proof. reflexivity. Qed.

(** ** Lemmas *)

Lemma digit_val_nonneg radix c d : digit_val radix c = Some d -> 0 <= d < radix.
Proof.
  unfold digit_val. destruct (in_codes 48 57 c) eqn:E1; [|destruct (in_codes 97 122 c) eqn:E2;
    [|destruct (in_codes 65 90 c) eqn:E3; [|done]]];
  unfold in_codes in *; to_prop; destruct (_ <? radix) eqn:E; intros; simplify_eq; to_prop; lia.
Qed.

Lemma read_digits_nonneg radix m s : forall acc count v n r,
  0 <= acc -> read_digits radix m acc count s = Some (v, n, r) -> 0 <= v.
Proof.
  induction s as [|c s IH]; intros acc count v n r Ha; simpl; [naive_solver|].
  destruct (digit_val radix c) as [d|] eqn:E; [|naive_solver].
  apply digit_val_nonneg in E. destruct (_ <? _)%nat; [done|]. apply IH. nia.
Qed.

Lemma read_number_bound radix m z bound s v r :
  read_number radix m z bound s = Some (v, r) -> 0 <= v < bound.
Proof.
  unfold read_number. destruct (read_digits radix m 0 0 s) as [[[v' n] r']|] eqn:E; [|done].
  destruct (n =? 0)%nat; [done|]. destruct (_ && _); [done|].
  destruct (v' <? bound) eqn:Eb; [|done]. intros [= -> ->]. to_prop.
  split; [|done]. by eapply read_digits_nonneg in E.
Qed.

Lemma read_ipv4_addr_bound s v r : read_ipv4_addr s = Some (v, r) -> is_u32 v.
Proof.
  unfold read_ipv4_addr, read_octet. intros H.
  repeat match goal with
  | H : (mbind _ (read_number ?a ?b ?c ?d ?x)) = Some _ |- _ =>
      destruct (read_number a b c d x) as [[? ?]|] eqn:?; simpl in H; [|done]
  | H : (mbind _ (read_given_char ?a ?x)) = Some _ |- _ =>
      destruct (read_given_char a x) as [?|] eqn:?; simpl in H; [|done]
  | H : read_number _ _ _ _ _ = Some _ |- _ => apply read_number_bound in H
  end.
  injection H as <- _. unfold is_u32. lia.
Qed.

(** Every parsed IPv4 address is a 32-bit value. *)
Lemma parse_ipv4_bound s v : parse_ipv4 s = Some v -> is_u32 v.
Proof.
  unfold parse_ipv4, parse_all_input. destruct (15 <? str_len s); [done|].
  destruct (read_ipv4_addr s) as [[v' r]|] eqn:E; simpl; [|done].
  destruct (is_empty r); [|done]. intros [= ->]. by eapply read_ipv4_addr_bound.
Qed.

(** An octet that is printed is read back, whatever follows it. *)
Lemma read_octet_print b r :
  0 <= b < 256 -> (match r with String c _ => digit_val 10 c = None | EmptyString => True end) ->
  read_octet (octet_to_string b +:+ r) = Some (b, r).
Proof.
  intros Hb Hr. 
  assert (forall d r', 0 <= d < 10 -> exists c, digit d +:+ r' = String c r' /\ digit_val 10 c = Some d
    /\ (d <> 0 -> forall s, starts_with (String c s) "0" = false)) as Hd.
  { intros d r' Hd. eexists; split; [done|].
    assert (d ∈ seqZ 0 10) as Hin by (apply elem_of_seqZ; lia).
    clear -Hin. repeat (apply elem_of_cons in Hin as [->|Hin]; [done|]). by apply elem_of_nil in Hin. }
  unfold read_octet, read_number, octet_to_string.
  assert (forall acc n, (n <= 3)%nat -> read_digits 10 3 acc n r = Some (acc, n, r)) as Hend.
  { intros acc n _. destruct r as [|c r]; simpl; [done|]. by rewrite Hr. }
  destruct (b <? 10) eqn:E1; [|destruct (b <? 100) eqn:E2]; to_prop.
  - destruct (Hd b r) as (c & -> & Hc & _); [lia|]. simpl. rewrite Hc. simpl.
    rewrite Hend by lia. simpl. rewrite andb_false_r.
    by rewrite (proj2 (Z.ltb_lt _ _)) by lia.
  - rewrite str_app_assoc.
    destruct (Hd (b / 10) (digit (b mod 10) +:+ r)) as (c1 & -> & Hc1 & Hz1); [dlia|].
    rewrite Hz1 by dlia. destruct (Hd (b mod 10) r) as (c2 & -> & Hc2 & _); [dlia|]. simpl. rewrite Hc1. simpl.
    rewrite Hc2. simpl. rewrite Hend by lia. simpl.
    rewrite (proj2 (Z.ltb_lt _ _)) by dlia.
    match goal with |- Some (?x, _) = _ => by replace x with b by dlia end.
  - rewrite !str_app_assoc.
    destruct (Hd (b / 100) (digit (b / 10 mod 10) +:+ digit (b mod 10) +:+ r))
      as (c1 & -> & Hc1 & Hz1); [dlia|].
    rewrite Hz1 by dlia. destruct (Hd (b / 10 mod 10) (digit (b mod 10) +:+ r)) as (c2 & -> & Hc2 & _); [dlia|].
    destruct (Hd (b mod 10) r) as (c3 & -> & Hc3 & _); [dlia|]. simpl. rewrite Hc1. simpl.
    rewrite Hc2. simpl. rewrite Hc3. simpl. rewrite Hend by lia. simpl.
    rewrite (proj2 (Z.ltb_lt _ _)) by dlia.
    match goal with |- Some (?x, _) = _ => by replace x with b by dlia end.
Qed.

Lemma octet_to_string_length b : (String.length (octet_to_string b) <= 3)%nat.
Proof. unfold octet_to_string. destruct (b <? 10), (b <? 100); simpl; lia. Qed.

Lemma parse_print_ipv4 n : is_u32 n -> parse_ipv4 (ipv4_to_string n) = Some n.
Proof.
  intros Hn. unfold is_u32 in Hn. unfold parse_ipv4, ipv4_to_string.
  set (a := n / 2 ^ 24 mod 256). set (b := n / 2 ^ 16 mod 256).
  set (c := n / 2 ^ 8 mod 256). set (d := n mod 256).
  assert (0 <= a < 256 /\ 0 <= b < 256 /\ 0 <= c < 256 /\ 0 <= d < 256) as (? & ? & ? & ?)
    by (repeat split; apply Z.mod_pos_bound; lia).
  pose proof (octet_to_string_length a). pose proof (octet_to_string_length b).
  pose proof (octet_to_string_length c). pose proof (octet_to_string_length d).
  rewrite (proj2 (Z.ltb_ge 15 _))
    by (unfold str_len; rewrite !str_length_app; simpl; lia).
  unfold parse_all_input, read_ipv4_addr.
  rewrite <- (str_app_nil_r (octet_to_string d)).
  do 3 (rewrite read_octet_print by (done || lia); simpl).
  rewrite read_octet_print by (done || lia). simpl. f_equal. subst a b c d.
  dlia.
Qed.

(** ** Prefix masks *)

(** Keeping the top [p] of [w] bits and comparing is comparing the quotients by
    [2 ^ (w - p)]. *)
Lemma land_prefix_mask w p x : 0 <= p <= w -> 0 <= x < 2 ^ w ->
  Z.land x (Z.shiftl (Z.ones p) (w - p)) = x / 2 ^ (w - p) * 2 ^ (w - p).
Proof.
  intros Hp Hx. rewrite <- Z.shiftr_div_pow2, <- Z.shiftl_mul_pow2 by lia.
  apply Z.bits_inj'. intros n Hn. rewrite Z.land_spec, !Z.shiftl_spec by lia.
  destruct (decide (n < w - p)).
  - rewrite !(Z.testbit_neg_r _ (n - (w - p))) by lia. apply andb_false_r.
  - rewrite Z.shiftr_spec by lia. replace (n - (w - p) + (w - p)) with n by lia.
    destruct (decide (n < w)).
    + rewrite Z.ones_spec_low by lia. apply andb_true_r.
    + by rewrite (testbit_small x w n) by lia.
Qed.

Lemma mask_shift w p : 0 < p <= w ->
  Z.shiftl (2 ^ w - 1) (w - p) mod 2 ^ w = Z.shiftl (Z.ones p) (w - p).
Proof.
  intros Hp. rewrite !Z.shiftl_mul_pow2, Z.ones_equiv by lia.
  assert (2 ^ w = 2 ^ p * 2 ^ (w - p)) as E by (rewrite <- Z.pow_add_r by lia; f_equal; lia).
  assert (0 < 2 ^ (w - p)) by (apply Z.pow_pos_nonneg; lia).
  assert (0 < 2 ^ p) by (apply Z.pow_pos_nonneg; lia).
  symmetry. apply Z.mod_unique with (2 ^ (w - p) - 1); [left; nia|]. nia.
Qed.

Lemma land_mask32 p x : 0 <= p <= 32 -> is_u32 x ->
  Z.land x (mask32 p) = x / 2 ^ (32 - p) * 2 ^ (32 - p).
Proof.
  intros Hp Hx. unfold mask32, u32_shl, u32, U32_MAX. destruct (p =? 0) eqn:E; to_prop.
  - subst p. rewrite Z.land_0_r, Z.div_small by (unfold is_u32 in Hx; lia). done.
  - rewrite mask_shift by lia. by apply land_prefix_mask.
Qed.

Lemma land_mask128 p x : 0 <= p <= 128 -> 0 <= x < 2 ^ 128 ->
  Z.land x (mask128 p) = x / 2 ^ (128 - p) * 2 ^ (128 - p).
Proof.
  intros Hp Hx. unfold mask128, U128_MAX. destruct (p =? 0) eqn:E; to_prop.
  - subst p. rewrite Z.land_0_r, Z.div_small by lia. done.
  - rewrite mask_shift by lia. by apply land_prefix_mask.
Qed.

Lemma mul_pow_cancel a b k : 0 <= k -> (a * 2 ^ k = b * 2 ^ k <-> a = b).
Proof. intros Hk. pose proof (Z.pow_pos_nonneg 2 k). nia. Qed.

(** Two addresses agree under the mask when they agree on the first [p] bits. *)
Lemma mask32_agree p x y : 0 <= p <= 32 -> is_u32 x -> is_u32 y ->
  (Z.land x (mask32 p) =? Z.land y (mask32 p)) = true <-> x / 2 ^ (32 - p) = y / 2 ^ (32 - p).
Proof. intros. rewrite Z.eqb_eq, !land_mask32 by done. apply mul_pow_cancel. lia. Qed.

Lemma mask128_agree p x y : 0 <= p <= 128 -> 0 <= x < 2 ^ 128 -> 0 <= y < 2 ^ 128 ->
  (Z.land x (mask128 p) =? Z.land y (mask128 p)) = true <-> x / 2 ^ (128 - p) = y / 2 ^ (128 - p).
Proof. intros. rewrite Z.eqb_eq, !land_mask128 by done. apply mul_pow_cancel. lia. Qed.

Lemma parse_digits_nonneg s : forall acc n, 0 <= acc -> parse_digits acc s = Some n -> 0 <= n.
Proof.
  induction s as [|c s IH]; intros acc n Ha; simpl; [naive_solver|].
  destruct (digit_val 10 c) as [d|] eqn:E; [|done]. apply digit_val_nonneg in E.
  apply IH. lia.
Qed.

Lemma parse_uint_bound max s n : parse_uint max s = Some n -> 0 <= n <= max.
Proof.
  unfold parse_uint. destruct (is_empty _); [done|].
  destruct (parse_digits 0 _) eqn:E; [|done]. apply parse_digits_nonneg in E; [|lia].
  destruct (_ <=? max) eqn:Em; [|done]. intros [= <-]. to_prop. lia.
Qed.

Lemma parse_ip_v4_bound s n : parse_ip s = Some (V4 n) -> is_u32 n.
Proof.
  unfold parse_ip, parse_all_input. destruct (read_ipv4_addr s) as [[v r]|] eqn:E; simpl.
  - destruct (is_empty r); [|done]. intros [= ->]. by eapply read_ipv4_addr_bound.
  - destruct (read_ipv6_addr s) as [[v r]|]; simpl; [|done]. by destruct (is_empty r).
Qed.

(** ** Canonical text of an IPv4 address *)

Lemma digit_of_val c d : digit_val 10 c = Some d -> (forall s, String c s = digit d +:+ s) /\ 0 <= d < 10.
Proof.
  intros H. assert (String c EmptyString = digit d /\ 0 <= d < 10) as [E ?]
    by (destruct c as [[] [] [] [] [] [] [] []]; vm_compute in H;
        first [discriminate H|injection H as <-; split; [done|lia]]).
  split; [|done]. intros s. by injection E as ->.
Qed.

Lemma read_digits_step acc n s v n' r : read_digits 10 3 acc n s = Some (v, n', r) ->
  (v = acc /\ n' = n /\ r = s) \/
  exists d s', s = digit d +:+ s' /\ 0 <= d < 10 /\ (n < 3)%nat /\
    read_digits 10 3 (acc * 10 + d) (S n) s' = Some (v, n', r).
Proof.
  destruct s as [|c s]; cbn [read_digits]; [left; naive_solver|].
  destruct (digit_val 10 c) as [d|] eqn:E; [|left; by injection H as <- <- <-].
  destruct (digit_of_val _ _ E) as [Ed Bd].
  destruct (Nat.ltb_spec 3 (S n)); [done|]. intros H'. right. exists d, s. split_and!; [done|lia..|done].
Qed.

Lemma starts_with_zero d s : 0 <= d < 10 -> starts_with (digit d +:+ s) "0" = false -> 0 < d.
Proof.
  intros Hd H. destruct (decide (d = 0)) as [->|]; [|lia].
  assert (starts_with (digit 0 +:+ s) "0" = true) by (apply starts_with_iff; by exists s). congruence.
Qed.

(** Without leading zeros an octet has only one text. *)
Lemma read_octet_canonical s v r : read_octet s = Some (v, r) -> s = octet_to_string v +:+ r /\ 0 <= v < 256.
Proof.
  intros H. assert (0 <= v < 256) as Hv by by apply read_number_bound in H.
  split; [|done]. revert H. unfold read_octet, read_number.
  destruct (read_digits 10 3 0 0 s) as [[[v' n] r']|] eqn:E; [|done].
  destruct (Nat.eqb_spec n 0); [done|]. cbn [negb andb].
  destruct (starts_with s "0" && (1 <? n)%nat) eqn:Ez; [done|].
  destruct (v' <? 256); [|done]. intros [= -> ->].
  apply read_digits_step in E as [(-> & -> & ->)|(d1 & s1 & -> & B1 & _ & E)]; [done|].
  apply read_digits_step in E as [(-> & -> & ->)|(d2 & s2 & -> & B2 & _ & E)].
  { unfold octet_to_string. by rewrite (proj2 (Z.ltb_lt _ _)) by lia. }
  assert (1 < n)%nat as Hn.
  { apply read_digits_step in E as [(_ & -> & _)|(d3 & s3 & _ & _ & _ & E)]; [lia|].
    apply read_digits_step in E as [(_ & -> & _)|(? & ? & _ & _ & ? & _)]; lia. }
  rewrite (proj2 (Nat.ltb_lt _ _) Hn), andb_true_r in Ez. apply starts_with_zero in Ez; [|done].
  unfold octet_to_string.
  apply read_digits_step in E as [(-> & -> & ->)|(d3 & s3 & -> & B3 & _ & E)].
  - rewrite (proj2 (Z.ltb_ge _ 10)), (proj2 (Z.ltb_lt _ 100)), str_app_assoc by lia.
    do 2 f_equal; [dlia|f_equal; f_equal; dlia].
  - apply read_digits_step in E as [(-> & -> & ->)|(? & ? & _ & _ & ? & _)]; [|lia].
    rewrite (proj2 (Z.ltb_ge _ 10)), (proj2 (Z.ltb_ge _ 100)), !str_app_assoc by lia.
    f_equal; [f_equal; dlia|]. f_equal; [f_equal; dlia|]. do 2 f_equal; dlia.
Qed.

Lemma read_given_char_Some c s r : read_given_char c s = Some r -> s = String c r.
Proof.
  destruct s as [|a s]; simpl; [done|]. destruct (Ascii.eqb_spec a c); [|done]. congruence.
Qed.

(** An accepted address is the text that [Ipv4Addr::to_string] prints. *)
Lemma parse_ipv4_canonical s n : parse_ipv4 s = Some n -> s = ipv4_to_string n.
Proof.
  unfold parse_ipv4. destruct (_ <? _); [done|]. unfold parse_all_input, read_ipv4_addr.
  destruct (read_octet s) as [[a s1]|] eqn:E1; [|done].
  simpl. destruct (read_given_char "." s1) as [s2|] eqn:D1; [|done].
  simpl. destruct (read_octet s2) as [[b s3]|] eqn:E2; [|done].
  simpl. destruct (read_given_char "." s3) as [s4|] eqn:D2; [|done].
  simpl. destruct (read_octet s4) as [[c s5]|] eqn:E3; [|done].
  simpl. destruct (read_given_char "." s5) as [s6|] eqn:D3; [|done].
  simpl. destruct (read_octet s6) as [[d s7]|] eqn:E4; [|done].
  simpl. destruct s7; [|done]. intros [= <-].
  apply read_octet_canonical in E1 as [-> Ba], E2 as [-> Bb], E3 as [-> Bc], E4 as [-> Bd].
  apply read_given_char_Some in D1 as ->, D2 as ->, D3 as ->.
  unfold ipv4_to_string. rewrite str_app_nil_r.
  repeat match goal with |- context [octet_to_string (?e mod 256)] =>
    first [replace (e mod 256) with a by dlia|replace (e mod 256) with b by dlia
          |replace (e mod 256) with c by dlia|replace (e mod 256) with d by dlia] end. done.
Qed.

(** No text is both an IPv4 and an IPv6 address. *)
Lemma parse_ipv4_not_ipv6 s n : parse_ipv4 s = Some n -> parse_ipv6 s = None.
Proof.
  unfold parse_ipv4. destruct (_ <? _); [done|]. unfold parse_ipv6, parse_all_input, read_ipv6_addr.
  destruct (read_ipv4_addr s) as [[v r]|] eqn:E; [|done].
  cbn [read_groups Nat.ltb Nat.leb Nat.sub read_separator Nat.eqb]. by rewrite E.
Qed.

Lemma octet_graphic b : 0 <= b < 256 -> str_forallb is_graphic (octet_to_string b) = true.
Proof.
  intros Hb. assert (forall d, 0 <= d < 10 -> str_forallb is_graphic (digit d) = true) as Hd.
  { intros d Hd. assert (d ∈ seqZ 0 10) as Hin by (apply elem_of_seqZ; lia).
    repeat (apply elem_of_cons in Hin as [->|Hin]; [by vm_compute|]). by apply elem_of_nil in Hin. }
  unfold octet_to_string. destruct (Z.ltb_spec b 10); [apply Hd; lia|].
  destruct (Z.ltb_spec b 100); rewrite !str_forallb_app, !Hd; done || dlia.
Qed.

Lemma ipv4_graphic n : str_forallb is_graphic (ipv4_to_string n) = true.
Proof.
  unfold ipv4_to_string. rewrite !str_forallb_app, !octet_graphic by (apply Z.mod_pos_bound; lia). done.
Qed.

(** The text of an accepted address has no white space to trim, and [IpAddr]
    reads it as the same address. *)
Lemma parse_ipv4_trim s n : parse_ipv4 s = Some n -> trim s = s /\ parse_ip s = Some (V4 n).
Proof.
  intros H. split.
  - apply parse_ipv4_canonical in H as ->. apply trim_graphic, ipv4_graphic.
  - unfold parse_ipv4 in H. destruct (_ <? _); [done|]. unfold parse_ip, parse_all_input in *.
    destruct (read_ipv4_addr s) as [[v r]|]; [|done]. simpl in *. destruct (is_empty r); congruence.
Qed.

(** ** Printing and parsing IPv6 addresses *)

Definition no_hex (r : string) : Prop := match r with String c _ => digit_val 16 c = None | EmptyString => True end.

Lemma hex_digit_cons d r : 0 <= d < 16 -> exists c, hex_digit d +:+ r = String c r /\ digit_val 16 c = Some d.
Proof.
  intros Hd. eexists. split; [done|]. assert (d ∈ seqZ 0 16) as Hin by (apply elem_of_seqZ; lia).
  clear -Hin. repeat (apply elem_of_cons in Hin as [->|Hin]; [done|]). by apply elem_of_nil in Hin.
Qed.

Lemma read_segment g r : 0 <= g < 65536 -> no_hex r ->
  read_number 16 4 true 65536 (segment_to_string g +:+ r) = Some (g, r).
Proof.
  intros Hg Hr. unfold read_number, segment_to_string.
  assert (forall acc n, read_digits 16 4 acc n r = Some (acc, n, r)) as Hend.
  { intros acc n. destruct r as [|c r]; simpl; [done|]. by rewrite Hr. }
  destruct (g <? 16) eqn:E1; [|destruct (g <? 256) eqn:E2; [|destruct (g <? 4096) eqn:E3]]; to_prop; rewrite ?str_app_assoc.
  1: destruct (hex_digit_cons g r) as (c1 & -> & H1); [lia|].
  2: destruct (hex_digit_cons (g / 16) (hex_digit (g mod 16) +:+ r)) as (c1 & -> & H1); [dlia|].
  2: destruct (hex_digit_cons (g mod 16) r) as (c2 & -> & H2); [dlia|].
  3: destruct (hex_digit_cons (g / 256) (hex_digit (g / 16 mod 16) +:+ hex_digit (g mod 16) +:+ r)) as (c1 & -> & H1); [dlia|].
  3: destruct (hex_digit_cons (g / 16 mod 16) (hex_digit (g mod 16) +:+ r)) as (c2 & -> & H2); [dlia|].
  3: destruct (hex_digit_cons (g mod 16) r) as (c3 & -> & H3); [dlia|].
  4: destruct (hex_digit_cons (g / 4096) (hex_digit (g / 256 mod 16) +:+ hex_digit (g / 16 mod 16) +:+ hex_digit (g mod 16) +:+ r)) as (c1 & -> & H1); [dlia|].
  4: destruct (hex_digit_cons (g / 256 mod 16) (hex_digit (g / 16 mod 16) +:+ hex_digit (g mod 16) +:+ r)) as (c2 & -> & H2); [dlia|].
  4: destruct (hex_digit_cons (g / 16 mod 16) (hex_digit (g mod 16) +:+ r)) as (c3 & -> & H3); [dlia|].
  4: destruct (hex_digit_cons (g mod 16) r) as (c4 & -> & H4); [dlia|].
  all: cbn [read_digits]; rewrite ?H1, ?H2, ?H3, ?H4; cbn [Nat.ltb Nat.leb]; rewrite Hend; simpl.
  all: match goal with |- (if ?x <? 65536 then _ else _) = _ => replace x with g by dlia end.
  all: by rewrite (proj2 (Z.ltb_lt g 65536)) by lia.
Qed.

Lemma read_digits_suffix c radix m s : forall acc n v k rest,
  read_digits radix m acc n s = Some (v, k, rest) -> contains_char c s = false -> contains_char c rest = false.
Proof.
  induction s as [|a s IH]; simpl; intros acc n v k rest; [by intros [= _ _ <-]|].
  destruct (digit_val radix a); [|by intros [= _ _ <-]].
  destruct (_ <? S n)%nat; [done|]. intros Hr [_ Hc]%orb_false_iff. by eapply IH.
Qed.

(** A dotted quad has a dot. *)
Lemma read_ipv4_no_dot s : contains_char "." s = false -> read_ipv4_addr s = None.
Proof.
  intros Hs. unfold read_ipv4_addr, read_octet, read_number.
  destruct (read_digits 10 3 0 0 s) as [[[v k] rest]|] eqn:E; [|done].
  apply (read_digits_suffix ".") in E; [|done].
  assert (read_given_char "." rest = None) as Hg.
  { destruct rest as [|a rest]; [done|]. simpl in *. apply orb_false_iff in E as [E _]. by rewrite Ascii.eqb_sym, E. }
  destruct (k =? 0)%nat; [done|]. destruct (_ && _); [done|]. destruct (v <? 256); [|done]. simpl. by rewrite Hg.
Qed.

(** What stops the reading of groups: the end, or a double colon. *)
Definition stops (r : string) : Prop := r = EmptyString \/ exists r', r = "::" +:+ r'.

(** Groups from position [i] on: each but the first has its colon. *)
Definition groups_str (i : nat) (gs : list Z) (r : string) : string :=
  match gs with
  | [] => r
  | g :: gs' => (if (i =? 0)%nat then EmptyString else ":") +:+ segment_to_string g
                +:+ foldr (fun g acc => ":" +:+ segment_to_string g +:+ acc) r gs'
  end.

Lemma groups_str_cons i g gs r : groups_str i (g :: gs) r =
  (if (i =? 0)%nat then EmptyString else ":") +:+ segment_to_string g +:+ groups_str (S i) gs r.
Proof. destruct gs; [done|]. simpl. by destruct (i =? 0)%nat. Qed.

Lemma groups_str_no_hex i gs r : stops r -> no_hex (groups_str (S i) gs r).
Proof. intros [->|[r' ->]]; by destruct gs. Qed.

Lemma contains_app c a b : contains_char c (a +:+ b) = contains_char c a || contains_char c b.
Proof. unfold contains_char. induction a as [|x a IH]; simpl; [done|]. by rewrite IH, orb_assoc. Qed.

Lemma hex_digit_no_dot d : 0 <= d < 16 -> contains_char "." (hex_digit d) = false.
Proof.
  intros Hd. assert (d ∈ seqZ 0 16) as Hin by (apply elem_of_seqZ; lia).
  clear -Hin. repeat (apply elem_of_cons in Hin as [->|Hin]; [done|]). by apply elem_of_nil in Hin.
Qed.

Lemma segment_no_dot g : 0 <= g < 65536 -> contains_char "." (segment_to_string g) = false.
Proof.
  intros Hg. unfold segment_to_string.
  destruct (g <? 16) eqn:E1; [|destruct (g <? 256) eqn:E2; [|destruct (g <? 4096) eqn:E3]]; to_prop;
    rewrite ?contains_app, ?hex_digit_no_dot by dlia; done.
Qed.

Lemma groups_no_dot i gs r : Forall (fun g => 0 <= g < 65536) gs -> contains_char "." r = false ->
  contains_char "." (groups_str i gs r) = false.
Proof.
  intros Hgs Hr. revert i. induction Hgs as [|g gs Hg Hgs IH]; intros i; [done|].
  rewrite groups_str_cons, !contains_app, segment_no_dot, IH by done. by destruct (i =? 0)%nat.
Qed.

Lemma read_groups_print limit r : stops r -> contains_char "." r = false ->
  forall gs i left_, Forall (fun g => 0 <= g < 65536) gs -> (length gs <= left_)%nat ->
  read_groups limit i left_ (groups_str i gs r) = (gs, false, r).
Proof.
  intros Hr Hd gs. induction gs as [|g gs IH]; intros i left_ Hgs Hlen.
  - simpl. destruct left_ as [|left_]; [done|]. simpl.
    assert (forall s, contains_char "." s = false -> read_separator i read_ipv4_addr s = None) as H4.
    { intros s Hs. unfold read_separator. destruct (i =? 0)%nat; [by apply read_ipv4_no_dot|].
      destruct s as [|a s]; [done|]. simpl. destruct (Ascii.eqb a ":"); [|done]. simpl. apply read_ipv4_no_dot.
      simpl in Hs. by apply orb_false_iff in Hs as [_ Hs]. }
    rewrite H4 by done. assert (read_separator i (read_number 16 4 true 65536) r = None) as ->; [|by destruct (i <? _)%nat].
    unfold read_separator. by destruct Hr as [->|[r' ->]], (i =? 0)%nat.
  - apply Forall_cons in Hgs as [Hg Hgs]. destruct left_ as [|left_]; [simpl in Hlen; lia|].
    pose proof (groups_no_dot i (g :: gs) r ltac:(by constructor) Hd) as Hnd. rewrite groups_str_cons in *.
    set (s := segment_to_string g +:+ groups_str (S i) gs r) in *.
    assert (read_number 16 4 true 65536 s = Some (g, groups_str (S i) gs r)) as Hn
      by (apply read_segment; [done|by apply groups_str_no_hex]).
    assert (contains_char "." s = false) as Hs by (destruct (i =? 0)%nat; [done|]; by rewrite contains_app in Hnd).
    cbn [read_groups]. unfold read_separator. destruct (i =? 0)%nat; cbn [String.append].
    + rewrite read_ipv4_no_dot by done. rewrite Hn, IH by (done || (simpl in Hlen; lia)). by destruct (i <? _)%nat.
    + cbn [read_given_char Ascii.eqb]. simpl. rewrite read_ipv4_no_dot by done.
      rewrite Hn, IH by (done || (simpl in Hlen; lia)). by destruct (i <? _)%nat.
Qed.

Lemma segments_str gs r : segments_to_string gs +:+ r = groups_str 0 gs r.
Proof.
  destruct gs as [|g gs]; [done|]. unfold segments_to_string. simpl. revert g. induction gs as [|g' gs IH]; intros g; [done|].
  change (map segment_to_string (g' :: gs)) with (segment_to_string g' :: map segment_to_string gs).
  cbn [join]. rewrite !str_app_assoc. f_equal. cbn [foldr]. change (":" +:+ ?x) with (String ":" x). simpl.
  f_equal. apply IH.
Qed.

Lemma longest_zeros_spec gs : forall i cur longest all,
  length all = (i + length gs)%nat -> skipn i all = gs ->
  (forall b, b = cur \/ b = longest -> (b.1 + b.2 <= i)%nat /\ forall j, (b.1 <= j < b.1 + b.2)%nat -> all !! j = Some 0) ->
  (cur.2 = 0%nat \/ (cur.1 + cur.2 = i)%nat) ->
  let b := longest_zeros i gs cur longest in
  (b.1 + b.2 <= length all)%nat /\ forall j, (b.1 <= j < b.1 + b.2)%nat -> all !! j = Some 0.
Proof.
  induction gs as [|g gs IH]; intros i cur longest all Hlen Hsk Hb Hcur; simpl.
  { destruct (Hb longest); [by right|]. split; [lia|done]. }
  assert (all !! i = Some g) as Hi. { rewrite <- (Nat.add_0_r i), <- lookup_drop. change @drop with @skipn. by rewrite Hsk. }
  assert (skipn (S i) all = gs) as Hsk'. { rewrite <- Nat.add_1_r, Nat.add_comm, <- skipn_skipn. by rewrite Hsk. }
  simpl in Hlen. destruct (Z.eqb_spec g 0) as [->|Hg].
  - set (c := ((if (cur.2 =? 0)%nat then i else cur.1), S cur.2)).
    assert ((c.1 + c.2 = S i)%nat /\ forall j, (c.1 <= j < c.1 + c.2)%nat -> all !! j = Some 0) as [Hc1 Hc2].
    { unfold c. simpl. destruct (Nat.eqb_spec cur.2 0) as [E|E].
      - rewrite E. split; [lia|]. intros j Hj. by replace j with i by lia.
      - destruct Hcur as [?|Hcur]; [done|]. split; [lia|]. intros j Hj. destruct (decide (j = i)) as [->|Hne]; [done|].
        apply (Hb cur (or_introl eq_refl)). lia. }
    apply IH; [lia|done| |right; exact Hc1]. intros b [->|Eb]; [split; [lia|done]|].
    assert (b = c \/ b = longest) as [-> | ->] by (destruct (_ <? _)%nat; auto); [split; [lia|done]|].
    destruct (Hb longest (or_intror eq_refl)). split; [lia|done].
  - apply IH; [lia|done| |by left]. intros b [-> | ->]; [simpl; split; [lia|intros; lia]|].
    destruct (Hb longest (or_intror eq_refl)). split; [lia|done].
Qed.

Lemma zero_run (gs : list Z) a n : (a + n <= length gs)%nat -> (forall j, (a <= j < a + n)%nat -> gs !! j = Some 0) ->
  gs = take a gs ++ replicate n 0 ++ drop (a + n) gs.
Proof.
  intros Hl Hz. rewrite <- (take_drop a gs) at 1. f_equal. rewrite <- (take_drop n (drop a gs)) at 1.
  rewrite drop_drop. f_equal. apply list_eq. intros j. destruct (decide (j < n)%nat) as [Hj|Hj].
  - rewrite lookup_take_lt by done. rewrite lookup_drop, Hz by lia. by rewrite lookup_replicate_2.
  - rewrite !lookup_ge_None_2; [done| |]; rewrite ?length_take, ?length_replicate; lia.
Qed.

Lemma segments_of_range n : Forall (fun g => 0 <= g < 65536) (segments_of n).
Proof. unfold segments_of. repeat constructor; apply Z.mod_pos_bound; lia. Qed.

Lemma segments_of_value n : 0 <= n < 2 ^ 128 -> groups_value (segments_of n) = n.
Proof.
  intros Hn. unfold groups_value, segments_of. cbn [map fold_left].
  change (16 * 7) with 112. change (16 * 6) with 96. change (16 * 5) with 80. change (16 * 4) with 64.
  change (16 * 3) with 48. change (16 * 2) with 32. change (16 * 1) with 16. change (16 * 0) with 0.
  assert (forall k, 0 <= k -> n / 2 ^ (k + 16) * 65536 + n / 2 ^ k mod 65536 = n / 2 ^ k) as Hstep.
  { intros k Hk. rewrite Z.pow_add_r, <- Z.div_div by lia. change (2 ^ 16) with 65536.
    pose proof (Z.div_mod (n / 2 ^ k) 65536). lia. }
  assert (0 * 65536 + n / 2 ^ 112 mod 65536 = n / 2 ^ 112) as ->.
  { rewrite Z.mod_small; [lia|]. split; [apply Z.div_pos; lia|]. apply Z.div_lt_upper_bound; lia. }
  assert (forall k j, j = k + 16 -> 0 <= k -> n / 2 ^ j * 65536 + n / 2 ^ k mod 65536 = n / 2 ^ k) as Hs by (intros k j ->; apply Hstep).
  rewrite (Hs 96 112), (Hs 80 96), (Hs 64 80), (Hs 48 64), (Hs 32 48), (Hs 16 32), (Hs 0 16) by lia.
  by rewrite Z.div_1_r.
Qed.

Lemma no_dot_colons gs : Forall (fun g => 0 <= g < 65536) gs ->
  contains_char "." ("::" +:+ segments_to_string gs) = false.
Proof.
  intros H. rewrite contains_app. simpl. rewrite <- (str_app_nil_r (segments_to_string gs)), segments_str.
  by apply groups_no_dot.
Qed.

Lemma stops_nil : stops EmptyString.
Proof. by left. Qed.

(** The compressed form. *)
Lemma read_ipv6_compressed (gs : list Z) start len : length gs = 8%nat -> Forall (fun g => 0 <= g < 65536) gs ->
  (1 < len)%nat -> (start + len <= 8)%nat -> (forall j, (start <= j < start + len)%nat -> gs !! j = Some 0) ->
  read_ipv6_addr (segments_to_string (take start gs) +:+ "::" +:+ segments_to_string (drop (start + len) gs))
  = Some (groups_value gs, EmptyString).
Proof.
  intros Hl Hr Hlen Hsl Hz. pose proof (zero_run gs start len ltac:(lia) Hz) as Egs.
  set (hd := take start gs) in *. set (tl := drop (start + len) gs) in *.
  assert (length hd = start) as Hhd by (apply length_take_le; lia).
  assert (length tl = 8 - (start + len))%nat as Htl by (unfold tl; rewrite length_drop; lia).
  assert (Forall (fun g => 0 <= g < 65536) hd /\ Forall (fun g => 0 <= g < 65536) tl) as [Hrh Hrt].
  { rewrite Egs in Hr. apply Forall_app in Hr as [? Hr]. by apply Forall_app in Hr as [_ ?]. }
  unfold read_ipv6_addr. rewrite segments_str.
  rewrite (read_groups_print 8 ("::" +:+ segments_to_string tl));
    [|by right; eexists|by apply no_dot_colons|done|lia].
  rewrite Hhd. destruct (Nat.eqb_spec start 8); [lia|]. cbn [read_given_char Ascii.eqb String.append]. simpl.
  rewrite <- (str_app_nil_r (segments_to_string tl)), segments_str.
  rewrite (read_groups_print _ EmptyString); [|apply stops_nil|done|done|lia]. rewrite Htl.
  replace (8 - start - (8 - (start + len)))%nat with len by lia.
  assert (repeat 0 len = replicate len 0) as -> by (clear; induction len; simpl; congruence). by rewrite <- Egs.
Qed.

(** The form of an IPv4-mapped address. *)
Lemma read_ipv6_mapped n : 0 <= n < 2 ^ 128 -> n / 2 ^ 32 = 65535 ->
  parse_ipv6 ("::ffff:" +:+ ipv4_to_string (n mod 2 ^ 32)) = Some n.
Proof.
  intros Hn E. set (m := n mod 2 ^ 32). assert (is_u32 m) as Hm by (apply Z.mod_pos_bound; lia).
  assert (read_ipv4_addr (ipv4_to_string m) = Some (m, EmptyString)) as H4.
  { pose proof (parse_print_ipv4 m Hm) as Hp. unfold parse_ipv4, parse_all_input in Hp.
    destruct (15 <? _); [done|]. destruct (read_ipv4_addr _) as [[v r]|]; [|done]. simpl in Hp.
    by destruct r; [injection Hp as <-|]. }
  unfold parse_ipv6, parse_all_input, read_ipv6_addr. generalize dependent (ipv4_to_string m). intros x H4.
  assert (read_groups 8 0 8 ("::ffff:" +:+ x) = ([], false, "::ffff:" +:+ x)) as -> by reflexivity.
  assert (read_groups 7 1 6 (":" +:+ x) = ([m / 65536; m mod 65536], true, EmptyString)) as E2.
  { assert (read_separator 1 read_ipv4_addr (":" +:+ x) = Some (m, EmptyString)) as Es by exact H4.
    cbn [read_groups]. by rewrite Es. }
  assert (read_groups 7 0 7 ("ffff:" +:+ x) = ([65535; m / 65536; m mod 65536], true, EmptyString)) as E3.
  { transitivity (let '(gs, v4, rest) := read_groups 7 1 6 (":" +:+ x) in (65535 :: gs, v4, rest)); [reflexivity|]. by rewrite E2. }
  change (read_given_char ":" ("::ffff:" +:+ x)) with (Some (":ffff:" +:+ x)). cbn [mbind option_bind length Nat.eqb].
  change (read_given_char ":" (":ffff:" +:+ x)) with (Some ("ffff:" +:+ x)). cbn [mbind option_bind Nat.sub Nat.add].
  rewrite E3. unfold groups_value. simpl. f_equal.
  pose proof (Z.div_mod n (2 ^ 32)) as Hd. fold m in Hd. pose proof (Z.div_mod m 65536). lia.
Qed.

(** Printing then parsing an IPv6 address. *)
Lemma parse_print_ipv6 n : 0 <= n < 2 ^ 128 -> parse_ipv6 (ipv6_to_string n) = Some n.
Proof.
  intros Hn. unfold ipv6_to_string. destruct (Z.eqb_spec (n / 2 ^ 32) 65535) as [E|_].
  { by rewrite read_ipv6_mapped. }
  pose proof (segments_of_value n Hn) as Hv. pose proof (segments_of_range n) as Hr.
  pose proof (longest_zeros_spec (segments_of n) 0 (0, 0)%nat (0, 0)%nat (segments_of n) eq_refl eq_refl) as Hz.
  destruct (longest_zeros _ _ _ _) as [start len]. simpl in Hz.
  destruct Hz as [Hl Hz]; [intros b [-> | ->]; (split; [done|]); simpl; intros; lia|by left|].
  unfold parse_ipv6, parse_all_input. destruct (Nat.ltb_spec 1 len) as [H1|H1].
  - by rewrite read_ipv6_compressed, Hv.
  - unfold read_ipv6_addr. rewrite <- (str_app_nil_r (segments_to_string _)), segments_str.
    rewrite (read_groups_print 8 EmptyString); [|apply stops_nil|done..]. simpl. by rewrite Hv.
Qed.

Lemma read_groups_range limit left_ : forall i s gs v4 rest, read_groups limit i left_ s = (gs, v4, rest) ->
  (i + left_ = limit)%nat -> Forall (fun g => 0 <= g < 65536) gs /\ (length gs <= left_)%nat.
Proof.
  induction left_ as [|left_ IH]; intros i s gs v4 rest; cbn [read_groups].
  { intros [= <- _ _]. split; [constructor|done]. }
  intros E Hi. destruct (if (i <? limit - 1)%nat then read_separator i read_ipv4_addr s else None) as [[v s']|] eqn:E4.
  - injection E as <- _ _. destruct (Nat.ltb_spec i (limit - 1)) as [Hlt|]; [|done].
    assert (is_u32 v) as Hv.
    { unfold read_separator in E4. destruct (i =? 0)%nat; [by eapply read_ipv4_addr_bound|].
      destruct (read_given_char ":" s); [|done]. by eapply read_ipv4_addr_bound. }
    unfold is_u32 in Hv. split; [|simpl; lia]. repeat constructor; dlia.
  - destruct (read_separator i (read_number 16 4 true 65536) s) as [[g s']|] eqn:E16.
    + destruct (read_groups limit (S i) left_ s') as [[gs' b] r] eqn:Er. injection E as <- _ _.
      apply IH in Er as [Hf Hl]; [|lia]. split; [|simpl; lia]. constructor; [|done].
      unfold read_separator in E16. destruct (i =? 0)%nat; [by eapply read_number_bound in E16|].
      destruct (read_given_char ":" s); [|done]. by eapply read_number_bound in E16.
    + injection E as <- _ _. split; [constructor|simpl; lia].
Qed.

Lemma groups_value_bound gs : Forall (fun g => 0 <= g < 65536) gs -> 0 <= groups_value gs < 65536 ^ Z.of_nat (length gs).
Proof.
  intros Hgs. unfold groups_value.
  assert (forall acc k, 0 <= k -> 0 <= acc < 65536 ^ k ->
    0 <= fold_left (fun acc g => acc * 65536 + g) gs acc < 65536 ^ (k + Z.of_nat (length gs))) as H.
  { induction Hgs as [|g gs Hg Hgs IH]; intros acc k Hk Ha; simpl; [by rewrite Z.add_0_r|].
    replace (k + Z.of_nat (S (length gs))) with (k + 1 + Z.of_nat (length gs)) by lia.
    apply IH; [lia|]. rewrite Z.pow_add_r by lia. lia. }
  apply (H 0 0); lia.
Qed.

Lemma parse_ipv6_bound s n : parse_ipv6 s = Some n -> 0 <= n < 2 ^ 128.
Proof.
  unfold parse_ipv6, parse_all_input. destruct (read_ipv6_addr s) as [[v r]|] eqn:E; [|done]. simpl.
  destruct (is_empty r); [|done]. intros [= <-]. unfold read_ipv6_addr in E.
  destruct (read_groups 8 0 8 s) as [[hd b] s1] eqn:Eh. apply read_groups_range in Eh as [Hh Hl]; [|done].
  destruct (Nat.eqb_spec (length hd) 8) as [E8|].
  { injection E as <- _. pose proof (groups_value_bound hd Hh) as Hb. by rewrite E8 in Hb. }
  destruct b; [done|]. destruct (read_given_char ":" s1) as [s2|]; [|done]. cbn [mbind option_bind] in E.
  destruct (read_given_char ":" s2) as [s3|]; [|done]. cbn [mbind option_bind] in E.
  set (limit := (8 - (length hd + 1))%nat) in *.
  destruct (read_groups limit 0 limit s3) as [[tl b'] s4] eqn:Et. apply read_groups_range in Et as [Ht Hlt]; [|done].
  injection E as <- _. set (gs := hd ++ repeat 0 _ ++ tl).
  assert (length gs = 8%nat) as E8 by (unfold gs, limit in *; rewrite !length_app, repeat_length; lia).
  pose proof (groups_value_bound gs) as Hb. rewrite E8 in Hb. apply Hb. unfold gs. rewrite !Forall_app. split_and!; [done| |done].
  apply Forall_forall. intros x ->%list_elem_of_In%repeat_spec. lia.
Qed.
