(* ===== verification/Router.v ===== *)
(** * The reverse proxy's routing and access decisions

    Models [crates/magnetite-proxy/src/router.rs] over the configuration types
    of [crates/magnetite-core/src/domains/proxy/model.rs]: CIDR containment,
    virtual-host selection by host and path, SNI extraction from a ClientHello,
    the IP block list, the priority-ordered access rules and the load balancer;
    and the routing prefix of the request handler in
    [crates/magnetite-proxy/src/service.rs] that composes them. *)

From S2P Require Import Prelude Bytes RustStr RustNet.
Open Scope outcome_scope.

(** ** Configuration *)

Inductive UpstreamScheme := Http_ | Https_.

Record Upstream := mkUpstream {
  host : string;
  port : Z;
  weight : Z;
  scheme : UpstreamScheme;
}.

Inductive ProxyMode := Http | Tcp.

Inductive LbStrategy := RoundRobin | LeastConn | IpHash | Weighted.

(** Time stamps are instants on one integer time line. *)
Record VirtualHost := mkVirtualHost {
  vh_id : string;
  vh_created_at : Z;
  vh_updated_at : Z;
  vh_created_by : string;
  hostname : string;
  path_prefix : option string;
  listen_port : Z;
  upstream : list Upstream;
  tls_enabled : bool;
  certificate_ref : option string;
  force_https : bool;
  proxy_mode : ProxyMode;
  lb_strategy : LbStrategy;
  vh_enabled : bool;
}.

Inductive AclAction := Allow | Deny.

Inductive AclScope := Global | Vhost.

Record AclRule := mkAclRule {
  acl_id : string;
  acl_created_at : Z;
  acl_updated_at : Z;
  acl_created_by : string;
  acl_cidr : string;
  acl_action : AclAction;
  acl_scope : AclScope;
  vhost_ref : option string;
  acl_priority : Z;
  acl_enabled : bool;
  acl_description : option string;
}.

Inductive ForwardRuleKind := Source | Destination.

Record ForwardRule := mkForwardRule {
  fr_id : string;
  fr_created_at : Z;
  fr_updated_at : Z;
  fr_created_by : string;
  kind : ForwardRuleKind;
  matcher : string;
  fr_action : AclAction;
  fr_priority : Z;
  fr_enabled : bool;
  fr_description : option string;
}.

Record IpBlock := mkIpBlock {
  ib_id : string;
  ib_created_at : Z;
  ib_updated_at : Z;
  ib_created_by : string;
  ib_cidr : string;
  ib_reason : option string;
  ib_order : Z;
  expires_at : option Z;
  ib_enabled : bool;
}.

#[export] Instance UpstreamScheme_eq_dec : EqDecision UpstreamScheme.
Proof. solve_decision. Defined.
#[export] Instance Upstream_eq_dec : EqDecision Upstream.
Proof. solve_decision. Defined.
#[export] Instance ProxyMode_eq_dec : EqDecision ProxyMode.
Proof. solve_decision. Defined.
#[export] Instance AclAction_eq_dec : EqDecision AclAction.
Proof. solve_decision. Defined.
#[export] Instance ForwardRuleKind_eq_dec : EqDecision ForwardRuleKind.
Proof. solve_decision. Defined.

(** ** Matching *)

Definition cidr_contains (cidr : string) (ip : IpAddr) : bool :=
  let '(net_s, prefix_s) := unwrap_or (cidr, "") (split_once "/" cidr) in
  match parse_ip (trim net_s) with
  | None => false
  | Some net =>
      match net, ip with
      | V4 n, V4 a =>
          let prefix := Z.min (unwrap_or 32 (parse_u32 prefix_s)) 32 in
          Z.land n (mask32 prefix) =? Z.land a (mask32 prefix)
      | V6 n, V6 a =>
          let prefix := Z.min (unwrap_or 128 (parse_u32 prefix_s)) 128 in
          Z.land n (mask128 prefix) =? Z.land a (mask128 prefix)
      | _, _ => false
      end
  end.

(** [Host] header: port stripped, trimmed, lower-cased. *)
Definition host_key (h : string) : string :=
  to_ascii_lowercase (trim (unwrap_or h (head (split ":" h)))).

Definition vhost_candidate (h path : string) (v : VirtualHost) : bool :=
  (vh_enabled v && bool_decide (proxy_mode v = Http) && eq_ignore_ascii_case (hostname v) h)
  && match path_prefix v with
     | Some p => is_empty p || starts_with path p
     | None => true
     end.

Definition prefix_len (v : VirtualHost) : Z :=
  match path_prefix v with Some p => str_len p | None => 0 end.

Definition match_vhost (vhosts : list VirtualHost) (h path : string) : option VirtualHost :=
  max_by_key prefix_len (List.filter (vhost_candidate (host_key h) path) vhosts).

Definition match_tcp_vhost (vhosts : list VirtualHost) (sni : option string) (p : Z)
  : option VirtualHost :=
  let is_tcp v := vh_enabled v && bool_decide (proxy_mode v = Tcp) in
  let by_port := find (fun v => is_tcp v && (listen_port v =? p)) vhosts in
  match sni with
  | Some name =>
      let name := to_ascii_lowercase (trim name) in
      match find (fun v => is_tcp v && eq_ignore_ascii_case (hostname v) name) vhosts with
      | Some v => Some v
      | None => by_port
      end
  | None => by_port
  end.

Definition is_blocked (blocks : list IpBlock) (ip : IpAddr) (now : Z) : bool :=
  existsb (fun b => ib_enabled b
                    && match expires_at b with Some e => now <? e | None => true end
                    && cidr_contains (ib_cidr b) ip) blocks.

(** ** Access rules *)

Definition in_scope (vhost_id : string) (r : AclRule) : bool :=
  match acl_scope r with
  | Global => true
  | Vhost => bool_decide (vhost_ref r = Some vhost_id)
  end.

Definition acl_decision (rules : list AclRule) (ip : IpAddr) (vhost_id : string) : AclAction :=
  let applicable := List.filter (in_scope vhost_id) (List.filter acl_enabled rules) in
  unwrap_or Allow
    (acl_action <$> find (fun r => cidr_contains (acl_cidr r) ip) (sort_by_key acl_priority applicable)).

Definition host_matches (m h : string) : bool :=
  let m := to_ascii_lowercase (trim m) in
  let h := to_ascii_lowercase (trim h) in
  if String.eqb m "*" || String.eqb m "." then true
  else match strip_prefix "." m with
       | Some dom => String.eqb h dom || ends_with h ("." +:+ dom)
       | None => String.eqb h m
       end.

Definition forward_source_decision (rules : list ForwardRule) (ip : IpAddr) : AclAction :=
  let applicable :=
    List.filter (fun r => fr_enabled r && bool_decide (kind r = Source)) rules in
  unwrap_or Allow
    (fr_action <$> find (fun r => cidr_contains (matcher r) ip) (sort_by_key fr_priority applicable)).

Definition forward_dest_decision (rules : list ForwardRule) (h : string) : AclAction :=
  let applicable :=
    List.filter (fun r => fr_enabled r && bool_decide (kind r = Destination)) rules in
  unwrap_or Allow
    (fr_action <$> find (fun r => host_matches (matcher r) h) (sort_by_key fr_priority applicable)).

(** ** TLS SNI *)

(** The closure [be16]. *)
Definition be16 (b : bytes) (i : nat) : outcome nat :=
  let! hi := idx b i in
  let! lo := idx b (i + 1) in
  Ret (Z.to_nat (Z.lor (Z.shiftl hi 8) lo)).

(** The entries of the server_name extension: [while q + 3 <= d.len()]. *)
Fixpoint sni_names (fuel : nat) (d : bytes) (q : nat) : outcome (option string) :=
  if (q + 3 <=? length d)%nat then
    match fuel with
    | O => OutOfFuel
    | S fuel' =>
        let! name_len := be16 d (q + 1) in
        let name_start := (q + 3)%nat in
        let name_end := Nat.min (name_start + name_len) (length d) in
        let! ty := idx d q in
        if ty =? 0 then
          let! name := slice_idx d name_start name_end in
          Ret (if utf8_valid name then Some (string_of_bytes name) else None)
        else sni_names fuel' d name_end
    end
  else Ret None.

(** The extensions: [while p + 4 <= ext_end]. *)
Fixpoint sni_extensions (fuel : nat) (hs : bytes) (p ext_end : nat) : outcome (option string) :=
  if (p + 4 <=? ext_end)%nat then
    match fuel with
    | O => OutOfFuel
    | S fuel' =>
        let! etype := be16 hs p in
        let! elen := be16 hs (p + 2) in
        let data_start := (p + 4)%nat in
        let data_end := Nat.min (data_start + elen) (length hs) in
        if (etype =? 0)%nat then
          let! d := slice_idx hs data_start data_end in
          sni_names (length d) d 2
        else sni_extensions fuel' hs data_end ext_end
    end
  else Ret None.

Definition parse_sni (buf : bytes) : outcome (option string) :=
  if (length buf <? 5)%nat then Ret None
  else
    let! ct := idx buf 0 in
    if negb (ct =? 0x16) then Ret None
    else
      let! rec_len := be16 buf 3 in
      let rec_end := Nat.min (5 + rec_len) (length buf) in
      let! hs := slice_idx buf 5 rec_end in
      if (length hs <? 4)%nat then Ret None
      else
        let! mt := idx hs 0 in
        if negb (mt =? 0x01) then Ret None
        else
          let p := (4 + 2 + 32)%nat in
          if (length hs <? p + 1)%nat then Ret None
          else
            let! sid := idx hs p in
            let p := (p + (1 + Z.to_nat sid))%nat in
            if (length hs <? p + 2)%nat then Ret None
            else
              let! suites := be16 hs p in
              let p := (p + (2 + suites))%nat in
              if (length hs <? p + 1)%nat then Ret None
              else
                let! comp := idx hs p in
                let p := (p + (1 + Z.to_nat comp))%nat in
                if (length hs <? p + 2)%nat then Ret None
                else
                  let! exts := be16 hs p in
                  let ext_end := Nat.min (p + 2 + exts) (length hs) in
                  sni_extensions (length hs) hs (p + 2) ext_end.

(** ** Load balancing *)

Definition eff_weight (u : Upstream) : Z := Z.max (weight u) 1.

Definition total_weight (us : list Upstream) : Z :=
  fold_right (fun u acc => eff_weight u + acc) 0 us.

(** [for u in upstreams { if pos < w { return Some(u) } pos -= w }], then [last]. *)
Fixpoint weighted_pick (us : list Upstream) (pos : Z) : option Upstream :=
  match us with
  | [] => None
  | u :: us' => if pos <? eff_weight u then Some u else weighted_pick us' (pos - eff_weight u)
  end.

(** [hash_ip] is the standard library's unspecified default hasher. *)
Definition select_upstream (hash_ip : IpAddr -> Z) (upstreams : list Upstream)
    (strategy : LbStrategy) (client_ip : IpAddr) (rr_counter : Z) (inflight : Upstream -> Z)
  : option Upstream :=
  if (length upstreams =? 0)%nat then None
  else
    match strategy with
    | RoundRobin => upstreams !! Z.to_nat (rr_counter mod len upstreams)
    | IpHash => upstreams !! Z.to_nat (hash_ip client_ip mod len upstreams)
    | LeastConn => min_by_key inflight upstreams
    | Weighted =>
        let total := total_weight upstreams in
        if total =? 0 then upstreams !! Z.to_nat (rr_counter mod len upstreams)
        else match weighted_pick upstreams (rr_counter mod total) with
             | Some u => Some u
             | None => last upstreams
             end
    end.

(** ** The routing part of the request handler *)

Record ProxyConfig := mkProxyConfig {
  blocks : list IpBlock;
  vhosts : list VirtualHost;
  acls : list AclRule;
}.

Inductive route :=
| Blocked
| NoVhost
| RedirectHttps (location : string)
| DeniedByAcl
| NoUpstream
| Forward (v : VirtualHost) (u : Upstream).

(** [counter] is the shared round-robin counter; a request that gets as far as
    the balancer advances it ([fetch_add], which wraps). *)
Definition route_request (hash_ip : IpAddr -> Z) (inflight : Upstream -> Z) (cfg : ProxyConfig)
    (counter : Z) (peer : IpAddr) (secure : bool) (h path : string) (now : Z) : route * Z :=
  if is_blocked (blocks cfg) peer now then (Blocked, counter)
  else
    match match_vhost (vhosts cfg) h path with
    | None => (NoVhost, counter)
    | Some v =>
        if force_https v && negb secure then
          (RedirectHttps ("https://" +:+ unwrap_or h (head (split ":" h)) +:+ path), counter)
        else if bool_decide (acl_decision (acls cfg) peer (vh_id v) = Deny) then
          (DeniedByAcl, counter)
        else
          match select_upstream hash_ip (upstream v) (lb_strategy v) peer counter inflight with
          | None => (NoUpstream, u64 (counter + 1))
          | Some u => (Forward v u, u64 (counter + 1))
          end
    end.

(** ** Validation *)

(** [str::contains]. *)
Fixpoint str_contains (p s : string) : bool :=
  starts_with s p || match s with EmptyString => false | String _ s' => str_contains p s' end.

Inductive proxy_error := MSG_HOSTNAME | MSG_PORT | MSG_CERT_NAME | MSG_PEM | MSG_CIDR
  | MSG_ACL_HOST | MSG_CERT_REQUIRED | MSG_FWD_MATCHER.

Definition is_label_char (c : ascii) : bool := is_ascii_alphanumeric c || Ascii.eqb c "-".

Definition is_hostname (name : string) : bool :=
  let labels := split "." (trim_end_matches "." (trim name)) in
  (2 <=? length labels)%nat
  && forallb (fun l => negb (is_empty l) && (str_len l <=? 63) && str_forallb is_label_char l
                       && negb (starts_with l "-") && negb (ends_with l "-")) labels.

Definition is_cidr (value : string) : bool :=
  match split_once "/" (trim value) with
  | None => false
  | Some (addr, prefix) =>
      match parse_u32 prefix with
      | None => false
      | Some prefix =>
          if bool_decide (is_Some (parse_ipv4 addr)) then prefix <=? 32
          else if bool_decide (is_Some (parse_ipv6 addr)) then prefix <=? 128
          else false
      end
  end.

Definition is_pem (value : string) : bool :=
  str_contains "-----BEGIN" value && str_contains "-----END" value.

Definition check_vhost (hostname : string) (listen_port : Z) (tls_enabled : bool)
    (certificate_ref : option string) : proxy_error + unit :=
  if negb (is_hostname hostname) then inl MSG_HOSTNAME
  else if listen_port =? 0 then inl MSG_PORT
  else if tls_enabled && is_none_or (fun c => is_empty (trim c)) certificate_ref
  then inl MSG_CERT_REQUIRED
  else inr ().

Definition check_certificate (name cert_pem chain_pem : string) : proxy_error + unit :=
  if is_empty (trim name) || (100 <? char_count (trim name)) then inl MSG_CERT_NAME
  else if negb (is_pem cert_pem) then inl MSG_PEM
  else if negb (is_empty (trim chain_pem)) && negb (is_pem chain_pem) then inl MSG_PEM
  else inr ().

Definition check_acl (cidr : string) (scope_vhost : bool) (vhost_ref : option string) : proxy_error + unit :=
  if negb (is_cidr cidr) then inl MSG_CIDR
  else if scope_vhost && is_none_or (fun v => is_empty (trim v)) vhost_ref then inl MSG_ACL_HOST
  else inr ().

Definition check_forward_rule (is_source : bool) (matcher : string) : proxy_error + unit :=
  let m := trim matcher in
  if is_source then if is_cidr m then inr () else inl MSG_CIDR
  else if String.eqb m "*" || String.eqb m "." then inr ()
  else
    let host := unwrap_or m (strip_prefix "." m) in
    if negb (is_empty host)
       && forallb (fun l => negb (is_empty l) && str_forallb is_label_char l) (split "." host)
    then inr () else inl MSG_FWD_MATCHER.

Definition check_ip_block (cidr : string) : proxy_error + unit :=
  if is_cidr cidr then inr () else inl MSG_CIDR.

(** ** CIDR containment *)

(** an IPv4 CIDR [net/p] contains exactly the addresses that agree
    with [net] on the first [p] bits; [/0] contains every address. *)
Theorem cidr_contains_v4_prefix net_s prefix_s n p a :
  contains_char "/" net_s = false -> parse_ip (trim net_s) = Some (V4 n) ->
  parse_u32 prefix_s = Some p -> p <= 32 -> is_u32 a ->
  cidr_contains (net_s +:+ String "/" prefix_s) (V4 a) = true <->
  n / 2 ^ (32 - p) = a / 2 ^ (32 - p).
Proof.
  intros Hs Hn Hp Hle Ha. unfold cidr_contains. rewrite split_once_app by done. simpl.
  rewrite Hn, Hp. simpl. rewrite Z.min_l by done. apply parse_uint_bound in Hp.
  apply mask32_agree; [lia|by eapply parse_ip_v4_bound|done].
Qed.

Lemma cidr_contains_v4_prefix_witness :
  cidr_contains ("192.0.2.0" +:+ String "/" "24") (V4 3221226039) = true <->
  3221225984 / 2 ^ (32 - 24) = 3221226039 / 2 ^ (32 - 24).
Proof.
  apply (cidr_contains_v4_prefix "192.0.2.0" "24" 3221225984 24 3221226039);
    [reflexivity|reflexivity|reflexivity|lia|unfold is_u32; lia].
Defined.

(** ** Virtual hosts *)

(** the virtual host chosen for a request is enabled, speaks HTTP,
    has the request's host name and a matching path prefix, and no candidate
    has a longer prefix; there is none only when no virtual host matches. *)
Theorem match_vhost_longest vs h path :
  match match_vhost vs h path with
  | Some v => In v vs /\ vhost_candidate (host_key h) path v = true /\
      (forall w, In w vs -> vhost_candidate (host_key h) path w = true -> prefix_len w <= prefix_len v)
  | None => forall w, In w vs -> vhost_candidate (host_key h) path w = false
  end.
Proof.
  unfold match_vhost. destruct (max_by_key _ _) as [v|] eqn:E.
  - apply max_by_key_spec in E as [Hin Hmax]. apply filter_In in Hin as [Hin Hc].
    split_and!; [done|done|]. intros w Hw Hcw. apply Hmax. by apply filter_In.
  - intros w Hw. destruct (vhost_candidate _ _ w) eqn:Ec; [|done].
    apply max_by_key_none in E.
    assert (In w (List.filter (vhost_candidate (host_key h) path) vs)) as Hin by by apply filter_In.
    by rewrite E in Hin.
Qed.

(** ** Access rules *)

Definition acl_applies (ip : IpAddr) (vhost_id : string) (r : AclRule) : bool :=
  acl_enabled r && in_scope vhost_id r && cidr_contains (acl_cidr r) ip.

(** the access decision is that of the applicable rule (enabled, in
    scope, CIDR containing the client) with the least priority, the earliest in
    the list among equals, and Allow when no rule applies. *)
Theorem acl_decision_first_match rules ip vid :
  (acl_decision rules ip vid = Allow /\ forall r, In r rules -> acl_applies ip vid r = false) \/
  (exists l1 r l2, rules = l1 ++ r :: l2 /\ acl_applies ip vid r = true /\
     acl_decision rules ip vid = acl_action r /\
     (forall y, In y l1 -> acl_applies ip vid y = true -> acl_priority r < acl_priority y) /\
     (forall y, In y l2 -> acl_applies ip vid y = true -> acl_priority r <= acl_priority y)).
Proof.
  unfold acl_decision. rewrite filter_filter.
  apply (priority_scan acl_priority (fun r => acl_enabled r && in_scope vid r)
           (fun r => cidr_contains (acl_cidr r) ip)).
Qed.

(** a virtual-host rule that names its host the way the data model
    documents it, by host name, has no effect: when no record id is a host name,
    a configuration whose rules are all such rules never denies a request,
    whatever they say.  (The handler passes the record id to [acl_decision].) *)
Theorem hostname_scoped_rules_never_deny hash_ip inflight cfg counter peer secure h path now :
  (forall r, In r (acls cfg) -> acl_scope r = Vhost /\
     exists w, In w (vhosts cfg) /\ vhost_ref r = Some (hostname w)) ->
  (forall v w, In v (vhosts cfg) -> In w (vhosts cfg) -> vh_id v <> hostname w) ->
  fst (route_request hash_ip inflight cfg counter peer secure h path now) <> DeniedByAcl.
Proof.
  intros Hrules Hids. unfold route_request.
  destruct (is_blocked _ _ _); [done|]. destruct (match_vhost _ h path) as [v|] eqn:Ev; [|done].
  destruct (force_https v && negb secure); [done|].
  assert (acl_decision (acls cfg) peer (vh_id v) = Allow) as ->.
  - unfold acl_decision. rewrite filter_filter, filter_none; [done|].
    intros r Hr. destruct (Hrules r Hr) as (Hs & w & Hw & Href). unfold in_scope. rewrite Hs, Href.
    rewrite bool_decide_eq_false_2; [apply andb_false_r|]. intros [= E].
    apply max_by_key_spec in Ev as [[Hv _]%filter_In _]. by apply (Hids v w).
  - simpl. by destruct (select_upstream _ _ _ _ _ _).
Qed.

Lemma hostname_scoped_rules_never_deny_witness :
  let v := mkVirtualHost "k3j2" 0 0 "admin" "a.example.com" None 80 [] false None false Http RoundRobin true in
  let r := mkAclRule "r" 0 0 "admin" "0.0.0.0/0" Deny Vhost (Some "a.example.com") 0 true None in
  let cfg := mkProxyConfig [] [v] [r] in
  fst (route_request (fun _ => 0) (fun _ => 0) cfg 0 (V4 167838211) true "a.example.com" "/" 0)
    <> DeniedByAcl.
Proof.
  intros v r cfg. apply hostname_scoped_rules_never_deny.
  - intros r' [<-|[]]. split; [done|]. exists v. split; [by left|done].
  - intros v' w [<-|[]] [<-|[]]. done.
Defined.

(** A deny rule scoped to a virtual host the way the screen stores it lets the
    client through. *)
Example acl_hostname_rule_example :
  let r := mkAclRule "r" 0 0 "admin" "0.0.0.0/0" Deny Vhost (Some "a.example.com") 0 true None in
  acl_decision [r] (V4 167838211) "k3j2" = Allow /\ acl_decision [r] (V4 167838211) "a.example.com" = Deny.
Proof. split; vm_compute; reflexivity. Qed.

(** ** Load balancing *)


Lemma eff_weight_pos u : 1 <= eff_weight u.
Proof. unfold eff_weight. lia. Qed.

Lemma total_weight_nonneg us : 0 <= total_weight us.
Proof. induction us as [|u us IH]; simpl; [lia|]. pose proof (eff_weight_pos u). lia. Qed.

(** One full turn of the counter visits each upstream [weight] times in a row. *)
Lemma weighted_picks us :
  map (weighted_pick us) (seqZ 0 (total_weight us)) =
  map Some (concat (map (fun u => repeat u (Z.to_nat (eff_weight u))) us)).
Proof.
  induction us as [|u us IH]; simpl; [done|].
  pose proof (eff_weight_pos u). pose proof (total_weight_nonneg us).
  rewrite seqZ_app, !map_app by lia. f_equal.
  - transitivity (map (fun _ => Some u) (seqZ 0 (eff_weight u))).
    + apply map_ext_in. intros r Hr%list_elem_of_In%elem_of_seqZ.
      by rewrite (proj2 (Z.ltb_lt _ _)) by lia.
    + rewrite map_const, length_seqZ, map_repeat. done.
  - rewrite Z.add_0_l. replace (seqZ (eff_weight u) (total_weight us))
      with (map (Z.add (eff_weight u)) (seqZ 0 (total_weight us))).
    + rewrite map_map, <- IH. apply map_ext_in. intros r Hr%list_elem_of_In%elem_of_seqZ.
      rewrite (proj2 (Z.ltb_ge _ _)) by lia. f_equal. lia.
    + pose proof (fmap_add_seqZ (eff_weight u) 0 (total_weight us)) as E.
      rewrite Z.add_0_r in E. exact E.
Qed.

(** [T] consecutive counters hit every residue once. *)
Lemma mod_turn r0 T : 0 < T -> map (fun r => r mod T) (seqZ r0 T) ≡ₚ seqZ 0 T.
Proof.
  intros HT. apply NoDup_Permutation.
  - apply NoDup_fmap_2_strong; [|apply NoDup_seqZ].
    intros x y Hx%elem_of_seqZ Hy%elem_of_seqZ E.
    pose proof (Z.div_mod x T). pose proof (Z.div_mod y T).
    assert (x / T = y / T) by nia. lia.
  - apply NoDup_seqZ.
  - intros x. rewrite elem_of_seqZ. split.
    + intros (r & -> & _)%list_elem_of_fmap_1. pose proof (Z.mod_pos_bound r T). lia.
    + intros Hx. apply list_elem_of_fmap. exists (r0 + (x - r0) mod T).
      pose proof (Z.mod_pos_bound (x - r0) T). split; [|apply elem_of_seqZ; lia].
      rewrite Zplus_mod_idemp_r. replace (r0 + (x - r0)) with x by lia.
      by rewrite Z.mod_small by lia.
Qed.

Lemma count_repeat us u :
  Z.of_nat (length (List.filter (fun v => bool_decide (v = u))
    (concat (map (fun u => repeat u (Z.to_nat (eff_weight u))) us)))) =
  total_weight (List.filter (fun v => bool_decide (v = u)) us).
Proof.
  induction us as [|w us IH]; simpl; [done|].
  rewrite List.filter_app, length_app, Nat2Z.inj_add, IH.
  assert (length (List.filter (fun v => bool_decide (v = u)) (repeat w (Z.to_nat (eff_weight w)))) =
    if bool_decide (w = u) then Z.to_nat (eff_weight w) else 0%nat) as ->.
  { induction (Z.to_nat (eff_weight w)) as [|n IHn]; simpl; [by destruct (bool_decide _)|].
    destruct (bool_decide (w = u)); simpl; lia. }
  pose proof (eff_weight_pos w). destruct (bool_decide (w = u)); simpl; lia.
Qed.


(** weighted round robin is proportional.  Over any run of as many
    consecutive counter values as the weights add up to, an upstream is chosen
    exactly as often as its weight says (a zero weight counting as one). *)
Theorem weighted_round_robin_fair hash_ip us ip inflight r0 u :
  len (List.filter (fun r => bool_decide (select_upstream hash_ip us Weighted ip r inflight = Some u))
         (seqZ r0 (total_weight us))) =
  total_weight (List.filter (fun v => bool_decide (v = u)) us).
Proof.
  destruct (decide (us = [])) as [->|Hne]; [done|]. set (T := total_weight us).
  assert (0 < T) as HT.
  { subst T. destruct us as [|w us]; [done|]. simpl. pose proof (eff_weight_pos w).
    pose proof (total_weight_nonneg us). lia. }
  rewrite <- count_repeat. unfold len. f_equal.
  transitivity (length (List.filter (fun o => bool_decide (o = Some u))
    (map (weighted_pick us) (map (fun r => r mod T) (seqZ r0 T))))).
  - rewrite map_map. generalize (seqZ r0 T). induction l as [|r l IH]; simpl; [done|].
    assert (select_upstream hash_ip us Weighted ip r inflight = weighted_pick us (r mod T)) as ->.
    { unfold select_upstream. destruct us as [|w us]; [done|]. simpl length. simpl Nat.eqb.
      fold T. rewrite (proj2 (Z.eqb_neq T 0)) by lia.
      destruct (weighted_pick (w :: us) (r mod T)) eqn:E; [done|]. exfalso.
      assert (In None (map (weighted_pick (w :: us)) (seqZ 0 T))) as Hin.
      { rewrite <- E. apply in_map. apply list_elem_of_In, elem_of_seqZ.
        pose proof (Z.mod_pos_bound r T). lia. }
      unfold T in Hin. rewrite weighted_picks in Hin. apply in_map_iff in Hin as (? & ? & _). done. }
    destruct (bool_decide _); simpl; by rewrite IH.
  - rewrite (filter_length_perm _ _ (map (weighted_pick us) (seqZ 0 T)))
      by by rewrite mod_turn.
    unfold T. rewrite weighted_picks. generalize (concat (map (fun u => repeat u (Z.to_nat (eff_weight u))) us)).
    induction l as [|w l IH]; simpl; [done|].
    rewrite (bool_decide_ext (Some w = Some u) (w = u)) by (split; congruence).
    destruct (bool_decide _); simpl; lia.
Qed.

(** ** TLS SNI *)

Lemma idx_Ret {A} (l : list A) i : (i < length l)%nat -> exists x, idx l i = Ret x.
Proof.
  intros Hi. unfold idx. destruct (lookup_lt_is_Some_2 l i Hi) as [x ->]. by exists x.
Qed.

Lemma slice_idx_Ret {A} (l : list A) i j : (i <= j <= length l)%nat ->
  exists s, slice_idx l i j = Ret s /\ length s = (j - i)%nat.
Proof.
  intros Hij. unfold slice_idx, slice_get.
  rewrite (proj2 (Nat.leb_le i j)), (proj2 (Nat.leb_le j (length l))) by lia.
  eexists. split; [done|]. rewrite length_take, length_drop. lia.
Qed.

Lemma be16_Ret b i : (i + 2 <= length b)%nat -> exists n, be16 b i = Ret n.
Proof.
  intros Hi. unfold be16. destruct (idx_Ret b i) as [x ->]; [lia|]. simpl.
  destruct (idx_Ret b (i + 1)) as [y ->]; [lia|]. simpl. eauto.
Qed.

(** Case on the next read, which is in range. *)
Ltac step_read :=
  match goal with
  | |- exists _, obind (be16 ?b ?i) _ = _ =>
      let n := fresh "n" in destruct (be16_Ret b i) as [n ->]; [lia|]; cbn [obind]
  | |- exists _, obind (idx ?b ?i) _ = _ =>
      let x := fresh "x" in destruct (idx_Ret b i) as [x ->]; [lia|]; cbn [obind]
  | |- exists _, obind (slice_idx ?b ?i ?j) _ = _ =>
      let s := fresh "s" in let H := fresh "Hs" in
      destruct (slice_idx_Ret b i j) as (s & -> & H); [lia|]; cbn [obind]
  end.

(** Pass a guard that returns early. *)
Ltac step_guard :=
  match goal with
  | |- exists _, (if (?a <? ?b)%nat then _ else _) = _ => destruct (Nat.ltb_spec a b); [by eauto|]
  | |- exists _, (if negb ?c then _ else _) = _ => destruct c; [simpl negb; cbv iota|by eauto]
  end.

Lemma sni_names_total fuel d q : (length d <= fuel + q)%nat ->
  exists r, sni_names fuel d q = Ret r.
Proof.
  revert q. induction fuel as [|fuel IH]; intros q Hq; cbn [sni_names];
    destruct (Nat.leb_spec (q + 3) (length d)); eauto; [lia|].
  do 2 step_read. destruct (_ =? 0); [step_read; eauto|]. apply IH. lia.
Qed.

Lemma sni_extensions_total fuel hs p ext_end :
  (ext_end <= length hs)%nat -> (length hs <= fuel + p)%nat ->
  exists r, sni_extensions fuel hs p ext_end = Ret r.
Proof.
  revert p. induction fuel as [|fuel IH]; intros p He Hp; cbn [sni_extensions];
    destruct (Nat.leb_spec (p + 4) ext_end); eauto; [lia|].
  do 2 step_read. destruct (_ =? 0)%nat; [step_read; apply sni_names_total; lia|]. apply IH; lia.
Qed.

(** the SNI parser is total on whatever a client sends: it never indexes
    outside the buffer and both of its loops terminate. *)
Theorem parse_sni_total buf : exists r, parse_sni buf = Ret r.
Proof.
  unfold parse_sni. step_guard. step_read. step_guard. do 2 step_read.
  step_guard. step_read. do 2 step_guard. step_read. step_guard. step_read. step_guard.
  step_read. step_guard. step_read. apply sni_extensions_total; lia.
Qed.

(** *** A ClientHello, as RFC 8446 section 4.1.2 and RFC 6066 section 3 lay it out *)

Definition opaque (n : nat) (b : bytes) : bytes := to_be_bytes n (len b) ++ b.

Definition extension (ext : Z * bytes) : bytes := to_be_bytes 2 ext.1 ++ opaque 2 ext.2.

Definition server_name_extension (name : bytes) : bytes :=
  extension (0, opaque 2 (0 :: opaque 2 name)).

Definition client_hello (version random session suites comp : bytes)
    (pre : list (Z * bytes)) (name : bytes) (post : bytes) : bytes :=
  [1] ++ opaque 3 (version ++ random ++ opaque 1 session ++ opaque 2 suites ++ opaque 1 comp
    ++ opaque 2 (concat (map extension pre) ++ server_name_extension name ++ post)).

Definition tls_record (hello : bytes) : bytes := [0x16; 3; 1] ++ opaque 2 hello.

(** Two bytes at [i] of a buffer are the 16-bit length written there. *)
Lemma be16_at b i n r : drop i b = to_be_bytes 2 n ++ r -> 0 <= n < 65536 -> be16 b i = Ret (Z.to_nat n).
Proof.
  intros Hd Hn. change (to_be_bytes 2 n) with [n / 256 mod 256; n mod 256] in Hd. simpl in Hd.
  unfold be16, idx. rewrite (lookup_of_drop _ _ _ _ Hd). cbn [obind].
  erewrite (lookup_of_drop b r (i + 1)); [|by rewrite <- drop_drop, Hd]. cbn [obind].
  rewrite lor_shiftl_add by (dlia). f_equal. f_equal. dlia.
Qed.

Lemma opaque_length n b : length (opaque n b) = (n + length b)%nat.
Proof. unfold opaque. by rewrite length_app, to_be_bytes_length. Qed.

Lemma byte_at b i n r : drop i b = to_be_bytes 1 n ++ r -> 0 <= n < 256 -> idx b i = Ret n.
Proof.
  intros Hd Hn. change (to_be_bytes 1 n) with [n mod 256] in Hd. unfold idx.
  rewrite (lookup_of_drop _ _ _ _ Hd). f_equal. apply Z.mod_small. lia.
Qed.

Lemma drop_length {A} (l r : list A) i : drop i l = r -> (length l - i = length r)%nat.
Proof. intros <-. by rewrite length_drop. Qed.

Lemma drop_app_shift' {A} (l p r : list A) i j :
  drop i l = p ++ r -> j = (i + length p)%nat -> drop j l = r.
Proof. intros Hd ->. by apply (drop_app_shift _ p). Qed.

Lemma slice_idx_app {A} (l p r : list A) i j :
  drop i l = p ++ r -> (i <= length l)%nat -> j = (i + length p)%nat -> slice_idx l i j = Ret p.
Proof. intros Hd Hi ->. unfold slice_idx. by rewrite (slice_get_app l p r). Qed.

Lemma sni_names_server_name fuel name : (0 < fuel)%nat -> len name < 65536 -> utf8_valid name = true ->
  sni_names fuel (opaque 2 (0 :: opaque 2 name)) 2 = Ret (Some (string_of_bytes name)).
Proof.
  intros Hf Hn Hu. destruct fuel as [|fuel]; [lia|]. unfold len in Hn.
  set (d := opaque 2 (0 :: opaque 2 name)).
  assert (drop 2 d = [0] ++ (to_be_bytes 2 (len name) ++ name)) as D2 by done.
  pose proof (drop_app_shift' _ _ _ _ 3%nat D2 eq_refl) as D3.
  pose proof (drop_app_shift' _ _ _ _ 5%nat D3 eq_refl) as D5.
  pose proof (drop_length _ _ _ D3) as L3. rewrite length_app, to_be_bytes_length in L3.
  cbn [sni_names]. rewrite (proj2 (Nat.leb_le _ _)) by lia.
  rewrite (be16_at d (2 + 1) (len name) name D3) by (unfold len; lia). cbn [obind].
  rewrite (byte_at d 2 0 _ D2) by lia. cbn [obind Z.eqb].
  unfold len. rewrite Nat2Z.id, (slice_idx_app d name []); [|by rewrite app_nil_r|lia|lia].
  cbn [obind]. by rewrite Hu.
Qed.

Definition ext_ok (e : Z * bytes) : Prop := 0 < e.1 < 65536 /\ len e.2 < 65536.

Lemma extension_length e : length (extension e) = (4 + length e.2)%nat.
Proof. unfold extension. by rewrite length_app, to_be_bytes_length, opaque_length. Qed.

Lemma concat_extension_length pre : (4 * length pre <= length (concat (map extension pre)))%nat.
Proof.
  induction pre as [|e pre IH]; cbn [map concat length]; [lia|].
  rewrite length_app, extension_length. lia.
Qed.

Lemma extension_at hs p ty d r : 0 <= ty < 65536 -> len d < 65536 ->
  drop p hs = extension (ty, d) ++ r ->
  be16 hs p = Ret (Z.to_nat ty) /\ be16 hs (p + 2) = Ret (length d) /\
  drop (p + 4) hs = d ++ r /\ drop (p + 4 + length d) hs = r.
Proof.
  unfold extension, opaque, fst, snd, len. intros Hty Hd D. rewrite <- !app_assoc in D.
  pose proof (drop_app_shift' _ _ _ _ (p + 2) D eq_refl) as D2.
  pose proof (drop_app_shift' _ _ _ _ (p + 4) D2 ltac:(rewrite to_be_bytes_length; lia)) as D4.
  split_and!; [by eapply be16_at| |done|by eapply drop_app_shift'].
  erewrite be16_at by (done || lia). by rewrite Nat2Z.id.
Qed.

Lemma sni_extensions_server_name pre name post hs fuel p ext_end :
  Forall ext_ok pre -> len name < 65531 -> utf8_valid name = true ->
  drop p hs = concat (map extension pre) ++ server_name_extension name ++ post ->
  (p + length (concat (map extension pre)) + length (server_name_extension name) <= ext_end <= length hs)%nat ->
  (length pre < fuel)%nat ->
  sni_extensions fuel hs p ext_end = Ret (Some (string_of_bytes name)).
Proof.
  intros Hpre Hn Hu. revert p fuel. unfold len in Hn.
  induction Hpre as [|[ty d] pre [Hty Hd] _ IH]; intros p fuel D He Hf;
    (destruct fuel as [|fuel]; [simpl in Hf; lia|]); cbn [sni_extensions];
    cbn [map concat length app] in D, He, Hf.
  - unfold server_name_extension in *. set (d := opaque 2 (0 :: opaque 2 name)) in *.
    rewrite extension_length in He. cbn [snd] in He.
    assert (length d = (5 + length name)%nat) as Ld
      by (subst d; rewrite opaque_length, length_cons, opaque_length; lia).
    destruct (extension_at hs p 0 d post) as (-> & -> & D4 & _); [lia|unfold len; lia|done|].
    rewrite (proj2 (Nat.leb_le _ _)) by lia. cbn [obind Z.to_nat Nat.eqb].
    rewrite (slice_idx_app hs d post); [|done|lia|lia]. cbn [obind].
    apply sni_names_server_name; [lia|unfold len; lia|done].
  - rewrite <- app_assoc in D. rewrite length_app, extension_length in He. cbn [fst snd] in He, Hty, Hd.
    destruct (extension_at hs p ty d _ ltac:(lia) Hd D) as (-> & -> & _ & D5).
    rewrite (proj2 (Nat.leb_le _ _)) by lia. cbn [obind].
    rewrite (proj2 (Nat.eqb_neq _ _)) by lia. rewrite Nat.min_l by lia.
    apply IH; [done|lia|lia].
Qed.

Lemma opaque_skip hs p n x r q : drop p hs = opaque n x ++ r -> q = (p + (n + length x))%nat ->
  drop q hs = r.
Proof. intros D ->. eapply drop_app_shift'; [exact D|]. by rewrite opaque_length. Qed.

Lemma opaque1_at hs p x r : drop p hs = opaque 1 x ++ r -> len x < 256 -> idx hs p = Ret (len x).
Proof. intros D Hx. unfold opaque in D. rewrite <- app_assoc in D. eapply byte_at; [exact D|unfold len in *; lia]. Qed.

Lemma opaque2_at hs p x r : drop p hs = opaque 2 x ++ r -> len x < 65536 -> be16 hs p = Ret (length x).
Proof.
  intros D Hx. unfold opaque in D. rewrite <- app_assoc in D.
  erewrite be16_at; [|exact D|unfold len in *; lia]. unfold len. by rewrite Nat2Z.id.
Qed.

(** The handshake message that [parse_sni] cuts out of the record. *)
Lemma tls_record_hello hs rest : len hs < 65536 ->
  idx (tls_record hs ++ rest) 0 = Ret 0x16 /\ be16 (tls_record hs ++ rest) 3 = Ret (length hs) /\
  slice_idx (tls_record hs ++ rest) 5 (5 + length hs) = Ret hs.
Proof.
  intros H. assert (drop 3 (tls_record hs ++ rest) = opaque 2 hs ++ rest) as D by done.
  split_and!; [done|by eapply opaque2_at|].
  apply (slice_idx_app _ hs rest); [|unfold tls_record; rewrite !length_app, opaque_length; simpl; lia|done].
  unfold opaque in D. rewrite <- app_assoc in D. by apply (drop_app_shift' _ _ _ _ 5 D).
Qed.

(** the SNI parser finds the server name of every ClientHello: for any
    session id, cipher suites, compression methods, preceding and following
    extensions within their field widths, and whatever follows the record. *)
Theorem parse_sni_client_hello version random session suites comp pre name post rest :
  length version = 2%nat -> length random = 32%nat -> len session < 256 -> len suites < 65536 ->
  len comp < 256 -> Forall ext_ok pre -> utf8_valid name = true ->
  len (client_hello version random session suites comp pre name post) < 65536 ->
  parse_sni (tls_record (client_hello version random session suites comp pre name post) ++ rest) =
  Ret (Some (string_of_bytes name)).
Proof.
  intros Hv Hr Hse Hsu Hc Hpre Hu Hlen.
  set (hs := client_hello version random session suites comp pre name post) in *.
  set (exts := concat (map extension pre) ++ server_name_extension name ++ post).
  assert (drop 38 hs = opaque 1 session ++ opaque 2 suites ++ opaque 1 comp ++ opaque 2 exts ++ []) as D0.
  { rewrite app_nil_r. unfold hs, client_hello. fold exts. unfold opaque at 1.
    rewrite !(app_assoc _ version), !(app_assoc _ random).
    rewrite (app_assoc [1]). rewrite drop_app_length'; [done|].
    rewrite !length_app, to_be_bytes_length, Hv, Hr. done. }
  pose proof (opaque_skip _ _ _ _ _ (38 + (1 + length session)) D0 eq_refl) as D1.
  pose proof (opaque_skip _ _ _ _ _ (38 + (1 + length session) + (2 + length suites)) D1 eq_refl) as D2.
  pose proof (opaque_skip _ _ _ _ _ (38 + (1 + length session) + (2 + length suites) + (1 + length comp)) D2 eq_refl) as D3.
  pose proof (drop_length _ _ _ D0) as L0.
  rewrite !length_app, !opaque_length in L0. cbn [length] in L0.
  assert (length (server_name_extension name) = (9 + length name)%nat) as Ln.
  { unfold server_name_extension. rewrite extension_length. cbn [snd].
    rewrite opaque_length, length_cons, opaque_length. lia. }
  assert (length exts = (length (concat (map extension pre)) + (9 + length name) + length post)%nat) as Le.
  { unfold exts. rewrite !length_app. lia. }
  pose proof (concat_extension_length pre) as Lp.
  unfold parse_sni. destruct (tls_record_hello hs rest Hlen) as (E1 & E2 & E3).
  assert (5 + length hs <= length (tls_record hs ++ rest))%nat as Lb
    by (unfold tls_record; rewrite !length_app, opaque_length; simpl; lia).
  rewrite (proj2 (Nat.ltb_ge _ _)) by lia. rewrite E1. cbn [obind Z.eqb Pos.eqb negb].
  rewrite E2. cbn [obind]. rewrite Nat.min_l by lia. rewrite E3. cbn [obind].
  rewrite (proj2 (Nat.ltb_ge _ _)) by lia.
  assert (idx hs 0 = Ret 1) as -> by done. cbn [obind Z.eqb Pos.eqb negb].
  change (4 + 2 + 32)%nat with 38%nat. unfold len in *.
  rewrite (proj2 (Nat.ltb_ge _ _)) by lia. rewrite (opaque1_at _ _ _ _ D0) by done. cbn [obind].
  unfold len. rewrite Nat2Z.id. rewrite (proj2 (Nat.ltb_ge _ _)) by lia.
  rewrite (opaque2_at _ _ _ _ D1) by done. cbn [obind]. rewrite (proj2 (Nat.ltb_ge _ _)) by lia.
  rewrite (opaque1_at _ _ _ _ D2) by done. cbn [obind]. unfold len. rewrite Nat2Z.id.
  rewrite (proj2 (Nat.ltb_ge _ _)) by lia.
  rewrite (opaque2_at _ _ _ _ D3) by (unfold len; lia). cbn [obind].
  eapply (sni_extensions_server_name pre name post); [done|unfold len; lia|done| |lia|lia].
  unfold opaque in D3. rewrite <- app_assoc in D3. 
  fold exts. rewrite <- (app_nil_r exts). by apply (drop_app_shift' _ _ _ _ _ D3).
Qed.

Lemma parse_sni_client_hello_witness :
  parse_sni (tls_record (client_hello [3; 3] (repeat 7 32) [1; 2] [0; 47] [0] [(10, [0; 2; 0; 23])]
    (bytes_of_string "a.example") [0; 23; 0; 0]) ++ [20]) = Ret (Some "a.example"%string).
Proof.
  apply (parse_sni_client_hello [3; 3] (repeat 7 32) [1; 2] [0; 47] [0] [(10, [0; 2; 0; 23])]
    (bytes_of_string "a.example") [0; 23; 0; 0] [20]); try (by vm_compute).
  constructor; [|constructor]. by vm_compute.
Defined.

(** ** Validated configuration *)

(** a block that passed validation, and that has no surrounding white
    space, blocks exactly the addresses of its CIDR while it is enabled and has
    not expired. *)
Theorem validated_block_semantics b net n now a :
  check_ip_block (ib_cidr b) = inr () -> trim (ib_cidr b) = ib_cidr b ->
  fst <$> split_once "/" (ib_cidr b) = Some net -> parse_ipv4 net = Some n -> is_u32 a ->
  exists p, 0 <= p <= 32 /\
    (is_blocked [b] (V4 a) now = true <->
     ib_enabled b = true /\ (forall e, expires_at b = Some e -> now < e) /\
     n / 2 ^ (32 - p) = a / 2 ^ (32 - p)).
Proof.
  unfold check_ip_block, is_cidr. intros Hc Htr Hnet Hn Ha. rewrite Htr in Hc.
  destruct (split_once "/" (ib_cidr b)) as [[addr prefix]|] eqn:Es; [|done].
  injection Hnet as ->. destruct (parse_u32 prefix) as [p|] eqn:Ep; [|done].
  rewrite Hn, bool_decide_eq_true_2 in Hc by done. destruct (Z.leb_spec p 32); [|done].
  pose proof (parse_uint_bound _ _ _ Ep) as Hp. exists p. split; [lia|].
  destruct (parse_ipv4_trim _ _ Hn) as [Ht Hip].
  assert (cidr_contains (ib_cidr b) (V4 a) = true <-> n / 2 ^ (32 - p) = a / 2 ^ (32 - p)) as Hcc.
  { unfold cidr_contains. rewrite Es. simpl. rewrite Ht, Hip, Ep. simpl. rewrite Z.min_l by done.
    apply mask32_agree; [lia|by eapply parse_ipv4_bound|done]. }
  unfold is_blocked. simpl. rewrite orb_false_r, !andb_true_iff, Hcc.
  destruct (expires_at b) as [e|]; rewrite ?Z.ltb_lt; naive_solver.
Qed.

Lemma validated_block_semantics_witness :
  let b := mkIpBlock "b" 0 0 "admin" "10.0.0.0/8" None 0 (Some 100) true in
  exists p, 0 <= p <= 32 /\
    (is_blocked [b] (V4 167838211) 5 = true <->
     ib_enabled b = true /\ (forall e, expires_at b = Some e -> 5 < e) /\
     167772160 / 2 ^ (32 - p) = 167838211 / 2 ^ (32 - p)).
Proof.
  intros b. apply (validated_block_semantics b "10.0.0.0" 167772160 5 167838211);
    [by vm_compute|by vm_compute|by vm_compute|by vm_compute|unfold is_u32; lia].
Defined.

(** With trailing white space, which validation trims and the matcher does not,
    the prefix is unreadable and the entry covers a single address. *)
Example untrimmed_block_covers_one_address :
  check_ip_block "10.0.0.0/8 " = inr () /\
  cidr_contains "10.0.0.0/8" (V4 167838211) = true /\
  cidr_contains "10.0.0.0/8 " (V4 167838211) = false.
Proof. by vm_compute. Qed.
