(* ===== verification/Surreal.v ===== *)
(** * The document store behind the repositories

    The repositories of [crates/magnetite-db] and [crates/magnetite-center] keep
    their records in SurrealDB, which is not part of this code base.  A table is
    therefore an interface: the class [Table] has one operation per form of
    query that the repositories send, and states what SurrealDB documents of it.
    Every query may fail ([Surreal]); a statement is atomic, so a failed one
    leaves the table as it was.  The theorems about the repositories hold for
    every instance; [list_table] is one, a table kept as a list, on which the
    witnesses run.

    Also here: [DbError] ([crates/magnetite-db/src/error.rs]) and the state and
    error monad of the repositories' [async] functions: the store is threaded
    through the queries, and [?] propagates the first error. *)

From S2P Require Import Prelude Bytes RustStr.

(** ** Errors *)

Inductive DbError :=
| Surreal
| Io
| PasswordHash (m : string)
| Constraint (m : string)
| Migration (m : string)
| NotFound.

#[export] Instance DbError_eq_dec : EqDecision DbError.
Proof. solve_decision. Defined.

Inductive DbResult (A : Type) :=
| Ok (a : A)
| Err (e : DbError).
Arguments Ok {A} _.
Arguments Err {A} _.

Definition result_map {A B} (f : A -> B) (r : DbResult A) : DbResult B :=
  match r with Ok a => Ok (f a) | Err e => Err e end.

Definition is_ok {A} (r : DbResult A) : Prop := exists a, r = Ok a.

(** ** Queries in sequence *)

(** A call that reads and writes a store [S]. *)
Definition M (S A : Type) : Type := S -> DbResult A * S.

Definition mret {S A} (a : A) : M S A := fun s => (Ok a, s).
Definition mfail {S A} (e : DbError) : M S A := fun s => (Err e, s).
Definition mbind_ {S A B} (m : M S A) (k : A -> M S B) : M S B :=
  fun s => match m s with
           | (Ok a, s') => k a s'
           | (Err e, s') => (Err e, s')
           end.

Declare Scope db_scope.
Delimit Scope db_scope with db.
Notation "'do!' x <- m ; k" := (mbind_ m (fun x => k))
  (at level 200, x pattern, m at level 100, k at level 200, right associativity) : db_scope.

(** [let _ = call.await]: the store after the call, whatever its result. *)
Definition ignore {S A} (m : M S A) : M S unit := fun s => (Ok (), (m s).2).

(** [BEGIN TRANSACTION; ... COMMIT TRANSACTION]: a failure undoes the statements. *)
Definition atomically {S A} (m : M S A) : M S A :=
  fun s => match m s with
           | (Ok a, s') => (Ok a, s')
           | (Err e, _) => (Err e, s)
           end.

Lemma mbind_ok {S A B} (m : M S A) (k : A -> M S B) s a s1 : m s = (Ok a, s1) -> mbind_ m k s = k a s1.
Proof. unfold mbind_. by intros ->. Qed.

Lemma mbind_inv {S A B} (m : M S A) (k : A -> M S B) s r s' :
  mbind_ m k s = (r, s') ->
  (exists e, m s = (Err e, s') /\ r = Err e) \/ (exists a s1, m s = (Ok a, s1) /\ k a s1 = (r, s')).
Proof. unfold mbind_. destruct (m s) as [[a|e] s1]; [right|left]; naive_solver. Qed.

(** ** A table *)

Class Table (T R : Type) := {
  (** The records, each under its key. *)
  rows : T -> list (string * R);

  (** [SELECT * FROM t WHERE p ORDER BY le LIMIT n] *)
  select : (R -> bool) -> (R -> R -> bool) -> option nat -> T -> DbResult (list (string * R));
  (** [select((t, key))] *)
  select_key : string -> T -> DbResult (option R);
  (** [create(t).content(r)] *)
  create : R -> T -> DbResult (option (string * R)) * T;
  (** [DELETE t WHERE p] *)
  delete_where : (R -> bool) -> T -> DbResult unit * T;
  (** [delete((t, key))] *)
  delete_key : string -> T -> DbResult unit * T;
  (** [UPDATE t SET ... WHERE p], with the updated records *)
  update_where : (string -> R -> bool) -> (R -> R) -> T -> DbResult (list (string * R)) * T;

  rows_keys : forall t, NoDup (rows t).*1;

  select_ok : forall p le n t l, select p le n t = Ok l ->
    (forall x y, le x y = true \/ le y x = true) ->
    (forall x y z, le x y = true -> le y z = true -> le x z = true) ->
    exists all, all ≡ₚ List.filter (fun kr => p kr.2) (rows t) /\
      StronglySorted (fun a b => le a.2 b.2 = true) all /\
      l = from_option (fun n => take n all) all n;

  select_key_ok : forall k t o, select_key k t = Ok o ->
    (forall r, o = Some r <-> In (k, r) (rows t));

  create_ok : forall r t o t', create r t = (o, t') ->
    match o with
    | Ok (Some (k, r')) => r' = r /\ k ∉ (rows t).*1 /\ rows t' ≡ₚ (k, r) :: rows t
    | _ => rows t' ≡ₚ rows t
    end;

  delete_where_ok : forall p t o t', delete_where p t = (o, t') ->
    match o with
    | Ok _ => rows t' ≡ₚ List.filter (fun kr => negb (p kr.2)) (rows t)
    | Err _ => rows t' ≡ₚ rows t
    end;

  delete_key_ok : forall k t o t', delete_key k t = (o, t') ->
    match o with
    | Ok _ => rows t' ≡ₚ List.filter (fun kr => negb (String.eqb kr.1 k)) (rows t)
    | Err _ => rows t' ≡ₚ rows t
    end;

  update_where_ok : forall p f t o t', update_where p f t = (o, t') ->
    match o with
    | Ok l => rows t' ≡ₚ map (fun kr => if p kr.1 kr.2 then (kr.1, f kr.2) else kr) (rows t) /\
              l ≡ₚ map (fun kr => (kr.1, f kr.2)) (List.filter (fun kr => p kr.1 kr.2) (rows t))
    | Err _ => rows t' ≡ₚ rows t
    end;
}.

(** A table whose queries succeed. *)
Class TotalTable (T R : Type) {TT : Table T R} : Prop := {
  select_total : forall p le n t, is_ok (select p le n t);
  create_total : forall r t, exists k t', create r t = (Ok (Some (k, r)), t');
  delete_where_total : forall p t, exists t', delete_where p t = (Ok (), t');
  select_key_total : forall k t, is_ok (select_key k t);
  delete_key_total : forall k t, exists t', delete_key k t = (Ok (), t');
  update_where_total : forall p f t, exists l t', update_where p f t = (Ok l, t');
}.

(** ** A record with a fixed key *)

Class Single (T R : Type) := {
  (** The record [t:main]. *)
  single : T -> option R;

  (** [SELECT * FROM t:main] *)
  read_single : T -> DbResult (option R);
  (** [CREATE t:main SET ...], which fails if the record exists *)
  create_single : R -> T -> DbResult unit * T;
  (** [UPDATE t:main SET ...], with the record before and after *)
  update_single : (R -> R) -> T -> DbResult (option (R * R)) * T;

  read_single_ok : forall t o, read_single t = Ok o -> o = single t;

  create_single_ok : forall r t o t', create_single r t = (o, t') ->
    match o with
    | Ok _ => single t = None /\ single t' = Some r
    | Err _ => single t' = single t
    end;

  update_single_ok : forall f t o t', update_single f t = (o, t') ->
    match o with
    | Ok (Some (b, a)) => single t = Some b /\ a = f b /\ single t' = Some a
    | Ok None => single t = None /\ single t' = None
    | Err _ => single t' = single t
    end;
}.

(** A cell in memory. *)
#[export] Instance option_Single {R} : Single (option R) R.
Proof.
  refine {| single := fun t => t;
            read_single := fun t => Ok t;
            create_single := fun r t => match t with Some _ => (Err Surreal, t) | None => (Ok (), Some r) end;
            update_single := fun f t => match t with
                                        | Some b => (Ok (Some (b, f b)), Some (f b))
                                        | None => (Ok None, None)
                                        end |}.
  - intros t o. by intros [= <-].
  - intros r t o t'. by destruct t; intros [= <- <-].
  - intros f t o t'. by destruct t; intros [= <- <-].
Defined.

(** ** Consequences of the laws *)

Section laws.
Context {T R : Type} {TT : Table T R}.

(** A query without LIMIT returns the matching rows. *)
Lemma select_all p le t l :
  select p le None t = Ok l ->
  (forall x y, le x y = true \/ le y x = true) ->
  (forall x y z, le x y = true -> le y z = true -> le x z = true) ->
  l ≡ₚ List.filter (fun kr => p kr.2) (rows t).
Proof. intros H H1 H2. by destruct (select_ok _ _ _ _ _ H H1 H2) as (all & ? & _ & ->). Qed.

(** The row under a key is determined. *)
Lemma rows_key_inj (t : T) k r1 r2 : In (k, r1) (rows t) -> In (k, r2) (rows t) -> r1 = r2.
Proof.
  intros [i Hi]%list_elem_of_In%list_elem_of_lookup [j Hj]%list_elem_of_In%list_elem_of_lookup.
  assert (i = j) as ->.
  { apply (NoDup_lookup (rows t).*1 i j k (rows_keys t)); rewrite list_lookup_fmap;
      [by rewrite Hi|by rewrite Hj]. }
  congruence.
Qed.
End laws.

(** ** Lists of rows *)

(** No ORDER BY. *)
Definition unordered {R} (_ _ : R) : bool := true.

Lemma str_le_order {R} (f : R -> string) :
  (forall x y : R, str_le (f x) (f y) = true \/ str_le (f y) (f x) = true) /\
  (forall x y z : R, str_le (f x) (f y) = true -> str_le (f y) (f z) = true -> str_le (f x) (f z) = true).
Proof. split; intros; [apply str_le_total|by eapply str_le_trans]. Qed.

Lemma filter_true {A} (l : list A) : List.filter (fun _ => true) l = l.
Proof. induction l; simpl; congruence. Qed.

Lemma perm_In {A} (l l' : list A) x : l ≡ₚ l' -> In x l -> In x l'.
Proof. intros H. by rewrite H. Qed.

Lemma NoDup_map_filter {A B} (f : A -> B) p l : NoDup (map f l) -> NoDup (map f (List.filter p l)).
Proof.
  induction l as [|x l IH]; simpl; [done|]. intros [Hn Hl]%NoDup_cons.
  destruct (p x); [|auto]. simpl. constructor; [|auto]. intros Hin. apply Hn.
  apply list_elem_of_In, in_map_iff in Hin as (y & <- & [Hy _]%filter_In).
  apply list_elem_of_In. by apply in_map.
Qed.

Lemma NoDup_map_inj {A B} (f : A -> B) l x y : NoDup (map f l) -> In x l -> In y l -> f x = f y -> x = y.
Proof.
  induction l as [|a l IH]; simpl; [done|]. intros [Hn Hd]%NoDup_cons [->|Hx] [->|Hy] E; auto;
    destruct Hn; [rewrite E|rewrite <- E]; apply list_elem_of_In; by apply in_map.
Qed.

Lemma unordered_order {R} :
  (forall x y : R, unordered x y = true \/ unordered y x = true) /\
  (forall x y z : R, unordered x y = true -> unordered y z = true -> unordered x z = true).
Proof. split; auto. Qed.

Lemma filter_agree {A} (f g : A -> bool) l : (forall x, In x l -> f x = g x) -> List.filter f l ≡ₚ List.filter g l.
Proof. intros H. by rewrite (filter_ext_in f g l H). Qed.

(** A property of every row. *)
Definition rows_all {T R} {TT : Table T R} (P : R -> Prop) (t : T) : Prop := forall k r, In (k, r) (rows t) -> P r.

Section rows_all_rules.
Context {T R : Type} {TT : Table T R} (P : R -> Prop).

Lemma rows_all_perm (t t' : T) : rows t' ≡ₚ rows t -> rows_all P t -> rows_all P t'.
Proof. intros H Ha k r Hin. eapply Ha. by apply (perm_In (rows t')). Qed.

Lemma rows_all_cons (t t' : T) k r : rows t' ≡ₚ (k, r) :: rows t -> P r -> rows_all P t -> rows_all P t'.
Proof.
  intros H Hr Ha k' r' Hin. apply (perm_In _ _ _ H) in Hin as [[= <- <-]|Hin]; [done|by eapply Ha].
Qed.

Lemma rows_all_filter (t t' : T) f : rows t' ≡ₚ List.filter f (rows t) -> rows_all P t -> rows_all P t'.
Proof. intros H Ha k r [Hin _]%(perm_In _ _ _ H)%filter_In. by eapply Ha. Qed.

Lemma rows_all_update (t t' : T) (p : string -> R -> bool) (f : R -> R) :
  rows t' ≡ₚ map (fun kr => if p kr.1 kr.2 then (kr.1, f kr.2) else kr) (rows t) ->
  (forall r, P r -> P (f r)) -> rows_all P t -> rows_all P t'.
Proof.
  intros H Hf Ha k r ([k0 r0] & E & Hin)%(perm_In _ _ _ H)%in_map_iff. simpl in E.
  destruct (p k0 r0); injection E as <- <-; [apply Hf|]; by eapply Ha.
Qed.
End rows_all_rules.

(** ** Triples

    [wp m Q s]: the call [m] from the store [s] ends with a result and a store
    that satisfy [Q]. *)

Definition wp {S A} (m : M S A) (Q : DbResult A -> S -> Prop) (s : S) : Prop := Q (m s).1 (m s).2.

(** A query on one table of a store: reading it, and reading and writing it. *)
Definition read_from {S T A} (get : S -> T) (q : T -> DbResult A) : M S A := fun s => (q (get s), s).
Definition on_table {S T A} (get : S -> T) (put : T -> S -> S) (q : T -> DbResult A * T) : M S A :=
  fun s => let (r, t) := q (get s) in (r, put t s).

Section wp_rules.
Context {S : Type}.

Lemma wp_ret {A} (a : A) (Q : DbResult A -> S -> Prop) s : Q (Ok a) s -> wp (mret a) Q s.
Proof. done. Qed.

Lemma wp_fail {A} e (Q : DbResult A -> S -> Prop) s : Q (Err e) s -> wp (mfail e) Q s.
Proof. done. Qed.

Lemma wp_mono {A} (m : M S A) (P Q : DbResult A -> S -> Prop) s :
  wp m P s -> (forall r s', P r s' -> Q r s') -> wp m Q s.
Proof. unfold wp. auto. Qed.

Lemma wp_bind {A B} (m : M S A) (k : A -> M S B) (Q : DbResult B -> S -> Prop) s :
  wp m (fun r s' => match r with Ok a => wp (k a) Q s' | Err e => Q (Err e) s' end) s -> wp (mbind_ m k) Q s.
Proof. unfold wp, mbind_. by destruct (m s) as [[a|e] s1]. Qed.

(** A call seen from its result. *)
Lemma wp_run {A} (m : M S A) (Q : DbResult A -> S -> Prop) s r s' : m s = (r, s') -> wp m Q s -> Q r s'.
Proof. unfold wp. by intros ->. Qed.

(** The same, for a call that succeeds. *)
Definition on_ok {A} (Q : A -> S -> Prop) (r : DbResult A) (s : S) : Prop :=
  match r with Ok a => Q a s | Err _ => True end.

Lemma wp_run_ok {A} (m : M S A) (Q : A -> S -> Prop) s a s' : m s = (Ok a, s') -> wp m (on_ok Q) s -> Q a s'.
Proof. unfold wp. by intros ->. Qed.

Lemma wp_intro {A} (m : M S A) (Q : DbResult A -> S -> Prop) s :
  (forall r s', m s = (r, s') -> Q r s') -> wp m Q s.
Proof. unfold wp. intros H. destruct (m s) as [r s'] eqn:E. by apply H. Qed.

Context {T R : Type} {TT : Table T R} (get : S -> T) (put : T -> S -> S).

(** [SELECT] without LIMIT, by a total order. *)
Lemma wp_select p le (Q : DbResult (list (string * R)) -> S -> Prop) s :
  (forall x y, le x y = true \/ le y x = true) ->
  (forall x y z, le x y = true -> le y z = true -> le x z = true) ->
  (forall l, l ≡ₚ List.filter (fun kr => p kr.2) (rows (get s)) ->
     StronglySorted (fun a b => le a.2 b.2 = true) l -> Q (Ok l) s) ->
  (forall e, Q (Err e) s) ->
  wp (read_from get (select p le None)) Q s.
Proof.
  intros H1 H2 Hok Herr. unfold wp, read_from. simpl. destruct (select _ _ _ _) as [l|e] eqn:E; [|done].
  destruct (select_ok _ _ _ _ _ E H1 H2) as (all & Hp & Hs & ->). by apply Hok.
Qed.

(** [SELECT ... LIMIT 1], unordered: a matching row if there is one. *)
Lemma wp_select_one p (Q : DbResult (list (string * R)) -> S -> Prop) s :
  (forall kr, In kr (rows (get s)) -> p kr.2 = true -> Q (Ok [kr]) s) ->
  ((forall kr, In kr (rows (get s)) -> p kr.2 = false) -> Q (Ok []) s) ->
  (forall e, Q (Err e) s) ->
  wp (read_from get (select p unordered (Some 1%nat))) Q s.
Proof.
  intros Hsome Hnone Herr. unfold wp, read_from. simpl. destruct (select _ _ _ _) as [l|e] eqn:E; [|done].
  destruct (select_ok _ _ _ _ _ E) as (all & Hp & _ & ->); [by left|done|]. simpl.
  destruct all as [|kr all]; simpl.
  - apply Hnone. intros kr Hin. destruct (p kr.2) eqn:Ep; [|done]. exfalso.
    assert (In kr (List.filter (fun kr => p kr.2) (rows (get s)))) as Hf by (by apply filter_In).
    apply Permutation_nil in Hp. by rewrite Hp in Hf.
  - assert (In kr (List.filter (fun kr => p kr.2) (rows (get s)))) as [Hin Hpk]%filter_In.
    { apply (perm_In (kr :: all)); [done|by left]. }
    rewrite take_0. by apply Hsome.
Qed.

Lemma wp_select_key k (Q : DbResult (option R) -> S -> Prop) s :
  (forall r, In (k, r) (rows (get s)) -> Q (Ok (Some r)) s) ->
  ((forall r, ~ In (k, r) (rows (get s))) -> Q (Ok None) s) ->
  (forall e, Q (Err e) s) ->
  wp (read_from get (select_key k)) Q s.
Proof.
  intros Hsome Hnone Herr. unfold wp, read_from. simpl. destruct (select_key k _) as [o|e] eqn:E; [|done].
  pose proof (select_key_ok _ _ _ E) as Ho. destruct o as [r|].
  - by apply Hsome, Ho.
  - apply Hnone. intros r Hin. by apply Ho in Hin.
Qed.

Lemma wp_create r (Q : DbResult (option (string * R)) -> S -> Prop) s :
  (forall k t, k ∉ (rows (get s)).*1 -> rows t ≡ₚ (k, r) :: rows (get s) -> Q (Ok (Some (k, r))) (put t s)) ->
  (forall t, rows t ≡ₚ rows (get s) -> Q (Ok None) (put t s)) ->
  (forall e t, rows t ≡ₚ rows (get s) -> Q (Err e) (put t s)) ->
  wp (on_table get put (create r)) Q s.
Proof.
  intros H1 H2 H3. unfold wp, on_table. destruct (create r (get s)) as [o t] eqn:E. simpl.
  apply create_ok in E. destruct o as [[[k r']|]|e]; [|by auto..]. destruct E as (-> & Hk & Hr). by apply H1.
Qed.

Lemma wp_delete_where p (Q : DbResult unit -> S -> Prop) s :
  (forall t, rows t ≡ₚ List.filter (fun kr => negb (p kr.2)) (rows (get s)) -> Q (Ok ()) (put t s)) ->
  (forall e t, rows t ≡ₚ rows (get s) -> Q (Err e) (put t s)) ->
  wp (on_table get put (delete_where p)) Q s.
Proof.
  intros H1 H2. unfold wp, on_table. destruct (delete_where p (get s)) as [o t] eqn:E. simpl.
  apply delete_where_ok in E. destruct o as [[]|e]; auto.
Qed.

Lemma wp_delete_key k (Q : DbResult unit -> S -> Prop) s :
  (forall t, rows t ≡ₚ List.filter (fun kr => negb (String.eqb kr.1 k)) (rows (get s)) -> Q (Ok ()) (put t s)) ->
  (forall e t, rows t ≡ₚ rows (get s) -> Q (Err e) (put t s)) ->
  wp (on_table get put (delete_key k)) Q s.
Proof.
  intros H1 H2. unfold wp, on_table. destruct (delete_key k (get s)) as [o t] eqn:E. simpl.
  apply delete_key_ok in E. destruct o as [[]|e]; auto.
Qed.

Lemma wp_update_where (p : string -> R -> bool) (f : R -> R) (Q : DbResult (list (string * R)) -> S -> Prop) s :
  (forall l t, rows t ≡ₚ map (fun kr => if p kr.1 kr.2 then (kr.1, f kr.2) else kr) (rows (get s)) ->
     l ≡ₚ map (fun kr => (kr.1, f kr.2)) (List.filter (fun kr => p kr.1 kr.2) (rows (get s))) ->
     Q (Ok l) (put t s)) ->
  (forall e t, rows t ≡ₚ rows (get s) -> Q (Err e) (put t s)) ->
  wp (on_table get put (update_where p f)) Q s.
Proof.
  intros H1 H2. unfold wp, on_table. destruct (update_where p f (get s)) as [o t] eqn:E. simpl.
  apply update_where_ok in E. destruct o as [l|e]; [destruct E|]; auto.
Qed.

(** The same, for a property of every row: the outcome does not matter. *)
Lemma wp_create_all (P : R -> Prop) r (Q : DbResult (option (string * R)) -> S -> Prop) s :
  rows_all P (get s) -> P r -> (forall o t, rows_all P t -> Q o (put t s)) -> wp (on_table get put (create r)) Q s.
Proof.
  intros Ha Hr HQ. apply wp_create; intros; apply HQ; [|eapply rows_all_perm; eassumption..].
  eapply rows_all_cons; eassumption.
Qed.

Lemma wp_update_all (P : R -> Prop) p (f : R -> R) (Q : DbResult (list (string * R)) -> S -> Prop) s :
  rows_all P (get s) -> (forall r, P r -> P (f r)) -> (forall o t, rows_all P t -> Q o (put t s)) ->
  wp (on_table get put (update_where p f)) Q s.
Proof.
  intros Ha Hf HQ. apply wp_update_where; intros; apply HQ; [|eapply rows_all_perm; eassumption].
  by apply (rows_all_update P (get s) t p f).
Qed.

Lemma wp_delete_where_all (P : R -> Prop) p (Q : DbResult unit -> S -> Prop) s :
  rows_all P (get s) -> (forall o t, rows_all P t -> Q o (put t s)) -> wp (on_table get put (delete_where p)) Q s.
Proof.
  intros Ha HQ. apply wp_delete_where; intros; apply HQ;
    [eapply rows_all_filter; eassumption|eapply rows_all_perm; eassumption].
Qed.

Lemma wp_delete_key_all (P : R -> Prop) k (Q : DbResult unit -> S -> Prop) s :
  rows_all P (get s) -> (forall o t, rows_all P t -> Q o (put t s)) -> wp (on_table get put (delete_key k)) Q s.
Proof.
  intros Ha HQ. apply wp_delete_key; intros; apply HQ;
    [eapply rows_all_filter; eassumption|eapply rows_all_perm; eassumption].
Qed.
End wp_rules.

(** ** A table with a unique column, as a map *)

(** [SELECT * FROM t WHERE p LIMIT 1], into an [Option]. *)
Definition select_one {T R} {TT : Table T R} (p : R -> bool) (t : T) : DbResult (option R) :=
  result_map (fun l => snd <$> head l) (select p unordered (Some 1%nat) t).

(** [CREATE t CONTENT r], and [create(t).content(r)] where the record returned is
    not used: it yields the record or has failed. *)
Definition create_row {T R} {TT : Table T R} (r : R) (t : T) : DbResult unit * T :=
  match create r t with
  | (Ok (Some _), t') => (Ok (), t')
  | (Ok None, t') => (Err Surreal, t')
  | (Err e, t') => (Err e, t')
  end.

Section keyed.
Context {T R : Type} {TT : Table T R} (key : R -> string).

Definition has_key (k : string) (r : R) : bool := String.eqb (key r) k.

(** The rows of [t] are those of [m], each under its column [key]. *)
Definition keyed (t : T) (m : gmap string R) : Prop :=
  forall k, List.filter (has_key k) (map snd (rows t)) = option_list (m !! k).

Lemma keyed_key t m k r : keyed t m -> m !! k = Some r -> key r = k.
Proof.
  intros H E. specialize (H k). rewrite E in H. assert (In r [r]) as Hin by (by left). simpl in H.
  rewrite <- H in Hin. apply filter_In in Hin as [_ Hin]. by apply String.eqb_eq.
Qed.

Lemma keyed_In t m r : keyed t m -> In r (map snd (rows t)) <-> m !! key r = Some r.
Proof.
  intros H. specialize (H (key r)). split.
  - intros Hin. assert (In r (List.filter (has_key (key r)) (map snd (rows t)))) as Hf.
    { apply filter_In. split; [done|]. apply String.eqb_refl. }
    rewrite H in Hf. destruct (m !! key r); simpl in Hf; [|done]. by destruct Hf as [->|[]].
  - intros E. rewrite E in H. assert (In r [r]) as Hin by (by left). simpl in H. rewrite <- H in Hin.
    by apply filter_In in Hin as [Hin _].
Qed.

Lemma option_list_perm (l : list R) o : l ≡ₚ option_list o -> l = option_list o.
Proof. destruct o; simpl; [apply Permutation_singleton_r|apply Permutation_nil_r]. Qed.

Lemma keyed_perm t t' m : rows t' ≡ₚ rows t -> keyed t m -> keyed t' m.
Proof. intros Hp H k. apply option_list_perm. by rewrite <- H, Hp. Qed.

Lemma keyed_create t t' m k0 r :
  rows t' ≡ₚ (k0, r) :: rows t -> m !! key r = None -> keyed t m -> keyed t' (<[key r := r]> m).
Proof.
  intros Hp E H k. apply option_list_perm. rewrite Hp. simpl. specialize (H k). unfold has_key at 1.
  destruct (String.eqb_spec (key r) k) as [<-|Hne].
  - by rewrite H, E, lookup_insert_eq.
  - by rewrite H, lookup_insert_ne.
Qed.

Lemma filter_map_snd (p : R -> bool) (l : list (string * R)) :
  map snd (List.filter (fun kr => p kr.2) l) = List.filter p (map snd l).
Proof. induction l as [|[k r] l IH]; simpl; [done|]. destruct (p r); simpl; by rewrite IH. Qed.

Lemma filter_swap {A} (f g : A -> bool) (l : list A) :
  List.filter f (List.filter g l) = List.filter g (List.filter f l).
Proof. induction l as [|x l IH]; simpl; [done|]. destruct (f x) eqn:Ef, (g x) eqn:Eg; simpl; rewrite ?Ef, ?Eg, IH; done. Qed.

(** [DELETE t WHERE p], for a [p] that picks the rows of some keys. *)
Lemma keyed_delete t t' m (p : R -> bool) (d : gmap string R -> gmap string R) :
  rows t' ≡ₚ List.filter (fun kr => negb (p kr.2)) (rows t) ->
  (forall k, d m !! k = match m !! k with Some r => if p r then None else Some r | None => None end) ->
  keyed t m -> keyed t' (d m).
Proof.
  intros Hp Hd H k. apply option_list_perm. rewrite Hp, (filter_map_snd (fun r => negb (p r))), filter_swap, H, Hd.
  destruct (m !! k) as [r|]; simpl; [|done]. by destruct (p r).
Qed.
End keyed.

Section wp_keyed.
Context {S T R : Type} {TT : Table T R} (key : R -> string) (get : S -> T) (put : T -> S -> S).

Lemma wp_keyed_select k m (Q : DbResult (option R) -> S -> Prop) s :
  keyed key (get s) m -> Q (Ok (m !! k)) s -> (forall e, Q (Err e) s) ->
  wp (read_from get (select_one (has_key key k))) Q s.
Proof.
  intros H H1 H2. unfold wp, read_from, select_one. simpl.
  destruct (select _ _ _ _) as [l|e] eqn:E; simpl; [|apply H2].
  destruct (select_ok _ _ _ _ _ E) as (all & Hp & _ & ->); [by left|done|].
  assert (map snd all = option_list (m !! k)) as Ha.
  { apply option_list_perm. by rewrite Hp, (filter_map_snd (has_key key k)), H. }
  destruct (m !! k) as [r|], all as [|[k0 r0] [|]]; simpl in *; try done. congruence.
Qed.

Lemma wp_keyed_create m r (Q : DbResult unit -> S -> Prop) s :
  keyed key (get s) m -> m !! key r = None ->
  (forall t, keyed key t (<[key r := r]> m) -> Q (Ok ()) (put t s)) ->
  (forall e t, keyed key t m -> Q (Err e) (put t s)) ->
  wp (on_table get put (create_row r)) Q s.
Proof.
  intros H E H1 H2. unfold wp, on_table, create_row. destruct (create r (get s)) as [o t] eqn:Ec. simpl.
  apply create_ok in Ec. destruct o as [[[k r']|]|e]; simpl.
  - destruct Ec as (-> & _ & Hp). apply H1. by eapply keyed_create.
  - apply H2. by eapply keyed_perm.
  - apply H2. by eapply keyed_perm.
Qed.

Lemma wp_keyed_delete m (p : R -> bool) (d : gmap string R -> gmap string R) (Q : DbResult unit -> S -> Prop) s :
  keyed key (get s) m ->
  (forall k, d m !! k = match m !! k with Some r => if p r then None else Some r | None => None end) ->
  (forall t, keyed key t (d m) -> Q (Ok ()) (put t s)) ->
  (forall e t, keyed key t m -> Q (Err e) (put t s)) ->
  wp (on_table get put (delete_where p)) Q s.
Proof.
  intros H Hd H1 H2. apply wp_delete_where.
  - intros t Hp. apply H1. by eapply keyed_delete.
  - intros e t Hp. apply H2. by eapply keyed_perm.
Qed.

Lemma wp_keyed_delete_key m k (Q : DbResult unit -> S -> Prop) s :
  keyed key (get s) m ->
  (forall t, keyed key t (delete k m) -> Q (Ok ()) (put t s)) ->
  (forall e t, keyed key t m -> Q (Err e) (put t s)) ->
  wp (on_table get put (delete_where (has_key key k))) Q s.
Proof.
  intros H H1 H2. apply (wp_keyed_delete m _ (delete k)); [done| |done..]. intros k'.
  destruct (decide (k = k')) as [<-|Hne].
  - rewrite lookup_delete_eq. destruct (m !! k) as [r|] eqn:E; [|done].
    unfold has_key. by rewrite (keyed_key _ _ _ _ _ H E), String.eqb_refl.
  - rewrite lookup_delete_ne by done. destruct (m !! k') as [r|] eqn:E; [|done].
    unfold has_key. rewrite (keyed_key _ _ _ _ _ H E). by destruct (String.eqb_spec k' k) as [->|].
Qed.
End wp_keyed.

Section wp_more.
Context {S : Type}.

Lemma wp_ignore {A} (m : M S A) (Q : DbResult unit -> S -> Prop) s : wp m (fun _ s' => Q (Ok ()) s') s -> wp (ignore m) Q s.
Proof. done. Qed.

Lemma wp_atomically {A} (m : M S A) (Q : DbResult A -> S -> Prop) s :
  wp m (fun r s' => match r with Ok a => Q (Ok a) s' | Err e => Q (Err e) s end) s -> wp (atomically m) Q s.
Proof. unfold wp, atomically. destruct (m s) as [[a|e] s']; exact id. Qed.

Context {T R : Type} {ST : Single T R} (get : S -> T) (put : T -> S -> S).

Lemma wp_read_single (Q : DbResult (option R) -> S -> Prop) s :
  Q (Ok (single (get s))) s -> (forall e, Q (Err e) s) -> wp (read_from get read_single) Q s.
Proof.
  intros H1 H2. unfold wp, read_from. destruct (read_single (get s)) as [o|e] eqn:E; [|apply H2].
  by apply read_single_ok in E as ->.
Qed.

Lemma wp_create_single r (Q : DbResult unit -> S -> Prop) s :
  (forall t, single (get s) = None -> single t = Some r -> Q (Ok ()) (put t s)) ->
  (forall e t, single t = single (get s) -> Q (Err e) (put t s)) ->
  wp (on_table get put (create_single r)) Q s.
Proof.
  intros H1 H2. unfold wp, on_table. destruct (create_single r (get s)) as [o t] eqn:E. simpl.
  apply create_single_ok in E. destruct o as [[]|e]; [|by apply H2]. destruct E. by apply H1.
Qed.

Lemma wp_update_single (f : R -> R) (Q : DbResult (option (R * R)) -> S -> Prop) s :
  (forall b t, single (get s) = Some b -> single t = Some (f b) -> Q (Ok (Some (b, f b))) (put t s)) ->
  (forall t, single (get s) = None -> single t = None -> Q (Ok None) (put t s)) ->
  (forall e t, single t = single (get s) -> Q (Err e) (put t s)) ->
  wp (on_table get put (update_single f)) Q s.
Proof.
  intros H1 H2 H3. unfold wp, on_table. destruct (update_single f (get s)) as [o t] eqn:E. simpl.
  apply update_single_ok in E. destruct o as [[[b a]|]|e]; [| |by apply H3]; [|destruct E; by apply H2]. destruct E as (E1 & -> & E2). by apply H1.
Qed.
End wp_more.

(** ** A table kept as a list *)

(** A key longer than every key in use. *)
Fixpoint longer {R} (l : list (string * R)) : string :=
  match l with
  | [] => "k"
  | (k, _) :: l' =>
      let r := longer l' in
      if (String.length r <=? String.length k)%nat then String "k" k else r
  end.

Lemma longer_spec {R} (l : list (string * R)) k r :
  In (k, r) l -> (String.length k < String.length (longer l))%nat.
Proof.
  induction l as [|[k' r'] l IH]; simpl; [done|].
  intros [[= -> ->]|Hin%IH].
  - destruct (Nat.leb_spec (String.length (longer l)) (String.length k)); simpl; lia.
  - destruct (Nat.leb_spec (String.length (longer l)) (String.length k')); simpl; lia.
Qed.

(** The keys are distinct. *)
Record list_table (R : Type) := mkListTable {
  lt_rows : list (string * R);
  lt_keys : bool_decide (NoDup lt_rows.*1) = true;
}.
Arguments mkListTable {R} _ _.
Arguments lt_rows {R} _.
Arguments lt_keys {R} _.

(** Keep the rows if their keys are distinct, which they are at every use. *)
Definition lt_make {R} (l : list (string * R)) (d : list_table R) : list_table R :=
  match bool_decide (NoDup l.*1) as b return bool_decide (NoDup l.*1) = b -> list_table R with
  | true => fun H => mkListTable l H
  | false => fun _ => d
  end eq_refl.

Lemma lt_make_rows {R} (l : list (string * R)) d : NoDup l.*1 -> lt_rows (lt_make l d) = l.
Proof.
  intros H. unfold lt_make. generalize (eq_refl (bool_decide (NoDup l.*1))).
  generalize (bool_decide (NoDup l.*1)) at 2 3. intros [|] E; [done|].
  exfalso. by apply bool_decide_eq_false in E.
Qed.

Definition lt_empty {R} : list_table R := mkListTable [] eq_refl.

Section list_table_instance.
Context {R : Type}.

Definition lt_update (p : string -> R -> bool) (f : R -> R) (l : list (string * R)) :=
  map (fun kr => if p kr.1 kr.2 then (kr.1, f kr.2) else kr) l.

Lemma lt_NoDup (t : list_table R) : NoDup (lt_rows t).*1.
Proof. exact (bool_decide_eq_true_1 _ (lt_keys t)). Qed.

Lemma NoDup_filter_fst (p : string * R -> bool) l : NoDup l.*1 -> NoDup (List.filter p l).*1.
Proof.
  induction l as [|kr l IH]; simpl; [done|]. intros [Hn Hl]%NoDup_cons.
  destruct (p kr); [|auto]. cbn. constructor; [|auto]. intros Hin. apply Hn.
  apply list_elem_of_fmap in Hin as (y & -> & Hy).
  apply list_elem_of_fmap. exists y. split; [done|]. apply list_elem_of_In in Hy.
  apply filter_In in Hy as [Hy _]. by apply list_elem_of_In.
Qed.

Lemma lt_update_fst p f l : (lt_update p f l).*1 = l.*1.
Proof.
  induction l as [|kr l IH]; [done|]. cbn. f_equal; [by destruct (p kr.1 kr.2)|exact IH].
Qed.

#[export] Instance list_table_Table : Table (list_table R) R.
Proof.
  refine {|
    rows := lt_rows;
    select p le n t :=
      let all := sort_by (fun a b => le a.2 b.2) (List.filter (fun kr => p kr.2) (lt_rows t)) in
      Ok (from_option (fun n => take n all) all n);
    select_key k t := Ok (snd <$> find (fun kr => String.eqb kr.1 k) (lt_rows t));
    create r t := let k := longer (lt_rows t) in
      (Ok (Some (k, r)), lt_make ((k, r) :: lt_rows t) t);
    delete_where p t := (Ok (), lt_make (List.filter (fun kr => negb (p kr.2)) (lt_rows t)) t);
    delete_key k t := (Ok (), lt_make (List.filter (fun kr => negb (String.eqb kr.1 k)) (lt_rows t)) t);
    update_where p f t :=
      (Ok (map (fun kr => (kr.1, f kr.2)) (List.filter (fun kr => p kr.1 kr.2) (lt_rows t))),
       lt_make (lt_update p f (lt_rows t)) t);
  |}.
  - apply lt_NoDup.
  - intros p le n t l [= <-] Htot Htrans. eexists. split_and!; [apply sort_by_perm| |done].
    apply sort_by_sorted; eauto.
  - intros k t o [= <-] r. split.
    + intros (x & [Hin Hk%String.eqb_eq]%find_some & ->)%fmap_Some. destruct x as [k' r']; simpl in *. by subst.
    + intros Hin. destruct (find _ _) as [[k' r']|] eqn:E.
      * apply find_some in E as [Hin' Hk%String.eqb_eq]. simpl in *. subst k'. f_equal.
        apply list_elem_of_In in Hin, Hin'. pose proof (lt_NoDup t) as Hnd.
        apply list_elem_of_lookup in Hin as [i Hi], Hin' as [j Hj].
        assert (i = j) as ->.
        { eapply (NoDup_lookup _ i j k Hnd); rewrite list_lookup_fmap; [by rewrite Hi|by rewrite Hj]. }
        congruence.
      * by apply (find_none _ _ E) in Hin; simpl in Hin; rewrite String.eqb_refl in Hin.
  - intros r t o t' [= <- <-].
    assert (longer (lt_rows t) ∉ (lt_rows t).*1) as Hf.
    { intros ([k x] & E & Hin)%list_elem_of_fmap. simpl in E. apply list_elem_of_In in Hin.
      apply longer_spec in Hin. rewrite E in Hin. lia. }
    split_and!; [done|done|]. rewrite lt_make_rows; [done|]. constructor; [done|apply lt_NoDup].
  - intros p t o t' [= <- <-]. rewrite lt_make_rows; [done|]. apply NoDup_filter_fst, lt_NoDup.
  - intros k t o t' [= <- <-]. rewrite lt_make_rows; [done|]. apply NoDup_filter_fst, lt_NoDup.
  - intros p f t o t' [= <- <-]. rewrite lt_make_rows; [done|]. rewrite lt_update_fst. apply lt_NoDup.
Defined.

#[export] Instance list_table_Total : TotalTable (list_table R) R.
Proof. split; intros; [by eexists|by do 2 eexists|by eexists|by eexists|by eexists|by do 2 eexists]. Qed.
End list_table_instance.
