(* ===== verification/Dhcp.v ===== *)
(** * DHCP: data, validation and address allocation

    Models [crates/magnetite-core/src/domains/dhcp/model.rs] and [validate.rs]
    (pools, reservations, leases and their write-time checks) and
    [crates/magnetite-dhcp/src/alloc.rs] (the allocation policy of the embedded
    server and its split-scope partitions).  Timestamps are [Z]; IPv4 addresses
    are [Z] below [2^32]. *)

From S2P Require Import Prelude Bytes RustStr RustNet.

(** ** Data *)

Record Pool := mkPool {
  pool_id : string;
  pool_created_at : Z;
  pool_updated_at : Z;
  pool_created_by : string;
  pool_name : string;
  subnet_v4 : option string;
  range_start_v4 : option string;
  range_end_v4 : option string;
  subnet_v6 : option string;
  range_start_v6 : option string;
  range_end_v6 : option string;
  gateway : option string;
  dns_servers : list string;
  domain_name : option string;
  lease_duration_secs : option Z;
  pool_enabled : bool;
}.

Record Reservation := mkReservation {
  res_id : string;
  res_created_at : Z;
  res_updated_at : Z;
  res_created_by : string;
  res_pool_ref : string;
  res_mac_address : string;
  res_ip_address : string;
  res_hostname : option string;
  res_description : option string;
}.

Inductive LeaseState := Active | Offered | Expired | Released.

#[export] Instance LeaseState_eq_dec : EqDecision LeaseState.
Proof. solve_decision. Defined.

Definition LeaseState_as_str (s : LeaseState) : string :=
  match s with
  | Active => "active"
  | Offered => "offered"
  | Expired => "expired"
  | Released => "released"
  end.

Definition LeaseState_from_str (value : string) : option LeaseState :=
  if String.eqb value "active" then Some Active
  else if String.eqb value "offered" then Some Offered
  else if String.eqb value "expired" then Some Expired
  else if String.eqb value "released" then Some Released
  else None.

Definition is_releasable (s : LeaseState) : bool :=
  match s with Active | Offered => true | _ => false end.

Inductive ProtoVer := ProtoV4 | ProtoV6.

#[export] Instance ProtoVer_eq_dec : EqDecision ProtoVer.
Proof. solve_decision. Defined.

Record Lease := mkLease {
  lease_id : string;
  lease_created_at : Z;
  lease_updated_at : Z;
  lease_created_by : string;
  lease_pool_ref : string;
  lease_ip_address : string;
  lease_mac_address : option string;
  lease_client_id : option string;
  lease_hostname : option string;
  lease_state : LeaseState;
  lease_start : Z;
  lease_expiry : Z;
  lease_last_renewal : option Z;
  lease_protocol_version : ProtoVer;
}.

Definition is_active_at (l : Lease) (now : Z) : bool :=
  bool_decide (lease_state l = Active) && (now <? lease_expiry l).

Record DhcpConfig := mkDhcpConfig {
  v4_enabled : bool;
  v6_enabled : bool;
  default_lease_secs : Z;
  max_lease_secs : option Z;
  default_dns_servers : list string;
  default_domain_name : option string;
  authoritative : bool;
}.

Definition DhcpConfig_default : DhcpConfig := mkDhcpConfig true false 86400 None [] None true.

(** ** Validation *)

(** The user-facing messages of [validate.rs]. *)
Inductive pool_error := MSG_NAME | MSG_IP | MSG_RANGE_ORDER | MSG_CIDR | MSG_LEASE_SECS
  | MSG_NO_RANGE | MSG_MAC.

#[export] Instance pool_error_eq_dec : EqDecision pool_error.
Proof. solve_decision. Defined.

Definition is_mac_separator (c : ascii) : bool :=
  Ascii.eqb c ":" || Ascii.eqb c "-" || Ascii.eqb c ".".

Definition normalize_mac (mac : string) : option string :=
  let hex := str_filter (fun c => negb (is_mac_separator c)) mac in
  if negb (String.length hex =? 12)%nat || negb (str_forallb is_ascii_hexdigit hex) then None
  else
    let lower := to_ascii_lowercase hex in
    Some (join ":" (map (fun i => String.substring (i * 2) 2 lower) (seq 0 6))).

Definition is_ip (value : string) : bool :=
  bool_decide (is_Some (parse_ipv4 value)) || bool_decide (is_Some (parse_ipv6 value)).

Definition is_cidr (value : string) : bool :=
  match split_once "/" value with
  | None => false
  | Some (addr, prefix) =>
      match parse_u32 prefix with
      | None => false
      | Some prefix =>
          if bool_decide (is_Some (parse_ipv4 addr)) then prefix <=? 32
          else if bool_decide (is_Some (parse_ipv6 addr)) then prefix <=? 128
          else false
      end
  end.

Definition v4_range (pool : Pool) : option (Z * Z) :=
  start ← range_start_v4 pool ≫= parse_ipv4;
  end_ ← range_end_v4 pool ≫= parse_ipv4;
  Some (start, end_).

Definition v6_range (pool : Pool) : option (Z * Z) :=
  start ← range_start_v6 pool ≫= parse_ipv6;
  end_ ← range_end_v6 pool ≫= parse_ipv6;
  Some (start, end_).

Definition intervals_overlap (a b : Z * Z) : bool := (a.1 <=? b.2) && (b.1 <=? a.2).

(** [.as_deref().filter(|s| !s.is_empty())]. *)
Definition non_empty (o : option string) : option string :=
  match o with
  | Some s => if is_empty s then None else Some s
  | None => None
  end.

Definition check_family (start end_ : option string) : pool_error + unit :=
  match non_empty start, non_empty end_ with
  | None, None => inr ()
  | Some _, None | None, Some _ => inl MSG_IP
  | Some s, Some e =>
      match parse_ipv4 s, parse_ipv4 e with
      | Some s4, Some e4 => if s4 <=? e4 then inr () else inl MSG_RANGE_ORDER
      | _, _ =>
          match parse_ipv6 s, parse_ipv6 e with
          | Some s6, Some e6 => if s6 <=? e6 then inr () else inl MSG_RANGE_ORDER
          | _, _ => inl MSG_IP
          end
      end
  end.

Definition check_pool (pool : Pool) : pool_error + unit :=
  if is_empty (trim (pool_name pool)) then inl MSG_NAME
  else if is_some_and (fun c => negb (is_cidr c)) (non_empty (subnet_v4 pool)) then inl MSG_CIDR
  else if is_some_and (fun c => negb (is_cidr c)) (non_empty (subnet_v6 pool)) then inl MSG_CIDR
  else
    match check_family (range_start_v4 pool) (range_end_v4 pool) with
    | inl e => inl e
    | inr _ =>
        match check_family (range_start_v6 pool) (range_end_v6 pool) with
        | inl e => inl e
        | inr _ =>
            match v4_range pool, v6_range pool with
            | None, None => inl MSG_NO_RANGE
            | _, _ =>
                if is_some_and (fun g => negb (is_ip g)) (non_empty (gateway pool)) then inl MSG_IP
                else if existsb (fun s => negb (is_empty s) && negb (is_ip s)) (dns_servers pool)
                then inl MSG_IP
                else if is_some_and (fun secs => secs =? 0) (lease_duration_secs pool)
                then inl MSG_LEASE_SECS
                else inr ()
            end
        end
    end.

Definition check_reservation_fields (mac ip : string) : pool_error + unit :=
  match normalize_mac mac with
  | None => inl MSG_MAC
  | Some _ => if negb (is_ip ip) then inl MSG_IP else inr ()
  end.

Definition ip_in_pool_v4 (pool : Pool) (ip : string) : bool :=
  match parse_ipv4 ip, v4_range pool with
  | Some n, Some (start, end_) => (start <=? n) && (n <=? end_)
  | _, _ => false
  end.

(** ** Allocation *)

Definition mac_eq (a b : string) : bool :=
  match normalize_mac a, normalize_mac b with
  | Some x, Some y => String.eqb x y
  | _, _ => eq_ignore_ascii_case a b
  end.

Record PoolPartition := mkPoolPartition { index : Z; count : Z }.

(** [u32::try_from]. *)
Definition try_u32 (z : Z) : option Z := if z <=? U32_MAX then Some z else None.

(** The additions are on [u32], so they wrap. *)
Definition slice (p : PoolPartition) (start end_ : Z) : Z * Z :=
  if (count p <=? 1) || (count p <=? index p) || (end_ <? start) then (start, end_)
  else
    let total := (end_ - start) + 1 in
    let size := total / count p in
    if size =? 0 then (start, end_)
    else
      let node_start := u32 (start + unwrap_or 0 (try_u32 (u64 (index p * size)))) in
      let node_end :=
        if index p =? count p - 1 then end_
        else u32 (u32 (node_start + unwrap_or 0 (try_u32 size)) - 1) in
      (node_start, node_end).

Definition holds_address (l : Lease) : bool :=
  match lease_state l with Active | Offered => true | _ => false end.

(** [l.mac_address.as_deref().map(|m| mac_eq(m, mac))], with what [None] gives. *)
Definition lease_of (mac : string) (none : bool) (l : Lease) : bool :=
  match lease_mac_address l with Some m => mac_eq m mac | None => none end.

Definition reserved_set (reservations : list Reservation) : gset Z :=
  list_to_set (filter_map (fun r => parse_ipv4 (res_ip_address r)) reservations).

Definition held_by_other_set (leases : list Lease) (mac : string) : gset Z :=
  list_to_set
    (filter_map (fun l => parse_ipv4 (lease_ip_address l))
       (List.filter (fun l => negb (lease_of mac false l)) (List.filter holds_address leases))).

Definition ip_in_range (ip start end_ : Z) : bool := (start <=? ip) && (ip <=? end_).

(** 2. The client's current lease, if still in range and not reserved. *)
Definition reuse_lease (reserved : gset Z) (leases : list Lease) (mac : string) (start end_ : Z)
  : option Z :=
  match find (lease_of mac false) (List.filter holds_address leases) with
  | Some l =>
      match parse_ipv4 (lease_ip_address l) with
      | Some n => if ip_in_range n start end_ && negb (bool_decide (n ∈ reserved)) then Some n else None
      | None => None
      end
  | None => None
  end.

(** An address nobody else has. *)
Definition free (reserved held_by_other : gset Z) (n : Z) : bool :=
  negb (bool_decide (n ∈ reserved)) && negb (bool_decide (n ∈ held_by_other)).

(** 3. The requested address, if in range and free. *)
Definition honour_request (reserved held_by_other : gset Z) (requested : option Z) (start end_ : Z)
  : option Z :=
  match requested with
  | Some n => if ip_in_range n start end_ && free reserved held_by_other n then Some n else None
  | None => None
  end.

(** 4. The first free address of this node's slice. *)
Definition first_free (reserved held_by_other : gset Z) (partition : option PoolPartition)
    (start end_ : Z) : option Z :=
  let range := from_option (fun p => slice p start end_) (start, end_) partition in
  find (free reserved held_by_other) (seqZ range.1 (range.2 - range.1 + 1)).

Definition allocate_ip (pool : Pool) (reservations : list Reservation) (leases : list Lease)
    (mac : string) (requested : option Z) (partition : option PoolPartition) : option Z :=
  match find (fun r => mac_eq (res_mac_address r) mac) reservations ≫=
        (fun r => parse_ipv4 (res_ip_address r)) with
  | Some ip => Some ip
  | None =>
      match v4_range pool with
      | None => None
      | Some (start, end_) =>
          if end_ <? start then None
          else
            let reserved := reserved_set reservations in
            let held_by_other := held_by_other_set leases mac in
            match reuse_lease reserved leases mac start end_ with
            | Some ip => Some ip
            | None =>
                match honour_request reserved held_by_other requested start end_ with
                | Some ip => Some ip
                | None => first_free reserved held_by_other partition start end_
                end
            end
      end
  end.

(** ** MAC addresses *)

Lemma ascii_lower_facts c :
  is_mac_separator (ascii_lower c) = is_mac_separator c /\
  is_ascii_hexdigit (ascii_lower c) = is_ascii_hexdigit c /\
  (is_ascii_hexdigit c = true -> is_mac_separator c = false).
Proof. destruct c as [[] [] [] [] [] [] [] []]; vm_compute; auto. Qed.

Lemma str_filter_lower s :
  str_filter (fun c => negb (is_mac_separator c)) (to_ascii_lowercase s) =
  to_ascii_lowercase (str_filter (fun c => negb (is_mac_separator c)) s).
Proof.
  induction s as [|c s IH]; [done|]. cbn. destruct (ascii_lower_facts c) as (-> & _ & _).
  fold (to_ascii_lowercase s). rewrite IH. by destruct (is_mac_separator c).
Qed.

Lemma str_forallb_lower s :
  str_forallb is_ascii_hexdigit (to_ascii_lowercase s) = str_forallb is_ascii_hexdigit s.
Proof.
  induction s as [|c s IH]; [done|]. cbn. destruct (ascii_lower_facts c) as (_ & -> & _).
  fold (to_ascii_lowercase s). by rewrite IH.
Qed.

Lemma normalize_mac_lower a : normalize_mac (to_ascii_lowercase a) = normalize_mac a.
Proof.
  unfold normalize_mac.
  by rewrite str_filter_lower, to_ascii_lowercase_length, str_forallb_lower, to_ascii_lowercase_idem.
Qed.

(** A normalised address is six pairs of lower-case digits, and normalises to
    itself. *)
Lemma normalize_mac_idem a m : normalize_mac a = Some m -> normalize_mac m = Some m.
Proof.
  unfold normalize_mac at 1. set (hex := str_filter _ a).
  destruct (String.length hex =? 12)%nat eqn:El; [|done]. apply Nat.eqb_eq in El. simpl negb.
  destruct (str_forallb is_ascii_hexdigit hex) eqn:Eh; [|done]. intros [= <-].
  clearbody hex. rewrite <- str_forallb_lower in Eh. rewrite <- to_ascii_lowercase_length in El.
  rewrite <- (to_ascii_lowercase_idem hex). set (low := to_ascii_lowercase hex) in *.
  assert (to_ascii_lowercase low = low) as Hl by apply to_ascii_lowercase_idem. clearbody low. 
  pose proof Eh as Eall. do 12 (destruct low as [|? low]; [done|]). destruct low; [|done].
  cbn [str_forallb] in Eh. repeat (apply andb_true_iff in Eh as [? Eh]).
  match type of Hl with _ = ?l => set (low := l) in * end.
  match goal with |- normalize_mac ?x = _ => set (m := x) end.
  assert (str_filter (fun c => negb (is_mac_separator c)) m = low) as E.
  { subst m low. rewrite Hl. cbn [join map seq Nat.mul Nat.add String.substring String.append].
    repeat (cbn [str_filter]; match goal with
      | |- context [is_mac_separator ?c] =>
          first [ change (is_mac_separator c) with true
                | rewrite (proj2 (proj2 (ascii_lower_facts c))) by assumption ]
      end; cbn [negb]). done. }
  unfold normalize_mac. rewrite E. subst low. cbn [String.length Nat.eqb negb orb].
  rewrite Eall. cbn [negb orb]. subst m. by rewrite Hl.
Qed.

(** What [mac_eq] compares. *)
Definition mac_key (a : string) : string :=
  match normalize_mac a with Some m => m | None => to_ascii_lowercase a end.

Lemma mac_eq_key a b : mac_eq a b = true <-> mac_key a = mac_key b.
Proof.
  unfold mac_eq, mac_key.
  destruct (normalize_mac a) as [x|] eqn:Ea, (normalize_mac b) as [y|] eqn:Eb;
    rewrite ?String.eqb_eq, ?eq_ignore_ascii_case_iff; [done| | |done].
  - split; intros H; exfalso; rewrite <- normalize_mac_lower in Ea, Eb.
    + congruence.
    + apply normalize_mac_idem in Ea. congruence.
  - split; intros H; exfalso; rewrite <- normalize_mac_lower in Ea, Eb.
    + congruence.
    + apply normalize_mac_idem in Eb. congruence.
Qed.

Lemma mac_eq_refl a : mac_eq a a = true.
Proof. by apply mac_eq_key. Qed.

#[export] Instance mac_same_equiv : Equivalence (fun a b => mac_eq a b = true).
Proof.
  split.
  - intros a. apply mac_eq_refl.
  - intros a b. rewrite !mac_eq_key. done.
  - intros a b c. rewrite !mac_eq_key. congruence.
Qed.

(** MAC comparison is an equivalence that ignores separators and case:
    two strings compare equal exactly when their normal forms (or, for strings
    that are not MAC addresses, their lower-case forms) coincide, and a normal
    form is its own normal form. *)
Theorem mac_eq_normal_form :
  (forall a b, mac_eq a b = true <-> mac_key a = mac_key b) /\
  (forall a m, normalize_mac a = Some m -> normalize_mac m = Some m /\ mac_eq a m = true).
Proof.
  split; [apply mac_eq_key|]. intros a m H. split; [by eapply normalize_mac_idem|].
  apply mac_eq_key. unfold mac_key. rewrite H. by rewrite (normalize_mac_idem _ _ H).
Qed.

(** ** Split scope *)

Section partition.
Context (c start end_ : Z).
Hypothesis Hrange : 0 <= start <= end_ /\ end_ < 2 ^ 32.
Hypothesis Hcount : 1 < c <= end_ - start + 1.

Let size := (end_ - start + 1) / c.

Lemma slice_size : 1 <= size /\ c * size <= end_ - start + 1 < 2 * c * size.
Proof.
  assert (1 <= size) by (subst size; apply Z.div_le_lower_bound; lia).
  pose proof (Z.div_mod (end_ - start + 1) c) as E. fold size in E.
  pose proof (Z.mod_pos_bound (end_ - start + 1) c). nia.
Qed.

(** No addition of [slice] wraps. *)
Lemma slice_eq i : 0 <= i < c ->
  slice (mkPoolPartition i c) start end_ =
  (start + i * size, if i =? c - 1 then end_ else start + (i + 1) * size - 1).
Proof.
  intros Hi. pose proof slice_size as [Hs Hb]. unfold slice; simpl. fold size.
  rewrite (proj2 (Z.leb_gt c 1)), (proj2 (Z.leb_gt c i)), (proj2 (Z.ltb_ge end_ start)),
    (proj2 (Z.eqb_neq size 0)) by lia. simpl.
  assert (0 <= i * size) by nia. assert ((i + 1) * size <= c * size) by nia.
  assert (forall x, 0 <= x < 2 ^ 32 -> try_u32 x = Some x) as T
    by (intros x Hx; unfold try_u32, U32_MAX; by rewrite (proj2 (Z.leb_le _ _)) by lia).
  unfold u64. rewrite (Z.mod_small (i * size)) by lia. rewrite !T by lia. simpl. unfold u32.
  rewrite (Z.mod_small (start + i * size)) by lia.
  destruct (Z.eqb_spec i (c - 1)); [done|].
  rewrite (Z.mod_small (start + i * size + size)) by nia. rewrite Z.mod_small by nia. f_equal. lia.
Qed.

Lemma slice_order i j : 0 <= i < c -> 0 <= j < c -> i <> j ->
  (slice (mkPoolPartition i c) start end_).2 < (slice (mkPoolPartition j c) start end_).1 \/
  (slice (mkPoolPartition j c) start end_).2 < (slice (mkPoolPartition i c) start end_).1.
Proof.
  intros Hi Hj Hij. pose proof slice_size as [Hs Hb]. rewrite !slice_eq by lia. simpl.
  destruct (Z.lt_ge_cases i j).
  - left. rewrite (proj2 (Z.eqb_neq i (c - 1))) by lia. nia.
  - right. rewrite (proj2 (Z.eqb_neq j (c - 1))) by lia. nia.
Qed.

(** the slices of the servers that share a pool partition its range:
    each lies inside the range, slices of different servers are disjoint, and
    every address belongs to one. *)
Theorem slices_partition :
  (forall i, 0 <= i < c -> let s := slice (mkPoolPartition i c) start end_ in
     start <= s.1 <= s.2 /\ s.2 <= end_) /\
  (forall i j, 0 <= i < j -> j < c ->
     (slice (mkPoolPartition i c) start end_).2 < (slice (mkPoolPartition j c) start end_).1) /\
  (forall n, start <= n <= end_ -> exists i, 0 <= i < c /\
     let s := slice (mkPoolPartition i c) start end_ in s.1 <= n <= s.2).
Proof.
  pose proof slice_size as [Hs Hb]. split_and!.
  - intros i Hi s. subst s. rewrite slice_eq by done. simpl.
    assert (0 <= i * size) by nia. assert ((i + 1) * size <= c * size) by nia.
    destruct (Z.eqb_spec i (c - 1)); nia.
  - intros i j Hi Hj. rewrite !slice_eq by lia. simpl.
    rewrite (proj2 (Z.eqb_neq i (c - 1))) by lia. nia.
  - intros n Hn. exists (Z.min ((n - start) / size) (c - 1)).
    assert (0 <= (n - start) / size) by (apply Z.div_pos; lia).
    split; [lia|]. rewrite slice_eq by lia. simpl.
    pose proof (Z.div_mod (n - start) size). pose proof (Z.mod_pos_bound (n - start) size).
    destruct (Z.le_gt_cases (c - 1) ((n - start) / size)).
    + rewrite Z.min_r, Z.eqb_refl by lia. nia.
    + rewrite Z.min_l, (proj2 (Z.eqb_neq _ _)) by lia. nia.
Qed.
End partition.

Lemma slices_partition_witness :
  (slice (mkPoolPartition 0 3) 3221225994 3221226003).2 < (slice (mkPoolPartition 2 3) 3221225994 3221226003).1.
Proof.
  destruct (slices_partition 3 3221225994 3221226003) as (_ & H & _); [lia|lia|]. apply H; lia.
Defined.

(** ** Allocation *)

(** [r] reserves the address [ip] for [mac]. *)
Definition reserves (reservations : list Reservation) (mac : string) (ip : Z) : Prop :=
  exists r, In r reservations /\ mac_eq (res_mac_address r) mac = true /\
            parse_ipv4 (res_ip_address r) = Some ip.

(** Whoever holds [ip] among the leases is the client [mac]. *)
Definition held_only_by (leases : list Lease) (mac : string) (ip : Z) : Prop :=
  forall l, In l leases -> holds_address l = true -> parse_ipv4 (lease_ip_address l) = Some ip ->
    exists m, lease_mac_address l = Some m /\ mac_eq m mac = true.

(** No two leases for one address; the store keeps this. *)
Definition one_lease_per_ip (leases : list Lease) : Prop :=
  forall l1 l2, In l1 leases -> In l2 leases ->
    lease_ip_address l1 = lease_ip_address l2 -> lease_mac_address l1 = lease_mac_address l2.

Lemma elem_of_reserved_set reservations n :
  n ∈ reserved_set reservations <->
  exists r, In r reservations /\ parse_ipv4 (res_ip_address r) = Some n.
Proof. unfold reserved_set. rewrite elem_of_list_to_set, list_elem_of_In. apply filter_map_In. Qed.

Lemma lease_of_true mac l :
  lease_of mac false l = true <-> exists m, lease_mac_address l = Some m /\ mac_eq m mac = true.
Proof. unfold lease_of. destruct (lease_mac_address l); naive_solver. Qed.

Lemma elem_of_held_by_other leases mac n :
  n ∉ held_by_other_set leases mac <-> held_only_by leases mac n.
Proof.
  unfold held_by_other_set. rewrite elem_of_list_to_set, list_elem_of_In, filter_map_In.
  unfold held_only_by. split.
  - intros H l Hl Hh Hp. apply lease_of_true. destruct (lease_of mac false l) eqn:E; [done|].
    destruct H. exists l. rewrite !filter_In, E. auto.
  - intros H (l & Hl & Hp). rewrite !filter_In in Hl. destruct Hl as [[Hl Hh] Hn].
    destruct (proj2 (lease_of_true mac l) (H l Hl Hh Hp)). by rewrite andb_false_r in Hn || destruct (lease_of mac false l).
Qed.

Lemma free_true reserved held n : free reserved held n = true <-> n ∉ reserved /\ n ∉ held.
Proof.
  unfold free. rewrite andb_true_iff, !negb_true_iff, !bool_decide_eq_false. done.
Qed.

Lemma slice_within p start end_ : is_u32 start -> is_u32 end_ -> start <= end_ -> 0 <= index p ->
  start <= (slice p start end_).1 /\ (slice p start end_).2 <= end_ /\
  (slice p start end_).1 <= (slice p start end_).2.
Proof.
  intros Hs He Hle Hi. unfold is_u32 in *. destruct p as [i c]. simpl in Hi.
  destruct (decide (1 < c <= end_ - start + 1 /\ i < c)) as [[Hc Hic]|Hno].
  - pose proof (slice_size c start end_ ltac:(lia) Hc) as [Hz Hb].
    rewrite slice_eq by lia. simpl. assert ((i + 1) * ((end_ - start + 1) / c) <= c * ((end_ - start + 1) / c)) by nia.
    assert (0 <= i * ((end_ - start + 1) / c)) by nia.
    destruct (Z.eqb_spec i (c - 1)); nia.
  - unfold slice. simpl. destruct (Z.leb_spec c 1); simpl; [lia|].
    destruct (Z.leb_spec c i); simpl; [lia|]. destruct (Z.ltb_spec end_ start); [lia|]. simpl.
    assert ((end_ - start + 1) / c = 0) as -> by (apply Z.div_small; lia). simpl. lia.
Qed.

Definition partition_ok (partition : option PoolPartition) : Prop :=
  forall p, partition = Some p -> 0 <= index p.

Lemma range_within partition start end_ : is_u32 start -> is_u32 end_ -> start <= end_ ->
  partition_ok partition ->
  let r := from_option (fun p => slice p start end_) (start, end_) partition in
  start <= r.1 <= r.2 /\ r.2 <= end_.
Proof.
  intros Hs He Hle Hp. destruct partition as [p|]; simpl; [|lia].
  pose proof (slice_within p start end_ Hs He Hle (Hp p eq_refl)). lia.
Qed.

Lemma v4_range_bound pool s e : v4_range pool = Some (s, e) -> is_u32 s /\ is_u32 e.
Proof.
  unfold v4_range. destruct (range_start_v4 pool ≫= parse_ipv4) as [a|] eqn:Ea; [|done].
  destruct (range_end_v4 pool ≫= parse_ipv4) as [b|] eqn:Eb; [|done]. intros [= <- <-].
  apply bind_Some in Ea as (? & _ & ?%parse_ipv4_bound).
  by apply bind_Some in Eb as (? & _ & ?%parse_ipv4_bound).
Qed.

Lemma allocate_ip_spec pool reservations leases mac requested partition ip :
  one_lease_per_ip leases -> partition_ok partition ->
  allocate_ip pool reservations leases mac requested partition = Some ip ->
  reserves reservations mac ip \/
  (exists s e, v4_range pool = Some (s, e) /\ s <= ip <= e) /\
  (forall r, In r reservations -> parse_ipv4 (res_ip_address r) <> Some ip) /\
  held_only_by leases mac ip.
Proof.
  intros Hone Hpart. unfold allocate_ip.
  destruct (find _ reservations ≫= _) as [n|] eqn:E1.
  - intros [= ->]. left. apply bind_Some in E1 as (r & [Hr Hm]%find_some & Hp). by exists r.
  - destruct (v4_range pool) as [[s e]|] eqn:Er; [|done].
    destruct (Z.ltb_spec e s); [done|]. destruct (v4_range_bound _ _ _ Er) as [Bs Be].
    assert (forall n, s <= n <= e -> n ∉ reserved_set reservations -> held_only_by leases mac n ->
      (exists s0 e0, Some (s, e) = Some (s0, e0) /\ s0 <= n <= e0) /\
      (forall r, In r reservations -> parse_ipv4 (res_ip_address r) <> Some n) /\
      held_only_by leases mac n) as Hdone.
    { intros n Hn Hres Hh. split_and!; [by exists s, e| |done]. intros r Hr Hp.
      apply Hres, elem_of_reserved_set. by exists r. }
    intros H'. right. revert H'. destruct (reuse_lease _ _ _ _ _) as [n|] eqn:E2.
    + intros [= ->]. unfold reuse_lease in E2.
      destruct (find (lease_of mac false) _) as [l|] eqn:El; [|done]. apply find_some in El as [[Hl Hh]%filter_In Hm].
      destruct (parse_ipv4 (lease_ip_address l)) as [n|] eqn:Hp; [|done].
      destruct (ip_in_range n s e && _) eqn:Ei; [|done]. injection E2 as ->.
      unfold ip_in_range in Ei. to_prop. apply Hdone; [lia|done|].
      intros l' Hl' Hh' Hp'. apply lease_of_true in Hm. rewrite <- (Hone l l'); [done..|].
      apply parse_ipv4_canonical in Hp, Hp'. congruence.
    + destruct (honour_request _ _ _ _ _) as [n|] eqn:E3.
      * intros [= ->]. unfold honour_request in E3. destruct requested as [n|]; [|done].
        destruct (ip_in_range n s e && _) eqn:Ei; [|done]. injection E3 as ->.
        unfold ip_in_range in Ei. apply andb_true_iff in Ei as [Ei [Hr Hh]%free_true].
        to_prop. apply Hdone; [lia|done|]. by apply elem_of_held_by_other.
      * unfold first_free. intros [Hin [Hr Hh]%free_true]%find_some.
        pose proof (range_within partition s e Bs Be ltac:(lia) Hpart) as Hw. simpl in Hw.
        apply list_elem_of_In, elem_of_seqZ in Hin. apply Hdone; [lia|done|].
        by apply elem_of_held_by_other.
Qed.

(** A client that has just been given [ip], and whose newest lease is for it, is
    given [ip] again whatever it requests. *)
Lemma allocate_ip_again pool reservations leases mac requested requested' partition partition' ip l rest :
  partition_ok partition ->
  allocate_ip pool reservations leases mac requested partition = Some ip ->
  holds_address l = true -> lease_mac_address l = Some mac -> lease_ip_address l = ipv4_to_string ip ->
  allocate_ip pool reservations (l :: rest) mac requested' partition' = Some ip.
Proof.
  intros Hpart Ha Hh Hm Hip. unfold allocate_ip in *.
  destruct (find _ reservations ≫= _) as [n|] eqn:E1; [done|].
  destruct (v4_range pool) as [[s e]|] eqn:Er; [|done].
  destruct (Z.ltb_spec e s); [done|]. destruct (v4_range_bound _ _ _ Er) as [Bs Be].
  assert (s <= ip <= e /\ ip ∉ reserved_set reservations) as [Hr Hres].
  { destruct (reuse_lease _ _ _ _ _) as [n|] eqn:E2.
    - injection Ha as ->. unfold reuse_lease in E2.
      destruct (find (lease_of mac false) _) as [l'|]; [|done].
      destruct (parse_ipv4 _) as [n|]; [|done].
      destruct (ip_in_range n s e && _) eqn:Ei; [|done]. injection E2 as ->.
      unfold ip_in_range in Ei. to_prop. split; [lia|done].
    - destruct (honour_request _ _ _ _ _) as [n|] eqn:E3.
      + injection Ha as ->. unfold honour_request in E3. destruct requested as [n|]; [|done].
        destruct (ip_in_range n s e && _) eqn:Ei; [|done]. injection E3 as ->.
        unfold ip_in_range in Ei. apply andb_true_iff in Ei as [Ei [Hr _]%free_true]. to_prop. split; [lia|done].
      + unfold first_free in Ha. apply find_some in Ha as [Hin [Hr _]%free_true].
        pose proof (range_within partition s e Bs Be ltac:(lia) Hpart) as Hw. simpl in Hw.
        apply list_elem_of_In, elem_of_seqZ in Hin. split; [lia|done]. }
  assert (reuse_lease (reserved_set reservations) (l :: rest) mac s e = Some ip) as ->; [|done].
  unfold reuse_lease. simpl. rewrite Hh. simpl. unfold lease_of at 1. rewrite Hm, mac_eq_refl, Hip.
  rewrite parse_print_ipv4 by (unfold is_u32 in *; lia). unfold ip_in_range.
  rewrite !(proj2 (Z.leb_le _ _)) by lia. by rewrite bool_decide_eq_false_2.
Qed.

(** what the allocator hands out is safe.  The address is the one
    reserved for the client, or else it lies in the pool's range, is reserved for
    nobody, and no other client holds it by an active or offered lease. *)
Theorem allocate_ip_safe pool reservations leases mac requested partition ip :
  one_lease_per_ip leases -> partition_ok partition ->
  allocate_ip pool reservations leases mac requested partition = Some ip ->
  reserves reservations mac ip \/
  (exists s e, v4_range pool = Some (s, e) /\ s <= ip <= e) /\
  (forall r, In r reservations -> parse_ipv4 (res_ip_address r) <> Some ip) /\
  held_only_by leases mac ip.
Proof. apply allocate_ip_spec. Qed.

(** the allocator does not give up early.  If this node's slice of the
    pool's range holds an address that is reserved for nobody and not held by
    another client, the client gets an address. *)
Theorem allocate_ip_complete pool reservations leases mac requested partition s e n :
  v4_range pool = Some (s, e) -> s <= e ->
  (let r := from_option (fun p => slice p s e) (s, e) partition in r.1 <= n <= r.2) ->
  (forall r, In r reservations -> parse_ipv4 (res_ip_address r) <> Some n) ->
  held_only_by leases mac n ->
  is_Some (allocate_ip pool reservations leases mac requested partition).
Proof.
  intros Hrange Hle Hn Hres Hheld. unfold allocate_ip.
  destruct (find _ reservations ≫= _); [done|]. rewrite Hrange, (proj2 (Z.ltb_ge _ _)) by done.
  destruct (reuse_lease _ _ _ _ _); [done|]. destruct (honour_request _ _ _ _ _); [done|].
  unfold first_free. destruct (find _ _) eqn:E; [done|].
  assert (free (reserved_set reservations) (held_by_other_set leases mac) n = false) as Hf.
  { apply (find_none _ _ E). apply list_elem_of_In, elem_of_seqZ. simpl in Hn. lia. }
  assert (free (reserved_set reservations) (held_by_other_set leases mac) n = true); [|congruence].
  apply free_true. split; [|by apply elem_of_held_by_other].
  intros (r & Hr & Hp)%elem_of_reserved_set. by eapply Hres.
Qed.

Definition sample_pool : Pool :=
  mkPool "p" 0 0 "admin" "lan" (Some "192.0.2.0/24") (Some "192.0.2.10") (Some "192.0.2.19")
    None None None (Some "192.0.2.1") [] None (Some 3600) true.

Definition sample_lease (ip mac : string) (st : LeaseState) : Lease :=
  mkLease "l" 0 0 "dhcp" "p" ip (Some mac) None None st 0 3600 None ProtoV4.

Lemma allocate_ip_safe_witness :
  let leases := [sample_lease "192.0.2.10" "aa:00:00:00:00:01" Active] in
  reserves [] "aa:00:00:00:00:02" 3221225995 \/
  (exists s e, v4_range sample_pool = Some (s, e) /\ s <= 3221225995 <= e) /\
  (forall r, In r [] -> parse_ipv4 (res_ip_address r) <> Some 3221225995) /\
  held_only_by leases "aa:00:00:00:00:02" 3221225995.
Proof.
  intros leases.
  apply (allocate_ip_safe sample_pool [] leases "aa:00:00:00:00:02" (Some 3221225994) None).
  - intros l1 l2 [<-|[]] [<-|[]]. done.
  - done.
  - by vm_compute.
Defined.

Lemma allocate_ip_complete_witness :
  is_Some (allocate_ip sample_pool [] [sample_lease "192.0.2.15" "aa:00:00:00:00:01" Active]
    "aa:00:00:00:00:02" None (Some (mkPoolPartition 1 2))).
Proof.
  apply (allocate_ip_complete _ _ _ _ _ _ 3221225994 3221226003 3221226000).
  - by vm_compute.
  - lia.
  - vm_compute. split; discriminate.
  - done.
  - intros l [<-|[]] _ H. by vm_compute in H.
Defined.

(** split scope.  Two servers of a partition, each with its own view
    of the leases, never pick the same fresh address for two clients that have no
    reservation, no current lease and no request. *)
Theorem split_scope_disjoint pool reservations c i j s e leases1 leases2 mac1 mac2 ip1 ip2 :
  v4_range pool = Some (s, e) -> s <= e -> 1 < c <= e - s + 1 ->
  0 <= i < c -> 0 <= j < c -> i <> j ->
  (forall r, In r reservations -> mac_eq (res_mac_address r) mac1 = false /\ mac_eq (res_mac_address r) mac2 = false) ->
  (forall l, In l leases1 -> lease_of mac1 false l = false) ->
  (forall l, In l leases2 -> lease_of mac2 false l = false) ->
  allocate_ip pool reservations leases1 mac1 None (Some (mkPoolPartition i c)) = Some ip1 ->
  allocate_ip pool reservations leases2 mac2 None (Some (mkPoolPartition j c)) = Some ip2 ->
  ip1 <> ip2.
Proof.
  intros Hr Hle Hc Hi Hj Hij Hres Hl1 Hl2.
  assert (forall k leases mac ip, 0 <= k < c ->
    (forall r, In r reservations -> mac_eq (res_mac_address r) mac = false) ->
    (forall l, In l leases -> lease_of mac false l = false) ->
    allocate_ip pool reservations leases mac None (Some (mkPoolPartition k c)) = Some ip ->
    (slice (mkPoolPartition k c) s e).1 <= ip <= (slice (mkPoolPartition k c) s e).2) as H.
  { intros k leases mac ip Hk Hm Hl. unfold allocate_ip.
    destruct (find _ reservations) as [r|] eqn:E1.
    { apply find_some in E1 as [E1 E1']. rewrite Hm in E1'; done. }
    simpl. rewrite Hr, (proj2 (Z.ltb_ge _ _)) by done.
    unfold reuse_lease. destruct (find (lease_of mac false) _) as [l|] eqn:E2.
    { apply find_some in E2 as [[E2 _]%filter_In E2']. rewrite Hl in E2'; done. }
    simpl. unfold first_free. simpl. intros [Hin%list_elem_of_In%elem_of_seqZ _]%find_some. lia. }
  intros H1 H2 <-. apply H in H1, H2; [|naive_solver..].
  destruct (v4_range_bound _ _ _ Hr) as [Bs Be]. unfold is_u32 in *.
  destruct (slice_order c s e ltac:(lia) Hc i j Hi Hj Hij); lia.
Qed.

Lemma split_scope_disjoint_witness : 3221225994 <> 3221225999.
Proof.
  apply (split_scope_disjoint sample_pool [] 2 0 1 3221225994 3221226003 [] []
           "aa:00:00:00:00:01" "aa:00:00:00:00:02");
    [by vm_compute|lia|lia|lia|lia|lia|done|done|done|by vm_compute|by vm_compute].
Defined.

(** The promise does not extend to requested addresses: the second server grants
    a request for an address that the first one has just picked. *)
Example split_scope_requested_collision :
  let node i := Some (mkPoolPartition i 2) in
  allocate_ip sample_pool [] [] "aa:00:00:00:00:01" None (node 0) = Some 3221225994 /\
  allocate_ip sample_pool [] [] "aa:00:00:00:00:02" (Some 3221225994) (node 1) = Some 3221225994.
Proof. by vm_compute. Qed.

(** ** Validation *)

Lemma check_family_ordered f start end_ s e :
  f = parse_ipv4 \/ f = parse_ipv6 ->
  check_family start end_ = inr () -> start ≫= f = Some s -> end_ ≫= f = Some e -> s <= e.
Proof.
  intros Hf H (a & -> & Ha)%bind_Some (b & -> & Hb)%bind_Some.
  assert (f EmptyString = None) as Hnil by (by destruct Hf as [-> | ->]).
  unfold check_family, non_empty in H.
  destruct (is_empty a) eqn:Ea; [destruct a; [congruence|done]|].
  destruct (is_empty b) eqn:Eb; [destruct b; [congruence|done]|].
  destruct Hf as [-> | ->].
  - rewrite Ha, Hb in H. destruct (Z.leb_spec s e); [done|discriminate].
  - destruct (parse_ipv4 a) as [x|] eqn:E4; [apply parse_ipv4_not_ipv6 in E4; congruence|].
    rewrite Ha, Hb in H. destruct (Z.leb_spec s e); [done|discriminate].
Qed.

(** A pool that passes validation is usable: it has an IPv4 or an IPv6
    range, whichever ranges it has are ordered, and a lease duration it sets is
    not zero. *)
Theorem check_pool_sound pool :
  check_pool pool = inr () ->
  (is_Some (v4_range pool) \/ is_Some (v6_range pool)) /\
  (forall s e, v4_range pool = Some (s, e) -> s <= e) /\
  (forall s e, v6_range pool = Some (s, e) -> s <= e) /\
  lease_duration_secs pool <> Some 0 /\
  (forall g, gateway pool = Some g -> g <> EmptyString -> is_ip g = true) /\
  (forall d, In d (dns_servers pool) -> d <> EmptyString -> is_ip d = true).
Proof.
  unfold check_pool. destruct (is_empty (trim _)); [done|].
  destruct (is_some_and _ (non_empty (subnet_v4 pool))); [done|].
  destruct (is_some_and _ (non_empty (subnet_v6 pool))); [done|].
  destruct (check_family (range_start_v4 pool) _) as [|[]] eqn:E4; [done|].
  destruct (check_family (range_start_v6 pool) _) as [|[]] eqn:E6; [done|].
  intros H'.
  assert (is_Some (v4_range pool) \/ is_Some (v6_range pool)) as Hr
    by (destruct (v4_range pool), (v6_range pool); naive_solver).
  assert ((if is_some_and (fun g => negb (is_ip g)) (non_empty (gateway pool)) then inl MSG_IP
    else if existsb (fun s => negb (is_empty s) && negb (is_ip s)) (dns_servers pool) then inl MSG_IP
    else if is_some_and (fun secs => secs =? 0) (lease_duration_secs pool) then inl MSG_LEASE_SECS
    else inr ()) = (inr () : pool_error + unit)) as H2
    by (destruct (v4_range pool), (v6_range pool); try done; naive_solver).
  clear H'. destruct (is_some_and _ (non_empty (gateway pool))) eqn:Eg; [done|].
  destruct (existsb _ _) eqn:Ed; [done|].
  destruct (is_some_and _ (lease_duration_secs pool)) eqn:El; [done|].
  split_and!; [done| | | | |].
  - unfold v4_range. intros s e (a & Ha & (b & Hb & [= <- <-])%bind_Some)%bind_Some.
    exact (check_family_ordered _ _ _ _ _ (or_introl eq_refl) E4 Ha Hb).
  - unfold v6_range. intros s e (a & Ha & (b & Hb & [= <- <-])%bind_Some)%bind_Some.
    exact (check_family_ordered _ _ _ _ _ (or_intror eq_refl) E6 Ha Hb).
  - intros E. by rewrite E in El.
  - intros g Hg Hne. rewrite Hg in Eg. destruct g; [done|]. cbn in Eg. by to_prop.
  - intros d Hd Hne. rewrite <- not_true_iff_false in Ed. destruct (is_ip d) eqn:Ei; [done|].
    destruct Ed. apply existsb_exists. exists d. rewrite Ei. by destruct d.
Qed.

Lemma check_pool_sound_witness :
  is_Some (v4_range sample_pool) \/ is_Some (v6_range sample_pool).
Proof. apply (check_pool_sound sample_pool). by vm_compute. Defined.
