(* ===== verification/DhcpDb.v ===== *)
(** * The DHCP repository

    Models [crates/magnetite-db/src/dhcp.rs]: pools without overlapping ranges,
    reservations unique per pool, leases keyed by pool and address, the lease
    feed that peers page through, and the singletons.  A store is five tables
    (any instances of [Table]); every function is a call of the monad [M] over
    it.  The clock ([Utc::now]) is the argument [now] of each function; the
    RFC 3339 printer and parser of [chrono] are parameters. *)

From S2P Require Import Prelude Bytes RustStr RustNet Surreal Dhcp.
Local Open Scope db_scope.

Definition MSG_OVERLAP : string := "指定範囲は既存プールと重複しています。".
Definition MSG_MAC_DUP : string := "この MAC アドレスは既に予約されています。".
Definition MSG_POOL_IN_USE : string := "有効なリースまたは予約が存在するため、プールを削除できません。".

(** ** Records *)

Record PoolRecord := mkPoolRecord {
  pr_name : string;
  pr_subnet_v4 : option string;
  pr_range_start_v4 : option string;
  pr_range_end_v4 : option string;
  pr_subnet_v6 : option string;
  pr_range_start_v6 : option string;
  pr_range_end_v6 : option string;
  pr_gateway : option string;
  pr_dns_servers : list string;
  pr_domain_name : option string;
  pr_lease_duration_secs : option Z;
  pr_enabled : bool;
  pr_created_at : string;
  pr_updated_at : string;
  pr_created_by : string;
}.

Record ReservationRecord := mkReservationRecord {
  rr_pool_ref : string;
  rr_mac_address : string;
  rr_ip_address : string;
  rr_hostname : option string;
  rr_description : option string;
  rr_created_at : string;
  rr_updated_at : string;
  rr_created_by : string;
}.

Record LeaseRecord := mkLeaseRecord {
  lr_pool_ref : string;
  lr_ip_address : string;
  lr_mac_address : option string;
  lr_client_id : option string;
  lr_hostname : option string;
  lr_state : string;
  lr_lease_start : string;
  lr_lease_expiry : string;
  lr_last_renewal : option string;
  lr_protocol_version : string;
  lr_created_at : string;
  lr_updated_at : string;
  lr_created_by : string;
}.

Record DhcpReplStateRecord := mkDhcpReplStateRecord {
  cursor : string;
  last_sync : option string;
}.

Record ConfigRecord := mkConfigRecord {
  cr_v4_enabled : bool;
  cr_v6_enabled : bool;
  cr_default_lease_secs : Z;
  cr_max_lease_secs : option Z;
  cr_default_dns_servers : list string;
  cr_default_domain_name : option string;
  cr_authoritative : bool;
}.

(** What a peer is served. *)
Record DhcpLeaseFeed := mkDhcpLeaseFeed {
  feed_leases : list Lease;
  feed_cursor : string;
}.

Definition ConfigRecord_from_model (c : DhcpConfig) : ConfigRecord :=
  mkConfigRecord (v4_enabled c) (v6_enabled c) (default_lease_secs c) (max_lease_secs c)
    (default_dns_servers c) (default_domain_name c) (authoritative c).

Definition ConfigRecord_into_model (c : ConfigRecord) : DhcpConfig :=
  mkDhcpConfig (cr_v4_enabled c) (cr_v6_enabled c) (cr_default_lease_secs c) (cr_max_lease_secs c)
    (cr_default_dns_servers c) (cr_default_domain_name c) (cr_authoritative c).

Definition in_pool_range (pool : Pool) (ip : string) : bool :=
  match parse_ipv4 ip with
  | Some n => is_some_and (fun r => (r.1 <=? n) && (n <=? r.2)) (v4_range pool)
  | None =>
      match parse_ipv6 ip with
      | Some n => is_some_and (fun r => (r.1 <=? n) && (n <=? r.2)) (v6_range pool)
      | None => false
      end
  end.

Record Store (TP TR TL TC TS : Type) := mkStore {
  pool_t : TP;
  reservation_t : TR;
  lease_t : TL;
  config_t : TC;
  repl_state_t : TS;
}.
Arguments mkStore {TP TR TL TC TS} _ _ _ _ _.
Arguments pool_t {TP TR TL TC TS} _.
Arguments reservation_t {TP TR TL TC TS} _.
Arguments lease_t {TP TR TL TC TS} _.
Arguments config_t {TP TR TL TC TS} _.
Arguments repl_state_t {TP TR TL TC TS} _.

Section repository.
Context {TP TR TL TC TS : Type}.
Context {PT : Table TP PoolRecord} {RT : Table TR ReservationRecord} {LT : Table TL LeaseRecord}
        {CT : Table TC ConfigRecord} {ST : Table TS DhcpReplStateRecord}.
(** [DateTime::to_rfc3339] and [DateTime::parse_from_rfc3339]. *)
Context (to_rfc3339 : Z -> string) (parse_from_rfc3339 : string -> option Z).

Abbreviation store := (Store TP TR TL TC TS).
Abbreviation Db := (M store).

(** A query on one of the tables. *)
Definition read_t {T A} (get : store -> T) (q : T -> DbResult A) : Db A := fun s => (q (get s), s).

Definition on_pools {A} (q : TP -> DbResult A * TP) : Db A :=
  fun s => let (r, t) := q (pool_t s) in
           (r, mkStore t (reservation_t s) (lease_t s) (config_t s) (repl_state_t s)).
Definition on_reservations {A} (q : TR -> DbResult A * TR) : Db A :=
  fun s => let (r, t) := q (reservation_t s) in
           (r, mkStore (pool_t s) t (lease_t s) (config_t s) (repl_state_t s)).
Definition on_leases {A} (q : TL -> DbResult A * TL) : Db A :=
  fun s => let (r, t) := q (lease_t s) in
           (r, mkStore (pool_t s) (reservation_t s) t (config_t s) (repl_state_t s)).
Definition on_config {A} (q : TC -> DbResult A * TC) : Db A :=
  fun s => let (r, t) := q (config_t s) in
           (r, mkStore (pool_t s) (reservation_t s) (lease_t s) t (repl_state_t s)).
Definition on_repl_state {A} (q : TS -> DbResult A * TS) : Db A :=
  fun s => let (r, t) := q (repl_state_t s) in
           (r, mkStore (pool_t s) (reservation_t s) (lease_t s) (config_t s) t).

(** [records.rs]: an unreadable timestamp reads as the current time. *)
Definition parse_rfc3339 (now : Z) (value : string) : Z := unwrap_or now (parse_from_rfc3339 value).

Definition PoolRecord_from_model (p : Pool) (now : string) : PoolRecord :=
  mkPoolRecord (pool_name p) (subnet_v4 p) (range_start_v4 p) (range_end_v4 p) (subnet_v6 p)
    (range_start_v6 p) (range_end_v6 p) (gateway p) (dns_servers p) (domain_name p)
    (lease_duration_secs p) (pool_enabled p) now now (pool_created_by p).

Definition PoolRecord_into_model (now : Z) (kr : string * PoolRecord) : Pool :=
  let (k, r) := kr in
  mkPool k (parse_rfc3339 now (pr_created_at r)) (parse_rfc3339 now (pr_updated_at r))
    (pr_created_by r) (pr_name r) (pr_subnet_v4 r) (pr_range_start_v4 r) (pr_range_end_v4 r)
    (pr_subnet_v6 r) (pr_range_start_v6 r) (pr_range_end_v6 r) (pr_gateway r) (pr_dns_servers r)
    (pr_domain_name r) (pr_lease_duration_secs r) (pr_enabled r).

Definition ReservationRecord_into_model (now : Z) (kr : string * ReservationRecord) : Reservation :=
  let (k, r) := kr in
  mkReservation k (parse_rfc3339 now (rr_created_at r)) (parse_rfc3339 now (rr_updated_at r))
    (rr_created_by r) (rr_pool_ref r) (rr_mac_address r) (rr_ip_address r) (rr_hostname r)
    (rr_description r).

Definition LeaseRecord_from_model (l : Lease) : LeaseRecord :=
  mkLeaseRecord (lease_pool_ref l) (lease_ip_address l) (lease_mac_address l) (lease_client_id l)
    (lease_hostname l) (LeaseState_as_str (lease_state l)) (to_rfc3339 (lease_start l))
    (to_rfc3339 (lease_expiry l)) (to_rfc3339 <$> lease_last_renewal l)
    (match lease_protocol_version l with ProtoV6 => "V6" | ProtoV4 => "V4" end)
    (to_rfc3339 (lease_created_at l)) (to_rfc3339 (lease_updated_at l)) (lease_created_by l).

Definition LeaseRecord_into_model (now : Z) (kr : string * LeaseRecord) : Lease :=
  let (k, r) := kr in
  mkLease k (parse_rfc3339 now (lr_created_at r)) (parse_rfc3339 now (lr_updated_at r))
    (lr_created_by r) (lr_pool_ref r) (lr_ip_address r) (lr_mac_address r) (lr_client_id r)
    (lr_hostname r) (unwrap_or Expired (LeaseState_from_str (lr_state r)))
    (parse_rfc3339 now (lr_lease_start r)) (parse_rfc3339 now (lr_lease_expiry r))
    (parse_rfc3339 now <$> lr_last_renewal r)
    (if String.eqb (lr_protocol_version r) "V6" then ProtoV6 else ProtoV4).

(** ** Pools *)

Definition list_pools (now : Z) : Db (list Pool) :=
  do! recs <- read_t pool_t (select (fun _ => true) (fun a b => str_le (pr_name a) (pr_name b)) None);
  mret (map (PoolRecord_into_model now) recs).

Definition get_pool (now : Z) (id : string) : Db (option Pool) :=
  do! rec <- read_t pool_t (select_key id);
  mret ((fun r => PoolRecord_into_model now (id, r)) <$> rec).

(** The loop of [check_range_overlap]. *)
Definition overlaps (new_v4 new_v6 : option (Z * Z)) (other : Pool) : bool :=
  match new_v4, v4_range other with
  | Some a, Some b => intervals_overlap a b
  | _, _ => false
  end ||
  match new_v6, v6_range other with
  | Some a, Some b => intervals_overlap a b
  | _, _ => false
  end.

Definition check_range_overlap (now : Z) (pool : Pool) (exclude_id : option string) : Db unit :=
  let new_v4 := v4_range pool in
  let new_v6 := v6_range pool in
  do! others <- list_pools now;
  if existsb (fun other => negb (bool_decide (exclude_id = Some (pool_id other)))
                           && overlaps new_v4 new_v6 other) others
  then mfail (Constraint MSG_OVERLAP)
  else mret ().

Definition create_pool (now : Z) (pool : Pool) : Db Pool :=
  do! _ <- check_range_overlap now pool None;
  do! created <- on_pools (create (PoolRecord_from_model pool (to_rfc3339 now)));
  match created with
  | Some kr => mret (PoolRecord_into_model now kr)
  | None => mfail (Constraint "pool creation returned nothing")
  end.

Definition update_pool (now : Z) (pool : Pool) : Db (option Pool) :=
  do! _ <- check_range_overlap now pool (Some (pool_id pool));
  do! updated <- on_pools (update_where (fun k _ => String.eqb k (pool_id pool))
                             (fun _ => PoolRecord_from_model pool (to_rfc3339 now)));
  mret (PoolRecord_into_model now <$> head updated).

(** ** Leases *)

Definition list_leases (now : Z) (pool_id : option string) : Db (list Lease) :=
  let newest a b := str_le (lr_lease_start b) (lr_lease_start a) in
  do! recs <-
    match pool_id with
    | Some p => read_t lease_t (select (fun r => String.eqb (lr_pool_ref r) p) newest None)
    | None => read_t lease_t (select (fun _ => true) newest None)
    end;
  mret (map (LeaseRecord_into_model now) recs).

Definition upsert_lease (now : Z) (lease : Lease) : Db Lease :=
  do! _ <- on_leases (delete_where (fun r => String.eqb (lr_pool_ref r) (lease_pool_ref lease)
                                            && String.eqb (lr_ip_address r) (lease_ip_address lease)));
  do! created <- on_leases (create (LeaseRecord_from_model lease));
  match created with
  | Some kr => mret (LeaseRecord_into_model now kr)
  | None => mfail (Constraint "lease upsert failed")
  end.

(** The cursor's parts: [splitn(3, '|')], missing parts empty. *)
Definition splitn3 (cursor : string) : string * string * string :=
  match split_once "|" cursor with
  | None => (cursor, EmptyString, EmptyString)
  | Some (ts, r) =>
      match split_once "|" r with
      | None => (ts, r, EmptyString)
      | Some (pool, ip) => (ts, pool, ip)
      end
  end.

Definition feed_after (ts p i : string) (r : LeaseRecord) : bool :=
  str_lt ts (lr_updated_at r)
  || (String.eqb (lr_updated_at r) ts && str_lt p (lr_pool_ref r))
  || (String.eqb (lr_updated_at r) ts && String.eqb (lr_pool_ref r) p && str_lt i (lr_ip_address r)).

(** [ORDER BY updated_at ASC, pool_ref ASC, ip_address ASC]. *)
Definition feed_order (a b : LeaseRecord) : bool :=
  str_lt (lr_updated_at a) (lr_updated_at b)
  || (String.eqb (lr_updated_at a) (lr_updated_at b)
      && (str_lt (lr_pool_ref a) (lr_pool_ref b)
          || (String.eqb (lr_pool_ref a) (lr_pool_ref b)
              && str_le (lr_ip_address a) (lr_ip_address b)))).

Definition dhcp_lease_feed (now : Z) (cursor : string) (limit : nat) : Db DhcpLeaseFeed :=
  let '(ts, pool, ip) := splitn3 cursor in
  do! recs <- read_t lease_t (select (feed_after ts pool ip) feed_order (Some limit));
  let next := match last recs with
              | Some (_, r) => lr_updated_at r +:+ "|" +:+ lr_pool_ref r +:+ "|" +:+ lr_ip_address r
              | None => cursor
              end in
  mret (mkDhcpLeaseFeed (map (LeaseRecord_into_model now) recs) next).

Definition apply_replicated_lease (now : Z) (lease : Lease) : Db bool :=
  do! existing <- read_t lease_t
    (select (fun r => String.eqb (lr_pool_ref r) (lease_pool_ref lease)
                      && String.eqb (lr_ip_address r) (lease_ip_address lease)) unordered (Some 1%nat));
  if is_some_and (fun kr => lease_updated_at lease <=? parse_rfc3339 now (lr_updated_at kr.2))
       (head existing)
  then mret false
  else do! _ <- upsert_lease now lease; mret true.

Definition expire_stale_leases (now : Z) : Db nat :=
  let t := to_rfc3339 now in
  do! updated <- on_leases
    (update_where
       (fun _ r => (String.eqb (lr_state r) "active" || String.eqb (lr_state r) "offered")
                   && str_lt (lr_lease_expiry r) t)
       (fun r => mkLeaseRecord (lr_pool_ref r) (lr_ip_address r) (lr_mac_address r) (lr_client_id r)
                   (lr_hostname r) "expired" (lr_lease_start r) (lr_lease_expiry r)
                   (lr_last_renewal r) (lr_protocol_version r) (lr_created_at r) t (lr_created_by r)));
  mret (length updated).

Definition release_lease (now : Z) (id : string) : Db unit :=
  do! lease <- read_t lease_t (select_key id);
  match lease with
  | None => mfail NotFound
  | Some lease =>
      if negb (is_releasable (unwrap_or Expired (LeaseState_from_str (lr_state lease))))
      then mfail (Constraint "このリースは解放できません。")
      else
        let t := to_rfc3339 now in
        do! _ <- on_leases
          (update_where (fun k _ => String.eqb k id)
             (fun r => mkLeaseRecord (lr_pool_ref r) (lr_ip_address r) (lr_mac_address r)
                         (lr_client_id r) (lr_hostname r) "released" (lr_lease_start r)
                         (lr_lease_expiry r) (lr_last_renewal r) (lr_protocol_version r)
                         (lr_created_at r) t (lr_created_by r)));
        mret ()
  end.

Definition count_pool_active_leases (now : Z) (pool_id : string) : Db nat :=
  do! leases <- list_leases now (Some pool_id);
  mret (length (List.filter (fun l => is_active_at l now) leases)).

(** ** Reservations *)

Definition list_reservations (now : Z) (pool_id : string) : Db (list Reservation) :=
  do! recs <- read_t reservation_t
    (select (fun r => String.eqb (rr_pool_ref r) pool_id)
       (fun a b => str_le (rr_ip_address a) (rr_ip_address b)) None);
  mret (map (ReservationRecord_into_model now) recs).

Definition create_reservation (now : Z) (res : Reservation) : Db Reservation :=
  do! pool <- get_pool now (res_pool_ref res);
  match pool with
  | None => mfail NotFound
  | Some pool =>
      if negb (in_pool_range pool (res_ip_address res)) then mfail (Constraint MSG_OVERLAP)
      else
        do! existing <- list_reservations now (res_pool_ref res);
        if existsb (fun r => String.eqb (res_mac_address r) (res_mac_address res)) existing
        then mfail (Constraint MSG_MAC_DUP)
        else if existsb (fun r => String.eqb (res_ip_address r) (res_ip_address res)) existing
        then mfail (Constraint MSG_OVERLAP)
        else
          let t := to_rfc3339 now in
          let rec := mkReservationRecord (res_pool_ref res) (res_mac_address res)
                       (res_ip_address res) (res_hostname res) (res_description res) t t
                       (res_created_by res) in
          do! created <- on_reservations (create rec);
          match created with
          | Some kr => mret (ReservationRecord_into_model now kr)
          | None => mfail (Constraint "reservation creation returned nothing")
          end
  end.

Definition delete_reservation (id : string) : Db unit := on_reservations (delete_key id).

Definition delete_pool (now : Z) (pool_id : string) : Db unit :=
  do! reservations <- list_reservations now pool_id;
  if negb (bool_decide (length reservations = 0%nat)) then mfail (Constraint MSG_POOL_IN_USE)
  else
    do! _ <- on_leases (delete_where (fun r => String.eqb (lr_pool_ref r) pool_id));
    on_pools (delete_key pool_id).

(** ** Singletons *)

Definition get_dhcp_config : Db DhcpConfig :=
  do! existing <- read_t config_t (select (fun _ => true) unordered (Some 1%nat));
  match existing with
  | (_, rec) :: _ => mret (ConfigRecord_into_model rec)
  | [] =>
      do! created <- on_config (create (ConfigRecord_from_model DhcpConfig_default));
      match created with
      | Some (_, rec) => mret (ConfigRecord_into_model rec)
      | None => mfail (Constraint "dhcp_config create failed")
      end
  end.

Definition save_dhcp_config (config : DhcpConfig) : Db unit :=
  do! _ <- get_dhcp_config;
  do! _ <- on_config (delete_where (fun _ => true));
  do! _ <- on_config (create (ConfigRecord_from_model config));
  mret ().

Definition get_dhcp_repl_cursor : Db string :=
  do! recs <- read_t repl_state_t (select (fun _ => true) unordered (Some 1%nat));
  mret (match recs with (_, r) :: _ => cursor r | [] => EmptyString end).

Definition set_dhcp_repl_cursor (now : Z) (c : string) : Db unit :=
  let t := to_rfc3339 now in
  do! existing <- read_t repl_state_t (select (fun _ => true) unordered (Some 1%nat));
  match existing with
  | [] => do! _ <- on_repl_state (create (mkDhcpReplStateRecord c (Some t))); mret ()
  | _ :: _ =>
      do! _ <- on_repl_state (update_where (fun _ _ => true)
                                (fun _ => mkDhcpReplStateRecord c (Some t)));
      mret ()
  end.

Definition dhcp_metrics (now : Z) : Db (nat * nat * nat) :=
  do! pools <- list_pools now;
  do! reservations <- read_t reservation_t (select (fun _ => true) unordered None);
  do! leases <- list_leases now None;
  mret (length pools, length reservations, length (List.filter (fun l => is_active_at l now) leases)).

(** ** What the queries see *)

Lemma read_inv {T A} (get : store -> T) (q : T -> DbResult A) s r s' :
  read_t get q s = (r, s') -> s' = s /\ q (get s) = r.
Proof. unfold read_t. naive_solver. Qed.

Lemma list_pools_inv now s r s' : list_pools now s = (r, s') ->
  s' = s /\ forall ps, r = Ok ps -> ps ≡ₚ map (PoolRecord_into_model now) (rows (pool_t s)).
Proof.
  unfold list_pools. intros [(e & [-> _]%read_inv & ->)|(recs & s1 & [-> Hq]%read_inv & [= <- <-])]%mbind_inv;
    (split; [done|]); intros ps [= <-].
  destruct (str_le_order pr_name) as [Ht Htr].
  rewrite (select_all _ _ _ _ Hq Ht Htr). by rewrite filter_true.
Qed.

Lemma list_reservations_inv now p s r s' : list_reservations now p s = (r, s') ->
  s' = s /\ forall l, r = Ok l -> l ≡ₚ map (ReservationRecord_into_model now)
    (List.filter (fun kr => String.eqb (rr_pool_ref kr.2) p) (rows (reservation_t s))).
Proof.
  unfold list_reservations.
  intros [(e & [-> _]%read_inv & ->)|(recs & s1 & [-> Hq]%read_inv & [= <- <-])]%mbind_inv;
    (split; [done|]); intros ps [= <-].
  destruct (str_le_order rr_ip_address) as [Ht Htr]. by rewrite (select_all _ _ _ _ Hq Ht Htr).
Qed.

Lemma list_leases_inv now p s r s' : list_leases now (Some p) s = (r, s') ->
  s' = s /\ forall l, r = Ok l -> l ≡ₚ map (LeaseRecord_into_model now)
    (List.filter (fun kr => String.eqb (lr_pool_ref kr.2) p) (rows (lease_t s))).
Proof.
  unfold list_leases.
  intros [(e & [-> _]%read_inv & ->)|(recs & s1 & [-> Hq]%read_inv & [= <- <-])]%mbind_inv;
    (split; [done|]); intros ps [= <-].
  rewrite (select_all _ _ _ _ Hq); [done|..]; intros; [apply or_comm, str_le_total|by eapply str_le_trans].
Qed.

Lemma get_pool_inv now id s r s' : get_pool now id s = (r, s') ->
  s' = s /\ forall p, r = Ok (Some p) -> exists rec, In (id, rec) (rows (pool_t s)) /\
    p = PoolRecord_into_model now (id, rec).
Proof.
  unfold get_pool. intros [(e & [-> _]%read_inv & ->)|(rec & s1 & [-> Hq]%read_inv & [= <- <-])]%mbind_inv;
    (split; [done|]); intros p; [done|].
  intros [= (r & -> & ->)%fmap_Some]. exists r. split; [|done]. by apply (select_key_ok _ _ _ Hq).
Qed.

(** ** Invariants *)

Definition range4 (r : PoolRecord) : option (Z * Z) :=
  a ← pr_range_start_v4 r ≫= parse_ipv4; b ← pr_range_end_v4 r ≫= parse_ipv4; Some (a, b).
Definition range6 (r : PoolRecord) : option (Z * Z) :=
  a ← pr_range_start_v6 r ≫= parse_ipv6; b ← pr_range_end_v6 r ≫= parse_ipv6; Some (a, b).

Definition apart (a b : option (Z * Z)) : Prop :=
  forall x y, a = Some x -> b = Some y -> intervals_overlap x y = false.

(** No two pools overlap. *)
Definition pools_apart (s : store) : Prop :=
  forall k1 r1 k2 r2, In (k1, r1) (rows (pool_t s)) -> In (k2, r2) (rows (pool_t s)) -> k1 <> k2 ->
    apart (range4 r1) (range4 r2) /\ apart (range6 r1) (range6 r2).

(** Reservations are unique within their pool, which exists. *)
Definition reservations_ok (s : store) : Prop :=
  (forall k1 r1 k2 r2, In (k1, r1) (rows (reservation_t s)) -> In (k2, r2) (rows (reservation_t s)) ->
     k1 <> k2 -> rr_pool_ref r1 = rr_pool_ref r2 ->
     rr_mac_address r1 <> rr_mac_address r2 /\ rr_ip_address r1 <> rr_ip_address r2) /\
  (forall k r, In (k, r) (rows (reservation_t s)) -> exists p, In (rr_pool_ref r, p) (rows (pool_t s))).

Definition lease_key (kr : string * LeaseRecord) : string * string :=
  (lr_pool_ref kr.2, lr_ip_address kr.2).

(** One lease per pool and address. *)
Definition leases_unique (s : store) : Prop := NoDup (map lease_key (rows (lease_t s))).

Lemma apart_sym a b : apart a b -> apart b a.
Proof. intros H x y -> ->. unfold intervals_overlap. rewrite andb_comm. by apply H. Qed.

Lemma overlaps_apart r (other : Pool) new4 new6 :
  v4_range other = range4 r -> v6_range other = range6 r ->
  overlaps new4 new6 other = false -> apart new4 (range4 r) /\ apart new6 (range6 r).
Proof.
  unfold overlaps. intros -> -> [H4 H6]%orb_false_iff.
  split; intros x y -> E; rewrite E in *; done.
Qed.

Lemma check_range_overlap_inv now pool ex s r s' : check_range_overlap now pool ex s = (r, s') ->
  s' = s /\ (r = Ok () -> forall k rec, In (k, rec) (rows (pool_t s)) -> ex <> Some k ->
    apart (v4_range pool) (range4 rec) /\ apart (v6_range pool) (range6 rec)).
Proof.
  unfold check_range_overlap.
  intros [(e & [-> _]%list_pools_inv & ->)|(ps & s1 & [-> Hp]%list_pools_inv & H)]%mbind_inv; [done|].
  specialize (Hp ps eq_refl). destruct (existsb _ ps) eqn:E; injection H as <- <-; (split; [done|]); [done|].
  intros _ k rec Hin Hex. eapply (overlaps_apart rec (PoolRecord_into_model now (k, rec))); [done..|].
  rewrite <- not_true_iff_false in E. apply not_true_iff_false. intros Ho. apply E, existsb_exists.
  exists (PoolRecord_into_model now (k, rec)). split.
  - apply list_elem_of_In. rewrite Hp. apply list_elem_of_In. by apply in_map.
  - rewrite Ho. cbn. by rewrite bool_decide_eq_false_2.
Qed.

Lemma create_pool_inv now p s r s' : create_pool now p s = (r, s') -> pools_apart s ->
  pools_apart s' /\ reservation_t s' = reservation_t s /\ lease_t s' = lease_t s /\
  (forall kr, In kr (rows (pool_t s)) -> In kr (rows (pool_t s'))).
Proof.
  unfold create_pool. intros H Hinv.
  apply mbind_inv in H as [(e & [-> _]%check_range_overlap_inv & ->)|([] & s1 & [-> Hc]%check_range_overlap_inv & H)];
    [done|]. specialize (Hc eq_refl).
  assert (forall o t', create (PoolRecord_from_model p (to_rfc3339 now)) (pool_t s) = (o, t') ->
    let s' := mkStore t' (reservation_t s) (lease_t s) (config_t s) (repl_state_t s) in
    pools_apart s' /\ (forall kr, In kr (rows (pool_t s)) -> In kr (rows t'))) as Hcr.
  { intros o t' Ht. apply create_ok in Ht. destruct o as [[[k r']|]|].
    - destruct Ht as (-> & Hk & Hrows). split.
      + intros k1 r1 k2 r2 H1%(perm_In _ _ _ Hrows) H2%(perm_In _ _ _ Hrows) Hne.
        destruct H1 as [[= <- <-]|H1], H2 as [[= <- <-]|H2]; [done| | |by eapply Hinv].
        * by apply (Hc k2 r2 H2).
        * destruct (Hc k1 r1 H1) as [? ?]; [done|]. by split; apply apart_sym.
      + intros kr Hin. apply (perm_In ((k, PoolRecord_from_model p (to_rfc3339 now)) :: rows (pool_t s))); [done|by right].
    - split; [|intros; by apply (perm_In (rows (pool_t s)))].
      intros k1 r1 k2 r2 H1%(perm_In _ _ _ Ht) H2%(perm_In _ _ _ Ht). by apply Hinv.
    - split; [|intros; by apply (perm_In (rows (pool_t s)))].
      intros k1 r1 k2 r2 H1%(perm_In _ _ _ Ht) H2%(perm_In _ _ _ Ht). by apply Hinv. }
  unfold on_pools in H. apply mbind_inv in H.
  destruct (create _ (pool_t s)) as [o t'] eqn:Ec. destruct (Hcr o t' eq_refl) as [H1 H2].
  destruct H as [(e & [= -> <-] & ->)|(a & s1 & [= -> <-] & H)]; [done|].
  destruct a; by injection H as <- <-.
Qed.

Lemma update_pool_inv now p s r s' : update_pool now p s = (r, s') -> pools_apart s ->
  pools_apart s' /\ reservation_t s' = reservation_t s /\ lease_t s' = lease_t s /\
  (forall k r, In (k, r) (rows (pool_t s)) -> exists r', In (k, r') (rows (pool_t s'))).
Proof.
  unfold update_pool. intros H Hinv.
  apply mbind_inv in H as [(e & [-> _]%check_range_overlap_inv & ->)|([] & s1 & [-> Hc]%check_range_overlap_inv & H)];
    [naive_solver|]. specialize (Hc eq_refl).
  apply mbind_inv in H. unfold on_pools in H.
  destruct (update_where _ _ (pool_t s)) as [o t'] eqn:Eu. apply update_where_ok in Eu.
  set (rec := PoolRecord_from_model p (to_rfc3339 now)) in *.
  set (upd := fun kr : string * PoolRecord => if String.eqb kr.1 (pool_id p) then (kr.1, rec) else kr) in *.
  assert (exists a, (o = Ok a \/ exists e, o = Err e) /\
    s' = mkStore t' (reservation_t s) (lease_t s) (config_t s) (repl_state_t s)) as (a & Ho & ->).
  { destruct H as [(e & [= -> <-] & ->)|(a & s1 & [= -> <-] & [= _ <-])].
    - exists []. naive_solver.
    - exists a. naive_solver. }
  assert (pools_apart (mkStore t' (reservation_t s) (lease_t s) (config_t s) (repl_state_t s)) /\
    forall k r0, In (k, r0) (rows (pool_t s)) -> exists r', In (k, r') (rows t')) as [H1 H2];
    [|done].
  destruct Ho as [->|[e ->]].
  - destruct Eu as [Hrows _]. split.
    + intros k1 r1 k2 r2 H1%(perm_In _ _ _ Hrows) H2%(perm_In _ _ _ Hrows) Hne.
      apply in_map_iff in H1 as ([k1' r1'] & E1 & H1), H2 as ([k2' r2'] & E2 & H2). unfold upd in E1, E2. cbn in E1, E2.
      destruct (String.eqb_spec k1' (pool_id p)), (String.eqb_spec k2' (pool_id p)); simplify_eq.
      * apply (Hc k2 r2 H2). congruence.
      * destruct (Hc k1 r1 H1) as [? ?]; [congruence|]. by split; apply apart_sym.
      * by eapply Hinv.
    + intros k r0 Hin. exists (upd (k, r0)).2. eapply perm_In; [symmetry; exact Hrows|].
      apply in_map_iff. exists (k, r0). split; [|done]. unfold upd. cbn. by destruct (String.eqb k (pool_id p)).
  - split.
    + intros k1 r1 k2 r2 H1%(perm_In _ _ _ Eu) H2%(perm_In _ _ _ Eu). by apply Hinv.
    + intros k r0 Hin. exists r0. by eapply perm_In.
Qed.

(** A store whose pools are some of the pools of another. *)
Lemma pools_apart_sub (s s' : store) :
  (forall kr, In kr (rows (pool_t s')) -> In kr (rows (pool_t s))) -> pools_apart s -> pools_apart s'.
Proof. intros Hsub H k1 r1 k2 r2 H1 H2. apply H; auto. Qed.

Lemma delete_pool_inv now id s r s' : delete_pool now id s = (r, s') ->
  pools_apart s -> reservations_ok s -> leases_unique s ->
  pools_apart s' /\ reservations_ok s' /\ leases_unique s'.
Proof.
  unfold delete_pool. intros H Hp Hr Hl.
  apply mbind_inv in H as [(e & [-> _]%list_reservations_inv & ->)|(rs & s1 & [-> Hrs]%list_reservations_inv & H)];
    [done|]. specialize (Hrs rs eq_refl).
  case_bool_decide as Hnil; simpl in H; [|by injection H as <- <-].
  apply nil_length_inv in Hnil as ->. apply Permutation_nil in Hrs.
  assert (forall k rec, In (k, rec) (rows (reservation_t s)) -> rr_pool_ref rec <> id) as Hno.
  { intros k rec Hin E. apply map_eq_nil in Hrs.
    assert (In (k, rec) (List.filter (fun kr => String.eqb (rr_pool_ref kr.2) id) (rows (reservation_t s)))) as Hf
      by (apply filter_In; split; [done|]; by apply String.eqb_eq).
    by rewrite Hrs in Hf. }
  apply mbind_inv in H. unfold on_leases, on_pools in H.
  destruct (delete_where _ (lease_t s)) as [o tl] eqn:El. apply delete_where_ok in El.
  assert (leases_unique (mkStore (pool_t s) (reservation_t s) tl (config_t s) (repl_state_t s))) as Hl'.
  { unfold leases_unique; simpl. destruct o; rewrite El; [by apply NoDup_map_filter|done]. }
  destruct H as [(e & [= -> <-] & ->)|(a & s1 & [= -> <-] & H)]; [done|]. simpl in H.
  destruct (delete_key id (pool_t s)) as [o' tp] eqn:Ep. apply delete_key_ok in Ep.
  injection H as -> <-. split_and!; [| |done].
  - eapply pools_apart_sub; [|exact Hp]. simpl. intros kr Hin.
    destruct r; apply (perm_In _ _ _ Ep) in Hin; [apply filter_In in Hin as [Hin _]|]; exact Hin.
  - split; [by apply Hr|]. simpl. intros k rec Hin. destruct (proj2 Hr k rec Hin) as [p Hpool].
    exists p. destruct r; (eapply perm_In; [symmetry; exact Ep|]); [|done].
    apply filter_In. split; [done|]. simpl.
    by rewrite (proj2 (String.eqb_neq _ _)) by by apply (Hno k).
Qed.

(** A store with some of the reservations of another and all of its pools. *)
Lemma reservations_ok_sub (s s' : store) :
  (forall kr, In kr (rows (reservation_t s')) -> In kr (rows (reservation_t s))) ->
  (forall k r, In (k, r) (rows (pool_t s)) -> exists r', In (k, r') (rows (pool_t s'))) ->
  reservations_ok s -> reservations_ok s'.
Proof.
  intros Hr Hp [H1 H2]. split.
  - intros k1 r1 k2 r2 I1 I2. apply (H1 k1 r1 k2 r2); auto.
  - intros k r Hin. destruct (H2 k r (Hr _ Hin)) as [p Hpin]. by eapply Hp.
Qed.

Lemma create_reservation_inv now res s r s' : create_reservation now res s = (r, s') ->
  reservations_ok s -> reservations_ok s' /\ pool_t s' = pool_t s /\ lease_t s' = lease_t s.
Proof.
  unfold create_reservation. intros H Hinv.
  apply mbind_inv in H as [(e & [-> _]%get_pool_inv & ->)|(po & s1 & [-> Hp]%get_pool_inv & H)]; [done|].
  destruct po as [pool|]; [|by injection H as <- <-].
  destruct (Hp pool eq_refl) as (prec & Hpin & ->).
  destruct (negb _); [by injection H as <- <-|].
  apply mbind_inv in H as [(e & [-> _]%list_reservations_inv & ->)|(rs & s1 & [-> Hrs]%list_reservations_inv & H)];
    [done|]. specialize (Hrs rs eq_refl).
  destruct (existsb _ rs) eqn:Em; [by injection H as <- <-|].
  destruct (existsb (fun r => String.eqb (res_ip_address r) _) rs) eqn:Ei; [by injection H as <- <-|].
  assert (forall k rec, In (k, rec) (rows (reservation_t s)) -> rr_pool_ref rec = res_pool_ref res ->
    rr_mac_address rec <> res_mac_address res /\ rr_ip_address rec <> res_ip_address res) as Hnew.
  { intros k rec Hin Hpr.
    assert (In (ReservationRecord_into_model now (k, rec)) rs) as Hrin.
    { apply (perm_In _ _ _ (symmetry Hrs)), in_map, filter_In. split; [done|]. by apply String.eqb_eq. }
    split; intros E; [rewrite <- not_true_iff_false in Em; apply Em|rewrite <- not_true_iff_false in Ei; apply Ei];
      apply existsb_exists; exists (ReservationRecord_into_model now (k, rec)); (split; [done|]);
      by apply String.eqb_eq. }
  apply mbind_inv in H. unfold on_reservations in H.
  destruct (create _ (reservation_t s)) as [o tr] eqn:Ec. apply create_ok in Ec.
  assert (reservations_ok (mkStore (pool_t s) tr (lease_t s) (config_t s) (repl_state_t s))) as Hok.
  { destruct o as [[[k r']|]|].
    - destruct Ec as (-> & Hk & Hrows). split; simpl.
      + intros k1 r1 k2 r2 H1%(perm_In _ _ _ Hrows) H2%(perm_In _ _ _ Hrows) Hne Hpr.
        destruct H1 as [[= <- <-]|H1], H2 as [[= <- <-]|H2]; [done| | |by eapply Hinv].
        * destruct (Hnew _ _ H2 (symmetry Hpr)). cbn. split; congruence.
        * destruct (Hnew _ _ H1 Hpr). done.
      + intros k' r' Hin%(perm_In _ _ _ Hrows). destruct Hin as [[= <- <-]|Hin]; [by exists prec|].
        by eapply Hinv.
    - apply (reservations_ok_sub s); [|intros k r0 ?; by exists r0|exact Hinv]. intros kr. exact (perm_In _ _ _ Ec).
    - apply (reservations_ok_sub s); [|intros k r0 ?; by exists r0|exact Hinv]. intros kr. exact (perm_In _ _ _ Ec). }
  destruct H as [(e & [= -> <-] & ->)|(a & s1 & [= -> <-] & H)]; [done|].
  destruct a; by injection H as <- <-.
Qed.

Lemma delete_reservation_inv id s r s' : delete_reservation id s = (r, s') ->
  reservations_ok s -> reservations_ok s' /\ pool_t s' = pool_t s /\ lease_t s' = lease_t s.
Proof.
  unfold delete_reservation, on_reservations. intros H Hinv.
  destruct (delete_key id (reservation_t s)) as [o t'] eqn:E. apply delete_key_ok in E.
  injection H as -> <-. split; [|done]. apply (reservations_ok_sub s); [|intros k r0 ?; by exists r0|exact Hinv].
  simpl. intros kr Hin. destruct r; apply (perm_In _ _ _ E) in Hin; [|done].
  by apply filter_In in Hin as [Hin _].
Qed.

(** *** Leases *)

Definition same_lease_key (l : Lease) (r : LeaseRecord) : bool :=
  String.eqb (lr_pool_ref r) (lease_pool_ref l) && String.eqb (lr_ip_address r) (lease_ip_address l).

Lemma same_lease_key_iff l (kr : string * LeaseRecord) :
  same_lease_key l kr.2 = true <-> lease_key kr = (lease_pool_ref l, lease_ip_address l).
Proof.
  unfold same_lease_key, lease_key. rewrite andb_true_iff, !String.eqb_eq. split; [intros [-> ->]|intros [=]]; done.
Qed.

(** What [upsert_lease] leaves, on success and on failure. *)
Lemma upsert_lease_inv now l s r s' : upsert_lease now l s = (r, s') ->
  pool_t s' = pool_t s /\ reservation_t s' = reservation_t s /\ config_t s' = config_t s /\
  let others := List.filter (fun kr => negb (same_lease_key l kr.2)) (rows (lease_t s)) in
  (forall l', r = Ok l' -> exists k, l' = LeaseRecord_into_model now (k, LeaseRecord_from_model l) /\
     k ∉ others.*1 /\ rows (lease_t s') ≡ₚ (k, LeaseRecord_from_model l) :: others) /\
  (forall e, r = Err e -> rows (lease_t s') ≡ₚ rows (lease_t s) \/ rows (lease_t s') ≡ₚ others).
Proof.
  unfold upsert_lease. intros H. apply mbind_inv in H. unfold on_leases in H at 1 2.
  fold (same_lease_key l) in H.
  destruct (delete_where _ (lease_t s)) as [o1 t1] eqn:E1. apply delete_where_ok in E1.
  destruct H as [(e & [= -> <-] & ->)|(a & s1 & [= -> <-] & H)].
  { split_and!; [done..|]. intros e' _. by left. }
  apply mbind_inv in H. unfold on_leases in H. simpl in H.
  destruct (create _ t1) as [o2 t2] eqn:E2. apply create_ok in E2.
  destruct H as [(e & [= -> <-] & ->)|(c & s1 & [= -> <-] & H)].
  { split_and!; [done..|]. intros e' _. right. simpl. by rewrite E2. }
  destruct c as [[k r']|]; injection H as <- <-; split_and!; try done.
  - intros l' [= <-]. destruct E2 as (-> & Hk & Hrows). exists k. split_and!; [done| |].
    + by rewrite <- E1.
    + simpl. by rewrite Hrows, E1.
  - intros e _. right. simpl. by rewrite E2.
Qed.

Lemma others_fresh l (s : store) : (lease_pool_ref l, lease_ip_address l) ∉
  map lease_key (List.filter (fun kr => negb (same_lease_key l kr.2)) (rows (lease_t s))).
Proof.
  rewrite list_elem_of_In, in_map_iff. intros (kr & Hk & [_ Hn]%filter_In).
  apply same_lease_key_iff in Hk. by rewrite Hk in Hn.
Qed.

Lemma upsert_lease_unique now l s r s' : upsert_lease now l s = (r, s') -> leases_unique s ->
  leases_unique s'.
Proof.
  intros H Hu. apply upsert_lease_inv in H as (_ & _ & _ & H1 & H2). unfold leases_unique in *.
  destruct r as [l'|e].
  - destruct (H1 l' eq_refl) as (k & _ & _ & Hrows). rewrite Hrows. simpl.
    constructor; [apply (others_fresh l s)|by apply NoDup_map_filter].
  - destruct (H2 e eq_refl) as [->| ->]; [done|by apply NoDup_map_filter].
Qed.

(** An update in place that keeps pool and address. *)
Lemma update_leases_unique p f (s : store) o t' :
  update_where p f (lease_t s) = (o, t') -> leases_unique s ->
  (forall r, lr_pool_ref (f r) = lr_pool_ref r /\ lr_ip_address (f r) = lr_ip_address r) ->
  NoDup (map lease_key (rows t')).
Proof.
  intros H%update_where_ok Hu Hf. unfold leases_unique in Hu. destruct o as [l|e]; [|by rewrite H].
  destruct H as [-> _]. rewrite map_map.
  erewrite map_ext; [exact Hu|]. intros [k r]. simpl. destruct (p k r); [|done].
  unfold lease_key; simpl. by destruct (Hf r) as [-> ->].
Qed.

Lemma expire_stale_leases_unique now s r s' : expire_stale_leases now s = (r, s') -> leases_unique s ->
  leases_unique s' /\ pool_t s' = pool_t s /\ reservation_t s' = reservation_t s.
Proof.
  unfold expire_stale_leases. intros H Hu. apply mbind_inv in H. unfold on_leases in H.
  destruct (update_where _ _ (lease_t s)) as [o t'] eqn:E.
  assert (NoDup (map lease_key (rows t'))) by (by eapply update_leases_unique).
  destruct H as [(e & [= -> <-] & ->)|(a & s1 & [= -> <-] & [= <- <-])]; done.
Qed.

Lemma release_lease_unique now id s r s' : release_lease now id s = (r, s') -> leases_unique s ->
  leases_unique s' /\ pool_t s' = pool_t s /\ reservation_t s' = reservation_t s.
Proof.
  unfold release_lease. intros H Hu.
  apply mbind_inv in H as [(e & [-> _]%read_inv & ->)|(lo & s1 & [-> Hq]%read_inv & H)]; [done|].
  destruct lo as [rec|]; [|by injection H as <- <-]. destruct (negb _); [by injection H as <- <-|].
  apply mbind_inv in H. unfold on_leases in H.
  destruct (update_where _ _ (lease_t s)) as [o t'] eqn:E.
  assert (NoDup (map lease_key (rows t'))) by (by eapply update_leases_unique).
  destruct H as [(e & [= -> <-] & ->)|(a & s1 & [= -> <-] & [= <- <-])]; done.
Qed.

Lemma apply_replicated_lease_inv now l s r s' : apply_replicated_lease now l s = (r, s') ->
  s' = s \/ exists r', upsert_lease now l s = (r', s').
Proof.
  unfold apply_replicated_lease. intros H.
  apply mbind_inv in H as [(e & [-> _]%read_inv & ->)|(ex & s1 & [-> Hq]%read_inv & H)]; [by left|].
  destruct (is_some_and _ (head ex)); [injection H as <- <-; by left|].
  apply mbind_inv in H as [(e & H & ->)|(a & s1 & H & [= <- <-])]; right; eauto.
Qed.

(** ** Reachable stores *)

(** One call of the repository, whatever it returns. *)
Inductive db_step : store -> store -> Prop :=
| step_create_pool now p r s s' : create_pool now p s = (r, s') -> db_step s s'
| step_update_pool now p r s s' : update_pool now p s = (r, s') -> db_step s s'
| step_delete_pool now id r s s' : delete_pool now id s = (r, s') -> db_step s s'
| step_create_reservation now res r s s' : create_reservation now res s = (r, s') -> db_step s s'
| step_delete_reservation id r s s' : delete_reservation id s = (r, s') -> db_step s s'
| step_upsert_lease now l r s s' : upsert_lease now l s = (r, s') -> db_step s s'
| step_apply_replicated now l r s s' : apply_replicated_lease now l s = (r, s') -> db_step s s'
| step_expire now r s s' : expire_stale_leases now s = (r, s') -> db_step s s'
| step_release now id r s s' : release_lease now id s = (r, s') -> db_step s s'.

Definition store_ok (s : store) : Prop := pools_apart s /\ reservations_ok s /\ leases_unique s.

Definition store_empty (s : store) : Prop :=
  rows (pool_t s) = [] /\ rows (reservation_t s) = [] /\ rows (lease_t s) = [].

(** The parts of the invariant depend on the tables they speak of. *)
Lemma pools_apart_frame (s s' : store) : pool_t s' = pool_t s -> pools_apart s -> pools_apart s'.
Proof. unfold pools_apart. by intros ->. Qed.

Lemma reservations_ok_frame (s s' : store) : pool_t s' = pool_t s ->
  reservation_t s' = reservation_t s -> reservations_ok s -> reservations_ok s'.
Proof. unfold reservations_ok. by intros -> ->. Qed.

Lemma leases_unique_frame (s s' : store) : lease_t s' = lease_t s -> leases_unique s -> leases_unique s'.
Proof. unfold leases_unique. by intros ->. Qed.

#[local] Hint Resolve pools_apart_frame reservations_ok_frame leases_unique_frame : magnetite.

Lemma db_step_ok s s' : db_step s s' -> store_ok s -> store_ok s'.
Proof.
  intros Hstep (Hp & Hr & Hl). unfold store_ok. destruct Hstep as
    [now p r s s' H|now p r s s' H|now id r s s' H|now res r s s' H|id r s s' H|now l r s s' H
    |now l r s s' H|now r s s' H|now id r s s' H].
  - apply create_pool_inv in H as (? & Er & El & Hsub); [|done].
    split_and!; [done| |eauto with magnetite]. apply (reservations_ok_sub s); [by rewrite Er| |done].
    intros k r0 Hin. exists r0. auto.
  - apply update_pool_inv in H as (? & Er & El & Hsub); [|done].
    split_and!; [done| |eauto with magnetite]. by apply (reservations_ok_sub s); [by rewrite Er| |].
  - by eapply delete_pool_inv.
  - apply create_reservation_inv in H as (? & ? & ?); eauto with magnetite.
  - apply delete_reservation_inv in H as (? & ? & ?); eauto with magnetite.
  - pose proof (upsert_lease_unique _ _ _ _ _ H Hl).
    apply upsert_lease_inv in H as (? & ? & _); eauto with magnetite.
  - apply apply_replicated_lease_inv in H as [->|[r' H]]; [done|].
    pose proof (upsert_lease_unique _ _ _ _ _ H Hl).
    apply upsert_lease_inv in H as (? & ? & _); eauto with magnetite.
  - apply expire_stale_leases_unique in H as (? & ? & ?); eauto with magnetite.
  - apply release_lease_unique in H as (? & ? & ?); eauto with magnetite.
Qed.

Lemma reachable_ok s0 s : store_empty s0 -> rtc db_step s0 s -> store_ok s.
Proof.
  intros (Ep & Er & El) H. assert (store_ok s0) as H0.
  { unfold store_ok, pools_apart, reservations_ok, leases_unique. rewrite Ep, Er, El. simpl.
    split_and!; try (by intros; contradiction). constructor. }
  clear Ep Er El. induction H as [|? ? ? Hstep _ IH]; [done|]. apply IH. by eapply db_step_ok.
Qed.

(** C12: on every store the repository can reach, no address belongs to the
    range of two different pools. *)
Theorem pool_ranges_never_overlap s0 s k1 r1 k2 r2 :
  store_empty s0 -> rtc db_step s0 s ->
  In (k1, r1) (rows (pool_t s)) -> In (k2, r2) (rows (pool_t s)) -> k1 <> k2 ->
  (forall n a1 b1 a2 b2, range4 r1 = Some (a1, b1) -> range4 r2 = Some (a2, b2) ->
     a1 <= n <= b1 -> ~ (a2 <= n <= b2)) /\
  (forall n a1 b1 a2 b2, range6 r1 = Some (a1, b1) -> range6 r2 = Some (a2, b2) ->
     a1 <= n <= b1 -> ~ (a2 <= n <= b2)).
Proof.
  intros H0 Hr H1 H2 Hne. destruct (reachable_ok _ _ H0 Hr) as (Hp & _ & _).
  destruct (Hp k1 r1 k2 r2 H1 H2 Hne) as [A4 A6].
  split; intros n a1 b1 a2 b2 E1 E2 Hn1 Hn2;
    [specialize (A4 _ _ E1 E2) as A|specialize (A6 _ _ E1 E2) as A];
    unfold intervals_overlap in A; simpl in A; apply andb_false_iff in A as [A|A]; to_prop; lia.
Qed.

(** on every reachable store the reservations of a pool have pairwise
    different MAC and IP addresses, and their pool exists. *)
Theorem reservations_unique_and_attached s0 s :
  store_empty s0 -> rtc db_step s0 s ->
  (forall k1 r1 k2 r2, In (k1, r1) (rows (reservation_t s)) -> In (k2, r2) (rows (reservation_t s)) ->
     rr_pool_ref r1 = rr_pool_ref r2 ->
     rr_mac_address r1 = rr_mac_address r2 \/ rr_ip_address r1 = rr_ip_address r2 -> k1 = k2) /\
  (forall k r, In (k, r) (rows (reservation_t s)) -> exists p, In (rr_pool_ref r, p) (rows (pool_t s))).
Proof.
  intros H0 Hr. destruct (reachable_ok _ _ H0 Hr) as (_ & [H1 H2] & _). split; [|done].
  intros k1 r1 k2 r2 I1 I2 Hp Hor. destruct (decide (k1 = k2)); [done|].
  destruct (H1 k1 r1 k2 r2) as [? ?]; naive_solver.
Qed.

Lemma list_leases_one_per_ip now p s ls s' : leases_unique s -> list_leases now (Some p) s = (Ok ls, s') ->
  one_lease_per_ip ls.
Proof.
  intros Hu [_ Hls]%list_leases_inv. specialize (Hls ls eq_refl). intros l1 l2 H1 H2 E.
  apply (perm_In _ _ _ Hls), in_map_iff in H1 as ([k1 r1] & <- & [I1 P1]%filter_In).
  apply (perm_In _ _ _ Hls), in_map_iff in H2 as ([k2 r2] & <- & [I2 P2]%filter_In).
  simpl in *. apply String.eqb_eq in P1, P2.
  assert ((k1, r1) = (k2, r2)) as [= -> ->]; [|done].
  apply (NoDup_map_inj lease_key (rows (lease_t s))); [done..|]. unfold lease_key; simpl. congruence.
Qed.

(** on every reachable store the leases listed for a pool name each
    address at most once, which is what the allocator relies on. *)
Theorem leases_unique_per_address s0 s now p ls s' :
  store_empty s0 -> rtc db_step s0 s -> list_leases now (Some p) s = (Ok ls, s') ->
  NoDup (map lease_ip_address ls) /\ one_lease_per_ip ls.
Proof.
  intros H0 Hr H. destruct (reachable_ok _ _ H0 Hr) as (_ & _ & Hu).
  split; [|by eapply list_leases_one_per_ip].
  apply list_leases_inv in H as [_ Hls]. specialize (Hls ls eq_refl). rewrite Hls, map_map.
  unfold leases_unique in Hu. clear -Hu. induction (rows (lease_t s)) as [|[k r] l IH]; simpl; [constructor|].
  simpl in Hu. apply NoDup_cons in Hu as [Hn Hu]. destruct (String.eqb_spec (lr_pool_ref r) p) as [Ep|]; [|auto].
  simpl. constructor; [|auto]. intros Hin. apply Hn.
  apply list_elem_of_In, in_map_iff in Hin as ([k' r'] & Er & [Hin Hp]%filter_In). simpl in *.
  apply String.eqb_eq in Hp. apply list_elem_of_In, in_map_iff. exists (k', r'). split; [|done].
  unfold lease_key; simpl. congruence.
Qed.

(** ** What a lease upsert stores *)

Definition with_id (k : string) (l : Lease) : Lease :=
  mkLease k (lease_created_at l) (lease_updated_at l) (lease_created_by l) (lease_pool_ref l)
    (lease_ip_address l) (lease_mac_address l) (lease_client_id l) (lease_hostname l) (lease_state l)
    (lease_start l) (lease_expiry l) (lease_last_renewal l) (lease_protocol_version l).

(** The timestamps of the lease survive printing. *)
Definition times_ok (l : Lease) : Prop :=
  forall t, In t ([lease_created_at l; lease_updated_at l; lease_start l; lease_expiry l]
                  ++ from_option (fun t => [t]) [] (lease_last_renewal l)) ->
    parse_from_rfc3339 (to_rfc3339 t) = Some t.

Lemma lease_record_round_trip now k l : times_ok l ->
  LeaseRecord_into_model now (k, LeaseRecord_from_model l) = with_id k l.
Proof.
  intros H. unfold LeaseRecord_into_model, LeaseRecord_from_model, with_id, parse_rfc3339. simpl.
  unfold times_ok in H. simpl in H. rewrite !H by auto. simpl.
  assert (unwrap_or Expired (LeaseState_from_str (LeaseState_as_str (lease_state l))) = lease_state l) as ->
    by (by destruct (lease_state l)).
  assert ((λ s, unwrap_or now (parse_from_rfc3339 s)) <$> (to_rfc3339 <$> lease_last_renewal l) =
    lease_last_renewal l) as ->.
  { destruct (lease_last_renewal l) as [t|]; simpl; [|done]. rewrite H; [done|]. simpl. auto 10. }
  by destruct (lease_protocol_version l).
Qed.

(** a lease that was stored is read back unchanged under a fresh id; it
    is the only lease of its pool for that address, and the leases for other
    addresses are untouched. *)
Theorem upsert_then_list now now' l s l' s1 ls s2 :
  times_ok l ->
  upsert_lease now l s = (Ok l', s1) ->
  list_leases now' (Some (lease_pool_ref l)) s1 = (Ok ls, s2) ->
  exists k, l' = with_id k l /\
    forall x, In x ls <->
      x = with_id k l \/
      (lease_ip_address x <> lease_ip_address l /\
       exists kr, In kr (rows (lease_t s)) /\ lr_pool_ref kr.2 = lease_pool_ref l /\
                  x = LeaseRecord_into_model now' kr).
Proof.
  intros Ht (_ & _ & _ & H1 & _)%upsert_lease_inv [_ H2]%list_leases_inv.
  destruct (H1 l' eq_refl) as (k & -> & _ & Hrows). specialize (H2 ls eq_refl).
  exists k. split; [by apply lease_record_round_trip|]. intros x.
  rewrite <- list_elem_of_In, H2, list_elem_of_In, in_map_iff. split.
  - intros (kr & <- & [Hin Hp]%filter_In). apply (perm_In _ _ _ Hrows) in Hin as [<-|[Hin Hk]%filter_In].
    + left. by apply lease_record_round_trip.
    + right. apply String.eqb_eq in Hp. destruct kr as [k' r]; simpl in *. split; [|by exists (k', r)].
      intros E. unfold same_lease_key in Hk. rewrite Hp, E, !String.eqb_refl in Hk. done.
  - intros [->|(Hip & kr & Hin & Hp & ->)].
    + exists (k, LeaseRecord_from_model l). split; [by apply lease_record_round_trip|].
      apply filter_In. split; [|by apply String.eqb_eq]. apply (perm_In _ _ _ (symmetry Hrows)). by left.
    + exists kr. split; [done|]. apply filter_In. split; [|by apply String.eqb_eq].
      apply (perm_In _ _ _ (symmetry Hrows)). right. apply filter_In. split; [done|].
      destruct kr as [k' r]; simpl in *. apply negb_true_iff, andb_false_iff. right. by apply String.eqb_neq.
Qed.

(** ** Replication *)

Lemma lease_others_none l (s : store) :
  List.filter (fun kr => same_lease_key l kr.2)
    (List.filter (fun kr => negb (same_lease_key l kr.2)) (rows (lease_t s))) = [].
Proof. apply filter_none. intros kr [_ Hn]%filter_In. by apply negb_true_iff. Qed.

(** applying a replicated lease is idempotent: whatever the first
    application did, the second writes nothing. *)
Theorem apply_replicated_idempotent now now' l s b1 s1 b2 s2 :
  parse_from_rfc3339 (to_rfc3339 (lease_updated_at l)) = Some (lease_updated_at l) -> now <= now' ->
  apply_replicated_lease now l s = (Ok b1, s1) -> apply_replicated_lease now' l s1 = (Ok b2, s2) ->
  b2 = false /\ s2 = s1.
Proof.
  intros Ht Hnow H1 H2. unfold apply_replicated_lease in H1, H2. fold (same_lease_key l) in H1, H2.
  apply mbind_inv in H1 as [(e & _ & ?)|(ex1 & s' & [-> Q1]%read_inv & H1)]; [done|].
  apply mbind_inv in H2 as [(e & _ & ?)|(ex2 & s'' & [-> Q2]%read_inv & H2)]; [done|].
  enough (is_some_and (fun kr => lease_updated_at l <=? parse_rfc3339 now' (lr_updated_at kr.2)) (head ex2) = true)
    as Hskip by (rewrite Hskip in H2; by injection H2 as <- <-).
  destruct (is_some_and _ (head ex1)) eqn:E1.
  - injection H1 as <- <-. rewrite Q1 in Q2. injection Q2 as <-.
    apply is_some_and_true in E1 as (kr & Hh & Hle). rewrite Hh. simpl in *. to_prop. apply Z.leb_le.
    unfold parse_rfc3339 in *. destruct (parse_from_rfc3339 (lr_updated_at _)); simpl in *; lia.
  - apply mbind_inv in H1 as [(e & _ & ?)|(l' & s' & (_ & _ & _ & HO & _)%upsert_lease_inv & [= <- <-])]; [done|].
    destruct (HO l' eq_refl) as (k & _ & _ & Hrows).
    destruct (select_ok _ _ _ _ _ Q2 (proj1 unordered_order) (proj2 unordered_order)) as (all & Hall & _ & ->).
    assert (all = [(k, LeaseRecord_from_model l)]) as ->.
    { apply Permutation_singleton_r. rewrite Hall, Hrows. simpl.
      assert (same_lease_key l (LeaseRecord_from_model l) = true) as ->
        by (apply (same_lease_key_iff l (k, LeaseRecord_from_model l)); done).
      by rewrite lease_others_none. }
    simpl. unfold parse_rfc3339. rewrite Ht. simpl. apply Z.leb_le. lia.
Qed.

(** ** Paging through the lease feed *)

Definition feed_key (r : LeaseRecord) : string * string * string :=
  (lr_updated_at r, lr_pool_ref r, lr_ip_address r).

(** The lexicographic order of the query's tuples. *)
Definition key_lt (a b : string * string * string) : bool :=
  let '(a1, a2, a3) := a in
  let '(b1, b2, b3) := b in
  str_lt a1 b1 || (String.eqb a1 b1 && (str_lt a2 b2 || (String.eqb a2 b2 && str_lt a3 b3))).

Lemma key_lt_iff a1 a2 a3 b1 b2 b3 : key_lt (a1, a2, a3) (b1, b2, b3) = true <->
  str_lt a1 b1 = true \/ (a1 = b1 /\ (str_lt a2 b2 = true \/ (a2 = b2 /\ str_lt a3 b3 = true))).
Proof. unfold key_lt. by rewrite !orb_true_iff, !andb_true_iff, !String.eqb_eq, !orb_true_iff, !andb_true_iff, !String.eqb_eq. Qed.

Lemma key_lt_trans a b c : key_lt a b = true -> key_lt b c = true -> key_lt a c = true.
Proof.
  destruct a as [[a1 a2] a3], b as [[b1 b2] b3], c as [[c1 c2] c3]. rewrite !key_lt_iff.
  intros [?|[-> [?|[-> ?]]]] [?|[-> [?|[-> ?]]]]; eauto 8 using str_lt_trans.
Qed.

Lemma key_lt_irrefl a : key_lt a a = false.
Proof.
  destruct a as [[a1 a2] a3]. apply not_true_iff_false. rewrite key_lt_iff.
  rewrite !str_lt_irrefl. naive_solver.
Qed.

Lemma str_trichotomy a b : str_lt a b = true \/ a = b \/ str_lt b a = true.
Proof.
  destruct (str_le_total a b) as [H|H]; apply str_le_lt in H as [H|H]; auto.
Qed.

Lemma key_lt_total a b : key_lt a b = true \/ a = b \/ key_lt b a = true.
Proof.
  destruct a as [[a1 a2] a3], b as [[b1 b2] b3]. rewrite !key_lt_iff.
  destruct (str_trichotomy a1 b1) as [?|[->|?]]; [tauto| |tauto].
  destruct (str_trichotomy a2 b2) as [?|[->|?]]; [tauto| |tauto].
  destruct (str_trichotomy a3 b3) as [?|[->|?]]; tauto.
Qed.

(** The WHERE clause and the ORDER BY clause in terms of that order. *)
Lemma feed_after_key ts p i r : feed_after ts p i r = key_lt (ts, p, i) (feed_key r).
Proof.
  apply eq_true_iff_eq. unfold feed_key. rewrite key_lt_iff. unfold feed_after.
  rewrite !orb_true_iff, !andb_true_iff, !String.eqb_eq. naive_solver.
Qed.

Lemma feed_order_key a b : feed_order a b = true <-> feed_key a = feed_key b \/ key_lt (feed_key a) (feed_key b) = true.
Proof.
  unfold feed_key. rewrite key_lt_iff. unfold feed_order.
  rewrite !orb_true_iff, !andb_true_iff, !String.eqb_eq, !orb_true_iff, !andb_true_iff, !String.eqb_eq, str_le_lt.
  split.
  - intros [?|[? [?|[? [?|?]]]]]; first [tauto|left; congruence].
  - intros [E|?]; [injection E as E1 E2 E3; tauto|tauto].
Qed.

Lemma feed_order_laws :
  (forall x y, feed_order x y = true \/ feed_order y x = true) /\
  (forall x y z, feed_order x y = true -> feed_order y z = true -> feed_order x z = true).
Proof.
  split.
  - intros x y. rewrite !feed_order_key. destruct (key_lt_total (feed_key x) (feed_key y)) as [?|[?|?]]; auto.
  - intros x y z. rewrite !feed_order_key. intros [E1|H1] [E2|H2]; rewrite ?E1, <- ?E2 in *; eauto using key_lt_trans.
Qed.

Definition cursor_text (k : string * string * string) : string :=
  let '(ts, p, i) := k in ts +:+ "|" +:+ p +:+ "|" +:+ i.

Lemma splitn3_cursor ts p i : contains_char "|" ts = false -> contains_char "|" p = false ->
  splitn3 (cursor_text (ts, p, i)) = (ts, p, i).
Proof.
  intros H1 H2. unfold splitn3, cursor_text.
  change (ts +:+ "|" +:+ p +:+ "|" +:+ i) with (ts +:+ String "|" (p +:+ "|" +:+ i)).
  rewrite split_once_app by done. change (p +:+ "|" +:+ i) with (p +:+ String "|" i).
  by rewrite split_once_app by done.
Qed.

(** What the peer collects: pages are requested with the cursor of the previous
    one until a page is empty. *)
Fixpoint pull (n : nat) (now : Z) (cursor : string) (limit : nat) (s : store) : option (list Lease) :=
  match n with
  | O => None
  | S n' =>
      match dhcp_lease_feed now cursor limit s with
      | (Ok f, _) =>
          match feed_leases f with
          | [] => Some []
          | page => app page <$> pull n' now (feed_cursor f) limit s
          end
      | (Err _, _) => None
      end
  end.

Section paging.
Context (s : store) (limit : nat).
Hypothesis Hlimit : (0 < limit)%nat.
(** The reads of the feed succeed. *)
Hypothesis Hread : forall p, is_ok (select p feed_order (Some limit) (lease_t s)).
Hypothesis Hunique : leases_unique s.
(** The separator occurs in no timestamp and in no pool id. *)
Hypothesis Hsep : forall k r, In (k, r) (rows (lease_t s)) ->
  contains_char "|" (lr_updated_at r) = false /\ contains_char "|" (lr_pool_ref r) = false.

Definition rows_after (c : string * string * string) : list (string * LeaseRecord) :=
  List.filter (fun kr => key_lt c (feed_key kr.2)) (rows (lease_t s)).

(** Splitting the rows after a cursor at the last row of a page. *)
Lemma rows_after_page c page rest k r :
  page ++ (k, r) :: rest ≡ₚ rows_after c ->
  StronglySorted (fun a b => feed_order a.2 b.2 = true) (page ++ (k, r) :: rest) ->
  rows_after (feed_key r) ≡ₚ rest.
Proof.
  intros Hp Hs.
  assert (rows_after (feed_key r) = List.filter (fun kr => key_lt (feed_key r) (feed_key kr.2)) (rows_after c)) as ->.
  { unfold rows_after. rewrite filter_filter. apply filter_ext_in. intros kr Hin.
    assert (In (k, r) (rows_after c)) as [_ Hr]%filter_In by (rewrite <- list_elem_of_In, <- Hp; set_solver).
    destruct (key_lt (feed_key r) (feed_key kr.2)) eqn:E; [|by rewrite andb_false_r].
    by rewrite (key_lt_trans _ _ _ Hr E). }
  rewrite <- Hp, List.filter_app. cbn [List.filter snd]. rewrite key_lt_irrefl.
  assert (NoDup (map lease_key (page ++ (k, r) :: rest))) as Hnd
    by (rewrite Hp; by apply NoDup_map_filter).
  rewrite map_app in Hnd. simpl in Hnd. apply NoDup_app in Hnd as (_ & _ & [Hk _]%NoDup_cons).
  apply StronglySorted_app in Hs as (Hlt & _ & [_ Hgt]%StronglySorted_inv).
  rewrite filter_none; cbn [app].
  - replace (List.filter _ rest) with rest; [done|]. symmetry. apply forallb_filter_id, forallb_forall.
    intros kr Hin. rewrite Forall_forall in Hgt. specialize (Hgt kr ltac:(by apply list_elem_of_In)).
    apply feed_order_key in Hgt as [E|?]; [|done]. destruct Hk. apply list_elem_of_In, in_map_iff.
    exists kr. split; [|done]. unfold lease_key, feed_key in *. simpl in *. congruence.
  - intros kr Hin. specialize (Hlt kr (k, r) ltac:(by apply list_elem_of_In) ltac:(set_solver)).
    apply feed_order_key in Hlt as [E|Hlt]; apply not_true_iff_false; intros H'.
    + simpl in E. rewrite E, key_lt_irrefl in H'. done.
    + pose proof (key_lt_trans _ _ _ Hlt H') as H. by rewrite key_lt_irrefl in H.
Qed.

Lemma feed_page now c : 
  exists page rest, page ++ rest ≡ₚ rows_after c /\
    StronglySorted (fun a b => feed_order a.2 b.2 = true) (page ++ rest) /\
    (page = [] -> rest = []) /\
    (splitn3 (cursor_text c) = c -> dhcp_lease_feed now (cursor_text c) limit s =
      (Ok (mkDhcpLeaseFeed (map (LeaseRecord_into_model now) page)
             (match last page with Some (_, r) => cursor_text (feed_key r) | None => cursor_text c end)), s)).
Proof.
  destruct c as [[ts p] i]. destruct (Hread (feed_after ts p i)) as [l Hl].
  destruct (select_ok _ _ _ _ _ Hl (proj1 feed_order_laws) (proj2 feed_order_laws)) as (all & Hall & Hs & El).
  exists (take limit all), (drop limit all). rewrite take_drop. split_and!; [|done| |].
  - rewrite Hall. unfold rows_after. apply reflexive_eq, filter_ext. intros kr. apply feed_after_key.
  - intros E. destruct all; [by destruct limit|]. destruct limit; [lia|done].
  - intros E. unfold dhcp_lease_feed. rewrite E. unfold mbind_, read_t. rewrite Hl, El. simpl. done.
Qed.

Lemma pull_collects now n c :
  (length (rows_after c) < n)%nat -> splitn3 (cursor_text c) = c ->
  exists ls, pull n now (cursor_text c) limit s = Some ls /\
    ls ≡ₚ map (LeaseRecord_into_model now) (rows_after c).
Proof.
  revert c. induction n as [|n IH]; intros c Hn Hc; [lia|].
  destruct (feed_page now c) as (page & rest & Hperm & Hsort & Hnil & Hfeed).
  cbn [pull]. rewrite (Hfeed Hc). cbn [feed_leases feed_cursor].
  destruct (decide (page = [])) as [->|Hne].
  { rewrite Hnil in Hperm by done. simpl in Hperm. apply Permutation_nil in Hperm. rewrite Hperm. by exists []. }
  destruct (exists_last Hne) as (page' & [k r] & ->).
  rewrite last_snoc. rewrite <- app_assoc in Hperm, Hsort. simpl in Hperm, Hsort.
  pose proof (rows_after_page c page' rest k r Hperm Hsort) as Hrest.
  assert (length (rows_after (feed_key r)) < n)%nat as Hlen.
  { apply Permutation_length in Hrest, Hperm. rewrite length_app in Hperm. simpl in Hperm. lia. }
  assert (In (k, r) (rows (lease_t s))) as Hin.
  { assert (In (k, r) (rows_after c)) as Hin by (rewrite <- list_elem_of_In, <- Hperm; set_solver).
    by apply filter_In in Hin as [Hin _]. }
  destruct (Hsep k r Hin) as [H1 H2].
  destruct (IH (feed_key r) Hlen (splitn3_cursor _ _ _ H1 H2)) as (ls & Hpull & Hls).
  rewrite Hpull. rewrite map_app. destruct (map _ page' ++ _) eqn:Em; [by destruct page'|]. rewrite <- Em.
  eexists. split; [done|]. rewrite <- app_assoc, Hls, Hrest, <- Hperm. by rewrite map_app.
Qed.

(** The empty cursor is the cursor before every row. *)
Lemma pull_start now n :
  pull (S n) now EmptyString limit s = pull (S n) now (cursor_text (EmptyString, EmptyString, EmptyString)) limit s.
Proof.
  cbn [pull]. unfold dhcp_lease_feed.
  change (splitn3 (cursor_text (EmptyString, EmptyString, EmptyString))) with (splitn3 EmptyString).
  destruct (splitn3 EmptyString) as [[ts p] i]. unfold mbind_, read_t.
  destruct (select _ _ _ _) as [l|e]; [|done]. cbn. destruct (last l) as [[k r]|] eqn:El; [done|].
  apply last_None in El as ->. done.
Qed.

(** paging is complete.  A peer that starts from the empty cursor and
    follows the cursors it is given receives, in finitely many pages of whatever
    size, every lease exactly once. *)
Theorem lease_feed_complete now :
  (forall k r, In (k, r) (rows (lease_t s)) -> lr_updated_at r <> EmptyString) ->
  exists ls, pull (S (length (rows (lease_t s)))) now EmptyString limit s = Some ls /\
    ls ≡ₚ map (LeaseRecord_into_model now) (rows (lease_t s)).
Proof.
  intros Hts. set (c0 := (EmptyString, EmptyString, EmptyString) : string * string * string).
  assert (rows_after c0 = rows (lease_t s)) as E0.
  { apply forallb_filter_id, forallb_forall. intros [k r] Hin. unfold c0, feed_key. apply key_lt_iff. left.
    cbn [snd]. specialize (Hts k r Hin). by destruct (lr_updated_at r). }
  destruct (pull_collects now (S (length (rows (lease_t s)))) c0) as (ls & Hp & Hls); [rewrite E0; lia|done|].
  exists ls. rewrite E0 in Hls. split; [|done]. by rewrite pull_start.
Qed.
End paging.
End repository.

(** ** The repository on tables kept as lists *)

Definition list_store : Type :=
  Store (list_table PoolRecord) (list_table ReservationRecord) (list_table LeaseRecord)
    (list_table ConfigRecord) (list_table DhcpReplStateRecord).

Definition empty_store : list_store := mkStore lt_empty lt_empty lt_empty lt_empty lt_empty.

(** A stand-in for the RFC 3339 text of a timestamp: eight big-endian bytes. *)
Definition sample_to_rfc3339 (t : Z) : string := string_of_bytes (to_be_bytes 8 t).
Definition sample_parse_rfc3339 (s : string) : option Z := Some (from_be_bytes (bytes_of_string s)).

Definition sample_range (name first_ last_ : string) : Pool :=
  mkPool "" 0 0 "admin" name None (Some first_) (Some last_) None None None None [] None None true.

Definition sample_pools : list_store :=
  let s1 := (create_pool sample_to_rfc3339 sample_parse_rfc3339 7
               (sample_range "a" "192.0.2.10" "192.0.2.19") empty_store).2 in
  (create_pool sample_to_rfc3339 sample_parse_rfc3339 8
     (sample_range "b" "192.0.2.20" "192.0.2.29") s1).2.

Abbreviation sample_step := (db_step sample_to_rfc3339 sample_parse_rfc3339).

Lemma sample_pools_reachable : rtc sample_step empty_store sample_pools.
Proof.
  eapply rtc_l; [eapply step_create_pool; apply surjective_pairing|].
  eapply rtc_l; [eapply step_create_pool; apply surjective_pairing|]. apply rtc_refl.
Qed.

Lemma empty_store_empty : store_empty empty_store.
Proof. done. Qed.

Lemma pool_ranges_never_overlap_witness :
  ~ (3221226004 <= 3221226000 <= 3221226013).
Proof.
  refine (proj1 (pool_ranges_never_overlap sample_to_rfc3339 sample_parse_rfc3339 empty_store sample_pools
    "k" (PoolRecord_from_model (sample_range "a" "192.0.2.10" "192.0.2.19") (sample_to_rfc3339 7))
    "kk" (PoolRecord_from_model (sample_range "b" "192.0.2.20" "192.0.2.29") (sample_to_rfc3339 8))
    empty_store_empty sample_pools_reachable _ _ _) 3221226000 3221225994 3221226003 _ _ _ _ _).
  - vm_compute. right. by left.
  - vm_compute. by left.
  - done.
  - by vm_compute.
  - by vm_compute.
  - lia.
Defined.

Definition sample_reserved : list_store :=
  (create_reservation sample_to_rfc3339 sample_parse_rfc3339 9
     (mkReservation "" 0 0 "admin" "k" "aa:00:00:00:00:01" "192.0.2.12" None None) sample_pools).2.

Lemma sample_reserved_reachable : rtc sample_step empty_store sample_reserved.
Proof.
  transitivity sample_pools; [apply sample_pools_reachable|].
  eapply rtc_l; [eapply step_create_reservation; apply surjective_pairing|]. apply rtc_refl.
Qed.

Lemma reservations_unique_and_attached_witness :
  exists p, In ("k", p) (rows (pool_t sample_reserved)).
Proof.
  refine (proj2 (reservations_unique_and_attached sample_to_rfc3339 sample_parse_rfc3339 empty_store sample_reserved
    empty_store_empty sample_reserved_reachable) "k"
    (mkReservationRecord "k" "aa:00:00:00:00:01" "192.0.2.12" None None
       (sample_to_rfc3339 9) (sample_to_rfc3339 9) "admin") _).
  vm_compute. by left.
Defined.

Definition sample_db_lease (ip mac : string) (t : Z) : Lease :=
  mkLease "" t t "dhcp" "k" ip (Some mac) None None Active t (t + 3600) None ProtoV4.

Definition sample_leased : list_store :=
  let s1 := (upsert_lease sample_to_rfc3339 sample_parse_rfc3339 10
               (sample_db_lease "192.0.2.10" "aa:00:00:00:00:01" 10) sample_pools).2 in
  (upsert_lease sample_to_rfc3339 sample_parse_rfc3339 11
     (sample_db_lease "192.0.2.11" "aa:00:00:00:00:02" 11) s1).2.

Lemma sample_leased_reachable : rtc sample_step empty_store sample_leased.
Proof.
  transitivity sample_pools; [apply sample_pools_reachable|].
  eapply rtc_l; [eapply (step_upsert_lease _ _ 10 (sample_db_lease "192.0.2.10" "aa:00:00:00:00:01" 10));
    apply surjective_pairing|].
  eapply rtc_l; [eapply (step_upsert_lease _ _ 11 (sample_db_lease "192.0.2.11" "aa:00:00:00:00:02" 11));
    apply surjective_pairing|]. apply rtc_refl.
Qed.

Definition sample_listed : list Lease :=
  [with_id "kk" (sample_db_lease "192.0.2.11" "aa:00:00:00:00:02" 11);
   with_id "k" (sample_db_lease "192.0.2.10" "aa:00:00:00:00:01" 10)].

Lemma leases_unique_per_address_witness :
  NoDup (map lease_ip_address sample_listed) /\ one_lease_per_ip sample_listed.
Proof.
  apply (leases_unique_per_address sample_to_rfc3339 sample_parse_rfc3339 empty_store sample_leased 12 "k"
    sample_listed sample_leased); [apply empty_store_empty|apply sample_leased_reachable|by vm_compute].
Defined.

Lemma upsert_then_list_witness :
  let l := sample_db_lease "192.0.2.12" "aa:00:00:00:00:03" 13 in
  exists k, with_id "kkk" l = with_id k l /\
    forall x, In x (with_id "kkk" l :: sample_listed) <->
      x = with_id k l \/
      (lease_ip_address x <> lease_ip_address l /\
       exists kr, In kr (rows (lease_t sample_leased)) /\ lr_pool_ref kr.2 = lease_pool_ref l /\
                  x = LeaseRecord_into_model sample_parse_rfc3339 14 kr).
Proof.
  intros l.
  apply (upsert_then_list sample_to_rfc3339 sample_parse_rfc3339 13 14 l sample_leased (with_id "kkk" l)
    (upsert_lease sample_to_rfc3339 sample_parse_rfc3339 13 l sample_leased).2 _
    (upsert_lease sample_to_rfc3339 sample_parse_rfc3339 13 l sample_leased).2).
  - intros t Ht. cbv [l sample_db_lease app from_option lease_last_renewal lease_created_at
      lease_updated_at lease_start lease_expiry In Z.add] in Ht.
    destruct Ht as [<-|[<-|[<-|[<-|[]]]]]; by vm_compute.
  - by vm_compute.
  - by vm_compute.
Defined.

Lemma apply_replicated_idempotent_witness :
  let l := sample_db_lease "192.0.2.12" "aa:00:00:00:00:03" 13 in
  let s1 := (apply_replicated_lease sample_to_rfc3339 sample_parse_rfc3339 20 l sample_leased).2 in
  false = false /\ s1 = s1.
Proof.
  intros l s1.
  apply (apply_replicated_idempotent sample_to_rfc3339 sample_parse_rfc3339 20 21 l sample_leased true s1 false s1);
    [by vm_compute|lia|by vm_compute|by vm_compute].
Defined.

Lemma lease_feed_complete_witness :
  exists ls, pull sample_parse_rfc3339 (S (length (rows (lease_t sample_leased)))) 30 EmptyString 1 sample_leased = Some ls /\
    ls ≡ₚ map (LeaseRecord_into_model sample_parse_rfc3339 30) (rows (lease_t sample_leased)).
Proof.
  apply (lease_feed_complete sample_to_rfc3339 sample_parse_rfc3339 sample_leased 1).
  - lia.
  - intros p. eexists. reflexivity.
  - by destruct (reachable_ok _ _ _ _ empty_store_empty sample_leased_reachable) as (_ & _ & ?).
  - intros k r Hin. vm_compute in Hin. repeat destruct Hin as [[= <- <-]|Hin]; [by vm_compute..|done].
  - intros k r Hin. vm_compute in Hin. repeat destruct Hin as [[= <- <-]|Hin]; [by vm_compute..|done].
Defined.
