(* ===== verification/DhcpService.v ===== *)
(** * The DHCPv4 server

    Models [crates/magnetite-dhcp/src/wire.rs] (reading requests and building
    replies) and [service.rs] (the handler of one datagram, over the repository
    of [DhcpDb]).  A message is seen through the accessors of the [dhcproto]
    crate that the code uses; the codec itself ([from_bytes], [to_vec]) and
    [Message::default] are parameters.  Timestamps are nanoseconds. *)

From stdpp Require Import pretty.
From S2P Require Import Prelude Bytes RustStr RustNet Surreal Dhcp DhcpDb.
Local Open Scope db_scope.

(** ** Messages *)

Inductive Opcode := BootRequest | BootReply.

#[export] Instance Opcode_eq_dec : EqDecision Opcode.
Proof. solve_decision. Defined.

Inductive MessageType := Discover | Offer | Request | Decline | Ack | Nak | Release | Inform.

#[export] Instance MessageType_eq_dec : EqDecision MessageType.
Proof. solve_decision. Defined.

Inductive DhcpOption :=
| OMessageType (t : MessageType)
| OServerIdentifier (ip : Z)
| OAddressLeaseTime (secs : Z)
| ORenewal (secs : Z)
| ORebinding (secs : Z)
| OSubnetMask (ip : Z)
| ORouter (ips : list Z)
| ODomainNameServer (ips : list Z)
| ODomainName (s : string)
| ORequestedIpAddress (ip : Z)
| OHostname (s : string).

(** RFC 2132 option codes. *)
Definition option_code (o : DhcpOption) : Z :=
  match o with
  | OMessageType _ => 53
  | OServerIdentifier _ => 54
  | OAddressLeaseTime _ => 51
  | ORenewal _ => 58
  | ORebinding _ => 59
  | OSubnetMask _ => 1
  | ORouter _ => 3
  | ODomainNameServer _ => 6
  | ODomainName _ => 15
  | ORequestedIpAddress _ => 50
  | OHostname _ => 12
  end.

(** The options of a message, one per code. *)
Definition opt_get (code : Z) (opts : list DhcpOption) : option DhcpOption :=
  find (fun o => option_code o =? code) opts.
Definition opt_insert (o : DhcpOption) (opts : list DhcpOption) : list DhcpOption :=
  o :: List.filter (fun o' => negb (option_code o' =? option_code o)) opts.

Record Message := mkMessage {
  opcode : Opcode;
  xid : Z;
  broadcast : bool;
  ciaddr : Z;
  yiaddr : Z;
  siaddr : Z;
  giaddr : Z;
  chaddr : bytes;
  opts : list DhcpOption;
}.

Definition UNSPECIFIED : Z := 0.

Definition msg_type (msg : Message) : option MessageType :=
  match opt_get 53 (opts msg) with Some (OMessageType t) => Some t | _ => None end.

Definition hex_digit (d : Z) : string :=
  String (ascii_of_N (Z.to_N (if d <? 10 then 48 + d else 87 + d))) EmptyString.

(** [{:02x}] *)
Definition hex2 (b : Z) : string := hex_digit (b / 16) +:+ hex_digit (b mod 16).

Definition client_mac (msg : Message) : string :=
  match chaddr msg with
  | c0 :: c1 :: c2 :: c3 :: c4 :: c5 :: _ =>
      join ":" [hex2 c0; hex2 c1; hex2 c2; hex2 c3; hex2 c4; hex2 c5]
  | _ => "unknown"
  end.

Definition requested_ip (msg : Message) : option Z :=
  match opt_get 50 (opts msg) with Some (ORequestedIpAddress ip) => Some ip | _ => None end.

Definition hostname (msg : Message) : option string :=
  match opt_get 12 (opts msg) with Some (OHostname name) => Some name | _ => None end.

(** An IPv4 socket address. *)
Definition SocketAddr : Type := Z * Z.

Definition BROADCAST : Z := U32_MAX.

Definition reply_destination (msg : Message) : SocketAddr :=
  if negb (giaddr msg =? UNSPECIFIED) then (giaddr msg, 67)
  else if broadcast msg || (ciaddr msg =? UNSPECIFIED) then (BROADCAST, 68)
  else (ciaddr msg, 68).

Definition subnet_mask (pool : Pool) : option Z :=
  cidr ← subnet_v4 pool;
  text ← split "/" cidr !! 1%nat;
  prefix ← parse_u32 text;
  if 32 <? prefix then None else Some (mask32 prefix).

Definition parse_all (values : list string) : list Z := filter_map parse_ipv4 values.

(** [lease_secs * 7 / 8] on [u32]: an optimised build wraps at the
    multiplication, a build with overflow checks panics there. *)
Definition rebinding_secs (lease_secs : Z) : Z := u32 (lease_secs * 7) / 8.

Definition opt_when {A} (o : option A) (mk : A -> DhcpOption) (l : list DhcpOption) : list DhcpOption :=
  match o with Some a => opt_insert (mk a) l | None => l end.

Lemma opt_get_insert code o l :
  opt_get code (opt_insert o l) = if option_code o =? code then Some o else opt_get code l.
Proof.
  unfold opt_get, opt_insert. simpl. destruct (Z.eqb_spec (option_code o) code); [done|].
  induction l as [|o' l IH]; simpl; [done|].
  destruct (Z.eqb_spec (option_code o') (option_code o)) as [E|E]; simpl.
  - rewrite IH, E. by rewrite (proj2 (Z.eqb_neq _ _)).
  - destruct (option_code o' =? code); [done|exact IH].
Qed.

Lemma opt_get_when {A} code (o : option A) mk l :
  (forall a, option_code (mk a) <> code) -> opt_get code (opt_when o mk l) = opt_get code l.
Proof.
  intros Hc. destruct o as [a|]; cbn [opt_when]; [|done]. rewrite opt_get_insert.
  by rewrite (proj2 (Z.eqb_neq _ _)).
Qed.

Lemma renewal_times secs : 8 <= secs <= 613566756 -> secs / 2 < rebinding_secs secs < secs.
Proof. intros Hs. unfold rebinding_secs, u32. rewrite Z.mod_small by lia. dlia. Qed.

Section service.
Context {TP TR TL TC TS : Type}.
Context {PT : Table TP PoolRecord} {RT : Table TR ReservationRecord} {LT : Table TL LeaseRecord}
        {CT : Table TC ConfigRecord} {ST : Table TS DhcpReplStateRecord}.
Context (to_rfc3339 : Z -> string) (parse_from_rfc3339 : string -> option Z).
(** [Message::from_bytes], [Message::to_vec] and [Message::default]. *)
Context (from_bytes : bytes -> option Message) (to_vec : Message -> option bytes)
        (default_message : Message).

Abbreviation store := (Store TP TR TL TC TS).

Definition decode (b : bytes) : option Message :=
  m ← from_bytes b; if bool_decide (opcode m = BootRequest) then Some m else None.

Definition reply_message (request : Message) (mtype : MessageType) (yi : Z) (pool : Pool)
    (config : DhcpConfig) (server_ip lease_secs : Z) : Message :=
  let dns := match dns_servers pool with
             | [] => parse_all (default_dns_servers config)
             | ds => parse_all ds
             end in
  let domain := match domain_name pool with Some d => Some d | None => default_domain_name config end in
  let o := opts default_message in
  let o := opt_insert (OMessageType mtype) o in
  let o := opt_insert (OServerIdentifier server_ip) o in
  let o := opt_insert (OAddressLeaseTime lease_secs) o in
  let o := opt_insert (ORenewal (lease_secs / 2)) o in
  let o := opt_insert (ORebinding (rebinding_secs lease_secs)) o in
  let o := opt_when (subnet_mask pool) OSubnetMask o in
  let o := opt_when (gateway pool ≫= parse_ipv4) (fun gw => ORouter [gw]) o in
  let o := match dns with [] => o | _ => opt_insert (ODomainNameServer dns) o end in
  let o := opt_when domain ODomainName o in
  mkMessage BootReply (xid request) (broadcast request) (ciaddr default_message) yi server_ip
    (giaddr request) (chaddr request) o.

Definition build_reply (request : Message) (mtype : MessageType) (yi : Z) (pool : Pool)
    (config : DhcpConfig) (server_ip lease_secs : Z) : option bytes :=
  to_vec (reply_message request mtype yi pool config server_ip lease_secs).

Definition nak_message (request : Message) (server_ip : Z) : Message :=
  let o := opts default_message in
  let o := opt_insert (OMessageType Nak) o in
  let o := opt_insert (OServerIdentifier server_ip) o in
  mkMessage BootReply (xid request) (broadcast request) (ciaddr default_message)
    (yiaddr default_message) (siaddr default_message) (giaddr request) (chaddr request) o.

Definition build_nak (request : Message) (server_ip : Z) : option bytes :=
  to_vec (nak_message request server_ip).

(** ** The handler *)

Definition cidr_contains_v4 (cidr : string) (ip : Z) : bool :=
  match split_once "/" cidr with
  | None => false
  | Some (net, prefix) =>
      match parse_ipv4 (trim net), parse_u32 (trim prefix) with
      | Some net, Some prefix =>
          if 32 <? prefix then false
          else Z.land net (mask32 prefix) =? Z.land ip (mask32 prefix)
      | _, _ => false
      end
  end.

(** The log entries a call appends: level and text. *)
Inductive LogLevel := Info | Warn.

Record Server := mkServer { srv_db : store; srv_log : list (LogLevel * string) }.

(** A handler runs over the store and the log, and stops at [?] on [None]. *)
Definition H (A : Type) : Type := Server -> option A * Server.

Definition hret {A} (a : A) : H A := fun s => (Some a, s).
Definition hnone {A} : H A := fun s => (None, s).
Definition hbind {A B} (m : H A) (k : A -> H B) : H B :=
  fun s => match m s with (Some a, s') => k a s' | (None, s') => (None, s') end.
(** [query.await.ok()?] *)
Definition hquery {A} (q : M store A) : H A :=
  fun s => match q (srv_db s) with
           | (Ok a, db) => (Some a, mkServer db (srv_log s))
           | (Err _, db) => (None, mkServer db (srv_log s))
           end.
Definition hopt {A} (o : option A) : H A := fun s => (o, s).

Definition log_event_at (enabled : bool) (level : LogLevel) (message : string) : H unit :=
  fun s => (Some (), if enabled then mkServer (srv_db s) (srv_log s ++ [(level, message)]) else s).

Definition log_event (enabled : bool) (message : string) : H unit := log_event_at enabled Info message.

Local Notation "'let?' x ':=' m 'in' k" := (hbind m (fun x => k))
  (at level 200, x pattern, m at level 100, k at level 200).

Definition pool_exhausted (log_events : bool) (pool mac : string) : H unit :=
  log_event_at log_events Warn ("DHCP pool '" +:+ pool +:+ "' exhausted; no address for " +:+ mac).

Definition new_lease (now : Z) (pool_ref : string) (ip : Z) (mac : string) (host : option string)
    (state : LeaseState) (lease_secs : Z) : Lease :=
  mkLease "" now now "dhcp" pool_ref (ipv4_to_string ip) (Some mac) None host state now
    (now + lease_secs * 1000000000) None ProtoV4.

Definition persist_lease (now : Z) (pool_ref : string) (ip : Z) (mac : string) (host : option string)
    (state : LeaseState) (lease_secs : Z) : H unit :=
  let? _ := hquery (upsert_lease to_rfc3339 parse_from_rfc3339 now
                      (new_lease now pool_ref ip mac host state lease_secs)) in
  hret ().

(** What the handler reads before it decides. *)
Record View := mkView {
  view_pool : Pool;
  view_reservations : list Reservation;
  view_leases : list Lease;
  view_config : DhcpConfig;
}.

Definition select_pool (pools : list Pool) (selector : Z) : option Pool :=
  match find (fun p => match subnet_v4 p with Some c => cidr_contains_v4 c selector | None => false end) pools with
  | Some p => Some p
  | None => head pools
  end.

Definition read_view (now : Z) (msg : Message) (bind : Z) : H View :=
  let? all := hquery (list_pools parse_from_rfc3339 now) in
  let pools := List.filter (fun p => pool_enabled p && bool_decide (is_Some (range_start_v4 p))
                                     && bool_decide (is_Some (range_end_v4 p))) all in
  let selector := if negb (giaddr msg =? UNSPECIFIED) then giaddr msg else bind in
  let? pool := hopt (select_pool pools selector) in
  let? reservations := hquery (list_reservations parse_from_rfc3339 now (pool_id pool)) in
  let? leases := hquery (list_leases parse_from_rfc3339 now (Some (pool_id pool))) in
  let? config := hquery get_dhcp_config in
  hret (mkView pool reservations leases config).

Definition lease_secs (v : View) : Z :=
  Z.max (unwrap_or (default_lease_secs (view_config v)) (lease_duration_secs (view_pool v))) 1.

Definition server_ip (v : View) (bind : Z) : Z := unwrap_or bind (gateway (view_pool v) ≫= parse_ipv4).

Definition dec_str (ip : Z) : string := ipv4_to_string ip.

(** The part after the reads: what is stored, logged and answered. *)
Definition respond (now : Z) (msg : Message) (mtype : MessageType) (bind : Z) (log_events : bool)
    (partition : option PoolPartition) (v : View) : H (bytes * SocketAddr) :=
  let pool := view_pool v in
  let mac := client_mac msg in
  match mtype with
  | Discover =>
      match allocate_ip pool (view_reservations v) (view_leases v) mac (requested_ip msg) partition with
      | None => let? _ := pool_exhausted log_events (pool_name pool) mac in hnone
      | Some ip =>
          let? _ := persist_lease now (pool_id pool) ip mac (hostname msg) Offered (lease_secs v) in
          let? reply := hopt (build_reply msg Offer ip pool (view_config v) (server_ip v bind) (lease_secs v)) in
          let? _ := log_event log_events ("DHCPOFFER " +:+ dec_str ip +:+ " -> " +:+ mac) in
          hret (reply, reply_destination msg)
      end
  | Request =>
      let requested :=
        match requested_ip msg with
        | Some ip => Some ip
        | None => if negb (ciaddr msg =? UNSPECIFIED) then Some (ciaddr msg) else None
        end in
      match allocate_ip pool (view_reservations v) (view_leases v) mac requested partition with
      | None => let? _ := pool_exhausted log_events (pool_name pool) mac in hnone
      | Some ip =>
          if is_some_and (fun req => negb (req =? ip)) requested then
            let? nak := hopt (build_nak msg (server_ip v bind)) in
            let? _ := log_event log_events ("DHCPNAK " +:+ dec_str (unwrap_or 0 requested) +:+ " -> " +:+ mac) in
            hret (nak, (BROADCAST, 68))
          else
            let? _ := persist_lease now (pool_id pool) ip mac (hostname msg) Active (lease_secs v) in
            let? reply := hopt (build_reply msg Ack ip pool (view_config v) (server_ip v bind) (lease_secs v)) in
            let? _ := log_event log_events ("DHCPACK " +:+ dec_str ip +:+ " -> " +:+ mac +:+ " (" +:+ pretty (Z.to_N (lease_secs v)) +:+ "s)") in
            hret (reply, reply_destination msg)
      end
  | Release =>
      match find (fun l => is_releasable (lease_state l)
                           && bool_decide (parse_ipv4 (lease_ip_address l) = Some (ciaddr msg)))
              (view_leases v) with
      | Some lease =>
          fun s =>
            let s' := mkServer (release_lease to_rfc3339 now (lease_id lease) (srv_db s)).2 (srv_log s) in
            (None, (log_event log_events ("DHCPRELEASE " +:+ dec_str (ciaddr msg) +:+ " -> " +:+ mac) s').2)
      | None => hnone
      end
  | _ => hnone
  end.

Definition handle_message (now : Z) (b : bytes) (bind : Z) (log_events : bool)
    (partition : option PoolPartition) : H (bytes * SocketAddr) :=
  let? msg := hopt (decode b) in
  let? mtype := hopt (msg_type msg) in
  let? v := read_view now msg bind in
  respond now msg mtype bind log_events partition v.

(** ** Inversion of the handler *)

Lemma hbind_Some {A B} (m : H A) (k : A -> H B) s b s' :
  hbind m k s = (Some b, s') -> exists a s1, m s = (Some a, s1) /\ k a s1 = (Some b, s').
Proof. unfold hbind. destruct (m s) as [[a|] s1]; [naive_solver|done]. Qed.

Lemma hbind_inv {A B} (m : H A) (k : A -> H B) s o s' :
  hbind m k s = (o, s') ->
  (m s = (None, s') /\ o = None) \/ exists a s1, m s = (Some a, s1) /\ k a s1 = (o, s').
Proof. unfold hbind. destruct (m s) as [[a|] s1]; [right|left]; naive_solver. Qed.

Lemma hquery_inv {A} (q : M store A) s o s' : hquery q s = (o, s') ->
  exists r, q (srv_db s) = (r, srv_db s') /\ srv_log s' = srv_log s /\ (forall a, o = Some a -> r = Ok a).
Proof.
  unfold hquery. destruct (q (srv_db s)) as [[a|e] db]; intros [= <- <-]; eexists; naive_solver.
Qed.

(** The tables that the reads leave alone. *)
Definition same_tables (s s' : store) : Prop :=
  pool_t s' = pool_t s /\ reservation_t s' = reservation_t s /\ lease_t s' = lease_t s.

Lemma get_dhcp_config_tables (s s' : store) r : get_dhcp_config s = (r, s') -> same_tables s s'.
Proof.
  unfold get_dhcp_config. intros [(e & [-> _]%read_inv & ->)|(ex & s1 & [-> _]%read_inv & H)]%mbind_inv; [done|].
  destruct ex as [|[k rec] ex]; [|by injection H as <- <-].
  apply mbind_inv in H. unfold on_config in H. destruct (create _ (config_t s)) as [o t].
  destruct H as [(e & [= -> <-] & ->)|(a & s1 & [= -> <-] & H)]; [done|].
  destruct a as [[k rec]|]; by injection H as <- <-.
Qed.

Lemma read_view_inv now msg bind s o s1 : read_view now msg bind s = (o, s1) ->
  same_tables (srv_db s) (srv_db s1) /\ srv_log s1 = srv_log s /\
  forall v, o = Some v ->
    (exists all, list_pools parse_from_rfc3339 now (srv_db s) = (Ok all, srv_db s) /\
       select_pool (List.filter (fun p => pool_enabled p && bool_decide (is_Some (range_start_v4 p))
                                     && bool_decide (is_Some (range_end_v4 p))) all)
         (if negb (giaddr msg =? UNSPECIFIED) then giaddr msg else bind) = Some (view_pool v)) /\
    list_reservations parse_from_rfc3339 now (pool_id (view_pool v)) (srv_db s) = (Ok (view_reservations v), srv_db s) /\
    list_leases parse_from_rfc3339 now (Some (pool_id (view_pool v))) (srv_db s) = (Ok (view_leases v), srv_db s).
Proof.
  unfold read_view. intros H.
  apply hbind_inv in H as [[(r & Hq & Hlog & _)%hquery_inv ->]|(all & s2 & (r & Hq & Hlog & Ho)%hquery_inv & H)].
  { apply list_pools_inv in Hq as [-> _]. done. }
  specialize (Ho all eq_refl) as ->. pose proof (list_pools_inv _ _ _ _ _ Hq) as [E2 _]. rewrite E2 in Hq.
  apply hbind_inv in H as [[[= Hp <-] ->]|(pool & s3 & [= Hp <-] & H)]; [by rewrite E2|].
  apply hbind_inv in H as [[(r & Hq3 & Hlog3 & _)%hquery_inv ->]|(rs & s4 & (r & Hq3 & Hlog3 & Ho3)%hquery_inv & H)].
  { apply list_reservations_inv in Hq3 as [-> _]. rewrite E2. split_and!; [done|congruence|done]. }
  specialize (Ho3 rs eq_refl) as ->. pose proof (list_reservations_inv _ _ _ _ _ _ Hq3) as [E3 _]. rewrite E3, E2 in Hq3.
  apply hbind_inv in H as [[(r & Hq4 & Hlog4 & _)%hquery_inv ->]|(ls & s5 & (r & Hq4 & Hlog4 & Ho4)%hquery_inv & H)].
  { apply list_leases_inv in Hq4 as [-> _]. rewrite E3, E2. split_and!; [done|congruence|done]. }
  specialize (Ho4 ls eq_refl) as ->. pose proof (list_leases_inv _ _ _ _ _ _ Hq4) as [E4 _]. rewrite E4, E3, E2 in Hq4.
  apply hbind_inv in H as [[(r & Hq5 & Hlog5 & _)%hquery_inv ->]|(c & s6 & (r & Hq5 & Hlog5 & _)%hquery_inv & [= <- <-])];
    apply get_dhcp_config_tables in Hq5; rewrite E4, E3, E2 in Hq5; (split_and!; [done|congruence|]).
  - done.
  - intros v [= <-]. simpl. split_and!; [by exists all|done|done].
Qed.

Lemma persist_lease_inv now p ip mac host st secs s o s' :
  persist_lease now p ip mac host st secs s = (o, s') ->
  srv_log s' = srv_log s /\
  exists r, upsert_lease to_rfc3339 parse_from_rfc3339 now (new_lease now p ip mac host st secs) (srv_db s)
              = (r, srv_db s') /\ (forall u, o = Some u -> is_ok r).
Proof.
  unfold persist_lease.
  intros [[(r & Hq & Hlog & _)%hquery_inv ->]|(a & s1 & (r & Hq & Hlog & Ho)%hquery_inv & [= <- <-])]%hbind_inv;
    (split; [done|]); exists r; (split; [done|]); [done|]. intros _ _. exists a. by apply Ho.
Qed.

(** Logging is the last effect and does not touch the store. *)
Lemma log_event_inv en lv m s u s' : log_event_at en lv m s = (u, s') -> srv_db s' = srv_db s.
Proof. unfold log_event_at. intros [= <- <-]. by destruct en. Qed.

(** Every effect of a handler on the store is a call of the repository. *)
Lemma respond_store now msg t bind en part v s o s' :
  respond now msg t bind en part v s = (o, s') ->
  srv_db s' = srv_db s \/ db_step to_rfc3339 parse_from_rfc3339 (srv_db s) (srv_db s').
Proof.
  assert (forall ip st k txt,
    hbind (persist_lease now (pool_id (view_pool v)) ip (client_mac msg) (hostname msg) st (lease_secs v))
       (fun _ => hbind (hopt (build_reply msg k ip (view_pool v) (view_config v) (server_ip v bind) (lease_secs v)))
          (fun reply => hbind (log_event en txt) (fun _ => hret (reply, reply_destination msg)))) s = (o, s') ->
    db_step to_rfc3339 parse_from_rfc3339 (srv_db s) (srv_db s')) as Hgrant.
  { intros ip st k txt H.
    apply hbind_inv in H as [[(_ & r & Hu & _)%persist_lease_inv ->]|(a & s1 & (_ & r & Hu & _)%persist_lease_inv & H)];
      [by eapply step_upsert_lease|].
    apply hbind_inv in H as [[[= _ <-] ->]|(reply & s2 & [= _ <-] & H)]; [by eapply step_upsert_lease|].
    apply hbind_inv in H as [[Hl%log_event_inv ->]|(u & s3 & Hl%log_event_inv & [= <- <-])];
      rewrite Hl; by eapply step_upsert_lease. }
  unfold respond. destruct t; try (intros [= <- <-]; by left).
  - destruct (allocate_ip _ _ _ _ _ _); [right; by eapply Hgrant|].
    intros [[Hl%log_event_inv ->]|(u & s1 & Hl%log_event_inv & [= <- <-])]%hbind_inv; by left.
  - destruct (allocate_ip _ _ _ _ _ _).
    + destruct (is_some_and _ _); [|right; by eapply Hgrant]. intros H. left.
      apply hbind_inv in H as [[[= _ <-] ->]|(reply & s2 & [= _ <-] & H)]; [done|].
      by apply hbind_inv in H as [[Hl%log_event_inv ->]|(u & s3 & Hl%log_event_inv & [= <- <-])].
    + intros [[Hl%log_event_inv ->]|(u & s1 & Hl%log_event_inv & [= <- <-])]%hbind_inv; by left.
  - destruct (find _ _) as [l|]; [|intros [= <- <-]; by left]. intros [= <- <-]. right.
    unfold log_event, log_event_at. simpl. eapply step_release.
    destruct en; simpl; apply surjective_pairing.
Qed.

(** no datagram breaks the repository's invariants: after the handler
    has run, whatever was received and whichever queries failed, pools are still
    apart, reservations unique and attached, and leases unique per address. *)
Theorem handle_message_store_ok now b bind en part s o s' :
  handle_message now b bind en part s = (o, s') -> store_ok (srv_db s) -> store_ok (srv_db s').
Proof.
  unfold handle_message. intros H Hok.
  apply hbind_inv in H as [[[= _ <-] ->]|(msg & s1 & [= _ <-] & H)]; [done|].
  apply hbind_inv in H as [[[= _ <-] ->]|(t & s1 & [= _ <-] & H)]; [done|].
  assert (forall s1, same_tables (srv_db s) (srv_db s1) -> store_ok (srv_db s1)) as Hsame.
  { intros s1 (E1 & E2 & E3). destruct Hok as (? & ? & ?). split_and!;
      [by eapply pools_apart_frame|by eapply reservations_ok_frame|by eapply leases_unique_frame]. }
  apply hbind_inv in H as [[(Ht & _)%read_view_inv ->]|(v & s1 & (Ht & _)%read_view_inv & H)]; [auto|].
  apply respond_store in H as [->|Hstep]; [auto|]. eapply db_step_ok; [done|auto].
Qed.

(** The address a grant of [respond] picks. *)
Lemma respond_grant now msg t bind en part v s reply dest s' :
  (t = Discover \/ t = Request) ->
  respond now msg t bind en part v s = (Some (reply, dest), s') ->
  (t = Request /\ build_nak msg (server_ip v bind) = Some reply /\ srv_db s' = srv_db s) \/
  exists ip req st k,
    allocate_ip (view_pool v) (view_reservations v) (view_leases v) (client_mac msg) req part = Some ip /\
    (t = Discover /\ st = Offered /\ k = Offer \/ t = Request /\ st = Active /\ k = Ack) /\
    build_reply msg k ip (view_pool v) (view_config v) (server_ip v bind) (lease_secs v) = Some reply /\
    dest = reply_destination msg /\
    exists l, upsert_lease to_rfc3339 parse_from_rfc3339 now
      (new_lease now (pool_id (view_pool v)) ip (client_mac msg) (hostname msg) st (lease_secs v)) (srv_db s)
      = (Ok l, srv_db s').
Proof.
  intros Ht. unfold respond.
  assert (forall ip st k txt,
    hbind (persist_lease now (pool_id (view_pool v)) ip (client_mac msg) (hostname msg) st (lease_secs v))
       (fun _ => hbind (hopt (build_reply msg k ip (view_pool v) (view_config v) (server_ip v bind) (lease_secs v)))
          (fun reply => hbind (log_event en txt) (fun _ => hret (reply, reply_destination msg)))) s
      = (Some (reply, dest), s') ->
    build_reply msg k ip (view_pool v) (view_config v) (server_ip v bind) (lease_secs v) = Some reply /\
    dest = reply_destination msg /\
    exists l, upsert_lease to_rfc3339 parse_from_rfc3339 now
      (new_lease now (pool_id (view_pool v)) ip (client_mac msg) (hostname msg) st (lease_secs v)) (srv_db s)
      = (Ok l, srv_db s')) as Hgrant.
  { intros ip st k txt (a & s1 & (_ & r & Hu & Hr)%persist_lease_inv & H)%hbind_Some.
    destruct (Hr a eq_refl) as [l ->].
    apply hbind_Some in H as (rep & s2 & [= Hb <-] & (u & s3 & Hl%log_event_inv & [= <- <- <-])%hbind_Some).
    split_and!; [done|done|]. exists l. by rewrite Hl. }
  destruct Ht as [-> | ->].
  - destruct (allocate_ip _ _ _ _ _ _) as [ip|] eqn:Ea;
      [|intros (u & s1 & _ & ?)%hbind_Some; done].
    intros (? & ? & ?)%Hgrant. right. exists ip, (requested_ip msg), Offered, Offer. tauto.
  - match goal with |- context [allocate_ip _ _ _ _ ?r _] => set (req := r) end.
    destruct (allocate_ip _ _ _ _ req _) as [ip|] eqn:Ea;
      [|intros (u & s1 & _ & ?)%hbind_Some; done].
    destruct (is_some_and _ req).
    + intros (nak & s1 & [= Hn <-] & (u & s2 & Hl%log_event_inv & [= <- <- <-])%hbind_Some)%hbind_Some.
      left. done.
    + intros (? & ? & ?)%Hgrant. right. exists ip, req, Active, Ack. tauto.
Qed.

(** The lease rows of the pool [p] that hold [ip] belong to [mac]. *)
Definition ip_held_only_by (s : store) (p : string) (mac : string) (ip : Z) : Prop :=
  forall k r, In (k, r) (rows (lease_t s)) -> lr_pool_ref r = p ->
    lr_state r = "active" \/ lr_state r = "offered" ->
    parse_ipv4 (lr_ip_address r) = Some ip ->
    exists m, lr_mac_address r = Some m /\ mac_eq m mac = true.


(** ** The four-message exchange *)

(** The stored timestamps of pools and reservations can be read back. *)
Definition timestamps_readable (s : store) : Prop :=
  (forall k r, In (k, r) (rows (pool_t s)) ->
     is_Some (parse_from_rfc3339 (pr_created_at r)) /\ is_Some (parse_from_rfc3339 (pr_updated_at r))) /\
  (forall k r, In (k, r) (rows (reservation_t s)) ->
     is_Some (parse_from_rfc3339 (rr_created_at r)) /\ is_Some (parse_from_rfc3339 (rr_updated_at r))).

Lemma list_pools_later now now' (s s1 : store) ps :
  pool_t s1 = pool_t s -> timestamps_readable s ->
  list_pools parse_from_rfc3339 now s = (Ok ps, s) -> list_pools parse_from_rfc3339 now' s1 = (Ok ps, s1).
Proof.
  intros E [Hts _]. unfold list_pools.
  intros [(e & _ & ?)|(recs & s2 & [-> Hq]%read_inv & [= <-])]%mbind_inv; [done|].
  unfold mbind_, read_t. rewrite E, Hq. unfold mret. do 2 f_equal.
  apply map_ext_in. intros [k r] Hin.
  destruct (str_le_order pr_name) as [Ht Htr]. apply (perm_In _ _ _ (select_all _ _ _ _ Hq Ht Htr)) in Hin.
  apply filter_In in Hin as [Hin _]. destruct (Hts k r Hin) as [[a Ea] [b Eb]].
  unfold PoolRecord_into_model, parse_rfc3339. by rewrite Ea, Eb.
Qed.

Lemma list_reservations_later now now' p (s s1 : store) rs :
  reservation_t s1 = reservation_t s -> timestamps_readable s ->
  list_reservations parse_from_rfc3339 now p s = (Ok rs, s) ->
  list_reservations parse_from_rfc3339 now' p s1 = (Ok rs, s1).
Proof.
  intros E [_ Hts]. unfold list_reservations.
  intros [(e & _ & ?)|(recs & s2 & [-> Hq]%read_inv & [= <-])]%mbind_inv; [done|].
  unfold mbind_, read_t. rewrite E, Hq. unfold mret. do 2 f_equal.
  apply map_ext_in. intros [k r] Hin.
  destruct (str_le_order rr_ip_address) as [Ht Htr]. apply (perm_In _ _ _ (select_all _ _ _ _ Hq Ht Htr)) in Hin.
  apply filter_In in Hin as [Hin _]. destruct (Hts k r Hin) as [[a Ea] [b Eb]].
  unfold ReservationRecord_into_model, parse_rfc3339. by rewrite Ea, Eb.
Qed.

(** A lease stored later than the others of its pool is listed first. *)
Lemma upserted_listed_first now now' l (s s1 : store) l' ls s2 :
  (forall k r, In (k, r) (rows (lease_t s)) -> str_lt (lr_lease_start r) (to_rfc3339 (lease_start l)) = true) ->
  upsert_lease to_rfc3339 parse_from_rfc3339 now l s = (Ok l', s1) ->
  list_leases parse_from_rfc3339 now' (Some (lease_pool_ref l)) s1 = (Ok ls, s2) ->
  exists k rest, ls = LeaseRecord_into_model parse_from_rfc3339 now' (k, LeaseRecord_from_model to_rfc3339 l) :: rest.
Proof.
  intros Hlt (_ & _ & _ & HO & _)%upsert_lease_inv H. destruct (HO l' eq_refl) as (k & _ & _ & Hrows).
  unfold list_leases in H. apply mbind_inv in H as [(e & _ & ?)|(recs & s3 & [-> Hq]%read_inv & [= <- <-])]; [done|].
  apply select_ok in Hq as (all & Hall & Hs & ->);
    [|intros; apply or_comm, str_le_total|intros; by eapply str_le_trans].
  simpl. set (new := (k, LeaseRecord_from_model to_rfc3339 l)) in *.
  destruct all as [|x all].
  { apply Permutation_nil in Hall. exfalso.
    assert (In new (List.filter (fun kr => String.eqb (lr_pool_ref kr.2) (lease_pool_ref l)) (rows (lease_t s1)))) as Hin
      by (apply filter_In; split; [apply (perm_In _ _ _ (symmetry Hrows)); by left|by apply String.eqb_eq]).
    by rewrite Hall in Hin. }
  exists k. fold new. destruct (decide (x.1 = k)) as [Ek|Hne].
  - assert (x = new) as ->; [|by eexists]. assert (In x (rows (lease_t s1))) as Hx.
    { assert (In x (x :: all)) as Hin by by left. apply (perm_In _ _ _ Hall), filter_In in Hin. tauto. }
    assert (In new (rows (lease_t s1))) as Hn by (apply (perm_In _ _ _ (symmetry Hrows)); by left).
    destruct x as [k' r]; simpl in Ek; subst k'. unfold new in *. f_equal. by eapply rows_key_inj.
  - exfalso. assert (In new all) as Hn.
    { assert (In new (x :: all)) as [->|]; [|done|done].
      apply (perm_In _ _ _ (symmetry Hall)), filter_In. split; [|by apply String.eqb_eq].
      apply (perm_In _ _ _ (symmetry Hrows)). by left. }
    apply StronglySorted_inv in Hs as [_ Hf]. rewrite Forall_forall in Hf.
    specialize (Hf new ltac:(by apply list_elem_of_In)). simpl in Hf.
    assert (In x (rows (lease_t s1))) as Hx.
    { assert (In x (x :: all)) as Hin by by left. apply (perm_In _ _ _ Hall), filter_In in Hin. tauto. }
    apply (perm_In _ _ _ Hrows) in Hx as [<-|[Hx _]%filter_In]; [done|].
    destruct x as [k' r]. specialize (Hlt k' r Hx). simpl in Hf.
    apply str_lt_not_le in Hf. congruence.
Qed.

Lemma reply_message_type request mtype yi pool config sip secs :
  msg_type (reply_message request mtype yi pool config sip secs) = Some mtype.
Proof.
  unfold msg_type, reply_message. cbv zeta. cbn [opts]. rewrite opt_get_when by done.
  assert (forall dns l, opt_get 53 (match dns with [] => l | _ => opt_insert (ODomainNameServer dns) l end) = opt_get 53 l)
    as -> by (intros [|d ds] l; [done|exact (opt_get_insert 53 (ODomainNameServer (d :: ds)) l)]).
  rewrite !opt_get_when by done. by rewrite !opt_get_insert.
Qed.

Section exchange.
Context {PTT : TotalTable TP PoolRecord} {RTT : TotalTable TR ReservationRecord}
        {LTT : TotalTable TL LeaseRecord} {CTT : TotalTable TC ConfigRecord}.
(** The codec encodes every message and decodes what it encoded. *)
Hypothesis to_vec_total : forall m, is_Some (to_vec m).
Hypothesis codec : forall m b, to_vec m = Some b -> from_bytes b = Some m.

Lemma get_dhcp_config_total (s : store) : exists c s', get_dhcp_config s = (Ok c, s') /\ same_tables s s'.
Proof.
  destruct (get_dhcp_config s) as [r s'] eqn:E. pose proof (get_dhcp_config_tables _ _ _ E) as Ht.
  unfold get_dhcp_config, mbind_, read_t in E.
  destruct (select_total (fun _ => true) unordered (Some 1%nat) (config_t s)) as [l Hl]. rewrite Hl in E.
  destruct l as [|[k rec] l]; [|injection E as <- <-; by do 2 eexists].
  unfold on_config in E.
  destruct (create_total (ConfigRecord_from_model DhcpConfig_default) (config_t s)) as (k & t & Hc).
  rewrite Hc in E. injection E as <- <-. by do 2 eexists.
Qed.

Lemma list_leases_total now p (s : store) : exists ls, list_leases parse_from_rfc3339 now (Some p) s = (Ok ls, s).
Proof.
  unfold list_leases, mbind_, read_t.
  match goal with |- context [select ?p ?le ?n ?t] => destruct (select_total p le n t) as [l ->] end.
  by eexists.
Qed.

Lemma upsert_lease_total now l (s : store) : exists l' s', upsert_lease to_rfc3339 parse_from_rfc3339 now l s = (Ok l', s').
Proof.
  unfold upsert_lease, mbind_, on_leases.
  match goal with |- context [delete_where ?p ?t] => destruct (delete_where_total p t) as [t1 ->] end.
  simpl. match goal with |- context [create ?r ?t] => destruct (create_total r t) as (k & t2 & ->) end.
  by do 2 eexists.
Qed.

(** A handler that reads [v] and grants [ip] to a REQUEST for it answers ACK. *)
Lemma respond_ack now msg bind en part v s ip :
  requested_ip msg = Some ip ->
  allocate_ip (view_pool v) (view_reservations v) (view_leases v) (client_mac msg) (Some ip) part = Some ip ->
  exists reply s', respond now msg Request bind en part v s = (Some (reply, reply_destination msg), s') /\
    from_bytes reply = Some (reply_message msg Ack ip (view_pool v) (view_config v) (server_ip v bind) (lease_secs v)).
Proof.
  intros Hreq Ha. unfold respond. rewrite Hreq, Ha. simpl. rewrite Z.eqb_refl. simpl.
  unfold hbind, persist_lease, hbind, hquery.
  match goal with |- context [upsert_lease _ _ ?n ?l ?s] => destruct (upsert_lease_total n l s) as (l' & s' & ->) end.
  simpl. unfold hopt, build_reply.
  destruct (to_vec_total (reply_message msg Ack ip (view_pool v) (view_config v) (server_ip v bind) (lease_secs v)))
    as [b Hb]. rewrite Hb. do 2 eexists. split; [done|]. by apply codec.
Qed.

(** C30: the four-message exchange completes.  A client that was offered an
    address and then requests it (before anything else happens) is acknowledged
    that very address. *)
Theorem dora_completes now now' b1 b2 bind en part discover request offer s reply1 dest1 s1 :
  partition_ok part -> timestamps_readable (srv_db s) ->
  (forall k r, In (k, r) (rows (lease_t (srv_db s))) -> str_lt (lr_lease_start r) (to_rfc3339 now) = true) ->
  decode b1 = Some discover -> msg_type discover = Some Discover ->
  handle_message now b1 bind en part s = (Some (reply1, dest1), s1) ->
  from_bytes reply1 = Some offer ->
  decode b2 = Some request -> msg_type request = Some Request ->
  client_mac request = client_mac discover -> giaddr request = giaddr discover ->
  requested_ip request = Some (yiaddr offer) ->
  exists reply2 dest2 s2 ack,
    handle_message now' b2 bind en part s1 = (Some (reply2, dest2), s2) /\
    from_bytes reply2 = Some ack /\ msg_type ack = Some Ack /\ yiaddr ack = yiaddr offer.
Proof.
  intros Hpart Hts Hold Hd1 Ht1 H1 Hoffer Hd2 Ht2 Hmac Hgi Hreq.
  unfold handle_message in *. rewrite Hd1 in H1. rewrite Hd2.
  apply hbind_Some in H1 as (m & sx & [= <- <-] & H1). rewrite Ht1 in H1.
  apply hbind_Some in H1 as (t & sx & [= <- <-] & H1).
  apply hbind_Some in H1 as (v & sv & ((Ep & Er & El) & _ & Hv)%read_view_inv & H1).
  destruct (Hv v eq_refl) as ((all & Hall & Hsel) & Hres & Hls).
  apply respond_grant in H1 as [(? & _)|(ip & req & st & k & Ha & Hk & Hb & _ & l & Hup)]; [done| |by left].
  destruct Hk as [(_ & -> & ->)|(? & _)]; [|done].
  assert (yiaddr offer = ip) as Eip.
  { apply codec in Hb. rewrite Hb in Hoffer. by injection Hoffer as <-. }
  rewrite Eip in *. clear Hoffer Hb.
  pose proof (upsert_lease_inv _ _ _ _ _ _ _ Hup) as (Ep1 & Er1 & _).
  rewrite Ep in Ep1. rewrite Er in Er1.
  destruct (list_leases_total now' (pool_id (view_pool v)) (srv_db s1)) as [ls Hls1].
  rewrite <- El in Hold.
  match type of Hup with upsert_lease _ _ _ ?L _ = _ =>
    destruct (upserted_listed_first now now' L _ _ _ _ _ Hold Hup Hls1) as (key & rest & Els) end.
  destruct (get_dhcp_config_total (srv_db s1)) as (cfg & db' & Hcfg & _).
  set (v' := mkView (view_pool v) (view_reservations v) ls cfg).
  assert (read_view now' request bind s1 = (Some v', mkServer db' (srv_log s1))) as Hread.
  { unfold read_view, hbind, hquery, hopt. rewrite (list_pools_later now now' _ _ _ Ep1 Hts Hall). simpl.
    rewrite Hgi, Hsel. simpl. rewrite (list_reservations_later now now' _ _ _ _ Er1 Hts Hres). simpl.
    rewrite Hls1. simpl. by rewrite Hcfg. }
  destruct (respond_ack now' request bind en part v' (mkServer db' (srv_log s1)) ip Hreq) as (reply & s2 & Hresp & Hdec).
  { simpl. rewrite Hmac, Els. eapply allocate_ip_again; [done|exact Ha|done|done|done]. }
  exists reply, (reply_destination request), s2. eexists. split_and!.
  - unfold hbind, hopt. rewrite Ht2. by rewrite Hread.
  - exact Hdec.
  - apply reply_message_type.
  - done.
Qed.
End exchange.

(** renewal times.  For every lease shorter than about 19 years the
    renewal time precedes the rebinding time, which precedes the expiry. *)
Theorem renewal_before_rebinding request mtype yi pool config sip secs :
  8 <= secs <= 613566756 ->
  exists t1 t2, opt_get 58 (opts (reply_message request mtype yi pool config sip secs)) = Some (ORenewal t1) /\
    opt_get 59 (opts (reply_message request mtype yi pool config sip secs)) = Some (ORebinding t2) /\
    opt_get 51 (opts (reply_message request mtype yi pool config sip secs)) = Some (OAddressLeaseTime secs) /\
    t1 < t2 < secs.
Proof using default_message.
  intros Hs. exists (secs / 2), (rebinding_secs secs).
  assert (forall code dns l, code <> 6 ->
    opt_get code (match dns with [] => l | _ => opt_insert (ODomainNameServer dns) l end) = opt_get code l) as Hdns.
  { intros code [|d ds] l Hc; [done|].
    etransitivity; [apply (opt_get_insert code (ODomainNameServer (d :: ds)) l)|].
    change (option_code _) with 6. by rewrite (proj2 (Z.eqb_neq 6 code)). }
  unfold reply_message. cbv zeta. cbn [opts].
  split_and!; try (rewrite opt_get_when, Hdns, !opt_get_when by done; rewrite !opt_get_insert; done);
    by apply renewal_times.
Qed.
End service.

(** ** The server on tables kept as lists *)

Definition type_code (t : MessageType) : Z :=
  match t with
  | Discover => 1 | Offer => 2 | Request => 3 | Decline => 4
  | Ack => 5 | Nak => 6 | Release => 7 | Inform => 8
  end.

Definition type_of_code (n : Z) : MessageType :=
  if n =? 1 then Discover else if n =? 2 then Offer else if n =? 3 then Request
  else if n =? 4 then Decline else if n =? 5 then Ack else if n =? 6 then Nak
  else if n =? 7 then Release else Inform.

Definition option_data (o : DhcpOption) : Z * list Z * string :=
  match o with
  | OMessageType t => (53, [type_code t], EmptyString)
  | OServerIdentifier n => (54, [n], EmptyString)
  | OAddressLeaseTime n => (51, [n], EmptyString)
  | ORenewal n => (58, [n], EmptyString)
  | ORebinding n => (59, [n], EmptyString)
  | OSubnetMask n => (1, [n], EmptyString)
  | ORouter l => (3, l, EmptyString)
  | ODomainNameServer l => (6, l, EmptyString)
  | ODomainName s => (15, [], s)
  | ORequestedIpAddress n => (50, [n], EmptyString)
  | OHostname s => (12, [], s)
  end.

Definition option_of_data (d : Z * list Z * string) : option DhcpOption :=
  let '(code, l, s) := d in
  if code =? 3 then Some (ORouter l)
  else if code =? 6 then Some (ODomainNameServer l)
  else if code =? 15 then Some (ODomainName s)
  else if code =? 12 then Some (OHostname s)
  else n ← head l;
    if code =? 53 then Some (OMessageType (type_of_code n))
    else if code =? 54 then Some (OServerIdentifier n)
    else if code =? 51 then Some (OAddressLeaseTime n)
    else if code =? 58 then Some (ORenewal n)
    else if code =? 59 then Some (ORebinding n)
    else if code =? 1 then Some (OSubnetMask n)
    else if code =? 50 then Some (ORequestedIpAddress n)
    else None.

#[export] Instance DhcpOption_eq_dec : EqDecision DhcpOption.
Proof. solve_decision. Defined.

#[export] Instance DhcpOption_countable : Countable DhcpOption.
Proof. apply (inj_countable option_data option_of_data). by intros [[]| | | | | | | | | |]. Defined.

#[export] Instance Message_eq_dec : EqDecision Message.
Proof. solve_decision. Defined.

#[export] Instance Message_countable : Countable Message.
Proof.
  apply (inj_countable'
    (fun m => (bool_decide (opcode m = BootRequest), xid m, broadcast m, ciaddr m, yiaddr m, siaddr m,
               giaddr m, chaddr m, opts m))
    (fun '(op, x, br, ci, yi, si, gi, ch, os) =>
       mkMessage (if op : bool then BootRequest else BootReply) x br ci yi si gi ch os)).
  by intros [[] ? ? ? ? ? ? ? ?].
Defined.

(** A stand-in for the [dhcproto] codec. *)
Definition sample_to_vec (m : Message) : option bytes := Some [Zpos (encode m)].
Definition sample_from_bytes (b : bytes) : option Message :=
  match b with [Zpos p] => countable.decode p | _ => None end.

Lemma sample_codec m b : sample_to_vec m = Some b -> sample_from_bytes b = Some m.
Proof. intros [= <-]. apply decode_encode. Qed.

Definition sample_default : Message := mkMessage BootReply 0 false 0 0 0 0 [] [].

Definition sample_server : Server := mkServer sample_leased [].

Definition sample_request (t : MessageType) (mac : bytes) (req : option Z) : Message :=
  mkMessage BootRequest 77 false 0 0 0 0 mac
    (OMessageType t :: from_option (fun ip => [ORequestedIpAddress ip]) [] req).

Definition mac_a : bytes := [170; 0; 0; 0; 0; 10].
Definition mac_b : bytes := [170; 0; 0; 0; 0; 11].

Abbreviation sample_handle := (handle_message sample_to_rfc3339 sample_parse_rfc3339 sample_from_bytes sample_to_vec sample_default).
Abbreviation sample_read := (read_view sample_parse_rfc3339).
Abbreviation sample_respond := (respond sample_to_rfc3339 sample_parse_rfc3339 sample_to_vec sample_default).

Definition sample_bytes (m : Message) : bytes := [Zpos (encode m)].

Lemma handle_message_store_ok_witness :
  store_ok (srv_db (sample_handle 100 (sample_bytes (sample_request Discover mac_a None)) 0 true None sample_server).2).
Proof.
  eapply (handle_message_store_ok sample_to_rfc3339 sample_parse_rfc3339 sample_from_bytes sample_to_vec sample_default
    100 (sample_bytes (sample_request Discover mac_a None)) 0 true None sample_server); [apply surjective_pairing|].
  exact (reachable_ok _ _ _ _ empty_store_empty sample_leased_reachable).
Defined.

Definition discover_a : Message := sample_request Discover mac_a None.

Definition offered : Server := (sample_handle 100 (sample_bytes discover_a) 0 true None sample_server).2.

Definition offer_a : Message :=
  reply_message sample_default discover_a Offer 3221225996
    (sample_range "a" "192.0.2.10" "192.0.2.19") DhcpConfig_default 0 86400.


Lemma sample_readable : timestamps_readable sample_parse_rfc3339 sample_leased.
Proof. split; intros k r _; split; by eexists. Qed.

Lemma dora_completes_witness :
  exists reply2 dest2 s2 ack,
    sample_handle 101 (sample_bytes (sample_request Request mac_a (Some 3221225996))) 0 true None offered
      = (Some (reply2, dest2), s2) /\
    sample_from_bytes reply2 = Some ack /\ msg_type ack = Some Ack /\ yiaddr ack = yiaddr offer_a.
Proof.
  apply (dora_completes sample_to_rfc3339 sample_parse_rfc3339 sample_from_bytes sample_to_vec sample_default
    ltac:(by eexists) sample_codec 100 101 (sample_bytes discover_a)
    (sample_bytes (sample_request Request mac_a (Some 3221225996))) 0 true None discover_a
    (sample_request Request mac_a (Some 3221225996)) offer_a sample_server (sample_bytes offer_a)
    (BROADCAST, 68) offered).
  - done.
  - exact sample_readable.
  - intros k r Hin. vm_compute in Hin. repeat destruct Hin as [[= <- <-]|Hin]; [by vm_compute..|done].
  - by vm_compute.
  - done.
  - by vm_compute.
  - by vm_compute.
  - by vm_compute.
  - done.
  - done.
  - done.
  - done.
Defined.

Lemma renewal_before_rebinding_witness :
  exists t1 t2, opt_get 58 (opts offer_a) = Some (ORenewal t1) /\
    opt_get 59 (opts offer_a) = Some (ORebinding t2) /\
    opt_get 51 (opts offer_a) = Some (OAddressLeaseTime 86400) /\ t1 < t2 < 86400.
Proof.
  exact (renewal_before_rebinding sample_default discover_a Offer 3221225996
    (sample_range "a" "192.0.2.10" "192.0.2.19") DhcpConfig_default 0 86400 ltac:(lia)).
Defined.

(** The multiplication overflows for an infinite lease ([0xffffffff] seconds,
    which validation accepts): with wrap-around the rebinding time falls before
    the renewal time. *)
Example infinite_lease_rebinds_early :
  U32_MAX * 7 > U32_MAX /\ rebinding_secs U32_MAX = 536870911 /\ U32_MAX / 2 = 2147483647.
Proof. by vm_compute. Qed.

(** Two clients that request the same free address at the same time. *)
Definition racing_request (mac : bytes) : Message := sample_request Request mac (Some 3221225998).

Definition racing_server : Server := (sample_read 100 (racing_request mac_a) 0 sample_server).2.

Definition racing_view (mac : bytes) : View :=
  unwrap_or (mkView sample_pool [] [] DhcpConfig_default) (sample_read 100 (racing_request mac) 0 racing_server).1.

(** What a client reads in the reply it got. *)
Definition reply_of (o : option (bytes * SocketAddr)) : option (MessageType * Z) :=
  r ← o; m ← sample_from_bytes r.1; t ← msg_type m; Some (t, yiaddr m).

