(* ===== verification/Failover.v ===== *)
(** * The control plane: automatic failover and leader election

    Models [crates/magnetite-center/src/failover.rs] (the decision for one
    cluster), the part of [poll.rs] that carries a decision out, and the leader
    lease of [store.rs] and [leader.rs].  A managed server obeys a command that
    reaches it: the outcome of each command is an argument. *)

From stdpp Require Import pretty.
From S2P Require Import Prelude Bytes RustStr Surreal.
Local Open Scope db_scope.

(** ** Decisions *)

Inductive RoleIntent := Primary | Standby | Unset.

#[export] Instance RoleIntent_eq_dec : EqDecision RoleIntent.
Proof. solve_decision. Defined.

Definition RoleIntent_as_str (r : RoleIntent) : string :=
  match r with Primary => "primary" | Standby => "standby" | Unset => "unset" end.

Definition RoleIntent_parse (s : string) : option RoleIntent :=
  let s := to_ascii_lowercase (trim s) in
  if String.eqb s "primary" then Some Primary
  else if String.eqb s "standby" then Some Standby
  else if String.eqb s "" || String.eqb s "unset" || String.eqb s "none" then Some Unset
  else None.

Inductive Action := Promote (sid : string) | Demote (sid : string).

#[export] Instance Action_eq_dec : EqDecision Action.
Proof. solve_decision. Defined.

Record ServerView := mkServerView {
  sid : string;
  intent : RoleIntent;
  healthy : bool;
  consecutive_failures : Z;
  fenced : bool;
  acts_primary : bool;
}.

Record ClusterView := mkClusterView {
  auto_failover : bool;
  failure_threshold : Z;
  active_primary : option string;
  servers : list ServerView;
}.

Record Decision := mkDecision {
  actions : list Action;
  new_active_primary : option string;
  fence : list string;
  unfence : list string;
  log : list string;
}.

Definition Decision_default : Decision := mkDecision [] None [] [] [].

Definition Decision_is_empty (d : Decision) : bool :=
  match actions d, new_active_primary d, fence d, unfence d with
  | [], None, [], [] => true
  | _, _, _, _ => false
  end.

Definition find_server (ss : list ServerView) (id : string) : option ServerView :=
  find (fun s => String.eqb (sid s) id) ss.

(** The recorded active primary, or (bootstrap) the healthy designated one. *)
Definition resolve_active (view : ClusterView) (d : Decision) : option string * Decision :=
  match active_primary view with
  | Some a => (Some a, d)
  | None =>
      match find (fun s => bool_decide (intent s = Primary) && healthy s) (servers view) with
      | Some p =>
          (Some (sid p), mkDecision (actions d) (Some (sid p)) (fence d) (unfence d) (log d))
      | None => (None, d)
      end
  end.

Definition active_down (view : ClusterView) (threshold : Z) (active : option string) : bool :=
  match active ≫= find_server (servers view) with
  | Some s => negb (healthy s) && (threshold <=? consecutive_failures s)
  | None => false
  end.

Definition is_candidate (s : ServerView) : bool :=
  bool_decide (intent s = Standby) && healthy s && negb (fenced s).

Definition promote_standby (view : ClusterView) (threshold : Z) (active : option string) (d : Decision)
  : option string * Decision :=
  let candidates := sort_by (fun a b => str_le (sid a) (sid b)) (List.filter is_candidate (servers view)) in
  match candidates with
  | standby :: _ =>
      let old := unwrap_or EmptyString active in
      (Some (sid standby),
       mkDecision (actions d ++ [Promote (sid standby)]) (Some (sid standby))
         (if is_empty old then fence d else fence d ++ [old]) (unfence d)
         (log d ++ ["auto-failover: primary " +:+ old +:+ " down ≥" +:+ pretty (Z.to_N threshold)
                    +:+ " polls → promoted standby " +:+ sid standby]))
  | [] =>
      (active,
       mkDecision (actions d) (new_active_primary d) (fence d) (unfence d)
         (log d ++ ["auto-failover: active primary down but no healthy standby available"]))
  end.

(** Fence on return: the body of the loop. *)
Definition fence_step (active_sid : string) (d : Decision) (s : ServerView) : Decision :=
  if fenced s && healthy s && negb (String.eqb (sid s) active_sid) then
    mkDecision (if acts_primary s then actions d ++ [Demote (sid s)] else actions d)
      (new_active_primary d) (fence d) (unfence d ++ [sid s])
      (log d ++ ["fencing: former primary " +:+ sid s +:+ " recovered → demoted to secondary"])
  else d.

(** Split-brain guard: the body of the loop. *)
Definition guard_step (active_sid : string) (d : Decision) (s : ServerView) : Decision :=
  if healthy s && acts_primary s && negb (String.eqb (sid s) active_sid) && negb (fenced s) then
    if existsb (fun a => match a with Demote x => String.eqb x (sid s) | _ => false end) (actions d)
    then d
    else
      mkDecision (actions d ++ [Demote (sid s)]) (new_active_primary d) (fence d) (unfence d)
        (log d ++ ["split-brain guard: " +:+ sid s
                   +:+ " acts as primary but is not the active primary → demoted"])
  else d.

Definition evaluate (view : ClusterView) : Decision :=
  let d := Decision_default in
  if negb (auto_failover view) then d
  else
    let threshold := Z.max (failure_threshold view) 1 in
    let '(active, d) := resolve_active view d in
    let '(active, d) := if active_down view threshold active
                        then promote_standby view threshold active d else (active, d) in
    let active_sid := unwrap_or EmptyString active in
    let d := fold_left (fence_step active_sid) (servers view) d in
    fold_left (guard_step active_sid) (servers view) d.

(** ** Carrying a decision out *)

Definition target (a : Action) : string := match a with Promote s | Demote s => s end.

(** A server that received a command. *)
Definition obey (a : Action) (s : ServerView) : ServerView :=
  if String.eqb (sid s) (target a) then
    mkServerView (sid s) (intent s) (healthy s) (consecutive_failures s) (fenced s)
      (match a with Promote _ => true | Demote _ => false end)
  else s.

Definition set_fenced (ids : list string) (f : bool) (s : ServerView) : ServerView :=
  if existsb (String.eqb (sid s)) ids then
    mkServerView (sid s) (intent s) (healthy s) (consecutive_failures s) f (acts_primary s)
  else s.

(** The loop body of [run_failover] for one cluster, [ok] saying which commands
    succeed: a failed promotion holds the state change back. *)
Definition run_failover (ok : Action -> bool) (view : ClusterView) : ClusterView :=
  let d := evaluate view in
  if Decision_is_empty d then view
  else
    let ss := map (fun s => fold_left (fun s a => if ok a then obey a s else s) (actions d) s) (servers view) in
    let promote_ok := forallb (fun a => match a with Promote _ => ok a | Demote _ => true end) (actions d) in
    if promote_ok then
      mkClusterView (auto_failover view) (failure_threshold view)
        (match new_active_primary d with Some p => Some p | None => active_primary view end)
        (map (fun s => set_fenced (unfence d) false (set_fenced (fence d) true s)) ss)
    else mkClusterView (auto_failover view) (failure_threshold view) (active_primary view) ss.

(** ** The leader lease *)

Record LeaseRecord := mkLeaseRecord {
  slot : string;
  holder : string;
  expires_at : string;
  term : Z;
}.

Record LeaderInfo := mkLeaderInfo {
  li_holder : string;
  is_self : bool;
  li_term : Z;
  li_expires_at : string;
}.

Section lease.
Context {T : Type} {TT : Table T LeaseRecord}.
Context (to_rfc3339 : Z -> string).

Definition EPOCH : string := "1970-01-01T00:00:00+00:00".

Definition leader_row (r : LeaseRecord) : bool := String.eqb (slot r) "leader".

Definition ensure_lease_sentinel : M T unit := fun t =>
  match select leader_row (fun _ _ => true) (Some 1%nat) t with
  | Err e => (Err e, t)
  | Ok [] => (Ok (), (create (mkLeaseRecord "leader" EmptyString EPOCH 0) t).2)
  | Ok (_ :: _) => (Ok (), t)
  end.

Definition current_leader (center_id : string) : M T LeaderInfo := fun t =>
  (result_map
     (fun recs => match recs with
                  | (_, r) :: _ =>
                      mkLeaderInfo (holder r)
                        (String.eqb (holder r) center_id && negb (is_empty (holder r)))
                        (term r) (expires_at r)
                  | [] => mkLeaderInfo EmptyString false 0 EmptyString
                  end)
     (select leader_row (fun _ _ => true) (Some 1%nat) t), t).

Definition claimable (me now : string) (r : LeaseRecord) : bool :=
  leader_row r && (String.eqb (holder r) me || str_le (expires_at r) now).

Definition claim (me expires : string) (r : LeaseRecord) : LeaseRecord :=
  mkLeaseRecord (slot r) me expires (if String.eqb (holder r) me then term r else term r + 1).

(** Times are seconds. *)
Definition try_acquire_leadership (center_id : string) (ttl_secs now : Z) : M T LeaderInfo :=
  let expires := to_rfc3339 (now + Z.max ttl_secs 1) in
  do! updated <- (fun t => update_where (fun _ r => claimable center_id (to_rfc3339 now) r)
                             (claim center_id expires) t);
  match updated with
  | (_, r) :: _ =>
      mret (mkLeaderInfo (holder r) (String.eqb (holder r) center_id) (term r) (expires_at r))
  | [] => current_leader center_id
  end.

Definition release_leadership (center_id : string) : M T unit :=
  do! _ <- (fun t => update_where (fun _ r => leader_row r && String.eqb (holder r) center_id)
                       (fun r => mkLeaseRecord (slot r) EmptyString EPOCH (term r)) t);
  mret ().

(** One turn of the election loop: the published flag after the attempt. *)
Definition election_tick (center_id : string) (ttl_secs now : Z) (t : T) : bool * T :=
  match try_acquire_leadership center_id ttl_secs now t with
  | (Ok lease, t') => (is_self lease, t')
  | (Err _, t') => (false, t')
  end.
End lease.

(** ** The decision, loop by loop *)

Definition returning (active_sid : string) (s : ServerView) : bool :=
  fenced s && healthy s && negb (String.eqb (sid s) active_sid).

(** A healthy server that acts as primary without being the active one. *)
Definition stray (active_sid : string) (s : ServerView) : bool :=
  healthy s && acts_primary s && negb (String.eqb (sid s) active_sid).

(** What a loop contributes: the first turn, then the others. *)
Lemma loop_cons (P : Prop) (Q R : ServerView -> Prop) (f : ServerView -> Action) x s ss :
  (P \/ (Q s /\ R s /\ x = f s)) \/ (exists s', In s' ss /\ Q s' /\ R s' /\ x = f s') <->
  P \/ exists s', (s = s' \/ In s' ss) /\ Q s' /\ R s' /\ x = f s'.
Proof.
  split.
  - intros [[?|?]|(s' & ? & ?)]; [by left|right; exists s; auto|right; exists s'; auto].
  - intros [?|(s' & [<-|?] & ?)]; [auto|left; by right|right; by exists s'].
Qed.

Lemma fence_fold a ss d :
  let d' := fold_left (fence_step a) ss d in
  (forall x, In x (actions d') <-> In x (actions d) \/
     exists s, In s ss /\ fenced s = true /\ stray a s = true /\ x = Demote (sid s)) /\
  new_active_primary d' = new_active_primary d /\ fence d' = fence d /\
  unfence d' = unfence d ++ map sid (List.filter (returning a) ss).
Proof.
  revert d. induction ss as [|s ss IH]; intros d; simpl.
  - rewrite app_nil_r. naive_solver.
  - destruct (IH (fence_step a d s)) as (H1 & -> & -> & ->).
    assert (forall x, In x (actions (fence_step a d s)) <-> In x (actions d) \/
      (fenced s = true /\ stray a s = true /\ x = Demote (sid s))) as H0.
    { intros x. unfold fence_step, stray.
      destruct (fenced s), (healthy s), (negb _), (acts_primary s); simpl; rewrite ?in_app_iff; simpl; naive_solver. }
    split_and!.
    + intros x. rewrite H1, H0. apply (loop_cons _ (fun s => fenced s = _) (fun s => stray a s = true) (fun s => Demote (sid s))).
    + unfold fence_step. by case_match.
    + unfold fence_step. by case_match.
    + unfold fence_step. fold (returning a s). destruct (returning a s); simpl; [by rewrite <- app_assoc|done].
Qed.

Lemma guard_fold a ss d :
  let d' := fold_left (guard_step a) ss d in
  (forall x, In x (actions d') <-> In x (actions d) \/
     exists s, In s ss /\ fenced s = false /\ stray a s = true /\ x = Demote (sid s)) /\
  new_active_primary d' = new_active_primary d /\ fence d' = fence d /\ unfence d' = unfence d.
Proof.
  revert d. induction ss as [|s ss IH]; intros d; simpl; [naive_solver|].
  destruct (IH (guard_step a d s)) as (H1 & -> & -> & ->).
  assert (forall x, In x (actions (guard_step a d s)) <-> In x (actions d) \/
    (fenced s = false /\ stray a s = true /\ x = Demote (sid s))) as H0.
  { intros x. unfold guard_step, stray.
    destruct (healthy s && acts_primary s && negb (String.eqb (sid s) a)), (fenced s); simpl;
      [naive_solver| |naive_solver..].
    destruct (existsb _ (actions d)) eqn:E; simpl; [|rewrite in_app_iff; simpl; naive_solver].
    split; [auto|]. intros [?|(_ & _ & ->)]; [done|].
    apply existsb_exists in E as ([y|y] & Hy & Ey); [done|]. apply String.eqb_eq in Ey as ->. done. }
  split_and!; [|unfold guard_step; repeat case_match; done..].
  intros x. rewrite H1, H0. apply (loop_cons _ (fun s => fenced s = _) (fun s => stray a s = true) (fun s => Demote (sid s))).
Qed.

(** The active primary that the decision leads to. *)
Definition next_active (view : ClusterView) : option string :=
  match new_active_primary (evaluate view) with
  | Some p => Some p
  | None => active_primary view
  end.

Definition next_sid (view : ClusterView) : string := unwrap_or EmptyString (next_active view).

(** The promotion that a decision contains, if any. *)
Record promotion (view : ClusterView) (x : string) : Prop := {
  promoted_candidate : exists s, In s (servers view) /\ is_candidate s = true /\ sid s = x /\
    (forall s', In s' (servers view) -> is_candidate s' = true -> str_le x (sid s') = true);
  promoted_down : exists a s, (active_primary view = Some a \/ (active_primary view = None /\
      exists p, In p (servers view) /\ intent p = Primary /\ healthy p = true /\ a = sid p)) /\
    find_server (servers view) a = Some s /\ healthy s = false /\
    Z.max (failure_threshold view) 1 <= consecutive_failures s;
}.

Lemma sorted_head_least (l : list ServerView) s r :
  sort_by (fun a b => str_le (sid a) (sid b)) l = s :: r ->
  In s l /\ forall s', In s' l -> str_le (sid s) (sid s') = true.
Proof.
  intros E. assert (s :: r ≡ₚ l) as Hp by (rewrite <- E; apply sort_by_perm).
  pose proof (sort_by_sorted (fun a b => str_le (sid a) (sid b))
    (fun x y => str_le_total (sid x) (sid y)) (fun x y z => str_le_trans (sid x) (sid y) (sid z)) l) as Hs.
  rewrite E in Hs. apply StronglySorted_inv in Hs as [_ Hf]. rewrite Forall_forall in Hf. split.
  - apply list_elem_of_In. rewrite <- Hp. by left.
  - intros s' Hin. apply list_elem_of_In in Hin. rewrite <- Hp in Hin.
    apply elem_of_cons in Hin as [->|Hin]; [|by apply Hf].
    destruct (str_le_total (sid s) (sid s)); done.
Qed.

Definition designated (s : ServerView) : Prop := intent s = Primary /\ healthy s = true.

Lemma resolve_active_spec view active d0 : resolve_active view Decision_default = (active, d0) ->
  actions d0 = [] /\ fence d0 = [] /\ unfence d0 = [] /\
  match new_active_primary d0 with Some p => Some p | None => active_primary view end = active /\
  (forall a, active = Some a -> active_primary view = Some a \/ (active_primary view = None /\
    exists p, In p (servers view) /\ intent p = Primary /\ healthy p = true /\ a = sid p)) /\
  (forall x, new_active_primary d0 = Some x ->
     active_primary view = None /\ exists p, In p (servers view) /\ designated p) /\
  (active_primary view = None -> forall p, In p (servers view) -> designated p -> new_active_primary d0 <> None).
Proof.
  unfold resolve_active. destruct (active_primary view) as [a|] eqn:Ea.
  - intros [= <- <-]. split_and!; try done. intros a' [= <-]. by left.
  - destruct (find _ (servers view)) as [p|] eqn:Ef; intros [= <- <-].
    + apply find_some in Ef as [Hin [Hi Hh]%andb_true_iff]. to_prop. split_and!; try done.
      * intros a [= <-]. right. split; [done|]. by exists p.
      * intros x _. split; [done|]. by exists p.
    + split_and!; try done. intros _ p Hin [Hi Hh]. exfalso.
      apply (find_none _ _ Ef) in Hin. by rewrite Hi, Hh in Hin.
Qed.

Lemma promote_spec view active d0 active1 d1 :
  (if active_down view (Z.max (failure_threshold view) 1) active
   then promote_standby view (Z.max (failure_threshold view) 1) active d0 else (active, d0)) = (active1, d1) ->
  actions d0 = [] -> fence d0 = [] -> unfence d0 = [] ->
  match new_active_primary d0 with Some p => Some p | None => active_primary view end = active ->
  (forall a, active = Some a -> active_primary view = Some a \/ (active_primary view = None /\
    exists p, In p (servers view) /\ intent p = Primary /\ healthy p = true /\ a = sid p)) ->
  (forall x, new_active_primary d0 = Some x ->
     active_primary view = None /\ exists p, In p (servers view) /\ designated p) ->
  (active_primary view = None -> forall p, In p (servers view) -> designated p -> new_active_primary d0 <> None) ->
  (forall x, In (Promote x) (actions d1) -> new_active_primary d1 = Some x /\ promotion view x) /\
  (forall x, ~ In (Demote x) (actions d1)) /\ unfence d1 = [] /\
  match new_active_primary d1 with Some p => Some p | None => active_primary view end = active1 /\
  (forall x, In x (fence d1) -> (exists p, In (Promote p) (actions d1)) /\
     exists s, find_server (servers view) x = Some s /\ healthy s = false) /\
  (forall x, new_active_primary d1 = Some x -> In (Promote x) (actions d1) \/
     (active_primary view = None /\ exists p, In p (servers view) /\ designated p)) /\
  (active_primary view = None -> forall p, In p (servers view) -> designated p -> new_active_primary d1 <> None).
Proof.
  intros E1 A0 F0 U0 N0 W0 B0 C0.
  assert (forall d, d = d0 \/ (exists l, d = mkDecision (actions d0) (new_active_primary d0) (fence d0) (unfence d0) l) ->
    actions d = [] /\ fence d = [] /\ unfence d = [] /\ new_active_primary d = new_active_primary d0) as Hsame
    by (intros d [->|[l ->]]; done).
  destruct (active_down _ _ active) eqn:Ed.
  2:{ injection E1 as <- <-. rewrite A0, F0, U0. split_and!; [intros x []|intros x []|done|done|intros x []| |done].
      intros x Hx. right. by apply (B0 x). }
  unfold active_down in Ed. destruct (active ≫= find_server (servers view)) as [sa|] eqn:Ef; [|done].
  apply bind_Some in Ef as (a & -> & Ef). apply andb_true_iff in Ed as [Hh%negb_true_iff Hf%Z.leb_le].
  unfold promote_standby in E1. destruct (sort_by _ _) as [|st r] eqn:Es; injection E1 as <- <-; simpl.
  - rewrite A0, F0, U0. split_and!; [intros x []|intros x []|done|done|intros x []| |done].
    intros x Hx. right. by apply (B0 x).
  - rewrite A0, F0, U0. apply sorted_head_least in Es as [[Hin Hc]%filter_In Hleast].
    split_and!; [| |done|done| | |done].
    + intros x [[= <-]|[]]. split; [done|]. split.
      * exists st. split_and!; [done..|]. intros s' Hs' Hc'. apply Hleast. by apply filter_In.
      * exists a, sa. auto.
    + intros x [[=]|[]].
    + intros x Hx. destruct (is_empty a); simpl in Hx; [done|]. destruct Hx as [<-|[]]. split; [|by exists sa].
      exists (sid st). by left.
    + intros x [= <-]. left. by left.
Qed.

(** Everything a decision contains. *)
Lemma evaluate_spec view : auto_failover view = true ->
  let d := evaluate view in
  (forall x, In (Promote x) (actions d) -> new_active_primary d = Some x /\ promotion view x) /\
  (forall x, In (Demote x) (actions d) <->
     exists s, In s (servers view) /\ stray (next_sid view) s = true /\ sid s = x) /\
  (forall x, In x (fence d) -> (exists p, In (Promote p) (actions d)) /\
     exists s, find_server (servers view) x = Some s /\ healthy s = false) /\
  unfence d = map sid (List.filter (returning (next_sid view)) (servers view)) /\
  (forall x, new_active_primary d = Some x -> In (Promote x) (actions d) \/
     (active_primary view = None /\ exists p, In p (servers view) /\ designated p)) /\
  (active_primary view = None -> forall p, In p (servers view) -> designated p -> new_active_primary d <> None).
Proof.
  intros Hauto. unfold next_sid, next_active. unfold evaluate. rewrite Hauto. cbn [negb].
  destruct (resolve_active view Decision_default) as [active d0] eqn:E0.
  destruct (resolve_active_spec _ _ _ E0) as (A0 & F0 & U0 & N0 & W0 & B0 & C0).
  destruct (if active_down _ _ active then _ else _) as [active1 d1] eqn:E1.
  destruct (promote_spec view active d0 active1 d1 E1) as (P1 & D1 & U1 & N1 & F1 & B1 & C1); [done..|].
  set (as_ := unwrap_or EmptyString active1).
  destruct (fence_fold as_ (servers view) d1) as (H1 & H2 & H3 & H4).
  destruct (guard_fold as_ (servers view) (fold_left (fence_step as_) (servers view) d1)) as (G1 & G2 & G3 & G4).
  simpl in *. rewrite G2, H2, G3, H3, G4, H4, N1, U1. fold as_. split_and!.
  - intros x. rewrite G1, H1. intros [[?|(? & _ & _ & _ & ?)]|(? & _ & _ & _ & ?)]; [auto|done|done].
  - intros x. rewrite G1, H1. split.
    + intros [[Hx|(s & ? & _ & ? & [= ->])]|(s & ? & _ & ? & [= ->])]; [by destruct (D1 x)|by exists s|by exists s].
    + intros (s & ? & ? & <-). destruct (fenced s) eqn:Ef; [left; right|right]; by exists s.
  - intros x [(p & Hp) Hs]%F1. split; [|done]. exists p. rewrite G1, H1. auto.
  - done.
  - intros x [Hx|Hx]%B1; [left; rewrite G1, H1; auto|by right].
  - done.
Qed.

(** ** One tick of the failover loop *)

Section tick.
Context (view : ClusterView).
Hypothesis Hauto : auto_failover view = true.
Hypothesis Hsid : forall s, In s (servers view) -> sid s <> EmptyString.
Hypothesis Hdup : NoDup (map sid (servers view)).

Lemma find_server_unique s s' : In s (servers view) -> find_server (servers view) (sid s) = Some s' -> s' = s.
Proof.
  intros Hin [Hin' E%String.eqb_eq]%find_some. revert Hin Hin' E Hdup. clear. 
  induction (servers view) as [|x l IH]; simpl; [done|].
  intros [->|Hin] [->|Hin'] E [Hn Hd]%NoDup_cons; [done|..|auto];
    exfalso; apply Hn, list_elem_of_In, in_map_iff; eauto.
Qed.

(** What the commands do to a server. *)
Definition after_commands (acts : list Action) (s : ServerView) : ServerView :=
  fold_left (fun s a => if (fun _ => true) a then obey a s else s) acts s.

Lemma after_commands_spec acts s :
  let s' := after_commands acts s in
  sid s' = sid s /\ intent s' = intent s /\ healthy s' = healthy s /\ fenced s' = fenced s /\
  (acts_primary s' = true -> acts_primary s = true \/ In (Promote (sid s)) acts) /\
  (In (Demote (sid s)) acts -> ~ In (Promote (sid s)) acts -> acts_primary s' = false).
Proof.
  unfold after_commands. simpl. revert s. induction acts as [|a acts IH]; intros s; simpl; [naive_solver|].
  assert (sid (obey a s) = sid s /\ intent (obey a s) = intent s /\ healthy (obey a s) = healthy s /\
    fenced (obey a s) = fenced s) as (E1 & E2 & E3 & E4) by (unfold obey; by case_match).
  destruct (IH (obey a s)) as (-> & -> & -> & -> & H1 & H2). rewrite E1 in *. split_and!; [done..| |].
  - intros [H|H]%H1; [|auto]. unfold obey in H. destruct (String.eqb_spec (sid s) (target a)) as [E|]; [|auto].
    destruct a; simpl in *; [subst; auto|done].
  - intros [->|H] Hn; [|apply H2; tauto].
    apply not_true_iff_false. intros [Ea|Ea]%H1; [|tauto].
    unfold obey in Ea. simpl in Ea. by rewrite String.eqb_refl in Ea.
Qed.

Lemma set_fenced_spec ids f s :
  sid (set_fenced ids f s) = sid s /\ intent (set_fenced ids f s) = intent s /\
  healthy (set_fenced ids f s) = healthy s /\ acts_primary (set_fenced ids f s) = acts_primary s /\
  (In (sid s) ids -> fenced (set_fenced ids f s) = f) /\
  (~ In (sid s) ids -> fenced (set_fenced ids f s) = fenced s).
Proof.
  unfold set_fenced. destruct (existsb _ ids) eqn:E; (split_and!; [done..| |]).
  - done.
  - intros H. destruct H. apply existsb_exists in E as (x & Hx & ->%String.eqb_eq). done.
  - intros H. rewrite <- not_true_iff_false in E. destruct E. apply existsb_exists.
    exists (sid s). by rewrite String.eqb_refl.
  - done.
Qed.

Abbreviation view' := (run_failover (fun _ => true) view).

(** A server of the resulting snapshot and the one it was. *)
Lemma run_failover_server s' : In s' (servers view') -> exists s, In s (servers view) /\
  sid s' = sid s /\ intent s' = intent s /\ healthy s' = healthy s /\
  (acts_primary s' = true -> acts_primary s = true \/ In (Promote (sid s)) (actions (evaluate view))) /\
  (In (Demote (sid s)) (actions (evaluate view)) -> acts_primary s' = false) /\
  (In (sid s) (unfence (evaluate view)) -> fenced s' = false) /\
  (fenced s' = true -> fenced s = true \/ In (sid s) (fence (evaluate view))).
Proof.
  destruct (evaluate_spec view Hauto) as (HP & HD & HF & HU & _).
  assert (forall x, In (Demote x) (actions (evaluate view)) -> ~ In (Promote x) (actions (evaluate view))) as Hexcl.
  { intros x (s & _ & Hst & <-)%HD [Hn _]%HP. unfold stray, next_sid, next_active in Hst. rewrite Hn in Hst.
    simpl in Hst. rewrite String.eqb_refl in Hst. simpl in Hst. by rewrite andb_false_r in Hst. }
  unfold run_failover. destruct (Decision_is_empty (evaluate view)) eqn:Ee.
  - intros Hin. exists s'. unfold Decision_is_empty in Ee.
    destruct (actions (evaluate view)), (new_active_primary (evaluate view)), (fence (evaluate view)),
      (unfence (evaluate view)); try done. naive_solver.
  - assert (forallb (fun a => match a with Promote _ => (fun _ => true) a | Demote _ => true end) (actions (evaluate view)) = true) as ->
      by (apply forallb_forall; by intros [] ?).
    cbn [servers]. intros (s1 & <- & (s & <- & Hin)%in_map_iff)%in_map_iff. exists s.
    change (fold_left _ (actions (evaluate view)) s) with (after_commands (actions (evaluate view)) s).
    destruct (after_commands_spec (actions (evaluate view)) s) as (E1 & E2 & E3 & E4 & H1 & H2).
    set (s1 := after_commands (actions (evaluate view)) s) in *.
    destruct (set_fenced_spec (fence (evaluate view)) true s1) as (F1 & F2 & F3 & F4 & F5 & F6).
    set (s2 := set_fenced (fence (evaluate view)) true s1) in *.
    destruct (set_fenced_spec (unfence (evaluate view)) false s2) as (G1 & G2 & G3 & G4 & G5 & G6).
    split_and!; [done|congruence|congruence|congruence|rewrite G4, F4; exact H1| | |].
    + intros Hd. rewrite G4, F4. apply H2; [done|]. by apply Hexcl.
    + intros Hu. apply G5. by rewrite F1, E1.
    + intros Hf. destruct (in_dec (fun a b => decide (a = b)) (sid s) (unfence (evaluate view))) as [Hu|Hu].
      { rewrite G5 in Hf; [done|]. by rewrite F1, E1. }
      rewrite G6 in Hf by (rewrite F1, E1; done).
      destruct (in_dec (fun a b => decide (a = b)) (sid s) (fence (evaluate view))); [by right|].
      rewrite F6 in Hf by by rewrite E1. rewrite E4 in Hf. by left.
Qed.

Lemma run_failover_active : active_primary view' = next_active view.
Proof.
  unfold run_failover, next_active. destruct (Decision_is_empty (evaluate view)) eqn:Ee.
  - unfold Decision_is_empty in Ee. by destruct (actions (evaluate view)), (new_active_primary (evaluate view)).
  - assert (forallb (fun a => match a with Promote _ => (fun _ => true) a | Demote _ => true end) (actions (evaluate view)) = true) as ->
      by (apply forallb_forall; by intros [] ?). done.
Qed.

Lemma run_failover_primary s' : In s' (servers view') -> healthy s' = true -> acts_primary s' = true ->
  active_primary view' = Some (sid s').
Proof.
  intros (s & Hin & E1 & _ & E3 & Ha & Hd & _)%run_failover_server Hh Hp.
  rewrite run_failover_active, E1. rewrite E3 in Hh. destruct (evaluate_spec view Hauto) as (HP & HD & _).
  destruct (Ha Hp) as [Hpa|Hpr].
  - destruct (String.eqb_spec (sid s) (next_sid view)) as [E|E].
    + unfold next_sid in E. destruct (next_active view) as [a|]; simpl in E; [congruence|]. by destruct (Hsid s Hin).
    + rewrite Hd in Hp; [done|]. apply HD. exists s. split_and!; [done| |done]. unfold stray.
      rewrite Hh, Hpa. simpl. by rewrite (proj2 (String.eqb_neq _ _)).
  - apply HP in Hpr as [Hn _]. unfold next_active. by rewrite Hn.
Qed.

(** With nobody down, the next evaluation has nothing to promote. *)
Lemma no_promotion_next :
  (forall a, active_primary view' = Some a -> exists s, In s (servers view') /\ sid s = a /\ healthy s = true) ->
  NoDup (map sid (servers view')) -> forall x, ~ promotion view' x.
Proof.
  intros Hact Hd x [_ (a & s & Ha & Hf & Hh & _)].
  apply find_some in Hf as [Hin E%String.eqb_eq].
  assert (exists p, In p (servers view') /\ sid p = a /\ healthy p = true) as (p & Hp & Ep & Hph).
  { destruct Ha as [Ha|(_ & p & Hp & _ & Hph & ->)]; [by apply Hact|by exists p]. }
  assert (s = p) as ->; [|congruence].
  revert Hin Hp. rewrite <- Ep in E. revert E Hd. clear. 
  induction (servers view') as [|y l IH]; simpl; [done|].
  intros E [Hn Hd]%NoDup_cons [->|Hs] [->|Hp]; [done|..|auto];
    exfalso; apply Hn, list_elem_of_In, in_map_iff; eauto.
Qed.

Lemma run_failover_sids : map sid (servers view') = map sid (servers view).
Proof.
  unfold run_failover. destruct (Decision_is_empty (evaluate view)); [done|].
  assert (forallb (fun a => match a with Promote _ => (fun _ => true) a | Demote _ => true end) (actions (evaluate view)) = true) as ->
    by (apply forallb_forall; by intros [] ?).
  cbn [servers]. rewrite !map_map. apply map_ext. intros s.
  destruct (set_fenced_spec (unfence (evaluate view)) false
    (set_fenced (fence (evaluate view)) true (after_commands (actions (evaluate view)) s))) as (E1 & _).
  destruct (set_fenced_spec (fence (evaluate view)) true (after_commands (actions (evaluate view)) s)) as (E2 & _).
  destruct (after_commands_spec (actions (evaluate view)) s) as (E3 & _).
  etransitivity; [exact E1|]. by rewrite E2.
Qed.

Lemma run_failover_auto : auto_failover view' = true.
Proof. unfold run_failover. by repeat case_match. Qed.

(** The next evaluation finds the active primary recorded. *)
Lemma next_active_stable : (forall x, ~ promotion view' x) -> next_active view' = next_active view.
Proof.
  intros Hno. destruct (evaluate_spec view' run_failover_auto) as (HP & _ & _ & _ & HN & _).
  unfold next_active at 1. destruct (new_active_primary (evaluate view')) as [x|] eqn:En; [|apply run_failover_active].
  exfalso. destruct (HN x eq_refl) as [[_ Hp]%HP|(Hnone & p & Hp & Hd)]; [by eapply Hno|].
  rewrite run_failover_active in Hnone. unfold next_active in Hnone.
  destruct (new_active_primary (evaluate view)) eqn:E0; [done|].
  destruct (evaluate_spec view Hauto) as (_ & _ & _ & _ & _ & HB).
  apply run_failover_server in Hp as (s & Hin & _ & E2 & E3 & _).
  apply (HB Hnone s Hin); [|done]. destruct Hd. split; congruence.
Qed.

End tick.

Definition sample_cluster : ClusterView :=
  mkClusterView true 3 (Some "a")
    [mkServerView "a" Primary false 3 false true; mkServerView "b" Standby true 0 false false;
     mkServerView "c" Standby true 0 true true].


(** a promotion is justified.  The evaluator promotes a server only
    when failover is armed, the active primary (the recorded one, or the designated
    one when none is recorded) has been unreachable for at least the threshold of
    polls, and the promoted server is the reachable, unfenced standby with the
    least id; and a failed promotion leaves the recorded state as it was. *)
Theorem promotion_justified view ok x :
  In (Promote x) (actions (evaluate view)) ->
  auto_failover view = true /\ promotion view x /\ new_active_primary (evaluate view) = Some x /\
  (ok (Promote x) = false ->
     active_primary (run_failover ok view) = active_primary view /\
     map fenced (servers (run_failover ok view)) = map fenced (servers view)).
Proof.
  intros Hin. destruct (auto_failover view) eqn:Ha.
  2:{ unfold evaluate in Hin. rewrite Ha in Hin. done. }
  destruct (evaluate_spec view Ha) as (HP & _). destruct (HP x Hin) as [Hn Hp]. split_and!; [done..|].
  intros Hok. unfold run_failover.
  assert (Decision_is_empty (evaluate view) = false) as ->.
  { unfold Decision_is_empty. by destruct (actions (evaluate view)). }
  assert (forallb (fun a => match a with Promote _ => ok a | Demote _ => true end) (actions (evaluate view)) = false) as ->.
  { apply not_true_iff_false. rewrite forallb_forall. intros H. specialize (H _ Hin). simpl in H. congruence. }
  split; [done|]. cbn [servers]. rewrite map_map. apply map_ext. intros s.
  generalize (actions (evaluate view)). intros acts. revert s. induction acts as [|a acts IH]; intros s; simpl; [done|].
  rewrite IH. destruct (ok a); [|done]. unfold obey. by case_match.
Qed.

Lemma promotion_justified_witness :
  auto_failover sample_cluster = true /\ promotion sample_cluster "b" /\
  new_active_primary (evaluate sample_cluster) = Some "b" /\
  (false = false ->
     active_primary (run_failover (fun _ => false) sample_cluster) = Some "a" /\
     map fenced (servers (run_failover (fun _ => false) sample_cluster)) = [false; false; true]).
Proof. apply (promotion_justified sample_cluster (fun _ => false) "b"). vm_compute. auto. Defined.

(** A server without a role in failover is demoted by the split-brain guard all
    the same, and with no active primary every acting primary is demoted. *)
Example unset_role_is_demoted :
  actions (evaluate (mkClusterView true 3 None [mkServerView "a" Unset true 0 false true])) = [Demote "a"].
Proof. by vm_compute. Qed.

(** ** Leader election *)

Section election.
Context {T : Type} {TT : Table T LeaseRecord}.
Context (to_rfc3339 : Z -> string).

(** The singleton row. *)
Definition leader_is (t : T) (k : string) (r : LeaseRecord) : Prop :=
  List.filter (fun kr => leader_row kr.2) (rows t) ≡ₚ [(k, r)].

Lemma leader_is_update p f (t t' : T) l k r :
  (forall x, slot (f x) = slot x) -> (forall k x, p k x = true -> leader_row x = true) ->
  leader_is t k r ->
  rows t' ≡ₚ map (fun kr => if p kr.1 kr.2 then (kr.1, f kr.2) else kr) (rows t) ->
  l ≡ₚ map (fun kr => (kr.1, f kr.2)) (List.filter (fun kr => p kr.1 kr.2) (rows t)) ->
  leader_is t' k (if p k r then f r else r) /\ l ≡ₚ (if p k r then [(k, f r)] else []).
Proof.
  intros Hf Hp Hr Hrows Hl. unfold leader_is in *.
  assert (forall rs, List.filter (fun kr => leader_row kr.2)
      (map (fun kr : string * LeaseRecord => if p kr.1 kr.2 then (kr.1, f kr.2) else kr) rs) =
    map (fun kr => if p kr.1 kr.2 then (kr.1, f kr.2) else kr) (List.filter (fun kr => leader_row kr.2) rs)) as Hcomm.
  { induction rs as [|[k0 x] rs IH]; simpl; [done|].
    assert (leader_row (if p k0 x then (k0, f x) else (k0, x)).2 = leader_row x) as ->
      by (destruct (p k0 x); [|done]; unfold leader_row; simpl; by rewrite Hf).
    destruct (leader_row x); simpl; by rewrite IH. }
  split.
  - rewrite Hrows, Hcomm, Hr. simpl. by destruct (p k r).
  - rewrite Hl. assert (List.filter (fun kr => p kr.1 kr.2) (rows t) =
      List.filter (fun kr => p kr.1 kr.2) (List.filter (fun kr => leader_row kr.2) (rows t))) as ->.
    { rewrite filter_filter. apply filter_ext. intros [k0 x]. simpl.
      destruct (p k0 x) eqn:E; [|by rewrite andb_false_r]. by rewrite (Hp _ _ E). }
    rewrite Hr. simpl. by destruct (p k r).
Qed.

Lemma leader_is_perm (t t' : T) k r : rows t' ≡ₚ rows t -> leader_is t k r -> leader_is t' k r.
Proof. intros H. unfold leader_is. by rewrite H. Qed.

Lemma current_leader_inv me (t t' : T) res k r : leader_is t k r -> current_leader me t = (res, t') ->
  t' = t /\ forall info, res = Ok info -> li_holder info = holder r /\ li_term info = term r /\
    (is_self info = true <-> holder r = me /\ holder r <> EmptyString).
Proof.
  unfold current_leader. intros Hr [= <- <-]. split; [done|]. intros info.
  destruct (select _ _ _ t) as [l|e] eqn:Hq; [|done]. simpl. intros [= <-].
  destruct (select_ok _ _ _ _ _ Hq ltac:(by left) ltac:(done)) as (all & Hall & _ & ->).
  rewrite Hr in Hall. apply Permutation_singleton_r in Hall as ->. simpl.
  split_and!; [done|done|]. rewrite andb_true_iff, String.eqb_eq, negb_true_iff.
  assert (is_empty (holder r) = false <-> holder r <> EmptyString) as -> by (destruct (holder r); simpl; split; congruence).
  done.
Qed.

(** What an attempt does to the row. *)
Lemma acquire_inv me ttl now (t t' : T) res k r :
  leader_is t k r -> try_acquire_leadership to_rfc3339 me ttl now t = (res, t') ->
  exists r', leader_is t' k r' /\
    (r' = r \/ claimable me (to_rfc3339 now) r = true /\
               r' = claim me (to_rfc3339 (now + Z.max ttl 1)) r) /\
    (forall info, res = Ok info -> li_holder info = holder r' /\ li_term info = term r' /\
       (is_self info = true -> holder r' = me)) /\
    (forall info, res = Ok info -> claimable me (to_rfc3339 now) r = false ->
       is_self info = true -> holder r = me).
Proof.
  unfold try_acquire_leadership. intros Hr H. apply mbind_inv in H.
  destruct (update_where _ _ t) as [o t1] eqn:Hu. apply update_where_ok in Hu.
  destruct H as [(e & [= -> ->] & ->)|(l & t2 & [= -> <-] & H)].
  { exists r. split_and!; [by apply (leader_is_perm t)|by left|done|done]. }
  destruct Hu as [Hrows Hl].
  destruct (leader_is_update (fun _ r => claimable me (to_rfc3339 now) r) (claim me (to_rfc3339 (now + Z.max ttl 1)))
    t t1 l k r ltac:(done) ltac:(by intros ? x [? _]%andb_true_iff) Hr Hrows Hl) as [Hr1 Hl1].
  destruct (claimable me (to_rfc3339 now) r) eqn:Ec.
  - apply Permutation_singleton_r in Hl1 as ->. injection H as <- <-. eexists. split_and!; [done|by right| |done].
    intros info [= <-]. done.
  - symmetry in Hl1. apply Permutation_nil in Hl1 as ->. exists r.
    apply (current_leader_inv me t1 t' res k r Hr1) in H as [-> H]. split_and!; [done|by left| |].
    + intros info (H1 & H2 & H3)%H. split_and!; [done|done|]. tauto.
    + intros info (_ & _ & H3)%H _. tauto.
Qed.

Lemma release_inv me (t t' : T) res k r : leader_is t k r -> release_leadership me t = (res, t') ->
  exists r', leader_is t' k r' /\
    (r' = r \/ holder r = me /\ r' = mkLeaseRecord (slot r) EmptyString EPOCH (term r)).
Proof.
  unfold release_leadership. intros Hr H. apply mbind_inv in H.
  destruct (update_where _ _ t) as [o t1] eqn:Hu. apply update_where_ok in Hu.
  destruct H as [(e & [= -> ->] & ->)|(l & t2 & [= -> <-] & [= <- <-])].
  { exists r. split; [by apply (leader_is_perm t)|by left]. }
  destruct Hu as [Hrows Hl].
  destruct (leader_is_update (fun _ r => leader_row r && String.eqb (holder r) me)
    (fun r => mkLeaseRecord (slot r) EmptyString EPOCH (term r))
    t t1 l k r ltac:(done) ltac:(by intros ? x [? _]%andb_true_iff) Hr Hrows Hl) as [Hr1 _].
  eexists. split; [exact Hr1|]. destruct (leader_row r && String.eqb (holder r) me) eqn:E; [right|by left].
  apply andb_true_iff in E as [_ E%String.eqb_eq]. done.
Qed.

(** The calls of any center instance. *)
Inductive lease_step : T -> T -> Prop :=
| step_acquire me ttl now res t t' : me <> EmptyString ->
    try_acquire_leadership to_rfc3339 me ttl now t = (res, t') -> lease_step t t'
| step_give_up me res t t' : release_leadership me t = (res, t') -> lease_step t t'.

(** How the row evolves: terms grow, and within a term the holder only leaves. *)
Definition lease_le (r r' : LeaseRecord) : Prop :=
  term r <= term r' /\ (term r = term r' -> holder r' = holder r \/ holder r' = EmptyString).

Lemma lease_le_trans r1 r2 r3 : lease_le r1 r2 -> lease_le r2 r3 -> lease_le r1 r3.
Proof.
  intros [H1 H2] [H3 H4]. split; [lia|]. intros E.
  destruct (H4 ltac:(lia)) as [-> | ->]; [|by right]. apply H2. lia.
Qed.

Lemma claim_le me now exp r : claimable me now r = true -> lease_le r (claim me exp r).
Proof.
  intros _. unfold lease_le, claim. simpl. destruct (String.eqb_spec (holder r) me) as [->|]; [split; [lia|by left]|].
  split; lia.
Qed.

Lemma lease_step_le t t' k r : lease_step t t' -> leader_is t k r ->
  exists r', leader_is t' k r' /\ lease_le r r'.
Proof.
  assert (lease_le r r) as Hrefl by (split; [lia|by left]).
  intros [me ttl now res t1 t2 Hme H|me res t1 t2 H] Hr.
  - apply (acquire_inv _ _ _ _ _ _ _ _ Hr) in H as (r' & Hr' & [->|[Hc ->]] & _); eexists; (split; [exact Hr'|]);
      [done|by eapply claim_le].
  - apply (release_inv _ _ _ _ _ _ Hr) in H as (r' & Hr' & [->|[Hc ->]]); eexists; (split; [exact Hr'|]); [done|].
    split; simpl; [lia|by right].
Qed.

Lemma lease_steps_le t t' k r : rtc lease_step t t' -> leader_is t k r ->
  exists r', leader_is t' k r' /\ lease_le r r'.
Proof.
  intros Hs. revert r. induction Hs as [t|t u v Hstep _ IH]; intros r Hr.
  - exists r. split; [done|]. split; [lia|by left].
  - destruct (lease_step_le _ _ _ _ Hstep Hr) as (ru & Hru & L1).
    destruct (IH ru Hru) as (r2 & Hr2 & L2). exists r2. split; [done|by eapply lease_le_trans].
Qed.

(** C15: the lease elects one leader at a time.  (1) While a lease has not
    expired, an attempt by another instance changes nothing and does not make it
    leader.  (2) Terms are fencing tokens: over any sequence of attempts and
    releases by any instances, a later grant never has a smaller term, and two
    grants with the same term went to the same instance. *)
Theorem leader_lease_exclusive t0 k r0 :
  leader_is t0 k r0 ->
  (forall me ttl now res t', me <> holder r0 -> str_le (expires_at r0) (to_rfc3339 now) = false ->
     try_acquire_leadership to_rfc3339 me ttl now t0 = (res, t') ->
     leader_is t' k r0 /\ forall info, res = Ok info -> is_self info = false) /\
  (forall me1 me2 ttl1 ttl2 now1 now2 info1 info2 t1 t2 t3, me1 <> EmptyString -> me2 <> EmptyString ->
     try_acquire_leadership to_rfc3339 me1 ttl1 now1 t0 = (Ok info1, t1) -> is_self info1 = true ->
     rtc lease_step t1 t2 ->
     try_acquire_leadership to_rfc3339 me2 ttl2 now2 t2 = (Ok info2, t3) -> is_self info2 = true ->
     li_term info1 <= li_term info2 /\ (li_term info1 = li_term info2 -> me1 = me2)).
Proof.
  intros Hr0. split.
  - intros me ttl now res t' Hne Hexp H.
    assert (claimable me (to_rfc3339 now) r0 = false) as Hc.
    { unfold claimable. rewrite Hexp, (proj2 (String.eqb_neq _ _)) by done. apply andb_false_r. }
    apply (acquire_inv _ _ _ _ _ _ _ _ Hr0) in H as (r' & Hr' & [->|[? _]] & _ & Hself); [|congruence].
    split; [done|]. intros info Hi. destruct (is_self info) eqn:E; [|done]. by rewrite (Hself info Hi Hc E) in Hne.
  - intros me1 me2 ttl1 ttl2 now1 now2 info1 info2 t1 t2 t3 Hm1 Hm2 H1 S1 Hsteps H2 S2.
    apply (acquire_inv _ _ _ _ _ _ _ _ Hr0) in H1 as (r1 & Hr1 & _ & Hi1 & _).
    destruct (Hi1 info1 eq_refl) as (_ & E1 & Hh1). specialize (Hh1 S1).
    destruct (lease_steps_le _ _ _ _ Hsteps Hr1) as (r2 & Hr2 & L12).
    pose proof (acquire_inv _ _ _ _ _ _ _ _ Hr2 H2) as (r3 & Hr3 & Hcase & Hi3 & _).
    destruct (Hi3 info2 eq_refl) as (_ & E3 & Hh3). specialize (Hh3 S2).
    assert (lease_le r2 r3) as L23 by (destruct Hcase as [->|[Hc ->]]; [split; [lia|by left]|by eapply claim_le]).
    destruct (lease_le_trans _ _ _ L12 L23) as [L1 L2]. rewrite E1, E3. split; [done|].
    intros E. destruct (L2 E) as [Hx|Hx]; congruence.
Qed.
End election.

(** A clock that prints the seconds of one minute. *)
Definition minute_clock (s : Z) : string :=
  String.append "2026-01-01T00:00:"
    (String.append (string_of_bytes [48 + s `div` 10; 48 + s `mod` 10]) "+00:00").

Definition lease_table : list_table LeaseRecord := (ensure_lease_sentinel lt_empty).2.

Definition attempt (me : string) (now : Z) (t : list_table LeaseRecord) :=
  try_acquire_leadership minute_clock me 15 now t.

(** "a" is granted at 0, "b" is refused at 10 and granted at 20. *)
Lemma leader_lease_exclusive_witness :
  let t1 := (attempt "a" 0 lease_table).2 in
  let t2 := (attempt "b" 10 t1).2 in
  leader_is t2 (longer (@nil (string * LeaseRecord))) (mkLeaseRecord "leader" "a" (minute_clock 15) 1) /\
  result_map li_term (attempt "b" 20 t2).1 = Ok 2 /\
  (1 <= 2 /\ (1 = 2 -> "a"%string = "b"%string)).
Proof.
  assert (leader_is lease_table (longer (@nil (string * LeaseRecord))) (mkLeaseRecord "leader" EmptyString EPOCH 0))
    as H0 by (unfold leader_is; by vm_compute).
  assert (leader_is (attempt "a" 0 lease_table).2 (longer (@nil (string * LeaseRecord)))
    (mkLeaseRecord "leader" "a" (minute_clock 15) 1)) as H1 by (unfold leader_is; by vm_compute).
  destruct (leader_lease_exclusive minute_clock _ _ _ H1) as [Hexcl _].
  destruct (leader_lease_exclusive minute_clock _ _ _ H0) as [_ Hterm].
  split_and!.
  - apply (Hexcl "b"%string 15 10 (attempt "b" 10 (attempt "a" 0 lease_table).2).1 _);
      [by vm_compute|by vm_compute|apply surjective_pairing].
  - by vm_compute.
  - eapply (Hterm "a"%string "b"%string 15 15 0 20 (mkLeaderInfo "a" true 1 (minute_clock 15))
      (mkLeaderInfo "b" true 2 (minute_clock 35))); [done|done|by vm_compute|done|apply rtc_refl|by vm_compute|done].
  - eapply (Hterm "a"%string "b"%string 15 15 0 20 (mkLeaderInfo "a" true 1 (minute_clock 15))
      (mkLeaderInfo "b" true 2 (minute_clock 35))); [done|done|by vm_compute|done|apply rtc_refl|by vm_compute|done].
Defined.
