(* ===== verification/Serde.v ===== *)
(** * Serialised columns

    The repositories keep nested values as JSON text in string columns, written
    with [serde_json::to_string] and read with [serde_json::from_str].  Both are
    code of the [serde_json] crate (and of derives), so a serialisable type is
    the class [Serde]: what is assumed is that the types in use serialise and
    read back as they were.  [TreeSerde] builds instances for the witnesses: a
    value goes to a tree of strings and numbers, the tree to a bit string. *)

From S2P Require Import Prelude Bytes RustStr.
From stdpp Require Import countable.

Class Serde (A : Type) := {
  to_string : A -> option string;   (* serde_json::to_string(..).ok() *)
  of_string : string -> option A;   (* serde_json::from_str(..).ok() *)
  serde_round_trip : forall a, exists s, to_string a = Some s /\ of_string s = Some a;
}.

(** [unwrap_or_default] on the text. *)
Definition json_text {A} `{Serde A} (a : A) : string := unwrap_or EmptyString (to_string a).

Lemma of_json_text {A} `{Serde A} (a : A) : of_string (json_text a) = Some a.
Proof. unfold json_text. by destruct (serde_round_trip a) as (s & -> & H'). Qed.

(** A fallback text that is never used. *)
Lemma text_or_else {A} `{Serde A} (a : A) d : unwrap_or d (to_string a) = json_text a.
Proof. unfold json_text. by destruct (serde_round_trip a) as (s & -> & _). Qed.

(** ** Instances through trees *)

Abbreviation tree := (gen_tree (string + Z)).

Class TreeSerde (A : Type) := {
  to_tree : A -> tree;
  of_tree : tree -> option A;
  of_to_tree : forall a, of_tree (to_tree a) = Some a;
}.

Fixpoint bits_of_pos (p : positive) : string :=
  match p with
  | xH => EmptyString
  | xO p' => String "0" (bits_of_pos p')
  | xI p' => String "1" (bits_of_pos p')
  end.

Fixpoint pos_of_bits (s : string) : positive :=
  match s with
  | EmptyString => xH
  | String c s' => if Ascii.eqb c "1" then xI (pos_of_bits s') else xO (pos_of_bits s')
  end.

Lemma pos_of_bits_of_pos p : pos_of_bits (bits_of_pos p) = p.
Proof. induction p; simpl; congruence. Qed.

(** Instances are chosen by hand in the witnesses. *)
Definition serde_of_tree {A} (TA : TreeSerde A) : Serde A.
Proof.
  refine {| to_string a := Some (bits_of_pos (encode (to_tree a)));
            of_string s := decode (pos_of_bits s) ≫= of_tree |}.
  intros a. eexists. split; [done|]. rewrite pos_of_bits_of_pos, decode_encode. simpl. apply of_to_tree.
Defined.

#[export] Instance tree_string : TreeSerde string.
Proof.
  refine {| to_tree s := GenLeaf (inl s); of_tree t := match t with GenLeaf (inl s) => Some s | _ => None end |}.
  done.
Defined.

#[export] Instance tree_Z : TreeSerde Z.
Proof.
  refine {| to_tree s := GenLeaf (inr s); of_tree t := match t with GenLeaf (inr s) => Some s | _ => None end |}.
  done.
Defined.

#[export] Instance tree_bool : TreeSerde bool.
Proof.
  refine {| to_tree (b : bool) := GenNode (if b then 1 else 0) [];
            of_tree t := match t with GenNode 1 _ => Some true | GenNode 0 _ => Some false | _ => None end |}.
  by intros [].
Defined.

#[export] Instance tree_option {A} `{TreeSerde A} : TreeSerde (option A).
Proof.
  refine {| to_tree o := match o with Some a => GenNode 1 [to_tree a] | None => GenNode 0 [] end;
            of_tree t := match t with
                         | GenNode 1 [t'] => Some <$> of_tree t'
                         | GenNode 0 _ => Some None
                         | _ => None
                         end |}.
  intros [a|]; [|done]. by rewrite of_to_tree.
Defined.

#[export] Instance tree_list {A} `{TreeSerde A} : TreeSerde (list A).
Proof.
  refine {| to_tree l := GenNode 0 (map to_tree l);
            of_tree t := match t with GenNode _ ts => mapM of_tree ts | _ => None end |}.
  intros l. induction l as [|a l IH]; [done|]. simpl. rewrite of_to_tree. simpl in *. by rewrite IH.
Defined.

#[export] Instance tree_prod {A B} `{TreeSerde A, TreeSerde B} : TreeSerde (A * B).
Proof.
  refine {| to_tree p := GenNode 0 [to_tree p.1; to_tree p.2];
            of_tree t := match t with
                         | GenNode _ [t1; t2] => a ← of_tree t1; b ← of_tree t2; Some (a, b)
                         | _ => None
                         end |}.
  intros [a b]. simpl. by rewrite !of_to_tree.
Defined.

(** A type that is a copy of another. *)
Definition tree_iso {A B} (f : A -> B) (g : B -> A) (fg : forall a, g (f a) = a) (TB : TreeSerde B) : TreeSerde A.
Proof.
  refine {| to_tree a := to_tree (f a); of_tree t := g <$> of_tree t |}.
  intros a. rewrite of_to_tree. simpl. by rewrite fg.
Defined.
