(* ===== verification/Dns.v ===== *)
(** * The DNS data and the authoritative resolver

    [magnetite-core/src/domains/dns/model.rs] (zones, records, policy rules),
    [validate.rs] (the write-time checks) and
    [magnetite-dns/src/resolver.rs] (the answer to one question, over a snapshot
    of the zones).  The typed payload of a record is a JSON value of the
    [serde_json] crate: what the code uses of it is the class [Json]. *)

From S2P Require Import Prelude Bytes RustStr RustNet.

(** ** JSON values *)

Class Json (V : Type) := {
  json_get : string -> V -> option V;          (* Value::get *)
  json_set : string -> V -> V -> V;            (* a write through get_mut *)
  as_str : V -> option string;
  as_u64 : V -> option Z;
  from_u64 : Z -> V;
  from_str : string -> V;
  json_obj : string -> V -> V;                 (* json!({ k: v }) *)
  json_object : list (string * V) -> V;        (* json!({ k: v, ... }) *)

  json_get_obj : forall k v, json_get k (json_obj k v) = Some v;
  json_get_object : forall k v l, In (k, v) l -> NoDup l.*1 -> json_get k (json_object l) = Some v;
  json_get_set : forall k k' x v, json_get k (json_set k' x v) =
    if String.eqb k k' then (fun _ => x) <$> json_get k v else json_get k v;
  as_str_from_str : forall s, as_str (from_str s) = Some s;
  as_u64_from_u64 : forall n, 0 <= n <= U64_MAX -> as_u64 (from_u64 n) = Some n;
  as_u64_bound : forall v n, as_u64 v = Some n -> 0 <= n <= U64_MAX;
}.

(** Objects, strings, natural numbers and null are enough to run the model. *)
Inductive json_value := JNull | JStr (s : string) | JNum (n : Z) | JObj (l : list (string * json_value)).

Fixpoint jobj_get (k : string) (l : list (string * json_value)) : option json_value :=
  match l with
  | [] => None
  | (k', v) :: l' => if String.eqb k k' then Some v else jobj_get k l'
  end.

Fixpoint jobj_set (k : string) (x : json_value) (l : list (string * json_value)) :=
  match l with
  | [] => []
  | (k', v) :: l' => if String.eqb k k' then (k', x) :: l' else (k', v) :: jobj_set k x l'
  end.

Lemma jobj_get_set k k' x l :
  jobj_get k (jobj_set k' x l) = if String.eqb k k' then (fun _ => x) <$> jobj_get k l else jobj_get k l.
Proof.
  induction l as [|[k0 v] l IH]; simpl; [by destruct (String.eqb k k')|].
  destruct (String.eqb_spec k' k0) as [->|H0]; simpl.
  - by destruct (String.eqb_spec k k0).
  - rewrite IH. destruct (String.eqb_spec k k0) as [->|]; [|done].
    by destruct (String.eqb_spec k0 k') as [->|].
Qed.

Lemma jobj_get_In k v l : In (k, v) l -> NoDup l.*1 -> jobj_get k l = Some v.
Proof.
  induction l as [|[k0 v0] l IH]; [done|]. simpl. intros [[= -> ->]|Hin] [Hn Hnd]%NoDup_cons.
  - by rewrite String.eqb_refl.
  - destruct (String.eqb_spec k k0) as [->|]; [|by apply IH]. exfalso. apply Hn.
    apply list_elem_of_fmap. exists (k0, v). by rewrite list_elem_of_In.
Qed.

#[export] Instance json_value_Json : Json json_value.
Proof.
  refine {|
    json_get k v := match v with JObj l => jobj_get k l | _ => None end;
    json_set k x v := match v with JObj l => JObj (jobj_set k x l) | _ => v end;
    as_str v := match v with JStr s => Some s | _ => None end;
    as_u64 v := match v with JNum n => if (0 <=? n) && (n <=? U64_MAX) then Some n else None | _ => None end;
    from_u64 n := JNum n;
    from_str s := JStr s;
    json_obj k v := JObj [(k, v)];
    json_object l := JObj l;
  |}.
  - intros k v. simpl. by rewrite String.eqb_refl.
  - intros k v l. apply jobj_get_In.
  - intros k k' x [|s|n|l]; [by destruct (String.eqb k k')..|apply jobj_get_set].
  - done.
  - intros n H. by rewrite (proj2 (Z.leb_le 0 n)), (proj2 (Z.leb_le n _)) by lia.
  - intros [|s|n|l] m; simpl; try done. case_goal; [|done]. to_prop. intros [= <-]. lia.
Defined.

(** ** The data model *)

Inductive RecordType := A | Aaaa | Cname | Mx | Txt | Ns | Ptr | Srv | Caa.

#[export] Instance RecordType_eq_dec : EqDecision RecordType.
Proof. solve_decision. Defined.

Definition RecordType_eqb (a b : RecordType) : bool := bool_decide (a = b).

Definition RecordType_ALL : list RecordType := [A; Aaaa; Cname; Mx; Txt; Ns; Ptr; Srv; Caa].

Definition RecordType_as_str (t : RecordType) : string :=
  match t with
  | A => "A" | Aaaa => "AAAA" | Cname => "CNAME" | Mx => "MX" | Txt => "TXT"
  | Ns => "NS" | Ptr => "PTR" | Srv => "SRV" | Caa => "CAA"
  end.

Definition RecordType_from_str (value : string) : option RecordType :=
  find (fun t => eq_ignore_ascii_case (RecordType_as_str t) value) RecordType_ALL.

Inductive RpzAction := Nxdomain | Nodata | Redirect | Drop.

Definition RpzAction_as_str (a : RpzAction) : string :=
  match a with Nxdomain => "nxdomain" | Nodata => "nodata" | Redirect => "redirect" | Drop => "drop" end.

Definition RpzAction_from_str (value : string) : option RpzAction :=
  let v := to_ascii_lowercase value in
  if String.eqb v "nxdomain" then Some Nxdomain
  else if String.eqb v "nodata" then Some Nodata
  else if String.eqb v "redirect" then Some Redirect
  else if String.eqb v "drop" then Some Drop
  else None.

Record Soa := mkSoa {
  mname : string;
  rname : string;
  serial : Z;
  refresh : Z;
  retry : Z;
  expire : Z;
  minimum : Z;
}.

Definition Soa_default : Soa := mkSoa EmptyString EmptyString 1 3600 900 604800 86400.

Inductive ZoneRole := Primary | Secondary.

Record ZoneTransferState := mkZoneTransferState {
  last_serial : Z;
  last_attempt : Z;
  last_ok : bool;
  last_error : option string;
  last_success : option Z;
}.

Record Zone := mkZone {
  zone_id : string;
  zone_created_at : Z;
  zone_updated_at : Z;
  zone_created_by : string;
  zone_name : string;
  soa : Soa;
  zone_enabled : bool;
  dnssec_enabled : bool;
  nsec3_enabled : bool;
  role : ZoneRole;
  allow_transfer : list string;
  also_notify : list string;
  notify_enabled : bool;
  primaries : list string;
  tsig_key_name : option string;
  transfer_state : option ZoneTransferState;
}.

Record RpzRule := mkRpzRule {
  rpz_id : string;
  rpz_created_at : Z;
  rpz_updated_at : Z;
  rpz_created_by : string;
  rpz_domain : string;
  rpz_act : RpzAction;
  redirect_to : option string;
  rpz_enabled : bool;
}.

Record DnsRecord (V : Type) := mkDnsRecord {
  rec_id : string;
  rec_created_at : Z;
  rec_updated_at : Z;
  rec_created_by : string;
  rec_zone : string;
  rec_name : string;
  rec_ttl : Z;
  record_type : RecordType;
  rec_data : V;
  rec_enabled : bool;
}.
Arguments mkDnsRecord {V} _ _ _ _ _ _ _ _ _ _.
Arguments rec_id {V} _.
Arguments rec_created_at {V} _.
Arguments rec_updated_at {V} _.
Arguments rec_created_by {V} _.
Arguments rec_zone {V} _.
Arguments rec_name {V} _.
Arguments rec_ttl {V} _.
Arguments record_type {V} _.
Arguments rec_data {V} _.
Arguments rec_enabled {V} _.

(** ** Write-time checks *)

Inductive dns_error := MSG_ZONE_NAME | MSG_MNAME | MSG_RNAME | MSG_SOA | MSG_RECORD_NAME
  | MSG_A | MSG_AAAA | MSG_FQDN | MSG_MX | MSG_TXT | MSG_RECORD_VALUE
  | MSG_RPZ_DOMAIN | MSG_RPZ_REDIRECT.

Definition normalize_name (name : string) : string :=
  to_ascii_lowercase (trim_end_matches "." (trim name)).

Definition is_label (label : string) : bool :=
  if is_empty label || (63 <? str_len label) then false
  else if starts_with label "-" || ends_with label "-" then false
  else str_forallb (fun b => is_ascii_alphanumeric b || Ascii.eqb b "-") label.

Definition is_fqdn (name : string) (allow_wildcard : bool) : bool :=
  let normalized := normalize_name name in
  if is_empty normalized then false
  else
    let labels := split "." normalized in
    if (length labels <? 2)%nat then false
    else match labels with
         | [] => true
         | l :: ls => ((allow_wildcard && String.eqb l "*") || is_label l) && forallb is_label ls
         end.

Definition check_zone_name (name : string) : dns_error + unit :=
  if is_fqdn name false then inr () else inl MSG_ZONE_NAME.

Definition check_soa (s : Soa) : dns_error + unit :=
  if negb (is_fqdn (mname s) false) then inl MSG_MNAME
  else if contains_char "@" (rname s) || negb (is_fqdn (rname s) false) then inl MSG_RNAME
  else if (refresh s =? 0) || (retry s =? 0) || (expire s <=? refresh s) then inl MSG_SOA
  else inr ().

Definition check_zone (z : Zone) : dns_error + unit :=
  match check_zone_name (zone_name z) with
  | inl e => inl e
  | inr () => check_soa (soa z)
  end.

Definition check_rpz (rule : RpzRule) : dns_error + unit :=
  if negb (is_fqdn (rpz_domain rule) true) then inl MSG_RPZ_DOMAIN
  else match rpz_act rule with
       | Redirect =>
           match redirect_to rule with
           | Some t => if is_fqdn t false then inr () else inl MSG_RPZ_REDIRECT
           | None => inl MSG_RPZ_REDIRECT
           end
       | _ => inr ()
       end.

Section checks.
Context {V : Type} {J : Json V}.

Definition data_str (data : V) (key : string) : option string := json_get key data ≫= as_str.

Definition as_u64_lenient (v : V) : option Z :=
  match as_u64 v with
  | Some n => Some n
  | None => as_str v ≫= fun s => parse_u64 (trim s)
  end.

Definition normalize_record_data (rt : RecordType) (data : V) : V :=
  match rt with
  | Mx => match json_get "preference" data with
          | Some v => match as_u64_lenient v with
                      | Some n => json_set "preference" (from_u64 n) data
                      | None => data
                      end
          | None => data
          end
  | _ => data
  end.

Definition check_fqdn_field (data : V) (key : string) : dns_error + unit :=
  match data_str data key with
  | Some v => if is_fqdn v false then inr () else inl MSG_FQDN
  | None => inl MSG_FQDN
  end.

Definition check_record_data (rt : RecordType) (data : V) : dns_error + unit :=
  match rt with
  | A => match data_str data "address" with
         | Some a => if parse_ipv4 a then inr () else inl MSG_A
         | None => inl MSG_A
         end
  | Aaaa => match data_str data "address" with
            | Some a => if parse_ipv6 a then inr () else inl MSG_AAAA
            | None => inl MSG_AAAA
            end
  | Cname => check_fqdn_field data "target"
  | Ns => check_fqdn_field data "nsdname"
  | Ptr => check_fqdn_field data "ptrdname"
  | Mx =>
      let pref_ok := is_some_and (fun n => n <=? U16_MAX) (json_get "preference" data ≫= as_u64_lenient) in
      let exch_ok := is_some_and (fun e => is_fqdn e false) (data_str data "exchange") in
      if pref_ok && exch_ok then inr () else inl MSG_MX
  | Txt => match data_str data "text" with
           | Some t => if negb (is_empty t) then inr () else inl MSG_TXT
           | None => inl MSG_TXT
           end
  | Srv | Caa => match data_str data "value" with
                 | Some v => if negb (is_empty (trim v)) then inr () else inl MSG_RECORD_VALUE
                 | None => inl MSG_RECORD_VALUE
                 end
  end.

Definition check_record (zone_name : string) (r : DnsRecord V) : dns_error + unit :=
  let zone := normalize_name zone_name in
  let name := normalize_name (rec_name r) in
  if negb (String.eqb name zone) && negb (ends_with name ("." +:+ zone)) then inl MSG_RECORD_NAME
  else check_record_data (record_type r) (rec_data r).
End checks.

(** ** The resolver *)

Inductive QueryType := QRecord (rt : RecordType) | QSoa | QAny | QOther.

Inductive Rcode := NoError | NxDomain | Refused.

Section resolver.
Context {V : Type} {J : Json V}.

Record ZoneData := mkZoneData { zd_zone : Zone; zd_records : list (DnsRecord V) }.

Record Snapshot := mkSnapshot { zones : list ZoneData; rpz : list RpzRule }.

Record Resolution := mkResolution {
  rcode : Rcode;
  authoritative : bool;
  drop : bool;
  from_rpz : bool;
  answers : list (DnsRecord V);
  soa_answer : option (string * Soa);
  authority_soa : option (string * Soa);
}.

Definition Resolution_base : Resolution := mkResolution NoError false false false [] None None.
Definition Resolution_refused : Resolution := mkResolution Refused false false false [] None None.
Definition Resolution_dropped : Resolution := mkResolution NoError false true false [] None None.
Definition Resolution_answers (l : list (DnsRecord V)) : Resolution :=
  mkResolution NoError true false false l None None.
Definition Resolution_negative (rc : Rcode) (apex : string) (s : Soa) : Resolution :=
  mkResolution rc true false false [] None (Some (apex, s)).

Definition apex_of (z : ZoneData) : string := normalize_name (zone_name (zd_zone z)).

Definition find_zone (zs : list ZoneData) (qname : string) : option ZoneData :=
  max_by_key (fun z => str_len (apex_of z))
    (List.filter (fun z => String.eqb qname (apex_of z) || ends_with qname ("." +:+ apex_of z))
       (List.filter (fun z => zone_enabled (zd_zone z)) zs)).

Definition records_at (zd : ZoneData) (name : string) : list (DnsRecord V) :=
  List.filter (fun r => rec_enabled r && String.eqb (normalize_name (rec_name r)) name) (zd_records zd).

Definition with_name (name : string) (r : DnsRecord V) : DnsRecord V :=
  mkDnsRecord (rec_id r) (rec_created_at r) (rec_updated_at r) (rec_created_by r) (rec_zone r) name
    (rec_ttl r) (record_type r) (rec_data r) (rec_enabled r).

(** The body of the scan for the closest wildcard. *)
Definition wildcard_step (qname : string) (best : option (Z * string)) (r : DnsRecord V) : option (Z * string) :=
  if negb (rec_enabled r) then best
  else
    let owner := normalize_name (rec_name r) in
    match strip_prefix "*." owner with
    | Some base =>
        if ends_with qname ("." +:+ base) then
          let len := str_len base in
          if is_none_or (fun b => b.1 <? len) best then Some (len, owner) else best
        else best
    | None => best
    end.

Definition wildcard_at (zd : ZoneData) (qname : string) : option (list (DnsRecord V)) :=
  match fold_left (wildcard_step qname) (zd_records zd) None with
  | None => None
  | Some (_, wildcard_owner) =>
      let records := map (with_name qname) (records_at zd wildcard_owner) in
      match records with [] => None | _ => Some records end
  end.

(** [chase_cname] with [fuel] calls left of the eight: what it appends. *)
Fixpoint chase_cname (fuel : nat) (zs : list ZoneData) (cname : DnsRecord V) (rt : RecordType)
  : list (DnsRecord V) :=
  match fuel with
  | O => []
  | S fuel' =>
      match data_str (rec_data cname) "target" with
      | None => []
      | Some target =>
          let tname := normalize_name target in
          match find_zone zs tname with
          | None => []
          | Some zd =>
              let at_ := records_at zd tname in
              match find (fun r => RecordType_eqb (record_type r) Cname) at_ with
              | Some next => next :: chase_cname fuel' zs next rt
              | None => List.filter (fun r => RecordType_eqb (record_type r) rt) at_
              end
          end
      end
  end.

Definition MAX_CHASE : nat := 8.

Definition answer_at (snapshot : Snapshot) (records : list (DnsRecord V)) (rt : RecordType)
    (apex : string) (s : Soa) : Resolution :=
  let exact := List.filter (fun r => RecordType_eqb (record_type r) rt) records in
  match exact with
  | _ :: _ => Resolution_answers exact
  | [] =>
      if negb (RecordType_eqb rt Cname) then
        match find (fun r => RecordType_eqb (record_type r) Cname) records with
        | Some cname => Resolution_answers (cname :: chase_cname MAX_CHASE (zones snapshot) cname rt)
        | None => Resolution_negative NoError apex s
        end
      else Resolution_negative NoError apex s
  end.

(** Response policy. *)
Definition rpz_matches (qname pattern : string) : bool :=
  let pattern := normalize_name pattern in
  match strip_prefix "*." pattern with
  | Some suffix => String.eqb qname suffix || ends_with qname ("." +:+ suffix)
  | None => String.eqb qname pattern
  end.

Definition rpz_base (r : RpzRule) : string := trim_start_matches "*." (normalize_name (rpz_domain r)).

Definition rpz_action (rules : list RpzRule) (qname : string) : option (RpzAction * option string) :=
  (fun r => (rpz_act r, redirect_to r)) <$>
  max_by_key (fun r => str_len (rpz_base r))
    (List.filter (fun r => rpz_enabled r && rpz_matches qname (rpz_domain r)) rules).

Definition synth_cname (now : Z) (qname target : string) : DnsRecord V :=
  mkDnsRecord EmptyString now now "rpz" EmptyString qname 60 Cname
    (json_obj "target" (from_str (normalize_name target))) true.

Definition apply_rpz_inner (now : Z) (snapshot : Snapshot) (qname : string) (qtype : QueryType)
    (action : RpzAction) (redirect_to : option string) : Resolution :=
  match action with
  | Nxdomain => mkResolution NxDomain false false false [] None None
  | Nodata => Resolution_base
  | Drop => Resolution_dropped
  | Redirect =>
      match redirect_to with
      | Some target =>
          if is_empty (trim target) then mkResolution NxDomain false false false [] None None
          else
            let cname := synth_cname now qname target in
            let answers :=
              match qtype with
              | QRecord rt =>
                  if negb (RecordType_eqb rt Cname)
                  then cname :: chase_cname MAX_CHASE (zones snapshot) cname rt else [cname]
              | _ => [cname]
              end in
            mkResolution NoError false false false answers None None
      | None => mkResolution NxDomain false false false [] None None
      end
  end.

Definition set_from_rpz (r : Resolution) : Resolution :=
  mkResolution (rcode r) (authoritative r) (drop r) true (answers r) (soa_answer r) (authority_soa r).

Definition apply_rpz (now : Z) (snapshot : Snapshot) (qname : string) (qtype : QueryType)
    (action : RpzAction) (redirect_to : option string) : Resolution :=
  set_from_rpz (apply_rpz_inner now snapshot qname qtype action redirect_to).

(** The answer from the zone that is authoritative for the name. *)
Definition resolve_zone (snapshot : Snapshot) (zd : ZoneData) (qname : string) (qtype : QueryType) : Resolution :=
  let apex := apex_of zd in
  let s := soa (zd_zone zd) in
  let at_ := records_at zd qname in
  let name_exists := String.eqb qname apex || match at_ with [] => false | _ => true end in
  match qtype, String.eqb qname apex with
  | QSoa, true => mkResolution NoError true false false [] (Some (apex, s)) None
  | _, _ =>
      if negb name_exists then
        match wildcard_at zd qname with
        | Some wildcard_records =>
            match qtype with
            | QRecord rt => answer_at snapshot wildcard_records rt apex s
            | QAny => Resolution_answers wildcard_records
            | _ => Resolution_negative NoError apex s
            end
        | None => Resolution_negative NxDomain apex s
        end
      else
        match qtype with
        | QSoa | QOther => Resolution_negative NoError apex s
        | QAny => mkResolution NoError true false false at_
                    (if String.eqb qname apex then Some (apex, s) else None) None
        | QRecord rt => answer_at snapshot at_ rt apex s
        end
  end.

Definition resolve_in (now : Z) (snapshot : Snapshot) (qname_raw : string) (qtype : QueryType) : Resolution :=
  let qname := normalize_name qname_raw in
  match rpz_action (rpz snapshot) qname with
  | Some (action, redirect_to) => apply_rpz now snapshot qname qtype action redirect_to
  | None =>
      match find_zone (zones snapshot) qname with
      | None => Resolution_refused
      | Some zd => resolve_zone snapshot zd qname qtype
      end
  end.
End resolver.
Arguments ZoneData : clear implicits.
Arguments Snapshot : clear implicits.
Arguments Resolution : clear implicits.

(** ** Names below a name *)

Definition below (q a : string) : Prop := exists p, q = p +:+ "." +:+ a.
Definition at_or_below (q a : string) : Prop := q = a \/ below q a.

Lemma ends_with_dot q a : ends_with q ("." +:+ a) = true <-> below q a.
Proof. apply ends_with_iff. Qed.

Lemma at_or_below_iff q a : String.eqb q a || ends_with q ("." +:+ a) = true <-> at_or_below q a.
Proof. by rewrite orb_true_iff, String.eqb_eq, ends_with_dot. Qed.

Lemma str_app_suffix p1 p2 s1 s2 :
  p1 +:+ s1 = p2 +:+ s2 -> (String.length s2 <= String.length s1)%nat -> exists r, s1 = r +:+ s2.
Proof.
  revert p2. induction p1 as [|c p1 IH]; intros p2 E H; simpl in E; [by exists p2|].
  destruct p2 as [|c' p2]; simpl in E; [|injection E as _ E; eauto].
  exfalso. subst s2. simpl in H. rewrite str_length_app in H. lia.
Qed.

Lemma str_length_0 s : String.length s = 0%nat -> s = EmptyString.
Proof. by destruct s. Qed.

Lemma nested q a b : at_or_below q a -> at_or_below q b ->
  (String.length b <= String.length a)%nat -> at_or_below a b.
Proof.
  intros Ha Hb Hlen.
  assert (exists pa, q = pa +:+ a) as [pa Ea].
  { destruct Ha as [->|[p ->]]; [by exists EmptyString|]. exists (p +:+ "."). by rewrite str_app_assoc. }
  destruct Hb as [<-|[p Eb]].
  - left. rewrite Ea, str_length_app in Hlen. rewrite Ea. by rewrite (str_length_0 pa) by lia.
  - destruct (decide (String.length b = String.length a)) as [E|E].
    + left. destruct (str_app_suffix pa (p +:+ ".") a b) as [r ->]; [by rewrite <-Ea, Eb, str_app_assoc|lia|].
      rewrite str_length_app in E. by rewrite (str_length_0 r) by lia.
    + right. rewrite Ea in Eb. apply str_app_suffix in Eb as [r ->]; [by exists r|]. simpl. lia.
Qed.

Lemma nested_len q a b : at_or_below q a -> at_or_below q b -> str_len b <= str_len a -> at_or_below a b.
Proof. unfold str_len. intros. eapply nested; eauto. lia. Qed.

(** ** The zone and the wildcard of a name *)

Section resolver_facts.
Context {V : Type} {J : Json V}.

Definition covers (q : string) (z : ZoneData V) : Prop := zone_enabled (zd_zone z) = true /\ at_or_below q (apex_of z).

(** The most specific enabled zone above [q]. *)
Definition authority (zs : list (ZoneData V)) (q : string) (z : ZoneData V) : Prop :=
  In z zs /\ covers q z /\ forall z', In z' zs -> covers q z' -> at_or_below (apex_of z) (apex_of z').

Lemma find_zone_In zs q z :
  In z (List.filter (fun z => String.eqb q (apex_of z) || ends_with q ("." +:+ apex_of z))
       (List.filter (fun z => zone_enabled (zd_zone z)) zs)) <-> In z zs /\ covers q z.
Proof. rewrite !filter_In, at_or_below_iff. unfold covers. tauto. Qed.

Lemma find_zone_spec zs q :
  match find_zone zs q with
  | Some z => authority zs q z
  | None => forall z, In z zs -> ~ covers q z
  end.
Proof.
  unfold find_zone. destruct (max_by_key _ _) as [z|] eqn:E.
  - apply max_by_key_spec in E as [Hin Hmax]. apply find_zone_In in Hin as [Hin Hc].
    split_and!; [done|done|]. intros z' Hin' Hc'. eapply nested_len; [apply Hc|apply Hc'|].
    apply Hmax, find_zone_In. done.
  - apply max_by_key_none in E. intros z Hin Hc. assert (In z []) as []. rewrite <-E. by apply find_zone_In.
Qed.

(** [r] is an enabled wildcard that covers [q]. *)
Definition wildcard_over (q base : string) (r : DnsRecord V) : Prop :=
  rec_enabled r = true /\ normalize_name (rec_name r) = "*." +:+ base /\ below q base.

(** The wildcard with the longest base. *)
Definition closest_wildcard (zd : ZoneData V) (q base : string) : Prop :=
  (exists r, In r (zd_records zd) /\ wildcard_over q base r) /\
  forall base' r, In r (zd_records zd) -> wildcard_over q base' r -> at_or_below base base'.

Lemma wildcard_step_spec q best r :
  (exists base, wildcard_over q base r /\
     wildcard_step q best r = (if is_none_or (fun b => b.1 <? str_len base) best
                               then Some (str_len base, normalize_name (rec_name r)) else best)) \/
  (forall base, ~ wildcard_over q base r) /\ wildcard_step q best r = best.
Proof.
  unfold wildcard_step, wildcard_over. destruct (rec_enabled r); cbn [negb]; [|right; by split; [intros ? [? _]|]].
  destruct (strip_prefix "*." (normalize_name (rec_name r))) as [base|] eqn:Es.
  - apply strip_prefix_Some in Es. destruct (ends_with q ("." +:+ base)) eqn:Ee.
    + left. exists base. apply ends_with_dot in Ee. done.
    + right. split; [|done]. intros b (_ & Hb & Hq). rewrite Es in Hb. injection Hb as ->.
      apply ends_with_dot in Hq. congruence.
  - right. split; [|done]. intros b (_ & Hb & _).
    rewrite (proj2 (strip_prefix_Some _ _ _) Hb) in Es. done.
Qed.

Lemma wildcard_fold q recs : forall best,
  match fold_left (wildcard_step q) recs best with
  | None => best = None /\ forall r base, In r recs -> ~ wildcard_over q base r
  | Some (len, owner) =>
      (best = Some (len, owner) \/
         exists r base, In r recs /\ wildcard_over q base r /\ len = str_len base /\ owner = "*." +:+ base) /\
      (forall b, best = Some b -> b.1 <= len) /\
      (forall r base, In r recs -> wildcard_over q base r -> str_len base <= len)
  end.
Proof.
  induction recs as [|r recs IH]; intros best; simpl.
  - destruct best as [[len owner]|]; split_and!; try done; [by left|by intros b [= <-]].
  - destruct (wildcard_step_spec q best r) as [(base & Hw & ->)|[Hno ->]].
    + specialize (IH (if is_none_or (fun b => b.1 <? str_len base) best
                      then Some (str_len base, normalize_name (rec_name r)) else best)).
      destruct (fold_left _ _ _) as [[len owner]|].
      * destruct IH as (Hfrom & Hle & Hmax).
        assert (str_len base <= len /\ forall b, best = Some b -> b.1 <= len) as [Hb Hbest].
        { destruct best as [b|]; simpl in *; [|split; [by apply (Hle _ eq_refl)|done]].
          destruct (b.1 <? str_len base) eqn:El; to_prop; pose proof (Hle _ eq_refl); simpl in *;
            split; [lia|intros ? [= <-]; lia|lia|intros ? [= <-]; lia]. }
        split_and!; [|done|].
        -- destruct Hfrom as [Hfrom|(r' & b' & Hin & H')]; [|right; exists r', b'; split; [by right|done]].
           destruct (is_none_or _ best); [|by left]. injection Hfrom as <- <-. right. exists r, base.
           pose proof Hw as (_ & E & _). rewrite E. split_and!; [by left|done..].
        -- intros r' b' [<-|Hin] Hw'; [|eauto]. destruct Hw as (_ & E1 & _), Hw' as (_ & E2 & _).
           rewrite E1 in E2. by injection E2 as <-.
      * destruct IH as [IH _]. exfalso. destruct best as [b|]; simpl in IH; [by destruct (b.1 <? _)|done].
    + specialize (IH best). destruct (fold_left _ _ _) as [[len owner]|].
      * destruct IH as (Hfrom & Hle & Hmax). split_and!; [|done|].
        -- destruct Hfrom as [|(r' & b' & Hin & H')]; [by left|right; exists r', b'; split; [by right|done]].
        -- intros r' b' [<-|Hin] Hw'; [by apply Hno in Hw'|eauto].
      * destruct IH as [-> IH]. split; [done|]. intros r' b' [<-|Hin]; eauto.
Qed.

Lemma wildcard_at_spec zd q :
  match wildcard_at zd q with
  | Some l => exists base, closest_wildcard zd q base /\ l = map (with_name q) (records_at zd ("*." +:+ base)) /\ l <> []
  | None => forall r base, In r (zd_records zd) -> ~ wildcard_over q base r
  end.
Proof.
  unfold wildcard_at. pose proof (wildcard_fold q (zd_records zd) None) as H.
  destruct (fold_left _ _ _) as [[len owner]|]; [|by destruct H].
  destruct H as ([|(r & base & Hin & Hw & -> & ->)] & _ & Hmax); [done|].
  assert (In r (records_at zd ("*." +:+ base))) as Hr.
  { apply filter_In. split; [done|]. destruct Hw as (-> & -> & _). apply String.eqb_refl. }
  destruct (map _ _) as [|x l] eqn:El.
  - apply map_eq_nil in El. rewrite El in Hr. destruct Hr.
  - exists base. split_and!; [|done|done]. split; [eauto|]. intros base' r' Hin' Hw'.
    eapply nested_len; [right; apply Hw|right; apply Hw'|eauto].
Qed.

Lemma records_at_In (zd : ZoneData V) q r : In r (records_at zd q) <->
  In r (zd_records zd) /\ rec_enabled r = true /\ normalize_name (rec_name r) = q.
Proof. unfold records_at. by rewrite filter_In, andb_true_iff, String.eqb_eq. Qed.

Lemma RecordType_eqb_eq a b : RecordType_eqb a b = true <-> a = b.
Proof. apply bool_decide_eq_true. Qed.

(** A response of the authoritative kind. *)
Definition from_zone (apex : string) (s : Soa) (nx : Prop) (res : Resolution V) : Prop :=
  authoritative res = true /\ rcode res <> Refused /\ (rcode res = NxDomain <-> nx) /\
  (answers res = [] -> authority_soa res = Some (apex, s) \/ soa_answer res = Some (apex, s)).

Lemma answer_at_from_zone (snap : Snapshot V) recs rt apex s : from_zone apex s False (answer_at snap recs rt apex s).
Proof.
  unfold answer_at, from_zone. destruct (List.filter _ _); [|by split_and!].
  destruct (negb _); [|by split_and!; auto]. destruct (find _ _); by split_and!; auto.
Qed.

Lemma from_zone_iff apex s P Q res : (P <-> Q) -> from_zone apex s P res -> from_zone apex s Q res.
Proof. unfold from_zone. tauto. Qed.

(** No record and no wildcard for [q] in the zone. *)
Definition absent (zd : ZoneData V) (q : string) : Prop :=
  q <> apex_of zd /\
  forall r, In r (zd_records zd) -> rec_enabled r = true ->
    normalize_name (rec_name r) <> q /\ forall base, ~ wildcard_over q base r.

Lemma absent_iff zd q : absent zd q <-> q <> apex_of zd /\ records_at zd q = [] /\ wildcard_at zd q = None.
Proof.
  pose proof (wildcard_at_spec zd q) as Hw. split.
  - intros [Ha Hr]. split_and!; [done| |].
    + apply filter_none. intros r Hin. destruct (rec_enabled r) eqn:E; [|done].
      apply String.eqb_neq. by apply Hr.
    + destruct (wildcard_at zd q) as [l|]; [|done]. destruct Hw as (base & [(r & Hin & Hw) _] & _).
      exfalso. eapply Hr; [exact Hin|apply Hw|exact Hw].
  - intros (Ha & Hr & Hn). rewrite Hn in Hw. split; [done|]. intros r Hin He. split; [|by intros base; apply Hw].
    intros E. assert (In r (records_at zd q)) as H by (by apply records_at_In). by rewrite Hr in H.
Qed.

Lemma resolve_zone_from_zone snap zd q qt :
  from_zone (apex_of zd) (soa (zd_zone zd)) (absent zd q) (resolve_zone snap zd q qt).
Proof.
  pose proof (absent_iff zd q) as Habs. unfold resolve_zone.
  destruct (String.eqb_spec q (apex_of zd)) as [Ea|Ea]; cbn [orb negb].
  - assert (~ absent zd q) as Hn by tauto.
    destruct qt; try (eapply from_zone_iff; [|apply answer_at_from_zone]; tauto);
      unfold from_zone; simpl; split_and!; auto; split; done.
  - destruct (records_at zd q) as [|r rs] eqn:Er; cbn [negb].
    + destruct (wildcard_at zd q) as [l|] eqn:Ew.
      * assert (~ absent zd q) as Hn by (rewrite Habs; intros (_ & _ & ?); congruence).
        pose proof (wildcard_at_spec zd q) as Hl. rewrite Ew in Hl. destruct Hl as (? & _ & _ & Hl).
        destruct qt; try (eapply from_zone_iff; [|apply answer_at_from_zone]; tauto);
          unfold from_zone; simpl; split_and!; auto; try done.
      * assert (absent zd q) as Hn by (by apply Habs).
        destruct qt; unfold from_zone; simpl; split_and!; auto; done.
    + assert (~ absent zd q) as Hn by (rewrite Habs; intros (_ & ? & _); done).
      destruct qt; try (eapply from_zone_iff; [|apply answer_at_from_zone]; tauto);
        unfold from_zone; simpl; split_and!; auto; try done.
Qed.

(** authority.  When no policy rule applies, the name is refused exactly when
    no enabled zone is at or above it; otherwise the answer comes from the most
    specific such zone, is authoritative, carries that zone's SOA when it has no
    record, and denies the name exactly when the zone has neither an enabled record
    nor an enabled wildcard for it and it is not the apex. *)
Theorem resolver_authority now (snap : Snapshot V) q_raw qt :
  let q := normalize_name q_raw in
  let res := resolve_in now snap q_raw qt in
  rpz_action (rpz snap) q = None ->
  (rcode res = Refused <-> forall z, In z (zones snap) -> ~ covers q z) /\
  (rcode res <> Refused -> exists z, authority (zones snap) q z /\
     authoritative res = true /\
     (rcode res = NxDomain <-> absent z q) /\
     (answers res = [] -> authority_soa res = Some (apex_of z, soa (zd_zone z)) \/
                          soa_answer res = Some (apex_of z, soa (zd_zone z)))).
Proof.
  intros q res Hrpz. unfold res, resolve_in. fold q. rewrite Hrpz. clear res.
  pose proof (find_zone_spec (zones snap) q) as Hz. destruct (find_zone (zones snap) q) as [z|].
  - destruct (resolve_zone_from_zone snap z q qt) as (H1 & H2 & H3 & H4). split.
    + split; [done|]. intros Hno. destruct Hz as (Hin & Hc & _). exfalso. by eapply Hno.
    + intros _. by exists z.
  - by split.
Qed.

(** ** Answers *)

(** [r] answers for [q]: an enabled record of the authoritative zone, or the
    copy of one at the closest wildcard when nothing exists at [q]. *)
Definition exact_at (zs : list (ZoneData V)) (q : string) (r : DnsRecord V) : Prop :=
  exists zd, authority zs q zd /\ find_zone zs q = Some zd /\ In r (records_at zd q).
Definition answers_for (zs : list (ZoneData V)) (q : string) (r : DnsRecord V) : Prop :=
  exact_at zs q r \/
  exists zd base r0, authority zs q zd /\ find_zone zs q = Some zd /\ q <> apex_of zd /\ records_at zd q = [] /\
    closest_wildcard zd q base /\ In r0 (records_at zd ("*." +:+ base)) /\ r = with_name q r0.

(** A walk along aliases from one name to another. *)
Inductive cname_path (zs : list (ZoneData V)) : string -> list (DnsRecord V) -> string -> Prop :=
| path_nil q : cname_path zs q [] q
| path_cons q c t cs q' : answers_for zs q c -> record_type c = Cname ->
    data_str (rec_data c) "target" = Some t -> cname_path zs (normalize_name t) cs q' ->
    cname_path zs q (c :: cs) q'.

(** The records of the zones passed the write-time check. *)
Definition checked (snap : Snapshot V) : Prop :=
  forall zd r, In zd (zones snap) -> In r (zd_records zd) -> check_record_data (record_type r) (rec_data r) = inr ().

Lemma checked_target snap zd r : checked snap -> In zd (zones snap) -> In r (zd_records zd) ->
  record_type r = Cname -> exists t, data_str (rec_data r) "target" = Some t.
Proof.
  intros Hc Hz Hr E. specialize (Hc zd r Hz Hr). rewrite E in Hc. simpl in Hc. unfold check_fqdn_field in Hc.
  destruct (data_str _ _) as [t|]; [by exists t|done].
Qed.

Definition of_type (rt : RecordType) (r : DnsRecord V) : bool := RecordType_eqb (record_type r) rt.

Lemma chase_spec snap rt fuel : checked snap -> forall c t,
  data_str (rec_data c) "target" = Some t ->
  exists cs finals q', chase_cname fuel (zones snap) c rt = cs ++ finals /\ (length cs <= fuel)%nat /\
    cname_path (zones snap) (normalize_name t) cs q' /\
    (forall r, In r finals -> exact_at (zones snap) q' r /\ record_type r = rt) /\
    ((length cs < fuel)%nat -> forall r, exact_at (zones snap) q' r -> record_type r = rt -> In r finals).
Proof.
  intros Hck. induction fuel as [|fuel IH]; intros c t Ht; simpl.
  { exists [], [], (normalize_name t). split_and!; [done|done|constructor|done|lia]. }
  rewrite Ht. pose proof (find_zone_spec (zones snap) (normalize_name t)) as Hz.
  destruct (find_zone (zones snap) (normalize_name t)) as [zd|] eqn:Ez.
  2:{ exists [], [], (normalize_name t). split_and!; [done|simpl; lia|constructor|done|].
      intros _ r (z & (Hin & Hc & _) & _) _. by apply Hz in Hc. }
  destruct (find (fun r => RecordType_eqb (record_type r) Cname) (records_at zd (normalize_name t))) as [next|] eqn:Ef.
  - apply find_some in Ef as [Hnext Hty%RecordType_eqb_eq].
    pose proof (proj1 (records_at_In _ _ _) Hnext) as (Hn & _).
    destruct (checked_target snap zd next Hck ltac:(apply Hz) Hn Hty) as [t' Ht'].
    destruct (IH next t' Ht') as (cs & finals & q' & -> & Hlen & Hpath & Hfin & Hcomp).
    exists (next :: cs), finals, q'. split_and!; [done|simpl; lia| |done|].
    + econstructor; [left; exists zd; done|done|done|done].
    + simpl. intros Hl. apply Hcomp. lia.
  - exists [], (List.filter (of_type rt) (records_at zd (normalize_name t))), (normalize_name t).
    split_and!; [done|simpl; lia|constructor| |].
    + intros r [Hin Hty%RecordType_eqb_eq]%filter_In. split; [by exists zd|done].
    + intros _ r (z & _ & Hz' & Hin) Hty. rewrite Ez in Hz'. injection Hz' as <-.
      apply filter_In. split; [done|]. by apply RecordType_eqb_eq.
Qed.

Lemma at_or_below_length a b : at_or_below a b -> (String.length b <= String.length a)%nat.
Proof. intros [->|[p ->]]; [done|]. rewrite !str_length_app. simpl. lia. Qed.

Lemma at_or_below_antisym a b : at_or_below a b -> at_or_below b a -> a = b.
Proof.
  intros [->|[p ->]] H; [done|]. apply at_or_below_length in H. rewrite !str_length_app in H. simpl in H. lia.
Qed.

Lemma closest_wildcard_unique (zd : ZoneData V) q b1 b2 :
  closest_wildcard zd q b1 -> closest_wildcard zd q b2 -> b1 = b2.
Proof.
  intros [(r1 & Hin1 & H1) M1] [(r2 & Hin2 & H2) M2]. apply at_or_below_antisym; eauto.
Qed.

(** The records [answer_at] is given are those that answer for the name. *)
Lemma resolve_here (snap : Snapshot V) zd q rt : find_zone (zones snap) q = Some zd ->
  exists here, (forall r, In r here <-> answers_for (zones snap) q r) /\
    answers (resolve_zone snap zd q (QRecord rt)) =
    answers (answer_at snap here rt (apex_of zd) (soa (zd_zone zd))).
Proof.
  intros Hz. pose proof (find_zone_spec (zones snap) q) as Hauth. rewrite Hz in Hauth.
  assert (forall r, exact_at (zones snap) q r <-> In r (records_at zd q)) as Hex.
  { intros r. split; [|by exists zd]. intros (z & _ & E & Hin). congruence. }
  assert (q = apex_of zd \/ records_at zd q <> [] -> forall r, In r (records_at zd q) <-> answers_for (zones snap) q r) as Hx.
  { intros Hq r. unfold answers_for. rewrite Hex. split; [by left|]. intros [|(z & base & r0 & _ & E & Hap & Hr & _)]; [done|].
    exfalso. rewrite Hz in E. injection E as <-. tauto. }
  unfold resolve_zone. destruct (String.eqb_spec q (apex_of zd)) as [Ea|Ea]; cbn [orb negb].
  { exists (records_at zd q). split; [apply Hx; by left|done]. }
  destruct (records_at zd q) as [|r0 rs] eqn:Er; cbn [negb]; [|exists (r0 :: rs); split; [by apply Hx; right|done]].
  pose proof (wildcard_at_spec zd q) as Hw. destruct (wildcard_at zd q) as [l|].
  - exists l. split; [|done]. destruct Hw as (base & Hb & -> & _). intros r. rewrite in_map_iff. split.
    + intros (r0 & <- & Hin). right. exists zd, base, r0. done.
    + intros [H%Hex|(z & base' & r0 & _ & E & _ & _ & Hb' & Hin & ->)]; [done|]. rewrite Hz in E. injection E as <-.
      rewrite (closest_wildcard_unique zd q base base' Hb Hb'). by exists r0.
  - exists []. split; [|unfold answer_at; simpl; by destruct (negb _)]. intros r. split; [done|].
    intros [H%Hex|(z & base' & r0 & _ & E & _ & _ & [(r1 & Hin & Hw1) _] & _)]; [done|].
    rewrite Hz in E. injection E as <-. by apply (Hw r1 base').
Qed.

Lemma answers_for_target (snap : Snapshot V) q c : checked snap -> answers_for (zones snap) q c ->
  record_type c = Cname -> exists t, data_str (rec_data c) "target" = Some t.
Proof.
  intros Hck [(zd & Ha & _ & Hin)|(zd & base & r0 & Ha & _ & _ & _ & _ & Hin & ->)] Hty;
    apply records_at_In in Hin as [Hin _];
    [apply (checked_target snap zd c)|apply (checked_target snap zd r0)]; try done; apply Ha.
Qed.


(** ** Response policy *)

Lemma below_trans q p s : at_or_below q (p +:+ "." +:+ s) -> below q s.
Proof.
  intros [->|[r ->]]; [by exists p|]. exists (r +:+ "." +:+ p). by rewrite !str_app_assoc.
Qed.

Lemma trim_start_below q n : forall s, at_or_below q s -> at_or_below q (trim_start_matches_fuel n "*." s).
Proof.
  induction n as [|n IH]; intros s H; cbn [trim_start_matches_fuel]; [done|].
  destruct (strip_prefix "*." s) as [s'|] eqn:E; [|done]. apply strip_prefix_Some in E as ->.
  apply IH. right. by apply (below_trans q "*").
Qed.

Lemma rpz_matches_iff q pattern : rpz_matches q pattern = true <->
  q = normalize_name pattern /\ strip_prefix "*." (normalize_name pattern) = None \/
  exists suffix, normalize_name pattern = "*." +:+ suffix /\ at_or_below q suffix.
Proof.
  unfold rpz_matches. destruct (strip_prefix "*." (normalize_name pattern)) as [suf|] eqn:E.
  - apply strip_prefix_Some in E. rewrite at_or_below_iff. split; [by right; exists suf|].
    intros [[_ ?]|(s & E' & H)]; [done|]. rewrite E in E'. by injection E' as <-.
  - rewrite String.eqb_eq. split; [by left|]. intros [[? _]|(s & E' & _)]; [done|].
    by rewrite (proj2 (strip_prefix_Some _ _ _) E') in E.
Qed.

Lemma rpz_matches_base q r : rpz_matches q (rpz_domain r) = true -> at_or_below q (rpz_base r).
Proof.
  unfold rpz_base, trim_start_matches. intros [[-> Hn]|(s & -> & H)]%rpz_matches_iff;
    [apply trim_start_below; by left|].
  change (String.length ("*." +:+ s)) with (S (S (String.length s))). cbn [trim_start_matches_fuel].
  rewrite (proj2 (strip_prefix_Some "*." ("*." +:+ s) s) eq_refl). by apply (trim_start_below q (S (String.length s))).
Qed.

(** A rule that applies to [q]. *)
Definition applies (q : string) (r : RpzRule) : Prop :=
  rpz_enabled r = true /\
  (q = normalize_name (rpz_domain r) /\ strip_prefix "*." (normalize_name (rpz_domain r)) = None \/
   exists suffix, normalize_name (rpz_domain r) = "*." +:+ suffix /\ at_or_below q suffix).

Lemma rpz_action_spec rules q :
  match rpz_action rules q with
  | None => forall r, In r rules -> ~ applies q r
  | Some (a, t) => exists r, In r rules /\ applies q r /\ a = rpz_act r /\ t = redirect_to r /\
      forall r', In r' rules -> applies q r' -> at_or_below (rpz_base r) (rpz_base r')
  end.
Proof.
  assert (forall r, In r (List.filter (fun r => rpz_enabled r && rpz_matches q (rpz_domain r)) rules) <->
    In r rules /\ applies q r) as HF.
  { intros r. by rewrite filter_In, andb_true_iff, rpz_matches_iff. }
  assert (forall r, applies q r -> at_or_below q (rpz_base r)) as HB.
  { intros r [_ H]. by apply rpz_matches_base, rpz_matches_iff. }
  unfold rpz_action. destruct (max_by_key _ _) as [r|] eqn:E; simpl.
  - apply max_by_key_spec in E as [[Hin Ha]%HF Hmax]. exists r. split_and!; try done.
    intros r' Hin' Ha'. eapply nested_len; [by apply HB|by apply HB|]. by apply Hmax, HF.
  - apply max_by_key_none in E. intros r Hin Ha. assert (In r []) as []. rewrite <-E. by apply HF.
Qed.

Lemma resolve_zone_from_rpz (snap : Snapshot V) zd q qt : from_rpz (resolve_zone snap zd q qt) = false.
Proof.
  assert (forall recs rt, from_rpz (answer_at snap recs rt (apex_of zd) (soa (zd_zone zd))) = false) as Hat.
  { intros recs rt. unfold answer_at. destruct (List.filter _ _); [|done]. destruct (negb _); [|done].
    by destruct (find _ _). }
  unfold resolve_zone. destruct qt, (String.eqb q (apex_of zd)); cbn [orb negb]; try done; rewrite ?Hat; try done;
    destruct (records_at zd q); cbn [negb]; rewrite ?Hat; try done; destruct (wildcard_at zd q); rewrite ?Hat; done.
Qed.

(** response policy.  A rule applies to its name, or, written with a
    leading [*.], to the rest of it and everything below; when enabled rules apply,
    one whose name is the most specific decides, before any zone is looked at: the
    answer is marked as policy and not authoritative, only [Drop] suppresses the
    reply, only [Redirect] has answers, starting with an alias from the asked name to
    the target, and the name is denied for [Nxdomain] or a redirect without target. *)
Theorem rpz_most_specific_wins now (snap : Snapshot V) q_raw qt :
  let q := normalize_name q_raw in
  let res := resolve_in now snap q_raw qt in
  (from_rpz res = true <-> exists r, In r (rpz snap) /\ applies q r) /\
  (from_rpz res = true -> exists r, In r (rpz snap) /\ applies q r /\
     (forall r', In r' (rpz snap) -> applies q r' -> at_or_below (rpz_base r) (rpz_base r')) /\
     authoritative res = false /\ rcode res <> Refused /\
     (drop res = true <-> rpz_act r = Drop) /\
     (forall target, rpz_act r = Redirect -> redirect_to r = Some target -> is_empty (trim target) = false ->
        exists c rest, answers res = c :: rest /\ rec_name c = q /\ record_type c = Cname /\
          data_str (rec_data c) "target" = Some (normalize_name target)) /\
     (answers res <> [] -> rpz_act r = Redirect) /\
     (rcode res = NxDomain <-> rpz_act r = Nxdomain \/
        rpz_act r = Redirect /\ (redirect_to r = None \/ exists t, redirect_to r = Some t /\ is_empty (trim t) = true))).
Proof.
  intros q res. pose proof (rpz_action_spec (rpz snap) q) as Hs. unfold res, resolve_in. fold q.
  destruct (rpz_action (rpz snap) q) as [[a t]|].
  - destruct Hs as (r & Hin & Ha & -> & -> & Hmax). split; [split; [by exists r|done]|]. intros _. exists r.
    assert (forall target, data_str (rec_data (synth_cname now q target)) "target" = Some (normalize_name target)) as Hsyn.
    { intros target. unfold data_str, synth_cname. simpl. rewrite json_get_obj. apply as_str_from_str. }
    do 3 (split; [done|]). unfold apply_rpz, set_from_rpz, apply_rpz_inner.
    destruct (rpz_act r) eqn:Eact; [..|destruct (redirect_to r) as [target|] eqn:Et;
      [destruct (is_empty (trim target)) eqn:Ee|]|]; simpl.
    4: { split_and!; try done.
         - intros ? _ [= <-] _. destruct qt as [rt| | |]; [destruct (negb _)|..]; simpl; eauto 10.
         - split; [done|]. intros [?|[_ [?|(t' & [= <-] & ?)]]]; congruence. }
    all: split_and!; try done; try (intros; congruence);
      (split; [intros ?; try done; eauto 10|intros [?|[? [?|(? & ? & ?)]]]; try done; congruence]).
  - assert (from_rpz (match find_zone (zones snap) q with
                      | Some zd => resolve_zone snap zd q qt | None => Resolution_refused end) = false) as ->
      by (destruct (find_zone _ _); [apply resolve_zone_from_rpz|done]).
    split; [|done]. split; [done|]. intros (r & Hin & Ha). by apply Hs in Ha.
Qed.

(** ** Stored data *)

Lemma as_u64_lenient_bound (v : V) n : as_u64_lenient v = Some n -> 0 <= n <= U64_MAX.
Proof.
  unfold as_u64_lenient. destruct (as_u64 v) as [m|] eqn:E; [intros [= <-]; by eapply as_u64_bound|].
  destruct (as_str v) as [s|]; simpl; [|done]. apply parse_uint_bound.
Qed.

(** Numeric record data.  Normalising the payload of a record changes
    neither whether nor why it is rejected, and once an accepted MX payload is
    normalised its preference reads as a number of 16 bits. *)
Theorem normalized_data_checked rt (data : V) :
  check_record_data rt (normalize_record_data rt data) = check_record_data rt data /\
  (rt = Mx -> check_record_data rt data = inr () ->
   exists n, json_get "preference" (normalize_record_data rt data) ≫= as_u64 = Some n /\ 0 <= n <= U16_MAX).
Proof.
  destruct rt; try done. unfold normalize_record_data.
  destruct (json_get "preference" data) as [v|] eqn:Ep; [|by split; [|intros _; simpl; rewrite Ep]].
  destruct (as_u64_lenient v) as [n|] eqn:En; [|by split; [|intros _; simpl; rewrite Ep; simpl; rewrite En]].
  pose proof (as_u64_lenient_bound v n En) as Hb.
  assert (as_u64_lenient (from_u64 n) = Some n) as Hn by (unfold as_u64_lenient; by rewrite as_u64_from_u64).
  assert (json_get "preference" (json_set "preference" (from_u64 n) data) = Some (from_u64 n)) as Hp
    by (rewrite json_get_set, Ep; done).
  split.
  - unfold check_record_data, data_str. rewrite Hp, json_get_set, Ep. simpl. by rewrite Hn, En.
  - intros _. unfold check_record_data. rewrite Ep, Hp. simpl. rewrite En, as_u64_from_u64 by done. simpl.
    destruct (n <=? U16_MAX) eqn:E; [|done]. intros _. exists n. to_prop. split; [done|lia].
Qed.
End resolver_facts.

(** ** Normal names *)

(** A name the way a zone file has it: printable, without empty labels. *)
Definition plain (s : string) : bool :=
  str_forallb is_graphic s && forallb (fun l => negb (is_empty l)) (split "." s).

Lemma split_app p a : split "." (p +:+ "." +:+ a) = split "." p ++ split "." a.
Proof.
  induction p as [|c p IH]; [done|].
  change (String c p +:+ "." +:+ a) with (String c (p +:+ "." +:+ a)). cbn [split]. rewrite IH. destruct (Ascii.eqb c "."); [done|].
  pose proof (split_nonempty "." p). by destruct (split "." p).
Qed.

Lemma join_split s : join "." (split "." s) = s.
Proof.
  induction s as [|c s IH]; [done|]. simpl. pose proof (split_nonempty "." s) as Hn.
  destruct (Ascii.eqb_spec c ".") as [->|Hc]; destruct (split "." s) as [|x l]; try done; simpl in *.
  - by rewrite IH.
  - by destruct l; simpl in *; rewrite IH.
Qed.

Lemma split_inj a b : split "." a = split "." b -> a = b.
Proof. intros E. by rewrite <-(join_split a), <-(join_split b), E. Qed.

Lemma trim_end_dot s : forallb (fun l => negb (is_empty l)) (tl (split "." s)) = true -> trim_end_matches "." s = s.
Proof.
  induction s as [|c s IH]; [done|]. cbn [split trim_end_matches].
  pose proof (split_nonempty "." s) as Hn. destruct (Ascii.eqb_spec c ".") as [->|Hc]; simpl.
  - intros H. destruct s as [|c' s]; [done|]. rewrite IH; [done|].
    destruct (split "." (String c' s)); [done|]. simpl in H. by apply andb_true_iff in H as [_ H].
  - intros H. rewrite IH; [by rewrite andb_false_r|]. by destruct (split "." s).
Qed.

(** A name in normal form. *)
Definition name_ok (s : string) : Prop := plain s = true /\ to_ascii_lowercase s = s.

Lemma name_ok_normalize s : name_ok s -> normalize_name s = s.
Proof.
  intros [[Hg Hl]%andb_true_iff Hlow]. unfold normalize_name. rewrite trim_graphic by done.
  rewrite trim_end_dot; [done|]. destruct (split "." s) as [|w ws]; [done|]. simpl in *. by apply andb_true_iff in Hl as [_ Hl].
Qed.

Lemma is_label_plain l : is_label l = true -> is_empty l = false /\ str_forallb is_graphic l = true.
Proof.
  unfold is_label. destruct (is_empty l); [done|]. simpl. destruct (63 <? str_len l); [done|].
  destruct (starts_with l "-" || ends_with l "-"); [done|]. intros H. split; [done|].
  induction l as [|c l IH]; [done|]. simpl in *. apply andb_true_iff in H as [Hc H]. rewrite IH by done.
  rewrite andb_true_r. unfold is_graphic, in_codes. apply orb_true_iff in Hc as [Hc| ->%Ascii.eqb_eq]; [|done].
  unfold is_ascii_alphanumeric, is_ascii_alphabetic, is_ascii_upper, is_ascii_lower, is_ascii_digit, in_codes in Hc.
  to_prop. lia.
Qed.

Lemma join_graphic ls : Forall (fun l => str_forallb is_graphic l = true) ls -> str_forallb is_graphic (join "." ls) = true.
Proof.
  induction 1 as [|l ls Hl Hls IH]; [done|]. destruct ls as [|l' ls]; [done|].
  change (join "." (l :: l' :: ls)) with (l +:+ "." +:+ join "." (l' :: ls)).
  by rewrite !str_forallb_app, Hl, IH.
Qed.

(** Names that pass the check are in normal form once normalised. *)
Lemma is_fqdn_name_ok n w : is_fqdn n w = true -> name_ok (normalize_name n).
Proof.
  unfold is_fqdn. set (m := normalize_name n). destruct (is_empty m); [done|].
  destruct (length (split "." m) <? 2)%nat; [done|]. intros H.
  split; [|unfold m, normalize_name; by rewrite to_ascii_lowercase_idem].
  assert (Forall (fun l => is_empty l = false /\ str_forallb is_graphic l = true) (split "." m)) as Hall.
  { destruct (split "." m) as [|l ls]; [by constructor|]. apply andb_true_iff in H as [Hl Hls]. constructor.
    - apply orb_true_iff in Hl as [[_ ->%String.eqb_eq]%andb_true_iff|Hl]; [done|by apply is_label_plain].
    - apply Forall_forall. intros x Hx%list_elem_of_In. apply is_label_plain. by eapply forallb_forall in Hls. }
  unfold plain. apply andb_true_iff. split.
  - rewrite <- (join_split m). apply join_graphic. eapply Forall_impl; [exact Hall|]. by intros x [_ ?].
  - apply forallb_forall. intros x Hx%list_elem_of_In. eapply Forall_forall in Hall as [-> _]; [done|exact Hx].
Qed.

(** ** A sample snapshot *)

Definition sample_record (name : string) (rt : RecordType) (key value : string) : DnsRecord json_value :=
  mkDnsRecord name 0 0 "admin" "z" name 300 rt (JObj [(key, JStr value)]) true.

Definition sample_zone (name : string) : Zone :=
  mkZone name 0 0 "admin" name Soa_default true false false Primary [] [] false [] None None.

Definition sample_snapshot : Snapshot json_value :=
  mkSnapshot
    [mkZoneData (sample_zone "example.com")
       [sample_record "www.example.com" Cname "target" "Host.Example.com.";
        sample_record "host.example.com" A "address" "192.0.2.1";
        sample_record "*.example.com" A "address" "192.0.2.2"];
     mkZoneData (sample_zone "com") [sample_record "www.example.com" A "address" "192.0.2.3"]]
    [mkRpzRule "1" 0 0 "admin" "*.ads.example.com" Redirect (Some "host.example.com"%string) true;
     mkRpzRule "2" 0 0 "admin" "*.example.com" Nxdomain None false;
     mkRpzRule "3" 0 0 "admin" "*.track.ads.example.com" Drop None true].

Lemma sample_checked : checked sample_snapshot.
Proof.
  intros zd r Hz Hr. simpl in Hz.
  repeat (destruct Hz as [<-|Hz]); simpl in Hr; repeat (destruct Hr as [<-|Hr]); done.
Qed.

Lemma resolver_authority_witness :
  (rcode (resolve_in 0 sample_snapshot "Host.example.com." (QRecord Aaaa)) <> Refused ->
   exists z, authority (zones sample_snapshot) "host.example.com" z /\ ~ absent z "host.example.com") /\
  rcode (resolve_in 0 sample_snapshot "Host.example.com." (QRecord Aaaa)) = NoError /\
  rcode (resolve_in 0 sample_snapshot "example.net" (QRecord A)) = Refused.
Proof.
  split_and!; [|done|].
  - intros Hrc. destruct (resolver_authority 0 sample_snapshot "Host.example.com." (QRecord Aaaa)) as [_ H]; [done|].
    destruct (H Hrc) as (z & Hz & _ & Hnx & _). exists z. split; [exact Hz|]. by intros Habs%Hnx.
  - apply (resolver_authority 0 sample_snapshot "example.net" (QRecord A)); [done|].
    intros z Hz [_ Hc%at_or_below_iff]. simpl in Hz. repeat (destruct Hz as [<-|Hz]); done.
Defined.


Lemma rpz_most_specific_wins_witness :
  drop (resolve_in 0 sample_snapshot "x.track.ads.example.com" (QRecord A)) = true /\
  map rec_id (answers (resolve_in 0 sample_snapshot "ads.example.com" (QRecord A))) = [""; "host.example.com"]%string /\
  exists r, In r (rpz sample_snapshot) /\ applies "ads.example.com" r.
Proof.
  split_and!; [done|done|]. by apply (rpz_most_specific_wins 0 sample_snapshot "ads.example.com" (QRecord A)).
Defined.

Lemma normalized_data_checked_witness :
  exists n, json_get "preference"
    (normalize_record_data Mx (JObj [("preference", JStr " 10"); ("exchange", JStr "mx.example.com")]%string)) ≫= as_u64
    = Some n /\ 0 <= n <= U16_MAX.
Proof. apply normalized_data_checked; done. Defined.

(** A wildcard answers below a name that exists: RFC 4592 stops the search at
    the closest encloser, [host.example.com] here. *)
Example wildcard_below_existing_name :
  map rec_id (answers (resolve_in 0 sample_snapshot "x.host.example.com" (QRecord A))) = ["*.example.com"%string].
Proof. done. Qed.
