(* ===== verification/DnsDb.v ===== *)
(** * The DNS repository

    Models [crates/magnetite-db/src/dns.rs]: zones (unique names, cascading
    deletion), records (an alias shares its name with no other record), the
    journal behind incremental transfers, policy rules, GeoDNS rules, TSIG and
    DNSSEC keys and the forwarders.  A store is eight tables, any instances of
    [Table]; every function is a call of the monad [M] over it.  The clock is the
    argument [now]; the JSON columns go through [Serde], and [chrono]'s RFC 3339
    and [base64] are parameters. *)

From stdpp Require Import pretty.
From S2P Require Import Prelude Bytes RustStr RustNet Surreal Serde Dns.
Local Open Scope db_scope.

Definition CNAME_CONFLICT : string := "CNAME レコードは同名の他レコードと共存できません。".
Definition MSG_ZONE_EXISTS : string := "同じ名前のゾーンが既に存在します。".

(** ** Keys and GeoDNS rules ([magnetite-core/src/domains/dns/model.rs]) *)

Inductive TsigAlgorithm := HmacSha256 | HmacSha384 | HmacSha512.

Definition TsigAlgorithm_wire_name (a : TsigAlgorithm) : string :=
  match a with
  | HmacSha256 => "hmac-sha256"
  | HmacSha384 => "hmac-sha384"
  | HmacSha512 => "hmac-sha512"
  end.

Record TsigKey := mkTsigKey {
  tk_id : string;
  tk_created_at : Z;
  tk_updated_at : Z;
  tk_created_by : string;
  tk_name : string;
  tk_algorithm : TsigAlgorithm;
  tk_secret : string;
}.

Record GeoRegion (V : Type) := mkGeoRegion {
  region : string;
  cidrs : list string;
  region_data : V;
}.
Arguments mkGeoRegion {V} _ _ _.
Arguments region {V} _.
Arguments cidrs {V} _.
Arguments region_data {V} _.

Record GeoRule (V : Type) := mkGeoRule {
  geo_id : string;
  geo_created_at : Z;
  geo_updated_at : Z;
  geo_created_by : string;
  geo_zone : string;
  geo_name : string;
  geo_record_type : RecordType;
  geo_ttl : Z;
  default_data : V;
  regions : list (GeoRegion V);
  geo_enabled : bool;
}.
Arguments mkGeoRule {V} _ _ _ _ _ _ _ _ _ _ _.
Arguments geo_id {V} _.
Arguments geo_created_at {V} _.
Arguments geo_updated_at {V} _.
Arguments geo_created_by {V} _.
Arguments geo_zone {V} _.
Arguments geo_name {V} _.
Arguments geo_record_type {V} _.
Arguments geo_ttl {V} _.
Arguments default_data {V} _.
Arguments regions {V} _.
Arguments geo_enabled {V} _.

(** ** Rows *)

Record ZoneRecord := mkZoneRecord {
  zr_name : string;
  zr_soa : string;
  zr_enabled : bool;
  zr_dnssec_enabled : bool;
  zr_nsec3_enabled : bool;
  zr_role : string;
  zr_allow_transfer : list string;
  zr_also_notify : list string;
  zr_notify_enabled : bool;
  zr_primaries : list string;
  zr_tsig_key_name : option string;
  zr_transfer_state : option string;
  zr_created_at : string;
  zr_updated_at : string;
  zr_created_by : string;
}.

Record RecordRecord := mkRecordRecord {
  rec_r_zone : string;
  rec_r_name : string;
  rec_r_ttl : Z;
  rec_r_type : string;
  rec_r_data : string;
  rec_r_enabled : bool;
  rec_r_created_at : string;
  rec_r_updated_at : string;
  rec_r_created_by : string;
}.

Record RpzRecord := mkRpzRecord {
  pr_domain : string;
  pr_action : string;
  pr_redirect_to : option string;
  pr_enabled : bool;
  pr_created_at : string;
  pr_updated_at : string;
  pr_created_by : string;
}.

Record TsigKeyRecord := mkTsigKeyRecord {
  tr_name : string;
  tr_algorithm : string;
  tr_secret : string;
  tr_created_at : string;
  tr_updated_at : string;
  tr_created_by : string;
}.

Record JournalRecord := mkJournalRecord {
  jr_zone : string;
  jr_serial : Z;
  jr_added : string;
  jr_removed : string;
  jr_at : string;
}.

Record GeoRuleRecord := mkGeoRuleRecord {
  gr_zone : string;
  gr_name : string;
  gr_record_type : string;
  gr_ttl : Z;
  gr_default_data : string;
  gr_regions : string;
  gr_enabled : bool;
  gr_created_at : string;
  gr_updated_at : string;
  gr_created_by : string;
}.

Record DnsSettingsRecord := mkDnsSettingsRecord { ds_forwarders : string }.

Record DnssecKeyRecord := mkDnssecKeyRecord { dk_zone_name : string; dk_key_der : string }.

(** [SET soa = $soa, updated_at = $t] and the other partial updates of a zone. *)
Definition zr_set_soa (text t : string) (r : ZoneRecord) : ZoneRecord :=
  mkZoneRecord (zr_name r) text (zr_enabled r) (zr_dnssec_enabled r) (zr_nsec3_enabled r) (zr_role r)
    (zr_allow_transfer r) (zr_also_notify r) (zr_notify_enabled r) (zr_primaries r) (zr_tsig_key_name r)
    (zr_transfer_state r) (zr_created_at r) t (zr_created_by r).
Definition zr_set_enabled (en : bool) (r : ZoneRecord) : ZoneRecord :=
  mkZoneRecord (zr_name r) (zr_soa r) en (zr_dnssec_enabled r) (zr_nsec3_enabled r) (zr_role r)
    (zr_allow_transfer r) (zr_also_notify r) (zr_notify_enabled r) (zr_primaries r) (zr_tsig_key_name r)
    (zr_transfer_state r) (zr_created_at r) (zr_updated_at r) (zr_created_by r).
Definition zr_set_dnssec (en : bool) (t : string) (r : ZoneRecord) : ZoneRecord :=
  mkZoneRecord (zr_name r) (zr_soa r) (zr_enabled r) en (zr_nsec3_enabled r) (zr_role r)
    (zr_allow_transfer r) (zr_also_notify r) (zr_notify_enabled r) (zr_primaries r) (zr_tsig_key_name r)
    (zr_transfer_state r) (zr_created_at r) t (zr_created_by r).
Definition zr_set_nsec3 (en : bool) (t : string) (r : ZoneRecord) : ZoneRecord :=
  mkZoneRecord (zr_name r) (zr_soa r) (zr_enabled r) (zr_dnssec_enabled r) en (zr_role r)
    (zr_allow_transfer r) (zr_also_notify r) (zr_notify_enabled r) (zr_primaries r) (zr_tsig_key_name r)
    (zr_transfer_state r) (zr_created_at r) t (zr_created_by r).
Definition zr_set_replication (rl : string) (at_ an : list string) (ne : bool) (pr : list string)
    (tk : option string) (t : string) (r : ZoneRecord) : ZoneRecord :=
  mkZoneRecord (zr_name r) (zr_soa r) (zr_enabled r) (zr_dnssec_enabled r) (zr_nsec3_enabled r) rl
    at_ an ne pr tk (zr_transfer_state r) (zr_created_at r) t (zr_created_by r).
Definition zr_set_transfer_state (text : string) (r : ZoneRecord) : ZoneRecord :=
  mkZoneRecord (zr_name r) (zr_soa r) (zr_enabled r) (zr_dnssec_enabled r) (zr_nsec3_enabled r) (zr_role r)
    (zr_allow_transfer r) (zr_also_notify r) (zr_notify_enabled r) (zr_primaries r) (zr_tsig_key_name r)
    (Some text) (zr_created_at r) (zr_updated_at r) (zr_created_by r).

Definition soa_set_serial (n : Z) (s : Soa) : Soa :=
  mkSoa (mname s) (rname s) n (refresh s) (retry s) (expire s) (minimum s).

(** [wrapping_add(1).max(1)] on [u32]. *)
Definition next_serial (n : Z) : Z := Z.max ((n + 1) mod 2 ^ 32) 1.

Definition TsigKeyRecord_algorithm (r : TsigKeyRecord) : TsigAlgorithm :=
  if String.eqb (tr_algorithm r) "hmac-sha512" then HmacSha512
  else if String.eqb (tr_algorithm r) "hmac-sha384" then HmacSha384
  else HmacSha256.

(** ** The store *)

Record Store (TZ TR TP TT TJ TG TS TK : Type) := mkStore {
  zone_t : TZ;
  record_t : TR;
  rpz_t : TP;
  tsig_t : TT;
  journal_t : TJ;
  geo_t : TG;
  settings_t : TS;
  dnssec_key_t : TK;
}.
Arguments mkStore {TZ TR TP TT TJ TG TS TK} _ _ _ _ _ _ _ _.
Arguments zone_t {TZ TR TP TT TJ TG TS TK} _.
Arguments record_t {TZ TR TP TT TJ TG TS TK} _.
Arguments rpz_t {TZ TR TP TT TJ TG TS TK} _.
Arguments tsig_t {TZ TR TP TT TJ TG TS TK} _.
Arguments journal_t {TZ TR TP TT TJ TG TS TK} _.
Arguments geo_t {TZ TR TP TT TJ TG TS TK} _.
Arguments settings_t {TZ TR TP TT TJ TG TS TK} _.
Arguments dnssec_key_t {TZ TR TP TT TJ TG TS TK} _.

Section repository.
Context {TZ TR TP TT TJ TG TS TK : Type}.
Context {ZT : Table TZ ZoneRecord} {RT : Table TR RecordRecord} {PT : Table TP RpzRecord}
        {KT : Table TT TsigKeyRecord} {JT : Table TJ JournalRecord} {GT : Table TG GeoRuleRecord}
        {ST : Table TS DnsSettingsRecord} {DT : Table TK DnssecKeyRecord}.
Context {V : Type} {J : Json V} {VD : EqDecision V} (json_null : V).
Context {SO : Serde Soa} {SX : Serde ZoneTransferState} {SV : Serde V} {SR : Serde (list (DnsRecord V))}
        {SG : Serde (list (GeoRegion V))} {SF : Serde (list string)}.
(** [DateTime::to_rfc3339] and [DateTime::parse_from_rfc3339]. *)
Context (to_rfc3339 : Z -> string) (parse_from_rfc3339 : string -> option Z).
(** [base64::STANDARD]. *)
Context (b64_encode : bytes -> string) (b64_decode : string -> option bytes).

Abbreviation store := (Store TZ TR TP TT TJ TG TS TK).
Abbreviation Db := (M store).
Abbreviation DRecord := (DnsRecord V).

Definition put_zones (t : TZ) (s : store) : store :=
  mkStore t (record_t s) (rpz_t s) (tsig_t s) (journal_t s) (geo_t s) (settings_t s) (dnssec_key_t s).
Definition put_records (t : TR) (s : store) : store :=
  mkStore (zone_t s) t (rpz_t s) (tsig_t s) (journal_t s) (geo_t s) (settings_t s) (dnssec_key_t s).
Definition put_rpz (t : TP) (s : store) : store :=
  mkStore (zone_t s) (record_t s) t (tsig_t s) (journal_t s) (geo_t s) (settings_t s) (dnssec_key_t s).
Definition put_tsig (t : TT) (s : store) : store :=
  mkStore (zone_t s) (record_t s) (rpz_t s) t (journal_t s) (geo_t s) (settings_t s) (dnssec_key_t s).
Definition put_journal (t : TJ) (s : store) : store :=
  mkStore (zone_t s) (record_t s) (rpz_t s) (tsig_t s) t (geo_t s) (settings_t s) (dnssec_key_t s).
Definition put_geo (t : TG) (s : store) : store :=
  mkStore (zone_t s) (record_t s) (rpz_t s) (tsig_t s) (journal_t s) t (settings_t s) (dnssec_key_t s).
Definition put_settings (t : TS) (s : store) : store :=
  mkStore (zone_t s) (record_t s) (rpz_t s) (tsig_t s) (journal_t s) (geo_t s) t (dnssec_key_t s).
Definition put_dnssec (t : TK) (s : store) : store :=
  mkStore (zone_t s) (record_t s) (rpz_t s) (tsig_t s) (journal_t s) (geo_t s) (settings_t s) t.

Definition on_zones {B} (q : TZ -> DbResult B * TZ) : Db B := on_table zone_t put_zones q.
Definition on_records {B} (q : TR -> DbResult B * TR) : Db B := on_table record_t put_records q.
Definition on_rpz {B} (q : TP -> DbResult B * TP) : Db B := on_table rpz_t put_rpz q.
Definition on_tsig {B} (q : TT -> DbResult B * TT) : Db B := on_table tsig_t put_tsig q.
Definition on_journal {B} (q : TJ -> DbResult B * TJ) : Db B := on_table journal_t put_journal q.
Definition on_geo {B} (q : TG -> DbResult B * TG) : Db B := on_table geo_t put_geo q.
Definition on_settings {B} (q : TS -> DbResult B * TS) : Db B := on_table settings_t put_settings q.
Definition on_dnssec {B} (q : TK -> DbResult B * TK) : Db B := on_table dnssec_key_t put_dnssec q.

(** [records.rs]: an unreadable timestamp reads as the current time. *)
Definition parse_rfc3339 (now : Z) (value : string) : Z := unwrap_or now (parse_from_rfc3339 value).

Definition ZoneRecord_into_model (now : Z) (kr : string * ZoneRecord) : Zone :=
  let (k, r) := kr in
  mkZone k (parse_rfc3339 now (zr_created_at r)) (parse_rfc3339 now (zr_updated_at r)) (zr_created_by r)
    (zr_name r) (unwrap_or Soa_default (of_string (zr_soa r))) (zr_enabled r) (zr_dnssec_enabled r)
    (zr_nsec3_enabled r) (if String.eqb (zr_role r) "secondary" then Secondary else Primary)
    (zr_allow_transfer r) (zr_also_notify r) (zr_notify_enabled r) (zr_primaries r) (zr_tsig_key_name r)
    (zr_transfer_state r ≫= of_string).

Definition RecordRecord_into_model (now : Z) (kr : string * RecordRecord) : DRecord :=
  let (k, r) := kr in
  mkDnsRecord k (parse_rfc3339 now (rec_r_created_at r)) (parse_rfc3339 now (rec_r_updated_at r))
    (rec_r_created_by r) (rec_r_zone r) (rec_r_name r) (rec_r_ttl r)
    (unwrap_or A (RecordType_from_str (rec_r_type r))) (unwrap_or json_null (of_string (rec_r_data r)))
    (rec_r_enabled r).

Definition RpzRecord_into_model (now : Z) (kr : string * RpzRecord) : RpzRule :=
  let (k, r) := kr in
  mkRpzRule k (parse_rfc3339 now (pr_created_at r)) (parse_rfc3339 now (pr_updated_at r)) (pr_created_by r)
    (pr_domain r) (unwrap_or Nxdomain (RpzAction_from_str (pr_action r))) (pr_redirect_to r) (pr_enabled r).

(** The secret is blanked out. *)
Definition TsigKeyRecord_into_model_redacted (now : Z) (kr : string * TsigKeyRecord) : TsigKey :=
  let (k, r) := kr in
  mkTsigKey k (parse_rfc3339 now (tr_created_at r)) (parse_rfc3339 now (tr_updated_at r)) (tr_created_by r)
    (tr_name r) (TsigKeyRecord_algorithm r) EmptyString.

Definition GeoRuleRecord_into_model (now : Z) (kr : string * GeoRuleRecord) : GeoRule V :=
  let (k, r) := kr in
  mkGeoRule k (parse_rfc3339 now (gr_created_at r)) (parse_rfc3339 now (gr_updated_at r)) (gr_created_by r)
    (gr_zone r) (gr_name r) (unwrap_or A (RecordType_from_str (gr_record_type r))) (gr_ttl r)
    (unwrap_or json_null (of_string (gr_default_data r))) (unwrap_or [] (of_string (gr_regions r)))
    (gr_enabled r).

(** ** Zones *)

Definition find_zone_by_name (now : Z) (name : string) : Db (option Zone) :=
  do! recs <- read_from zone_t (select (fun r => String.eqb (zr_name r) name) unordered (Some 1%nat));
  mret (ZoneRecord_into_model now <$> head recs).

Definition create_zone (now : Z) (name : string) (s : Soa) (enabled : bool) (actor : string) : Db Zone :=
  let name := normalize_name name in
  do! found <- find_zone_by_name now name;
  match found with
  | Some _ => mfail (Constraint MSG_ZONE_EXISTS)
  | None =>
      let t := to_rfc3339 now in
      let rec := mkZoneRecord name (json_text s) enabled false false "primary" [] [] false [] None None t t actor in
      do! created <- on_zones (create rec);
      match created with
      | Some kr => mret (ZoneRecord_into_model now kr)
      | None => mfail (Constraint "zone creation returned nothing")
      end
  end.

Definition list_zones (now : Z) : Db (list Zone) :=
  do! recs <- read_from zone_t (select (fun _ => true) (fun a b => str_le (zr_name a) (zr_name b)) None);
  mret (map (ZoneRecord_into_model now) recs).

Definition get_zone (now : Z) (id : string) : Db (option Zone) :=
  do! rec <- read_from zone_t (select_key id);
  mret ((fun r => ZoneRecord_into_model now (id, r)) <$> rec).

(** [UPDATE type::record('zone', $id) SET ...] *)
Definition update_zone_row (id : string) (f : ZoneRecord -> ZoneRecord) : Db (list (string * ZoneRecord)) :=
  on_zones (update_where (fun k _ => String.eqb k id) f).

Definition update_zone (now : Z) (id : string) (s : Soa) (enabled : bool) : Db (option Zone) :=
  do! updated <- update_zone_row id (fun r => zr_set_enabled enabled (zr_set_soa (json_text s) (to_rfc3339 now) r));
  mret (ZoneRecord_into_model now <$> head updated).

Definition set_zone_dnssec_enabled (now : Z) (id : string) (enabled : bool) : Db unit :=
  do! _ <- update_zone_row id (zr_set_dnssec enabled (to_rfc3339 now)); mret ().

Definition set_zone_nsec3_enabled (now : Z) (id : string) (enabled : bool) : Db unit :=
  do! _ <- update_zone_row id (zr_set_nsec3 enabled (to_rfc3339 now)); mret ().

Definition update_zone_replication (now : Z) (id : string) (rl : ZoneRole) (at_ an : list string)
    (ne : bool) (pr : list string) (tk : option string) : Db unit :=
  let role_str : string := match rl with Primary => "primary" | Secondary => "secondary" end in
  do! _ <- update_zone_row id (zr_set_replication role_str at_ an ne pr tk (to_rfc3339 now)); mret ().

Definition set_zone_transfer_state (id : string) (state : ZoneTransferState) : Db unit :=
  do! _ <- update_zone_row id (zr_set_transfer_state (json_text state)); mret ().

Definition set_zone_soa (now : Z) (id : string) (s : Soa) : Db unit :=
  do! _ <- update_zone_row id (zr_set_soa (json_text s) (to_rfc3339 now)); mret ().

Definition bump_zone_serial (now : Z) (id : string) : Db (option Z) :=
  do! zone <- get_zone now id;
  match zone with
  | None => mret None
  | Some zone =>
      let s := soa_set_serial (next_serial (serial (soa zone))) (soa zone) in
      do! _ <- update_zone_row id (zr_set_soa (json_text s) (to_rfc3339 now));
      mret (Some (serial s))
  end.

(** ** Records *)

(** [ORDER BY name ASC, record_type ASC]. *)
Definition record_order (a b : RecordRecord) : bool :=
  str_lt (rec_r_name a) (rec_r_name b)
  || (String.eqb (rec_r_name a) (rec_r_name b) && str_le (rec_r_type a) (rec_r_type b)).

Definition list_records (now : Z) (zone_id : string) : Db (list DRecord) :=
  do! recs <- read_from record_t (select (fun r => String.eqb (rec_r_zone r) zone_id) record_order None);
  mret (map (RecordRecord_into_model now) recs).

Definition is_cname (t : RecordType) : bool := RecordType_eqb t Cname.

Definition check_cname_coexistence (now : Z) (zone_id name : string) (rt : RecordType)
    (exclude_id : option string) : Db unit :=
  let target := normalize_name name in
  do! recs <- list_records now zone_id;
  let siblings := List.filter (fun r => negb (bool_decide (exclude_id = Some (rec_id r))))
                    (List.filter (fun r => String.eqb (normalize_name (rec_name r)) target) recs) in
  let conflict := existsb (fun r => is_cname rt || is_cname (record_type r)) siblings
                  && negb (bool_decide (siblings = [])) in
  if conflict then mfail (Constraint CNAME_CONFLICT) else mret ().

(** The row [create_record] inserts. *)
Definition RecordRecord_new (t : string) (r : DRecord) : RecordRecord :=
  mkRecordRecord (rec_zone r) (normalize_name (rec_name r)) (rec_ttl r) (RecordType_as_str (record_type r))
    (json_text (rec_data r)) (rec_enabled r) t t (rec_created_by r).

Definition create_record (now : Z) (r : DRecord) : Db DRecord :=
  do! _ <- check_cname_coexistence now (rec_zone r) (rec_name r) (record_type r) None;
  do! created <- on_records (create (RecordRecord_new (to_rfc3339 now) r));
  match created with
  | Some kr => mret (RecordRecord_into_model now kr)
  | None => mfail (Constraint "record creation returned nothing")
  end.

(** The columns [update_record] sets: not the zone. *)
Definition rec_r_update (t : string) (r : DRecord) (old : RecordRecord) : RecordRecord :=
  mkRecordRecord (rec_r_zone old) (normalize_name (rec_name r)) (rec_ttl r) (RecordType_as_str (record_type r))
    (json_text (rec_data r)) (rec_enabled r) (rec_r_created_at old) t (rec_r_created_by old).

Definition update_record (now : Z) (r : DRecord) : Db (option DRecord) :=
  do! _ <- check_cname_coexistence now (rec_zone r) (rec_name r) (record_type r) (Some (rec_id r));
  do! updated <- on_records (update_where (fun k _ => String.eqb k (rec_id r)) (rec_r_update (to_rfc3339 now) r));
  mret (RecordRecord_into_model now <$> head updated).

Definition delete_record (id : string) : Db unit := on_records (delete_key id).

Definition get_record (now : Z) (id : string) : Db (option DRecord) :=
  do! rec <- read_from record_t (select_key id);
  mret ((fun r => RecordRecord_into_model now (id, r)) <$> rec).

Definition get_record_zone (id : string) : Db (option string) :=
  do! rec <- read_from record_t (select_key id);
  mret (rec_r_zone <$> rec).

Definition count_records_in_zone (now : Z) (zone_id : string) : Db nat :=
  do! recs <- list_records now zone_id; mret (length recs).

Definition delete_zone_cascade (now : Z) (zone_id : string) : Db nat :=
  do! count <- count_records_in_zone now zone_id;
  do! _ <- on_records (delete_where (fun r => String.eqb (rec_r_zone r) zone_id));
  do! _ <- on_journal (delete_where (fun r => String.eqb (jr_zone r) zone_id));
  do! _ <- on_zones (delete_key zone_id);
  mret count.

(** [if self.create_record(rec).await.is_err() { failed += 1 }], over a list. *)
Fixpoint create_all (now : Z) (recs : list DRecord) (failed : Z) : Db Z :=
  match recs with
  | [] => mret failed
  | r :: recs' => fun s =>
      match create_record now r s with
      | (Ok _, s') => create_all now recs' failed s'
      | (Err _, s') => create_all now recs' (failed + 1) s'
      end
  end.

Definition replace_zone_records (now : Z) (zone_id : string) (s : Soa) (recs : list DRecord) : Db unit :=
  do! _ <- update_zone_row zone_id (zr_set_soa (json_text s) (to_rfc3339 now));
  do! _ <- on_records (delete_where (fun r => String.eqb (rec_r_zone r) zone_id));
  do! failed <- create_all now recs 0;
  if 0 <? failed then mfail (Constraint (pretty (Z.to_N failed) +:+ " record(s) failed to apply during zone load")) else mret ().

(** The record of the zone that a removal names: by name, type and data. *)
Definition delta_match (rem e : DRecord) : bool :=
  String.eqb (normalize_name (rec_name e)) (normalize_name (rec_name rem))
  && RecordType_eqb (record_type e) (record_type rem) && bool_decide (rec_data e = rec_data rem).

Fixpoint delete_matches (existing removed : list DRecord) : Db unit :=
  match removed with
  | [] => mret ()
  | rem :: removed' =>
      do! _ <- match find (delta_match rem) existing with
               | Some m => on_records (delete_key (rec_id m))
               | None => mret ()
               end;
      delete_matches existing removed'
  end.

Definition with_zone (zone_id : string) (r : DRecord) : DRecord :=
  mkDnsRecord (rec_id r) (rec_created_at r) (rec_updated_at r) (rec_created_by r) zone_id (rec_name r)
    (rec_ttl r) (record_type r) (rec_data r) (rec_enabled r).

Definition apply_zone_delta (now : Z) (zone_id : string) (removed added : list DRecord) : Db unit :=
  do! existing <- list_records now zone_id;
  do! _ <- delete_matches existing removed;
  do! failed <- create_all now (map (with_zone zone_id) added) 0;
  if 0 <? failed then mfail (Constraint (pretty (Z.to_N failed) +:+ " record(s) failed to apply during IXFR delta")) else mret ().

(** ** The journal *)

Definition append_zone_journal (now : Z) (zone_id : string) (n : Z) (added removed : list DRecord) : Db unit :=
  let rec := mkJournalRecord zone_id n (unwrap_or "[]"%string (to_string added))
               (unwrap_or "[]"%string (to_string removed)) (to_rfc3339 now) in
  do! _ <- on_journal (create rec); mret ().

Definition zone_journal_since (zone_id : string) (from_serial : Z) : Db (list (Z * list DRecord * list DRecord)) :=
  do! recs <- read_from journal_t
    (select (fun r => String.eqb (jr_zone r) zone_id && (from_serial <? jr_serial r))
       (fun a b => jr_serial a <=? jr_serial b) None);
  mret (map (fun kr => (jr_serial kr.2, unwrap_or [] (of_string (jr_added kr.2)),
                        unwrap_or [] (of_string (jr_removed kr.2)))) recs).

Fixpoint delete_records (ids : list string) : Db unit :=
  match ids with
  | [] => mret ()
  | id :: ids' => do! _ <- delete_record id; delete_records ids'
  end.

Definition repoint_address_record (now : Z) (zone_apex fqdn : string) (ip : IpAddr)
    (ttl : Z) (actor : string) : Db (option Z) :=
  let apex := normalize_name zone_apex in
  let owner := normalize_name fqdn in
  do! zs <- list_zones now;
  match find (fun z => String.eqb (normalize_name (zone_name z)) apex) zs with
  | None => mret None
  | Some zone =>
      let (rtype, data) := match ip with
                           | V4 v4 => (A, json_obj "address" (from_str (ipv4_to_string v4)))
                           | V6 v6 => (Aaaa, json_obj "address" (from_str (ipv6_to_string v6)))
                           end in
      do! recs <- list_records now (zone_id zone);
      let removed := List.filter (fun r => RecordType_eqb (record_type r) rtype
                                           && String.eqb (normalize_name (rec_name r)) owner) recs in
      if match removed with
         | [r] => bool_decide (rec_data r = data) && (rec_ttl r =? ttl)
         | _ => false
         end then mret None
      else
        let new_record := mkDnsRecord EmptyString now now actor (zone_id zone) owner ttl rtype data true in
        do! _ <- delete_records (map rec_id removed);
        do! created <- create_record now new_record;
        do! bumped <- bump_zone_serial now (zone_id zone);
        let n := unwrap_or 0 bumped in
        do! _ <- append_zone_journal now (zone_id zone) n [created] removed;
        mret (Some n)
  end.

(** ** Policy rules *)

Definition list_rpz (now : Z) : Db (list RpzRule) :=
  do! recs <- read_from rpz_t (select (fun _ => true) (fun a b => str_le (pr_domain a) (pr_domain b)) None);
  mret (map (RpzRecord_into_model now) recs).

Definition create_rpz (now : Z) (rule : RpzRule) : Db RpzRule :=
  let t := to_rfc3339 now in
  let rec := mkRpzRecord (normalize_name (rpz_domain rule)) (RpzAction_as_str (rpz_act rule)) (redirect_to rule)
               (rpz_enabled rule) t t (rpz_created_by rule) in
  do! created <- on_rpz (create rec);
  match created with
  | Some kr => mret (RpzRecord_into_model now kr)
  | None => mfail (Constraint "rpz creation returned nothing")
  end.

Definition update_rpz (now : Z) (rule : RpzRule) : Db (option RpzRule) :=
  do! updated <- on_rpz (update_where (fun k _ => String.eqb k (rpz_id rule))
    (fun old => mkRpzRecord (normalize_name (rpz_domain rule)) (RpzAction_as_str (rpz_act rule))
       (redirect_to rule) (rpz_enabled rule) (pr_created_at old) (to_rfc3339 now) (pr_created_by old)));
  mret (RpzRecord_into_model now <$> head updated).

Definition delete_rpz (id : string) : Db unit := on_rpz (delete_key id).

Definition dns_metrics (now : Z) : Db (nat * nat) :=
  do! zs <- list_zones now;
  do! recs <- read_from record_t (select (fun _ => true) unordered None);
  mret (length zs, length recs).

(** ** GeoDNS rules *)

Definition list_geo_rules (now : Z) : Db (list (GeoRule V)) :=
  do! recs <- read_from geo_t (select (fun _ => true) (fun a b => str_le (gr_name a) (gr_name b)) None);
  mret (map (GeoRuleRecord_into_model now) recs).

Definition find_geo_rules (now : Z) (name : string) (rt : RecordType) : Db (list (GeoRule V)) :=
  do! recs <- read_from geo_t
    (select (fun r => String.eqb (gr_name r) (normalize_name name)
                      && String.eqb (gr_record_type r) (RecordType_as_str rt) && gr_enabled r) unordered None);
  mret (map (GeoRuleRecord_into_model now) recs).

Definition create_geo_rule (now : Z) (rule : GeoRule V) : Db (GeoRule V) :=
  let t := to_rfc3339 now in
  let rec := mkGeoRuleRecord (geo_zone rule) (normalize_name (geo_name rule))
               (RecordType_as_str (geo_record_type rule)) (geo_ttl rule)
               (unwrap_or "null"%string (to_string (default_data rule)))
               (unwrap_or "[]"%string (to_string (regions rule))) (geo_enabled rule) t t (geo_created_by rule) in
  do! created <- on_geo (create rec);
  match created with
  | Some kr => mret (GeoRuleRecord_into_model now kr)
  | None => mfail (Constraint "geo rule creation returned nothing")
  end.

Definition delete_geo_rule (id : string) : Db unit := on_geo (delete_key id).

Definition set_geo_rule_enabled (now : Z) (id : string) (enabled : bool) : Db unit :=
  do! _ <- on_geo (update_where (fun k _ => String.eqb k id)
    (fun r => mkGeoRuleRecord (gr_zone r) (gr_name r) (gr_record_type r) (gr_ttl r) (gr_default_data r)
       (gr_regions r) enabled (gr_created_at r) (to_rfc3339 now) (gr_created_by r)));
  mret ().

(** ** Keys *)

Definition list_tsig_keys (now : Z) : Db (list TsigKey) :=
  do! recs <- read_from tsig_t (select (fun _ => true) (fun a b => str_le (tr_name a) (tr_name b)) None);
  mret (map (TsigKeyRecord_into_model_redacted now) recs).

Definition create_tsig_key (now : Z) (name : string) (alg : TsigAlgorithm) (secret_b64 actor : string) : Db TsigKey :=
  let t := to_rfc3339 now in
  do! created <- on_tsig (create (mkTsigKeyRecord name (TsigAlgorithm_wire_name alg) secret_b64 t t actor));
  match created with
  | Some kr => mret (TsigKeyRecord_into_model_redacted now kr)
  | None => mfail (Constraint "tsig key creation returned nothing")
  end.

Definition delete_tsig_key (id : string) : Db unit := on_tsig (delete_key id).

Definition get_tsig_secret (name : string) : Db (option (TsigAlgorithm * string)) :=
  do! recs <- read_from tsig_t (select (fun r => String.eqb (tr_name r) name) unordered (Some 1%nat));
  mret ((fun kr => (TsigKeyRecord_algorithm kr.2, tr_secret kr.2)) <$> head recs).

Definition get_zone_dnssec_key (zone_name : string) : Db (option bytes) :=
  do! recs <- read_from dnssec_key_t
    (select (fun r => String.eqb (dk_zone_name r) (normalize_name zone_name)) unordered (Some 1%nat));
  mret (head recs ≫= fun kr => b64_decode (dk_key_der kr.2)).

Definition put_zone_dnssec_key (zone_name : string) (key_der : bytes) : Db unit :=
  let zone := normalize_name zone_name in
  do! _ <- on_dnssec (delete_where (fun r => String.eqb (dk_zone_name r) zone));
  do! _ <- on_dnssec (create (mkDnssecKeyRecord zone (b64_encode key_der)));
  mret ().

(** ** Forwarders *)

Definition get_dns_forwarders : Db (option (list string)) :=
  do! recs <- read_from settings_t (select (fun _ => true) unordered (Some 1%nat));
  mret ((fun kr => unwrap_or [] (of_string (ds_forwarders kr.2))) <$> head recs).

Definition save_dns_forwarders (forwarders : list string) : Db unit :=
  let json := unwrap_or "[]"%string (to_string forwarders) in
  do! recs <- read_from settings_t (select (fun _ => true) unordered (Some 1%nat));
  match recs with
  | [] => do! _ <- on_settings (create (mkDnsSettingsRecord json)); mret ()
  | _ :: _ => do! _ <- on_settings (update_where (fun _ _ => true) (fun _ => mkDnsSettingsRecord json)); mret ()
  end.

Definition ensure_dns_forwarders (seed : list string) : Db (list string) :=
  do! existing <- get_dns_forwarders;
  match existing with
  | Some e => mret e
  | None => do! _ <- save_dns_forwarders seed; mret seed
  end.

(** ** What the queries see *)

Lemma put_records_id s : put_records (record_t s) s = s.
Proof. by destruct s. Qed.

Lemma RecordType_from_as t : RecordType_from_str (RecordType_as_str t) = Some t.
Proof. by destruct t. Qed.

Definition row_type (r : RecordRecord) : RecordType := unwrap_or A (RecordType_from_str (rec_r_type r)).

Definition in_zone (z : string) (kr : string * RecordRecord) : bool := String.eqb (rec_r_zone kr.2) z.

(** The records of a zone. *)
Definition zone_rows (z : string) (s : store) : list (string * RecordRecord) :=
  List.filter (in_zone z) (rows (record_t s)).

Lemma record_order_laws :
  (forall x y, record_order x y = true \/ record_order y x = true) /\
  (forall x y z, record_order x y = true -> record_order y z = true -> record_order x z = true).
Proof.
  assert (forall x y, record_order x y = true <->
    str_lt (rec_r_name x) (rec_r_name y) = true \/
    (rec_r_name x = rec_r_name y /\ str_le (rec_r_type x) (rec_r_type y) = true)) as H.
  { intros x y. unfold record_order. by rewrite orb_true_iff, andb_true_iff, String.eqb_eq. }
  split.
  - intros x y. rewrite !H. destruct (str_lt (rec_r_name x) (rec_r_name y)) eqn:E1; [by left; left|].
    apply str_lt_not_le, str_le_lt in E1 as [E1|E1]; [by right; left|].
    destruct (str_le_total (rec_r_type x) (rec_r_type y)); [left|right]; right; by split.
  - intros x y z. rewrite !H. intros [H1|[E1 H1]] [H2|[E2 H2]].
    + left. by eapply str_lt_trans.
    + left. by rewrite <- E2.
    + left. by rewrite E1.
    + right. split; [congruence|]. by eapply str_le_trans.
Qed.

Lemma wp_list_records now z (Q : DbResult (list DRecord) -> store -> Prop) s :
  (forall l, l ≡ₚ map (RecordRecord_into_model now) (zone_rows z s) -> Q (Ok l) s) ->
  (forall e, Q (Err e) s) -> wp (list_records now z) Q s.
Proof.
  intros H1 H2. apply wp_bind. destruct record_order_laws as [Ht Htr]. apply wp_select; [done..| |done].
  intros l Hl _. apply wp_ret, H1. by rewrite Hl.
Qed.

Lemma wp_list_zones now (Q : DbResult (list Zone) -> store -> Prop) s :
  (forall l, l ≡ₚ map (ZoneRecord_into_model now) (rows (zone_t s)) -> Q (Ok l) s) ->
  (forall e, Q (Err e) s) -> wp (list_zones now) Q s.
Proof.
  intros H1 H2. apply wp_bind. destruct (str_le_order zr_name) as [Ht Htr]. apply wp_select; [done..| |done].
  intros l Hl _. apply wp_ret, H1. by rewrite Hl, filter_true.
Qed.

Lemma wp_get_zone now id (Q : DbResult (option Zone) -> store -> Prop) s :
  (forall r, In (id, r) (rows (zone_t s)) -> Q (Ok (Some (ZoneRecord_into_model now (id, r)))) s) ->
  ((forall r, ~ In (id, r) (rows (zone_t s))) -> Q (Ok None) s) ->
  (forall e, Q (Err e) s) -> wp (get_zone now id) Q s.
Proof. intros H1 H2 H3. apply wp_bind, wp_select_key; [intros r Hr; by apply wp_ret, H1|by intros ?; apply wp_ret, H2|done]. Qed.

(** A row that would clash with a record of the name and type, the row [ex] apart. *)
Definition clash (z name : string) (rt : RecordType) (ex : option string) (kr : string * RecordRecord) : Prop :=
  rec_r_zone kr.2 = z /\ normalize_name (rec_r_name kr.2) = normalize_name name /\ ex <> Some kr.1 /\
  (rt = Cname \/ row_type kr.2 = Cname).

Lemma wp_check_cname now z name rt ex (Q : DbResult unit -> store -> Prop) s :
  ((forall kr, In kr (rows (record_t s)) -> ~ clash z name rt ex kr) -> Q (Ok ()) s) ->
  (forall kr, In kr (rows (record_t s)) -> clash z name rt ex kr -> Q (Err (Constraint CNAME_CONFLICT)) s) ->
  (forall e, Q (Err e) s) ->
  wp (check_cname_coexistence now z name rt ex) Q s.
Proof.
  intros Hok Hbad Herr. apply wp_bind, wp_list_records; [|done]. intros l Hl. cbv zeta.
  set (sib := List.filter _ (List.filter _ l)).
  assert (forall m, In m sib <-> exists kr, In kr (rows (record_t s)) /\ m = RecordRecord_into_model now kr /\
    rec_r_zone kr.2 = z /\ normalize_name (rec_r_name kr.2) = normalize_name name /\ ex <> Some kr.1) as Hsib.
  { intros m. unfold sib. rewrite !filter_In, negb_true_iff, bool_decide_eq_false, String.eqb_eq.
    assert (In m l <-> In m (map (RecordRecord_into_model now) (zone_rows z s))) as -> by (split; apply perm_In; done).
    rewrite in_map_iff. unfold zone_rows, in_zone. setoid_rewrite filter_In. setoid_rewrite String.eqb_eq. split.
    - intros [[(kr & <- & Hin & Hz) Hn] Hex]. exists kr. by destruct kr.
    - intros (kr & Hin & -> & Hz & Hn & Hex). destruct kr. split_and!; [|done|done]. eexists. by split_and!. }
  destruct (existsb (fun r => is_cname rt || is_cname (record_type r)) sib) eqn:E; simpl.
  - apply existsb_exists in E as (m & Hm & Hc). assert (sib <> []) by (by destruct sib).
    rewrite bool_decide_eq_false_2 by done. apply Hsib in Hm as (kr & Hin & -> & Hz & Hn & Hex).
    apply wp_fail, (Hbad kr Hin). destruct kr. split_and!; [done..|].
    unfold is_cname in Hc. by rewrite orb_true_iff, !RecordType_eqb_eq in Hc.
  - apply wp_ret, Hok. intros kr Hin (Hz & Hn & Hex & Hc).
    assert (existsb (fun r => is_cname rt || is_cname (record_type r)) sib = true); [|congruence].
    apply existsb_exists. exists (RecordRecord_into_model now kr). split; [apply Hsib; by exists kr|].
    unfold is_cname. rewrite orb_true_iff, !RecordType_eqb_eq. by destruct kr.
Qed.

Lemma wp_create_record now r (Q : DbResult DRecord -> store -> Prop) s :
  let new := RecordRecord_new (to_rfc3339 now) r in
  (forall k t, k ∉ (rows (record_t s)).*1 -> rows t ≡ₚ (k, new) :: rows (record_t s) ->
     (forall kr, In kr (rows (record_t s)) -> ~ clash (rec_zone r) (rec_name r) (record_type r) None kr) ->
     Q (Ok (RecordRecord_into_model now (k, new))) (put_records t s)) ->
  (forall e t, rows t ≡ₚ rows (record_t s) -> Q (Err e) (put_records t s)) ->
  wp (create_record now r) Q s.
Proof.
  intros new Hok Herr. assert (forall e, Q (Err e) s) as Herr'.
  { intros e. rewrite <- (put_records_id s). by apply Herr. }
  apply wp_bind, wp_check_cname; [|done|done].
  intros Hc. apply wp_bind, wp_create; [|intros; by apply wp_fail, Herr|done].
  intros k t Hk Ht. apply wp_ret. by apply Hok.
Qed.

(** ** Well-formed stores *)

(** A record that cannot share its name and zone. *)
Definition alone (r1 r2 : RecordRecord) : Prop :=
  rec_r_zone r1 = rec_r_zone r2 -> rec_r_name r1 = rec_r_name r2 -> row_type r1 <> Cname /\ row_type r2 <> Cname.

Definition cname_exclusive (t : TR) : Prop :=
  forall k1 r1 k2 r2, In (k1, r1) (rows t) -> In (k2, r2) (rows t) -> k1 <> k2 -> alone r1 r2.

Definition zone_wf (r : ZoneRecord) : Prop :=
  (exists s, of_string (zr_soa r) = Some s /\ is_u32 (serial s)) /\
  (forall t, zr_transfer_state r = Some t -> exists x : ZoneTransferState, of_string t = Some x).

Definition record_wf (r : RecordRecord) : Prop :=
  normalize_name (rec_r_name r) = rec_r_name r /\ (exists t, rec_r_type r = RecordType_as_str t) /\
  (exists v : V, of_string (rec_r_data r) = Some v).

Definition journal_wf (r : JournalRecord) : Prop :=
  is_u32 (jr_serial r) /\ exists added removed : list DRecord,
    of_string (jr_added r) = Some added /\ of_string (jr_removed r) = Some removed.

Definition rpz_wf (r : RpzRecord) : Prop := exists a, pr_action r = RpzAction_as_str a.

Definition geo_wf (r : GeoRuleRecord) : Prop :=
  (exists t, gr_record_type r = RecordType_as_str t) /\
  (exists v : V, of_string (gr_default_data r) = Some v) /\
  (exists l : list (GeoRegion V), of_string (gr_regions r) = Some l).

Definition zone_names (t : TZ) : list string := map (fun kr => zr_name kr.2) (rows t).

Definition store_ok (s : store) : Prop :=
  (rows_all zone_wf (zone_t s) /\ NoDup (zone_names (zone_t s))) /\
  (rows_all record_wf (record_t s) /\ cname_exclusive (record_t s)) /\
  rows_all journal_wf (journal_t s) /\ rows_all rpz_wf (rpz_t s) /\ rows_all geo_wf (geo_t s).

Definition store_empty (s : store) : Prop :=
  rows (zone_t s) = [] /\ rows (record_t s) = [] /\ rows (journal_t s) = [] /\ rows (rpz_t s) = [] /\
  rows (geo_t s) = [].

Lemma zone_names_perm (t t' : TZ) : rows t' ≡ₚ rows t -> NoDup (zone_names t) -> NoDup (zone_names t').
Proof. intros H. unfold zone_names. by rewrite H. Qed.

Lemma cname_exclusive_sub (t t' : TR) : (forall kr, In kr (rows t') -> In kr (rows t)) ->
  cname_exclusive t -> cname_exclusive t'.
Proof. intros H Hc k1 r1 k2 r2 H1%H H2%H. by apply Hc. Qed.

(** ** Calls that keep the store well formed *)

Definition keeps {B} (m : Db B) : Prop := forall s, store_ok s -> wp m (fun _ s' => store_ok s') s.

Lemma keeps_ret {B} (b : B) : keeps (mret b).
Proof. intros s Hs. by apply wp_ret. Qed.

Lemma keeps_fail {B} e : keeps (mfail e : Db B).
Proof. intros s Hs. by apply wp_fail. Qed.

Lemma keeps_bind {B C} (m : Db B) (k : B -> Db C) : keeps m -> (forall b, keeps (k b)) -> keeps (mbind_ m k).
Proof.
  intros Hm Hk s Hs. apply wp_bind. eapply wp_mono; [by apply Hm|]. intros [b|e] s' Hs'; [by apply Hk|done].
Qed.

Lemma keeps_read {T B} (get : store -> T) (q : T -> DbResult B) : keeps (read_from get q).
Proof. intros s Hs. done. Qed.

Lemma keeps_list_zones now : keeps (list_zones now).
Proof. apply keeps_bind; [apply keeps_read|]. intros. apply keeps_ret. Qed.

Lemma keeps_list_records now z : keeps (list_records now z).
Proof. apply keeps_bind; [apply keeps_read|]. intros. apply keeps_ret. Qed.

Lemma keeps_update_zone_row id f :
  (forall r, zone_wf r -> zone_wf (f r)) -> (forall r, zr_name (f r) = zr_name r) -> keeps (update_zone_row id f).
Proof.
  intros Hf Hn s ([Hz Hu] & Hr & Hj & Hp & Hg). apply wp_update_where; simpl.
  - intros l t Ht _. split; [|done]. split; [by apply (rows_all_update _ (zone_t s) t (fun k _ => String.eqb k id) f)|].
    unfold zone_names in *. simpl. rewrite Ht, map_map. erewrite map_ext; [exact Hu|].
    intros [k r]. simpl. by destruct (String.eqb k id); simpl.
  - intros e t Ht. split; [|done]. split; [eapply rows_all_perm; eassumption|eapply zone_names_perm; eassumption].
Qed.

Lemma keeps_delete_zone id : keeps (on_zones (delete_key id)).
Proof.
  intros s ([Hz Hu] & Hrest). apply wp_delete_key; simpl; intros; (split; [|done]).
  - split; [eapply rows_all_filter; eassumption|]. unfold zone_names in *. simpl. rewrite H. by apply NoDup_map_filter.
  - split; [eapply rows_all_perm; eassumption|eapply zone_names_perm; eassumption].
Qed.

Lemma records_filter (t t' : TR) f : rows t' ≡ₚ List.filter f (rows t) ->
  rows_all record_wf t /\ cname_exclusive t -> rows_all record_wf t' /\ cname_exclusive t'.
Proof.
  intros H [Hw Hc]. split; [eapply rows_all_filter; eassumption|]. eapply cname_exclusive_sub; [|exact Hc].
  by intros kr [? _]%(perm_In _ _ _ H)%filter_In.
Qed.

Lemma records_perm (t t' : TR) : rows t' ≡ₚ rows t ->
  rows_all record_wf t /\ cname_exclusive t -> rows_all record_wf t' /\ cname_exclusive t'.
Proof.
  intros H [Hw Hc]. split; [eapply rows_all_perm; eassumption|]. eapply cname_exclusive_sub; [|exact Hc].
  by intros kr ?%(perm_In _ _ _ H).
Qed.

Lemma keeps_delete_record_key id : keeps (on_records (delete_key id)).
Proof.
  intros s (Hz & Hr & Hrest). apply wp_delete_key; simpl; intros; split; try done; (split; [|done]);
    [eapply records_filter; eassumption|eapply records_perm; eassumption].
Qed.

Lemma keeps_delete_record_where p : keeps (on_records (delete_where p)).
Proof.
  intros s (Hz & Hr & Hrest). apply wp_delete_where; simpl; intros; split; try done; (split; [|done]);
    [eapply records_filter; eassumption|eapply records_perm; eassumption].
Qed.

(** A name that is in normal form once normalised. *)
Definition stable (name : string) : Prop := normalize_name (normalize_name name) = normalize_name name.

Lemma new_wf t r : stable (rec_name r) -> record_wf (RecordRecord_new t r).
Proof.
  intros Hs. split_and!; [exact Hs|by eexists|]. exists (rec_data r). apply of_json_text.
Qed.

Lemma row_type_new t r : row_type (RecordRecord_new t r) = record_type r.
Proof. unfold row_type. simpl. by rewrite RecordType_from_as. Qed.

Lemma row_type_update t r old : row_type (rec_r_update t r old) = record_type r.
Proof. unfold row_type. simpl. by rewrite RecordType_from_as. Qed.

Lemma not_clash z name rt ex k r : ~ clash z name rt ex (k, r) -> ex <> Some k -> rec_r_zone r = z ->
  normalize_name (rec_r_name r) = normalize_name name -> rt <> Cname /\ row_type r <> Cname.
Proof. unfold clash. simpl. intros H ? ? ?. split; intros ?; apply H; tauto. Qed.

Lemma keeps_create_record now r : stable (rec_name r) -> keeps (create_record now r).
Proof.
  intros Hst s (Hz & [Hw Hc] & Hrest). apply wp_create_record; simpl.
  - intros k t Hk Ht Hno. split; [done|]. split; [|done]. simpl.
    split; [eapply rows_all_cons; [exact Ht|by apply new_wf|exact Hw]|].
    assert (forall k2 r2, In (k2, r2) (rows (record_t s)) -> alone (RecordRecord_new (to_rfc3339 now) r) r2) as Hnew.
    { intros k2 r2 H2 Ez En. rewrite row_type_new. simpl in *.
      apply (not_clash _ _ _ None k2 r2 (Hno _ H2)); [done|done|]. rewrite (proj1 (Hw _ _ H2)). done. }
    intros k1 r1 k2 r2 H1%(perm_In _ _ _ Ht) H2%(perm_In _ _ _ Ht) Hne.
    destruct H1 as [[= <- <-]|H1], H2 as [[= <- <-]|H2]; [done|by eapply Hnew| |by eapply Hc].
    intros Ez En. apply and_comm. by eapply (Hnew k1 r1).
  - intros e t Ht. split; [done|]. split; [|done]. by apply (records_perm (record_t s)).
Qed.

(** The row is in the zone that the caller names. *)
Definition same_zone (r : DRecord) (s : store) : Prop :=
  forall row, In (rec_id r, row) (rows (record_t s)) -> rec_r_zone row = rec_zone r.

Lemma update_record_ok now r s : stable (rec_name r) -> same_zone r s -> store_ok s ->
  wp (update_record now r) (fun _ s' => store_ok s') s.
Proof.
  intros Hst Hsz (Hz & [Hw Hc] & Hrest). apply wp_bind, wp_check_cname; [|done|done]. intros Hno.
  set (upd := fun kr : string * RecordRecord =>
    if String.eqb kr.1 (rec_id r) then (kr.1, rec_r_update (to_rfc3339 now) r kr.2) else kr).
  apply wp_bind, wp_update_where.
  - intros l t Ht _. apply wp_ret. split; [done|]. split; [|done]. simpl.
    assert (forall k row, In (k, row) (rows t) -> exists old, In (k, old) (rows (record_t s)) /\
      (k, row) = upd (k, old)) as Hin.
    { intros k row ([k0 old] & E & Hin)%(perm_In _ _ _ Ht)%in_map_iff. exists old.
      assert (k0 = k) as -> by (simpl in E; destruct (String.eqb k0 (rec_id r)); congruence). by split. }
    split.
    + intros k row (old & Hold & E)%Hin. unfold upd in E. simpl in E.
      destruct (String.eqb k (rec_id r)); injection E as ->; [|by eapply Hw].
      split_and!; [exact Hst|by eexists|]. exists (rec_data r). apply of_json_text.
    + assert (forall k2 r2 old, In (rec_id r, old) (rows (record_t s)) -> In (k2, r2) (rows (record_t s)) ->
        rec_id r <> k2 -> alone (rec_r_update (to_rfc3339 now) r old) r2) as Hnew.
      { intros k2 r2 old Ho H2 Hne Ez En. rewrite row_type_update. simpl in *.
        apply (not_clash _ _ _ (Some (rec_id r)) k2 r2 (Hno _ H2)); [congruence| |].
        - rewrite <- Ez. by apply Hsz.
        - rewrite (proj1 (Hw _ _ H2)). done. }
      intros k1 r1 k2 r2 (o1 & H1 & E1)%Hin (o2 & H2 & E2)%Hin Hne. unfold upd in E1, E2. simpl in E1, E2.
      destruct (String.eqb_spec k1 (rec_id r)) as [->|N1], (String.eqb_spec k2 (rec_id r)) as [->|N2]; [done|..];
        injection E1 as ->; injection E2 as ->.
      * by eapply Hnew.
      * intros Ez En. apply and_comm. by eapply (Hnew k1 o1 o2).
      * by eapply Hc.
  - intros e t Ht. split; [done|]. split; [|done]. by apply (records_perm (record_t s)).
Qed.

(** ** The repository as a state machine *)

(** The writes of the repository. *)
Inductive call :=
| CCreateZone (name : string) (s : Soa) (enabled : bool) (actor : string)
| CUpdateZone (id : string) (s : Soa) (enabled : bool)
| CSetDnssec (id : string) (enabled : bool)
| CSetNsec3 (id : string) (enabled : bool)
| CReplication (id : string) (rl : ZoneRole) (at_ an : list string) (ne : bool) (pr : list string) (tk : option string)
| CTransferState (id : string) (state : ZoneTransferState)
| CSetSoa (id : string) (s : Soa)
| CBump (id : string)
| CReplace (id : string) (s : Soa) (recs : list DRecord)
| CDelta (id : string) (removed added : list DRecord)
| CRepoint (apex fqdn : string) (ip : IpAddr) (ttl : Z) (actor : string)
| CCreateRecord (r : DRecord)
| CUpdateRecord (r : DRecord)
| CDeleteRecord (id : string)
| CDeleteZone (id : string)
| CJournal (id : string) (n : Z) (added removed : list DRecord)
| CCreateRpz (rule : RpzRule)
| CUpdateRpz (rule : RpzRule)
| CDeleteRpz (id : string)
| CCreateGeo (rule : GeoRule V)
| CDeleteGeo (id : string)
| CGeoEnabled (id : string) (enabled : bool)
| CCreateTsig (name : string) (alg : TsigAlgorithm) (secret actor : string)
| CDeleteTsig (id : string)
| CPutDnssec (name : string) (key : bytes)
| CForwarders (l : list string)
| CEnsureForwarders (l : list string).

Definition void {B} (m : Db B) : Db unit := do! _ <- m; mret ().

Definition run (now : Z) (c : call) : Db unit :=
  match c with
  | CCreateZone name s enabled actor => void (create_zone now name s enabled actor)
  | CUpdateZone id s enabled => void (update_zone now id s enabled)
  | CSetDnssec id enabled => set_zone_dnssec_enabled now id enabled
  | CSetNsec3 id enabled => set_zone_nsec3_enabled now id enabled
  | CReplication id rl at_ an ne pr tk => update_zone_replication now id rl at_ an ne pr tk
  | CTransferState id state => set_zone_transfer_state id state
  | CSetSoa id s => set_zone_soa now id s
  | CBump id => void (bump_zone_serial now id)
  | CReplace id s recs => replace_zone_records now id s recs
  | CDelta id removed added => apply_zone_delta now id removed added
  | CRepoint apex fqdn ip ttl actor => void (repoint_address_record now apex fqdn ip ttl actor)
  | CCreateRecord r => void (create_record now r)
  | CUpdateRecord r => void (update_record now r)
  | CDeleteRecord id => delete_record id
  | CDeleteZone id => void (delete_zone_cascade now id)
  | CJournal id n added removed => append_zone_journal now id n added removed
  | CCreateRpz rule => void (create_rpz now rule)
  | CUpdateRpz rule => void (update_rpz now rule)
  | CDeleteRpz id => delete_rpz id
  | CCreateGeo rule => void (create_geo_rule now rule)
  | CDeleteGeo id => delete_geo_rule id
  | CGeoEnabled id enabled => set_geo_rule_enabled now id enabled
  | CCreateTsig name alg secret actor => void (create_tsig_key now name alg secret actor)
  | CDeleteTsig id => delete_tsig_key id
  | CPutDnssec name key => put_zone_dnssec_key name key
  | CForwarders l => save_dns_forwarders l
  | CEnsureForwarders l => void (ensure_dns_forwarders l)
  end.

(** The serials are [u32], the names normalise to a normal form, and an update
    names the zone its record is in. *)
Definition admissible (c : call) (s : store) : Prop :=
  match c with
  | CCreateZone _ so _ _ | CUpdateZone _ so _ | CSetSoa _ so => is_u32 (serial so)
  | CReplace _ so recs => is_u32 (serial so) /\ Forall (fun r => stable (rec_name r)) recs
  | CDelta _ _ added => Forall (fun r => stable (rec_name r)) added
  | CRepoint _ fqdn _ _ _ => stable fqdn
  | CCreateRecord r => stable (rec_name r)
  | CUpdateRecord r => stable (rec_name r) /\ same_zone r s
  | CJournal _ n _ _ => is_u32 n
  | _ => True
  end.

(** One call, whether it succeeds or fails. *)
Inductive db_step (s s' : store) : Prop :=
| db_call now c r : admissible c s -> run now c s = (r, s') -> db_step s s'.

Lemma next_serial_u32 n : is_u32 (next_serial n).
Proof. unfold next_serial, is_u32. pose proof (Z.mod_pos_bound (n + 1) (2 ^ 32)). lia. Qed.

Lemma zone_wf_soa so t r : is_u32 (serial so) -> zone_wf r -> zone_wf (zr_set_soa (json_text so) t r).
Proof. intros H [_ Hx]. split; [|exact Hx]. exists so. split; [apply of_json_text|done]. Qed.

Lemma keeps_set_soa id so t : is_u32 (serial so) -> keeps (update_zone_row id (zr_set_soa (json_text so) t)).
Proof. intros H. apply keeps_update_zone_row; [intros r; by apply zone_wf_soa|done]. Qed.

Lemma keeps_void {B} (m : Db B) : keeps m -> keeps (void m).
Proof. intros H. apply keeps_bind; [done|]. intros. apply keeps_ret. Qed.

Lemma keeps_create_zone now name so en actor : is_u32 (serial so) -> keeps (create_zone now name so en actor).
Proof.
  intros Hu s Hs. apply wp_bind, wp_bind, wp_select_one; [by intros|..|done].
  intros Hnone. apply wp_ret. simpl. destruct Hs as ([Hz Hn] & Hrest). apply wp_bind, wp_create.
  - intros k t Hk Ht. apply wp_ret. split; [|done]. split.
    + eapply rows_all_cons; [exact Ht| |exact Hz]. split; [|done]. exists so. split; [apply of_json_text|done].
    + unfold zone_names in *. simpl. rewrite Ht. simpl. constructor; [|done].
      intros ([k' r] & E & Hin)%list_elem_of_In%in_map_iff. apply Hnone in Hin. simpl in *.
      by rewrite E, String.eqb_refl in Hin.
  - intros t Ht. apply wp_fail. split; [|done].
    split; [eapply rows_all_perm; eassumption|eapply zone_names_perm; eassumption].
  - intros e t Ht. split; [|done].
    split; [eapply rows_all_perm; eassumption|eapply zone_names_perm; eassumption].
Qed.

Lemma keeps_create_all now recs : Forall (fun r => stable (rec_name r)) recs -> forall n, keeps (create_all now recs n).
Proof.
  induction 1 as [|r recs Hr Hrs IH]; intros n; [apply keeps_ret|]. intros s Hs. unfold wp. simpl.
  pose proof (keeps_create_record now r Hr s Hs) as H. unfold wp in H.
  destruct (create_record now r s) as [[?|?] s']; by apply IH.
Qed.

Lemma keeps_delete_matches existing removed : keeps (delete_matches existing removed).
Proof.
  induction removed as [|rem removed IH]; [apply keeps_ret|]. apply keeps_bind; [|done].
  destruct (find _ existing); [apply keeps_delete_record_key|apply keeps_ret].
Qed.

Lemma keeps_delete_records ids : keeps (delete_records ids).
Proof. induction ids; [apply keeps_ret|]. apply keeps_bind; [apply keeps_delete_record_key|done]. Qed.

Lemma keeps_bump now id : keeps (bump_zone_serial now id).
Proof.
  apply keeps_bind; [apply keeps_bind; [apply keeps_read|intros; apply keeps_ret]|].
  intros [z|]; [|apply keeps_ret]. apply keeps_bind; [|intros; apply keeps_ret]. apply keeps_set_soa, next_serial_u32.
Qed.

Lemma keeps_journal now id n added removed : is_u32 n -> keeps (append_zone_journal now id n added removed).
Proof.
  intros Hn. apply keeps_bind; [|intros; apply keeps_ret].
  intros s (Hz & Hr & Hj & Hrest). eapply wp_create_all; [exact Hj| |intros o t Ht; unfold store_ok; simpl; tauto].
  split; [done|]. exists added, removed. simpl. by rewrite !text_or_else, !of_json_text.
Qed.

Lemma keeps_delete_journal p : keeps (on_journal (delete_where p)).
Proof.
  intros s (Hz & Hr & Hj & Hrest). eapply wp_delete_where_all; [exact Hj|]. intros o t Ht; unfold store_ok; simpl; tauto.
Qed.

Lemma stable_normalize n : stable n -> stable (normalize_name n).
Proof. unfold stable. intros H. by rewrite !H. Qed.

Lemma keeps_repoint now apex fqdn ip ttl actor : stable fqdn -> keeps (repoint_address_record now apex fqdn ip ttl actor).
Proof.
  intros Hst. apply keeps_bind; [apply keeps_list_zones|]. intros zs. destruct (find _ zs) as [z|]; [|apply keeps_ret].
  destruct (match ip with V4 _ => _ | V6 _ => _ end) as [rtype data].
  apply keeps_bind; [apply keeps_list_records|]. intros recs. cbv zeta.
  destruct (match List.filter _ _ with [r] => _ | _ => _ end); [apply keeps_ret|].
  apply keeps_bind; [apply keeps_delete_records|]. intros _.
  apply keeps_bind; [apply keeps_create_record; by apply stable_normalize|]. intros created.
  intros s Hs. apply wp_bind. eapply wp_mono.
  { apply (wp_intro _ (fun r s' => store_ok s' /\ forall o, r = Ok o -> is_u32 (unwrap_or 0 o))). intros r s' E. split.
    - exact (wp_run _ _ _ _ _ E (keeps_bump now (zone_id z) s Hs)).
    - intros o ->. unfold bump_zone_serial in E.
      apply mbind_inv in E as [(e & _ & [=])|([z'|] & s1 & _ & E)]; [|by injection E as <- _].
      apply mbind_inv in E as [(e & _ & [=])|(? & s2 & _ & [= <- _])]. apply next_serial_u32. }
  intros [o|e] s' [Hs' Ho]; [|done].
  apply (keeps_bind _ _ (keeps_journal now _ _ _ _ (Ho o eq_refl)) (fun _ => keeps_ret _) s' Hs').
Qed.

Lemma keeps_rpz_create now rule : keeps (create_rpz now rule).
Proof.
  apply keeps_bind; [|intros [?|]; [apply keeps_ret|apply keeps_fail]].
  intros s (Hz & Hr & Hj & Hp & Hg). eapply wp_create_all; [exact Hp|by eexists|]. intros o t Ht; unfold store_ok; simpl; tauto.
Qed.

Lemma keeps_rpz_update now rule : keeps (update_rpz now rule).
Proof.
  apply keeps_bind; [|intros; apply keeps_ret].
  intros s (Hz & Hr & Hj & Hp & Hg). eapply wp_update_all; [exact Hp|by eexists|]. intros o t Ht; unfold store_ok; simpl; tauto.
Qed.

Lemma keeps_rpz_delete id : keeps (delete_rpz id).
Proof.
  intros s (Hz & Hr & Hj & Hp & Hg). eapply wp_delete_key_all; [exact Hp|]. intros o t Ht; unfold store_ok; simpl; tauto.
Qed.

Lemma keeps_geo_create now rule : keeps (create_geo_rule now rule).
Proof.
  apply keeps_bind; [|intros [?|]; [apply keeps_ret|apply keeps_fail]].
  intros s (Hz & Hr & Hj & Hp & Hg). eapply wp_create_all; [exact Hg| |intros o t Ht; unfold store_ok; simpl; tauto].
  unfold geo_wf. simpl. rewrite !text_or_else.
  split_and!; [by eexists|exists (default_data rule)|exists (regions rule)]; apply of_json_text.
Qed.

Lemma keeps_geo_delete id : keeps (delete_geo_rule id).
Proof.
  intros s (Hz & Hr & Hj & Hp & Hg). eapply wp_delete_key_all; [exact Hg|]. intros o t Ht; unfold store_ok; simpl; tauto.
Qed.

Lemma keeps_geo_enabled now id en : keeps (set_geo_rule_enabled now id en).
Proof.
  apply keeps_bind; [|intros; apply keeps_ret].
  intros s (Hz & Hr & Hj & Hp & Hg). eapply wp_update_all; [exact Hg|by intros r ?|]. intros o t Ht; unfold store_ok; simpl; tauto.
Qed.

(** The tables of the keys and of the settings are not part of the invariant. *)
Lemma keeps_other {T B} (get : store -> T) (put : T -> store -> store) (q : T -> DbResult B * T) :
  (forall t s, zone_t (put t s) = zone_t s /\ record_t (put t s) = record_t s /\ journal_t (put t s) = journal_t s /\
     rpz_t (put t s) = rpz_t s /\ geo_t (put t s) = geo_t s) ->
  keeps (on_table get put q).
Proof.
  intros H s Hs. unfold wp, on_table. destruct (q (get s)) as [r t]. simpl.
  destruct (H t s) as (E1 & E2 & E3 & E4 & E5). unfold store_ok in *. by rewrite E1, E2, E3, E4, E5.
Qed.

Lemma keeps_forwarders l : keeps (save_dns_forwarders l).
Proof.
  apply keeps_bind; [apply keeps_read|]. intros [|? ?]; (apply keeps_bind; [by apply keeps_other|intros; apply keeps_ret]).
Qed.

Lemma keeps_set_transfer_state id state : keeps (set_zone_transfer_state id state).
Proof.
  apply keeps_bind; [|intros; apply keeps_ret]. apply keeps_update_zone_row; [|done].
  intros r [H _]. split; [exact H|]. intros t [= <-]. exists state. apply of_json_text.
Qed.

Lemma keeps_update_zone now id so en : is_u32 (serial so) -> keeps (update_zone now id so en).
Proof.
  intros H. apply keeps_bind; [|intros; apply keeps_ret]. apply keeps_update_zone_row; [|done].
  intros r Hr. by apply (zone_wf_soa so (to_rfc3339 now)) in Hr.
Qed.

Lemma keeps_zone_flags id f : (forall r, zr_soa (f r) = zr_soa r) -> (forall r, zr_transfer_state (f r) = zr_transfer_state r) ->
  (forall r, zr_name (f r) = zr_name r) -> keeps (void (update_zone_row id f)).
Proof.
  intros H1 H2 H3. apply keeps_void, keeps_update_zone_row; [|done]. intros r. unfold zone_wf. by rewrite H1, H2.
Qed.

#[local] Hint Resolve keeps_ret keeps_fail keeps_read keeps_void keeps_list_zones keeps_list_records keeps_delete_zone
  keeps_delete_record_key keeps_delete_record_where keeps_create_record keeps_set_soa keeps_create_zone
  keeps_create_all keeps_delete_matches keeps_delete_records keeps_bump keeps_journal keeps_delete_journal
  keeps_repoint keeps_rpz_create keeps_rpz_update keeps_rpz_delete keeps_geo_create keeps_geo_delete
  keeps_geo_enabled keeps_forwarders keeps_set_transfer_state keeps_update_zone : keeps.
#[local] Hint Extern 2 (keeps (on_table _ _ _)) => apply keeps_other; done : keeps.

Ltac keeps_tac :=
  repeat first
    [ solve [eauto with keeps]
    | apply keeps_bind; [|intros]
    | match goal with |- keeps (match ?x with _ => _ end) => destruct x end ].

(** Every admissible call but an update of a record keeps any well-formed store well formed. *)
Lemma run_keeps now c s : admissible c s -> match c with CUpdateRecord _ => True | _ => keeps (run now c) end.
Proof.
  destruct c; simpl; intros Ha; try done; try (by apply keeps_zone_flags).
  all: try match type of Ha with _ /\ Forall _ _ => destruct Ha as [Hu Hst] end.
  all: unfold replace_zone_records, apply_zone_delta, delete_zone_cascade, count_records_in_zone, set_zone_soa, void,
         create_tsig_key, delete_tsig_key, put_zone_dnssec_key, delete_record, ensure_dns_forwarders, get_dns_forwarders, on_tsig, on_dnssec.
  all: keeps_tac.
  apply keeps_create_all. by apply Forall_map.
Qed.

Lemma dns_step_ok s s' : db_step s s' -> store_ok s -> store_ok s'.
Proof.
  intros [now c r Ha E] Hs. eapply (wp_run (run now c) (fun _ s' => store_ok s')); [exact E|].
  pose proof (run_keeps now c s Ha) as Hk. destruct c; try by apply Hk.
  destruct Ha. apply wp_bind. eapply wp_mono; [by apply update_record_ok|]. by intros [?|?] ?.
Qed.

Lemma store_empty_ok s : store_empty s -> store_ok s.
Proof.
  intros (E1 & E2 & E3 & E4 & E5). unfold store_ok, rows_all, cname_exclusive, zone_names.
  rewrite E1, E2, E3, E4, E5. split_and!; try done. constructor.
Qed.

Lemma dns_reachable_ok s0 s : store_empty s0 -> rtc db_step s0 s -> store_ok s.
Proof. intros H0%store_empty_ok. induction 1; [done|]. eauto using dns_step_ok. Qed.

(** ** Properties of the reachable stores *)

Lemma list_records_run now z s l s' : list_records now z s = (Ok l, s') ->
  s' = s /\ l ≡ₚ map (RecordRecord_into_model now) (zone_rows z s).
Proof.
  intros E. apply (wp_run_ok _ (fun l s' => s' = s /\ l ≡ₚ map (RecordRecord_into_model now) (zone_rows z s)) _ _ _ E).
  by apply wp_list_records.
Qed.


(** Zone names.  After any sequence of repository calls on an empty store no two
    zones have the same name. *)
Theorem zone_names_unique s0 s now l s' :
  store_empty s0 -> rtc db_step s0 s -> list_zones now s = (Ok l, s') -> NoDup (map zone_name l).
Proof.
  intros H0 Hr E. destruct (dns_reachable_ok s0 s H0 Hr) as ([_ Hn] & _).
  apply (wp_run_ok _ (fun l _ => NoDup (map zone_name l)) _ _ _ E).
  apply wp_list_zones; [|done]. intros l0 Hl. simpl. rewrite Hl, map_map.
  erewrite map_ext; [exact Hn|]. by intros [k r].
Qed.

(** Types of the columns.  Every reachable row reads back without a fallback:
    the type, payload, action, SOA, transfer state, regions and deltas that were
    written as text are the ones that are read, names are in normal form, and
    serials fit [u32]. *)
Theorem rows_read_back s0 s now :
  store_empty s0 -> rtc db_step s0 s ->
  (forall k r, In (k, r) (rows (zone_t s)) ->
     of_string (zr_soa r) = Some (soa (ZoneRecord_into_model now (k, r))) /\
     is_u32 (serial (soa (ZoneRecord_into_model now (k, r)))) /\
     (transfer_state (ZoneRecord_into_model now (k, r)) = None -> zr_transfer_state r = None)) /\
  (forall k r, In (k, r) (rows (record_t s)) ->
     let m := RecordRecord_into_model now (k, r) in
     rec_r_type r = RecordType_as_str (record_type m) /\ of_string (rec_r_data r) = Some (rec_data m) /\
     normalize_name (rec_name m) = rec_name m) /\
  (forall k r, In (k, r) (rows (journal_t s)) -> is_u32 (jr_serial r) /\
     is_Some (of_string (A := list DRecord) (jr_added r)) /\ is_Some (of_string (A := list DRecord) (jr_removed r))) /\
  (forall k r, In (k, r) (rows (rpz_t s)) -> pr_action r = RpzAction_as_str (rpz_act (RpzRecord_into_model now (k, r)))) /\
  (forall k r, In (k, r) (rows (geo_t s)) ->
     let m := GeoRuleRecord_into_model now (k, r) in
     gr_record_type r = RecordType_as_str (geo_record_type m) /\ of_string (gr_default_data r) = Some (default_data m) /\
     of_string (gr_regions r) = Some (regions m)).
Proof.
  intros H0 Hr. destruct (dns_reachable_ok s0 s H0 Hr) as ([Hz _] & [Hw _] & Hj & Hp & Hg). split_and!.
  - intros k r ((so & E & Hu) & Ht)%Hz. simpl. rewrite E. simpl. split_and!; [done..|].
    destruct (zr_transfer_state r) as [t|]; [|done]. simpl. by destruct (Ht t eq_refl) as [x ->].
  - intros k r (Hn & (t & Et) & (v & Ev))%Hw. simpl. by rewrite Et, Ev, RecordType_from_as.
  - intros k r (Hu & a & b & Ea & Eb)%Hj. split_and!; [done|by exists a|by exists b].
  - intros k r [a Ea]%Hp. simpl. rewrite Ea. by destruct a.
  - intros k r ((t & Et) & (v & Ev) & (l & El))%Hg. simpl. by rewrite Et, Ev, El, RecordType_from_as.
Qed.

(** Deleting a zone.  A deletion that succeeds leaves no record, no journal entry
    and no zone under the identifier, touches nothing else, and reports the number
    of records it removed. *)
Theorem delete_zone_cascade_complete now z s n s' :
  delete_zone_cascade now z s = (Ok n, s') ->
  n = length (zone_rows z s) /\
  rows (record_t s') ≡ₚ List.filter (fun kr => negb (String.eqb (rec_r_zone kr.2) z)) (rows (record_t s)) /\
  rows (journal_t s') ≡ₚ List.filter (fun kr => negb (String.eqb (jr_zone kr.2) z)) (rows (journal_t s)) /\
  rows (zone_t s') ≡ₚ List.filter (fun kr => negb (String.eqb kr.1 z)) (rows (zone_t s)) /\
  rpz_t s' = rpz_t s /\ geo_t s' = geo_t s /\ tsig_t s' = tsig_t s /\ settings_t s' = settings_t s.
Proof.
  intros E. pattern n, s'. apply (wp_run_ok _ _ _ _ _ E). clear E.
  apply wp_bind, wp_bind, wp_list_records; [|done]. intros l Hl. apply wp_ret.
  apply wp_bind, wp_delete_where; [|done]. intros t1 H1.
  apply wp_bind, wp_delete_where; [|done]. intros t2 H2.
  apply wp_bind, wp_delete_key; [|done]. intros t3 H3.
  apply wp_ret. simpl in *. split_and!; try done. by rewrite Hl, length_map.
Qed.

(** ** Loading a zone *)

(** What a record says, its identity apart. *)
Definition content : Type := string * Z * string * string * bool.
Definition row_content (r : RecordRecord) : content :=
  (rec_r_name r, rec_r_ttl r, rec_r_type r, rec_r_data r, rec_r_enabled r).
Definition record_content (r : DRecord) : content :=
  (normalize_name (rec_name r), rec_ttl r, RecordType_as_str (record_type r), json_text (rec_data r), rec_enabled r).
Definition zone_content (z : string) (s : store) : list content := map (fun kr => row_content kr.2) (zone_rows z s).
Definition elsewhere (z : string) (s : store) : list (string * RecordRecord) :=
  List.filter (fun kr => negb (in_zone z kr)) (rows (record_t s)).

(** The rows a sequence of creations adds: all of them when none fails. *)
Lemma create_all_rows now z recs : Forall (fun r => rec_zone r = z) recs -> forall n s, exists m t added,
  create_all now recs n s = (Ok m, put_records t s) /\ n <= m /\ rows t ≡ₚ added ++ rows (record_t s) /\
  Forall (fun kr => rec_r_zone kr.2 = z) added /\
  (m = n -> map (fun kr => row_content kr.2) added ≡ₚ map record_content recs).
Proof.
  induction 1 as [|r recs Hz Hzs IH]; intros n s.
  { exists n, (record_t s), []. split_and!; try done. by destruct s. }
  simpl. assert (wp (create_record now r) (fun o s' => exists t added, s' = put_records t s /\
     rows t ≡ₚ added ++ rows (record_t s) /\
     match o with Ok _ => exists k, added = [(k, RecordRecord_new (to_rfc3339 now) r)] | Err _ => added = [] end) s) as H.
  { apply wp_create_record; [|intros e t Ht; by exists t, []]. intros k t Hk Ht _. eexists t, [_]. split_and!; [done..|]. by eexists. }
  unfold wp in H. destruct (create_record now r s) as [o s1] eqn:E. destruct H as (t1 & a1 & Es & H1 & Ho). simpl in Es. subst s1.
  destruct o as [d|e]; simpl in Ho; destruct_and?; subst.
  - destruct Ho as [k ->]. destruct (IH n (put_records t1 s)) as (m & t & added & -> & Hm & Ht & Hza & Hc).
    exists m, t, (added ++ [(k, RecordRecord_new (to_rfc3339 now) r)]). split_and!; [done|done| | |].
    + rewrite Ht. simpl. rewrite H1. by rewrite <- app_assoc.
    + apply Forall_app. split; [done|]. by constructor.
    + intros Em. rewrite map_app, Hc by done. simpl. by rewrite Permutation_app_comm.
  - destruct (IH (n + 1) (put_records t1 s)) as (m & t & added & -> & Hm & Ht & Hza & Hc).
    exists m, t, added. split_and!; [done|lia| |done|lia]. rewrite Ht. simpl. by rewrite H1.
Qed.

(** Records that may be in one zone together. *)
Definition compatible (r1 r2 : DRecord) : Prop :=
  normalize_name (rec_name r1) = normalize_name (rec_name r2) -> record_type r1 <> Cname /\ record_type r2 <> Cname.

Section totality.
Context {RTT : TotalTable TR RecordRecord} {ZTT : TotalTable TZ ZoneRecord}.

Lemma list_records_total now z s : exists l, list_records now z s = (Ok l, s).
Proof.
  unfold list_records, mbind_, read_from.
  destruct (select_total (fun r => String.eqb (rec_r_zone r) z) record_order None (record_t s)) as [l ->]. by eexists.
Qed.

Lemma create_record_total now r s :
  (forall kr, In kr (rows (record_t s)) -> ~ clash (rec_zone r) (rec_name r) (record_type r) None kr) ->
  exists k t, create_record now r s = (Ok (RecordRecord_into_model now (k, RecordRecord_new (to_rfc3339 now) r)), put_records t s) /\
    rows t ≡ₚ (k, RecordRecord_new (to_rfc3339 now) r) :: rows (record_t s).
Proof.
  intros Hno. assert (check_cname_coexistence now (rec_zone r) (rec_name r) (record_type r) None s = (Ok (), s)) as Hc.
  { destruct (list_records_total now (rec_zone r) s) as [l El].
    unfold check_cname_coexistence, mbind_. rewrite El. cbv zeta.
    destruct (existsb _ _) eqn:Ex; [|done]. exfalso.
    apply list_records_run in El as [_ Hl]. apply existsb_exists in Ex as (m & Hm & Hcn).
    rewrite !filter_In, String.eqb_eq in Hm. destruct Hm as [[Hm Hn] _]. apply (perm_In _ _ _ Hl) in Hm.
    apply in_map_iff in Hm as ([k w] & <- & [Hin Hz%String.eqb_eq]%filter_In). apply (Hno (k, w) Hin).
    unfold is_cname in Hcn. rewrite orb_true_iff, !RecordType_eqb_eq in Hcn. by split_and!. }
  unfold create_record, mbind_. rewrite Hc. unfold on_records, on_table.
  destruct (create_total (RecordRecord_new (to_rfc3339 now) r) (record_t s)) as (k & t & Et). rewrite Et.
  exists k, t. split; [done|]. by apply create_ok in Et as (_ & _ & ?).
Qed.

Lemma create_all_total now z recs : Forall (fun r => rec_zone r = z /\ stable (rec_name r)) recs ->
  ForallOrdPairs compatible recs -> forall n s,
  (forall k w r, In (k, w) (rows (record_t s)) -> rec_r_zone w = z -> In r recs ->
     normalize_name (rec_r_name w) = normalize_name (rec_name r) -> record_type r <> Cname /\ row_type w <> Cname) ->
  (create_all now recs n s).1 = Ok n.
Proof.
  intros Hz Hc. induction Hc as [|r recs Hr Hc IH]; intros n s Hs; [done|].
  apply Forall_cons in Hz as [[Er Hst] Hz]. simpl.
  destruct (create_record_total now r s) as (k & t & -> & Ht).
  { intros [k w] Hin (E1 & E2 & _ & E3). simpl in *. destruct (Hs k w r Hin); [congruence|by left|done|]. by destruct E3. }
  apply IH; [done|]. simpl. intros k' w r' Hin Ew Hr' En. apply (perm_In _ _ _ Ht) in Hin as [[= <- <-]|Hin].
  - rewrite row_type_new. apply and_comm. eapply Forall_forall in Hr; [apply Hr|by apply list_elem_of_In]. simpl in En. by rewrite <- En.
  - eapply Hs; [exact Hin|done|by right|done].
Qed.
End totality.

Lemma zone_rows_added z added (l : list (string * RecordRecord)) :
  Forall (fun kr => rec_r_zone kr.2 = z) added ->
  List.filter (in_zone z) (added ++ l) = added ++ List.filter (in_zone z) l /\
  List.filter (fun kr => negb (in_zone z kr)) (added ++ l) = List.filter (fun kr => negb (in_zone z kr)) l.
Proof.
  intros H. rewrite !List.filter_app. split.
  - f_equal. induction H as [|kr l' E _ IH]; [done|]. simpl. unfold in_zone at 1. by rewrite E, String.eqb_refl, IH.
  - rewrite filter_none; [done|]. intros kr Hin%list_elem_of_In. eapply Forall_forall in H; [|exact Hin].
    unfold in_zone. by rewrite H, String.eqb_refl.
Qed.

(** A full load.  Loading a zone leaves the records of the other zones alone; if
    it reports success the zone has exactly the records given, and its SOA is the
    given one. *)
Lemma replace_zone_records_spec now z so recs s r s' :
  Forall (fun r => rec_zone r = z) recs -> replace_zone_records now z so recs s = (r, s') ->
  elsewhere z s' ≡ₚ elsewhere z s /\
  (r = Ok () -> zone_content z s' ≡ₚ map record_content recs /\
     rows (zone_t s') ≡ₚ map (fun kr => if String.eqb kr.1 z then (kr.1, zr_set_soa (json_text so) (to_rfc3339 now) kr.2) else kr)
                             (rows (zone_t s))).
Proof.
  intros Hz E. pattern r, s'. apply (wp_run _ _ _ _ _ E). clear E r s'.
  apply wp_bind, wp_update_where; [|by intros]. intros l0 t0 Ht0 _.
  apply wp_bind, wp_delete_where; [|intros e t1 Ht1; split; [|done]; unfold elsewhere; simpl in *; by rewrite Ht1]. intros t1 Ht1.
  apply wp_bind. unfold wp.
  destruct (create_all_rows now z recs Hz 0 (put_records t1 (put_zones t0 s))) as (m & t & added & -> & Hm & Ht & Hza & Hc).
  simpl in *. destruct (zone_rows_added z added (rows t1) Hza) as [Eadd Eels].
  assert (forall w, elsewhere z (put_records t w) ≡ₚ elsewhere z s) as Hels.
  { intros w. unfold elsewhere. simpl. rewrite Ht, Eels, Ht1, filter_filter.
    apply filter_agree. intros kr _. unfold in_zone. by destruct (String.eqb _ _). }
  destruct (0 <? m) eqn:Em; unfold wp; simpl; (split; [apply Hels|]); [done|]. intros _. split; [|done].
  unfold zone_content, zone_rows. simpl. rewrite Ht, Eadd, Ht1, filter_filter, filter_none, app_nil_r; [apply Hc; to_prop; lia|].
  intros kr _. unfold in_zone. by destruct (String.eqb _ _).
Qed.

(** Which rows a list of removals deletes. *)
Definition removes (existing removed : list DRecord) (kr : string * RecordRecord) : bool :=
  existsb (fun rem => is_some_and (fun m => String.eqb (rec_id m) kr.1) (find (delta_match rem) existing)) removed.

#[local] Arguments removes : simpl never.

Lemma removes_cons existing rem removed kr : removes existing (rem :: removed) kr =
  is_some_and (fun m => String.eqb (rec_id m) kr.1) (find (delta_match rem) existing) || removes existing removed kr.
Proof. done. Qed.

Lemma delete_matches_rows existing removed : forall s,
  wp (delete_matches existing removed) (fun r s' => exists t, s' = put_records t s /\
    incl (rows t) (rows (record_t s)) /\
    (r = Ok () -> rows t ≡ₚ List.filter (fun kr => negb (removes existing removed kr)) (rows (record_t s)))) s.
Proof.
  induction removed as [|rem removed IH]; intros s.
  { apply wp_ret. exists (record_t s). rewrite put_records_id. split_and!; [done|apply incl_refl|]. intros _. by rewrite filter_true. }
  apply wp_bind. simpl. destruct (find (delta_match rem) existing) as [m|] eqn:Ef.
  - apply wp_delete_key.
    + intros t1 H1. eapply wp_mono; [apply IH|]. intros r s' (t & -> & Hi & Hok). exists t. simpl in *. split_and!; [done| |].
      * intros x Hx%Hi%(perm_In _ _ _ H1). by apply filter_In in Hx as [? _].
      * intros Hr. rewrite Hok, H1, filter_filter by done. apply filter_agree. intros kr _. rewrite removes_cons, Ef.
        simpl. rewrite negb_orb. f_equal. by rewrite String.eqb_sym.
    + intros e t1 H1. exists t1. split_and!; [done| |done]. intros x. by apply perm_In.
  - apply wp_ret. eapply wp_mono; [apply IH|]. intros r s' (t & -> & Hi & Hok). exists t. split_and!; [done..|].
    intros Hr. rewrite Hok by done. apply filter_agree. intros kr _. by rewrite removes_cons, Ef.
Qed.

(** No record of the zone is there twice. *)
Definition distinct_rrs (z : string) (s : store) : Prop :=
  forall k1 w1 k2 w2, In (k1, w1) (zone_rows z s) -> In (k2, w2) (zone_rows z s) ->
    normalize_name (rec_r_name w1) = normalize_name (rec_r_name w2) -> row_type w1 = row_type w2 ->
    unwrap_or json_null (of_string (rec_r_data w1)) = unwrap_or json_null (of_string (rec_r_data w2)) -> k1 = k2.

Lemma delta_match_eq rem e : delta_match rem e = true <-> normalize_name (rec_name e) = normalize_name (rec_name rem) /\
  record_type e = record_type rem /\ rec_data e = rec_data rem.
Proof. unfold delta_match. rewrite !andb_true_iff, String.eqb_eq, RecordType_eqb_eq, bool_decide_eq_true. tauto. Qed.

Lemma removes_distinct now z s l removed kr : distinct_rrs z s ->
  l ≡ₚ map (RecordRecord_into_model now) (zone_rows z s) -> In kr (rows (record_t s)) ->
  removes l removed kr = in_zone z kr && existsb (fun rem => delta_match rem (RecordRecord_into_model now kr)) removed.
Proof.
  intros Hd Hl Hin. apply eq_true_iff_eq. unfold removes. rewrite andb_true_iff, !existsb_exists. split.
  - intros (rem & Hrem & Hm). apply is_some_and_true in Hm as (m & Ef & Ek%String.eqb_eq).
    apply find_some in Ef as [Hm Hdm]. apply (perm_In _ _ _ Hl), in_map_iff in Hm as ([k w] & <- & [Hw Hz]%filter_In).
    destruct kr as [k' w']. simpl in Ek. subst k'. assert (w' = w) as -> by (by eapply rows_key_inj). split; [done|]. by exists rem.
  - intros [Hz (rem & Hrem & Hdm)]. exists rem. split; [done|]. apply is_some_and_true.
    destruct (find (delta_match rem) l) as [m|] eqn:Ef.
    + exists m. split; [done|]. apply find_some in Ef as [Hm Hdm'].
      apply (perm_In _ _ _ Hl), in_map_iff in Hm as ([k w] & <- & Hw). destruct kr as [k' w']. apply String.eqb_eq.
      apply delta_match_eq in Hdm as (E1 & E2 & E3), Hdm' as (E1' & E2' & E3'). simpl in *.
      eapply (Hd k w k' w' Hw); [by apply filter_In|unfold row_type; congruence..].
    + exfalso. rewrite (find_none _ _ Ef) in Hdm; [done|].
      apply (perm_In _ _ _ (symmetry Hl)), in_map, filter_In. by split.
Qed.

(** An incremental load.  In a zone without duplicates, applying a delta that
    reports success removes exactly the records that match a removal, adds the
    additions, and leaves the other zones alone. *)
Lemma apply_zone_delta_spec now z removed added s s' :
  distinct_rrs z s -> apply_zone_delta now z removed added s = (Ok (), s') ->
  elsewhere z s' ≡ₚ elsewhere z s /\
  zone_content z s' ≡ₚ map record_content added ++
    map (fun kr => row_content kr.2)
      (List.filter (fun kr => negb (existsb (fun rem => delta_match rem (RecordRecord_into_model now kr)) removed)) (zone_rows z s)) /\
  zone_t s' = zone_t s.
Proof.
  intros Hd E. pattern s'. apply (wp_run_ok _ (fun _ => _) _ () _ E). clear E s'.
  apply wp_bind, wp_list_records; [|done]. intros l Hl.
  apply wp_bind. eapply wp_mono; [apply delete_matches_rows|]. intros [[]|e] s1 (t1 & -> & _ & H1); [|done].
  specialize (H1 eq_refl). apply wp_bind. unfold wp.
  destruct (create_all_rows now z (map (with_zone z) added)) with (n := 0) (s := put_records t1 s) as (m & t & new & -> & Hm & Ht & Hza & Hc).
  { apply Forall_map, Forall_forall. by intros. }
  cbn [fst snd]. destruct (0 <? m) eqn:Em; [by apply wp_fail|]. apply wp_ret. assert (m = 0) as -> by (to_prop; lia). specialize (Hc eq_refl).
  unfold on_ok, elsewhere, zone_content, zone_rows. simpl. rewrite Ht. simpl.
  destruct (zone_rows_added z new (rows t1) Hza) as [-> ->]. rewrite H1, !filter_filter.
  assert (map record_content (map (with_zone z) added) = map record_content added) as Ea by (by rewrite map_map).
  rewrite Ea in Hc. rewrite map_app, Hc. split_and!; [| |done].
  - apply filter_agree. intros kr Hin. simpl. rewrite (removes_distinct now z s l removed kr Hd Hl Hin).
    by destruct (in_zone z kr); rewrite ?andb_false_r.
  - apply Permutation_app_head, Permutation_map, filter_agree. intros kr Hin. simpl.
    rewrite (removes_distinct now z s l removed kr Hd Hl Hin). by destruct (in_zone z kr); rewrite ?andb_true_r.
Qed.

(** ** Steering a name to another address *)

Lemma delete_records_rows ids : forall s,
  wp (delete_records ids) (on_ok (fun _ s' => exists t, s' = put_records t s /\
    rows t ≡ₚ List.filter (fun kr => negb (existsb (String.eqb kr.1) ids)) (rows (record_t s)))) s.
Proof.
  induction ids as [|id ids IH]; intros s.
  { apply wp_ret. exists (record_t s). rewrite put_records_id. split; [done|]. simpl. by rewrite filter_true. }
  apply wp_bind, wp_delete_key; [|done]. intros t1 H1. eapply wp_mono; [apply IH|]. intros [[]|e] s'; [|done].
  intros (t & -> & Ht). exists t. split; [done|]. simpl in *. rewrite Ht, H1, filter_filter.
  apply filter_agree. intros kr _. by rewrite negb_orb.
Qed.

Lemma bump_zone_serial_spec now id s :
  wp (bump_zone_serial now id) (on_ok (fun o s' =>
    match o with
    | None => s' = s /\ forall w, ~ In (id, w) (rows (zone_t s))
    | Some n => exists w t, s' = put_zones t s /\ In (id, w) (rows (zone_t s)) /\
        n = next_serial (serial (soa (ZoneRecord_into_model now (id, w)))) /\
        rows t ≡ₚ map (fun kr => if String.eqb kr.1 id
          then (kr.1, zr_set_soa (json_text (soa_set_serial n (soa (ZoneRecord_into_model now (id, w))))) (to_rfc3339 now) kr.2)
          else kr) (rows (zone_t s))
    end)) s.
Proof.
  apply wp_bind, wp_get_zone; [|by intros; apply wp_ret|done]. intros w Hw.
  apply wp_bind, wp_update_where; [|done]. intros l t Ht _. apply wp_ret. simpl. exists w, t. by split_and!.
Qed.

(** The rows that hold the addresses of a name: of one family, in one zone. *)
Definition addresses (z owner : string) (rt : RecordType) (kr : string * RecordRecord) : bool :=
  in_zone z kr && (RecordType_eqb (row_type kr.2) rt && String.eqb (normalize_name (rec_r_name kr.2)) owner).

Definition family (ip : IpAddr) : RecordType := match ip with V4 _ => A | V6 _ => Aaaa end.
Definition address_data (ip : IpAddr) : V :=
  json_obj "address" (from_str (match ip with V4 v => ipv4_to_string v | V6 v => ipv6_to_string v end)).

(** The name already has this address and no other of its family. *)
Definition points_to (z owner : string) (ip : IpAddr) (ttl : Z) (s : store) : Prop :=
  exists kr, List.filter (addresses z owner (family ip)) (rows (record_t s)) ≡ₚ [kr] /\
    unwrap_or json_null (of_string (rec_r_data kr.2)) = address_data ip /\ rec_r_ttl kr.2 = ttl.

Lemma addresses_listed now z owner rt l s : l ≡ₚ map (RecordRecord_into_model now) (zone_rows z s) ->
  List.filter (fun r => RecordType_eqb (record_type r) rt && String.eqb (normalize_name (rec_name r)) owner) l
  ≡ₚ map (RecordRecord_into_model now) (List.filter (addresses z owner rt) (rows (record_t s))).
Proof.
  intros ->. unfold zone_rows. induction (rows (record_t s)) as [|[k w] rs IH]; [done|]. simpl. unfold addresses at 1. simpl.
  destruct (in_zone z (k, w)); simpl; [|done]. unfold row_type at 1.
  destruct (RecordType_eqb _ rt && _); simpl; by rewrite IH.
Qed.

Lemma addresses_id now z owner rt removed (s : store) kr :
  removed ≡ₚ map (RecordRecord_into_model now) (List.filter (addresses z owner rt) (rows (record_t s))) ->
  In kr (rows (record_t s)) -> existsb (String.eqb kr.1) (map rec_id removed) = addresses z owner rt kr.
Proof.
  intros Hr Hin. apply eq_true_iff_eq. rewrite existsb_exists. split.
  - intros (id & Hid & E%String.eqb_eq). apply in_map_iff in Hid as (m & Em & Hm).
    apply (perm_In _ _ _ Hr), in_map_iff in Hm as ([k w] & <- & [Hw Ha]%filter_In). simpl in Em. destruct kr as [k' w'].
    simpl in *. subst. assert (w' = w) as -> by (by eapply rows_key_inj). done.
  - intros Ha. exists kr.1. split; [|apply String.eqb_refl]. apply in_map_iff. exists (RecordRecord_into_model now kr).
    split; [by destruct kr|]. apply (perm_In _ _ _ (symmetry Hr)), in_map, filter_In. by split.
Qed.

(** The records after the old addresses are deleted and the new one is created. *)
Lemma readdress now z owner rt r (s s1 s2 : store) t1 t2 k :
  rec_zone r = z -> record_type r = rt -> normalize_name (normalize_name (rec_name r)) = owner ->
  s1 = put_records t1 s -> s2 = put_records t2 s1 ->
  rows t1 ≡ₚ List.filter (fun kr => negb (addresses z owner rt kr)) (rows (record_t s)) ->
  rows t2 ≡ₚ (k, RecordRecord_new (to_rfc3339 now) r) :: rows t1 ->
  List.filter (addresses z owner rt) (rows t2) ≡ₚ [(k, RecordRecord_new (to_rfc3339 now) r)] /\
  List.filter (fun kr => negb (addresses z owner rt kr)) (rows t2)
    ≡ₚ List.filter (fun kr => negb (addresses z owner rt kr)) (rows (record_t s)).
Proof.
  intros Hz Hrt Hn -> -> H1 H2. rewrite H2. cbn [List.filter].
  assert (addresses z owner rt (k, RecordRecord_new (to_rfc3339 now) r) = true) as ->.
  { unfold addresses, in_zone. cbn [snd]. rewrite row_type_new. simpl.
    rewrite Hz, Hn, Hrt, !String.eqb_refl. simpl. by rewrite (proj2 (RecordType_eqb_eq rt rt)). }
  simpl. rewrite H1, !filter_filter, filter_none by (intros kr _; by destruct (addresses z owner rt kr)).
  split; [done|]. apply filter_agree. intros kr _. by destruct (addresses z owner rt kr).
Qed.

Section journalled.
(** The journal accepts its entries. *)
Context {JTT : TotalTable TJ JournalRecord}.

Lemma append_zone_journal_spec now id n added removed s :
  wp (append_zone_journal now id n added removed) (on_ok (fun _ s' => exists kj j t, s' = put_journal t s /\
    rows t ≡ₚ (kj, j) :: rows (journal_t s) /\ jr_zone j = id /\ jr_serial j = n /\
    of_string (jr_added j) = Some added /\ of_string (jr_removed j) = Some removed)) s.
Proof.
  unfold append_zone_journal. rewrite !text_or_else. apply wp_bind. unfold wp, on_journal, on_table.
  set (j := mkJournalRecord _ _ _ _ _). destruct (create_total j (journal_t s)) as (kj & t & E). rewrite E. simpl.
  apply create_ok in E as (_ & _ & Ht). exists kj, j, t. split_and!; try done; apply of_json_text.
Qed.

(** Repointing.  A call that reports a serial has found the zone of the apex and
    left the name with the new address and no other of its family; every other
    record is as it was, the zone has the next serial, and one journal entry at
    that serial lists what was added and removed.  A call that reports nothing
    has changed nothing, because no zone has the apex or because the name points
    there already. *)
Theorem repoint_address_record_exact now apex fqdn ip ttl actor s o s' :
  stable fqdn -> repoint_address_record now apex fqdn ip ttl actor s = (Ok o, s') ->
  match o with
  | None => s' = s /\
      ((forall z w, In (z, w) (rows (zone_t s)) -> normalize_name (zr_name w) <> normalize_name apex) \/
       exists z w, In (z, w) (rows (zone_t s)) /\ normalize_name (zr_name w) = normalize_name apex /\
         points_to z (normalize_name fqdn) ip ttl s)
  | Some n => exists z w k row, In (z, w) (rows (zone_t s)) /\ normalize_name (zr_name w) = normalize_name apex /\
      let addr := addresses z (normalize_name fqdn) (family ip) in
      points_to z (normalize_name fqdn) ip ttl s' /\ In (k, row) (List.filter addr (rows (record_t s'))) /\
      List.filter (fun kr => negb (addr kr)) (rows (record_t s')) ≡ₚ List.filter (fun kr => negb (addr kr)) (rows (record_t s)) /\
      n = next_serial (serial (soa (ZoneRecord_into_model now (z, w)))) /\
      (forall w', In (z, w') (rows (zone_t s')) -> serial (soa (ZoneRecord_into_model now (z, w'))) = n) /\
      exists kj j removed, rows (journal_t s') ≡ₚ (kj, j) :: rows (journal_t s) /\ jr_zone j = z /\ jr_serial j = n /\
        of_string (jr_added j) = Some [RecordRecord_into_model now (k, row)] /\ of_string (jr_removed j) = Some removed /\
        removed ≡ₚ map (RecordRecord_into_model now) (List.filter addr (rows (record_t s)))
  end.
Proof.
  intros Hst E. pattern o, s'. apply (wp_run_ok _ _ _ _ _ E). clear E o s'.
  apply wp_bind, wp_list_zones; [|done]. intros zs Hzs.
  destruct (find _ zs) as [zn|] eqn:Ef.
  2: { apply wp_ret. split; [done|]. left. intros z w Hin En. apply (in_map (ZoneRecord_into_model now)) in Hin.
       apply (perm_In _ _ _ (symmetry Hzs)), (find_none _ _ Ef) in Hin. simpl in Hin. by rewrite En, String.eqb_refl in Hin. }
  apply find_some in Ef as [Hin En%String.eqb_eq]. apply (perm_In _ _ _ Hzs), in_map_iff in Hin as ([z w] & <- & Hin). simpl in En.
  assert (match ip with
          | V4 v4 => (A, json_obj "address" (from_str (ipv4_to_string v4)))
          | V6 v6 => (Aaaa, json_obj "address" (from_str (ipv6_to_string v6)))
          end = (family ip, address_data ip)) as -> by (by destruct ip).
  apply wp_bind, wp_list_records; [|done]. intros l Hl. cbn [zone_id ZoneRecord_into_model] in *.
  apply (addresses_listed now z (normalize_name fqdn) (family ip)) in Hl. cbv zeta.
  set (removed := List.filter _ l) in *. destruct (match removed with [r] => _ | _ => _ end) eqn:Em.
  { apply wp_ret. split; [done|]. right. exists z, w. split_and!; [done..|]. destruct removed as [|r [|]]; try done.
    apply andb_true_iff in Em as [Ed%bool_decide_eq_true Et%Z.eqb_eq]. unfold points_to.
    destruct (List.filter _ (rows (record_t s))) as [|kr [|]]; try (by apply Permutation_length in Hl).
    exists kr. apply Permutation_singleton_inj in Hl. destruct kr. subst r. by split_and!. }
  apply wp_bind. eapply wp_mono; [apply delete_records_rows|]. intros [[]|e] s1; [|done]. intros (t1 & Es1 & H1).
  assert (rows t1 ≡ₚ List.filter (fun kr => negb (addresses z (normalize_name fqdn) (family ip) kr)) (rows (record_t s))) as H1'.
  { rewrite H1. apply filter_agree. intros kr Hkr. f_equal. by eapply addresses_id. }
  apply wp_bind, wp_create_record; [|done]. intros k t2 _ H2 _. rewrite Es1 in H2. simpl in H2.
  edestruct (readdress now z (normalize_name fqdn) (family ip)) as [Hnew Hold];
    [| | | |reflexivity|exact H1'|exact H2|]; [done|done|simpl; by rewrite !Hst|exact Es1|].
  apply wp_bind. eapply wp_mono; [apply bump_zone_serial_spec|]. intros [bumped|e] s3; [|done].
  intros Hb. destruct bumped as [n|]; [|by destruct Hb as [_ []%(fun H => H w)]; rewrite Es1].
  destruct Hb as (w' & t3 & -> & Hw' & -> & H3). rewrite Es1 in Hw', H3. simpl in Hw', H3.
  assert (w' = w) as -> by (by eapply rows_key_inj).
  apply wp_bind. eapply wp_mono; [apply append_zone_journal_spec|]. intros [[]|e] s4; [|done].
  intros (kj & j & t4 & -> & Hj & Ejz & Ejn & Eja & Ejr). apply wp_ret. subst s1. simpl in *.
  exists z, w, k. eexists. split_and!; [done|done| | |exact Hold|done| |].
  - exists (k, RecordRecord_new (to_rfc3339 now) (mkDnsRecord "" now now actor z (normalize_name fqdn) ttl (family ip) (address_data ip) true)).
    split_and!; [exact Hnew| |done]. simpl. by rewrite of_json_text.
  - rewrite Hnew. by left.
  - intros w' Hw2. apply (perm_In _ _ _ H3), in_map_iff in Hw2 as ([k0 w0] & E0 & Hw0). simpl in E0.
    destruct (String.eqb_spec k0 z) as [->|N]; injection E0; [|congruence]. intros <-. simpl. by rewrite of_json_text.
  - exists kj, j, removed. by split_and!.
Qed.
End journalled.
End repository.

(** ** Sample columns and stores *)

Fixpoint json_to_tree (v : json_value) : tree :=
  match v with
  | JNull => GenNode 2 []
  | JStr s => GenLeaf (inl s)
  | JNum n => GenLeaf (inr n)
  | JObj l => GenNode 0 (map (fun kv => GenNode 1 [GenLeaf (inl kv.1); json_to_tree kv.2]) l)
  end.

Fixpoint json_of_tree (t : tree) : option json_value :=
  match t with
  | GenNode 2 _ => Some JNull
  | GenLeaf (inl s) => Some (JStr s)
  | GenLeaf (inr n) => Some (JNum n)
  | GenNode 0 ts => JObj <$>
      (fix fields (ts : list tree) : option (list (string * json_value)) :=
         match ts with
         | [] => Some []
         | GenNode _ [GenLeaf (inl k); t'] :: ts' => v ← json_of_tree t'; l ← fields ts'; Some ((k, v) :: l)
         | _ => None
         end) ts
  | _ => None
  end.

Fixpoint json_of_to_tree (v : json_value) : json_of_tree (json_to_tree v) = Some v.
Proof.
  destruct v as [|s|n|l]; [done..|]. simpl. apply fmap_Some. exists l. split; [|done].
  induction l as [|[k x] l IH]; [done|]. simpl. rewrite json_of_to_tree. simpl. by rewrite IH.
Qed.

#[export] Instance tree_json : TreeSerde json_value := {| of_to_tree := json_of_to_tree |}.

#[export] Instance json_value_eq_dec : EqDecision json_value.
Proof.
  intros x y. destruct (decide (json_to_tree x = json_to_tree y)) as [E|E]; [left|right; by intros ->].
  apply (inj Some). by rewrite <- (json_of_to_tree x), E, json_of_to_tree.
Defined.

#[export] Instance tree_Soa : TreeSerde Soa :=
  tree_iso (fun s => (mname s, (rname s, (serial s, (refresh s, (retry s, (expire s, minimum s)))))))
    (fun '(a, (b, (c, (d, (e, (f, g)))))) => mkSoa a b c d e f g)
    (fun s => match s with mkSoa _ _ _ _ _ _ _ => eq_refl end) _.

#[export] Instance tree_TransferState : TreeSerde ZoneTransferState :=
  tree_iso (fun s => (last_serial s, (last_attempt s, (last_ok s, (last_error s, last_success s)))))
    (fun '(a, (b, (c, (d, e)))) => mkZoneTransferState a b c d e)
    (fun s => match s with mkZoneTransferState _ _ _ _ _ => eq_refl end) _.

#[export] Instance tree_DnsRecord : TreeSerde (DnsRecord json_value) :=
  tree_iso (fun r => (rec_id r, (rec_created_at r, (rec_updated_at r, (rec_created_by r, (rec_zone r,
      (rec_name r, (rec_ttl r, (RecordType_as_str (record_type r), (rec_data r, rec_enabled r))))))))))
    (fun '(a, (b, (c, (d, (e, (f, (g, (h, (i, j))))))))) => mkDnsRecord a b c d e f g (unwrap_or A (RecordType_from_str h)) i j)
    (fun r => match r with mkDnsRecord a b c d e f g h i j =>
       f_equal (fun h' => mkDnsRecord a b c d e f g (unwrap_or A h') i j) (RecordType_from_as h) end) _.

#[export] Instance tree_GeoRegion : TreeSerde (GeoRegion json_value) :=
  tree_iso (fun r => (region r, (cidrs r, region_data r))) (fun '(a, (b, c)) => mkGeoRegion a b c)
    (fun r => match r with mkGeoRegion _ _ _ => eq_refl end) _.

#[export] Instance serde_Soa : Serde Soa := serde_of_tree _.
#[export] Instance serde_TransferState : Serde ZoneTransferState := serde_of_tree _.
#[export] Instance serde_json : Serde json_value := serde_of_tree _.
#[export] Instance serde_records : Serde (list (DnsRecord json_value)) := serde_of_tree _.
#[export] Instance serde_regions : Serde (list (GeoRegion json_value)) := serde_of_tree _.
#[export] Instance serde_strings : Serde (list string) := serde_of_tree _.

Definition list_store : Type :=
  Store (list_table ZoneRecord) (list_table RecordRecord) (list_table RpzRecord) (list_table TsigKeyRecord)
    (list_table JournalRecord) (list_table GeoRuleRecord) (list_table DnsSettingsRecord) (list_table DnssecKeyRecord).

Definition empty_store : list_store := mkStore lt_empty lt_empty lt_empty lt_empty lt_empty lt_empty lt_empty lt_empty.

(** Dates as eight bytes, base64 as the identity. *)
Definition sample_to_rfc3339 (t : Z) : string := string_of_bytes (to_be_bytes 8 t).
Definition sample_parse_rfc3339 (s : string) : option Z := Some (from_be_bytes (bytes_of_string s)).

Definition sample_b64_decode (s : string) : option bytes := Some (bytes_of_string s).

Definition sample_run (now : Z) (c : call) (s : list_store) : list_store :=
  (run JNull sample_to_rfc3339 sample_parse_rfc3339 string_of_bytes now c s).2.

Definition sample_soa : Soa := mkSoa "ns.example.com" "admin.example.com" 7 3600 900 604800 86400.
Definition sample_rec (id z name : string) (rt : RecordType) (key value : string) : DnsRecord json_value :=
  mkDnsRecord id 0 0 "admin" z name 300 rt (JObj [(key, JStr value)]) true.

(** A zone with an alias and two addresses; its key is [k]. *)
Definition sample_calls : list (@call json_value) :=
  [CCreateZone "Example.com." sample_soa true "admin";
   CCreateRecord (sample_rec "" "k" "www.example.com" A "address" "192.0.2.1");
   CCreateRecord (sample_rec "" "k" "mail.example.com" A "address" "192.0.2.2");
   CCreateRecord (sample_rec "" "k" "ftp.example.com" Cname "target" "www.example.com");
   CCreateRecord (sample_rec "" "k" "ftp.example.com" A "address" "192.0.2.3")].
Definition sample_dns : list_store := fold_left (fun s c => sample_run 5 c s) sample_calls empty_store.

Abbreviation sample_step := (db_step JNull sample_to_rfc3339 sample_parse_rfc3339 string_of_bytes).

Lemma sample_reachable cs : forall s : list_store,
  (forall c (s : list_store), In c cs -> admissible c s) -> rtc sample_step s (fold_left (fun s c => sample_run 5 c s) cs s).
Proof.
  induction cs as [|c cs IH]; intros s H; [done|]. simpl. eapply rtc_l; [|apply IH; intros; apply H; by right].
  unfold sample_run. destruct (run _ _ _ _ 5 c s) as [r s'] eqn:E. eapply db_call; [|exact E]. apply H. by left.
Qed.

Lemma sample_dns_reachable : rtc sample_step empty_store sample_dns.
Proof.
  apply sample_reachable. intros c s. simpl. intros H. repeat (destruct H as [<-|H]; [done|]). done.
Qed.

Lemma empty_dns_store_empty : store_empty empty_store.
Proof. done. Qed.

Definition sample_listed : list (DnsRecord json_value) :=
  match list_records JNull sample_parse_rfc3339 9 "k" sample_dns with (Ok l, _) => l | _ => [] end.


Definition sample_zones : list Zone :=
  match list_zones sample_parse_rfc3339 9 sample_dns with (Ok l, _) => l | _ => [] end.

Lemma zone_names_unique_witness : map zone_name sample_zones = ["example.com"%string] /\ NoDup (map zone_name sample_zones).
Proof.
  split; [vm_compute; reflexivity|].
  eapply (zone_names_unique JNull sample_to_rfc3339 sample_parse_rfc3339 string_of_bytes sample_b64_decode empty_store sample_dns 9);
    [exact empty_dns_store_empty|exact sample_dns_reachable|vm_compute; reflexivity].
Defined.

Lemma rows_read_back_witness : Forall (fun kr => of_string (rec_r_data kr.2)
    = Some (rec_data (RecordRecord_into_model JNull sample_parse_rfc3339 9 kr))) (rows (record_t sample_dns)).
Proof.
  apply Forall_forall. intros [k r] Hin%list_elem_of_In.
  apply (rows_read_back JNull sample_to_rfc3339 sample_parse_rfc3339 string_of_bytes sample_b64_decode empty_store sample_dns 9
    empty_dns_store_empty sample_dns_reachable). exact Hin.
Defined.

Definition sample_deleted : list_store := (delete_zone_cascade JNull sample_parse_rfc3339 9 "k" sample_dns).2.

Lemma delete_zone_cascade_complete_witness : rows (record_t sample_deleted) ≡ₚ [] /\ rows (zone_t sample_deleted) ≡ₚ [].
Proof.
  destruct (delete_zone_cascade_complete JNull sample_parse_rfc3339 9 "k" sample_dns 3 sample_deleted) as (_ & Hr & _ & Hz & _);
    [vm_compute; reflexivity|]. split; [rewrite Hr|rewrite Hz]; vm_compute; reflexivity.
Defined.

(** The mail host moves: its address, and nothing else, changes. *)
Definition sample_repointed : list_store :=
  (repoint_address_record JNull sample_to_rfc3339 sample_parse_rfc3339 9 "EXAMPLE.com" "Mail.Example.com."
     (V4 3221225994) 60 "center" sample_dns).2.

Lemma repoint_address_record_exact_witness :
  exists z, points_to JNull z "mail.example.com" (V4 3221225994) 60 sample_repointed /\
    forall w, In (z, w) (rows (zone_t sample_repointed)) -> serial (soa (ZoneRecord_into_model sample_parse_rfc3339 9 (z, w))) = 8.
Proof.
  destruct (repoint_address_record_exact JNull sample_to_rfc3339 sample_parse_rfc3339 9 "EXAMPLE.com" "Mail.Example.com."
    (V4 3221225994) 60 "center" sample_dns (Some 8) sample_repointed) as (z & w & k & row & _ & _ & Hp & _ & _ & _ & Hs & _);
    [reflexivity|vm_compute; reflexivity|]. exists z. split; [exact Hp|exact Hs].
Defined.

(** An update does not move a record, but its caller chooses the zone whose names
    are checked: with another zone an alias lands beside an address. *)
Definition sample_moved : DbResult (option (DnsRecord json_value)) * list_store :=
  update_record JNull sample_to_rfc3339 sample_parse_rfc3339 9
    (sample_rec "kk" "elsewhere" "www.example.com" Cname "target" "ftp.example.com") sample_dns.

Example update_record_trusts_the_zone :
  match list_records JNull sample_parse_rfc3339 9 "k" sample_moved.2 with
  | (Ok l, _) => map (fun r => (rec_name r, record_type r)) l
                 = [("ftp.example.com", Cname); ("www.example.com", A); ("www.example.com", Cname)]%string
  | _ => False
  end.
Proof. vm_compute. reflexivity. Qed.
