(* ===== verification/Nsec.v ===== *)
(** * Denial of existence with NSEC

    [magnetite-dns/src/nsec.rs]: the chain of the owner names of a zone in
    canonical order, and the NSEC records that prove a negative answer.  Domain
    names, the codes of the record types and the record set that is put on the wire
    are those of the [hickory] library: they are the variables of the sections. *)

From S2P Require Import Prelude Bytes RustStr RustNet Dns.

(** ** Keys *)

Definition key_cmp : list bytes -> list bytes -> comparison := lex bytes_cmp.

#[export] Instance key_CmpLaws : CmpLaws key_cmp := _.

(** ** Ordered maps and sets ([BTreeMap], [BTreeSet]) *)

(** [entry(k).or_default()], then an update of the value. *)
Fixpoint entry_update {A} (dflt : A) (k : string) (f : A -> A) (m : list (string * A)) : list (string * A) :=
  match m with
  | [] => [(k, f dflt)]
  | (k', a) :: m' =>
      match String.compare k k' with
      | Lt => (k, f dflt) :: m
      | Eq => (k', f a) :: m'
      | Gt => (k', a) :: entry_update dflt k f m'
      end
  end.

Fixpoint set_insert (x : Z) (s : list Z) : list Z :=
  match s with
  | [] => [x]
  | y :: s' => match x ?= y with Lt => x :: s | Eq => s | Gt => y :: set_insert x s' end
  end.

Lemma set_insert_In x s y : In y (set_insert x s) <-> y = x \/ In y s.
Proof.
  induction s as [|z s IH]; simpl; [naive_solver|].
  destruct (Z.compare_spec x z) as [->|H|H]; simpl; [|naive_solver..]. naive_solver.
Qed.

Definition map_ordered {A} (m : list (string * A)) : Prop := StronglySorted (fun a b => str_lt a b = true) m.*1.

Lemma entry_update_keys {A} (d : A) k f m x : In x (entry_update d k f m).*1 <-> x = k \/ In x m.*1.
Proof.
  induction m as [|[k' a] m IH]; cbn; [naive_solver|].
  destruct (String.compare k k') eqn:E; cbn; [|naive_solver..].
  apply String.compare_eq_iff in E as ->. naive_solver.
Qed.

Lemma entry_update_ordered {A} (d : A) k f m : map_ordered m -> map_ordered (entry_update d k f m).
Proof.
  unfold map_ordered. induction m as [|[k' a] m IH]; cbn; intros H.
  - repeat constructor.
  - apply StronglySorted_inv in H as [H1 H2]. destruct (String.compare k k') eqn:E; cbn.
    + by constructor.
    + constructor; [by constructor|]. apply str_lt_iff in E. constructor; [done|].
      eapply Forall_impl; [exact H2|]. intros x. by apply str_lt_trans.
    + constructor; [by apply IH|]. apply List.Forall_forall. intros x [->|Hin]%entry_update_keys.
      * apply str_lt_iff. rewrite String.compare_antisym, E. done.
      * by apply (proj1 (List.Forall_forall _ _) H2).
Qed.

Lemma entry_update_In {A} (d : A) k f m x b : map_ordered m ->
  In (x, b) (entry_update d k f m) <->
  (x <> k /\ In (x, b) m) \/ (x = k /\ ((exists a, In (k, a) m /\ b = f a) \/ (~ In k m.*1 /\ b = f d))).
Proof.
  unfold map_ordered. induction m as [|[k' a] m IH]; cbn; intros H; [naive_solver|].
  apply StronglySorted_inv in H as [H1 H2].
  assert (forall y v, In (y, v) m -> str_lt k' y = true) as Hlt.
  { intros y v Hin. apply (proj1 (List.Forall_forall _ _) H2). apply in_map_iff. by exists (y, v). }
  destruct (String.compare k k') eqn:E; cbn.
  - apply String.compare_eq_iff in E as ->. split.
    + intros [[= <- <-]|Hin]; [right; eauto 10|]. left. split; [|by right].
      intros ->. apply Hlt in Hin. by rewrite str_lt_irrefl in Hin.
    + intros [[Hne [[= <- <-]|Hin]]|[-> [(a' & [[= <-]|Hin] & ->)|[Hn _]]]]; [done|by right|by left| |].
      * apply Hlt in Hin. by rewrite str_lt_irrefl in Hin.
      * exfalso. apply Hn. by left.
  - apply str_lt_iff in E. assert (forall v, ~ ((k', a) = (k, v) \/ In (k, v) m)) as Hno.
    { intros v [[= -> ->]|Hin]; [by rewrite str_lt_irrefl in E|]. apply Hlt in Hin.
      pose proof (str_lt_trans _ _ _ E Hin) as F. by rewrite str_lt_irrefl in F. }
    assert (~ (k' = k \/ In k m.*1)) as Hnk.
    { intros [->|([k0 v] & E0 & Hin)%in_map_iff]; [by rewrite str_lt_irrefl in E|]. simpl in E0. subst k0.
      apply (Hno v). by right. }
    split.
    + intros [[= <- <-]|Hin]; [right; eauto 10|]. left. split; [|done]. intros ->. by apply (Hno b).
    + intros [[Hne Hin]|[-> [(a' & Hin & _)|[_ ->]]]]; [by right|by apply Hno in Hin|by left].
  - assert (k <> k') as Hne by (intros ->; by rewrite String_compare_refl in E).
    rewrite IH by done. split.
    + intros [[= <- <-]|[[Hn Hin]|[-> [(a' & Hin & ->)|[Hn ->]]]]]; [left; by auto|left; by auto| |].
      * right. split; [done|]. left. exists a'. by auto.
      * right. split; [done|]. right. split; [|done]. intros [?|?]; by auto.
    + intros [[Hn [[= <- <-]|Hin]]|[-> [(a' & [[= -> ->]|Hin] & ->)|[Hn ->]]]]; [by left|by auto|done| |].
      * right. right. split; [done|]. left. eauto.
      * right. right. split; [done|]. right. split; [|done]. intros ?. apply Hn. by right.
Qed.

(** ** The chain *)

Open Scope outcome_scope.

(** The record types of [hickory] the code names. *)
Inductive HRt := HA | HAAAA | HCNAME | HMX | HTXT | HNS | HPTR | HSRV | HCAA
  | HSOA | HDNSKEY | HRRSIG | HNSEC | HNSEC3PARAM.

Inductive Denial := DNxDomain | DNoData.

Definition hickory_type (rt : RecordType) : HRt :=
  match rt with
  | A => HA | Aaaa => HAAAA | Cname => HCNAME | Mx => HMX | Txt => HTXT
  | Ns => HNS | Ptr => HPTR | Srv => HSRV | Caa => HCAA
  end.

Record Owner := mkOwner {
  o_name : string;
  o_key : list bytes;
  o_types : list Z;
}.

Definition canonical_key (name : string) : list bytes :=
  rev (map bytes_of_string (List.filter (fun l => negb (is_empty l)) (split "." (normalize_name name)))).

(** The search of [covering_index] from index [i] on. *)
Fixpoint covering_from (owners : list Owner) (target : list bytes) (i : nat) (found : option nat) : option nat :=
  match owners with
  | [] => found
  | o :: os => if clt key_cmp (o_key o) target then covering_from os target (S i) (Some i) else found
  end.
Definition covering_index (owners : list Owner) (target : list bytes) : option nat :=
  covering_from owners target 0 None.

(** The loop of [closest_encloser]: each turn drops a label. *)
Fixpoint encloser_walk (fuel : nat) (names : list string) (apex name : string) : outcome string :=
  match fuel with
  | O => OutOfFuel
  | S fuel' =>
      match split_once "." name with
      | Some (_, rest) =>
          if String.eqb rest apex || existsb (String.eqb rest) names then Ret rest
          else encloser_walk fuel' names apex rest
      | None => Ret apex
      end
  end.
Definition closest_encloser (names : list string) (qname apex : string) : outcome string :=
  let name := normalize_name qname in
  encloser_walk (S (String.length name)) names (normalize_name apex) name.

(** [sort_unstable] and [dedup] on indices. *)
Definition sort_indices (l : list nat) : list nat := dedup_by Nat.eqb (sort_by Nat.leb l).

(** [filter_map] with a function that may panic. *)
Fixpoint ofilter_map {A B} (f : A -> outcome (option B)) (l : list A) : outcome (list B) :=
  match l with
  | [] => Ret []
  | a :: l' =>
      let! o := f a in
      let! bs := ofilter_map f l' in
      Ret (match o with Some b => b :: bs | None => bs end)
  end.

Section nsec.
Context {V Name : Type}.
Context (name_from_str : string -> option Name).
Context (u16_from : HRt -> Z) (HRt_from : Z -> HRt).

Record NsecRR := mkNsecRR {
  rr_owner : Name;
  rr_ttl : Z;
  rr_next : Name;
  rr_types : list HRt;
}.

Definition add_type (t : HRt) (types : list Z) : list Z := set_insert (u16_from t) types.

(** The map from owner names to types, the apex with its own types first. *)
Definition by_name (apex_types : list HRt) (zone_records : list (DnsRecord V)) (apex : string) : list (string * list Z) :=
  fold_left
    (fun m r => if negb (rec_enabled r) then m
                else entry_update [] (normalize_name (rec_name r)) (add_type (hickory_type (record_type r))) m)
    zone_records
    (entry_update [] apex (fun ts => fold_left (fun ts t => add_type t ts) apex_types ts) []).

Definition build_chain (zone_records : list (DnsRecord V)) (apex : string) : list Owner :=
  sort_by (fun a b => cle key_cmp (o_key a) (o_key b))
    (map (fun nt => mkOwner nt.1 (canonical_key nt.1) (add_type HNSEC (add_type HRRSIG nt.2)))
       (by_name [HSOA; HDNSKEY] zone_records (normalize_name apex))).

Definition nsec_record (owner : Owner) (next : string) (ttl : Z) : option NsecRR :=
  match name_from_str (o_name owner), name_from_str next with
  | Some owner_name, Some next_name => Some (mkNsecRR owner_name ttl next_name (map HRt_from (o_types owner)))
  | _, _ => None
  end.

Definition nsec_at (owners : list Owner) (ttl : Z) (i : nat) : outcome (option NsecRR) :=
  let! owner := idx owners i in
  let! next := idx owners ((i + 1) mod length owners)%nat in
  Ret (nsec_record owner (o_name next) ttl).

Definition opt_list {A} (o : option A) : list A := match o with Some a => [a] | None => [] end.

Definition denial_records (zone_records : list (DnsRecord V)) (apex : string) (ttl : Z) (qname : string)
    (kind : Denial) : outcome (list NsecRR) :=
  let owners := build_chain zone_records apex in
  match owners with
  | [] => Ret []
  | _ =>
      let qkey := canonical_key qname in
      let! indices :=
        match kind with
        | DNoData =>
            Ret (match position (fun o => bool_decide (o_key o = qkey)) owners with
                 | Some i => [i]
                 | None => opt_list (covering_index owners qkey)
                 end)
        | DNxDomain =>
            let! encloser := closest_encloser (map o_name owners) qname apex in
            let wildcard := canonical_key ("*." +:+ encloser) in
            Ret (opt_list (covering_index owners qkey) ++ opt_list (covering_index owners wildcard))
        end in
      ofilter_map (nsec_at owners ttl) (sort_indices indices)
  end.
End nsec.
Arguments NsecRR : clear implicits.

(** ** Names and their keys *)

Lemma bytes_of_string_inj a b : bytes_of_string a = bytes_of_string b -> a = b.
Proof. intros E. by rewrite <-(string_of_bytes_of_string a), <-(string_of_bytes_of_string b), E. Qed.

Lemma canonical_key_ok s : name_ok s -> canonical_key s = rev (map bytes_of_string (split "." s)).
Proof.
  intros H. unfold canonical_key. rewrite name_ok_normalize by done. destruct H as [[_ Hl]%andb_true_iff _].
  f_equal. f_equal. revert Hl. induction (split "." s) as [|w ws IH]; simpl; [done|].
  intros [-> Hl]%andb_true_iff. by rewrite IH.
Qed.

Lemma canonical_key_inj a b : name_ok a -> name_ok b -> canonical_key a = canonical_key b -> a = b.
Proof.
  intros Ha Hb. rewrite !canonical_key_ok by done. intros E%rev_inj. apply split_inj.
  revert E. generalize (split "." a) (split "." b). induction l as [|x l IH]; intros [|y m]; try done.
  simpl. intros [= E1%bytes_of_string_inj E2]. by rewrite E1, (IH m).
Qed.

Lemma canonical_key_app p a : name_ok a -> name_ok (p +:+ "." +:+ a) ->
  exists x xs, canonical_key (p +:+ "." +:+ a) = canonical_key a ++ x :: xs.
Proof.
  intros Ha Hp. rewrite !canonical_key_ok, split_app, map_app, rev_app_distr by done.
  destruct (rev (map bytes_of_string (split "." p))) as [|x xs] eqn:E; [|by exists x, xs].
  apply (f_equal (@length _)) in E. rewrite length_rev, length_map in E.
  pose proof (split_nonempty "." p). by destruct (split "." p).
Qed.

Lemma lex_prefix {A} (cmp : A -> A -> comparison) {L : CmpLaws cmp} a x xs : lex cmp a (a ++ x :: xs) = Lt.
Proof. induction a as [|y a IH]; simpl; [done|]. by rewrite (proj2 (cmp_eq y y) eq_refl). Qed.

Lemma key_below q a : name_ok q -> name_ok a -> below q a -> clt key_cmp (canonical_key a) (canonical_key q) = true.
Proof.
  intros Hq Ha [p ->]. destruct (canonical_key_app p a Ha Hq) as (x & xs & ->).
  apply clt_iff. apply (lex_prefix bytes_cmp).
Qed.

Lemma str_map_app f a b : str_map f (a +:+ b) = str_map f a +:+ str_map f b.
Proof. induction a as [|c a IH]; [done|]. simpl. by rewrite IH. Qed.

Lemma str_app_inj a b c d : a +:+ b = c +:+ d -> String.length a = String.length c -> a = c /\ b = d.
Proof.
  revert c. induction a as [|x a IH]; intros [|y c]; simpl; try done.
  intros [= -> E] [= Hl]. destruct (IH c E Hl) as [-> ->]. done.
Qed.

Lemma name_ok_below q a : name_ok q -> below q a -> name_ok a.
Proof.
  intros [[Hg Hl]%andb_true_iff Hlow] [p ->]. rewrite split_app, forallb_app, andb_true_iff in Hl.
  rewrite !str_forallb_app, !andb_true_iff in Hg. split; [apply andb_true_iff; tauto|].
  unfold to_ascii_lowercase in *. rewrite !str_map_app in Hlow.
  apply str_app_inj in Hlow as [_ Hlow]; [|apply to_ascii_lowercase_length].
  by apply str_app_inj in Hlow as [_ Hlow].
Qed.

Lemma name_ok_wildcard e : name_ok e -> name_ok ("*." +:+ e).
Proof.
  intros [[Hg Hl]%andb_true_iff Hlow]. change ("*." +:+ e) with ("*" +:+ "." +:+ e). split.
  - apply andb_true_iff. by rewrite split_app, forallb_app, !str_forallb_app, Hg, Hl.
  - unfold to_ascii_lowercase in *. by rewrite !str_map_app, Hlow.
Qed.

(** ** The closest encloser *)

Lemma contains_dot p a : contains_char "." (p +:+ "." +:+ a) = true.
Proof. unfold contains_char. induction p as [|c p IH]; [done|]. simpl in *. by rewrite IH, orb_true_r. Qed.

Lemma below_length q a : below q a -> (String.length a < String.length q)%nat.
Proof. intros [p ->]. rewrite !str_length_app. simpl. lia. Qed.

Lemma below_irrefl a : ~ below a a.
Proof. intros H%below_length. lia. Qed.

Lemma below_step l rest a : contains_char "." l = false -> below (l +:+ "." +:+ rest) a -> at_or_below rest a.
Proof.
  revert rest. induction l as [|c l IH]; intros rest Hc [p E].
  - destruct p as [|c p]; injection E as E; [by left|]. right. by exists p.
  - simpl in Hc. apply orb_false_iff in Hc as [Hd Hc]. destruct p as [|c' p].
    + injection E as -> _. done.
    + injection E as _ E. apply (IH rest Hc). by exists p.
Qed.

Lemma encloser_walk_spec names apex n : forall name, below name apex -> (String.length name < n)%nat ->
  exists e, encloser_walk n names apex name = Ret e /\ below name e /\ at_or_below e apex /\
    (e = apex \/ In e names) /\ forall a, below name a -> In a names -> at_or_below e a.
Proof.
  induction n as [|n IH]; intros name Hb Hlen; [lia|]. cbn [encloser_walk].
  destruct (split_once "." name) as [[l rest]|] eqn:E.
  2:{ exfalso. destruct Hb as [p ->]. apply split_once_None in E. by rewrite contains_dot in E. }
  apply split_once_Some in E as [-> Hl].
  assert (below (l +:+ "." +:+ rest) rest) as Hrest by by exists l.
  destruct (String.eqb rest apex || existsb (String.eqb rest) names) eqn:Eb.
  - exists rest. split; [done|]. split; [done|]. split; [by apply below_step in Hb|].
    split; [|intros a Ha _; by apply below_step in Ha].
    apply orb_true_iff in Eb as [Eb%String.eqb_eq|(x & Hin & Hx%String.eqb_eq)%existsb_exists]; [by left|right; by subst].
  - apply orb_false_iff in Eb as [Ea%String.eqb_neq En].
    apply below_step in Hb as [?|Hb]; [done| |done]. destruct (IH rest Hb) as (e & He & H1 & H2 & H3 & H4).
    { rewrite !str_length_app in Hlen. simpl in Hlen. lia. }
    exists e. split_and!; [done| |done|done|].
    + destruct H1 as [p ->]. exists (l +:+ "." +:+ p). by rewrite !str_app_assoc.
    + intros a Ha Hin. apply below_step in Ha as [<-|Ha]; [|by apply H4|done].
      exfalso. apply not_true_iff_false in En. apply En, existsb_exists. exists rest. split; [done|apply String.eqb_refl].
Qed.

(** ** The chain is ordered and complete *)

Section chain_facts.
Context {V : Type} (u16_from : HRt -> Z).

(** The types the zone has at a name. *)
Definition has_type (apex_types : list HRt) (recs : list (DnsRecord V)) (apex n : string) (t : HRt) : Prop :=
  (n = apex /\ In t apex_types) \/
  exists r, In r recs /\ rec_enabled r = true /\ normalize_name (rec_name r) = n /\ t = hickory_type (record_type r).

Definition zone_name_in (recs : list (DnsRecord V)) (apex n : string) : Prop :=
  n = apex \/ exists r, In r recs /\ rec_enabled r = true /\ normalize_name (rec_name r) = n.

Definition by_name_ok (ats : list HRt) (recs : list (DnsRecord V)) (apex : string) (m : list (string * list Z)) : Prop :=
  map_ordered m /\ (forall n, In n m.*1 <-> zone_name_in recs apex n) /\
  forall n ts, In (n, ts) m -> forall c, In c ts <-> exists t, has_type ats recs apex n t /\ c = u16_from t.

Lemma by_name_snoc ats recs apex m r : by_name_ok ats recs apex m -> rec_enabled r = true ->
  by_name_ok ats (recs ++ [r]) apex
    (entry_update [] (normalize_name (rec_name r)) (add_type u16_from (hickory_type (record_type r))) m).
Proof.
  intros (Hord & Hkeys & Htypes) He. split_and!; [by apply entry_update_ordered| |].
  - intros n. rewrite entry_update_keys, Hkeys. unfold zone_name_in. setoid_rewrite in_app_iff. simpl. split.
    + intros [->|[->|(r' & ? & ?)]]; [right; exists r; auto|by left|right; exists r'; tauto].
    + intros [->|(r' & [?|[<-|[]]] & ? & ?)]; [by right; left|right; right; exists r'; tauto|by left].
  - intros n ts Hin c. apply entry_update_In in Hin as [[Hne Hin]|[-> Hin]]; [..|done].
    + rewrite (Htypes n ts Hin c). unfold has_type. setoid_rewrite in_app_iff. simpl. split.
      * intros (t & [?|(r' & ? & ?)] & ?); exists t; (split; [|done]); [by left|right; exists r'; tauto].
      * intros (t & [?|(r' & [?|[<-|[]]] & ? & ? & ?)] & ?); [..|congruence];
          exists t; (split; [|done]); [by left|right; exists r'; tauto].
    + assert (forall ts0, (forall c, In c ts0 <-> exists t, has_type ats recs apex (normalize_name (rec_name r)) t /\ c = u16_from t) ->
        forall c, In c (add_type u16_from (hickory_type (record_type r)) ts0) <->
          exists t, has_type ats (recs ++ [r]) apex (normalize_name (rec_name r)) t /\ c = u16_from t) as Hadd.
      { intros ts0 H0 c'. unfold add_type. rewrite set_insert_In, H0. unfold has_type. setoid_rewrite in_app_iff. simpl. split.
        - intros [->|(t & [?|(r' & ? & ?)] & ?)]; [exists (hickory_type (record_type r)); split; [right; exists r; tauto|done]|..];
            exists t; (split; [|done]); [by left|right; exists r'; tauto].
        - intros (t & [?|(r' & [?|[<-|[]]] & ? & ? & ->)] & ->); [right..|by left]; eexists; (split; [|done]);
            [by left|right; exists r'; auto]. }
      destruct Hin as [(a & Hin & ->)|[Hn ->]]; [by apply Hadd, Htypes|]. apply Hadd. intros c'. split; [done|].
      intros (t & Ht & _). apply Hn, Hkeys. destruct Ht as [[-> _]|(r' & ? & ? & ? & _)]; [by left|right; eauto].
Qed.

Lemma add_types_In ats : forall ts c, In c (fold_left (fun ts t => add_type u16_from t ts) ats ts) <->
  (exists t, In t ats /\ c = u16_from t) \/ In c ts.
Proof.
  induction ats as [|t ats IH]; intros ts c; simpl; [naive_solver|]. rewrite IH. unfold add_type. rewrite set_insert_In.
  split.
  - intros [(t' & ? & ?)|[->|?]]; [left; exists t'; auto|left; exists t; auto|by right].
  - intros [(t' & [<-|?] & ->)|?]; [right; by left|left; eauto|right; by right].
Qed.

Lemma by_name_spec ats recs apex : by_name_ok ats recs apex (by_name u16_from ats recs apex).
Proof.
  unfold by_name. induction recs as [|r recs IH] using rev_ind.
  - simpl. split_and!; [repeat constructor| |].
    + intros n. simpl. unfold zone_name_in. naive_solver.
    + intros n ts [[= <- <-]|[]] c. rewrite add_types_In. unfold has_type. simpl. split.
      * intros [(t & ? & ->)|[]]. exists t. auto.
      * intros (t & [[_ ?]|(r & [] & _)] & ->). left. eauto.
  - rewrite fold_left_app. cbn [fold_left]. destruct (rec_enabled r) eqn:He; cbn [negb]; [by apply by_name_snoc|].
    destruct IH as (Hord & Hkeys & Htypes). split_and!; [done| |].
    + intros n. rewrite Hkeys. unfold zone_name_in. setoid_rewrite in_app_iff. simpl.
      split; [|intros [->|(r' & [?|[<-|[]]] & ? & ?)]]; [|by left|right; eauto|congruence].
      intros [->|(r' & ? & ?)]; [by left|right; exists r'; tauto].
    + intros n ts Hin c. rewrite (Htypes n ts Hin c). unfold has_type. setoid_rewrite in_app_iff. simpl. split.
      * intros (t & [?|(r' & ? & ?)] & ?); exists t; (split; [|done]); [by left|right; exists r'; tauto].
      * intros (t & [?|(r' & [?|[<-|[]]] & ? & ? & ?)] & ?); [..|congruence];
          exists t; (split; [|done]); [by left|right; exists r'; tauto].
Qed.

Definition chain_sorted (chain : list Owner) : Prop :=
  StronglySorted (fun a b => cle key_cmp (o_key a) (o_key b) = true) chain.

Lemma build_chain_sorted (recs : list (DnsRecord V)) apex : chain_sorted (build_chain u16_from recs apex).
Proof.
  apply sort_by_sorted; [intros a b; apply (cle_total key_cmp)|intros a b c; apply (cle_trans key_cmp)].
Qed.

Lemma build_chain_In recs apex o : In o (build_chain u16_from recs apex) ->
  zone_name_in recs (normalize_name apex) (o_name o) /\ o_key o = canonical_key (o_name o) /\
  forall c, In c (o_types o) <-> exists t, (t = HRRSIG \/ t = HNSEC \/ has_type [HSOA; HDNSKEY] recs (normalize_name apex) (o_name o) t) /\ c = u16_from t.
Proof.
  destruct (by_name_spec [HSOA; HDNSKEY] recs (normalize_name apex)) as (_ & Hk & Ht). unfold build_chain. rewrite sort_by_perm.
  intros ([n ts] & <- & Hin)%in_map_iff. simpl. split_and!; [|done|].
  - apply Hk, in_map_iff. by exists (n, ts).
  - intros c. unfold add_type. rewrite !set_insert_In, (Ht n ts Hin). split.
    + intros [->|[->|(t & Hh & ->)]]; [exists HNSEC|exists HRRSIG|exists t]; auto.
    + intros (t & [->|[->|Hh]] & ->); [auto..|]. right. right. eauto.
Qed.

Lemma build_chain_complete recs apex n : zone_name_in recs (normalize_name apex) n ->
  exists o, In o (build_chain u16_from recs apex) /\ o_name o = n.
Proof.
  destruct (by_name_spec [HSOA; HDNSKEY] recs (normalize_name apex)) as (_ & Hk & _).
  intros ([n' ts] & E & Hin)%Hk%in_map_iff. simpl in E. subst n'. unfold build_chain. eexists. split.
  - rewrite sort_by_perm. apply in_map_iff. by exists (n, ts).
  - done.
Qed.

(** ** Covering *)

Lemma covering_from_spec target os : forall i f, exists k, (k <= length os)%nat /\
  (forall j o, os !! j = Some o -> (j < k)%nat -> clt key_cmp (o_key o) target = true) /\
  (forall o, os !! k = Some o -> clt key_cmp (o_key o) target = false) /\
  covering_from os target i f = match k with O => f | S k' => Some (i + k')%nat end.
Proof.
  induction os as [|o os IH]; intros i f; cbn [covering_from].
  - exists 0%nat. split_and!; [done|intros; lia|done|done].
  - destruct (clt key_cmp (o_key o) target) eqn:E.
    + destruct (IH (S i) (Some i)) as (k & Hk & H1 & H2 & ->). exists (S k). split_and!; [simpl; lia| |done|].
      * intros [|j] o' Hj Hlt; simpl in Hj; [by injection Hj as <-|]. apply (H1 j); [done|lia].
      * destruct k; f_equal; lia.
    + exists 0%nat. split_and!; [lia|intros; lia|by intros o' [= <-]|done].
Qed.

(** Owner [o], followed by [n] in the chain, brackets the key [k]: no owner
    has a key strictly between, and the last owner points back to the first. *)
Definition brackets (chain : list Owner) (k : list bytes) (o n : Owner) : Prop :=
  exists i, chain !! i = Some o /\ chain !! ((i + 1) mod length chain)%nat = Some n /\
    clt key_cmp (o_key o) k = true /\
    ((S i < length chain)%nat -> clt key_cmp k (o_key n) = true) /\
    (forall o', In o' chain -> clt key_cmp (o_key o) (o_key o') = true ->
       (S i < length chain)%nat /\ cle key_cmp (o_key n) (o_key o') = true).

Lemma covering_spec chain k : chain_sorted chain -> (forall o, In o chain -> o_key o <> k) ->
  (exists o, In o chain /\ clt key_cmp (o_key o) k = true) ->
  exists i o n, covering_index chain k = Some i /\ chain !! i = Some o /\
    chain !! ((i + 1) mod length chain)%nat = Some n /\ brackets chain k o n.
Proof.
  intros Hs Hk (o0 & Hin0 & Hlt0). unfold covering_index.
  destruct (covering_from_spec k chain 0 None) as (m & Hm & H1 & H2 & ->).
  assert (forall i j a b, chain !! i = Some a -> chain !! j = Some b -> (i <= j)%nat ->
    cle key_cmp (o_key a) (o_key b) = true) as Hle.
  { intros i j a b Ha Hb Hij. destruct (decide (i = j)) as [->|];
      [assert (a = b) as -> by congruence; apply (cle_cases key_cmp); by right|].
    apply (StronglySorted_lookup_lt _ chain i j a b Hs Ha Hb). lia. }
  apply list_elem_of_In, list_elem_of_lookup in Hin0 as [j0 Hj0]. destruct m as [|i].
  { exfalso. destruct chain as [|o1 chain]; [done|]. pose proof (H2 o1 eq_refl) as E.
    apply clt_not_cle in E; [|apply _]. pose proof (Hle 0%nat j0 o1 o0 eq_refl Hj0 ltac:(lia)) as E2.
    pose proof (cle_clt_trans key_cmp _ _ _ E2 Hlt0) as E3.
    pose proof (clt_cle_trans key_cmp _ _ _ E3 E) as E4. by rewrite (clt_irrefl key_cmp) in E4. }
  destruct (lookup_lt_is_Some_2 chain i ltac:(lia)) as [o Ho].
  destruct (lookup_lt_is_Some_2 chain ((i + 1) mod length chain)%nat) as [n Hn]; [apply Nat.mod_upper_bound; lia|].
  exists i, o, n. simpl. split_and!; [done|done|done|]. exists i. split_and!; [done|done|apply (H1 i); [done|lia]|..].
  - intros Hi. rewrite Nat.mod_small in Hn by lia. rewrite Nat.add_1_r in Hn.
    pose proof (H2 n Hn) as E. apply clt_not_cle in E; [|apply _]. apply (cle_cases key_cmp) in E as [E|E]; [done|].
    exfalso. apply (Hk n); [|done]. eapply list_elem_of_In, list_elem_of_lookup_2, Hn.
  - intros o' Hin' Hlt'. apply list_elem_of_In, list_elem_of_lookup in Hin' as [j Hj].
    assert (i < j)%nat as Hij.
    { destruct (decide (i < j)%nat) as [|Hge]; [done|]. exfalso.
      pose proof (Hle j i o' o Hj Ho ltac:(lia)) as E. pose proof (clt_cle_trans key_cmp _ _ _ Hlt' E) as E2.
      by rewrite (clt_irrefl key_cmp) in E2. }
    apply lookup_lt_Some in Hj as Hjl. split; [lia|]. rewrite Nat.mod_small in Hn by lia.
    apply (Hle (i + 1)%nat j n o' Hn Hj). lia.
Qed.
End chain_facts.

(** ** The proof sent *)

Section nsec_facts.
Context {V Name : Type}.
Context (name_from_str : string -> option Name).
Context (u16_from : HRt -> Z) (HRt_from : Z -> HRt).

Lemma dedup_In (l : list nat) x : In x (dedup_by Nat.eqb l) <-> In x l.
Proof.
  induction l as [|a l IH]; simpl; [done|]. rewrite <-IH. destruct (dedup_by Nat.eqb l) as [|y r]; simpl; [tauto|].
  destruct (Nat.eqb_spec a y) as [->|]; simpl; tauto.
Qed.

Lemma sort_indices_In l x : In x (sort_indices l) <-> In x l.
Proof. unfold sort_indices. by rewrite dedup_In, sort_by_perm. Qed.

Lemma ofilter_map_spec {A B} (f : A -> outcome (option B)) l : (forall a, In a l -> exists o, f a = Ret o) ->
  exists bs, ofilter_map f l = Ret bs /\ forall b, In b bs <-> exists a, In a l /\ f a = Ret (Some b).
Proof.
  induction l as [|a l IH]; intros H; simpl; [exists []; simpl; naive_solver|].
  destruct (H a (or_introl eq_refl)) as [o Ho]. destruct IH as (bs & -> & Hbs); [intros a' ?; apply H; by right|]. rewrite Ho. simpl.
  eexists. split; [done|]. intros b. destruct o as [b0|]; simpl; rewrite Hbs; split.
  - intros [->|(a' & ? & ?)]; eauto.
  - intros (a' & [<-|?] & E); [rewrite Ho in E; injection E as ->; by left|right; eauto].
  - intros (a' & ? & ?); eauto.
  - intros (a' & [<-|?] & E); [congruence|eauto].
Qed.

Definition chain_of (zd : ZoneData V) : list Owner := build_chain u16_from (zd_records zd) (zone_name (zd_zone zd)).

(** The NSEC record of [o] in the chain: its names and its type bitmap. *)
Definition nsec_of (zd : ZoneData V) (ttl : Z) (o n : Owner) (rr : NsecRR Name) : Prop :=
  name_from_str (o_name o) = Some (rr_owner rr) /\ name_from_str (o_name n) = Some (rr_next rr) /\
  rr_ttl rr = ttl /\
  forall t, In t (rr_types rr) <-> t = HRRSIG \/ t = HNSEC \/ has_type [HSOA; HDNSKEY] (zd_records zd) (apex_of zd) (o_name o) t.

Section proofs.
Context (zd : ZoneData V) (ttl : Z).
Hypothesis code_round : forall t, HRt_from (u16_from t) = t.
Hypothesis chain_names : forall o, In o (chain_of zd) ->
  name_ok (o_name o) /\ exists n, name_from_str (o_name o) = Some n.

Lemma nsec_at_ok i o n : chain_of zd !! i = Some o -> chain_of zd !! ((i + 1) mod length (chain_of zd))%nat = Some n ->
  exists rr, nsec_at name_from_str HRt_from (chain_of zd) ttl i = Ret (Some rr) /\ nsec_of zd ttl o n rr.
Proof.
  intros Ho Hn. unfold nsec_at, idx. rewrite Ho. simpl. rewrite Hn. simpl. unfold nsec_record.
  assert (In o (chain_of zd)) as Hino by by eapply list_elem_of_In, list_elem_of_lookup_2.
  destruct (chain_names o Hino) as [_ [no Eo]].
  destruct (chain_names n) as [_ [nn En]]; [by eapply list_elem_of_In, list_elem_of_lookup_2|].
  rewrite Eo, En. eexists. split; [done|]. split_and!; try done. simpl. intros t. rewrite in_map_iff.
  destruct (build_chain_In _ _ _ _ Hino) as (_ & _ & Ht). setoid_rewrite Ht. split.
  - intros (c & <- & t' & Ht' & ->). by rewrite code_round.
  - intros Ht'. exists (u16_from t). split; [apply code_round|eauto].
Qed.

Lemma nsec_at_total i : (i < length (chain_of zd))%nat ->
  exists o, nsec_at name_from_str HRt_from (chain_of zd) ttl i = Ret o.
Proof.
  intros Hi. destruct (lookup_lt_is_Some_2 (chain_of zd) i Hi) as [o Ho].
  destruct (lookup_lt_is_Some_2 (chain_of zd) ((i + 1) mod length (chain_of zd))%nat) as [n Hn];
    [apply Nat.mod_upper_bound; lia|].
  destruct (nsec_at_ok i o n Ho Hn) as (rr & E & _). eauto.
Qed.

Lemma covering_proof k : name_ok (apex_of zd) -> (forall o, In o (chain_of zd) -> o_key o <> k) ->
  clt key_cmp (canonical_key (apex_of zd)) k = true ->
  exists i o n rr, covering_index (chain_of zd) k = Some i /\ (i < length (chain_of zd))%nat /\
    nsec_at name_from_str HRt_from (chain_of zd) ttl i = Ret (Some rr) /\
    brackets (chain_of zd) k o n /\ nsec_of zd ttl o n rr.
Proof.
  intros Hap Hk Hlt. destruct (build_chain_complete u16_from (zd_records zd) (zone_name (zd_zone zd)) (apex_of zd)) as (oa & Hina & Ea);
    [by left|]. destruct (build_chain_In _ _ _ _ Hina) as (_ & Eka & _).
  destruct (covering_spec (chain_of zd) k) as (i & o & n & Hi & Ho & Hn & Hb);
    [apply build_chain_sorted|done|exists oa; split; [done|by rewrite Eka, Ea]|].
  destruct (nsec_at_ok i o n Ho Hn) as (rr & Hrr & Hof). exists i, o, n, rr.
  split_and!; try done. by eapply lookup_lt_Some.
Qed.

Lemma absent_key q : name_ok q -> absent zd q -> forall o, In o (chain_of zd) -> o_key o <> canonical_key q.
Proof.
  intros Hq [Hap Habs] o Hin E. destruct (build_chain_In _ _ _ _ Hin) as (Hzone & Ek & _).
  rewrite Ek in E. apply canonical_key_inj in E; [|by apply chain_names|done]. rewrite E in Hzone.
  destruct Hzone as [->|(r & Hr & He & Hn)]; [done|]. by apply (Habs r Hr He).
Qed.

Lemma absent_wildcard_key q e : name_ok e -> absent zd q -> below q e -> at_or_below e (apex_of zd) ->
  forall o, In o (chain_of zd) -> o_key o <> canonical_key ("*." +:+ e).
Proof.
  intros He [_ Habs] Hb Hap o Hin E. destruct (build_chain_In _ _ _ _ Hin) as (Hzone & Ek & _).
  rewrite Ek in E. apply canonical_key_inj in E; [|by apply chain_names|by apply name_ok_wildcard]. rewrite E in Hzone.
  destruct Hzone as [Ea|(r & Hr & Hen & Hn)].
  - apply at_or_below_length in Hap. unfold apex_of in Hap. rewrite <-Ea in Hap. simpl in Hap. lia.
  - destruct (Habs r Hr Hen) as [_ Hw]. by apply (Hw e).
Qed.

Lemma canonical_key_normalize s : name_ok (normalize_name s) -> canonical_key s = canonical_key (normalize_name s).
Proof. intros H. unfold canonical_key. by rewrite (name_ok_normalize _ H). Qed.

(** C25: denial with NSEC.  For a normal name below the apex that the zone does not
    have, the records sent for NXDOMAIN include one that brackets the name in
    the canonical chain and one that brackets the wildcard at the closest owner name
    above it, so neither can be an owner; for a name the zone has, the one record
    sent for NODATA is owned by the name and its bitmap lists exactly the types
    the zone has there.  Nothing panics and the encloser search ends. *)
Theorem nsec_denial_proof q_raw :
  let q := normalize_name q_raw in
  let denial := denial_records name_from_str u16_from HRt_from (zd_records zd) (zone_name (zd_zone zd)) ttl q_raw in
  name_ok q ->
  (below q (apex_of zd) -> absent zd q ->
   exists rrs e, denial DNxDomain = Ret rrs /\
     below q e /\ In e (map o_name (chain_of zd)) /\
     (forall a, below q a -> In a (map o_name (chain_of zd)) -> at_or_below e a) /\
     forall k, k = canonical_key q \/ k = canonical_key ("*." +:+ e) ->
       exists o n rr, In rr rrs /\ nsec_of zd ttl o n rr /\ brackets (chain_of zd) k o n) /\
  (zone_name_in (zd_records zd) (apex_of zd) q ->
   exists o n rr, denial DNoData = Ret [rr] /\ nsec_of zd ttl o n rr /\ In o (chain_of zd) /\ o_name o = q).
Proof.
  intros q denial Hq. unfold denial, denial_records. fold (chain_of zd).
  assert (exists oa, In oa (chain_of zd) /\ o_name oa = apex_of zd) as (oa & Hina & Ea)
    by (apply build_chain_complete; by left).
  assert (forall X (x y : X), match chain_of zd with [] => x | _ :: _ => y end = y) as Hne
    by (clear -Hina; intros; by destruct (chain_of zd)).
  rewrite !Hne. clear denial.
  rewrite canonical_key_normalize by done. fold q. split.
  - intros Hb Habs. pose proof (name_ok_below _ _ Hq Hb) as Hap.
    unfold closest_encloser. fold q. fold (apex_of zd).
    destruct (encloser_walk_spec (map o_name (chain_of zd)) (apex_of zd) (S (String.length q)) q Hb ltac:(lia))
      as (e & -> & Hqe & Hea & Hin & Hmax).
    pose proof (name_ok_below _ _ Hq Hqe) as He. pose proof (name_ok_wildcard e He) as Hw.
    destruct (covering_proof (canonical_key q) Hap (absent_key q Hq Habs)) as (i & o & n & rr & Hi & Hil & Hrr & Hbr & Hof);
      [by apply key_below|].
    destruct (covering_proof (canonical_key ("*." +:+ e)) Hap (absent_wildcard_key q e He Habs Hqe Hea))
      as (i' & o' & n' & rr' & Hi' & Hil' & Hrr' & Hbr' & Hof').
    { apply key_below; [done..|]. destruct Hea as [->|[p ->]]; [by exists "*"|].
      exists ("*." +:+ p). by rewrite !str_app_assoc. }
    cbn [obind]. rewrite Hi, Hi'. cbn [opt_list app].
    destruct (ofilter_map_spec (nsec_at name_from_str HRt_from (chain_of zd) ttl) (sort_indices [i; i'])) as (rrs & -> & Hrrs).
    { intros j [<-|[<-|[]]]%sort_indices_In; by apply nsec_at_total. }
    exists rrs, e. split_and!; try done.
    + destruct Hin as [->|?]; [|done]. apply in_map_iff. eauto.
    + intros k [-> | ->]; [exists o, n, rr|exists o', n', rr']; (split; [|done]); apply Hrrs;
        [exists i|exists i']; (split; [apply sort_indices_In; simpl; auto|done]).
  - intros Hz. destruct (build_chain_complete u16_from _ _ _ Hz) as (oq & Hinq & Eq).
    destruct (build_chain_In _ _ _ _ Hinq) as (_ & Ekq & _).
    destruct (position (fun o => bool_decide (o_key o = canonical_key q)) (chain_of zd)) as [i|] eqn:Ep.
    + apply position_Some in Ep as (o & Ho & Ek & _). to_prop.
      assert (In o (chain_of zd)) as Hino by by eapply list_elem_of_In, list_elem_of_lookup_2.
      destruct (build_chain_In _ _ _ _ Hino) as (_ & Eko & _).
      assert (i < length (chain_of zd))%nat as Hlt by by eapply lookup_lt_Some.
      destruct (lookup_lt_is_Some_2 (chain_of zd) ((i + 1) mod length (chain_of zd))%nat) as [n Hn];
        [apply Nat.mod_upper_bound; lia|].
      destruct (nsec_at_ok i o n Ho Hn) as (rr & Hrr & Hof). exists o, n, rr. cbn [obind].
      split_and!; [|done|done|apply canonical_key_inj; [by apply chain_names|done|congruence]].
      unfold sort_indices. simpl. rewrite Hrr. done.
    + exfalso. apply (position_None _ _ Ep oq) in Hinq. apply bool_decide_eq_false in Hinq. congruence.
Qed.
End proofs.
End nsec_facts.

(** ** A zone *)

(** The assigned numbers of the types. *)
Definition iana_code (t : HRt) : Z :=
  match t with
  | HA => 1 | HNS => 2 | HCNAME => 5 | HSOA => 6 | HPTR => 12 | HMX => 15 | HTXT => 16 | HAAAA => 28
  | HSRV => 33 | HRRSIG => 46 | HNSEC => 47 | HDNSKEY => 48 | HNSEC3PARAM => 51 | HCAA => 257
  end.
Definition iana_type (c : Z) : HRt :=
  unwrap_or HA (find (fun t => iana_code t =? c)
    [HA; HNS; HCNAME; HSOA; HPTR; HMX; HTXT; HAAAA; HSRV; HRRSIG; HNSEC; HDNSKEY; HNSEC3PARAM; HCAA]).

Definition denied_zone : ZoneData json_value :=
  mkZoneData (sample_zone "Example.com.")
    [sample_record "z.example.com" A "address" "192.0.2.1";
     sample_record "A.example.com" A "address" "192.0.2.2";
     sample_record "foo.ent.example.com" Txt "text" "x"].

Lemma nsec_denial_proof_witness :
  (exists rrs e, denial_records Some iana_code iana_type (zd_records denied_zone) (zone_name (zd_zone denied_zone)) 60 "m.example.com" DNxDomain = Ret rrs /\
     length rrs = 2%nat /\ below "m.example.com" e /\ In e (map o_name (chain_of iana_code denied_zone))) /\
  (exists o n rr, denial_records Some iana_code iana_type (zd_records denied_zone) (zone_name (zd_zone denied_zone)) 60 "a.example.com" DNoData = Ret [rr] /\
     nsec_of Some denied_zone 60 o n rr).
Proof.
  assert (forall o, In o (chain_of iana_code denied_zone) ->
    name_ok (o_name o) /\ exists n, Some (o_name o) = Some n) as Hn.
  { intros o Hin. vm_compute in Hin. repeat (destruct Hin as [<-|Hin]); try done; (split; [by vm_compute|by eexists]). }
  assert (forall t, iana_type (iana_code t) = t) as Hc by by intros [].
  split.
  - destruct (nsec_denial_proof Some iana_code iana_type denied_zone 60 Hc Hn "m.example.com") as [H _]; [by vm_compute|].
    destruct H as (rrs & e & E & Hb & Hin & _).
    + by exists "m"%string.
    + split; [done|]. intros r Hr _. simpl in Hr.
      repeat (destruct Hr as [<-|Hr]); try done; (split; [done|intros base (_ & Hw & _); done]).
    + exists rrs, e. split; [exact E|]. split; [|split; [exact Hb|exact Hin]]. vm_compute in E. by injection E as <-.
  - destruct (nsec_denial_proof Some iana_code iana_type denied_zone 60 Hc Hn "a.example.com") as [_ H]; [by vm_compute|].
    destruct H as (o & n & rr & E & Hof & _); [|exists o, n, rr; split; [exact E|exact Hof]].
    right. exists (sample_record "A.example.com" A "address" "192.0.2.2"). simpl. auto.
Defined.

(** Below an empty non-terminal the encloser found is too high: the denial of
    [x.ent.example.com] brackets the name and [*.example.com], but the owner that
    brackets [*.ent.example.com], [a.example.com], is not in the answer. *)
Example wildcard_below_empty_nonterminal_not_denied :
  (exists rrs, denial_records Some iana_code iana_type (zd_records denied_zone) "example.com" 60 "x.ent.example.com" DNxDomain
     = Ret rrs /\ map rr_owner rrs = ["example.com"; "foo.ent.example.com"]%string) /\
  covering_index (chain_of iana_code denied_zone) (canonical_key "*.ent.example.com") = Some 1%nat /\
  (o_name <$> (chain_of iana_code denied_zone !! 1%nat)) = Some "a.example.com"%string.
Proof. split_and!; [eexists; split; by vm_compute|by vm_compute..]. Qed.
