(* ===== verification/Nsec3.v ===== *)
(** * Denial of existence with NSEC3

    [magnetite-dns/src/nsec3.rs]: the chain of the hashed owner names of a zone,
    empty non-terminals included, and the closest-encloser proof of a negative
    answer.  The iterated hash, base32 and the domain names are those of the
    [hickory] and [data-encoding] libraries. *)

From S2P Require Import Prelude Bytes RustStr RustNet Dns Nsec.

Open Scope outcome_scope.

Record Node := mkNode {
  n_name : string;
  n_hash : bytes;
  n_types : list Z;
}.

(** A [BTreeSet] of names. *)
Definition name_set := list (string * unit).
Definition name_insert (s : string) (m : name_set) : name_set := entry_update () s id m.

(** The [while let] loop that inserts the names between [n] and the apex; each turn
    shortens [n]. *)
Fixpoint insert_ancestors (fuel : nat) (apex n : string) (names : name_set) : name_set :=
  match fuel with
  | O => names
  | S fuel' =>
      match split_once "." n with
      | Some (_, rest) => if String.eqb rest apex then names
                          else insert_ancestors fuel' apex rest (name_insert rest names)
      | None => names
      end
  end.

(** The names of the chain: the real ones and the ancestors of each. *)
Definition chain_names (apex : string) (real : list string) : name_set :=
  fold_left
    (fun names name => if String.eqb name apex then names
                       else insert_ancestors (S (String.length name)) apex name names)
    real
    (fold_left (fun names name => name_insert name names) real []).

Definition next_closer (qname ce : string) : option string :=
  let qname := normalize_name qname in
  let ce := normalize_name ce in
  match strip_suffix ("." +:+ ce) qname with
  | None => None
  | Some prefix => (fun label => label +:+ "." +:+ ce) <$> last (split "." prefix)
  end.

Section nsec3.
Context {V Name : Type}.
Context (name_from_str : string -> option Name).
Context (u16_from : HRt -> Z) (HRt_from : Z -> HRt).
Context (nsec3_hash : string -> option bytes).
Context (base32 : bytes -> string).

Record Nsec3RR := mkNsec3RR {
  rr3_owner : Name;
  rr3_ttl : Z;
  rr3_next : bytes;
  rr3_types : list HRt;
}.

Definition real_names (zone_records : list (DnsRecord V)) (apex : string) : list (string * list Z) :=
  map (fun nt => (nt.1, add_type u16_from HRRSIG nt.2))
    (by_name u16_from [HSOA; HDNSKEY; HNSEC3PARAM] zone_records apex).

Definition build_chain (zone_records : list (DnsRecord V)) (apex : string) : list Node :=
  let apex := normalize_name apex in
  let real := real_names zone_records apex in
  sort_by (fun a b => cle bytes_cmp (n_hash a) (n_hash b))
    (filter_map
       (fun name =>
          match nsec3_hash name with
          | None => None
          | Some hash =>
              Some (mkNode name hash (unwrap_or [] (snd <$> find (fun nt => String.eqb nt.1 name) real)))
          end)
       (chain_names apex real.*1).*1).

Definition match_index (chain : list Node) (name : string) : option nat :=
  match nsec3_hash name with
  | None => None
  | Some target => position (fun n => bool_decide (n_hash n = target)) chain
  end.

(** The arc from [owner] to [next], which wraps around when they are not in
    order. *)
Definition arc_covers (owner next target : bytes) : bool :=
  if clt bytes_cmp owner next then clt bytes_cmp owner target && clt bytes_cmp target next
  else clt bytes_cmp owner target || clt bytes_cmp target next.

(** The test at index [i] of the loop, which is below the length. *)
Definition covers_at (chain : list Node) (target : bytes) (i : nat) : bool :=
  match chain !! i, chain !! ((i + 1) mod length chain)%nat with
  | Some o, Some n => arc_covers (n_hash o) (n_hash n) target
  | _, _ => false
  end.

Definition cover_index (chain : list Node) (name : string) : option nat :=
  match nsec3_hash name with
  | None => None
  | Some target => find (covers_at chain target) (seq 0 (length chain))
  end.

Definition nsec3_record (chain : list Node) (i : nat) (apex : string) (ttl : Z) : outcome (option Nsec3RR) :=
  let! node := idx chain i in
  match name_from_str (base32 (n_hash node) +:+ "." +:+ apex) with
  | None => Ret None
  | Some owner =>
      let! next := idx chain ((i + 1) mod length chain)%nat in
      Ret (Some (mkNsec3RR owner ttl (n_hash next) (map HRt_from (n_types node))))
  end.

Definition denial_records (zone_records : list (DnsRecord V)) (apex : string) (ttl : Z) (qname : string)
    (kind : Denial) : outcome (list Nsec3RR) :=
  let chain := build_chain zone_records apex in
  match chain with
  | [] => Ret []
  | _ =>
      let! indices :=
        match kind with
        | DNoData => Ret (opt_list (match match_index chain qname with
                                    | Some i => Some i
                                    | None => cover_index chain qname
                                    end))
        | DNxDomain =>
            let! encloser := closest_encloser (map n_name chain) qname apex in
            Ret (opt_list (match_index chain encloser)
                 ++ match next_closer qname encloser with
                    | Some next => opt_list (cover_index chain next)
                    | None => []
                    end
                 ++ opt_list (cover_index chain ("*." +:+ encloser)))
        end in
      ofilter_map (fun i => nsec3_record chain i apex ttl) (sort_indices indices)
  end.
End nsec3.
Arguments Nsec3RR : clear implicits.

(** ** The names of the chain *)

Lemma name_insert_keys s m x : In x (name_insert s m).*1 <-> x = s \/ In x m.*1.
Proof. apply entry_update_keys. Qed.

(** A proper ancestor of [n] below the apex. *)
Definition between (apex n a : string) : Prop := below n a /\ below a apex.

Lemma insert_ancestors_spec apex fuel : forall n names, below n apex -> (String.length n < fuel)%nat ->
  forall x, In x (insert_ancestors fuel apex n names).*1 <-> In x names.*1 \/ between apex n x.
Proof.
  induction fuel as [|fuel IH]; intros n names Hb Hlen x; [lia|]. cbn [insert_ancestors].
  destruct (split_once "." n) as [[l rest]|] eqn:E.
  2:{ exfalso. destruct Hb as [p ->]. by apply split_once_None in E; rewrite contains_dot in E. }
  apply split_once_Some in E as [-> Hl]. change (String "." rest) with ("." +:+ rest) in *.
  assert (below (l +:+ "." +:+ rest) rest) as Hrest by by exists l.
  destruct (String.eqb_spec rest apex) as [->|Hne].
  - split; [by left|]. intros [?|[H1 H2]]; [done|]. exfalso.
    apply below_step in H1 as [<-|H1]; [by apply below_irrefl in H2| |done].
    pose proof (below_length _ _ H1). pose proof (below_length _ _ H2). lia.
  - apply below_step in Hb as [?|Hb]; [done| |done]. rewrite IH, name_insert_keys; [|done|].
    2:{ rewrite !str_length_app in Hlen. simpl in Hlen. lia. }
    unfold between. split.
    + intros [[->|?]|[H1 H2]]; [by right|by left|]. right. split; [|done].
      destruct H1 as [p ->]. exists (l +:+ "." +:+ p). by rewrite !str_app_assoc.
    + intros [?|[H1 H2]]; [left; by right|]. apply below_step in H1 as [<-|H1]; [left; by left|by right|done].
Qed.

Lemma chain_names_spec apex real : (forall n, In n real -> at_or_below n apex) ->
  forall x, In x (chain_names apex real).*1 <-> In x real \/ exists n, In n real /\ between apex n x.
Proof.
  intros Hreal. unfold chain_names.
  assert (forall l (m : name_set) x, In x (fold_left (fun names name => name_insert name names) l m).*1 <-> In x l \/ In x m.*1) as H0.
  { induction l as [|n l IH]; intros m x; [simpl; tauto|]. cbn [fold_left]. rewrite IH, name_insert_keys. simpl.
    split; [intros [?|[->|?]]; auto|intros [[->|?]|?]; auto]. }
  assert (forall l (m : name_set), (forall n, In n l -> at_or_below n apex) -> forall x,
    In x (fold_left (fun names name => if String.eqb name apex then names
       else insert_ancestors (S (String.length name)) apex name names) l m).*1 <->
    In x m.*1 \/ exists n, In n l /\ between apex n x) as H1.
  { induction l as [|n l IH]; intros m Hl x; [simpl; naive_solver|]. cbn [fold_left].
    rewrite IH by (intros; apply Hl; by right). destruct (String.eqb_spec n apex) as [->|Hne].
    - split; [intros [?|(n & ? & ?)]; [by left|right; exists n; simpl; auto]|].
      intros [?|(n & [<-|?] & Hbt)]; [by left| |right; eauto]. exfalso. destruct Hbt as [H1 H2].
      pose proof (below_length _ _ H1). pose proof (below_length _ _ H2). lia.
    - rewrite insert_ancestors_spec; [|destruct (Hl n (or_introl eq_refl)); [done|done]|lia]. split.
      + intros [[?|?]|(n' & ? & ?)]; [by left|right; exists n; simpl; auto|right; exists n'; simpl; auto].
      + intros [?|(n' & [<-|?] & ?)]; [left; by left|left; by right|right; eauto]. }
  intros x. rewrite H1, H0 by done. simpl. naive_solver.
Qed.

Lemma insert_ancestors_ordered apex fuel : forall n m, map_ordered m -> map_ordered (insert_ancestors fuel apex n m).
Proof.
  induction fuel as [|fuel IH]; intros n m Hm; cbn [insert_ancestors]; [done|].
  destruct (split_once "." n) as [[l rest]|]; [|done]. destruct (String.eqb rest apex); [done|].
  by apply IH, entry_update_ordered.
Qed.

Lemma chain_names_ordered apex real : map_ordered (chain_names apex real).
Proof.
  unfold chain_names.
  assert (forall l m, map_ordered m -> map_ordered (fold_left (fun names name => name_insert name names) l m)) as H0.
  { induction l as [|n l IH]; intros m Hm; [done|]. by apply IH, entry_update_ordered. }
  assert (map_ordered (fold_left (fun names name => name_insert name names) real [])) as Hm by (apply H0; constructor).
  revert Hm. generalize (fold_left (fun names name => name_insert name names) real []). clear H0.
  generalize real at 1. induction real0 as [|n l IH]; intros m Hm; [done|]. cbn [fold_left]. apply IH.
  destruct (String.eqb n apex); [done|]. by apply insert_ancestors_ordered.
Qed.

Lemma ordered_NoDup {A} (m : list (string * A)) : map_ordered m -> NoDup m.*1.
Proof.
  unfold map_ordered. induction 1 as [|x l H IH HF]; [constructor|]. constructor; [|done].
  intros Hin. apply (proj1 (Forall_forall _ _) HF) in Hin. by rewrite str_lt_irrefl in Hin.
Qed.

(** ** Covering a hash *)

Definition hash_sorted (chain : list Node) : Prop :=
  StronglySorted (fun a b => cle bytes_cmp (n_hash a) (n_hash b) = true) chain /\ NoDup (map n_hash chain).

Lemma boundary {A} (f : A -> bool) l : exists k, (k <= length l)%nat /\
  (forall j a, l !! j = Some a -> (j < k)%nat -> f a = true) /\ (forall a, l !! k = Some a -> f a = false).
Proof.
  induction l as [|x l (k & Hk & H1 & H2)]; [exists 0%nat; simpl; split_and!; [done|intros; lia|done]|].
  destruct (f x) eqn:E.
  - exists (S k). split_and!; [simpl; lia| |done]. intros [|j] a; simpl; [by intros [= <-]|]. intros Hj ?. apply (H1 j); [done|lia].
  - exists 0%nat. split_and!; [lia|intros; lia|by intros a [= <-]].
Qed.

Section arcs.
Context (chain : list Node) (Hs : hash_sorted chain).

Lemma hash_le i j a b : chain !! i = Some a -> chain !! j = Some b -> (i <= j)%nat ->
  cle bytes_cmp (n_hash a) (n_hash b) = true.
Proof.
  intros Ha Hb Hij. destruct (decide (i = j)) as [->|];
    [assert (a = b) as -> by congruence; apply (cle_cases bytes_cmp); by right|].
  apply (StronglySorted_lookup_lt _ chain i j a b (proj1 Hs) Ha Hb). lia.
Qed.

Lemma hash_lt i j a b : chain !! i = Some a -> chain !! j = Some b -> (i < j)%nat ->
  clt bytes_cmp (n_hash a) (n_hash b) = true.
Proof.
  intros Ha Hb Hij. pose proof (hash_le i j a b Ha Hb ltac:(lia)) as H. apply (cle_cases bytes_cmp) in H as [|E]; [done|].
  exfalso. assert (i = j) as ->; [|lia]. eapply (NoDup_lookup _ i j (n_hash a) (proj2 Hs)).
  - change (map n_hash chain) with (n_hash <$> chain). by rewrite list_lookup_fmap, Ha.
  - change (map n_hash chain) with (n_hash <$> chain). by rewrite list_lookup_fmap, Hb, E.
Qed.

(** The node after index [i]. *)
Lemma next_index i : (i < length chain)%nat ->
  ((i + 1) mod length chain = S i /\ (S i < length chain)%nat \/ (i + 1) mod length chain = 0 /\ S i = length chain)%nat.
Proof.
  intros Hi. destruct (decide (S i = length chain)) as [E|]; [right|left].
  - split; [|done]. rewrite Nat.add_1_r, E. apply Nat.Div0.mod_same.
  - rewrite Nat.mod_small by lia. lia.
Qed.

Lemma cover_exists h : chain <> [] -> (forall m, In m chain -> n_hash m <> h) ->
  exists i, find (covers_at chain h) (seq 0 (length chain)) = Some i /\ (i < length chain)%nat /\ covers_at chain h i = true.
Proof.
  intros Hne Hh. assert (exists i, (i < length chain)%nat /\ covers_at chain h i = true) as (i & Hi & Hc).
  2:{ destruct (find (covers_at chain h) (seq 0 (length chain))) as [j|] eqn:E.
      - apply find_some in E as [Hin Hj]. apply in_seq in Hin. exists j. split_and!; [done|lia|done].
      - pose proof (find_none _ _ E i ltac:(apply in_seq; lia)). congruence. }
  assert (0 < length chain)%nat as Hlen by (destruct chain; simpl; [done|lia]).
  destruct (boundary (fun m => clt bytes_cmp (n_hash m) h) chain) as (k & Hk & H1 & H2).
  destruct (lookup_lt_is_Some_2 chain 0 Hlen) as [a Ha].
  destruct (lookup_lt_is_Some_2 chain (length chain - 1) ltac:(lia)) as [z Hz].
  assert (clt bytes_cmp (n_hash z) (n_hash a) = false) as Hza
    by (apply clt_not_cle; [apply _|]; eapply hash_le; eauto; lia).
  assert (forall m, In m chain -> clt bytes_cmp (n_hash m) h = false -> clt bytes_cmp h (n_hash m) = true) as Hgt.
  { intros m Hm E. apply clt_not_cle in E; [|apply _]. apply (cle_cases bytes_cmp) in E as [|E]; [done|].
    by apply Hh in Hm. }
  destruct (decide (0 < k < length chain)%nat) as [Hmid|Hend].
  - exists (k - 1)%nat. split; [lia|]. unfold covers_at.
    destruct (lookup_lt_is_Some_2 chain (k - 1) ltac:(lia)) as [o Ho].
    destruct (lookup_lt_is_Some_2 chain k ltac:(lia)) as [n Hn].
    rewrite Ho, Nat.mod_small by lia. replace (k - 1 + 1)%nat with k by lia. rewrite Hn. unfold arc_covers.
    rewrite (hash_lt (k - 1) k o n Ho Hn ltac:(lia)), (H1 (k - 1)%nat o Ho ltac:(lia)). simpl.
    apply Hgt; [by eapply list_elem_of_In, list_elem_of_lookup_2|by apply H2].
  - exists (length chain - 1)%nat. split; [lia|]. unfold covers_at. rewrite Hz.
    replace (length chain - 1 + 1)%nat with (length chain) by lia. rewrite Nat.Div0.mod_same, Ha. unfold arc_covers. rewrite Hza.
    apply orb_true_iff. destruct (decide (k = 0)%nat) as [->|].
    + right. apply Hgt; [by eapply list_elem_of_In, list_elem_of_lookup_2|by apply H2].
    + left. apply (H1 (length chain - 1)%nat z Hz). lia.
Qed.

Lemma arc_empty i o n : chain !! i = Some o -> chain !! ((i + 1) mod length chain)%nat = Some n ->
  forall m, In m chain -> arc_covers (n_hash o) (n_hash n) (n_hash m) = false.
Proof.
  intros Ho Hn m Hm. apply list_elem_of_In, list_elem_of_lookup in Hm as [j Hj].
  apply lookup_lt_Some in Ho as Hi. apply lookup_lt_Some in Hj as Hjl. unfold arc_covers.
  destruct (next_index i Hi) as [[E Hl]|[E Hl]]; rewrite E in Hn.
  - rewrite (hash_lt i (S i) o n Ho Hn ltac:(lia)). apply andb_false_iff.
    destruct (decide (j <= i)%nat); [left|right]; apply clt_not_cle; try apply _; eapply hash_le; eauto; lia.
  - assert (clt bytes_cmp (n_hash o) (n_hash n) = false) as -> by (apply clt_not_cle; [apply _|]; eapply hash_le; eauto; lia).
    apply orb_false_iff. split; apply clt_not_cle; try apply _; eapply hash_le; eauto; lia.
Qed.
End arcs.

(** ** The next closer name *)

Lemma strip_suffix_app p suf : strip_suffix suf (p +:+ suf) = Some p.
Proof.
  induction p as [|c p IH].
  - destruct suf as [|c s]; [done|]. cbn [String.append strip_suffix]. by rewrite String.eqb_refl.
  - change (String c p +:+ suf) with (String c (p +:+ suf)). cbn [strip_suffix]. rewrite IH.
    destruct (String.eqb_spec (String c (p +:+ suf)) suf) as [E|]; [|done].
    apply (f_equal String.length) in E. simpl in E. rewrite str_length_app in E. lia.
Qed.

Lemma join_snoc l w : l <> [] -> join "." (l ++ [w]) = join "." l +:+ "." +:+ w.
Proof.
  induction l as [|x l IH]; [done|]. intros _. destruct l as [|y l]; [done|].
  change (join "." ((x :: y :: l) ++ [w])) with (x +:+ "." +:+ join "." ((y :: l) ++ [w])).
  rewrite IH by done. change (join "." (x :: y :: l)) with (x +:+ "." +:+ join "." (y :: l)).
  by rewrite !str_app_assoc.
Qed.

Lemma last_split p l : last (split "." p) = Some l -> p = l \/ below p l.
Proof.
  intros [ws E]%last_Some. rewrite <-(join_split p), E. destruct ws as [|w ws]; [by left|].
  right. exists (join "." (w :: ws)). by apply join_snoc.
Qed.

Lemma next_closer_spec q e : name_ok q -> below q e ->
  exists label, next_closer q e = Some (label +:+ "." +:+ e) /\ at_or_below q (label +:+ "." +:+ e).
Proof.
  intros Hq Hb. unfold next_closer. rewrite (name_ok_normalize q), (name_ok_normalize e) by eauto using name_ok_below.
  destruct Hb as [p ->]. rewrite strip_suffix_app.
  destruct (last (split "." p)) as [label|] eqn:E; [|apply last_None in E; by apply split_nonempty in E].
  exists label. split; [done|]. destruct (last_split p label E) as [->|[p' ->]]; [by left|right].
  exists p'. by rewrite !str_app_assoc.
Qed.

(** ** The proof sent *)

Lemma NoDup_filter_map {A B C} (f : A -> option B) (g : B -> C) l : NoDup l ->
  (forall a b x y, In a l -> In b l -> f a = Some x -> f b = Some y -> g x = g y -> a = b) ->
  NoDup (map g (filter_map f l)).
Proof.
  induction 1 as [|a l Hn Hl IH]; intros Hinj; simpl; [constructor|].
  assert (NoDup (map g (filter_map f l))) as Hrec by (apply IH; intros; eapply Hinj; eauto; by right).
  destruct (f a) as [x|] eqn:E; [|done]. simpl. constructor; [|done]. intros Hin.
  apply list_elem_of_In, in_map_iff in Hin as (y & Ey & (b & Hb & Eb)%filter_map_In).
  assert (a = b) as <-; [|by apply Hn, list_elem_of_In].
  eapply (Hinj a b x y); [by left|by right|done|done|done].
Qed.

Section nsec3_facts.
Context {V Name : Type}.
Context (name_from_str : string -> option Name).
Context (u16_from : HRt -> Z) (HRt_from : Z -> HRt).
Context (nsec3_hash : string -> option bytes).
Context (base32 : bytes -> string).
Context (zd : ZoneData V) (ttl : Z) (q_raw : string).

Definition apex_types : list HRt := [HSOA; HDNSKEY; HNSEC3PARAM].

(** [x] exists in the zone: it owns records, or is on the way to a name that does. *)
Definition exists_in (x : string) : Prop :=
  zone_name_in (zd_records zd) (apex_of zd) x \/
  exists n, zone_name_in (zd_records zd) (apex_of zd) n /\ between (apex_of zd) n x.

Definition chain3 : list Node := build_chain u16_from nsec3_hash (zd_records zd) (zone_name (zd_zone zd)).

(** The types of a name, none for an empty non-terminal. *)
Definition types3 (x : string) (t : HRt) : Prop :=
  (zone_name_in (zd_records zd) (apex_of zd) x /\ t = HRRSIG) \/
  has_type apex_types (zd_records zd) (apex_of zd) x t.

(** The names whose hashes the proof for [q] uses. *)
Definition involved (x : string) : Prop :=
  exists_in x \/ at_or_below (normalize_name q_raw) x \/
  exists e, below (normalize_name q_raw) e /\ x = "*." +:+ e.

Definition nsec3_of (m : Node) (rr : Nsec3RR Name) : Prop :=
  name_from_str (base32 (n_hash m) +:+ "." +:+ zone_name (zd_zone zd)) = Some (rr3_owner rr) /\
  rr3_ttl rr = ttl /\ forall t, In t (rr3_types rr) <-> types3 (n_name m) t.

Hypothesis code_round : forall t, HRt_from (u16_from t) = t.
Hypothesis records_in_zone : forall r, In r (zd_records zd) -> rec_enabled r = true ->
  at_or_below (normalize_name (rec_name r)) (apex_of zd).
Hypothesis hash_total : forall x, involved x -> exists h, nsec3_hash x = Some h.
Hypothesis hash_inj : forall x y, involved x -> involved y -> nsec3_hash x = nsec3_hash y -> x = y.
Hypothesis owner_parses : forall m, In m chain3 ->
  exists n, name_from_str (base32 (n_hash m) +:+ "." +:+ zone_name (zd_zone zd)) = Some n.

Lemma zone_name_below n : zone_name_in (zd_records zd) (apex_of zd) n -> at_or_below n (apex_of zd).
Proof. intros [->|(r & Hr & He & <-)]; [by left|by apply records_in_zone]. Qed.

Lemma real_keys : (real_names u16_from (zd_records zd) (apex_of zd)).*1 =
  (by_name u16_from apex_types (zd_records zd) (apex_of zd)).*1.
Proof. unfold real_names. change fst with (@fst string (list Z)). rewrite <-list_fmap_compose. by apply list_fmap_ext. Qed.

Lemma chain_names_In x :
  In x (chain_names (apex_of zd) (real_names u16_from (zd_records zd) (apex_of zd)).*1).*1 <-> exists_in x.
Proof.
  rewrite real_keys. destruct (by_name_spec u16_from apex_types (zd_records zd) (apex_of zd)) as (_ & Hk & _).
  rewrite chain_names_spec by (intros n Hn%Hk; by apply zone_name_below). unfold exists_in. rewrite Hk.
  split; intros [?|(n & ? & ?)]; [by left|right; exists n|by left|right; exists n]; (split; [by apply Hk|done]).
Qed.

Lemma real_types x c :
  In c (unwrap_or [] (snd <$> find (fun nt => String.eqb nt.1 x) (real_names u16_from (zd_records zd) (apex_of zd)))) <->
  exists t, types3 x t /\ c = u16_from t.
Proof.
  destruct (by_name_spec u16_from apex_types (zd_records zd) (apex_of zd)) as (_ & Hk & Ht).
  destruct (find _ _) as [[x' ts]|] eqn:E; simpl.
  - apply find_some in E as [Hin Ex%String.eqb_eq]. simpl in Ex. subst x'.
    apply in_map_iff in Hin as ([x' ts'] & [= -> <-] & Hin). unfold add_type. rewrite set_insert_In, (Ht x ts' Hin).
    assert (zone_name_in (zd_records zd) (apex_of zd) x) as Hz by (apply Hk, in_map_iff; by exists (x, ts')).
    unfold types3. split.
    + intros [->|(t & Hh & ->)]; eauto 10.
    + intros (t & [[_ ->]|Hh] & ->); eauto.
  - split; [done|]. intros (t & Hty & ->). exfalso.
    assert (zone_name_in (zd_records zd) (apex_of zd) x) as (n & En & Hin)%Hk%in_map_iff.
    { destruct Hty as [[? _]|[[-> _]|(r & Hr & He & Hn & _)]]; [done|by left|right; eauto]. }
    destruct n as [n ts]. simpl in En. subst n.
    assert (In (x, add_type u16_from HRRSIG ts) (real_names u16_from (zd_records zd) (apex_of zd))) as Hr
      by (apply in_map_iff; by exists (x, ts)).
    pose proof (find_none _ _ E _ Hr) as F. simpl in F. by rewrite String.eqb_refl in F.
Qed.

Lemma chain3_In m : In m chain3 -> exists_in (n_name m) /\ nsec3_hash (n_name m) = Some (n_hash m) /\
  forall c, In c (n_types m) <-> exists t, types3 (n_name m) t /\ c = u16_from t.
Proof.
  unfold chain3, build_chain. rewrite sort_by_perm. fold (apex_of zd). intros (x & Hx & E)%filter_map_In.
  apply chain_names_In in Hx. destruct (nsec3_hash x) as [h|] eqn:Eh; [|done]. injection E as <-. simpl.
  split_and!; [done|done|]. intros c. apply real_types.
Qed.

Lemma chain3_complete x : exists_in x -> exists m, In m chain3 /\ n_name m = x.
Proof.
  intros Hx. destruct (hash_total x (or_introl Hx)) as [h Eh]. unfold chain3, build_chain. fold (apex_of zd).
  eexists. split; [rewrite sort_by_perm; apply filter_map_In; exists x; split; [by apply chain_names_In|by rewrite Eh]|done].
Qed.

Lemma chain3_names x : In x (map n_name chain3) <-> exists_in x.
Proof.
  rewrite in_map_iff. split.
  - intros (m & <- & Hm). by apply chain3_In.
  - intros (m & Hm & E)%chain3_complete. by exists m.
Qed.

Lemma chain3_sorted : hash_sorted chain3.
Proof.
  split.
  - apply sort_by_sorted; [intros a b; apply (cle_total bytes_cmp)|intros a b c; apply (cle_trans bytes_cmp)].
  - unfold chain3, build_chain. rewrite sort_by_perm. fold (apex_of zd). apply NoDup_filter_map.
    + apply ordered_NoDup, chain_names_ordered.
    + intros a b x y Ha%chain_names_In Hb%chain_names_In Ea Eb E.
      destruct (nsec3_hash a) as [ha|] eqn:Eha; [|done]. destruct (nsec3_hash b) as [hb|] eqn:Ehb; [|done].
      injection Ea as <-. injection Eb as <-. simpl in E. apply hash_inj; [by left|by left|congruence].
Qed.

Lemma match_ok x : involved x -> exists_in x -> exists i m, match_index nsec3_hash chain3 x = Some i /\
  chain3 !! i = Some m /\ In m chain3 /\ n_name m = x.
Proof.
  intros Hi Hx. unfold match_index. destruct (hash_total x Hi) as [h Eh]. rewrite Eh.
  destruct (chain3_complete x Hx) as (m & Hm & En). destruct (chain3_In m Hm) as (_ & Emh & _).
  destruct (position _ chain3) as [i|] eqn:Ep.
  - apply position_Some in Ep as (m' & Hm' & Ek & _). to_prop. exists i, m'.
    assert (In m' chain3) as Hin by by eapply list_elem_of_In, list_elem_of_lookup_2. split_and!; try done.
    destruct (chain3_In m' Hin) as (Hx' & Eh' & _). apply hash_inj; [by left|done|congruence].
  - exfalso. apply (position_None _ _ Ep m) in Hm. apply bool_decide_eq_false in Hm. congruence.
Qed.

Lemma cover_ok x : involved x -> ~ exists_in x -> chain3 <> [] ->
  exists i o n h, cover_index nsec3_hash chain3 x = Some i /\ chain3 !! i = Some o /\
    chain3 !! ((i + 1) mod length chain3)%nat = Some n /\ nsec3_hash x = Some h /\
    arc_covers (n_hash o) (n_hash n) h = true /\
    forall m, In m chain3 -> arc_covers (n_hash o) (n_hash n) (n_hash m) = false.
Proof.
  intros Hi Hx Hne. unfold cover_index. destruct (hash_total x Hi) as [h Eh]. rewrite Eh.
  destruct (cover_exists chain3 chain3_sorted h Hne) as (i & Hf & Hil & Hc).
  { intros m Hm E. destruct (chain3_In m Hm) as (Hx' & Eh' & _).
    apply Hx. rewrite (hash_inj x (n_name m)); [done|done|by left|congruence]. }
  unfold covers_at in Hc. destruct (chain3 !! i) as [o|] eqn:Ho; [|done].
  destruct (chain3 !! ((i + 1) mod length chain3)%nat) as [n|] eqn:Hn; [|done].
  exists i, o, n, h. split_and!; try done. by apply (arc_empty chain3 chain3_sorted i).
Qed.

Lemma record_ok i m n : chain3 !! i = Some m -> chain3 !! ((i + 1) mod length chain3)%nat = Some n ->
  exists rr, nsec3_record name_from_str HRt_from base32 chain3 i (zone_name (zd_zone zd)) ttl = Ret (Some rr) /\
    nsec3_of m rr /\ rr3_next rr = n_hash n.
Proof.
  intros Hm Hn. assert (In m chain3) as Hin by by eapply list_elem_of_In, list_elem_of_lookup_2.
  unfold nsec3_record, idx. rewrite Hm. cbn [obind]. destruct (owner_parses m Hin) as [nm En]. rewrite En, Hn. cbn [obind].
  eexists. split; [done|]. split; [|done]. split_and!; [done|done|]. intros t. cbn [rr3_types]. rewrite in_map_iff.
  destruct (chain3_In m Hin) as (_ & _ & Ht). setoid_rewrite Ht. split.
  - intros (c & <- & t' & Ht' & ->). by rewrite code_round.
  - intros Ht'. exists (u16_from t). split; [apply code_round|eauto].
Qed.

Lemma record_total i : (i < length chain3)%nat ->
  exists o, nsec3_record name_from_str HRt_from base32 chain3 i (zone_name (zd_zone zd)) ttl = Ret o.
Proof.
  intros Hi. destruct (lookup_lt_is_Some_2 chain3 i Hi) as [o Ho].
  destruct (lookup_lt_is_Some_2 chain3 ((i + 1) mod length chain3)%nat) as [n Hn]; [apply Nat.mod_upper_bound; lia|].
  destruct (record_ok i o n Ho Hn) as (rr & E & _). eauto.
Qed.

Hypothesis hash_raw : nsec3_hash q_raw = nsec3_hash (normalize_name q_raw).
Hypothesis nothing_below_wildcard : forall n base, zone_name_in (zd_records zd) (apex_of zd) n -> ~ below n ("*." +:+ base).

(** [x] is denied: a record sent covers the hash of [x] and the hash of no
    name that exists. *)
Definition hash_denied (rrs : list (Nsec3RR Name)) (x : string) : Prop :=
  exists o n rr h, In rr rrs /\ nsec3_of o rr /\ rr3_next rr = n_hash n /\ nsec3_hash x = Some h /\
    arc_covers (n_hash o) (n_hash n) h = true /\
    forall m, In m chain3 -> arc_covers (n_hash o) (n_hash n) (n_hash m) = false.

Lemma wildcard_not_in q e : absent zd q -> below q e -> at_or_below e (apex_of zd) -> ~ exists_in ("*." +:+ e).
Proof.
  intros [_ Habs] Hb Hap [Hz|(n & Hz & Hbt & _)]; [|by eapply nothing_below_wildcard].
  destruct Hz as [Ea|(r & Hr & Hen & Hn)].
  - apply at_or_below_length in Hap. rewrite <-Ea in Hap. simpl in Hap. lia.
  - destruct (Habs r Hr Hen) as [_ Hw]. by apply (Hw e).
Qed.

End nsec3_facts.

(** ** A zone *)

Lemma below_wildcard_star n base : below n ("*." +:+ base) -> contains_char "*" n = true.
Proof.
  intros [p ->]. unfold contains_char. induction p as [|c p IH]; [done|]. simpl in *. by rewrite IH, orb_true_r.
Qed.

Definition plain_hash (s : string) : option bytes := Some (bytes_of_string s).

Definition denied_chain : list Node := chain3 iana_code plain_hash denied_zone.

Lemma denied_zone_names n : zone_name_in (zd_records denied_zone) (apex_of denied_zone) n ->
  In n ["example.com"; "z.example.com"; "a.example.com"; "foo.ent.example.com"]%string.
Proof.
  intros [->|(r & Hr & _ & <-)]; [by left|]. simpl in Hr. repeat (destruct Hr as [<-|Hr]); simpl; auto.
Qed.


(** The resolver denies an empty non-terminal as a whole, although the chain
    has a node for it: the proof it would need cannot be given. *)
Example empty_nonterminal_denied :
  rcode (resolve_in 0 (mkSnapshot [denied_zone] []) "ent.example.com" (QRecord A)) = NxDomain /\
  existsb (String.eqb "ent.example.com") (map n_name denied_chain) = true /\
  cover_index plain_hash denied_chain "ent.example.com" = None.
Proof. split_and!; by vm_compute. Qed.
