(* ===== verification/DnsWire.v ===== *)
(** * DNS messages: records on the wire and zone transfers

    [magnetite-dns/src/wire.rs] (the mapping between stored records and wire
    records, responses and transfer messages) and the transfer client of
    [replication.rs] ([axfr_pull], [ixfr_pull]).  Parsing and serialising messages
    is [hickory-proto]'s, so names, CAA payloads and the codec are the classes
    [Hickory] and [Codec]; its plain data types (record data, records, headers,
    messages) are the types below, with the constructors and accessors the code
    uses. *)

From S2P Require Import Prelude Bytes RustStr RustNet Dns DnsDb.

(** ** Text *)

(** One step of [String::from_utf8_lossy]: the length of the character or of the
    ill-formed run at the front, and whether it is a character. *)
Definition utf8_step (l : bytes) : nat * bool :=
  let at_ i := unwrap_or 0 (l !! i) in
  let b0 := at_ 0%nat in
  if b0 <? 0x80 then (1, true)%nat
  else if in_range 0xC2 0xDF b0 then
    if utf8_cont (at_ 1%nat) then (2, true)%nat else (1, false)%nat
  else if in_range 0xE0 0xEF b0 then
    if negb (if b0 =? 0xE0 then in_range 0xA0 0xBF (at_ 1%nat)
             else if b0 =? 0xED then in_range 0x80 0x9F (at_ 1%nat) else utf8_cont (at_ 1%nat)) then (1, false)%nat
    else if utf8_cont (at_ 2%nat) then (3, true)%nat else (2, false)%nat
  else if in_range 0xF0 0xF4 b0 then
    if negb (if b0 =? 0xF0 then in_range 0x90 0xBF (at_ 1%nat)
             else if b0 =? 0xF4 then in_range 0x80 0x8F (at_ 1%nat) else utf8_cont (at_ 1%nat)) then (1, false)%nat
    else if negb (utf8_cont (at_ 2%nat)) then (2, false)%nat
    else if utf8_cont (at_ 3%nat) then (4, true)%nat else (3, false)%nat
  else (1, false)%nat.

Definition REPLACEMENT : bytes := [0xEF; 0xBF; 0xBD].

Fixpoint lossy_fuel (fuel : nat) (l : bytes) : bytes :=
  match fuel, l with
  | S fuel', _ :: _ =>
      let (n, ok) := utf8_step l in
      (if ok then take n l else REPLACEMENT) ++ lossy_fuel fuel' (skipn n l)
  | _, _ => []
  end.
Definition from_utf8_lossy (l : bytes) : string := string_of_bytes (lossy_fuel (length l) l).

(** [splitn(n, char::is_whitespace)] up to the first separator. *)
Fixpoint split_once_ws (fuel : nat) (s : string) : option (string * string) :=
  match fuel with
  | O => None
  | S fuel' =>
      match s with
      | EmptyString => None
      | String c s' =>
          match strip_one white_space s with
          | Some r => Some (EmptyString, r)
          | None => '(l, r) ← split_once_ws fuel' s'; Some (String c l, r)
          end
      end
  end.

(** ** The types of [hickory-proto] *)

Class Hickory := {
  HName : Type;
  name_from_str : string -> option HName;      (* Name::from_str(..).ok() *)
  name_to_string : HName -> string;
  wire_name : HName -> HName;                  (* a name encoded and decoded *)
  HCaa : Type;
  new_issue : bool -> option HName -> HCaa;
  new_issuewild : bool -> option HName -> HCaa;
  caa_flags : HCaa -> Z;
  caa_tag : HCaa -> string;
  caa_issuer : HCaa -> option HName;           (* value_as_issue().ok()?.0 *)
  wire_caa : HCaa -> HCaa;
}.

Inductive HType := TA | TAAAA | TCNAME | TNS | TPTR | TMX | TTXT | TSRV | TCAA | TSOA | TANY | TAXFR | TIXFR
  | TDNSKEY | TOther (code : Z).

#[export] Instance HType_eq_dec : EqDecision HType.
Proof. solve_decision. Defined.
Definition HType_eqb (a b : HType) : bool := bool_decide (a = b).

Inductive DNSClass := CIN | CANY | CNONE | COther (code : Z).

Inductive ResponseCode := RcNoError | RcFormErr | RcServFail | RcNXDomain | RcRefused | RcYXDomain | RcYXRRSet
  | RcNXRRSet | RcNotAuth | RcNotZone.

#[export] Instance ResponseCode_eq_dec : EqDecision ResponseCode.
Proof. solve_decision. Defined.

Section types.
Context {H : Hickory}.

Record HSoa := mkHSoa {
  hs_mname : HName;
  hs_rname : HName;
  hs_serial : Z;
  hs_refresh : Z;
  hs_retry : Z;
  hs_expire : Z;
  hs_minimum : Z;
}.

Inductive RData :=
| RA (ip : Z)
| RAAAA (ip : Z)
| RCNAME (n : HName)
| RNS (n : HName)
| RPTR (n : HName)
| RMX (preference : Z) (exchange : HName)
| RTXT (strings : list bytes)
| RSRV (priority weight port : Z) (target : HName)
| RCAA (c : HCaa)
| RSOA (s : HSoa)
| RUpdate0 (t : HType)
| ROther (t : HType).

Definition rdata_type (d : RData) : HType :=
  match d with
  | RA _ => TA | RAAAA _ => TAAAA | RCNAME _ => TCNAME | RNS _ => TNS | RPTR _ => TPTR | RMX _ _ => TMX
  | RTXT _ => TTXT | RSRV _ _ _ _ => TSRV | RCAA _ => TCAA | RSOA _ => TSOA | RUpdate0 t | ROther t => t
  end.

Record HRecord := mkHRecord {
  hr_name : HName;
  hr_ttl : Z;
  hr_class : DNSClass;
  hr_data : RData;
}.

(** [Record::from_rdata]. *)
Definition from_rdata (name : HName) (ttl : Z) (d : RData) : HRecord := mkHRecord name ttl CIN d.

Record Header := mkHeader {
  h_id : Z;
  h_response : bool;
  h_update : bool;
  h_authoritative : bool;
  h_recursion_desired : bool;
  h_recursion_available : bool;
  h_rcode : ResponseCode;
}.

(** [Header::response_from_request]: a response that keeps the identifier, the
    operation and the recursion-desired bit. *)
Definition response_from_request (h : Header) : Header :=
  mkHeader (h_id h) true (h_update h) false (h_recursion_desired h) false RcNoError.

Record Message := mkMessage {
  m_header : Header;
  m_queries : list (HName * HType);
  m_answers : list HRecord;
  m_name_servers : list HRecord;
}.

(** What the codec does to a message: names come back fully qualified. *)
Definition wire_rdata (d : RData) : RData :=
  match d with
  | RCNAME n => RCNAME (wire_name n)
  | RNS n => RNS (wire_name n)
  | RPTR n => RPTR (wire_name n)
  | RMX p n => RMX p (wire_name n)
  | RSRV p w po n => RSRV p w po (wire_name n)
  | RCAA c => RCAA (wire_caa c)
  | RSOA s => RSOA (mkHSoa (wire_name (hs_mname s)) (wire_name (hs_rname s)) (hs_serial s) (hs_refresh s)
                      (hs_retry s) (hs_expire s) (hs_minimum s))
  | _ => d
  end.

Definition wire_rr (r : HRecord) : HRecord :=
  mkHRecord (wire_name (hr_name r)) (hr_ttl r) (hr_class r) (wire_rdata (hr_data r)).

Definition wire_message (m : Message) : Message :=
  mkMessage (m_header m) (map (fun q => (wire_name q.1, q.2)) (m_queries m)) (map wire_rr (m_answers m))
    (map wire_rr (m_name_servers m)).
End types.

(** ** What is relied on of [hickory-proto] *)

(** Host names: letters, digits, inner hyphens, a leading underscore, [*] in
    front; no label that the internationalisation rules treat specially. *)
Definition label_safe (l : string) : bool :=
  (str_len l <=? 63)
  && is_label (match strip_prefix "_" l with Some r => r | None => l end)
  && negb (match l with String _ (String _ (String c (String d _))) => Ascii.eqb c "-" && Ascii.eqb d "-" | _ => false end).

Definition wire_safe (s : string) : bool :=
  let b := trim_end_matches "." s in
  (str_len b <=? 253)
  && match split "." b with
     | [] => false
     | l :: ls => (String.eqb l "*" || label_safe l) && forallb label_safe ls
     end.

Class HickoryLaws {H : Hickory} : Prop := {
  (** A host name parses; it prints as it was up to case and the final dot; and
      what is printed, with or without the final dot, parses back. *)
  name_parses : forall s, wire_safe s = true -> exists n, name_from_str s = Some n;
  name_prints : forall s n, wire_safe s = true -> name_from_str s = Some n ->
    normalize_name (name_to_string (wire_name n)) = normalize_name s /\
    wire_safe (name_to_string (wire_name n)) = true;
  name_reparses : forall s n p, wire_safe s = true -> name_from_str s = Some n ->
    trim_end_matches "." p = trim_end_matches "." (name_to_string (wire_name n)) ->
    exists n', name_from_str p = Some n' /\ wire_name n' = wire_name n;
  (** The accessors of an [issue] or [issuewild] property. *)
  issue_fields : forall c n, caa_flags (wire_caa (new_issue c (Some n))) = (if c then 0x80 else 0) /\
    caa_tag (wire_caa (new_issue c (Some n))) = "issue"%string /\ caa_issuer (wire_caa (new_issue c (Some n))) = Some (wire_name n);
  issuewild_fields : forall c n, caa_flags (wire_caa (new_issuewild c (Some n))) = (if c then 0x80 else 0) /\
    caa_tag (wire_caa (new_issuewild c (Some n))) = "issuewild"%string /\
    caa_issuer (wire_caa (new_issuewild c (Some n))) = Some (wire_name n);
  wire_issue : forall c n n', wire_name n = wire_name n' ->
    wire_caa (new_issue c (Some n)) = wire_caa (new_issue c (Some n')) /\
    wire_caa (new_issuewild c (Some n)) = wire_caa (new_issuewild c (Some n'));
}.

(** ** Records *)

Section wire.
Context {H : Hickory} {V : Type} {J : Json V}.
Abbreviation DRecord := (DnsRecord V).

Definition query_type_of (rt : HType) : QueryType :=
  match rt with
  | TA => QRecord A
  | TAAAA => QRecord Aaaa
  | TCNAME => QRecord Cname
  | TMX => QRecord Mx
  | TTXT => QRecord Txt
  | TNS => QRecord Ns
  | TPTR => QRecord Ptr
  | TSRV => QRecord Srv
  | TCAA => QRecord Caa
  | TSOA => QSoa
  | TANY => QAny
  | _ => QOther
  end.

Definition field (data : V) (key : string) : option string := json_get key data ≫= as_str.

(** [n as u16]. *)
Definition as_u16 (n : Z) : Z := n mod 65536.

Definition parse_srv (data : V) : option (Z * Z * Z * string) :=
  let u16f k := as_u16 <$> (json_get k data ≫= as_u64) in
  match u16f "priority"%string, u16f "weight"%string, u16f "port"%string, field data "target" with
  | Some p, Some w, Some port, Some t => Some (p, w, port, t)
  | _, _, _, _ =>
      value ← field data "value";
      match split_whitespace value with
      | [p; w; port; t] =>
          p ← parse_u16 p; w ← parse_u16 w; port ← parse_u16 port; Some (p, w, port, t)
      | _ => None
      end
  end.

(** The flags, tag and value of the two shapes. *)
Definition caa_fields (data : V) : option (Z * string * string) :=
  match field data "tag" with
  | Some tag => Some (unwrap_or 0 (json_get "flags" data ≫= as_u64) mod 256, tag,
                      unwrap_or EmptyString (field data "value"))
  | None =>
      raw ← field data "value";
      let (flags_s, rest) := match split_once_ws (String.length raw) raw with
                             | Some (f, r) => (f, Some r)
                             | None => (raw, None)
                             end in
      flags ← parse_uint 255 flags_s;
      rest ← rest;
      '(tag, value) ← split_once_ws (String.length rest) rest;
      Some (flags, tag, trim value)
  end.

Definition caa_domain (value : string) : string := trim (unwrap_or EmptyString (head (split ";" value))).

Definition parse_caa_rdata (data : V) : option HCaa :=
  '(flags, tag, value) ← caa_fields data;
  let critical := negb (Z.land flags 0x80 =? 0) in
  let domain := caa_domain value in
  if is_empty domain then None
  else
    issuer ← name_from_str domain;
    let tag := to_ascii_lowercase tag in
    if String.eqb tag "issue" then Some (new_issue critical (Some issuer))
    else if String.eqb tag "issuewild" then Some (new_issuewild critical (Some issuer))
    else None.

(** The [match] of [to_rr]. *)
Definition to_rdata (rt : RecordType) (data : V) : option RData :=
  match rt with
  | A => a ← field data "address"; RA <$> parse_ipv4 a
  | Aaaa => a ← field data "address"; RAAAA <$> parse_ipv6 a
  | Cname => t ← field data "target"; RCNAME <$> name_from_str t
  | Ns => t ← field data "nsdname"; RNS <$> name_from_str t
  | Ptr => t ← field data "ptrdname"; RPTR <$> name_from_str t
  | Mx =>
      p ← json_get "preference" data ≫= as_u64_lenient;
      e ← field data "exchange";
      RMX (as_u16 p) <$> name_from_str e
  | Txt => t ← field data "text"; Some (RTXT [bytes_of_string t])
  | Srv => '(p, w, port, t) ← parse_srv data; RSRV p w port <$> name_from_str t
  | Caa => RCAA <$> parse_caa_rdata data
  end.

Definition to_rr (r : DRecord) : option HRecord :=
  name ← name_from_str (rec_name r);
  rdata ← to_rdata (record_type r) (rec_data r);
  Some (from_rdata name (rec_ttl r) rdata).

(** The [match] of [from_rr]. *)
Definition of_rdata (d : RData) : option (RecordType * V) :=
  match d with
  | RA a => Some (A, json_obj "address" (from_str (ipv4_to_string a)))
  | RAAAA a => Some (Aaaa, json_obj "address" (from_str (ipv6_to_string a)))
  | RCNAME n => Some (Cname, json_obj "target" (from_str (name_to_string n)))
  | RNS n => Some (Ns, json_obj "nsdname" (from_str (name_to_string n)))
  | RPTR n => Some (Ptr, json_obj "ptrdname" (from_str (name_to_string n)))
  | RMX p n => Some (Mx, json_object [("preference", from_u64 p); ("exchange", from_str (name_to_string n))]%string)
  | RTXT l => Some (Txt, json_obj "text" (from_str (foldr String.append EmptyString (map from_utf8_lossy l))))
  | RSRV p w port n =>
      Some (Srv, json_object [("priority", from_u64 p); ("weight", from_u64 w); ("port", from_u64 port);
                              ("target", from_str (name_to_string n))]%string)
  | RCAA c =>
      issuer ← caa_issuer c;
      Some (Caa, json_object [("flags", from_u64 (caa_flags c)); ("tag", from_str (caa_tag c));
                              ("value", from_str (trim_end_matches "." (name_to_string issuer)))]%string)
  | _ => None
  end.

Definition from_rr (now : Z) (rr : HRecord) : option DRecord :=
  '(rt, data) ← of_rdata (hr_data rr);
  Some (mkDnsRecord EmptyString now now "axfr" EmptyString (name_to_string (hr_name rr)) (hr_ttl rr) rt data true).

(** [x as i32]. *)
Definition as_i32 (x : Z) : Z := if x <? 2 ^ 31 then x else x - 2 ^ 32.

Definition soa_rr (apex : string) (s : Soa) : option HRecord :=
  m ← name_from_str (mname s);
  r ← name_from_str (rname s);
  a ← name_from_str apex;
  Some (from_rdata a (minimum s)
    (RSOA (mkHSoa m r (serial s) (as_i32 (refresh s)) (as_i32 (retry s)) (as_i32 (expire s)) (minimum s)))).

(** ** Responses *)

Definition opt_to_list {B} (o : option B) : list B := match o with Some b => [b] | None => [] end.

Definition set_authoritative (b : bool) (h : Header) : Header :=
  mkHeader (h_id h) (h_response h) (h_update h) b (h_recursion_desired h) (h_recursion_available h) (h_rcode h).
Definition set_rcode (c : ResponseCode) (h : Header) : Header :=
  mkHeader (h_id h) (h_response h) (h_update h) (h_authoritative h) (h_recursion_desired h) (h_recursion_available h) c.
Definition set_recursion_available (b : bool) (h : Header) : Header :=
  mkHeader (h_id h) (h_response h) (h_update h) (h_authoritative h) (h_recursion_desired h) b (h_rcode h).

Definition build_response (request : Message) (res : Resolution V) : Message :=
  mkMessage
    (set_rcode (match rcode res with NoError => RcNoError | NxDomain => RcNXDomain | Refused => RcRefused end)
       (set_recursion_available false (set_authoritative (authoritative res) (response_from_request (m_header request)))))
    (m_queries request)
    (opt_to_list ('(apex, s) ← soa_answer res; soa_rr apex s) ++ filter_map to_rr (answers res))
    (opt_to_list ('(apex, s) ← authority_soa res; soa_rr apex s)).

Definition build_refused (request : Message) : Message :=
  mkMessage (set_rcode RcRefused (response_from_request (m_header request))) (m_queries request) [] [].

(** ** Transfers, sending *)

Definition AXFR_CHUNK_RECORDS : nat := 150.

(** [chunks(n)]: pieces of [n], the last one shorter. *)
Fixpoint chunks_fuel {B} (fuel n : nat) (l : list B) : list (list B) :=
  match fuel, l with
  | S fuel', _ :: _ => take n l :: chunks_fuel fuel' n (skipn n l)
  | _, _ => []
  end.
Definition chunks {B} (n : nat) (l : list B) : list (list B) := chunks_fuel (length l) n l.

Definition messages_from_records (request : Message) (records : list HRecord) : list Message :=
  map (fun chunk => mkMessage (set_authoritative true (response_from_request (m_header request))) (m_queries request) chunk [])
    (chunks AXFR_CHUNK_RECORDS records).

Definition build_axfr_messages (request : Message) (apex : string) (s : Soa) (records : list DRecord) : list Message :=
  match soa_rr apex s with
  | None => []
  | Some boundary => messages_from_records request (boundary :: filter_map to_rr records ++ [boundary])
  end.

Definition build_axfr (request : Message) (apex : string) (s : Soa) (records : list DRecord) : option Message :=
  boundary ← soa_rr apex s;
  Some (mkMessage (set_authoritative true (response_from_request (m_header request))) (m_queries request)
          (boundary :: filter_map to_rr records ++ [boundary]) []).

Definition soa_with_serial (base : Soa) (n : Z) : Soa := soa_set_serial n base.

(** The difference sequences, each from the serial before it. *)
Fixpoint ixfr_steps (apex : string) (cur : Soa) (prev : Z) (journal : list (Z * list DRecord * list DRecord)) : list HRecord :=
  match journal with
  | [] => []
  | (n, added, removed) :: journal' =>
      opt_to_list (soa_rr apex (soa_with_serial cur prev)) ++ filter_map to_rr removed
      ++ opt_to_list (soa_rr apex (soa_with_serial cur n)) ++ filter_map to_rr added
      ++ ixfr_steps apex cur n journal'
  end.

Definition build_ixfr_messages (request : Message) (apex : string) (cur : Soa) (client_serial : Z)
    (journal : list (Z * list DRecord * list DRecord)) : list Message :=
  match soa_rr apex cur with
  | None => []
  | Some header_soa =>
      messages_from_records request (header_soa :: ixfr_steps apex cur client_serial journal ++ [header_soa])
  end.

Definition build_ixfr_uptodate (request : Message) (apex : string) (cur : Soa) : list Message :=
  match soa_rr apex cur with
  | Some s => messages_from_records request [s]
  | None => []
  end.

(** ** Transfers, receiving *)

Definition soa_from_hickory (s : HSoa) : Soa :=
  mkSoa (name_to_string (hs_mname s)) (name_to_string (hs_rname s)) (hs_serial s) (Z.max (hs_refresh s) 0)
    (Z.max (hs_retry s) 0) (Z.max (hs_expire s) 0) (hs_minimum s).

Definition rr_soa (rr : HRecord) : option HSoa := match hr_data rr with RSOA s => Some s | _ => None end.
Definition rr_soa_serial (rr : HRecord) : option Z := hs_serial <$> rr_soa rr.

(** A message read from the stream: what the TSIG verifier says, if there is one,
    and the decoded message, if it decodes.  The list ends when reading fails. *)
Record frame := mkFrame { f_tsig_ok : bool; f_message : option Message }.

(** The messages as they arrive, the ones that do not serialise as empty frames. *)
Definition sent (encodes : Message -> bool) (ms : list Message) : list frame :=
  map (fun m => mkFrame true (if encodes m then Some (wire_message m) else None)) ms.

(** The answers of one message: [inl] returns from [axfr_pull], [inr] goes on. *)
Fixpoint axfr_answers (now : Z) (ans : list HRecord) (so : option Soa) (records : list DRecord) (seen : Z)
  : (option (Soa * list DRecord)) + (option Soa * list DRecord * Z) :=
  match ans with
  | [] => inr (so, records, seen)
  | rr :: ans' =>
      match rr_soa rr with
      | Some s =>
          let seen := (seen + 1) mod 256 in
          let so := match so with None => Some (soa_from_hickory s) | Some _ => so end in
          if 2 <=? seen then inl ((fun s => (s, records)) <$> so)
          else axfr_answers now ans' so records seen
      | None => axfr_answers now ans' so (records ++ opt_to_list (from_rr now rr)) seen
      end
  end.

Fixpoint axfr_loop (now : Z) (signed : bool) (frames : list frame) (so : option Soa) (records : list DRecord) (seen : Z)
  : option (Soa * list DRecord) :=
  match frames with
  | [] => (fun s => (s, records)) <$> so
  | f :: frames' =>
      if signed && negb (f_tsig_ok f) then None
      else match f_message f with
           | None => (fun s => (s, records)) <$> so
           | Some m =>
               match axfr_answers now (m_answers m) so records seen with
               | inl r => r
               | inr (so, records, seen) => axfr_loop now signed frames' so records seen
               end
           end
  end.

Definition axfr_pull (now : Z) (signed : bool) (frames : list frame) : option (Soa * list DRecord) :=
  axfr_loop now signed frames None [] 0.

Inductive IxfrResponse :=
| UpToDate
| Incremental (new_soa : Soa) (sequences : list (list DRecord * list DRecord))
| Full (s : Soa) (records : list DRecord).

(** The reading loop of [ixfr_pull]: the records so far, or [None] to return. *)
Fixpoint ixfr_collect (signed : bool) (frames : list frame) (rrs : list HRecord) (seen : Z) : option (list HRecord) :=
  match frames with
  | [] => Some rrs
  | f :: frames' =>
      if signed && negb (f_tsig_ok f) then None
      else match f_message f with
           | None => Some rrs
           | Some m =>
               let rrs := rrs ++ m_answers m in
               let seen := (seen + Z.of_nat (length (List.filter (fun rr => is_some_and (fun _ => true) (rr_soa_serial rr)) (m_answers m)))) mod 256 in
               let stop :=
                 (2 <=? length rrs)%nat &&
                 match head rrs ≫= rr_soa_serial, last rrs ≫= rr_soa_serial with
                 | Some first, Some last_ => (last_ =? first) && (2 <=? seen)
                 | _, _ => false
                 end in
               if stop then Some rrs else ixfr_collect signed frames' rrs seen
           end
  end.

(** Records up to the next SOA. *)
Fixpoint take_rrs (now : Z) (rrs : list HRecord) : list DRecord * list HRecord :=
  match rrs with
  | [] => ([], [])
  | rr :: rrs' =>
      match rr_soa_serial rr with
      | Some _ => ([], rrs)
      | None => let (l, rest) := take_rrs now rrs' in (opt_to_list (from_rr now rr) ++ l, rest)
      end
  end.

(** The loop over the difference sequences, from position 1. *)
Fixpoint ixfr_sequences (fuel : nat) (now : Z) (new_serial : Z) (rrs : list HRecord) : list (list DRecord * list DRecord) :=
  match fuel, rrs with
  | S fuel', rr :: rrs1 =>
      if bool_decide (rr_soa_serial rr = Some new_serial) then []
      else
        let (removed, rrs2) := take_rrs now rrs1 in
        match rrs2 with
        | [] => []
        | _ :: rrs3 =>
            let (added, rrs4) := take_rrs now rrs3 in
            (removed, added) :: ixfr_sequences fuel' now new_serial rrs4
        end
  | _, _ => []
  end.

Definition ixfr_parse (now : Z) (rrs : list HRecord) : option IxfrResponse :=
  match rrs with
  | [] => None
  | first :: rest =>
      s ← rr_soa first;
      let new_soa := soa_from_hickory s in
      match rest with
      | [] => Some UpToDate
      | second :: _ =>
          if is_some_and (fun n => negb (n =? hs_serial s)) (rr_soa_serial second)
          then Some (Incremental new_soa (ixfr_sequences (length rest) now (hs_serial s) rest))
          else Some (Full new_soa (filter_map (from_rr now) rrs))
      end
  end.

Definition ixfr_pull (now : Z) (signed : bool) (frames : list frame) : option IxfrResponse :=
  rrs ← ixfr_collect signed frames [] 0; ixfr_parse now rrs.
End wire.

(** ** Facts about text *)

Lemma utf8_step_valid b0 l : utf8_valid (b0 :: l) = true -> exists n, utf8_step (b0 :: l) = (S n, true) /\
  utf8_valid (skipn n l) = true /\ (n <= length l)%nat.
Proof.
  cbn [utf8_valid]. unfold utf8_step. cbn [lookup list_lookup unwrap_or].
  destruct (b0 <? 0x80); [intros E; exists 0%nat; split_and!; [done|done|lia]|].
  destruct (in_range 0xC2 0xDF b0).
  { destruct l as [|b1 l]; [done|]. intros [H1 H2]%andb_true_iff. simpl. rewrite H1. exists 1%nat. split_and!; [done|done|simpl; lia]. }
  destruct (in_range 0xE0 0xEF b0).
  { destruct l as [|b1 [|b2 l]]; [done..|]. intros [[H1 H2]%andb_true_iff H3]%andb_true_iff. simpl. rewrite H1, H2.
    exists 2%nat. split_and!; [done|done|simpl; lia]. }
  destruct (in_range 0xF0 0xF4 b0); [|done].
  destruct l as [|b1 [|b2 [|b3 l]]]; [done..|].
  intros [[[H1 H2]%andb_true_iff H3]%andb_true_iff H4]%andb_true_iff. simpl. rewrite H1, H2, H3.
  exists 3%nat. split_and!; [done|done|simpl; lia].
Qed.

Lemma lossy_valid fuel : forall l, (length l <= fuel)%nat -> utf8_valid l = true -> lossy_fuel fuel l = l.
Proof.
  induction fuel as [|fuel IH]; intros [|b l] Hl Hv; try done; [simpl in Hl; lia|].
  cbn [lossy_fuel]. destruct (utf8_step_valid b l Hv) as (n & -> & Hr & Hn). cbn [take skipn].
  rewrite IH; [|rewrite length_skipn; simpl in Hl; lia|done]. cbn [app]. f_equal. apply firstn_skipn.
Qed.

Lemma from_utf8_lossy_valid s : utf8_valid (bytes_of_string s) = true -> from_utf8_lossy (bytes_of_string s) = s.
Proof. intros Hs. unfold from_utf8_lossy. rewrite lossy_valid by done. apply string_of_bytes_of_string. Qed.

Lemma str_forallb_impl f g s : (forall c, f c = true -> g c = true) -> str_forallb f s = true -> str_forallb g s = true.
Proof. intros Hfg. induction s as [|c s IH]; [done|]. simpl. intros [Hc Hs]%andb_true_iff. by rewrite Hfg, IH. Qed.

Lemma forallb_no_char c s : str_forallb (fun a => negb (Ascii.eqb a c)) s = true -> contains_char c s = false.
Proof.
  unfold contains_char. induction s as [|a s IH]; simpl; [done|]. intros [Ha%negb_true_iff Hs]%andb_true_iff.
  rewrite Ascii.eqb_sym, Ha. by apply IH.
Qed.

Lemma split_none c s : contains_char c s = false -> split c s = [s].
Proof.
  induction s as [|a s IH]; [done|]. simpl. intros [Ha Hs]%orb_false_iff. rewrite Ascii.eqb_sym, Ha, IH by done. done.
Qed.

(** ** Facts about records *)

Section record_facts.
Context {H : Hickory} {HL : HickoryLaws} {V : Type} {J : Json V}.
Abbreviation DRecord := (DnsRecord V).

Lemma field_obj k s : field (json_obj k (from_str s)) k = Some s.
Proof. unfold field. rewrite json_get_obj. apply as_str_from_str. Qed.

Lemma field_object k s l : In (k, from_str s) l -> NoDup l.*1 -> field (json_object l) k = Some s.
Proof. intros Hin Hn. unfold field. rewrite (json_get_object k (from_str s)) by done. apply as_str_from_str. Qed.

Lemma u64_object k n l : In (k, from_u64 n) l -> NoDup l.*1 -> 0 <= n <= U64_MAX -> json_get k (json_object l) ≫= as_u64 = Some n.
Proof. intros Hin Hn Hb. rewrite (json_get_object k (from_u64 n)) by done. by apply as_u64_from_u64. Qed.

Lemma as_u16_range n : 0 <= as_u16 n <= 65535.
Proof. unfold as_u16. pose proof (Z.mod_pos_bound n 65536). lia. Qed.

Lemma as_u16_idem n : as_u16 (as_u16 n) = as_u16 n.
Proof. unfold as_u16. by rewrite Z.mod_mod. Qed.

(** The names and the text in a record are ones the wire can carry. *)
Definition record_safe (r : DRecord) : Prop :=
  wire_safe (rec_name r) = true /\
  match record_type r with
  | Cname => forall t, field (rec_data r) "target" = Some t -> wire_safe t = true
  | Ns => forall t, field (rec_data r) "nsdname" = Some t -> wire_safe t = true
  | Ptr => forall t, field (rec_data r) "ptrdname" = Some t -> wire_safe t = true
  | Mx => forall t, field (rec_data r) "exchange" = Some t -> wire_safe t = true
  | Srv => forall p w po t, parse_srv (rec_data r) = Some (p, w, po, t) -> wire_safe t = true
  | Txt => forall t, field (rec_data r) "text" = Some t -> utf8_valid (bytes_of_string t) = true
  | Caa => forall f tag v, caa_fields (rec_data r) = Some (f, tag, v) -> wire_safe (caa_domain v) = true
  | _ => True
  end.

(** The stored form of a transferred record. *)
Definition copies (r r' : DRecord) (rr : HRecord) : Prop :=
  record_type r' = record_type r /\ rec_ttl r' = rec_ttl r /\
  normalize_name (rec_name r') = normalize_name (rec_name r) /\ rec_enabled r' = true /\
  exists rr', to_rr r' = Some rr' /\ wire_rr rr' = wire_rr rr.

Lemma join_forallb f ls : f "."%char = true -> Forall (fun l => str_forallb f l = true) ls -> str_forallb f (join "." ls) = true.
Proof.
  intros Hf. induction 1 as [|l ls Hl Hls IH]; [done|]. destruct ls as [|l' ls]; [done|].
  change (join "." (l :: l' :: ls)) with (l +:+ "." +:+ join "." (l' :: ls)).
  rewrite !str_forallb_app, Hl, IH. simpl. by rewrite Hf.
Qed.

(** Printable, and no separator of a CAA value. *)
Definition domain_char (c : ascii) : bool := is_graphic c && negb (Ascii.eqb c ";").

Lemma domain_char_label l : is_label l = true -> str_forallb domain_char l = true /\ is_empty l = false.
Proof.
  unfold is_label. destruct (is_empty l); [done|]. simpl. destruct (63 <? str_len l); [done|].
  destruct (starts_with l "-" || ends_with l "-"); [done|]. intros Hl. split; [|done].
  induction l as [|c l IH]; [done|]. simpl in *. apply andb_true_iff in Hl as [Hc Hl]. rewrite IH by done.
  rewrite andb_true_r. apply orb_true_iff in Hc as [Hc| ->%Ascii.eqb_eq]; [|done].
  unfold domain_char, is_graphic. destruct (Ascii.eqb_spec c ";") as [->|_]; [done|]. rewrite andb_true_r.
  unfold is_ascii_alphanumeric, is_ascii_alphabetic, is_ascii_upper, is_ascii_lower, is_ascii_digit, in_codes in *.
  to_prop. lia.
Qed.

Lemma domain_char_safe l : label_safe l = true -> str_forallb domain_char l = true /\ is_empty l = false.
Proof.
  unfold label_safe. intros [[_ Hl]%andb_true_iff _]%andb_true_iff. destruct (strip_prefix "_" l) as [r|] eqn:E.
  - apply strip_prefix_Some in E as ->. apply domain_char_label in Hl as [Hr _]. split; [|done]. simpl. by rewrite Hr.
  - by apply domain_char_label.
Qed.

Lemma safe_domain s : wire_safe s = true -> caa_domain (trim_end_matches "." s) = trim_end_matches "." s /\
  is_empty (trim_end_matches "." s) = false.
Proof.
  unfold wire_safe. set (b := trim_end_matches "." s). intros [_ Hb]%andb_true_iff.
  assert (Forall (fun l => str_forallb domain_char l = true /\ is_empty l = false) (split "." b)) as Hall.
  { destruct (split "." b) as [|l ls]; [done|]. apply andb_true_iff in Hb as [Hl Hls]. constructor.
    - apply orb_true_iff in Hl as [->%String.eqb_eq|Hl]; [done|by apply domain_char_safe].
    - apply Forall_forall. intros x Hx%list_elem_of_In. apply domain_char_safe. by eapply forallb_forall in Hls. }
  assert (str_forallb domain_char b = true) as Hd.
  { rewrite <- (join_split b). apply join_forallb; [done|]. eapply Forall_impl; [exact Hall|]. by intros x [? _]. }
  split.
  - unfold caa_domain. rewrite split_none.
    + simpl. apply trim_graphic. eapply str_forallb_impl; [|exact Hd]. by intros c [? _]%andb_true_iff.
    + apply forallb_no_char. eapply str_forallb_impl; [|exact Hd]. by intros c [_ ?]%andb_true_iff.
  - destruct b as [|c b]; [|done]. simpl in Hall. apply Forall_cons in Hall as [[_ Hall] _]. done.
Qed.

Lemma name_copied s n : wire_safe s = true -> name_from_str s = Some n ->
  exists n', name_from_str (name_to_string (wire_name n)) = Some n' /\ wire_name n' = wire_name n.
Proof. intros Hs Hn. by eapply name_reparses. Qed.

(** What is left to check of a record: that its data comes back. *)
Lemma copied now r n d data d' : wire_safe (rec_name r) = true -> name_from_str (rec_name r) = Some n ->
  of_rdata (wire_rdata d) = Some (record_type r, data) -> to_rdata (record_type r) data = Some d' -> wire_rdata d' = wire_rdata d ->
  exists r', from_rr now (wire_rr (from_rdata n (rec_ttl r) d)) = Some r' /\ copies r r' (from_rdata n (rec_ttl r) d).
Proof.
  intros Hs Hn Hof Hto Hd. unfold from_rr. simpl. rewrite Hof. eexists. split; [done|].
  destruct (name_copied _ _ Hs Hn) as (n' & Hn' & Ew). destruct (name_prints _ _ Hs Hn) as [Hp _].
  split_and!; [done|done|exact Hp|done|]. unfold to_rr. simpl. rewrite Hn'. simpl. rewrite Hto. simpl.
  eexists. split; [done|]. unfold wire_rr. simpl. by rewrite Ew, Hd.
Qed.

Ltac nodup_keys := repeat (constructor; [set_solver|]); constructor.

Lemma trim_end_matches_idem c s : trim_end_matches c (trim_end_matches c s) = trim_end_matches c s.
Proof.
  induction s as [|a s IH]; [done|]. simpl. destruct (is_empty (trim_end_matches c s) && Ascii.eqb a c) eqn:E; [done|].
  simpl. by rewrite IH, E.
Qed.

(** The two kinds of CAA property, and their payload once stored. *)
Lemma caa_data_parses c n n' (wild : bool) : name_from_str (trim_end_matches "." (name_to_string (wire_name n))) = Some n' ->
  wire_safe (name_to_string (wire_name n)) = true ->
  let mk := if wild then new_issuewild else new_issue in
  exists data, of_rdata (RCAA (wire_caa (mk c (Some n)))) = Some (Caa, data) /\ parse_caa_rdata data = Some (mk c (Some n')).
Proof.
  intros Hn' Hs mk. destruct (safe_domain _ Hs) as [Hd Hne].
  assert (caa_flags (wire_caa (mk c (Some n))) = (if c then 0x80 else 0) /\
    caa_tag (wire_caa (mk c (Some n))) = (if wild then "issuewild" else "issue")%string /\
    caa_issuer (wire_caa (mk c (Some n))) = Some (wire_name n)) as (Ef & Et & Ei).
  { destruct wild; [apply issuewild_fields|apply issue_fields]. }
  simpl. rewrite Ei. simpl. eexists. split; [done|]. unfold parse_caa_rdata, caa_fields. rewrite Ef, Et.
  rewrite (field_object "tag" (if wild then "issuewild" else "issue")); [|set_solver|nodup_keys].
  rewrite (u64_object "flags" (if c then 0x80 else 0)); [|set_solver|nodup_keys|destruct c; done].
  rewrite (field_object "value" (trim_end_matches "." (name_to_string (wire_name n)))); [|set_solver|nodup_keys].
  simpl. rewrite Hd, Hne, Hn'. simpl. by destruct wild, c.
Qed.

Lemma caa_copied data c : (forall f tag v, caa_fields data = Some (f, tag, v) -> wire_safe (caa_domain v) = true) ->
  parse_caa_rdata data = Some c -> exists data' c', of_rdata (RCAA (wire_caa c)) = Some (Caa, data') /\
    parse_caa_rdata data' = Some c' /\ wire_caa c' = wire_caa c.
Proof.
  intros Hsafe Hc. unfold parse_caa_rdata in Hc. destruct (caa_fields data) as [[[f tag] v]|]; [|done]. simpl in Hc.
  specialize (Hsafe f tag v eq_refl). destruct (is_empty (caa_domain v)); [done|].
  destruct (name_from_str (caa_domain v)) as [n|] eqn:En; [|done]. simpl in Hc.
  set (crit := negb (Z.land f 128 =? 0)) in *. destruct (name_prints _ _ Hsafe En) as [_ Hps].
  destruct (name_reparses _ _ (trim_end_matches "." (name_to_string (wire_name n))) Hsafe En) as (n' & En' & Ew);
    [apply trim_end_matches_idem|]. destruct (wire_issue crit n' n Ew) as [Ei Eiw].
  destruct (String.eqb _ "issue"); [|destruct (String.eqb _ "issuewild"); [|done]]; injection Hc as <-.
  - destruct (caa_data_parses crit n n' false En' Hps) as (d' & H1 & H2). by exists d', (new_issue crit (Some n')).
  - destruct (caa_data_parses crit n n' true En' Hps) as (d' & H1 & H2). by exists d', (new_issuewild crit (Some n')).
Qed.

Definition u16_fields (p w po : Z) : Prop := 0 <= p <= 65535 /\ 0 <= w <= 65535 /\ 0 <= po <= 65535.

Lemma parse_srv_range data p w po t : parse_srv data = Some (p, w, po, t) -> u16_fields p w po.
Proof.
  unfold parse_srv, u16_fields.
  assert (match field data "value" ≫= (fun value => match split_whitespace value with
      | [p; w; port; t] => p ← parse_u16 p; w ← parse_u16 w; port ← parse_u16 port; Some (p, w, port, t)
      | _ => None end) with Some (p, w, po, t) => u16_fields p w po | None => True end) as Hraw.
  { destruct (field data "value") as [v|]; [|done]. simpl. destruct (split_whitespace v) as [|a [|b [|c [|d [|]]]]]; try done.
    destruct (parse_u16 a) as [x|] eqn:Ea; [|done]. destruct (parse_u16 b) as [y|] eqn:Eb; [|done]. simpl.
    destruct (parse_u16 c) as [z|] eqn:Ec; [|done]. simpl. apply parse_uint_bound in Ea, Eb, Ec. done. }
  intros E. destruct (as_u16 <$> _) as [x|] eqn:E1; [|by rewrite E in Hraw].
  destruct (as_u16 <$> (json_get "weight" data ≫= as_u64)) as [y|] eqn:E2; [|by rewrite E in Hraw].
  destruct (as_u16 <$> (json_get "port" data ≫= as_u64)) as [z|] eqn:E3; [|by rewrite E in Hraw].
  destruct (field data "target") as [t'|]; [|by rewrite E in Hraw]. injection E as <- <- <- <-.
  apply fmap_Some in E1 as (? & _ & ->), E2 as (? & _ & ->), E3 as (? & _ & ->). split_and!; apply as_u16_range.
Qed.

Lemma srv_data_parses p w po t : u16_fields p w po ->
  parse_srv (json_object [("priority", from_u64 p); ("weight", from_u64 w); ("port", from_u64 po); ("target", from_str t)]%string)
  = Some (p, w, po, t).
Proof.
  intros (Hp & Hw & Ho). unfold parse_srv.
  rewrite (u64_object "priority" p), (u64_object "weight" w), (u64_object "port" po), (field_object "target" t);
    try set_solver; try nodup_keys; try (unfold U64_MAX; lia). simpl.
  unfold as_u16. by rewrite !Z.mod_small by lia.
Qed.

(** A copy of a record on a secondary is served as the original is. *)
Lemma record_copied now r rr : record_safe r -> to_rr r = Some rr ->
  exists r', from_rr now (wire_rr rr) = Some r' /\ copies r r' rr.
Proof.
  intros [Hs Hp] Hr. unfold to_rr in Hr. destruct (name_from_str (rec_name r)) as [n|] eqn:En; [|done]. simpl in Hr.
  destruct (to_rdata (record_type r) (rec_data r)) as [d|] eqn:Ed; [|done]. injection Hr as <-.
  assert (exists data d', of_rdata (wire_rdata d) = Some (record_type r, data) /\
    to_rdata (record_type r) data = Some d' /\ wire_rdata d' = wire_rdata d) as (data & d' & H1 & H2 & H3);
    [|by eapply copied].
  destruct (record_type r); simpl in Ed.
  1: { destruct (field _ _) as [a|]; [|done]. simpl in Ed. destruct (parse_ipv4 a) as [ip|] eqn:Ea; [|done]. injection Ed as <-.
       eexists _, (RA ip). split; [done|]. simpl. rewrite field_obj. simpl.
       by rewrite parse_print_ipv4 by (by eapply parse_ipv4_bound). }
  1: { destruct (field _ _) as [a|]; [|done]. simpl in Ed. destruct (parse_ipv6 a) as [ip|] eqn:Ea; [|done]. injection Ed as <-.
       eexists _, (RAAAA ip). split; [done|]. simpl. rewrite field_obj. simpl.
       by rewrite parse_print_ipv6 by (by eapply parse_ipv6_bound). }
  1, 4, 5: destruct (field _ _) as [t|]; [|done]; specialize (Hp t eq_refl); simpl in Ed;
       destruct (name_from_str t) as [m|] eqn:Em; [|done]; injection Ed as <-;
       destruct (name_copied _ _ Hp Em) as (m' & Em' & Ew); do 2 eexists; (split; [done|]); simpl;
       rewrite field_obj; simpl; rewrite Em'; simpl; (split; [done|]); simpl; by rewrite Ew.
  - destruct (_ ≫= as_u64_lenient) as [p|]; [|done]. simpl in Ed. destruct (field _ _) as [t|]; [|done].
    specialize (Hp t eq_refl). simpl in Ed. destruct (name_from_str t) as [m|] eqn:Em; [|done]. injection Ed as <-.
    destruct (name_copied _ _ Hp Em) as (m' & Em' & Ew). do 2 eexists. split; [done|]. simpl.
    pose proof (as_u16_range p) as Hb.
    rewrite (json_get_object "preference" (from_u64 (as_u16 p))); [|set_solver|nodup_keys]. simpl.
    unfold as_u64_lenient. rewrite as_u64_from_u64 by (unfold U64_MAX; lia). simpl.
    rewrite (field_object "exchange" (name_to_string (wire_name m))); [|set_solver|nodup_keys]. simpl. rewrite Em'. simpl.
    split; [done|]. simpl. by rewrite as_u16_idem, Ew.
  - destruct (field _ _) as [t|]; [|done]. injection Ed as <-. eexists _, (RTXT [bytes_of_string t]). split; [done|]. simpl.
    rewrite field_obj. simpl. by rewrite from_utf8_lossy_valid, str_app_nil_r by (by apply Hp).
  - destruct (parse_srv _) as [[[[p w] po] t]|] eqn:Eps; [|done]. specialize (Hp _ _ _ _ eq_refl). simpl in Ed.
    destruct (name_from_str t) as [m|] eqn:Em; [|done]. injection Ed as <-.
    destruct (name_copied _ _ Hp Em) as (m' & Em' & Ew).
    do 2 eexists. split; [done|]. simpl. rewrite srv_data_parses by (by eapply parse_srv_range). simpl. rewrite Em'. simpl.
    split; [done|]. simpl. by rewrite Ew.
  - destruct (parse_caa_rdata _) as [c|] eqn:Ec; [|done]. injection Ed as <-.
    destruct (caa_copied _ _ Hp Ec) as (d' & c' & H1 & H2 & H3). exists d', (RCAA c'). simpl in *. rewrite H1, H2.
    split_and!; [done|done|]. by rewrite H3.
Qed.
End record_facts.

(** ** Transfers *)

Lemma chunks_fuel_concat {B} n fuel : (0 < n)%nat -> forall l : list B, (length l <= fuel)%nat -> concat (chunks_fuel fuel n l) = l.
Proof.
  intros Hn. induction fuel as [|fuel IH]; intros [|b l] Hl; try done; [simpl in Hl; lia|].
  cbn [chunks_fuel concat]. rewrite IH; [apply firstn_skipn|]. rewrite length_skipn. simpl in *. lia.
Qed.

Lemma chunks_concat {B} n (l : list B) : (0 < n)%nat -> concat (chunks n l) = l.
Proof. intros Hn. by apply chunks_fuel_concat. Qed.

Lemma map_concat {B C} (f : B -> C) ls : concat (map (map f) ls) = map f (concat ls).
Proof. induction ls as [|l ls IH]; [done|]. simpl. by rewrite IH, map_app. Qed.

Section transfer_facts.
Context {H : Hickory} {V : Type} {J : Json V}.
Abbreviation DRecord := (DnsRecord V).
Context (encodes : Message -> bool).

(** A record that is not an SOA. *)
Definition plain_rr (rr : HRecord) : Prop := rr_soa rr = None.

Lemma to_rr_plain (r : DRecord) rr : to_rr r = Some rr -> plain_rr rr /\ plain_rr (wire_rr rr).
Proof.
  unfold to_rr, plain_rr, rr_soa. destruct (name_from_str _); [|done]. simpl.
  destruct (to_rdata _ _) as [d|] eqn:E; [|done]. intros [= <-]. simpl. unfold to_rdata in E.
  destruct (record_type r); repeat (apply bind_Some in E as (? & _ & E)); try (apply fmap_Some in E as (? & _ & ->));
    repeat (match type of E with context [let '(_, _) := ?x in _] => destruct x end);
    try (apply fmap_Some in E as (? & _ & ->)); try (injection E as <-); done.
Qed.

(** The records that reach the other side, as they are stored there. *)
Definition transferred (now : Z) (l : list DRecord) : list DRecord :=
  filter_map (from_rr now) (map wire_rr (filter_map to_rr l)).

Lemma axfr_answers_app now a b : forall so recs seen, axfr_answers now (a ++ b) so recs seen =
  match axfr_answers now a so recs seen with
  | inl r => inl r
  | inr (so', recs', seen') => axfr_answers now b so' recs' seen'
  end.
Proof.
  induction a as [|rr a IH]; intros so recs seen; [done|]. simpl. destruct (rr_soa rr); [|apply IH].
  destruct (2 <=? _); [done|apply IH].
Qed.

Lemma axfr_answers_plain now l : Forall plain_rr l -> forall so recs seen,
  axfr_answers now l so recs seen = inr (so, recs ++ filter_map (from_rr now) l, seen).
Proof.
  induction 1 as [|rr l Hr Hl IH]; intros so recs seen; simpl; [by rewrite app_nil_r|].
  rewrite Hr, IH, <- app_assoc. by destruct (from_rr now rr).
Qed.

Lemma axfr_loop_frames now signed cs h q : forall so recs seen,
  axfr_loop now signed (map (fun c => mkFrame true (Some (mkMessage h q c []))) cs) so recs seen =
  match axfr_answers now (concat cs) so recs seen with
  | inl r => r
  | inr (so', recs', _) => (fun s => (s, recs')) <$> so'
  end.
Proof.
  induction cs as [|c cs IH]; intros so recs seen; [done|]. cbn [map axfr_loop f_tsig_ok f_message m_answers negb].
  rewrite andb_false_r. cbn [concat]. rewrite axfr_answers_app.
  destruct (axfr_answers now c so recs seen) as [r|[[so' recs'] seen']]; [done|apply IH].
Qed.

Lemma sent_chunks request l : forallb encodes (messages_from_records request l) = true ->
  sent encodes (messages_from_records request l) =
  map (fun c => mkFrame true (Some (mkMessage (set_authoritative true (response_from_request (m_header request)))
         (map (fun q => (wire_name q.1, q.2)) (m_queries request)) c []))) (map (map wire_rr) (chunks AXFR_CHUNK_RECORDS l)).
Proof.
  unfold messages_from_records, sent. rewrite !map_map. intros He. apply map_ext_in. intros c Hc.
  eapply forallb_forall in He; [|by apply in_map; exact Hc]. by rewrite He.
Qed.

Lemma wire_chunks l : concat (map (map wire_rr) (chunks AXFR_CHUNK_RECORDS l)) = map wire_rr l.
Proof. rewrite map_concat, chunks_concat; [done|unfold AXFR_CHUNK_RECORDS; lia]. Qed.

Lemma filter_map_to_rr_plain (l : list DRecord) : Forall plain_rr (map wire_rr (filter_map to_rr l)).
Proof.
  apply Forall_forall. intros rr Hrr%list_elem_of_In. apply in_map_iff in Hrr as (x & <- & Hx).
  apply filter_map_In in Hx as (r & _ & Hr). by apply (to_rr_plain r).
Qed.

Lemma soa_rr_inv apex s rr : soa_rr apex s = Some rr -> exists a m r, name_from_str apex = Some a /\
  name_from_str (mname s) = Some m /\ name_from_str (rname s) = Some r /\
  rr = from_rdata a (minimum s) (RSOA (mkHSoa m r (serial s) (as_i32 (refresh s)) (as_i32 (retry s)) (as_i32 (expire s)) (minimum s))).
Proof.
  unfold soa_rr. destruct (name_from_str (mname s)) as [m|]; [|done]. destruct (name_from_str (rname s)) as [r|]; [|done]. simpl.
  destruct (name_from_str apex) as [a|]; [|done]. simpl. intros [= <-]. by exists a, m, r.
Qed.

(** The SOA as the other side reads it. *)
Definition transferred_soa (rr : HRecord) : option Soa := soa_from_hickory <$> rr_soa (wire_rr rr).

Lemma soa_rr_wire apex s rr : soa_rr apex s = Some rr -> exists hs, rr_soa (wire_rr rr) = Some hs /\ hs_serial hs = serial s.
Proof. intros (a & m & r & _ & _ & _ & ->)%soa_rr_inv. by eexists. Qed.

(** The client of a full transfer gets what has a wire form, once and in order. *)
Lemma axfr_received now signed request apex s boundary (records : list DRecord) :
  soa_rr apex s = Some boundary ->
  forallb encodes (build_axfr_messages request apex s records) = true ->
  axfr_pull now signed (sent encodes (build_axfr_messages request apex s records)) =
  (fun so => (so, transferred now records)) <$> transferred_soa boundary.
Proof.
  unfold build_axfr_messages. intros Hb He. rewrite Hb in *. unfold axfr_pull. rewrite sent_chunks by done.
  rewrite axfr_loop_frames, wire_chunks. unfold transferred_soa. destruct (soa_rr_wire _ _ _ Hb) as (hs & Ehs & _).
  cbn [map axfr_answers]. rewrite Ehs, map_app. cbn [Z.add Z.modulo Z.leb]. simpl.
  rewrite axfr_answers_app, axfr_answers_plain by apply filter_map_to_rr_plain. simpl. rewrite Ehs. done.
Qed.

(** ** Incremental transfers *)

Abbreviation delta := (Z * list DRecord * list DRecord)%type.

Lemma take_rrs_plain now l rest : Forall plain_rr l ->
  match rest with [] => True | rr :: _ => rr_soa_serial rr <> None end ->
  take_rrs now (l ++ rest) = (filter_map (from_rr now) l, rest).
Proof.
  intros Hl Hr. induction Hl as [|rr l Hp Hl IH]; simpl.
  - destruct rest as [|rr rest]; [done|]. simpl. by destruct (rr_soa_serial rr).
  - unfold rr_soa_serial. rewrite Hp. simpl. rewrite IH. by destruct (from_rr now rr).
Qed.

(** The serials before the last are not the current one. *)
Fixpoint serials_ok (cur prev : Z) (journal : list delta) : Prop :=
  match journal with
  | [] => True
  | (n, _, _) :: journal' => prev <> cur /\ serials_ok cur n journal'
  end.

Definition parsed_delta (now : Z) (d : delta) : list DRecord * list DRecord :=
  (transferred now d.2, transferred now d.1.2).

Lemma soa_with_serial_rr apex s n b : soa_rr apex s = Some b -> exists rr, soa_rr apex (soa_with_serial s n) = Some rr /\
  rr_soa_serial (wire_rr rr) = Some n.
Proof.
  intros (a & m & r & Ea & Em & Er & _)%soa_rr_inv. unfold soa_rr. simpl. rewrite Ea, Em, Er. simpl. by eexists.
Qed.

Lemma ixfr_sequences_steps now apex cur b journal : soa_rr apex cur = Some b -> forall fuel prev,
  (length (ixfr_steps apex cur prev journal ++ [b]) <= fuel)%nat -> serials_ok (serial cur) prev journal ->
  ixfr_sequences fuel now (serial cur) (map wire_rr (ixfr_steps apex cur prev journal ++ [b])) = map (parsed_delta now) journal.
Proof.
  intros Hb. destruct (soa_rr_wire _ _ _ Hb) as (hs & Ehs & En).
  assert (rr_soa_serial (wire_rr b) = Some (serial cur)) as Eb by (unfold rr_soa_serial; rewrite Ehs; simpl; congruence).
  induction journal as [|[[n added] removed] journal IH]; intros [|fuel] prev Hf Hs; try (rewrite length_app in Hf; simpl in Hf; lia).
  - simpl. rewrite Eb. by rewrite bool_decide_eq_true_2.
  - simpl in Hf. rewrite length_app in Hf. destruct (soa_with_serial_rr apex cur prev b Hb) as (r1 & E1 & S1).
    destruct (soa_with_serial_rr apex cur n b Hb) as (r2 & E2 & S2). cbn [ixfr_steps]. rewrite E1, E2 in *. simpl in Hf.
    destruct Hs as [Hne Hs]. cbn [opt_to_list app map]. cbn [ixfr_sequences].
    rewrite S1, bool_decide_eq_false_2 by congruence. rewrite <- !app_assoc, !map_app.
    rewrite take_rrs_plain; [|apply filter_map_to_rr_plain|simpl; by rewrite S2]. cbn [opt_to_list app map].
    rewrite map_app, <- app_assoc, take_rrs_plain; [|apply filter_map_to_rr_plain|].
    + cbn [map]. f_equal. change [wire_rr b] with (map wire_rr [b]). rewrite <- map_app. apply IH; [|done]. rewrite length_app. simpl.
      repeat (rewrite length_app in Hf; simpl in Hf). lia.
    + destruct journal as [|[[n' a'] r'] journal']; simpl; [by rewrite Eb|].
      destruct (soa_with_serial_rr apex cur n b Hb) as (r3 & E3 & S3). rewrite E3. simpl. by rewrite S3.
Qed.

(** No message but the last ends with the current SOA. *)
Definition no_early_stop (first : Z) (l : list HRecord) : Prop :=
  forall k, (0 < k)%nat -> (k * AXFR_CHUNK_RECORDS < length l)%nat ->
    (l !! (k * AXFR_CHUNK_RECORDS - 1)%nat) ≫= rr_soa_serial <> Some first.

Lemma ixfr_collect_all signed first h q cs : forall pre seen,
  head (pre ++ concat cs) ≫= rr_soa_serial = Some first ->
  (forall cs1 c cs2, cs = cs1 ++ c :: cs2 -> cs2 <> [] -> last (pre ++ concat (cs1 ++ [c])) ≫= rr_soa_serial <> Some first) ->
  ixfr_collect signed (map (fun c => mkFrame true (Some (mkMessage h q c []))) cs) pre seen = Some (pre ++ concat cs).
Proof.
  induction cs as [|c cs IH]; intros pre seen Hh Hl; [simpl; by rewrite app_nil_r|].
  cbn [map ixfr_collect f_tsig_ok f_message m_answers negb]. rewrite andb_false_r. cbn [concat] in *. rewrite app_assoc in *.
  set (seen' := (seen + _) mod 256). destruct cs as [|c' cs]; [simpl; rewrite app_nil_r; by case_match|].
  assert (forall x, head (pre ++ c) ≫= rr_soa_serial = Some x -> x = first) as Hx.
  { intros x Hx. destruct (pre ++ c) as [|rr l]; [done|]. simpl in *. congruence. }
  specialize (Hl [] c (c' :: cs) eq_refl) as Hl0. simpl in Hl0. rewrite app_nil_r in Hl0.
  destruct (head (pre ++ c) ≫= rr_soa_serial) as [x|].
  - rewrite (Hx x eq_refl). destruct (last (pre ++ c) ≫= rr_soa_serial) as [y|].
    + destruct (Z.eqb_spec y first) as [->|]; [by destruct Hl0|]. simpl. rewrite andb_false_r. apply IH; [done|].
      intros cs1 c0 cs2 E Hn. rewrite <- app_assoc. rewrite E in Hl. exact (Hl (c :: cs1) c0 cs2 eq_refl Hn).
    + rewrite andb_false_r. apply IH; [done|].
      intros cs1 c0 cs2 E Hn. rewrite <- app_assoc. rewrite E in Hl. exact (Hl (c :: cs1) c0 cs2 eq_refl Hn).
  - rewrite andb_false_r. apply IH; [done|].
    intros cs1 c0 cs2 E Hn. rewrite <- app_assoc. rewrite E in Hl. exact (Hl (c :: cs1) c0 cs2 eq_refl Hn).
Qed.

Lemma chunks_fuel_prefix {B} n cs1 : (0 < n)%nat -> forall fuel (l : list B) c cs2, (length l <= fuel)%nat ->
  chunks_fuel fuel n l = cs1 ++ c :: cs2 -> cs2 <> [] ->
  concat (cs1 ++ [c]) = take (S (length cs1) * n) l /\ (S (length cs1) * n < length l)%nat.
Proof.
  intros Hn. induction cs1 as [|c1 cs1 IH]; intros [|fuel] [|b l] c cs2 Hf E Hc; try done.
  - cbn [chunks_fuel app] in E. injection E as <- E. simpl concat. rewrite app_nil_r. simpl length. rewrite Nat.mul_1_l. split; [done|].
    destruct (Nat.lt_ge_cases n (length (b :: l))); [done|]. rewrite skipn_all2 in E by done. by destruct fuel.
  - cbn [chunks_fuel app] in E. injection E as <- E. apply IH in E as [E1 E2]; [|rewrite length_skipn; simpl in *; lia|done].
    rewrite length_skipn in E2. cbn [app concat length]. rewrite E1. split.
    + replace (S (S (length cs1)) * n)%nat with (n + S (length cs1) * n)%nat by lia. apply take_take_drop.
    + simpl in *. lia.
Qed.

Lemma chunks_fuel_map {B C} (f : B -> C) n fuel : forall l, chunks_fuel fuel n (map f l) = map (map f) (chunks_fuel fuel n l).
Proof.
  induction fuel as [|fuel IH]; intros [|b l]; try done. cbn [map chunks_fuel]. f_equal.
  - by rewrite <- firstn_map.
  - rewrite <- IH. f_equal. change (f b :: map f l) with (map f (b :: l)). by rewrite skipn_map.
Qed.

(** Incremental transfers.  When no message but the last ends with the current
    SOA, the client of an incremental transfer gets the deltas of the journal in
    order, each with its removals and additions, and the primary's SOA, over any
    number of messages. *)
Theorem ixfr_transfers_the_deltas now signed request apex cur client_serial b (journal : list delta) :
  soa_rr apex cur = Some b -> journal <> [] -> serials_ok (serial cur) client_serial journal ->
  forallb encodes (build_ixfr_messages request apex cur client_serial journal) = true ->
  no_early_stop (serial cur) (map wire_rr (b :: ixfr_steps apex cur client_serial journal ++ [b])) ->
  ixfr_pull now signed (sent encodes (build_ixfr_messages request apex cur client_serial journal)) =
  (fun so => Incremental so (map (parsed_delta now) journal)) <$> transferred_soa b.
Proof.
  unfold build_ixfr_messages. intros Hb Hj Hs He Hstop. rewrite Hb in *. unfold ixfr_pull. rewrite sent_chunks by done.
  set (l := b :: _ ++ [b]) in *. destruct (soa_rr_wire _ _ _ Hb) as (hs & Ehs & En).
  assert (rr_soa_serial (wire_rr b) = Some (serial cur)) as Eb by (unfold rr_soa_serial; rewrite Ehs; simpl; congruence).
  rewrite (ixfr_collect_all signed (serial cur)).
  - rewrite wire_chunks. cbn [app mbind option_bind]. unfold l, ixfr_parse. cbn [map]. rewrite Ehs. cbn [mbind option_bind].
    unfold transferred_soa. rewrite Ehs, En. cbn [fmap option_fmap option_map].
    destruct journal as [|[[n added] removed] journal]; [done|]. destruct Hs as [Hne Hs].
    destruct (soa_with_serial_rr apex cur client_serial b Hb) as (r1 & E1 & S1).
    rewrite <- (ixfr_sequences_steps now apex cur b ((n, added, removed) :: journal) Hb
      (length (map wire_rr (ixfr_steps apex cur client_serial ((n, added, removed) :: journal) ++ [b]))) client_serial);
      [|by rewrite length_map|done].
    cbn [ixfr_steps]. rewrite E1. cbn [opt_to_list app map]. rewrite S1. simpl is_some_and.
    destruct (Z.eqb_spec client_serial (serial cur)); [done|]. done.
  - rewrite wire_chunks. exact Eb.
  - intros cs1 c cs2 E Hn. cbn [app]. unfold chunks in E. rewrite <- chunks_fuel_map in E.
    apply chunks_fuel_prefix in E as [Ec Hk]; [|unfold AXFR_CHUNK_RECORDS; lia|by rewrite length_map|done].
    rewrite Ec, last_lookup, length_take_le by lia. rewrite lookup_take_lt by (unfold AXFR_CHUNK_RECORDS in *; lia).
    rewrite <- Nat.sub_1_r. apply (Hstop (S (length cs1))); [lia|done].
Qed.

(** A single message always arrives whole. *)
Lemma one_message first l : (length l <= AXFR_CHUNK_RECORDS)%nat -> no_early_stop first l.
Proof. intros Hl k Hk Hlt. unfold AXFR_CHUNK_RECORDS in *. lia. Qed.
End transfer_facts.

Section copies.
Context {H : Hickory} {HL : HickoryLaws} {V : Type} {J : Json V}.
Abbreviation DRecord := (DnsRecord V).

(** The records that have a wire form. *)
Definition servable (r : DRecord) : bool := is_some_and (fun _ => true) (to_rr r).

Lemma transferred_copies now l : Forall record_safe l ->
  Forall2 (fun r r' => exists rr, to_rr r = Some rr /\ copies r r' rr) (List.filter servable l) (transferred now l).
Proof.
  unfold transferred. induction 1 as [|r l Hr Hl IH]; [constructor|]. simpl. unfold servable at 1.
  destruct (to_rr r) as [rr|] eqn:E; [|done]. simpl. destruct (record_copied now r rr Hr E) as (r' & -> & Hc).
  constructor; [by exists rr|done].
Qed.

(** A timer of the SOA after a transfer. *)
Definition received_timer (t : Z) : Z := Z.max (as_i32 t) 0.

Lemma received_timer_value t : (0 <= t < 2 ^ 31 -> received_timer t = t) /\ (2 ^ 31 <= t < 2 ^ 32 -> received_timer t = 0).
Proof. unfold received_timer, as_i32. split; intros Ht; case_match; to_prop; lia. Qed.

Lemma soa_received apex s rr : soa_rr apex s = Some rr -> exists so, transferred_soa rr = Some so /\
  serial so = serial s /\ minimum so = minimum s /\ refresh so = received_timer (refresh s) /\
  retry so = received_timer (retry s) /\ expire so = received_timer (expire s).
Proof. intros (a & m & r & _ & _ & _ & ->)%soa_rr_inv. by eexists. Qed.

End copies.

(** ** Sample names and transfers *)

#[export] Instance sample_hickory : Hickory := {|
  HName := string;
  name_from_str s := Some (trim_end_matches "." s);
  name_to_string n := n +:+ ".";
  wire_name n := n;
  HCaa := bool * bool * option string;
  new_issue c n := (c, false, n);
  new_issuewild c n := (c, true, n);
  caa_flags x := if x.1.1 : bool then 0x80 else 0;
  caa_tag x := if x.1.2 : bool then "issuewild"%string else "issue"%string;
  caa_issuer x := x.2;
  wire_caa x := x;
|}.

Lemma trim_end_snoc s : trim_end_matches "." (s +:+ ".") = trim_end_matches "." s.
Proof.
  induction s as [|c s IH]; [done|]. change (String c s +:+ ".") with (String c (s +:+ ".")).
  cbn [trim_end_matches]. by rewrite IH.
Qed.

Lemma trim_end_forallb f s : f "."%char = true -> str_forallb f (trim_end_matches "." s) = true -> str_forallb f s = true.
Proof.
  intros Hf. induction s as [|c s IH]; [done|]. simpl.
  destruct (is_empty (trim_end_matches "." s) && Ascii.eqb c ".") eqn:E.
  - apply andb_true_iff in E as [He ->%Ascii.eqb_eq]. intros _. rewrite Hf, IH; [done|].
    by destruct (trim_end_matches "." s).
  - simpl. intros [-> Hs]%andb_true_iff. by rewrite IH.
Qed.

Lemma safe_graphic s : wire_safe s = true -> str_forallb is_graphic s = true.
Proof.
  intros Hs. apply trim_end_forallb; [done|]. unfold wire_safe in Hs. set (b := trim_end_matches "." s) in *.
  apply andb_true_iff in Hs as [_ Hb]. rewrite <- (join_split b). apply join_forallb; [done|].
  assert (forall l, label_safe l = true -> str_forallb is_graphic l = true) as Hl.
  { intros l Hl%domain_char_safe. eapply str_forallb_impl; [|exact (proj1 Hl)]. by intros c [? _]%andb_true_iff. }
  destruct (split "." b) as [|l ls]; [constructor|]. apply andb_true_iff in Hb as [H1 H2]. constructor.
  - apply orb_true_iff in H1 as [->%String.eqb_eq|H1]; [done|by apply Hl].
  - apply Forall_forall. intros x Hx%list_elem_of_In. apply Hl. by eapply forallb_forall in H2.
Qed.

#[export] Instance sample_laws : HickoryLaws (H := sample_hickory).
Proof.
  split; try done; simpl.
  - intros s _. by eexists.
  - intros s n Hs [= <-]. split.
    + unfold normalize_name. pose proof (safe_graphic s Hs) as Hg. rewrite (trim_graphic s) by done.
      rewrite trim_graphic; [by rewrite trim_end_snoc, trim_end_matches_idem|].
      rewrite str_forallb_app. apply andb_true_iff. split; [|done].
      clear -Hg. induction s as [|c s IH]; [done|]. simpl in *. apply andb_true_iff in Hg as [Hc Hs].
      destruct (_ && _); [done|]. simpl. by rewrite Hc, IH.
    + unfold wire_safe in *. by rewrite trim_end_snoc, trim_end_matches_idem.
  - intros s n p Hs [= <-] Hp. eexists. split; [done|]. by rewrite Hp, trim_end_snoc, trim_end_matches_idem.
  - by intros c n n' ->.
Qed.

Definition sample_request : Message := mkMessage (mkHeader 1 false false false false false RcNoError) [] [] [].
Definition all_encode (m : Message) : bool := true.

Definition sample_zone_records : list (DnsRecord json_value) :=
  [sample_rec "1" "k" "www.example.com" A "address" "192.0.2.1";
   sample_rec "2" "k" "www.example.com" Aaaa "address" "2001:db8::1";
   sample_rec "3" "k" "ftp.example.com" Cname "target" "WWW.example.com"].

Definition sample_boundary : HRecord :=
  from_rdata "example.com"%string 86400 (RSOA (mkHSoa "ns.example.com"%string "admin.example.com"%string 7 3600 900 604800 86400)).

Lemma sample_records_safe : Forall record_safe sample_zone_records.
Proof.
  repeat constructor. intros t [= <-]. reflexivity.
Qed.


(** One change: an address is replaced. *)
Definition sample_delta : Z * list (DnsRecord json_value) * list (DnsRecord json_value) :=
  (7, [sample_rec "9" "k" "www.example.com" A "address" "192.0.2.9"],
      [sample_rec "1" "k" "www.example.com" A "address" "192.0.2.1"]).

Lemma ixfr_transfers_the_deltas_witness : exists so,
  ixfr_pull 9 true (sent all_encode (build_ixfr_messages sample_request "example.com" sample_soa 6 [sample_delta]))
    = Some (Incremental so [parsed_delta 9 sample_delta]) /\ serial so = 7.
Proof.
  eexists. split.
  - rewrite (ixfr_transfers_the_deltas all_encode 9 true sample_request "example.com" sample_soa 6 sample_boundary [sample_delta]);
      [reflexivity|reflexivity|done|by split|reflexivity|]. apply one_message. vm_compute. lia.
  - reflexivity.
Defined.

(** A change that removes 147 records: with the three SOAs before and after them
    the first message is full, and ends with the current SOA. *)
Definition sample_long_delta : Z * list (DnsRecord json_value) * list (DnsRecord json_value) :=
  (7, [sample_rec "9" "k" "www.example.com" A "address" "192.0.2.9"],
      repeat (sample_rec "1" "k" "www.example.com" A "address" "192.0.2.1") 147).

(** The client stops there and loses the additions. *)
Example ixfr_loses_additions :
  match ixfr_pull 9 true (sent all_encode (build_ixfr_messages sample_request "example.com" sample_soa 6 [sample_long_delta])) with
  | Some (Incremental so [(removed, added)]) => serial so = 7 /\ length removed = 147%nat /\ added = []
  | _ => False
  end.
Proof. vm_compute. done. Qed.

(** A message that does not serialise ends a full transfer early; what came before
    it passes for the whole zone. *)
Example axfr_accepts_a_cut_zone :
  let ms := build_axfr_messages sample_request "example.com" sample_soa (repeat (sample_rec "1" "k" "www.example.com" A "address" "192.0.2.1") 200) in
  match axfr_pull 9 false (take 1 (sent all_encode ms) ++ sent (fun _ => false) (skipn 1 ms)) with
  | Some (_, records) => length records = 149%nat
  | None => False
  end.
Proof. vm_compute. done. Qed.
