(* ===== verification/DnsRepl.v ===== *)
(** * DNS replication and dynamic updates

    [magnetite-dns/src/replication.rs] (who may transfer a zone, the refresh of a
    secondary, expiry, the notification of secondaries), the snapshots of
    [resolver.rs] ([load_snapshot], [SnapshotCache]), the transfer server of
    [service.rs] ([build_axfr_stream]), [geo.rs] and the update engine of
    [dynupdate.rs], over the repository of [DnsDb] and the messages of [DnsWire].
    Sockets, TSIG signatures and host name lookup are parameters.  Timestamps are
    nanoseconds. *)

From S2P Require Import Prelude Bytes RustStr RustNet Surreal Serde Dns DnsDb DnsWire.
Local Open Scope db_scope.

(** ** Serials and clocks *)

Definition NANOS : Z := 1000000000.

(** [signed_duration_since(..).num_seconds()] *)
Definition elapsed_secs (now t : Z) : Z := Z.quot (now - t) NANOS.

(** RFC 1982: [a != b && a.wrapping_sub(b) < (1 << 31)]. *)
Definition serial_newer (a b : Z) : bool := negb (a =? b) && ((a - b) mod 2 ^ 32 <? 2 ^ 31).

Definition is_secondary (z : Zone) : bool := match role z with Secondary => true | Primary => false end.

Definition secondary_expired (now : Z) (z : Zone) : bool :=
  if negb (is_secondary z) then false
  else match transfer_state z ≫= last_success with
       | None => true
       | Some ts => expire (soa z) <? elapsed_secs now ts
       end.

Definition refresh_due (now : Z) (z : Zone) : bool :=
  match transfer_state z with
  | None => true
  | Some st =>
      let interval := if last_ok st then refresh (soa z) else Z.max (retry (soa z)) 60 in
      interval <=? elapsed_secs now (last_attempt st)
  end.

(** ** Client subnets ([geo.rs]) *)

Definition cidr_contains (cidr : string) (addr : IpAddr) : bool :=
  match split_once "/" cidr with
  | None => match parse_ip cidr with Some ip => bool_decide (ip = addr) | None => false end
  | Some (net, prefix) =>
      match parse_u32 prefix with
      | None => false
      | Some p =>
          match parse_ip net, addr with
          | Some (V4 n), V4 c => if 32 <? p then false else Z.land n (mask32 p) =? Z.land c (mask32 p)
          | Some (V6 n), V6 c => if 128 <? p then false else Z.land n (mask128 p) =? Z.land c (mask128 p)
          | _, _ => false
          end
      end
  end.

Definition transfer_allowed (z : Zone) (client : IpAddr) : bool :=
  existsb (fun entry => let e := trim entry in eq_ignore_ascii_case e "any" || cidr_contains e client) (allow_transfer z).

Section geo.
Context {V : Type}.

Definition resolve_geo (rules : list (GeoRule V)) (client : IpAddr) : option (Z * V) :=
  rule ← head rules;
  Some (geo_ttl rule,
        match find (fun rg => existsb (fun c => cidr_contains c client) (cidrs rg)) (regions rule) with
        | Some rg => region_data rg
        | None => default_data rule
        end).

Definition geo_resolution (now : Z) (qname : string) (rt : RecordType) (ttl : Z) (data : V) : Resolution V :=
  mkResolution NoError true false false
    [mkDnsRecord EmptyString now now "geodns" EmptyString qname ttl rt data true] None None.

Definition core_record_type (t : HType) : option RecordType :=
  match t with
  | TA => Some A
  | TAAAA => Some Aaaa
  | TCNAME => Some Cname
  | TMX => Some Mx
  | TTXT => Some Txt
  | TNS => Some Ns
  | TPTR => Some Ptr
  | TSRV => Some Srv
  | TCAA => Some Caa
  | _ => None
  end.
End geo.

Section replication.
Context {TZ TR TP TT TJ TG TS TK : Type}.
Context {ZT : Table TZ ZoneRecord} {RT : Table TR RecordRecord} {PT : Table TP RpzRecord}
        {KT : Table TT TsigKeyRecord} {JT : Table TJ JournalRecord} {GT : Table TG GeoRuleRecord}
        {ST : Table TS DnsSettingsRecord} {DT : Table TK DnssecKeyRecord}.
Context {V : Type} {J : Json V} {VD : EqDecision V} (json_null : V).
Context {SO : Serde Soa} {SX : Serde ZoneTransferState} {SV : Serde V} {SR : Serde (list (DnsRecord V))}
        {SG : Serde (list (GeoRegion V))} {SF : Serde (list string)}.
Context (to_rfc3339 : Z -> string) (parse_from_rfc3339 : string -> option Z).
Context (b64_decode : string -> option bytes).
Context {H : Hickory}.

Abbreviation store := (Store TZ TR TP TT TJ TG TS TK).
Abbreviation Db := (M store).
Abbreviation DRecord := (DnsRecord V).
Abbreviation list_zones := (list_zones (TZ := TZ) (TR := TR) (TP := TP) (TT := TT) (TJ := TJ) (TG := TG) (TS := TS) (TK := TK) parse_from_rfc3339).
Abbreviation list_records := (list_records (TZ := TZ) (TR := TR) (TP := TP) (TT := TT) (TJ := TJ) (TG := TG) (TS := TS) (TK := TK) json_null parse_from_rfc3339).
Abbreviation create_record := (create_record (TZ := TZ) (TR := TR) (TP := TP) (TT := TT) (TJ := TJ) (TG := TG) (TS := TS) (TK := TK) json_null to_rfc3339 parse_from_rfc3339).
Abbreviation zone_journal_since := (zone_journal_since (TZ := TZ) (TR := TR) (TP := TP) (TT := TT) (TJ := TJ) (TG := TG) (TS := TS) (TK := TK) (V := V)).

(** ** Snapshots *)

Fixpoint load_zones (now : Z) (zs : list Zone) : Db (list (ZoneData V)) :=
  match zs with
  | [] => mret []
  | z :: zs' =>
      if secondary_expired now z then load_zones now zs'
      else
        do! records <- list_records now (zone_id z);
        do! rest <- load_zones now zs';
        mret (mkZoneData z records :: rest)
  end.

Definition load_snapshot (now : Z) : Db (Snapshot V) :=
  do! zs <- list_zones now;
  do! zds <- load_zones now zs;
  do! rules <- list_rpz parse_from_rfc3339 now;
  mret (mkSnapshot zds rules).

Definition SNAPSHOT_TTL : Z := 2 * NANOS.

Record Cached := mkCached { cached_at : Z; snap : Snapshot V }.

(** [SnapshotCache::get]: the snapshot, and the cache afterwards.  The second look
    under the write lock is the same test on the same value. *)
Definition cache_get (now : Z) (c : option Cached) : Db (Snapshot V * option Cached) :=
  match c with
  | Some e => if now - cached_at e <? SNAPSHOT_TTL then mret (snap e, c)
              else do! s <- load_snapshot now; mret (s, Some (mkCached now s))
  | None => do! s <- load_snapshot now; mret (s, Some (mkCached now s))
  end.

Definition cache_invalidate (c : option Cached) : option Cached := None.

(** ** Signatures *)

Context (Signer : Type) (new_signer : bytes -> TsigAlgorithm -> HName -> option Signer).
(** [verify_tsig]: the MAC of a request whose signature and time are good. *)
Context (verify_tsig : Signer -> bytes -> option bytes).
(** Whether [sign_axfr_messages] signs them all; if not the transfer is dropped. *)
Context (signs : Signer -> list Message -> bytes -> bool).

(** [.await.ok().flatten()]. *)
Definition ok_flatten {B} (r : DbResult (option B)) : option B := match r with Ok o => o | Err _ => None end.

Definition signer_for_key (key_name : string) (s : store) : option Signer :=
  '(alg, secret_b64) ← ok_flatten (get_tsig_secret key_name s).1;
  key ← b64_decode (trim secret_b64);
  name ← name_from_str key_name;
  new_signer key alg name.

Definition zone_signer (z : Zone) (s : store) : option Signer :=
  key_name ← tsig_key_name z; signer_for_key key_name s.

(** ** Serving transfers *)

(** The messages of a transfer, chained to the request's MAC when signed. *)
Inductive stream := PlainStream (ms : list Message) | SignedStream (sg : Signer) (mac : bytes) (ms : list Message).

Definition stream_messages (st : stream) : list Message :=
  match st with PlainStream ms => ms | SignedStream _ _ ms => ms end.

Definition client_soa_serial (request : Message) : option Z :=
  head (filter_map rr_soa_serial (m_name_servers request)).

Definition bridges (journal : list (Z * list DRecord * list DRecord)) (client_serial current : Z) : bool :=
  bool_decide ((fun d => d.1.1) <$> head journal = Some ((client_serial + 1) mod 2 ^ 32))
  && bool_decide ((fun d => d.1.1) <$> last journal = Some current).

(** [None] is the empty vector: the transfer is refused. *)
Definition build_axfr_stream (now : Z) (request : Message) (qname : string) (client : IpAddr) (request_bytes : bytes)
    (s : store) : option stream :=
  match (load_snapshot now s).1 with
  | Err _ => None
  | Ok snapshot =>
      let want := normalize_name qname in
      match find (fun z => zone_enabled (zd_zone z) && String.eqb (normalize_name (zone_name (zd_zone z))) want) (zones snapshot) with
      | None => None
      | Some zd =>
          if negb (transfer_allowed (zd_zone zd) client) then None
          else
            let cur := soa (zd_zone zd) in
            let reply ms (auth : option (Signer * bytes)) :=
              match auth with
              | Some (sg, mac) => match ms with [] => None | _ => if signs sg ms mac then Some (SignedStream sg mac ms) else None end
              | None => match ms with [] => None | _ => Some (PlainStream ms) end
              end in
            let serve (auth : option (Signer * bytes)) :=
              let full := reply (build_axfr_messages request want cur (zd_records zd)) auth in
              if bool_decide (snd <$> head (m_queries request) = Some TIXFR) then
                match client_soa_serial request with
                | None => full
                | Some client_serial =>
                    if client_serial =? serial cur then reply (build_ixfr_uptodate request want cur) auth
                    else match (zone_journal_since (zone_id (zd_zone zd)) client_serial s).1 with
                         | Ok journal => if bridges journal client_serial (serial cur)
                                         then reply (build_ixfr_messages request want cur client_serial journal) auth
                                         else full
                         | Err _ => full
                         end
                end
              else full in
            match zone_signer (zd_zone zd) s with
            | Some sg => match verify_tsig sg request_bytes with
                         | Some mac => serve (Some (sg, mac))
                         | None => None
                         end
            | None => serve None
            end
      end
  end.

(** ** Refreshing a secondary *)

(** What the network answers at one instant: name lookup, the SOA query, and the
    frames of a transfer ([None]: no connection, or the query was not sent). *)
Record network := mkNetwork {
  Addr : Type;
  resolve_target : string -> option Addr;
  query_soa_serial : Addr -> string -> option Signer -> option Z;
  axfr_frames : Addr -> string -> option Signer -> option (list frame);
  ixfr_frames : Addr -> string -> Z -> option Signer -> option (list frame);
}.

Definition is_some {B} (o : option B) : bool := match o with Some _ => true | None => false end.

Definition record_state (now : Z) (zone_id : string) (n : Z) (ok : bool) (error : option string) (prev_success : option Z)
  : Db unit :=
  ignore (set_zone_transfer_state zone_id
            (mkZoneTransferState n now ok error (if ok then Some now else prev_success))).

(** The serial that is recorded is the one transferred, whatever the store says. *)
Definition store_full (now : Z) (zid : string) (so : Soa) (records : list DRecord) : Db Z :=
  let records := map (with_zone zid) records in
  do! _ <- ignore (replace_zone_records json_null to_rfc3339 parse_from_rfc3339 now zid so records);
  mret (serial so).

Fixpoint apply_deltas (now : Z) (zid : string) (sequences : list (list DRecord * list DRecord)) : Db unit :=
  match sequences with
  | [] => mret ()
  | (removed, added) :: rest =>
      do! _ <- ignore (apply_zone_delta json_null to_rfc3339 parse_from_rfc3339 now zid removed added);
      apply_deltas now zid rest
  end.

(** One primary: [true] when the function returns there. *)
Definition refresh_from (now : Z) (net : network) (z : Zone) (signer : option Signer) (addr : Addr net) : Db bool :=
  let zid := zone_id z in
  let prev_success := transfer_state z ≫= last_success in
  let signed := is_some signer in
  let axfr :=
    match axfr_frames net addr (zone_name z) signer ≫= axfr_pull now signed with
    | Some (so, records) =>
        do! n <- store_full now zid so records;
        do! _ <- record_state now zid n true None prev_success;
        mret true
    | None => mret false
    end in
  if is_some prev_success then
    match ixfr_frames net addr (zone_name z) (serial (soa z)) signer ≫= ixfr_pull now signed with
    | Some UpToDate => do! _ <- record_state now zid (serial (soa z)) true None prev_success; mret true
    | Some (Incremental new_soa sequences) =>
        do! _ <- apply_deltas now zid sequences;
        do! _ <- ignore (set_zone_soa to_rfc3339 now zid new_soa);
        do! _ <- record_state now zid (serial new_soa) true None prev_success;
        mret true
    | Some (Full so records) =>
        do! n <- store_full now zid so records;
        do! _ <- record_state now zid n true None prev_success;
        mret true
    | None => mret false
    end
  else
    match last_serial <$> transfer_state z, query_soa_serial net addr (zone_name z) signer with
    | Some cur, Some remote =>
        if negb (serial_newer remote cur)
        then do! _ <- record_state now zid cur true None prev_success; mret true
        else axfr
    | _, _ => axfr
    end.

Fixpoint refresh_primaries (now : Z) (net : network) (z : Zone) (signer : option Signer) (primaries : list string) : Db unit :=
  match primaries with
  | [] => record_state now (zone_id z) (unwrap_or 0 (last_serial <$> transfer_state z)) false
            (Some "no primary reachable"%string) (transfer_state z ≫= last_success)
  | p :: primaries' =>
      match resolve_target net p with
      | None => refresh_primaries now net z signer primaries'
      | Some addr =>
          do! done_ <- refresh_from now net z signer addr;
          if done_ then mret () else refresh_primaries now net z signer primaries'
      end
  end.

Definition refresh_secondary (now : Z) (net : network) (z : Zone) : Db unit :=
  fun s => refresh_primaries now net z (zone_signer z s) (primaries z) s.

(** ** The background task *)

(** One scan: the zones whose secondaries are notified, the zones refreshed, and
    the serials seen. *)
Definition scan_primary (seen : gmap string Z) (z : Zone) : gmap string Z * bool :=
  if negb (notify_enabled z) || bool_decide (also_notify z = []) then (seen, false)
  else
    match seen !! zone_name z with
    | None => (<[zone_name z := serial (soa z)]> seen, false)
    | Some prev => if serial_newer (serial (soa z)) prev then (<[zone_name z := serial (soa z)]> seen, true)
                   else (seen, false)
    end.

Fixpoint scan (now : Z) (net : network) (zs : list Zone) (seen : gmap string Z) (notified : list string)
  : Db (gmap string Z * list string) :=
  match zs with
  | [] => mret (seen, notified)
  | z :: zs' =>
      if negb (zone_enabled z) then scan now net zs' seen notified
      else if is_secondary z then
        do! _ <- (if refresh_due now z then refresh_secondary now net z else mret ());
        scan now net zs' seen notified
      else
        let (seen, notify) := scan_primary seen z in
        scan now net zs' seen (if notify then notified ++ [zone_name z] else notified)
  end.

(** A tick of the task, and a forced refresh on NOTIFY. *)
Definition tick (now : Z) (net : network) (seen : gmap string Z) : Db (gmap string Z * list string) := fun s =>
  match list_zones now s with
  | (Ok zs, s') => scan now net zs seen [] s'
  | (Err _, s') => (Ok (seen, []), s')
  end.

Definition forced_refresh (now : Z) (net : network) (name : string) : Db unit := fun s =>
  match list_zones now s with
  | (Ok zs, s') => match find (fun z => is_secondary z && String.eqb (zone_name z) name) zs with
                   | Some z => refresh_secondary now net z s'
                   | None => (Ok (), s')
                   end
  | (Err _, s') => (Ok (), s')
  end.

(** ** Dynamic updates *)

Definition norm (name : string) : string := to_ascii_lowercase (trim_end_matches "." name).

Definition core_type (t : HType) : option RecordType := core_record_type t.

Definition same_rr (a b : DRecord) : bool :=
  String.eqb (norm (rec_name a)) (norm (rec_name b)) && RecordType_eqb (record_type a) (record_type b)
  && bool_decide (rec_data a = rec_data b).

Definition update_in_zone (name zone : string) : bool := String.eqb name zone || ends_with name ("." +:+ zone).

Definition check_prerequisite (now : Z) (pre : HRecord) (existing : list DRecord) : ResponseCode + unit :=
  let name := norm (name_to_string (hr_name pre)) in
  let name_in_use := existsb (fun r => String.eqb (norm (rec_name r)) name) existing in
  let t := rdata_type (hr_data pre) in
  let rrset_exists := is_some_and (fun ct => existsb (fun r => String.eqb (norm (rec_name r)) name
                                                              && RecordType_eqb (record_type r) ct) existing) (core_type t) in
  match hr_class pre with
  | CANY =>
      if HType_eqb t TANY then if negb name_in_use then inl RcNXDomain else inr ()
      else if negb rrset_exists then inl RcNXRRSet else inr ()
  | CNONE =>
      if HType_eqb t TANY then if name_in_use then inl RcYXDomain else inr ()
      else if rrset_exists then inl RcYXRRSet else inr ()
  | _ =>
      match from_rr now pre with
      | None => inl RcFormErr
      | Some rec => if negb (existsb (fun r => same_rr r rec) existing) then inl RcNXRRSet else inr ()
      end
  end.

(** [.map_err(|_| ResponseCode::ServFail)?]. *)
Definition or_servfail {B} (m : Db B) : store -> (ResponseCode + B) * store := fun s =>
  match m s with (Ok b, s') => (inr b, s') | (Err _, s') => (inl RcServFail, s') end.

Fixpoint delete_existing (rs : list DRecord) (s : store) : (ResponseCode + unit) * store :=
  match rs with
  | [] => (inr (), s)
  | r :: rs' =>
      match or_servfail (delete_record (rec_id r)) s with
      | (inl c, s') => (inl c, s')
      | (inr _, s') => delete_existing rs' s'
      end
  end.

Definition for_update (zone_id : string) (r : DRecord) : DRecord :=
  mkDnsRecord (rec_id r) (rec_created_at r) (rec_updated_at r) "dynamic-update" zone_id (rec_name r) (rec_ttl r)
    (record_type r) (rec_data r) (rec_enabled r).

Definition apply_one (now : Z) (zone_id : string) (up : HRecord) (existing : list DRecord) (s : store)
  : (ResponseCode + unit) * store :=
  let name := norm (name_to_string (hr_name up)) in
  let t := rdata_type (hr_data up) in
  match hr_class up with
  | CIN =>
      match from_rr now up with
      | None => (inl RcFormErr, s)
      | Some rec =>
          let rec := for_update zone_id rec in
          if negb (existsb (fun r => same_rr r rec) existing)
          then match or_servfail (create_record now rec) s with
               | (inl c, s') => (inl c, s')
               | (inr _, s') => (inr (), s')
               end
          else (inr (), s)
      end
  | CANY =>
      delete_existing
        (List.filter (fun r => HType_eqb t TANY || bool_decide (core_type t = Some (record_type r)))
           (List.filter (fun r => String.eqb (norm (rec_name r)) name) existing)) s
  | CNONE =>
      match from_rr now up with
      | None => (inr (), s)
      | Some rec => delete_existing (List.filter (fun r => same_rr r rec) existing) s
      end
  | COther _ => (inl RcFormErr, s)
  end.

Fixpoint check_prerequisites (now : Z) (pres : list HRecord) (existing : list DRecord) : ResponseCode + unit :=
  match pres with
  | [] => inr ()
  | p :: pres' => match check_prerequisite now p existing with
                  | inl c => inl c
                  | inr () => check_prerequisites now pres' existing
                  end
  end.

Fixpoint apply_all (now : Z) (zone_id : string) (ups : list HRecord) (existing : list DRecord) (s : store)
  : (ResponseCode + unit) * store :=
  match ups with
  | [] => (inr (), s)
  | up :: ups' =>
      match apply_one now zone_id up existing s with
      | (inl c, s') => (inl c, s')
      | (inr (), s') => apply_all now zone_id ups' existing s'
      end
  end.

Definition apply (now : Z) (request : Message) (s : store) : (ResponseCode + ResponseCode) * store :=
  match head (m_queries request) with
  | None => (inl RcFormErr, s)
  | Some (qname, qt) =>
      if negb (HType_eqb qt TSOA) then (inl RcFormErr, s)
      else
        let zname := norm (name_to_string qname) in
        match list_zones now s with
        | (Err _, s) => (inl RcServFail, s)
        | (Ok zs, s) =>
            match find (fun z => String.eqb (norm (zone_name z)) zname) zs with
            | None => (inl RcNotAuth, s)
            | Some zone =>
                match list_records now (zone_id zone) s with
                | (Err _, s) => (inl RcServFail, s)
                | (Ok existing, s) =>
                    match check_prerequisites now (m_answers request) existing with
                    | inl c => (inl c, s)
                    | inr () =>
                        if negb (forallb (fun up => update_in_zone (norm (name_to_string (hr_name up))) zname) (m_name_servers request))
                        then (inl RcNotZone, s)
                        else match apply_all now (zone_id zone) (m_name_servers request) existing s with
                             | (inl c, s) => (inl c, s)
                             | (inr (), s) => (inr RcNoError, s)
                             end
                    end
                end
            end
        end
  end.

Definition set_update (h : Header) : Header :=
  mkHeader (h_id h) true true (h_authoritative h) (h_recursion_desired h) (h_recursion_available h) (h_rcode h).

Definition handle_update (now : Z) (request : Message) (s : store) : Message * store :=
  let (r, s') := apply now request s in
  let code := match r with inl c | inr c => c end in
  (mkMessage (set_rcode code (set_update (response_from_request (m_header request)))) (m_queries request) [] [], s').

(** ** Snapshots *)

Lemma list_zones_run now s l s' : list_zones now s = (Ok l, s') ->
  s' = s /\ l ≡ₚ map (ZoneRecord_into_model parse_from_rfc3339 now) (rows (zone_t s)).
Proof.
  intros E. apply (wp_run_ok _ (fun l s' => s' = s /\ l ≡ₚ map (ZoneRecord_into_model parse_from_rfc3339 now) (rows (zone_t s))) _ _ _ E).
  by apply wp_list_zones.
Qed.

Lemma load_zones_run now zs : forall s zds s', load_zones now zs s = (Ok zds, s') ->
  s' = s /\ map zd_zone zds = List.filter (fun z => negb (secondary_expired now z)) zs /\
  Forall (fun zd => list_records now (zone_id (zd_zone zd)) s = (Ok (zd_records zd), s)) zds.
Proof.
  induction zs as [|z zs IH]; intros s zds s'; simpl; [by intros [= <- <-]|].
  destruct (secondary_expired now z); simpl; [apply IH|].
  intros [(? & _ & ?)|(l & s1 & El & E)]%mbind_inv; [done|].
  pose proof El as [-> _]%list_records_run.
  apply mbind_inv in E as [(? & _ & ?)|(rest & s2 & Er & E)]; [done|]. injection E as <- <-.
  apply IH in Er as (-> & Em & Hf). split_and!; [done|simpl; by rewrite Em|by constructor].
Qed.

Lemma load_snapshot_run now s sn s' : load_snapshot now s = (Ok sn, s') -> s' = s /\
  (exists zs, list_zones now s = (Ok zs, s) /\ map zd_zone (zones sn) = List.filter (fun z => negb (secondary_expired now z)) zs) /\
  Forall (fun zd => list_records now (zone_id (zd_zone zd)) s = (Ok (zd_records zd), s)) (zones sn).
Proof.
  intros [(? & _ & ?)|(zs & s1 & Ez & E)]%mbind_inv; [done|]. pose proof Ez as [-> _]%list_zones_run.
  apply mbind_inv in E as [(? & _ & ?)|(zds & s2 & Ezd & E)]; [done|]. pose proof Ezd as (-> & Em & Hf)%load_zones_run.
  apply mbind_inv in E as [(? & _ & ?)|(rl & s3 & Erpz & E)]; [done|]. injection E as <- <-. simpl.
  assert (s3 = s) as ->; [|naive_solver].
  unfold list_rpz in Erpz. apply mbind_inv in Erpz as [(? & _ & ?)|(? & s4 & Eq & E)]; [done|].
  unfold read_from in Eq. injection E as _ ->. by injection Eq.
Qed.

(** ** Who gets a transfer *)

(** A reply is the messages it is made of. *)
Lemma build_axfr_stream_inv now request qname client request_bytes s st :
  build_axfr_stream now request qname client request_bytes s = Some st ->
  exists sn zd, (load_snapshot now s).1 = Ok sn /\ In zd (zones sn) /\ zone_enabled (zd_zone zd) = true /\
    normalize_name (zone_name (zd_zone zd)) = normalize_name qname /\ transfer_allowed (zd_zone zd) client = true /\
    match zone_signer (zd_zone zd) s with
    | Some sg => exists mac ms, verify_tsig sg request_bytes = Some mac /\ st = SignedStream sg mac ms
    | None => exists ms, st = PlainStream ms
    end /\
    (snd <$> head (m_queries request) <> Some TIXFR ->
     stream_messages st = build_axfr_messages request (normalize_name qname) (soa (zd_zone zd)) (zd_records zd)).
Proof.
  unfold build_axfr_stream. destruct (load_snapshot now s).1 as [sn|]; [|done].
  destruct (find _ _) as [zd|] eqn:Ef; [|done]. apply find_some in Ef as [Hin [He Hn%String.eqb_eq]%andb_true_iff].
  destruct (transfer_allowed _ _) eqn:Ea; [|done]. simpl. intros E. exists sn, zd. split_and!; [done..| |].
  - destruct (zone_signer _ _) as [sg|]; [destruct (verify_tsig sg _) as [mac|]; [|done]|];
      repeat (case_match; try done); injection E as <-; by eauto.
  - intros Hq. rewrite bool_decide_eq_false_2 in E by done.
    destruct (zone_signer _ _) as [sg|]; [destruct (verify_tsig sg _) as [mac|]; [|done]|];
      repeat (case_match; try done); by injection E as <-.
Qed.

(** Transfers.  A transfer, full or incremental, is only given for an enabled zone
    of the store that has not expired, to a client whose address is on the zone's
    list (an empty list allows nobody), and, if the zone has a usable key, only
    against a request whose signature verifies, and then signed. *)
Theorem transfers_are_authorized now request qname client request_bytes s st :
  build_axfr_stream now request qname client request_bytes s = Some st ->
  exists z zs, list_zones now s = (Ok zs, s) /\ In z zs /\ zone_enabled z = true /\ secondary_expired now z = false /\
    normalize_name (zone_name z) = normalize_name qname /\
    (exists entry, In entry (allow_transfer z) /\
       (eq_ignore_ascii_case (trim entry) "any" = true \/ cidr_contains (trim entry) client = true)) /\
    forall sg, zone_signer z s = Some sg -> exists mac ms, verify_tsig sg request_bytes = Some mac /\ st = SignedStream sg mac ms.
Proof.
  intros (sn & zd & El & Hin & He & Hn & Ha & Hs & _)%build_axfr_stream_inv.
  destruct (load_snapshot now s) as [r s'] eqn:E. simpl in El. subst r.
  apply load_snapshot_run in E as (-> & (zs & Ez & Em) & _). exists (zd_zone zd), zs.
  pose proof (in_map zd_zone _ _ Hin) as Hf. rewrite Em in Hf. apply filter_In in Hf as [Hz Hx%negb_true_iff].
  split_and!; [done..| |intros sg Esg; by rewrite Esg in Hs].
  apply existsb_exists in Ha as (entry & ? & Hor%orb_true_iff). by exists entry.
Qed.

(** ** A full refresh *)

Lemma NoDup_ord_pairs {B C} (f : B -> C) (R : B -> B -> Prop) l : NoDup (map f l) ->
  (forall x y, In x l -> In y l -> f x <> f y -> R x y) -> ForallOrdPairs R l.
Proof.
  induction l as [|x l IH]; intros Hn HR; [constructor|]. simpl in Hn. apply NoDup_cons in Hn as [Hx Hn]. constructor.
  - apply Forall_forall. intros y Hy%list_elem_of_In. apply HR; [by left|by right|]. intros E. apply Hx.
    apply list_elem_of_In. rewrite E. by apply in_map.
  - apply IH; [done|]. intros a b Ha Hb. apply HR; by right.
Qed.

Lemma ord_pairs_filter {B} (R : B -> B -> Prop) p l : ForallOrdPairs R l -> ForallOrdPairs R (List.filter p l).
Proof.
  induction 1 as [|x l Hx Hl IH]; [constructor|]. simpl. destruct (p x); [|done]. constructor; [|done].
  rewrite Forall_forall in *. intros y [Hy _]%list_elem_of_In%filter_In. by apply Hx, list_elem_of_In.
Qed.

(** The records a store lists for a zone may be in one zone together. *)
Lemma listed_compatible now z s l s' : store_ok s -> list_records now z s = (Ok l, s') -> ForallOrdPairs compatible l.
Proof.
  intros (_ & [Hw Hc] & _) [-> Hl]%list_records_run. apply (NoDup_ord_pairs rec_id).
  - rewrite Hl, map_map. rewrite (map_ext _ fst) by (by intros [k w]). apply NoDup_map_filter, rows_keys.
  - intros r1 r2 H1 H2 Hne. apply (perm_In _ _ _ Hl) in H1, H2.
    apply in_map_iff in H1 as ([k1 w1] & <- & H1), H2 as ([k2 w2] & <- & H2). unfold zone_rows, in_zone in H1, H2.
    apply filter_In in H1 as [H1 E1%String.eqb_eq], H2 as [H2 E2%String.eqb_eq]. intros En. simpl in *.
    rewrite (proj1 (Hw _ _ H1)), (proj1 (Hw _ _ H2)) in En. apply (Hc k1 w1 k2 w2 H1 H2 Hne); congruence.
Qed.

Lemma listed_stable now z s l s' : store_ok s -> list_records now z s = (Ok l, s') -> Forall (fun r => stable (rec_name r)) l.
Proof.
  intros (_ & [Hw _] & _) [-> Hl]%list_records_run. rewrite Hl. apply Forall_forall. intros r Hr%list_elem_of_In.
  apply in_map_iff in Hr as ([k w] & <- & [Hr _]%filter_In). unfold stable. simpl. by rewrite !(proj1 (Hw _ _ Hr)).
Qed.

(** Two lists that agree on names and types. *)
Definition same_owner (r r' : DRecord) : Prop :=
  normalize_name (rec_name r') = normalize_name (rec_name r) /\ record_type r' = record_type r.

Lemma same_owner_compatible l l' : Forall2 same_owner l l' -> ForallOrdPairs compatible l -> ForallOrdPairs compatible l'.
Proof.
  induction 1 as [|r r' l l' [En Et] Hl IH]; intros Hc; [constructor|]. inversion Hc as [|? ? Hr Hrest]; subst.
  constructor; [|by apply IH]. clear -Hl Hr En Et. induction Hl as [|x x' l l' [En' Et'] Hl IH]; [constructor|].
  apply Forall_cons in Hr as [Hx Hr]. constructor; [|by apply IH]. intros E. rewrite Et, Et'. apply Hx. congruence.
Qed.

Lemma same_owner_stable l l' : Forall2 same_owner l l' -> Forall (fun r => stable (rec_name r)) l ->
  Forall (fun r => stable (rec_name r)) l'.
Proof.
  induction 1 as [|r r' l l' [En _] Hl IH]; intros Hs; [constructor|]. apply Forall_cons in Hs as [Hr Hs].
  constructor; [|by apply IH]. unfold stable in *. by rewrite En.
Qed.

Section refresh.
Context {RTT : TotalTable TR RecordRecord} {ZTT : TotalTable TZ ZoneRecord}.

(** A load of records that may be together succeeds. *)
Lemma replace_zone_records_total now z so recs (s : store) :
  Forall (fun r => rec_zone r = z /\ stable (rec_name r)) recs -> ForallOrdPairs compatible recs ->
  (replace_zone_records json_null to_rfc3339 parse_from_rfc3339 now z so recs s).1 = Ok ().
Proof.
  intros Hz Hc. unfold replace_zone_records, set_zone_soa, update_zone_row, on_zones, on_records, on_table, mbind_.
  destruct (update_where_total (fun k _ => String.eqb k z) (zr_set_soa (json_text so) (to_rfc3339 now)) (zone_t s)) as (l & t & Eu).
  rewrite Eu. simpl. destruct (delete_where_total (fun r => String.eqb (rec_r_zone r) z) (record_t s)) as (t1 & Ed). rewrite Ed.
  destruct (create_all _ _ _ now recs 0 _) as [r s2] eqn:Er.
  assert (r = Ok 0) as ->; [|done]. change r with (r, s2).1. rewrite <- Er.
  apply (create_all_total json_null to_rfc3339 parse_from_rfc3339 now z); [done..|].
  intros k w r0 Hin Ew. simpl in Hin. apply delete_where_ok in Ed. apply (perm_In _ _ _ Ed), filter_In in Hin as [_ Hn].
  simpl in Hn. by rewrite Ew, String.eqb_refl in Hn.
Qed.

Lemma update_zone_row_total id f (s : store) : exists t,
  ignore (do! _ <- update_zone_row id f; mret ()) s = (Ok (), put_zones t s) /\
  rows t ≡ₚ map (fun kr => if String.eqb kr.1 id then (kr.1, f kr.2) else kr) (rows (zone_t s)).
Proof.
  unfold ignore, update_zone_row, on_zones, on_table, mbind_.
  destruct (update_where_total (fun k _ => String.eqb k id) f (zone_t s)) as (l & t & E). rewrite E. exists t. split; [done|].
  by apply update_where_ok in E as [? _].
Qed.

(** What a refresh at [at_] promises: the zone has the given records and SOA, its
    state says so, and the records of other zones are as they were. *)
Definition holds (z : string) (so : Soa) (recs : list DRecord) (at_ : Z) (s s' : store) : Prop :=
  zone_content z s' ≡ₚ map record_content recs /\ elsewhere z s' ≡ₚ elsewhere z s /\
  forall now w, In (z, w) (rows (zone_t s')) ->
    let m := ZoneRecord_into_model parse_from_rfc3339 now (z, w) in
    soa m = so /\ transfer_state m = Some (mkZoneTransferState (serial so) at_ true None (Some at_)).

Lemma store_full_holds now zid so recs prev (s : store) :
  Forall (fun r => stable (rec_name r)) recs -> ForallOrdPairs compatible recs ->
  exists s', (do! n <- store_full now zid so recs; do! _ <- record_state now zid n true None prev; mret true) s = (Ok true, s') /\
    holds zid so recs now s s'.
Proof.
  intros Hst Hc. unfold store_full. set (recs' := map (with_zone zid) recs).
  assert (Forall (fun r => rec_zone r = zid /\ stable (rec_name r)) recs') as Hz'.
  { unfold recs'. clear -Hst. induction Hst; by constructor. }
  assert (ForallOrdPairs compatible recs') as Hc'.
  { unfold recs'. clear -Hc. induction Hc as [|r l Hr Hl IH]; constructor; [|done]. clear -Hr. induction Hr; by constructor. }
  pose proof (replace_zone_records_total now zid so recs' s Hz' Hc') as Hok.
  destruct (replace_zone_records json_null to_rfc3339 parse_from_rfc3339 now zid so recs' s) as [r s1] eqn:E. simpl in Hok. subst r.
  pose proof E as [Hels Hcont]%replace_zone_records_spec; [|by eapply Forall_impl; [exact Hz'|intros ? []]].
  destruct (Hcont eq_refl) as [Hcn Hzr].
  destruct (update_zone_row_total zid (zr_set_transfer_state (json_text (mkZoneTransferState (serial so) now true None (Some now)))) s1)
    as (t & Et & Ht).
  rewrite (mbind_ok _ _ s (serial so) s1) by (unfold mbind_, ignore; by rewrite E).
  rewrite (mbind_ok _ _ s1 () (put_zones t s1)) by exact Et. eexists. split; [done|]. split_and!.
  - change (zone_content zid s1 ≡ₚ map record_content recs). rewrite Hcn. unfold recs'. by rewrite map_map.
  - exact Hels.
  - intros now1 w Hw. simpl in Hw. apply (perm_In _ _ _ Ht) in Hw. apply in_map_iff in Hw as ([k w1] & E1 & Hw).
    apply (perm_In _ _ _ Hzr) in Hw. apply in_map_iff in Hw as ([k0 w0] & E0 & _).
    simpl in *. destruct (String.eqb_spec k zid) as [->|Hk]; [|congruence].
    destruct (String.eqb_spec k0 zid) as [->|Hk0]; [|congruence]. simplify_eq. simpl. by rewrite !of_json_text.
Qed.

End refresh.

Section mirror.
Context {HL : HickoryLaws} {RTT : TotalTable TR RecordRecord} {ZTT : TotalTable TZ ZoneRecord}.
Context (encodes : Message -> bool).

(** The names of a store are ones the wire can carry. *)
Definition carriable (now : Z) (s : store) : Prop :=
  (forall kr, In kr (rows (record_t s)) -> record_safe (RecordRecord_into_model json_null parse_from_rfc3339 now kr)) /\
  (forall kr, In kr (rows (zone_t s)) -> let z := ZoneRecord_into_model parse_from_rfc3339 now kr in
     wire_safe (mname (soa z)) = true /\ wire_safe (rname (soa z)) = true).

Lemma soa_rr_total apex so : wire_safe apex = true -> wire_safe (mname so) = true -> wire_safe (rname so) = true ->
  is_Some (soa_rr apex so).
Proof.
  intros (a & Ea)%name_parses (m & Em)%name_parses (r & Er)%name_parses. unfold soa_rr. rewrite Ea, Em, Er. by eexists.
Qed.

(** What the client of a full transfer receives from a well-formed store. *)
Lemma transfer_received now request qname client rb sp st now' signed :
  store_ok sp -> carriable now sp -> wire_safe (normalize_name qname) = true ->
  build_axfr_stream now request qname client rb sp = Some st ->
  snd <$> head (m_queries request) <> Some TIXFR -> forallb encodes (stream_messages st) = true ->
  exists zp zs l so,
    (list_zones now sp = (Ok zs, sp) /\ In zp zs /\ normalize_name (zone_name zp) = normalize_name qname) /\
    list_records now (zone_id zp) sp = (Ok l, sp) /\
    axfr_pull now' signed (sent encodes (stream_messages st)) = Some (so, transferred now' l) /\
    serial so = serial (soa zp) /\ Forall record_safe l.
Proof.
  intros Hok [Hsafe Hnames] Hq Hst Hnot Henc.
  apply build_axfr_stream_inv in Hst as (sn & zd & El & Hin & _ & Hn & _ & _ & Hms). specialize (Hms Hnot).
  destruct (load_snapshot now sp) as [r s'] eqn:E. simpl in El. subst r.
  apply load_snapshot_run in E as (-> & (zs & Ez & Em) & Hrec). eapply Forall_forall in Hrec; [|by apply list_elem_of_In].
  pose proof (in_map zd_zone _ _ Hin) as Hf. rewrite Em in Hf. apply filter_In in Hf as [Hzin _].
  pose proof Ez as [_ Hzs]%list_zones_run. pose proof Hrec as [_ Hl]%list_records_run.
  pose proof (perm_In _ _ _ Hzs Hzin) as Hz. apply in_map_iff in Hz as (kr & Ekr & Hkr).
  destruct (Hnames kr Hkr) as [Hmn Hrn]. rewrite Ekr in Hmn, Hrn.
  destruct (soa_rr_total _ _ Hq Hmn Hrn) as [b Hb]. rewrite Hms in *.
  rewrite (axfr_received encodes now' signed request _ _ b _ Hb Henc).
  unfold transferred_soa. destruct (soa_rr_wire _ _ _ Hb) as (hs & -> & Es). simpl.
  exists (zd_zone zd), zs, (zd_records zd). eexists. split_and!; [done..| |].
  - exact Es.
  - rewrite Hl. apply Forall_forall. intros r Hr%list_elem_of_In. apply in_map_iff in Hr as (kr' & <- & [Hr _]%filter_In). by apply Hsafe.
Qed.


End mirror.

(** ** Serials *)

Lemma iter_next_serial n k : 0 <= n < 2 ^ 32 -> Z.of_nat k < 2 ^ 31 -> let m := Nat.iter k next_serial n in
  m = n + Z.of_nat k /\ m < 2 ^ 32 \/ m = n + Z.of_nat k + 1 - 2 ^ 32 /\ 1 <= m.
Proof.
  intros Hn. induction k as [|k IH]; intros Hk; [simpl; left; lia|]. rewrite Nat.iter_succ. cbv zeta in *.
  set (m := Nat.iter k next_serial n) in *. unfold next_serial at 1 2 3 4.
  destruct IH as [[E Hm]|[E Hm]]; [lia| |].
  - destruct (Z.eq_dec m (2 ^ 32 - 1)) as [->|Hne].
    + right. change ((2 ^ 32 - 1 + 1) mod 2 ^ 32) with 0. lia.
    + left. rewrite Z.mod_small by lia. lia.
  - right. rewrite Z.mod_small by lia. lia.
Qed.

(** Notification.  However the serial of a primary zone is bumped between two
    scans, up to 2^31 - 2 times and across the wrap-around, the scan sees a newer
    serial, remembers it and notifies; a secondary that compares the two serials
    takes the new one for newer and never the old one. *)
Theorem bumps_are_noticed seen z n k :
  0 <= n < 2 ^ 32 -> 1 <= Z.of_nat k <= 2 ^ 31 - 2 -> notify_enabled z = true -> also_notify z <> [] ->
  seen !! zone_name z = Some n -> serial (soa z) = Nat.iter k next_serial n ->
  scan_primary seen z = (<[zone_name z := serial (soa z)]> seen, true) /\
  serial_newer (serial (soa z)) n = true /\ serial_newer n (serial (soa z)) = false.
Proof.
  intros Hn Hk He Ha Hs Hm. pose proof (iter_next_serial n k Hn ltac:(lia)) as Hi. cbv zeta in Hi. rewrite <- Hm in Hi.
  assert (serial_newer (serial (soa z)) n = true /\ serial_newer n (serial (soa z)) = false) as [H1 H2].
  { unfold serial_newer. set (m := serial (soa z)) in *.
    assert (m <> n) as Hne by lia. rewrite (proj2 (Z.eqb_neq m n)), (proj2 (Z.eqb_neq n m)) by lia. simpl.
    rewrite Z.ltb_lt, Z.ltb_ge. destruct Hi as [[E Hm1]|[E Hm1]].
    - rewrite (Z.mod_small (m - n)) by lia. split; [lia|]. rewrite <- (Z_mod_plus_full _ 1), Z.mod_small by lia. lia.
    - rewrite <- (Z_mod_plus_full (m - n) 1), Z.mod_small by lia. split; [lia|]. rewrite Z.mod_small by lia. lia. }
  split_and!; [|done..]. unfold scan_primary. rewrite He, bool_decide_eq_false_2 by done. simpl. by rewrite Hs, H1.
Qed.

(** ** Expiry *)

(** A cache entry was loaded from some state of the store. *)
Definition cache_ok (now : Z) (c : option Cached) : Prop :=
  forall e, c = Some e -> cached_at e <= now /\ exists s s', load_snapshot (cached_at e) s = (Ok (snap e), s').

Lemma snapshot_not_expired t s sn s' zd : load_snapshot t s = (Ok sn, s') -> In zd (zones sn) ->
  secondary_expired t (zd_zone zd) = false.
Proof.
  intros (_ & (zs & _ & Em) & _)%load_snapshot_run Hin. pose proof (in_map zd_zone _ _ Hin) as Hf. rewrite Em in Hf.
  by apply filter_In in Hf as [_ Hf%negb_true_iff].
Qed.

(** Freshness.  The snapshot that queries are answered from is at most two seconds
    old, and a secondary zone in it was last transferred less than its expiry time,
    plus three seconds, ago; a zone never transferred is not in it. *)
Theorem served_secondaries_are_fresh now c s sn c' s' zd :
  cache_ok now c -> cache_get now c s = (Ok (sn, c'), s') ->
  cache_ok now c' /\
  (In zd (zones sn) -> role (zd_zone zd) = Secondary ->
   exists ts, transfer_state (zd_zone zd) ≫= last_success = Some ts /\
     now - ts < (expire (soa (zd_zone zd)) + 3) * NANOS).
Proof.
  intros Hc E.
  assert (exists t s0 s0', now - t < SNAPSHOT_TTL /\ load_snapshot t s0 = (Ok sn, s0') /\ cache_ok now c') as (t & s0 & s0' & Ht & El & Hc').
  { assert (forall s, (do! s <- load_snapshot now; mret (s, Some (mkCached now s))) s = (Ok (sn, c'), s') ->
      exists t s0 s0', now - t < SNAPSHOT_TTL /\ load_snapshot t s0 = (Ok sn, s0') /\ cache_ok now c') as Hload.
    { intros s1 [(? & _ & ?)|(x & s2 & El & E1)]%mbind_inv; [done|]. injection E1 as <- <- <-.
      exists now, s1, s2. split_and!; [unfold SNAPSHOT_TTL, NANOS; lia|done|]. intros e [= <-]. simpl. split; [lia|]. by eauto. }
    unfold cache_get in E. destruct c as [e|]; [|by eapply Hload].
    destruct (now - cached_at e <? SNAPSHOT_TTL) eqn:Ea; [|by eapply Hload]. injection E as <- <- <-. apply Z.ltb_lt in Ea.
    destruct (Hc e eq_refl) as (Hle & s1 & s1' & El). by exists (cached_at e), s1, s1'. }
  split; [done|]. intros Hin Hrole. pose proof (snapshot_not_expired _ _ _ _ _ El Hin) as Hx.
  unfold secondary_expired, is_secondary in Hx. rewrite Hrole in Hx. simpl in Hx.
  destruct (transfer_state (zd_zone zd) ≫= last_success) as [ts|]; [|done]. exists ts. split; [done|].
  apply Z.ltb_ge in Hx. unfold SNAPSHOT_TTL, elapsed_secs, NANOS in *.
  pose proof (Z.quot_rem' (t - ts) 1000000000). pose proof (Z.rem_bound_abs (t - ts) 1000000000 ltac:(lia)). lia.
Qed.

(** ** Dynamic updates: what is refused *)

Lemma or_servfail_wp {B} (m : Db B) (Q : ResponseCode + B -> store -> Prop) s :
  wp m (fun r s' => Q (match r with Ok b => inr b | Err _ => inl RcServFail end) s') s ->
  Q (or_servfail m s).1 (or_servfail m s).2.
Proof. unfold wp, or_servfail. by destruct (m s) as [[b|e] s']. Qed.

(** The codes an update can end with once it has begun. *)
Definition late (c : ResponseCode) : Prop := c = RcFormErr \/ c = RcServFail.

Lemma or_servfail_late {B} (m : Db B) s c : (or_servfail m s).1 = inl c -> late c.
Proof. unfold or_servfail. destruct (m s) as [[b|e] s']; simpl; [done|]. intros [= <-]. by right. Qed.

Lemma delete_existing_late rs : forall s c, (delete_existing rs s).1 = inl c -> late c.
Proof.
  induction rs as [|r rs IH]; intros s c; [done|]. simpl.
  destruct (or_servfail (delete_record (rec_id r)) s) as [[c'|u] s'] eqn:E; simpl; [|by apply IH].
  intros [= <-]. eapply or_servfail_late. by rewrite E.
Qed.

Lemma apply_one_late now zid up existing s c : (apply_one now zid up existing s).1 = inl c -> late c.
Proof.
  unfold apply_one. destruct (hr_class up).
  - destruct (from_rr now up) as [rec|]; [|intros [= <-]; by left]. destruct (negb _); [|done].
    destruct (or_servfail (create_record now (for_update zid rec)) s) as [[c'|u] s'] eqn:E; simpl; [|done].
    intros [= <-]. eapply or_servfail_late. by rewrite E.
  - apply delete_existing_late.
  - destruct (from_rr now up); [apply delete_existing_late|done].
  - intros [= <-]. by left.
Qed.

Lemma apply_all_late now zid ups existing : forall s c, (apply_all now zid ups existing s).1 = inl c -> late c.
Proof.
  induction ups as [|up ups IH]; intros s c; [done|]. simpl.
  destruct (apply_one now zid up existing s) as [[c'|[]] s'] eqn:E; simpl; [|apply IH].
  intros [= <-]. eapply apply_one_late. by rewrite E.
Qed.

(** The prerequisites of RFC 2136, section 3.2: a name in use, an RRset that
    exists, the two negations, and a record that exists. *)
Definition prerequisite_holds (now : Z) (existing : list DRecord) (pre : HRecord) : Prop :=
  let owns r := norm (rec_name r) = norm (name_to_string (hr_name pre)) in
  let typed r := core_type (rdata_type (hr_data pre)) = Some (record_type r) in
  let any := rdata_type (hr_data pre) = TANY in
  match hr_class pre with
  | CANY => exists r, In r existing /\ owns r /\ (any \/ typed r)
  | CNONE => forall r, In r existing -> owns r -> ~ any /\ ~ typed r
  | _ => exists rec r, from_rr now pre = Some rec /\ In r existing /\
           norm (rec_name r) = norm (rec_name rec) /\ record_type r = record_type rec /\ rec_data r = rec_data rec
  end.

Lemma owner_in_use existing name : existsb (fun r : DRecord => String.eqb (norm (rec_name r)) name) existing = true <->
  exists r, In r existing /\ norm (rec_name r) = name.
Proof. rewrite existsb_exists. by setoid_rewrite String.eqb_eq. Qed.

Lemma rrset_in_use existing name t :
  is_some_and (fun ct => existsb (fun r : DRecord => String.eqb (norm (rec_name r)) name && RecordType_eqb (record_type r) ct) existing)
    (core_type t) = true <->
  exists r, In r existing /\ norm (rec_name r) = name /\ core_type t = Some (record_type r).
Proof.
  destruct (core_type t) as [ct|]; simpl; [|naive_solver]. rewrite existsb_exists.
  setoid_rewrite andb_true_iff. setoid_rewrite String.eqb_eq. setoid_rewrite RecordType_eqb_eq. naive_solver.
Qed.

Lemma same_rr_eq (a b : DRecord) : same_rr a b = true <->
  norm (rec_name a) = norm (rec_name b) /\ record_type a = record_type b /\ rec_data a = rec_data b.
Proof. unfold same_rr. rewrite !andb_true_iff, String.eqb_eq, RecordType_eqb_eq, bool_decide_eq_true. tauto. Qed.

Lemma core_type_any : core_type TANY = None.
Proof. done. Qed.

Lemma check_prerequisite_holds now pre existing : check_prerequisite now pre existing = inr () <-> prerequisite_holds now existing pre.
Proof.
  unfold check_prerequisite, prerequisite_holds. cbv zeta. set (name := norm (name_to_string (hr_name pre))).
  set (t := rdata_type (hr_data pre)).
  assert (match from_rr now pre with
          | Some rec => if negb (existsb (fun r => same_rr r rec) existing) then inl RcNXRRSet else inr ()
          | None => inl RcFormErr end = inr () <->
    exists rec r, from_rr now pre = Some rec /\ In r existing /\ norm (rec_name r) = norm (rec_name rec) /\
      record_type r = record_type rec /\ rec_data r = rec_data rec) as Hval.
  { destruct (from_rr now pre) as [rec|]; [|naive_solver].
    destruct (existsb (fun r => same_rr r rec) existing) eqn:E; simpl.
    - apply existsb_exists in E as (r & Hr & Es%same_rr_eq). naive_solver.
    - split; [done|]. intros (rec' & r & [= <-] & Hr & Es%same_rr_eq). exfalso. eapply eq_true_false_abs; [|exact E].
      apply existsb_exists. by exists r. }
  destruct (hr_class pre); [exact Hval| | |exact Hval]; unfold HType_eqb; destruct (bool_decide (t = TANY)) eqn:Et; to_prop.
  - destruct (existsb _ existing) eqn:E; simpl.
    + apply owner_in_use in E as (r & ? & ?). split; [|done]. intros _. exists r. by split_and!; [..|left].
    + split; [done|]. intros (r & Hr & Ho & _). exfalso. eapply eq_true_false_abs; [|exact E]. apply owner_in_use. by exists r.
  - destruct (is_some_and _ _) eqn:E; simpl.
    + apply rrset_in_use in E as (r & ? & ? & ?). split; [|done]. intros _. exists r. by split_and!; [..|right].
    + split; [done|]. intros (r & Hr & Ho & [?|Ht]); [done|]. exfalso. eapply eq_true_false_abs; [|exact E]. apply rrset_in_use. by exists r.
  - destruct (existsb _ existing) eqn:E; simpl.
    + apply owner_in_use in E as (r & ? & ?). split; [done|]. intros Hn. by destruct (Hn r).
    + split; [|done]. intros _ r Hr Ho. exfalso. eapply eq_true_false_abs; [|exact E]. apply owner_in_use. by exists r.
  - destruct (is_some_and _ _) eqn:E; simpl.
    + apply rrset_in_use in E as (r & ? & ? & ?). split; [done|]. intros Hn. by destruct (Hn r).
    + split; [|done]. intros _ r Hr Ho. split; [done|]. intros Ht. eapply eq_true_false_abs; [|exact E]. apply rrset_in_use. by exists r.
Qed.

Lemma check_prerequisites_hold now pres existing : check_prerequisites now pres existing = inr () <->
  Forall (prerequisite_holds now existing) pres.
Proof.
  induction pres as [|p pres IH]; [by split|]. simpl. rewrite Forall_cons, <- check_prerequisite_holds, <- IH.
  destruct (check_prerequisite now p existing) as [c|[]]; naive_solver.
Qed.

Lemma check_prerequisites_code now pres existing : check_prerequisites now pres existing <> inl RcNoError.
Proof.
  induction pres as [|p pres IH]; [done|]. simpl. destruct (check_prerequisite now p existing) as [c|[]] eqn:E; [|done].
  unfold check_prerequisite in E. repeat (case_match; try done); congruence.
Qed.

(** What [apply] did, when it got as far as the updates. *)
Definition began (now : Z) (request : Message) (s : store) (existing : list DRecord) (zid : string) : Prop :=
  exists q zs zone, head (m_queries request) = Some (q, TSOA) /\ list_zones now s = (Ok zs, s) /\ In zone zs /\
    zone_id zone = zid /\ norm (zone_name zone) = norm (name_to_string q) /\
    list_records now zid s = (Ok existing, s) /\ Forall (prerequisite_holds now existing) (m_answers request) /\
    Forall (fun up => update_in_zone (norm (name_to_string (hr_name up))) (norm (zone_name zone)) = true) (m_name_servers request).

Lemma apply_cases now request s : 
  (exists c, c <> RcNoError /\ apply now request s = (inl c, s)) \/
  exists existing zid, began now request s existing zid /\
    apply now request s =
      match apply_all now zid (m_name_servers request) existing s with
      | (inl c, s') => (inl c, s')
      | (inr (), s') => (inr RcNoError, s')
      end.
Proof.
  unfold apply. destruct (head (m_queries request)) as [[q qt]|] eqn:Eq; [|left; eexists; split; [|reflexivity]; done].
  destruct (HType_eqb qt TSOA) eqn:Et; simpl; [|left; eexists; split; [|reflexivity]; done]. unfold HType_eqb in Et. to_prop. subst qt.
  assert (forall r s', list_zones now s = (r, s') -> s' = s) as Hz.
  { intros r s' E. pattern r, s'. apply (wp_run _ _ _ _ _ E). by apply wp_list_zones. }
  destruct (list_zones now s) as [[zs|e] s1] eqn:Ez; rewrite (Hz _ _ eq_refl) in *; [|left; eexists; split; [|reflexivity]; done].
  destruct (find _ zs) as [zone|] eqn:Ef; [|left; eexists; split; [|reflexivity]; done]. apply find_some in Ef as [Hin Hn%String.eqb_eq].
  assert (forall r s', list_records now (zone_id zone) s = (r, s') -> s' = s) as Hr.
  { intros r s' E. pattern r, s'. apply (wp_run _ _ _ _ _ E). by apply wp_list_records. }
  destruct (list_records now (zone_id zone) s) as [[existing|e] s2] eqn:Er; rewrite (Hr _ _ eq_refl) in *; [|left; eexists; split; [|reflexivity]; done].
  destruct (check_prerequisites now _ existing) as [c|[]] eqn:Ec; [left; exists c; split; [|done]; intros ->; by apply check_prerequisites_code in Ec|].
  destruct (forallb _ _) eqn:Ep; simpl; [|left; eexists; split; [|reflexivity]; done]. right. exists existing, (zone_id zone). split; [|by repeat case_match].
  exists q, zs, zone. split_and!; try done; [by apply check_prerequisites_hold|]. rewrite Hn.
  apply Forall_forall. intros up Hup%list_elem_of_In. by eapply forallb_forall in Ep.
Qed.

(** Refused updates.  When the answer to an update says that the zone is not ours,
    that a name is outside it, or that a prerequisite fails, nothing was changed;
    and when it says that there was no error, every prerequisite held in the zone as
    it was, every name was in the zone, and every update was carried out. *)
Theorem refused_updates_change_nothing now request s resp s' :
  handle_update now request s = (resp, s') ->
  (h_rcode (m_header resp) ∈ [RcNXDomain; RcYXDomain; RcYXRRSet; RcNXRRSet; RcNotAuth; RcNotZone] -> s' = s) /\
  (h_rcode (m_header resp) = RcNoError -> exists existing zid, began now request s existing zid /\
     apply_all now zid (m_name_servers request) existing s = (inr (), s')).
Proof.
  unfold handle_update. destruct (apply_cases now request s) as [(c & Hc & ->)|(existing & zid & Hb & ->)].
  { intros [= <- <-]. simpl. split; [done|]. by intros ->. }
  destruct (apply_all now zid (m_name_servers request) existing s) as [[c|[]] s1] eqn:E; intros [= <- <-]; simpl.
  - assert (late c) as Hl by (eapply apply_all_late; by rewrite E). destruct Hl as [-> | ->]; split; try done; set_solver.
  - split; [set_solver|]. by exists existing, zid.
Qed.

(** ** Dynamic updates: what is changed *)

Lemma lower_dot s : trim_end_matches "." (to_ascii_lowercase s) = to_ascii_lowercase (trim_end_matches "." s).
Proof.
  induction s as [|c s IH]; [done|]. cbn [to_ascii_lowercase str_map trim_end_matches]. 
  change (str_map _ s) with (to_ascii_lowercase s). rewrite IH.
  assert (Ascii.eqb (ascii_lower c) "." = Ascii.eqb c ".") as ->.
  { destruct c as [[] [] [] [] [] [] [] []]; reflexivity. }
  assert (is_empty (to_ascii_lowercase (trim_end_matches "." s)) = is_empty (trim_end_matches "." s)) as ->.
  { by destruct (trim_end_matches "." s). }
  by destruct (_ && _).
Qed.

Lemma norm_normalize s : str_forallb is_graphic s = true -> norm (normalize_name s) = norm s.
Proof.
  intros Hs. unfold norm, normalize_name. rewrite trim_graphic by done.
  by rewrite lower_dot, trim_end_matches_idem, to_ascii_lowercase_idem.
Qed.

Section frame.
(** A set of rows that may change, and the store before. *)
Context (touched : string * RecordRecord -> bool) (s0 : store).

Definition framed (s : store) : Prop :=
  s = put_records (record_t s) s0 /\
  List.filter (fun kr => negb (touched kr)) (rows (record_t s)) ≡ₚ List.filter (fun kr => negb (touched kr)) (rows (record_t s0)).

Lemma framed_delete k w s : framed s -> In (k, w) (rows (record_t s0)) -> touched (k, w) = true ->
  wp (delete_record k) (fun _ s' => framed s') s.
Proof.
  intros [Es Hf] Hin Ht. apply wp_delete_key; [|intros e t Hp; split; [by rewrite Es|by rewrite <- Hf; simpl; rewrite Hp]].
  intros t Hp. split; [by rewrite Es|]. rewrite <- Hf. simpl. rewrite Hp, filter_filter. apply filter_agree.
  intros [k' w'] Hin'. simpl. destruct (String.eqb_spec k' k) as [->|]; [|by rewrite andb_true_l].
  destruct (touched (k, w')) eqn:E; [done|]. exfalso.
  assert (In (k, w') (List.filter (fun kr => negb (touched kr)) (rows (record_t s)))) as H1 by (apply filter_In; by rewrite E).
  apply (perm_In _ _ _ Hf), filter_In in H1 as [H1 _]. rewrite (rows_key_inj _ _ _ _ H1 Hin) in E. congruence.
Qed.

Lemma framed_create now r s : framed s -> (forall k, touched (k, RecordRecord_new (to_rfc3339 now) r) = true) ->
  wp (create_record now r) (fun _ s' => framed s') s.
Proof.
  intros [Es Hf] Ht. apply wp_create_record; [|intros e t Hp; split; [by rewrite Es|by rewrite <- Hf; simpl; rewrite Hp]].
  intros k t _ Hp _. split; [by rewrite Es|]. rewrite <- Hf. simpl. rewrite Hp. simpl. by rewrite Ht.
Qed.

Lemma framed_delete_existing rs : (forall r, In r rs -> exists w, In (rec_id r, w) (rows (record_t s0)) /\ touched (rec_id r, w) = true) ->
  forall s, framed s -> framed (delete_existing rs s).2.
Proof.
  induction rs as [|r rs IH]; intros Hr s Hf; [done|]. simpl. destruct (Hr r (or_introl eq_refl)) as (w & Hin & Ht).
  pose proof (or_servfail_wp (delete_record (rec_id r)) (fun _ s' => framed s') s (framed_delete _ _ _ Hf Hin Ht)) as Hd.
  destruct (or_servfail (delete_record (rec_id r)) s) as [[c|u] s']; simpl in *; [done|]. apply IH; [|done]. intros; apply Hr. by right.
Qed.

End frame.

(** The rows an update message may change: those of the zone whose name it mentions. *)
Definition touched (zid : string) (ups : list HRecord) (kr : string * RecordRecord) : bool :=
  in_zone zid kr && existsb (fun up => String.eqb (norm (rec_r_name kr.2)) (norm (name_to_string (hr_name up)))) ups.

Lemma listed_row now zid s l r : list_records now zid s = (Ok l, s) -> In r l ->
  exists w, r = RecordRecord_into_model json_null parse_from_rfc3339 now (rec_id r, w) /\ In (rec_id r, w) (rows (record_t s)) /\
    rec_r_zone w = zid.
Proof.
  intros [_ Hl]%list_records_run Hr. apply (perm_In _ _ _ Hl) in Hr. apply in_map_iff in Hr as ([k w] & <- & Hr).
  apply filter_In in Hr as [Hr Hz%String.eqb_eq]. by exists w.
Qed.

Lemma from_rr_name now up (rec : DRecord) : from_rr now up = Some rec -> rec_name rec = name_to_string (hr_name up).
Proof. unfold from_rr. destruct (of_rdata _) as [[t d]|]; [|done]. by intros [= <-]. Qed.

Lemma framed_apply_one now zid ups up existing s0 s :
  Forall (fun up => str_forallb is_graphic (name_to_string (hr_name up)) = true) ups ->
  list_records now zid s0 = (Ok existing, s0) -> In up ups -> framed (touched zid ups) s0 s ->
  framed (touched zid ups) s0 (apply_one now zid up existing s).2.
Proof.
  intros Hg Hl Hup Hf.
  assert (forall r, In r existing -> norm (rec_name r) = norm (name_to_string (hr_name up)) ->
    exists w, In (rec_id r, w) (rows (record_t s0)) /\ touched zid ups (rec_id r, w) = true) as Hex.
  { intros r Hr Hn. destruct (listed_row _ _ _ _ _ Hl Hr) as (w & Er & Hin & Hz). exists w. split; [done|].
    unfold touched, in_zone. simpl. rewrite Hz, String.eqb_refl. simpl. apply existsb_exists. exists up. split; [done|].
    apply String.eqb_eq. rewrite <- Hn, Er. done. }
  unfold apply_one. destruct (hr_class up).
  - destruct (from_rr now up) as [rec|] eqn:E; [|done]. destruct (negb _); [|done].
    pose proof (or_servfail_wp (create_record now (for_update zid rec)) (fun _ s' => framed (touched zid ups) s0 s') s) as Hd.
    destruct (or_servfail _ s) as [[c|u] s']; apply Hd, framed_create; try done.
    all: intros k; unfold touched, in_zone; simpl; rewrite String.eqb_refl; simpl; apply existsb_exists; exists up.
    all: split; [done|]; rewrite (from_rr_name _ _ _ E); eapply Forall_forall in Hg; [|by apply list_elem_of_In].
    all: by rewrite norm_normalize, String.eqb_refl.
  - apply framed_delete_existing; [|done]. intros r Hr. rewrite !filter_In, String.eqb_eq in Hr. destruct Hr as [[Hr Hn] _]. by apply Hex.
  - destruct (from_rr now up) as [rec|] eqn:E; [|done]. apply framed_delete_existing; [|done].
    intros r [Hr Hs%same_rr_eq]%filter_In. apply Hex; [done|]. rewrite <- (from_rr_name _ _ _ E). by apply Hs.
  - done.
Qed.

Lemma framed_apply_all now zid all existing s0 :
  Forall (fun up => str_forallb is_graphic (name_to_string (hr_name up)) = true) all ->
  list_records now zid s0 = (Ok existing, s0) -> forall ups s, (forall up, In up ups -> In up all) -> framed (touched zid all) s0 s ->
  framed (touched zid all) s0 (apply_all now zid ups existing s).2.
Proof.
  intros Hg Hl. induction ups as [|up ups IH]; intros s Hin Hf; [done|]. simpl.
  pose proof (framed_apply_one now zid all up existing s0 s Hg Hl (Hin up (or_introl eq_refl)) Hf) as H1.
  destruct (apply_one now zid up existing s) as [[c|[]] s1]; simpl in *; [done|]. apply IH; [|done]. intros; apply Hin. by right.
Qed.

(** Confinement.  Whatever an update message asks for, and even if it fails half
    way, it changes no zone, no journal, no key and no setting, and of the records
    only those of the one zone it names, under the names it mentions, which are all
    inside that zone. *)
Theorem updates_are_confined now request s resp s' :
  Forall (fun up => str_forallb is_graphic (name_to_string (hr_name up)) = true) (m_name_servers request) ->
  handle_update now request s = (resp, s') ->
  s' = s \/
  exists existing zid, began now request s existing zid /\ s' = put_records (record_t s') s /\
    List.filter (fun kr => negb (touched zid (m_name_servers request) kr)) (rows (record_t s')) ≡ₚ
    List.filter (fun kr => negb (touched zid (m_name_servers request) kr)) (rows (record_t s)).
Proof.
  intros Hg. unfold handle_update. destruct (apply_cases now request s) as [(c & _ & ->)|(existing & zid & Hb & ->)].
  { intros [= _ <-]. by left. }
  intros E. right. exists existing, zid. split; [done|]. destruct Hb as (q & zs & zone & _ & _ & _ & _ & _ & Hl & _).
  assert (framed (touched zid (m_name_servers request)) s (apply_all now zid (m_name_servers request) existing s).2) as Hf.
  { apply framed_apply_all; [done..|]. split; [by rewrite put_records_id|done]. }
  destruct (apply_all now zid (m_name_servers request) existing s) as [[c|[]] s1]; injection E as _ <-; exact Hf.
Qed.

(** The records that an update deletes. *)
Definition deletes (now : Z) (up : HRecord) (r : DRecord) : bool :=
  match hr_class up with
  | CANY => String.eqb (norm (rec_name r)) (norm (name_to_string (hr_name up)))
            && (HType_eqb (rdata_type (hr_data up)) TANY || bool_decide (core_type (rdata_type (hr_data up)) = Some (record_type r)))
  | CNONE => is_some_and (same_rr r) (from_rr now up)
  | _ => false
  end.

Definition is_delete (up : HRecord) : bool := match hr_class up with CANY | CNONE => true | _ => false end.
Definition is_add (up : HRecord) : bool := match hr_class up with CIN => true | _ => false end.

Lemma delete_existing_rows rs : forall s s', delete_existing rs s = (inr (), s') -> exists t, s' = put_records t s /\
  rows t ≡ₚ List.filter (fun kr => negb (existsb (fun r => String.eqb kr.1 (rec_id r)) rs)) (rows (record_t s)).
Proof.
  induction rs as [|r rs IH]; intros s s'; simpl.
  { intros [= <-]. exists (record_t s). by rewrite put_records_id, filter_true. }
  pose proof (or_servfail_wp (delete_record (rec_id r)) (fun o s' => forall u, o = inr u -> exists t, s' = put_records t s /\
    rows t ≡ₚ List.filter (fun kr => negb (String.eqb kr.1 (rec_id r))) (rows (record_t s))) s) as Hd.
  destruct (or_servfail (delete_record (rec_id r)) s) as [[c|u] s1]; [done|]. simpl in Hd.
  destruct (Hd ltac:(apply wp_delete_key; [intros t Hp u' _; by exists t|done]) u eq_refl) as (t1 & -> & H1).
  intros (t & -> & Ht)%IH. exists t. split; [done|]. rewrite Ht. simpl. rewrite H1, filter_filter. apply filter_agree.
  intros kr _. by rewrite negb_orb.
Qed.

Lemma apply_one_delete now zid up existing s s' : is_delete up = true -> apply_one now zid up existing s = (inr (), s') ->
  delete_existing (List.filter (deletes now up) existing) s = (inr (), s').
Proof.
  unfold is_delete, apply_one, deletes. destruct (hr_class up); try done; intros _.
  - rewrite filter_filter. by intros <-.
  - destruct (from_rr now up) as [rec|]; [done|]. intros <-. by rewrite filter_none.
Qed.

Lemma apply_deletes now zid existing dels : forallb is_delete dels = true -> forall s s',
  apply_all now zid dels existing s = (inr (), s') -> exists t, s' = put_records t s /\
  rows t ≡ₚ List.filter (fun kr => negb (existsb (fun up => existsb (fun r => String.eqb kr.1 (rec_id r)) (List.filter (deletes now up) existing)) dels))
              (rows (record_t s)).
Proof.
  induction dels as [|up dels IH]; intros Hd s s'; simpl.
  { intros [= <-]. exists (record_t s). by rewrite put_records_id, filter_true. }
  apply andb_true_iff in Hd as [Hu Hd]. destruct (apply_one now zid up existing s) as [[c|[]] s1] eqn:E; [done|].
  apply (apply_one_delete _ _ _ _ _ _ Hu), delete_existing_rows in E as (t1 & -> & H1).
  intros (t & -> & Ht)%IH; [|done]. exists t. split; [done|]. rewrite Ht. simpl. rewrite H1, filter_filter. apply filter_agree.
  intros kr _. by rewrite negb_orb.
Qed.

Lemma apply_adds now zid existing adds : forallb is_add adds = true -> forall s s',
  apply_all now zid adds existing s = (inr (), s') -> exists recs t added,
    Forall2 (fun up r => from_rr now up = Some r) adds recs /\ s' = put_records t s /\
    rows t ≡ₚ added ++ rows (record_t s) /\ Forall (fun kr => rec_r_zone kr.2 = zid) added /\
    map (fun kr => row_content kr.2) added ≡ₚ map record_content (List.filter (fun rec => negb (existsb (fun r => same_rr r rec) existing)) recs).
Proof.
  induction adds as [|up adds IH]; intros Ha s s'; simpl.
  { intros [= <-]. exists [], (record_t s), []. split_and!; try done. by rewrite put_records_id. }
  apply andb_true_iff in Ha as [Hu Ha]. unfold apply_one. unfold is_add in Hu. destruct (hr_class up); try done.
  destruct (from_rr now up) as [rec|] eqn:Er; [|done].
  assert (existsb (fun r => same_rr r (for_update zid rec)) existing = existsb (fun r => same_rr r rec) existing) as -> by done.
  destruct (existsb (fun r => same_rr r rec) existing) eqn:Ex; simpl.
  - intros (recs & t & added & Hr & -> & Ht & Hz & Hc)%IH; [|done]. exists (rec :: recs), t, added. split_and!; try done; [by constructor|].
    simpl. by rewrite Ex.
  - set (new := RecordRecord_new (to_rfc3339 now) (for_update zid rec)).
    pose proof (or_servfail_wp (create_record now (for_update zid rec)) (fun o s' => forall u, o = inr u -> exists k t, s' = put_records t s /\
      rows t ≡ₚ (k, new) :: rows (record_t s)) s) as Hd.
    destruct (or_servfail (create_record now (for_update zid rec)) s) as [[c|u] s1]; [done|]. simpl in Hd.
    destruct (Hd ltac:(apply wp_create_record; [intros k t _ Hp _ u' _; by exists k, t|done]) u eq_refl) as (k & t1 & -> & H1).
    intros (recs & t & added & Hr & -> & Ht & Hz & Hc)%IH; [|done].
    exists (rec :: recs), t, (added ++ [(k, new)]). split_and!; [by constructor|done| | |].
    + rewrite Ht. simpl. rewrite H1. by rewrite <- app_assoc.
    + apply Forall_app. split; [done|]. by constructor.
    + rewrite map_app, Hc. simpl. rewrite Ex. simpl. by rewrite Permutation_app_comm.
Qed.

Lemma apply_all_app now zid existing a b : forall s s', apply_all now zid (a ++ b) existing s = (inr (), s') ->
  exists s1, apply_all now zid a existing s = (inr (), s1) /\ apply_all now zid b existing s1 = (inr (), s').
Proof.
  induction a as [|up a IH]; intros s s'; simpl; [intros E; by exists s|].
  destruct (apply_one now zid up existing s) as [[c|[]] s1]; [done|]. apply IH.
Qed.

(** Being deleted by key is being deleted. *)
Lemma deleted_by_key now zid s existing up kr : list_records now zid s = (Ok existing, s) -> In kr (rows (record_t s)) ->
  existsb (fun r => String.eqb kr.1 (rec_id r)) (List.filter (deletes now up) existing)
  = in_zone zid kr && deletes now up (RecordRecord_into_model json_null parse_from_rfc3339 now kr).
Proof.
  intros Hl Hin. apply eq_true_iff_eq. rewrite existsb_exists, andb_true_iff. split.
  - intros (r & [Hr Hd]%filter_In & E%String.eqb_eq). destruct (listed_row _ _ _ _ _ Hl Hr) as (w & Er & Hw & Hz).
    destruct kr as [k w']. simpl in E. subst k. rewrite (rows_key_inj _ _ _ _ Hin Hw). rewrite <- Er. unfold in_zone. simpl.
    by rewrite Hz, String.eqb_refl.
  - intros [Hz Hd]. exists (RecordRecord_into_model json_null parse_from_rfc3339 now kr). split; [|destruct kr; by apply String.eqb_eq].
    apply filter_In. split; [|done]. apply list_records_run in Hl as [_ Hl]. symmetry in Hl. apply (perm_In _ _ _ Hl), in_map.
    by apply filter_In.
Qed.

(** C29: What an update does.  A message that deletes and then adds, and is answered
    without an error, leaves in the zone the records that no deletion matches, plus
    one record for each addition that was not in the zone before the message; the
    other zones keep their records. *)
Theorem updates_take_effect now request s resp s' dels adds :
  handle_update now request s = (resp, s') -> h_rcode (m_header resp) = RcNoError ->
  m_name_servers request = dels ++ adds -> forallb is_delete dels = true -> forallb is_add adds = true ->
  exists existing zid recs, began now request s existing zid /\ Forall2 (fun up r => from_rr now up = Some r) adds recs /\
    zone_content zid s' ≡ₚ
      map record_content (List.filter (fun rec => negb (existsb (fun r => same_rr r rec) existing)) recs) ++
      map (fun kr => row_content kr.2)
        (List.filter (fun kr => negb (existsb (fun up => deletes now up (RecordRecord_into_model json_null parse_from_rfc3339 now kr)) dels))
           (zone_rows zid s)) /\
    elsewhere zid s' ≡ₚ elsewhere zid s.
Proof.
  intros E Hc Hups Hdels Hadds.
  assert (exists existing zid, began now request s existing zid /\ apply_all now zid (m_name_servers request) existing s = (inr (), s'))
    as (existing & zid & Hb & Ea).
  { unfold handle_update in E. destruct (apply_cases now request s) as [(c & Hne & Eq)|(existing & zid & Hb & Eq)]; rewrite Eq in E.
    - injection E as <- <-. simpl in Hc. by subst.
    - destruct (apply_all now zid (m_name_servers request) existing s) as [[c|[]] s1] eqn:Ea; injection E as <- <-; [|by eauto].
      simpl in Hc. subst. exfalso. destruct (apply_all_late now zid (m_name_servers request) existing s RcNoError); [by rewrite Ea|done..]. }
  rewrite Hups in Ea. apply apply_all_app in Ea as (s1 & (t1 & -> & H1)%apply_deletes & (recs & t & added & Hr & -> & H2 & Hz & Hcont)%apply_adds); [|done..].
  exists existing, zid, recs. split_and!; [done..| |]; pose proof Hb as (q & zs & zone & _ & _ & _ & _ & _ & Hl & _);
    destruct (zone_rows_added zid added (rows t1) Hz) as [Eadd Eels]; simpl in *.
  - unfold zone_content, zone_rows. simpl. rewrite H2, Eadd, map_app, Hcont. apply Permutation_app_head, Permutation_map.
    rewrite H1, !filter_filter. apply filter_agree. intros kr Hin. destruct (in_zone zid kr) eqn:Ez; [|by rewrite ?andb_false_l, ?andb_false_r].
    rewrite ?andb_true_l, ?andb_true_r. f_equal. apply existsb_ext. intros up. by rewrite (deleted_by_key _ _ _ _ _ _ Hl Hin), Ez.
  - unfold elsewhere. simpl. rewrite H2, Eels, H1, filter_filter. apply filter_agree. intros kr Hin.
    destruct (in_zone zid kr) eqn:Ez; simpl; [by rewrite ?andb_false_r|]. rewrite ?andb_true_r, negb_true_iff.
    apply not_true_iff_false. rewrite existsb_exists. intros (up & _ & Hd). by rewrite (deleted_by_key _ _ _ _ _ _ Hl Hin), Ez in Hd.
Qed.
End replication.

(** ** Samples *)

(** Keys are names, and a request is signed by a key when it starts with it. *)
Definition sample_new_signer (key : bytes) (a : TsigAlgorithm) (n : HName) : option bytes := Some key.
Definition sample_verify (sg : bytes) (request : bytes) : option bytes :=
  if bool_decide (firstn (length sg) request = sg) then Some sg else None.

Definition sample_signs (sg : bytes) (ms : list Message) (mac : bytes) : bool := true.

Abbreviation sample_axfr := (build_axfr_stream JNull sample_parse_rfc3339 sample_b64_decode bytes sample_new_signer sample_verify sample_signs).

(** The primary of [sample_dns], open to 192.0.2.0/24. *)
Definition sample_primary : list_store :=
  fold_left (fun s c => sample_run 5 c s)
    (sample_calls ++ [CReplication "k" Primary ["192.0.2.0/24"]%string [] true [] None]) empty_store.

Lemma sample_primary_reachable : rtc sample_step empty_store sample_primary.
Proof. apply sample_reachable. intros c s. simpl. intros H. repeat (destruct H as [<-|H]; [done|]). done. Qed.

Definition sample_axfr_request : Message :=
  mkMessage (mkHeader 1 false false false false false RcNoError) [("example.com"%string, TAXFR)] [] [].
Definition sample_client : IpAddr := V4 3221225988.

Definition sample_stream : option (stream bytes) := sample_axfr 9 sample_axfr_request "example.com." sample_client [] sample_primary.
Definition sample_messages : list Message := match sample_stream with Some st => stream_messages bytes st | None => [] end.

Lemma transfers_are_authorized_witness : exists z, zone_name z = "example.com"%string /\ zone_enabled z = true /\
  sample_axfr 9 sample_axfr_request "example.com." (V4 167772161) [] sample_primary = None.
Proof.
  destruct (transfers_are_authorized JNull sample_to_rfc3339 sample_parse_rfc3339 sample_b64_decode bytes sample_new_signer sample_verify sample_signs 9
    sample_axfr_request "example.com." sample_client [] sample_primary (PlainStream bytes sample_messages)) as (z & zs & Ez & Hz & He & _).
  - vm_compute. reflexivity.
  - exists z. split; [|split; [exact He|vm_compute; reflexivity]]. vm_compute in Ez. injection Ez as <-. destruct Hz as [<-|[]]. reflexivity.
Defined.

(** A secondary that knows the zone and has never transferred it. *)
Definition sample_secondary : list_store :=
  fold_left (fun s c => sample_run 5 c s)
    [CCreateZone "example.com" (soa_set_serial 1 sample_soa) true "admin";
     CReplication "k" Secondary [] [] false ["192.0.2.53"]%string None;
     CCreateRecord (sample_rec "" "other" "www.example.org" A "address" "192.0.2.7")] empty_store.
Definition sample_secondary_zone : Zone :=
  match list_zones sample_parse_rfc3339 9 sample_secondary with (Ok (z :: _), _) => z | _ => mkZone "" 0 0 "" "" sample_soa true false false Primary [] [] false [] None None end.

Definition sample_net : network bytes :=
  mkNetwork bytes unit (fun t => if String.eqb t "192.0.2.53" then Some () else None) (fun _ _ _ => Some 7)
    (fun _ _ _ => Some (sent all_encode sample_messages)) (fun _ _ _ _ => None).

Abbreviation sample_refresh := (refresh_secondary JNull sample_to_rfc3339 sample_parse_rfc3339 sample_b64_decode bytes sample_new_signer).

Definition sample_refreshed : list_store := (sample_refresh 11 sample_net sample_secondary_zone sample_secondary).2.

Lemma sample_carriable : carriable JNull sample_parse_rfc3339 9 sample_primary.
Proof.
  split.
  - intros kr Hin. vm_compute in Hin. repeat (destruct Hin as [<-|Hin]; [split; [vm_compute; reflexivity|]|]); try done.
    all: vm_compute; intros t [= <-]; reflexivity.
  - intros kr Hin. vm_compute in Hin. repeat (destruct Hin as [<-|Hin]; [vm_compute; by split|]). done.
Qed.


Definition sample_notifying : Zone :=
  mkZone "k" 0 0 "" "example.com" (soa_set_serial 1 sample_soa) true false false Primary [] ["192.0.2.54"]%string true [] None None.

Lemma bumps_are_noticed_witness :
  (scan_primary {["example.com"%string := 2 ^ 32 - 1]} sample_notifying).2 = true.
Proof.
  rewrite (proj1 (bumps_are_noticed {["example.com"%string := 2 ^ 32 - 1]} sample_notifying (2 ^ 32 - 1) 1
    ltac:(lia) ltac:(lia) eq_refl ltac:(discriminate) ltac:(reflexivity) ltac:(reflexivity))). reflexivity.
Defined.

(** The secondary's snapshot just after the refresh, from the cache. *)
Definition sample_snapshot : Snapshot json_value :=
  match (load_snapshot JNull sample_parse_rfc3339 12 sample_refreshed).1 with Ok sn => sn | Err _ => mkSnapshot [] [] end.

Lemma served_secondaries_are_fresh_witness : exists zd ts, In zd (zones sample_snapshot) /\ role (zd_zone zd) = Secondary /\
  transfer_state (zd_zone zd) ≫= last_success = Some ts /\ 13 - ts < (604800 + 3) * NANOS.
Proof.
  exists (hd (mkZoneData sample_secondary_zone []) (zones sample_snapshot)).
  destruct (served_secondaries_are_fresh JNull sample_to_rfc3339 sample_parse_rfc3339 sample_b64_decode 13 (Some (mkCached 12 sample_snapshot))
    sample_refreshed sample_snapshot (Some (mkCached 12 sample_snapshot)) sample_refreshed
    (hd (mkZoneData sample_secondary_zone []) (zones sample_snapshot))) as [_ H].
  - intros e [= <-]. split; [simpl; lia|]. exists sample_refreshed, sample_refreshed. vm_compute. reflexivity.
  - reflexivity.
  - destruct H as (ts & E & Hlt); [vm_compute; by left|vm_compute; reflexivity|]. exists ts.
    split; [vm_compute; by left|]. split; [vm_compute; reflexivity|]. split; [exact E|exact Hlt].
Defined.

(** Updates of the sample zone. *)
Definition sample_update (pres ups : list HRecord) : Message :=
  mkMessage (mkHeader 1 false true false false false RcNoError) [("example.com"%string, TSOA)] pres ups.
Definition sample_rr (c : DNSClass) (name : string) (d : RData) : HRecord := mkHRecord name 300 c d.

Abbreviation sample_handle := (handle_update JNull sample_to_rfc3339 sample_parse_rfc3339 9).

(** www is not to exist, but it does. *)
Definition sample_refused : Message * list_store :=
  sample_handle (sample_update [sample_rr CNONE "www.example.com" (RUpdate0 TANY)] [sample_rr CIN "new.example.com" (RA 1)]) sample_dns.

Lemma refused_updates_change_nothing_witness : h_rcode (m_header sample_refused.1) = RcYXDomain /\ sample_refused.2 = sample_dns.
Proof.
  split; [vm_compute; reflexivity|].
  apply (refused_updates_change_nothing JNull sample_to_rfc3339 sample_parse_rfc3339 sample_b64_decode 9
    (sample_update [sample_rr CNONE "www.example.com" (RUpdate0 TANY)] [sample_rr CIN "new.example.com" (RA 1)]) sample_dns
    sample_refused.1 sample_refused.2).
  - unfold sample_refused. destruct (sample_handle _ sample_dns); reflexivity.
  - vm_compute. repeat constructor.
Defined.

(** The mail host moves, and gets an IPv6 address. *)
Definition sample_dels : list HRecord := [sample_rr CANY "mail.example.com" (RUpdate0 TA)].
Definition sample_adds : list HRecord := [sample_rr CIN "mail.example.com" (RA 3221225995); sample_rr CIN "mail.example.com" (RAAAA 1)].
Definition sample_updated : Message * list_store := sample_handle (sample_update [] (sample_dels ++ sample_adds)) sample_dns.

Lemma updates_are_confined_witness :
  List.filter (fun kr => negb (touched "k" (sample_dels ++ sample_adds) kr)) (rows (record_t sample_updated.2)) ≡ₚ
  List.filter (fun kr => negb (touched "k" (sample_dels ++ sample_adds) kr)) (rows (record_t sample_dns)).
Proof.
  destruct (updates_are_confined JNull sample_to_rfc3339 sample_parse_rfc3339 sample_b64_decode 9
    (sample_update [] (sample_dels ++ sample_adds)) sample_dns sample_updated.1 sample_updated.2) as [E|(existing & zid & Hb & _ & Hf)].
  - repeat constructor.
  - unfold sample_updated. destruct (sample_handle _ sample_dns); reflexivity.
  - rewrite E. reflexivity.
  - destruct Hb as (q & zs & zone & _ & Ez & Hin & Hid & _). vm_compute in Ez. injection Ez as <-.
    destruct Hin as [<-|[]]. simpl in Hid. subst zid. exact Hf.
Defined.

Lemma updates_take_effect_witness :
  exists recs : list (DnsRecord json_value), length recs = 2%nat /\ length (zone_content "k" sample_updated.2) = 4%nat /\
    elsewhere "k" sample_updated.2 ≡ₚ elsewhere "k" sample_dns.
Proof.
  destruct (updates_take_effect JNull sample_to_rfc3339 sample_parse_rfc3339 sample_b64_decode 9
    (sample_update [] (sample_dels ++ sample_adds)) sample_dns sample_updated.1 sample_updated.2 sample_dels sample_adds)
    as (existing & zid & recs & Hb & Hr & Hc & He).
  - unfold sample_updated. destruct (sample_handle _ sample_dns); reflexivity.
  - vm_compute. reflexivity.
  - reflexivity.
  - reflexivity.
  - reflexivity.
  - destruct Hb as (q & zs & zone & _ & Ez & Hin & Hid & _). vm_compute in Ez. injection Ez as <-.
    destruct Hin as [<-|[]]. simpl in Hid. subst zid. exists recs.
    split; [apply Forall2_length in Hr; symmetry; exact Hr|]. split; [vm_compute; reflexivity|exact He].
Defined.

(** Updates are compared with the zone as it was before the message: a client that
    replaces its address by the same address loses it. *)
Example refreshing_an_address_loses_it :
  let s' := (sample_handle (sample_update [] [sample_rr CANY "www.example.com" (RUpdate0 TA);
                                             sample_rr CIN "www.example.com" (RA 3221225985)]) sample_dns) in
  h_rcode (m_header s'.1) = RcNoError /\
  existsb (fun c : content => String.eqb c.1.1.1.1 "www.example.com") (zone_content "k" s'.2) = false.
Proof. vm_compute. by split. Qed.

(** An update that fails half way leaves its first half behind. *)
Example failed_update_is_half_applied :
  let s' := (sample_handle (sample_update [] [sample_rr CANY "www.example.com" (RUpdate0 TA);
                                             sample_rr (COther 3) "www.example.com" (RA 3221225985)]) sample_dns) in
  h_rcode (m_header s'.1) = RcFormErr /\ length (zone_content "k" s'.2) = 2%nat.
Proof. vm_compute. by split. Qed.
