(* ===== verification/DnsCache.v ===== *)
(** * The response cache of the forwarder

    [magnetite-dns/src/cache.rs]: responses to forwarded queries under a key made
    of the name and the type, bounded in number, each kept for its TTL.  The entries
    are a hash map, whose iteration order is a variable; instants are integers, and
    [put] reads the clock twice.  The mutex makes each call atomic; it is never
    poisoned, since no call panics while holding it. *)

From S2P Require Import Prelude Bytes RustStr.

Record Entry := mkEntry { response : bytes; expires_at : Z }.

Abbreviation entries := (gmap string Entry).

Definition MAX_ENTRIES : Z := 4096.

Definition cache_new : entries := ∅.

Definition cache_key (qname qtype : string) : string :=
  to_ascii_lowercase (trim_end_matches "." qname) +:+ "|" +:+ qtype.

Definition cache_len (m : entries) : Z := Z.of_nat (size m).

Definition cache_get (now : Z) (key : string) (m : entries) : option bytes * entries :=
  match m !! key with
  | Some e => if now <? expires_at e then (Some (response e), m) else (None, delete key m)
  | None => (None, m)
  end.

Section cache.
(** The order in which the map is iterated. *)
Context (iter : entries -> list (string * Entry)).

Definition retain_live (now : Z) (m : entries) : entries :=
  filter (fun ke => now < expires_at ke.2) m.

Definition evict_oldest (m : entries) : entries :=
  match min_by_key (fun ke => expires_at ke.2) (iter m) with
  | Some (k, _) => delete k m
  | None => m
  end.

(** [now] is the clock before, [now'] after the evictions. *)
Definition cache_put (now now' : Z) (key : string) (resp : bytes) (ttl : Z) (m : entries) : entries :=
  if ttl =? 0 then m
  else
    let m1 := if MAX_ENTRIES <=? cache_len m then retain_live now m else m in
    let m2 := if MAX_ENTRIES <=? cache_len m1 then evict_oldest m1 else m1 in
    <[key := mkEntry resp (now' + ttl)]> m2.

(** The calls made to a cache, in order. *)
Inductive cache_op :=
| CPut (now now' : Z) (key : string) (resp : bytes) (ttl : Z)
| CGet (now : Z) (key : string).

Definition cache_run (ops : list cache_op) : entries :=
  fold_left
    (fun m op => match op with
                 | CPut now now' key resp ttl => cache_put now now' key resp ttl m
                 | CGet now key => (cache_get now key m).2
                 end) ops cache_new.

(** The response last stored under [key] by a call, and when it expires. *)
Definition last_put (key : string) (ops : list cache_op) : option Entry :=
  fold_left
    (fun last op => match op with
                    | CPut _ now' k resp ttl =>
                        if String.eqb k key && negb (ttl =? 0) then Some (mkEntry resp (now' + ttl)) else last
                    | CGet _ _ => last
                    end) ops None.

Hypothesis iter_perm : forall m, iter m ≡ₚ map_to_list m.

Lemma retain_live_lookup now m k e : retain_live now m !! k = Some e -> m !! k = Some e.
Proof. by intros [H _]%map_lookup_filter_Some. Qed.

Lemma evict_oldest_lookup m k e : evict_oldest m !! k = Some e -> m !! k = Some e.
Proof.
  unfold evict_oldest. destruct (min_by_key _ _) as [[k' e']|]; [|done]. by intros [_ H]%lookup_delete_Some.
Qed.

Lemma retain_live_len now m : cache_len (retain_live now m) <= cache_len m.
Proof.
  unfold cache_len, retain_live. apply inj_le, map_subseteq_size. apply map_filter_subseteq.
Qed.

Lemma evict_oldest_len m : MAX_ENTRIES <= cache_len m -> cache_len (evict_oldest m) = cache_len m - 1.
Proof.
  unfold evict_oldest. intros Hlen. destruct (min_by_key _ _) as [[k e]|] eqn:E.
  - apply min_by_key_spec in E as [Hin _]. rewrite iter_perm in Hin. apply list_elem_of_In, elem_of_map_to_list in Hin.
    unfold cache_len. cbn beta iota. rewrite (map_size_delete_Some k m) by by eexists.
    destruct (size m) eqn:Hz; [|simpl; lia]. apply map_size_empty_inv in Hz. by rewrite Hz in Hin.
  - exfalso. apply min_by_key_none in E. pose proof (iter_perm m) as Hp. rewrite E in Hp.
    apply Permutation_nil, map_to_list_empty_iff in Hp. rewrite Hp in Hlen. unfold cache_len in Hlen.
    rewrite map_size_empty in Hlen. vm_compute in Hlen. done.
Qed.

Lemma insert_len key e (m : entries) : cache_len (<[key := e]> m) <= cache_len m + 1.
Proof. unfold cache_len. rewrite map_size_insert. destruct (m !! key); simpl; lia. Qed.

Lemma cache_put_len now now' key resp ttl m :
  cache_len m <= MAX_ENTRIES -> cache_len (cache_put now now' key resp ttl m) <= MAX_ENTRIES.
Proof.
  intros Hm. unfold cache_put. destruct (ttl =? 0); [done|].
  set (m1 := if MAX_ENTRIES <=? cache_len m then retain_live now m else m).
  assert (cache_len m1 <= MAX_ENTRIES) as H1.
  { unfold m1. destruct (_ <=? _); [|done]. pose proof (retain_live_len now m). lia. }
  etrans; [apply insert_len|]. destruct (MAX_ENTRIES <=? cache_len m1) eqn:E; to_prop; [|lia].
  rewrite evict_oldest_len by done. lia.
Qed.

Lemma cache_put_lookup now now' key resp ttl m k e : cache_put now now' key resp ttl m !! k = Some e ->
  (k = key /\ ttl <> 0 /\ e = mkEntry resp (now' + ttl)) \/ ((k <> key \/ ttl = 0) /\ m !! k = Some e).
Proof.
  unfold cache_put. destruct (Z.eqb_spec ttl 0) as [->|Ht]; [by right; auto|].
  intros [[<- <-]|[Hne H]]%lookup_insert_Some; [by left|right]. split; [by left|].
  repeat case_match; eauto using retain_live_lookup, evict_oldest_lookup.
Qed.

Definition cache_inv (ops : list cache_op) (m : entries) : Prop :=
  cache_len m <= MAX_ENTRIES /\ forall k e, m !! k = Some e -> last_put k ops = Some e.

Lemma cache_run_inv ops : cache_inv ops (cache_run ops).
Proof.
  induction ops as [|op ops [Hlen Hin]] using rev_ind.
  - split; [by vm_compute|]. intros k e H. exfalso. change (cache_new !! k = Some e) in H. unfold cache_new in H. by rewrite lookup_empty in H.
  - unfold cache_run, last_put, cache_inv. setoid_rewrite fold_left_app. fold (cache_run ops). simpl.
    destruct op as [now now' key resp ttl|now key].
    + split; [by apply cache_put_len|]. intros k e He. apply cache_put_lookup in He as [(-> & Ht & ->)|[Hor He]].
      * rewrite String.eqb_refl. simpl. by rewrite (proj2 (Z.eqb_neq _ _) Ht).
      * assert (String.eqb key k && negb (ttl =? 0) = false) as ->; [|by apply Hin].
        destruct Hor as [Hne| ->]; [rewrite (proj2 (String.eqb_neq _ _)); [done|congruence]|by rewrite andb_false_r].
    + unfold cache_get. destruct (cache_run ops !! key) as [e0|] eqn:E0; [|by split].
      destruct (now <? expires_at e0); simpl; [by split|]. split.
      * unfold cache_len in *. rewrite map_size_delete_Some by by eexists. lia.
      * intros k e [_ He]%lookup_delete_Some. by apply Hin.
Qed.

(** the cache is bounded and never stale.  After any sequence of calls it
    holds at most [MAX_ENTRIES] responses; a hit returns the response last stored
    under the key, before its TTL is over; and a response just stored is returned
    until then, whatever was evicted to make room. *)
Theorem cache_bounded_and_fresh ops :
  cache_len (cache_run ops) <= MAX_ENTRIES /\
  (forall now key r, (cache_get now key (cache_run ops)).1 = Some r ->
     exists expires, last_put key ops = Some (mkEntry r expires) /\ now < expires) /\
  (forall now0 now1 now key resp ttl, ttl <> 0 -> now < now1 + ttl ->
     (cache_get now key (cache_run (ops ++ [CPut now0 now1 key resp ttl]))).1 = Some resp).
Proof.
  destruct (cache_run_inv ops) as [Hlen Hin]. split_and!; [done| |].
  - intros now key r. unfold cache_get. destruct (cache_run ops !! key) as [[r' exp]|] eqn:E; [|done]. simpl.
    destruct (now <? exp) eqn:El; [|done]. intros [= <-]. exists exp. to_prop. split; [by apply Hin|done].
  - intros now0 now1 now key resp ttl Ht Hlt. unfold cache_run. rewrite fold_left_app. simpl. unfold cache_put.
    rewrite (proj2 (Z.eqb_neq _ _) Ht). unfold cache_get. rewrite lookup_insert_eq. simpl.
    by rewrite (proj2 (Z.ltb_lt _ _) Hlt).
Qed.
End cache.

Lemma cache_bounded_and_fresh_witness :
  exists expires, last_put (cache_key "Example.com." "A")
    [CPut 0 0 "example.com|A" [1] 60; CPut 1 1 "example.com|A" [2] 0; CGet 5 "example.com|A"] =
    Some (mkEntry [1] expires) /\ 59 < expires.
Proof.
  apply (cache_bounded_and_fresh map_to_list (fun m => Permutation_refl _)
    [CPut 0 0 "example.com|A" [1] 60; CPut 1 1 "example.com|A" [2] 0; CGet 5 "example.com|A"]). by vm_compute.
Defined.
