(* ===== verification/AdDc.v ===== *)
(** * The domain controllers of a domain

    [magnetite-addc/src/topology.rs] (the ring of replication partners and the
    manager that keeps it), [fsmo.rs] (single-master roles and the pools of relative
    identifiers), and the health record of a peer in [lib.rs]. *)

From S2P Require Import Prelude Bytes RustStr RustNet.

Open Scope outcome_scope.

(** ** Single-master roles *)

Inductive FsmoRole := SchemaMaster | DomainNamingMaster | RidMaster | PdcEmulator | InfrastructureMaster.

#[export] Instance FsmoRole_eq_dec : EqDecision FsmoRole.
Proof. solve_decision. Defined.

Definition FsmoRole_all : list FsmoRole :=
  [SchemaMaster; DomainNamingMaster; RidMaster; PdcEmulator; InfrastructureMaster].

Definition is_forest_wide (r : FsmoRole) : bool :=
  match r with SchemaMaster | DomainNamingMaster => true | _ => false end.

Definition FsmoRole_as_str (r : FsmoRole) : string :=
  match r with
  | SchemaMaster => "schema-master"
  | DomainNamingMaster => "domain-naming-master"
  | RidMaster => "rid-master"
  | PdcEmulator => "pdc-emulator"
  | InfrastructureMaster => "infrastructure-master"
  end.

Definition FsmoRole_from_key (key : string) : option FsmoRole :=
  let k := to_ascii_lowercase (trim key) in
  let is_key s := String.eqb k s in
  if is_key "schema"%string || is_key "schema-master"%string then Some SchemaMaster
  else if is_key "naming"%string || is_key "domain-naming"%string || is_key "domain-naming-master"%string
  then Some DomainNamingMaster
  else if is_key "rid"%string || is_key "rid-master"%string then Some RidMaster
  else if is_key "pdc"%string || is_key "pdc-emulator"%string then Some PdcEmulator
  else if is_key "infra"%string || is_key "infrastructure"%string || is_key "infrastructure-master"%string
  then Some InfrastructureMaster
  else None.

(** The owners, a map with at most one entry per role. *)
Definition FsmoOwnership := FsmoRole -> option string.

Definition all_held_by (dsa : string) : FsmoOwnership := fun _ => Some dsa.

Definition owner (o : FsmoOwnership) (r : FsmoRole) : option string := o r.

Definition is_owner (o : FsmoOwnership) (r : FsmoRole) (dsa : string) : bool :=
  bool_decide (owner o r = Some dsa).

Definition transfer (o : FsmoOwnership) (r : FsmoRole) (dsa : string) : FsmoOwnership :=
  fun r' => if bool_decide (r' = r) then Some dsa else o r'.

Definition seize : FsmoOwnership -> FsmoRole -> string -> FsmoOwnership := transfer.

Definition roles_held_by (o : FsmoOwnership) (dsa : string) : list FsmoRole :=
  List.filter (fun r => is_owner o r dsa) FsmoRole_all.

(** ** Pools of relative identifiers *)

Definition DEFAULT_RID_POOL_SIZE : Z := 500.

Record RidPool := mkRidPool { pool_base : Z; pool_count : Z }.

Definition pool_end (p : RidPool) : Z := saturating_add32 (pool_base p) (pool_count p).

Definition pool_contains (p : RidPool) (rid : Z) : bool := (pool_base p <=? rid) && (rid <? pool_end p).

Record RidAllocator := mkRidAllocator {
  next_available : Z;
  pool_size : Z;
  assignments : gmap string (list RidPool);
}.

Definition with_pool_size (first size : Z) : RidAllocator := mkRidAllocator first (Z.max size 1) ∅.

Definition RidAllocator_new (first : Z) : RidAllocator := with_pool_size first DEFAULT_RID_POOL_SIZE.

Definition pools_for (a : RidAllocator) (dsa : string) : list RidPool := unwrap_or [] (assignments a !! dsa).

Definition allocate (dsa : string) (a : RidAllocator) : RidPool * RidAllocator :=
  let pool := mkRidPool (next_available a) (pool_size a) in
  (pool, mkRidAllocator (saturating_add32 (next_available a) (pool_size a)) (pool_size a)
           (<[dsa := pools_for a dsa ++ [pool]]> (assignments a))).

(** A sequence of requests, with the pools handed out in order. *)
Fixpoint allocate_all (dsas : list string) (a : RidAllocator) : list (string * RidPool) * RidAllocator :=
  match dsas with
  | [] => ([], a)
  | d :: ds =>
      let '(p, a') := allocate d a in
      let '(ps, a'') := allocate_all ds a' in
      ((d, p) :: ps, a'')
  end.

(** ** Replication health *)

Record ReplPeerHealth := mkReplPeerHealth {
  last_success_unix : option Z;
  consecutive_failures : Z;
  total_cycles : Z;
  last_error : option string;
}.

Definition ReplPeerHealth_default : ReplPeerHealth := mkReplPeerHealth None 0 0 None.

(** [total_cycles] cannot reach the bound of its 64 bits. *)
Definition record_success (at_unix : Z) (h : ReplPeerHealth) : ReplPeerHealth :=
  mkReplPeerHealth (Some at_unix) 0 (total_cycles h + 1) None.

Definition record_failure (error : string) (h : ReplPeerHealth) : ReplPeerHealth :=
  mkReplPeerHealth (last_success_unix h) (saturating_add32 (consecutive_failures h) 1)
    (total_cycles h + 1) (Some error).

Definition is_healthy (h : ReplPeerHealth) : bool :=
  bool_decide (is_Some (last_success_unix h)) && (consecutive_failures h =? 0).

(** ** The ring *)

Definition DEFAULT_FAILURE_THRESHOLD : Z := 3.

Definition SocketAddr : Type := IpAddr * Z.

Record TopologyDc := mkTopologyDc {
  dc_id : string;
  drs : SocketAddr;
  kdc : SocketAddr;
  spn : string;
}.

Record ReplicationCommon := mkReplicationCommon {
  rc_realm : string;
  rc_user : string;
  rc_password : string;
  rc_keytab : option string;
  rc_nc_dn : string;
  rc_interval : Z;
}.

Record ReplicationConfig := mkReplicationConfig {
  cfg_kdc : SocketAddr;
  cfg_drs : SocketAddr;
  cfg_realm : string;
  cfg_user : string;
  cfg_password : string;
  cfg_keytab : option string;
  cfg_spn : string;
  cfg_nc_dn : string;
  cfg_extra_ncs : list string;
  cfg_interval : Z;
}.

Definition locator_identity (dc : TopologyDc) : option (string * string * string) :=
  match split "/" (spn dc) !! 1%nat with
  | None => None
  | Some fqdn =>
      match split_once "." fqdn with
      | None => None
      | Some (label, domain) =>
          if is_empty label || is_empty domain then None
          else match (drs dc).1 with
               | V4 v4 => Some (domain, label, ipv4_to_string v4)
               | V6 _ => None
               end
      end
  end.

Definition to_replication_config (dc : TopologyDc) (common : ReplicationCommon) : ReplicationConfig :=
  mkReplicationConfig (kdc dc) (drs dc) (rc_realm common) (rc_user common) (rc_password common)
    (rc_keytab common) (spn dc) (rc_nc_dn common) [] (rc_interval common).

Definition live_dcs (dcs : list TopologyDc) (dead : gset string) : list TopologyDc :=
  dedup_by (fun a b => String.eqb (dc_id a) (dc_id b))
    (sort_by (fun a b => str_le (dc_id a) (dc_id b))
       (List.filter (fun d => negb (bool_decide (dc_id d ∈ dead))) dcs)).

Definition ring_inbound_partners (dcs : list TopologyDc) (self_id : string) (dead : gset string)
  : outcome (list TopologyDc) :=
  let live := live_dcs dcs dead in
  let n := length live in
  match position (fun d => String.eqb (dc_id d) self_id) live with
  | None => Ret []
  | Some pos =>
      match n with
      | 0%nat | 1%nat => Ret []
      | 2%nat => let! d := idx live (1 - pos)%nat in Ret [d]
      | _ =>
          let! a := idx live ((pos + n - 1) mod n)%nat in
          let! b := idx live ((pos + 1) mod n)%nat in
          Ret [a; b]
      end
  end.

Definition inbound_configs (dcs : list TopologyDc) (self_id : string) (dead : gset string)
    (common : ReplicationCommon) : outcome (list ReplicationConfig) :=
  let! l := ring_inbound_partners dcs self_id dead in
  Ret (map (fun dc => to_replication_config dc common) l).

Definition dead_peers (dcs : list TopologyDc) (health : SocketAddr -> option ReplPeerHealth) (threshold : Z)
  : gset string :=
  let threshold := Z.max threshold 1 in
  list_to_set (map dc_id
    (List.filter (fun dc => is_some_and (fun h => threshold <=? consecutive_failures h) (health (drs dc))) dcs)).

Definition desired_partner_ids (dcs : list TopologyDc) (self_id : string) (dead : gset string)
  : outcome (gset string) :=
  let! static := ring_inbound_partners dcs self_id ∅ in
  let! live := ring_inbound_partners dcs self_id dead in
  Ret (list_to_set (map dc_id static) ∪ list_to_set (map dc_id live)).

(** ** The manager *)

(** What the loop keeps: the running agents and the controllers whose locator
    records were withdrawn. *)
Record manager := mkManager { running : gset string; withdrawn : gset string }.

(** The locator records of one controller: [withdraw] and [seed] say whether the
    repository call succeeds. *)
Definition locator_step (withdraw seed : TopologyDc -> bool) (dead : gset string) (w : gset string) (dc : TopologyDc)
  : gset string :=
  let is_dead := bool_decide (dc_id dc ∈ dead) in
  match locator_identity dc with
  | None => w
  | Some _ =>
      if is_dead && negb (bool_decide (dc_id dc ∈ w)) then
        if withdraw dc then {[ dc_id dc ]} ∪ w else w
      else if negb is_dead && bool_decide (dc_id dc ∈ w) then
        if seed dc then w ∖ {[ dc_id dc ]} else w
      else w
  end.

(** One turn of the loop. *)
Definition manager_round (withdraw seed : TopologyDc -> bool) (dcs : list TopologyDc) (self_id : string)
    (health : SocketAddr -> option ReplPeerHealth) (failure_threshold : Z) (m : manager) : outcome manager :=
  let dead := dead_peers dcs health failure_threshold in
  let! desired := desired_partner_ids dcs self_id dead in
  let withdrawn' := fold_left (locator_step withdraw seed dead) dcs (withdrawn m) in
  let kept := filter (fun id => id ∈ desired) (running m) in
  let started := filter (fun id => id ∉ kept /\ Exists (fun d => dc_id d = id) dcs) desired in
  Ret (mkManager (kept ∪ started) withdrawn').

(** ** Pools are disjoint *)

Lemma allocate_all_lookup dsas : forall a i d p, 0 <= next_available a <= U32_MAX -> 1 <= pool_size a ->
  (allocate_all dsas a).1 !! i = Some (d, p) ->
  p = mkRidPool (Z.min (next_available a + Z.of_nat i * pool_size a) U32_MAX) (pool_size a).
Proof.
  induction dsas as [|d ds IH]; intros a i d0 p Ha Hs; [done|]. cbn [allocate_all]. unfold allocate.
  set (a' := mkRidAllocator _ _ _).
  specialize (IH a'). destruct (allocate_all ds a') as [ps a''] eqn:E. cbn [fst].
  destruct i as [|i]; cbn [lookup list_lookup].
  - intros [= <- <-]. f_equal. lia.
  - intros Hi. apply (IH i d0 p) in Hi as ->; [|unfold a', saturating_add32; simpl; lia|done].
    unfold a', saturating_add32. simpl. f_equal. lia.
Qed.

Lemma allocate_all_recorded dsas : forall a d,
  pools_for (allocate_all dsas a).2 d =
  pools_for a d ++ map snd (List.filter (fun dp => String.eqb dp.1 d) (allocate_all dsas a).1).
Proof.
  induction dsas as [|d ds IH]; intros a d0; [by rewrite app_nil_r|]. cbn [allocate_all]. unfold allocate.
  set (a' := mkRidAllocator _ _ _). specialize (IH a' d0). destruct (allocate_all ds a') as [ps a''].
  cbn [fst snd List.filter] in *. rewrite IH. unfold a', pools_for. cbn [assignments].
  destruct (String.eqb_spec d d0) as [->|Hne].
  - rewrite lookup_insert_eq. cbn [unwrap_or map snd]. by rewrite <-app_assoc.
  - by rewrite lookup_insert_ne.
Qed.

(** the pools of relative identifiers the master hands out.  Over any
    sequence of requests by any controllers no identifier lies in two of them, even
    when the watermark saturates; the n-th pool is the n-th block of the pool size
    after the first identifier as long as that block fits in 32 bits; and the
    master's record has exactly the pools it handed to each controller, in order. *)
Theorem rid_pools_disjoint first size dsas :
  0 <= first <= U32_MAX ->
  let s := Z.max size 1 in
  let '(handed, master) := allocate_all dsas (with_pool_size first size) in
  (forall i j d e p q rid, handed !! i = Some (d, p) -> handed !! j = Some (e, q) ->
     pool_contains p rid = true -> pool_contains q rid = true -> i = j) /\
  (forall i d p rid, handed !! i = Some (d, p) -> first + (Z.of_nat i + 1) * s <= U32_MAX ->
     (pool_contains p rid = true <-> first + Z.of_nat i * s <= rid < first + (Z.of_nat i + 1) * s)) /\
  (forall d, pools_for master d = map snd (List.filter (fun dp => String.eqb dp.1 d) handed)).
Proof.
  intros Hf s. pose proof (allocate_all_lookup dsas (with_pool_size first size)) as Hl.
  pose proof (allocate_all_recorded dsas (with_pool_size first size)) as Hr.
  destruct (allocate_all dsas (with_pool_size first size)) as [handed master]. cbn [fst snd] in *.
  assert (forall i d p, handed !! i = Some (d, p) -> p = mkRidPool (Z.min (first + Z.of_nat i * s) U32_MAX) s) as Hp
    by (intros i d p; apply Hl; simpl; lia).
  unfold pool_contains, pool_end, saturating_add32. split_and!.
  - intros i j d e p q rid ->%Hp ->%Hp. simpl. intros Hi Hj. to_prop.
    destruct (Z.lt_trichotomy (Z.of_nat i) (Z.of_nat j)) as [Ho|[Ho|Ho]]; [exfalso|lia|exfalso]; nia.
  - intros i d p rid ->%Hp Hfit. simpl. rewrite andb_true_iff, Z.leb_le, Z.ltb_lt. nia.
  - intros d. by rewrite Hr.
Qed.

Lemma rid_pools_disjoint_witness :
  let '(handed, _) := allocate_all ["dc1"; "dc2"; "dc1"]%string (with_pool_size 4294966000 500) in
  map snd handed = [mkRidPool 4294966000 500; mkRidPool 4294966500 500; mkRidPool 4294967000 500] /\
  forall i j d e p q rid, handed !! i = Some (d, p) -> handed !! j = Some (e, q) ->
     pool_contains p rid = true -> pool_contains q rid = true -> i = j.
Proof.
  pose proof (rid_pools_disjoint 4294966000 500 ["dc1"; "dc2"; "dc1"]%string ltac:(unfold U32_MAX; lia)) as H.
  cbv beta zeta in H.
  destruct (allocate_all ["dc1"; "dc2"; "dc1"]%string (with_pool_size 4294966000 500)) as [handed m] eqn:E.
  split; [vm_compute in E; by injection E as <- _|]. apply H.
Defined.

(** ** The ring is connected *)

Lemma dedup_by_map {A B} (f : A -> B) (same : B -> B -> bool) l :
  map f (dedup_by (fun a b => same (f a) (f b)) l) = dedup_by same (map f l).
Proof.
  induction l as [|x l IH]; [done|]. cbn. rewrite <-IH.
  destruct (dedup_by (fun a b => same (f a) (f b)) l) as [|y r]; [done|]. cbn. by destruct (same (f x) (f y)).
Qed.

Lemma dedup_strings_In l x : In x (dedup_by String.eqb l) <-> In x l.
Proof.
  induction l as [|a l IH]; simpl; [done|]. rewrite <-IH. destruct (dedup_by String.eqb l) as [|y r]; simpl; [tauto|].
  destruct (String.eqb_spec a y) as [->|]; simpl; tauto.
Qed.

Lemma dedup_sorted_NoDup l : StronglySorted (fun a b => str_le a b = true) l -> NoDup (dedup_by String.eqb l).
Proof.
  intros H. assert (StronglySorted (fun a b => str_lt a b = true) (dedup_by String.eqb l)) as Hs.
  { induction H as [|a l H IH HF]; simpl; [constructor|].
    assert (forall y, In y (dedup_by String.eqb l) -> str_le a y = true) as Hle.
    { intros y Hy. apply (proj1 (dedup_strings_In _ _)) in Hy. by apply (proj1 (List.Forall_forall _ _) HF). }
    destruct (dedup_by String.eqb l) as [|y r]; [repeat constructor|].
    apply StronglySorted_inv in IH as [IH1 IH2].
    destruct (String.eqb_spec a y) as [->|Hne]; [by constructor|]. constructor; [by constructor|].
    assert (str_lt a y = true) as Hay.
    { destruct (proj1 (str_le_lt a y) (Hle y (or_introl eq_refl))); [done|congruence]. }
    constructor; [done|]. eapply Forall_impl; [exact IH2|]. intros z. by apply str_lt_trans. }
  clear H. induction Hs as [|x r H IH HF]; [constructor|]. constructor; [|done].
  intros Hin. apply (proj1 (Forall_forall _ _) HF) in Hin. by rewrite str_lt_irrefl in Hin.
Qed.

Definition live_ids (dcs : list TopologyDc) (dead : gset string) : list string := map dc_id (live_dcs dcs dead).

Lemma live_ids_NoDup dcs dead : NoDup (live_ids dcs dead).
Proof.
  unfold live_ids, live_dcs. rewrite dedup_by_map. apply dedup_sorted_NoDup.
  assert (StronglySorted (fun a b => str_le (dc_id a) (dc_id b) = true)
    (sort_by (fun a b => str_le (dc_id a) (dc_id b)) (List.filter (fun d => negb (bool_decide (dc_id d ∈ dead))) dcs))) as H
    by (apply sort_by_sorted; [intros a b; apply str_le_total|intros a b c; apply str_le_trans]).
  induction H as [|a l H IH HF]; simpl; constructor; [done|]. apply List.Forall_forall. intros x (b & <- & Hb)%in_map_iff.
  by apply (proj1 (List.Forall_forall _ _) HF).
Qed.

Lemma live_ids_In dcs dead x : In x (live_ids dcs dead) <-> x ∉ dead /\ exists d, In d dcs /\ dc_id d = x.
Proof.
  unfold live_ids, live_dcs. rewrite dedup_by_map, dedup_strings_In, in_map_iff. setoid_rewrite sort_by_perm.
  setoid_rewrite filter_In. setoid_rewrite negb_true_iff. setoid_rewrite bool_decide_eq_false. split.
  - intros (d & <- & Hin & Hd). eauto.
  - intros (Hd & d & Hin & <-). exists d. auto.
Qed.

Section ring.
Context (dcs : list TopologyDc) (dead : gset string).
Let ids := live_ids dcs dead.
Let n := length ids.

(** [b] is an inbound partner of [a]. *)
Definition partner (a b : string) : Prop :=
  exists l, ring_inbound_partners dcs a dead = Ret l /\ In b (map dc_id l).

Lemma ids_lookup i d : live_dcs dcs dead !! i = Some d -> ids !! i = Some (dc_id d).
Proof. intros H. unfold ids, live_ids. change (map dc_id (live_dcs dcs dead)) with (dc_id <$> live_dcs dcs dead). by rewrite list_lookup_fmap, H. Qed.

Lemma lookup_ids i a : ids !! i = Some a -> exists d, live_dcs dcs dead !! i = Some d /\ dc_id d = a.
Proof.
  unfold ids, live_ids. change (map dc_id (live_dcs dcs dead)) with (dc_id <$> live_dcs dcs dead). rewrite list_lookup_fmap.
  intros (d & E & ->)%fmap_Some. eauto.
Qed.

Lemma position_id i a : ids !! i = Some a -> position (fun d => String.eqb (dc_id d) a) (live_dcs dcs dead) = Some i.
Proof.
  intros Hi. destruct (lookup_ids i a Hi) as (d & Hd & <-).
  destruct (position _ _) as [j|] eqn:E.
  - apply position_Some in E as (d' & Hd' & E%String.eqb_eq & _). f_equal.
    apply (NoDup_lookup ids j i (dc_id d)); [apply live_ids_NoDup| |done]. rewrite <-E. by apply ids_lookup.
  - exfalso. pose proof (position_None _ _ E d) as F. simpl in F. rewrite String.eqb_refl in F.
    discriminate F. eapply list_elem_of_In, list_elem_of_lookup_2, Hd.
Qed.

Lemma n_length : n = length (live_dcs dcs dead).
Proof. unfold n, ids, live_ids. apply length_map. Qed.

(** The partners of the node at index [i] are at the indices before and after it. *)
Lemma partner_next i a : ids !! i = Some a -> exists l, ring_inbound_partners dcs a dead = Ret l /\ (length l <= 2)%nat /\
  forall b, In b (map dc_id l) <-> (2 <= n)%nat /\ exists j, ids !! j = Some b /\ (j = (i + 1) mod n \/ i = (j + 1) mod n)%nat.
Proof.
  intros Hi. apply lookup_lt_Some in Hi as Hin. fold n in Hin. unfold ring_inbound_partners. rewrite (position_id i a Hi).
  rewrite <-n_length.
  assert (forall k, (k < n)%nat -> exists d, idx (live_dcs dcs dead) k = Ret d /\ ids !! k = Some (dc_id d)) as Hidx.
  { intros k Hk. rewrite n_length in Hk. destruct (lookup_lt_is_Some_2 (live_dcs dcs dead) k Hk) as [d Hd].
    exists d. unfold idx. rewrite Hd. split; [done|by apply ids_lookup]. }
  assert (forall j b, ids !! j = Some b -> (j < n)%nat) as Hjn by (intros j b Hj; by apply lookup_lt_Some in Hj).
  destruct n as [|[|[|m]]] eqn:En; [lia|exists []; split_and!; [done|simpl; lia|simpl; intros b; split; [done|lia]]|..].
  - destruct (Hidx (1 - i)%nat ltac:(lia)) as (d & -> & Hd). eexists. split; [done|]. split; [simpl; lia|].
    intros b. simpl. split.
    + intros [<-|[]]. split; [lia|]. exists (1 - i)%nat. split; [done|].
      left. assert (i = 0 \/ i = 1)%nat as [-> | ->] by lia; done.
    + intros [_ (j & Hj & Hor)]. left. apply Hjn in Hj as Hj2. assert (j = 1 - i)%nat as ->; [|congruence].
      assert (i = 0 \/ i = 1)%nat as [-> | ->] by lia; assert (j = 0 \/ j = 1)%nat as [-> | ->] by lia; simpl in Hor; lia.
  - set (k := S (S (S m))) in *. assert (3 <= k)%nat as Hk by (unfold k; lia).
    destruct (Hidx ((i + k - 1) mod k)%nat) as (d1 & -> & Hd1); [apply Nat.mod_upper_bound; lia|].
    destruct (Hidx ((i + 1) mod k)%nat) as (d2 & -> & Hd2); [apply Nat.mod_upper_bound; lia|].
    eexists. split; [done|]. split; [simpl; lia|].
    assert (forall j, (j < k)%nat -> (j = (i + k - 1) mod k <-> i = (j + 1) mod k)%nat) as Hprev.
    { intros j Hj. destruct (decide (i = 0)%nat) as [->|Hi0].
      - rewrite (Nat.mod_small (0 + k - 1)) by lia. destruct (decide (j = k - 1)%nat) as [->|].
        + replace (k - 1 + 1)%nat with k by lia. rewrite Nat.Div0.mod_same. lia.
        + rewrite (Nat.mod_small (j + 1)) by lia. lia.
      - replace (i + k - 1)%nat with (i - 1 + 1 * k)%nat by lia. rewrite Nat.Div0.mod_add, (Nat.mod_small (i - 1)) by lia.
        destruct (decide (j = k - 1)%nat) as [->|].
        + replace (k - 1 + 1)%nat with k by lia. rewrite Nat.Div0.mod_same. lia.
        + rewrite (Nat.mod_small (j + 1)) by lia. lia. }
    intros b. cbn [map In]. split.
    + intros [<-|[<-|[]]]; (split; [lia|]); eexists; (split; [eassumption|]); [right|by left].
      apply Hprev; [apply Nat.mod_upper_bound; lia|done].
    + intros [_ (j & Hj & [->|Hor])]; [right; left; congruence|left].
      apply Hprev in Hor as ->; [congruence|by eapply Hjn].
Qed.

Lemma not_live_no_partner a l : ~ In a ids -> ring_inbound_partners dcs a dead = Ret l -> l = [].
Proof.
  intros Hn. unfold ring_inbound_partners. destruct (position _ _) as [i|] eqn:E; [|by intros [= <-]].
  apply position_Some in E as (d & Hd & <-%String.eqb_eq & _). exfalso. apply Hn.
  eapply list_elem_of_In, list_elem_of_lookup_2, ids_lookup, Hd.
Qed.

Lemma partner_iff a b : partner a b <-> (2 <= n)%nat /\ exists i j, ids !! i = Some a /\ ids !! j = Some b /\
  (j = (i + 1) mod n \/ i = (j + 1) mod n)%nat.
Proof.
  split.
  - intros (l & Hl & Hb). destruct (in_dec (fun x y => decide (x = y)) a ids) as [Hin|Hin].
    + apply list_elem_of_In, list_elem_of_lookup in Hin as [i Hi]. destruct (partner_next i a Hi) as (l' & Hl' & _ & H).
      rewrite Hl in Hl'. injection Hl' as <-. destruct (proj1 (H b) Hb) as (Hn & j & Hj & Hor). split; [done|]. by exists i, j.
    + apply not_live_no_partner in Hl as ->; [|done]. destruct Hb.
  - intros (Hn & i & j & Hi & Hj & Hor). destruct (partner_next i a Hi) as (l & Hl & _ & H).
    exists l. split; [done|]. apply H. split; [done|]. by exists j.
Qed.

Lemma partner_sym a b : partner a b -> partner b a.
Proof. rewrite !partner_iff. intros (Hn & i & j & Hi & Hj & Hor). split; [done|]. exists j, i. tauto. Qed.

Lemma reach_first i a f : ids !! 0%nat = Some f -> ids !! i = Some a -> rtc partner f a.
Proof.
  intros Hf. revert a. induction i as [|i IH]; intros a Hi; [assert (a = f) as -> by congruence; apply rtc_refl|].
  apply lookup_lt_Some in Hi as Hlt. fold n in Hlt.
  destruct (lookup_lt_is_Some_2 ids i) as [b Hb]; [fold n; lia|].
  eapply rtc_r; [by apply IH|]. apply partner_iff. split; [lia|]. exists i, (S i). split_and!; [done|done|].
  left. rewrite Nat.mod_small by lia. lia.
Qed.

Lemma ring_connected a b : In a ids -> In b ids -> rtc partner a b.
Proof.
  intros (i & Hi)%list_elem_of_In%list_elem_of_lookup (j & Hj)%list_elem_of_In%list_elem_of_lookup.
  destruct (lookup_lt_is_Some_2 ids 0%nat) as [f Hf]; [apply lookup_lt_Some in Hi; lia|].
  transitivity f; [|by eapply reach_first]. pose proof (reach_first i a f Hf Hi) as H. clear Hi Hf Hj.
  induction H as [|x y z Hxy _ IH]; [apply rtc_refl|]. eapply rtc_r; [exact IH|by apply partner_sym].
Qed.
End ring.

(** the replication ring.  For a set of controllers and a set of dead ones the
    partners every node computes for itself never panic, are at most two, live and
    other than itself, and are mutual; and replication reaches every live
    controller from every other. *)
Theorem replication_ring_connected dcs dead :
  let live x := x ∉ dead /\ exists d, In d dcs /\ dc_id d = x in
  (forall a, exists l, ring_inbound_partners dcs a dead = Ret l /\ (length l <= 2)%nat /\
     forall d, In d l -> live (dc_id d) /\ dc_id d <> a) /\
  (forall a b, partner dcs dead a b -> partner dcs dead b a) /\
  (forall a b, live a -> live b -> rtc (partner dcs dead) a b).
Proof.
  intros live. assert (forall x, In x (live_ids dcs dead) <-> live x) as Hlive by apply live_ids_In. split_and!.
  - intros a. destruct (in_dec (fun x y => decide (x = y)) a (live_ids dcs dead)) as [Hin|Hin].
    + apply list_elem_of_In, list_elem_of_lookup in Hin as [i Hi].
      destruct (partner_next dcs dead i a Hi) as (l & Hl & Hlen & H). exists l. split_and!; [done|done|].
      intros d Hd. assert (In (dc_id d) (map dc_id l)) as Hin by (apply in_map_iff; by exists d).
      destruct (proj1 (H _) Hin) as (Hn & j & Hj & Hor).
      split; [apply Hlive; by eapply list_elem_of_In, list_elem_of_lookup_2|]. intros E. rewrite E in Hj.
      assert (i = j) as <- by (by eapply (NoDup_lookup _ i j a (live_ids_NoDup dcs dead))).
      apply lookup_lt_Some in Hi. destruct (decide (S i = length (live_ids dcs dead))) as [El|].
      * rewrite Nat.add_1_r, El, Nat.Div0.mod_same in Hor. lia.
      * rewrite Nat.mod_small in Hor by lia. lia.
    + unfold ring_inbound_partners. destruct (position _ _) as [i|] eqn:E; [|exists []; split_and!; [done|simpl; lia|done]].
      apply position_Some in E as (d & Hd & <-%String.eqb_eq & _). exfalso. apply Hin.
      eapply list_elem_of_In, list_elem_of_lookup_2, ids_lookup, Hd.
  - apply partner_sym.
  - intros a b Ha%Hlive Hb%Hlive. by apply ring_connected.
Qed.

Definition sample_dc (id : string) (ip : Z) : TopologyDc :=
  mkTopologyDc id (V4 ip, 1025) (V4 ip, 88) (String.append "ldap/" (String.append id ".example.com")).

Definition sample_dcs : list TopologyDc := [sample_dc "c" 3; sample_dc "a" 1; sample_dc "d" 4; sample_dc "b" 2].

Lemma replication_ring_connected_witness :
  rtc (partner sample_dcs {["b"%string]}) "a"%string "d"%string /\
  ring_inbound_partners sample_dcs "a" {["b"%string]} = Ret [sample_dc "d" 4; sample_dc "c" 3].
Proof.
  split; [|by vm_compute]. apply (replication_ring_connected sample_dcs {["b"%string]}).
  - split; [apply (bool_decide_unpack _); by vm_compute|]. exists (sample_dc "a" 1). simpl. auto.
  - split; [apply (bool_decide_unpack _); by vm_compute|]. exists (sample_dc "d" 4). simpl. auto.
Defined.

(** ** The manager converges *)

Lemma ring_partners_known dcs a dead l d : ring_inbound_partners dcs a dead = Ret l -> In d l ->
  exists d', In d' dcs /\ dc_id d' = dc_id d.
Proof.
  intros Hl Hd. destruct (in_dec (fun x y => decide (x = y)) a (live_ids dcs dead)) as [Hin|Hin].
  - apply list_elem_of_In, list_elem_of_lookup in Hin as [i Hi].
    destruct (partner_next dcs dead i a Hi) as (l' & Hl' & _ & H). rewrite Hl in Hl'. injection Hl' as <-.
    destruct (proj1 (H (dc_id d))) as (_ & j & Hj & _); [apply in_map_iff; by exists d|].
    apply list_elem_of_lookup_2, list_elem_of_In in Hj. by apply live_ids_In in Hj as [_ Hj].
  - apply not_live_no_partner in Hl as ->; [|done]. destruct Hd.
Qed.

Lemma ring_total dcs a dead : exists l, ring_inbound_partners dcs a dead = Ret l.
Proof.
  destruct (in_dec (fun x y => decide (x = y)) a (live_ids dcs dead)) as [Hin|Hin].
  - apply list_elem_of_In, list_elem_of_lookup in Hin as [i Hi].
    destruct (partner_next dcs dead i a Hi) as (l & Hl & _). eauto.
  - unfold ring_inbound_partners. destruct (position _ _) as [i|] eqn:E; [|eauto].
    apply position_Some in E as (d & Hd & <-%String.eqb_eq & _). exfalso. apply Hin.
    eapply list_elem_of_In, list_elem_of_lookup_2, ids_lookup, Hd.
Qed.

Lemma desired_known dcs self dead : exists s, desired_partner_ids dcs self dead = Ret s /\
  forall x, x ∈ s -> Exists (fun d => dc_id d = x) dcs.
Proof.
  unfold desired_partner_ids. destruct (ring_total dcs self ∅) as [l1 H1], (ring_total dcs self dead) as [l2 H2].
  rewrite H1, H2. simpl. eexists. split; [done|]. intros x Hx. apply elem_of_union in Hx.
  rewrite !elem_of_list_to_set, !list_elem_of_In, !in_map_iff in Hx. apply Exists_exists.
  destruct Hx as [(d & <- & Hd)|(d & <- & Hd)]; [eapply ring_partners_known in H1|eapply ring_partners_known in H2];
    eauto; [destruct H1 as (d' & ? & ?)|destruct H2 as (d' & ? & ?)]; exists d'; by rewrite list_elem_of_In.
Qed.

Lemma locator_step_In dead w d id : id ∈ locator_step (fun _ => true) (fun _ => true) dead w d <->
  if decide (dc_id d = id /\ is_Some (locator_identity d)) then id ∈ dead else id ∈ w.
Proof.
  unfold locator_step. destruct (locator_identity d) as [x|].
  - destruct (decide _) as [[<- _]|Hn]; repeat case_bool_decide; simpl; try set_solver;
      assert (dc_id d <> id) by (intros E; apply Hn; split; [done|by eexists]); set_solver.
  - destruct (decide _) as [[_ [? ?]]|]; done.
Qed.

(** Membership of [id] after the locator steps, when the calls succeed. *)
Lemma locator_fold dead dcs w id :
  let locatable := Exists (fun d => dc_id d = id /\ is_Some (locator_identity d)) dcs in
  id ∈ fold_left (locator_step (fun _ => true) (fun _ => true) dead) dcs w <->
  (locatable /\ id ∈ dead) \/ (~ locatable /\ id ∈ w).
Proof.
  revert w. induction dcs as [|d dcs IH]; intros w; cbn [fold_left].
  - rewrite Exists_nil. tauto.
  - rewrite IH, Exists_cons, locator_step_In. clear IH. destruct (decide (dc_id d = id /\ _)); [|tauto].
    destruct (decide (Exists (fun d0 => dc_id d0 = id /\ is_Some (locator_identity d0)) dcs)); tauto.
Qed.

Lemma locator_fold_fail dead dcs w : fold_left (locator_step (fun _ => false) (fun _ => false) dead) dcs w = w.
Proof.
  revert w. induction dcs as [|d dcs IH]; intros w; cbn [fold_left]; [done|]. rewrite IH. unfold locator_step.
  destruct (locator_identity d); [|done]. by repeat case_bool_decide.
Qed.

(** the topology manager converges.  When the repository calls succeed, one
    turn of the loop leaves an agent running for exactly the desired partners, none
    of them unknown, and the locator records withdrawn for exactly the dead among
    the controllers that have them; a further turn on the same health changes
    nothing; and a call that fails leaves that controller's records as they were. *)
Theorem topology_manager_converges dcs self health threshold m :
  let dead := dead_peers dcs health threshold in
  let turn := manager_round (fun _ => true) (fun _ => true) dcs self health threshold in
  exists m', turn m = Ret m' /\ desired_partner_ids dcs self dead = Ret (running m') /\
    (forall x, x ∈ running m' -> Exists (fun d => dc_id d = x) dcs) /\
    (forall d, In d dcs -> is_Some (locator_identity d) -> (dc_id d ∈ withdrawn m' <-> dc_id d ∈ dead)) /\
    turn m' = Ret m' /\
    (forall m2, manager_round (fun _ => false) (fun _ => false) dcs self health threshold m = Ret m2 ->
       withdrawn m2 = withdrawn m).
Proof.
  intros dead turn. destruct (desired_known dcs self dead) as (s & Hs & Hknown).
  assert (forall wd sd m0, manager_round wd sd dcs self health threshold m0 =
    Ret (mkManager s (fold_left (locator_step wd sd dead) dcs (withdrawn m0)))) as Hround.
  { intros wd sd m0. unfold manager_round. fold dead. rewrite Hs. cbn [obind]. f_equal. f_equal. apply set_eq. intros x.
    rewrite elem_of_union, !elem_of_filter. split; [tauto|]. intros Hx. specialize (Hknown x Hx).
    destruct (decide (x ∈ running m0)); [tauto|]. right. split; [|done]. split; [tauto|done]. }
  eexists. split; [apply Hround|]. split_and!; [done|done| | |].
  - intros d Hd Hloc. cbn [withdrawn]. rewrite locator_fold.
    assert (Exists (fun d0 => dc_id d0 = dc_id d /\ is_Some (locator_identity d0)) dcs) as He
      by (apply Exists_exists; exists d; by rewrite list_elem_of_In). tauto.
  - unfold turn. rewrite Hround. f_equal. f_equal. apply set_eq. intros x. cbn [withdrawn]. rewrite !locator_fold. tauto.
  - intros m2. rewrite Hround. intros [= <-]. apply locator_fold_fail.
Qed.
