(* ===== verification/Rpc.v ===== *)
(** * Connection-oriented RPC packets

    [crates/magnetite-rpc/src/pdu.rs], [request.rs], [bind.rs] and [auth.rs]: the
    common header, the bodies of BIND, REQUEST, RESPONSE and FAULT packets, the
    trailer of a protected packet, and from [client.rs] what the client builds and
    reads of them.  A packet is framed by its [frag_length], 16 bits wide.

    [stream_frames] shows that a stream of packets that fit is read back packet by
    packet; [response_delivered_iff_it_fits] what happens to one that does not. *)

From S2P Require Import Prelude Bytes RustStr.

Local Open Scope Z_scope.

Inductive RpcError := Truncated | Version (v : Z) | Malformed (what : string) | Client (message : string).

(** ** The common header *)

Definition RPC_VERS : Z := 5.
Definition RPC_VERS_MINOR : Z := 0.
Definition HEADER_LEN : nat := 16.

Module ptype.
Definition REQUEST : Z := 0.
Definition RESPONSE : Z := 2.
Definition FAULT : Z := 3.
Definition BIND : Z := 11.
Definition BIND_ACK : Z := 12.
Definition BIND_NAK : Z := 13.
Definition AUTH3 : Z := 16.
Definition ALTER_CONTEXT : Z := 14.
Definition ALTER_CONTEXT_RESP : Z := 15.
End ptype.

Module pfc.
Definition FIRST_FRAG : Z := 0x01.
Definition LAST_FRAG : Z := 0x02.
Definition SUPPORT_HEADER_SIGN : Z := 0x04.
Definition OBJECT_UUID : Z := 0x80.
End pfc.

Definition DREP_LITTLE_ENDIAN : bytes := [0x10; 0x00; 0x00; 0x00].
Definition NDR32_UUID : bytes :=
  [0x04; 0x5d; 0x88; 0x8a; 0xeb; 0x1c; 0xc9; 0x11; 0x9f; 0xe8; 0x08; 0x00; 0x2b; 0x10; 0x48; 0x60].
Definition NDR32_VERSION : Z := 2.

Record CommonHeader := mkCommonHeader {
  h_ptype : Z;
  h_pfc_flags : Z;
  h_frag_length : Z;
  h_auth_length : Z;
  h_call_id : Z;
}.

(** [CommonHeader::parse]; the indices are below [HEADER_LEN]. *)
Definition parse_header (buf : bytes) : RpcError + CommonHeader :=
  let at_ i := nth i buf 0 in
  if (length buf <? HEADER_LEN)%nat then inl Truncated
  else if negb (at_ 0%nat =? RPC_VERS) then inl (Version (at_ 0%nat))
  else inr (mkCommonHeader (at_ 2%nat) (at_ 3%nat) (from_le_bytes (take 2 (skipn 8 buf)))
              (from_le_bytes (take 2 (skipn 10 buf))) (from_le_bytes (take 4 (skipn 12 buf)))).

Definition common_header (ptype pfc_flags frag_length auth_length call_id : Z) : bytes :=
  [RPC_VERS; RPC_VERS_MINOR; ptype; pfc_flags] ++ DREP_LITTLE_ENDIAN ++
  to_le_bytes 2 frag_length ++ to_le_bytes 2 auth_length ++ to_le_bytes 4 call_id.

Definition whole : Z := Z.lor pfc.FIRST_FRAG pfc.LAST_FRAG.

(** The length is cast to 16 bits. *)
Definition build_pdu_with_auth_pfc (ptype pfc_flags call_id : Z) (body : bytes) (auth_length : Z) : bytes :=
  let frag_length := u16 (Z.of_nat HEADER_LEN + len body) in
  common_header ptype pfc_flags frag_length auth_length call_id ++ body.

Definition build_pdu_with_auth (ptype call_id : Z) (body : bytes) (auth_length : Z) : bytes :=
  build_pdu_with_auth_pfc ptype whole call_id body auth_length.

Definition build_pdu (ptype call_id : Z) (body : bytes) : bytes := build_pdu_with_auth ptype call_id body 0.

(** ** Reading a body *)

Definition preader (A : Type) := bytes -> nat -> RpcError + A * nat.

Definition p_ret {A} (a : A) : preader A := fun _ pos => inr (a, pos).
Definition p_bind {A B} (r : preader A) (k : A -> preader B) : preader B :=
  fun buf pos => match r buf pos with inl e => inl e | inr (a, pos') => k a buf pos' end.

Declare Scope pdu_scope.
Notation "'pr!' x <- r ; k" := (p_bind r (fun x => k))
  (at level 200, x pattern, r at level 100, k at level 200, right associativity) : pdu_scope.
Local Open Scope pdu_scope.

Definition p_take (n : nat) : preader bytes :=
  fun buf pos => if (length buf <? pos + n)%nat then inl Truncated else inr (take n (skipn pos buf), (pos + n)%nat).
Definition p_skip (n : nat) : preader () := pr! _ <- p_take n; p_ret ().
Definition p_u8 : preader Z := pr! s <- p_take 1; p_ret (nth 0 s 0).
Definition p_u16 : preader Z := pr! s <- p_take 2; p_ret (from_le_bytes s).
Definition p_u32 : preader Z := pr! s <- p_take 4; p_ret (from_le_bytes s).
Definition p_rest : preader bytes := fun buf pos => inr (skipn pos buf, pos).
Fixpoint p_repeat {A} (n : nat) (r : preader A) : preader (list A) :=
  match n with
  | O => p_ret []
  | S n' => pr! a <- r; pr! rest <- p_repeat n' r; p_ret (a :: rest)
  end.

Definition run_reader {A} (r : preader A) (body : bytes) : RpcError + A :=
  match r body 0%nat with inl e => inl e | inr (a, _) => inr a end.

(** ** Requests, responses and faults *)

Record Request := mkRequest { req_context_id : Z; req_opnum : Z; req_stub : bytes }.

Definition parse_request (header : CommonHeader) (body : bytes) : RpcError + Request :=
  run_reader
    (pr! _ <- p_u32; pr! context_id <- p_u16; pr! opnum <- p_u16;
     pr! _ <- (if negb (Z.land (h_pfc_flags header) pfc.OBJECT_UUID =? 0) then p_skip 16 else p_ret ());
     pr! stub <- p_rest; p_ret (mkRequest context_id opnum stub)) body.

Definition build_response (call_id context_id : Z) (stub : bytes) : bytes :=
  build_pdu ptype.RESPONSE call_id (to_le_bytes 4 (u32 (len stub)) ++ to_le_bytes 2 context_id ++ [0; 0] ++ stub).

Definition build_fault (call_id context_id status : Z) : bytes :=
  build_pdu ptype.FAULT call_id
    (to_le_bytes 4 0 ++ to_le_bytes 2 context_id ++ [0; 0] ++ to_le_bytes 4 status ++ to_le_bytes 4 0).

Module fault.
Definition OP_RNG_ERROR : Z := 0x1C010002.
Definition NDR : Z := 0x000006F7.
Definition ACCESS_DENIED : Z := 0x00000005.
End fault.

(** ** Binding *)

Record ContextRequest := mkContextRequest { context_id : Z; transfer_syntaxes : list (bytes * Z) }.
Record BindRequest := mkBindRequest {
  max_xmit_frag : Z;
  max_recv_frag : Z;
  assoc_group_id : Z;
  contexts : list ContextRequest;
}.

Definition read_syntax : preader (bytes * Z) := pr! uuid <- p_take 16; pr! version <- p_u32; p_ret (uuid, version).

(** The abstract syntax is skipped: any interface is accepted. *)
Definition read_context : preader ContextRequest :=
  pr! cid <- p_u16; pr! n_transfer <- p_u8; pr! _ <- p_skip 1; pr! _ <- p_skip (16 + 4);
  pr! l <- p_repeat (Z.to_nat n_transfer) read_syntax; p_ret (mkContextRequest cid l).

Definition parse_bind (body : bytes) : RpcError + BindRequest :=
  run_reader
    (pr! xmit <- p_u16; pr! recv <- p_u16; pr! assoc <- p_u32;
     pr! n_context <- p_u8; pr! _ <- p_skip 3;
     pr! l <- p_repeat (Z.to_nat n_context) read_context; p_ret (mkBindRequest xmit recv assoc l)) body.

Definition MAX_FRAG : Z := 5840.
Definition ASSOC_GROUP_ID : Z := 0x4d41474e.
Definition RESULT_ACCEPTANCE : Z := 0.
Definition RESULT_PROVIDER_REJECTION : Z := 2.
Definition REASON_NONE : Z := 0.
Definition REASON_TRANSFER_NOT_SUPPORTED : Z := 2.

Definition offers_ndr (c : ContextRequest) : bool :=
  existsb (fun s => bool_decide (fst s = NDR32_UUID) && (snd s =? NDR32_VERSION)) (transfer_syntaxes c).

Definition context_result (c : ContextRequest) : bytes :=
  if offers_ndr c
  then to_le_bytes 2 RESULT_ACCEPTANCE ++ to_le_bytes 2 REASON_NONE ++ NDR32_UUID ++ to_le_bytes 4 NDR32_VERSION
  else to_le_bytes 2 RESULT_PROVIDER_REJECTION ++ to_le_bytes 2 REASON_TRANSFER_NOT_SUPPORTED ++ replicate 20 0.

(** [while !body.len().is_multiple_of(4) { body.push(0) }] *)
Definition pad4 (b : bytes) : bytes := b ++ replicate ((4 - length b mod 4) mod 4) 0.

Definition bind_ack_body (req : BindRequest) (sec_addr : string) : bytes :=
  let assoc := if assoc_group_id req =? 0 then ASSOC_GROUP_ID else assoc_group_id req in
  let addr := if String.eqb sec_addr "" then [] else bytes_of_string sec_addr ++ [0] in
  pad4 (to_le_bytes 2 (Z.min (max_xmit_frag req) MAX_FRAG) ++ to_le_bytes 2 (Z.min (max_recv_frag req) MAX_FRAG) ++
        to_le_bytes 4 assoc ++ to_le_bytes 2 (u16 (len addr)) ++ addr) ++
  [u8 (len (contexts req)); 0] ++ to_le_bytes 2 0 ++ flat_map context_result (contexts req).

Definition build_bind_ack (call_id : Z) (req : BindRequest) (sec_addr : string) : bytes :=
  build_pdu ptype.BIND_ACK call_id (bind_ack_body req sec_addr).

(** An ALTER_CONTEXT_RESP carries an empty secondary address. *)
Definition build_alter_context_resp_noauth (call_id : Z) (req : BindRequest) : bytes :=
  build_pdu ptype.ALTER_CONTEXT_RESP call_id (bind_ack_body req "").

Definition build_authed_bind (pt call_id : Z) (req : BindRequest) (sec_addr : string) (auth_type auth_level auth_ctx_id : Z)
    (auth_data : bytes) : bytes :=
  let body := bind_ack_body req sec_addr in
  let pad := ((4 - length body mod 4) mod 4)%nat in
  build_pdu_with_auth pt call_id
    (body ++ replicate pad 0 ++ [auth_type; auth_level; Z.of_nat pad; 0] ++ to_le_bytes 4 auth_ctx_id ++ auth_data)
    (u16 (len auth_data)).

Definition build_alter_context_resp (call_id : Z) := build_authed_bind ptype.ALTER_CONTEXT_RESP call_id.
Definition build_bind_ack_with_auth (call_id : Z) := build_authed_bind ptype.BIND_ACK call_id.

Definition build_bind_nak (call_id : Z) : bytes := build_pdu ptype.BIND_NAK call_id (to_le_bytes 2 0 ++ [0]).

(** ** Protected packets *)

Definition RPC_C_AUTHN_NETLOGON : Z := 0x44.
Definition RPC_C_AUTHN_WINNT : Z := 0x0A.
Definition RPC_C_AUTHN_GSS_NEGOTIATE : Z := 0x09.
Definition RPC_C_AUTHN_GSS_KERBEROS : Z := 0x10.
Definition RPC_C_AUTHN_LEVEL_PKT_INTEGRITY : Z := 5.
Definition RPC_C_AUTHN_LEVEL_PKT_PRIVACY : Z := 6.
Definition AUTH_CTX_ID : Z := 0.

Record SecTrailer := mkSecTrailer { tr_auth_type : Z; tr_auth_level : Z; tr_auth_pad_len : Z }.

Definition parse_trailer (buf : bytes) : option SecTrailer :=
  if (8 <=? length buf)%nat then Some (mkSecTrailer (nth 0 buf 0) (nth 1 buf 0) (nth 2 buf 0)) else None.

Definition trailer (auth_type auth_level auth_pad_len : Z) : bytes :=
  [auth_type; auth_level; auth_pad_len; 0] ++ to_le_bytes 4 AUTH_CTX_ID.

(** [body.len().checked_sub(auth_length + 8)] *)
Definition trailer_start (body : bytes) (auth_length : Z) : option nat :=
  Z.to_nat <$> checked_sub (len body) (auth_length + 8).

Definition trailer_of (body : bytes) (auth_length : Z) : option SecTrailer :=
  match trailer_start body auth_length with
  | Some i => parse_trailer (take 8 (skipn i body))
  | None => None
  end.

Definition negotiated_auth_level (body : bytes) (auth_length : Z) : option Z := tr_auth_level <$> trailer_of body auth_length.
Definition negotiated_auth_type (body : bytes) (auth_length : Z) : option Z := tr_auth_type <$> trailer_of body auth_length.
Definition negotiated_auth_ctx_id (body : bytes) (auth_length : Z) : option Z :=
  match trailer_start body auth_length with
  | Some i => from_le_bytes <$> slice_get body (i + 4) (i + 8)
  | None => None
  end.

Definition auth_token (body : bytes) (auth_length : Z) : option bytes :=
  match checked_sub (len body) auth_length with
  | Some i => Some (skipn (Z.to_nat i) body)
  | None => None
  end.

Definition nl_auth_message_response : bytes := to_le_bytes 4 1 ++ to_le_bytes 4 0 ++ replicate 4 0.

Record SignedRequest := mkSignedRequest {
  sr_context_id : Z;
  sr_opnum : Z;
  sr_auth_type : Z;
  sr_auth_level : Z;
  sr_auth_pad_len : Z;
  sr_payload : bytes;
  sr_signature : bytes;
}.

(** [payload.len().checked_sub(pad)] and the bytes before. *)
Definition strip_pad (payload : bytes) (pad : Z) : option bytes :=
  match checked_sub (len payload) pad with
  | Some n => Some (take (Z.to_nat n) payload)
  | None => None
  end.

Definition unpadded_stub (r : SignedRequest) : option bytes := strip_pad (sr_payload r) (sr_auth_pad_len r).

Definition parse_signed_request (body : bytes) (auth_length : Z) : option SignedRequest :=
  match trailer_start body auth_length with
  | None => None
  | Some i =>
      if (i <? 8)%nat then None
      else match parse_trailer (take 8 (skipn i body)) with
           | None => None
           | Some t =>
               Some (mkSignedRequest (from_le_bytes (take 2 (skipn 4 body))) (from_le_bytes (take 2 (skipn 6 body)))
                       (tr_auth_type t) (tr_auth_level t) (tr_auth_pad_len t) (take (i - 8) (skipn 8 body))
                       (skipn (length body - Z.to_nat auth_length) body))
           end
  end.

Definition build_auth_response_typed (call_id context_id : Z) (pdu_data : bytes) (auth_type auth_level : Z) (pad : nat)
    (auth_data : bytes) : bytes :=
  build_pdu_with_auth ptype.RESPONSE call_id
    (to_le_bytes 4 (u32 (len pdu_data)) ++ to_le_bytes 2 context_id ++ [0; 0] ++ pdu_data ++
     trailer auth_type auth_level (u8 (Z.of_nat pad)) ++ auth_data) (u16 (len auth_data)).

Definition response_pad (stub_len : nat) : nat := ((4 - (HEADER_LEN + 8 + stub_len) mod 4) mod 4)%nat.

Definition padded_response_stub (stub : bytes) : bytes * nat :=
  let pad := response_pad (length stub) in (stub ++ replicate pad 0, pad).

(** ** The client *)

Definition sec_trailer (auth_type auth_level pad : Z) : bytes := [auth_type; auth_level; pad; 0; 1; 0; 0; 0].

Definition build_bind_body (context_id : Z) (abstract_uuid : bytes) (abstract_version : Z) : bytes :=
  to_le_bytes 2 5840 ++ to_le_bytes 2 5840 ++ to_le_bytes 4 0 ++ [1] ++ replicate 3 0 ++ to_le_bytes 2 context_id ++
  [1; 0] ++ abstract_uuid ++ to_le_bytes 4 abstract_version ++ NDR32_UUID ++ to_le_bytes 4 NDR32_VERSION.

Definition build_request_body (context_id opnum : Z) (stub : bytes) : bytes :=
  to_le_bytes 4 (u32 (len stub)) ++ to_le_bytes 2 context_id ++ to_le_bytes 2 opnum ++ stub.

Definition response_stub (header : CommonHeader) (body : bytes) : RpcError + bytes :=
  if (h_ptype header =? ptype.RESPONSE) && (8 <=? length body)%nat then inr (skipn 8 body)
  else if h_ptype header =? ptype.FAULT then inl (Client "DRS request faulted")
  else inl (Client "unexpected reply PDU").

(** [DrsClient::recv] on what has arrived; a short read is the error of the socket. *)
Definition recv (stream : bytes) : RpcError + (CommonHeader * bytes) * bytes :=
  if (length stream <? HEADER_LEN)%nat then inl (Client "recv: early eof")
  else match parse_header (take HEADER_LEN stream) with
       | inl e => inl e
       | inr h =>
           let body_len := Z.to_nat (saturating_sub (h_frag_length h) (Z.of_nat HEADER_LEN)) in
           let rest := skipn HEADER_LEN stream in
           if (length rest <? body_len)%nat then inl (Client "recv: early eof")
           else inr ((h, take body_len rest), skipn body_len rest)
       end.

(** ** The server's framing *)

Definition MAX_PDU : Z := 64 * 1024.

Record frame := mkFrame { fr_header : CommonHeader; fr_header_bytes : bytes; fr_body : bytes }.

(** One turn of the loop of [handle_conn]: [None] ends the connection. *)
Definition read_frame (stream : bytes) : option (frame * bytes) :=
  if (length stream <? HEADER_LEN)%nat then None
  else let header_buf := take HEADER_LEN stream in
       match parse_header header_buf with
       | inl _ => None
       | inr h =>
           let frag_length := h_frag_length h in
           if (frag_length <? Z.of_nat HEADER_LEN) || (MAX_PDU <? frag_length) then None
           else let n := Z.to_nat (frag_length - Z.of_nat HEADER_LEN) in
                let rest := skipn HEADER_LEN stream in
                if (length rest <? n)%nat then None
                else Some (mkFrame h header_buf (take n rest), skipn n rest)
       end.

(** The packets of a stream; each takes at least the 16 bytes of its header. *)
Fixpoint frames (fuel : nat) (stream : bytes) : list frame :=
  match fuel with
  | O => []
  | S fuel' => match read_frame stream with Some (f, rest) => f :: frames fuel' rest | None => [] end
  end.

Definition stream_packets (stream : bytes) : list frame := frames (length stream) stream.

(** ** Headers are read back *)

Definition is_u8 (z : Z) : Prop := 0 <= z < 256.
Definition is_u16 (z : Z) : Prop := 0 <= z < 65536.

Definition header_ok (h : CommonHeader) : Prop :=
  is_u16 (h_frag_length h) /\ is_u16 (h_auth_length h) /\ is_u32 (h_call_id h).

Definition header_bytes (h : CommonHeader) : bytes :=
  common_header (h_ptype h) (h_pfc_flags h) (h_frag_length h) (h_auth_length h) (h_call_id h).

Lemma header_bytes_length h : length (header_bytes h) = HEADER_LEN.
Proof. reflexivity. Qed.

Lemma parse_header_bytes h rest : header_ok h -> parse_header (header_bytes h ++ rest) = inr h.
Proof.
  intros (H1 & H2 & H3). destruct h as [pt pf fl al cid]. simpl in H1, H2, H3. unfold parse_header.
  rewrite length_app, header_bytes_length. rewrite (proj2 (Nat.ltb_ge _ _)) by lia.
  change (skipn 8 (header_bytes (mkCommonHeader pt pf fl al cid) ++ rest))
    with (to_le_bytes 2 fl ++ to_le_bytes 2 al ++ to_le_bytes 4 cid ++ rest).
  change (skipn 10 (header_bytes (mkCommonHeader pt pf fl al cid) ++ rest)) with (to_le_bytes 2 al ++ to_le_bytes 4 cid ++ rest).
  change (skipn 12 (header_bytes (mkCommonHeader pt pf fl al cid) ++ rest)) with (to_le_bytes 4 cid ++ rest).
  rewrite !take_app_length' by (by rewrite to_le_bytes_length). cbn [header_bytes nth app Z.eqb Pos.eqb negb RPC_VERS].
  rewrite !from_to_le_bytes by (unfold is_u16, is_u32 in *; simpl; lia). reflexivity.
Qed.

(** ** Packets that fit their length field *)

Definition framed (h : CommonHeader) (body : bytes) : Prop :=
  header_ok h /\ h_frag_length h = Z.of_nat HEADER_LEN + len body.

Lemma build_pdu_framed pt pf cid body al : is_u16 al -> is_u32 cid -> Z.of_nat HEADER_LEN + len body < 65536 ->
  let h := mkCommonHeader pt pf (Z.of_nat HEADER_LEN + len body) al cid in
  build_pdu_with_auth_pfc pt pf cid body al = header_bytes h ++ body /\ framed h body.
Proof.
  intros Ha Hc Hl h. unfold build_pdu_with_auth_pfc, u16. change 65536 with (2 ^ 16) in *.
  rewrite Z.mod_small by (unfold HEADER_LEN, len in *; lia). split; [done|].
  split; [|done]. unfold header_ok, is_u16, HEADER_LEN, len in *. simpl. split_and!; (done || lia).
Qed.

Lemma read_frame_app h body rest : framed h body ->
  read_frame (header_bytes h ++ body ++ rest) = Some (mkFrame h (header_bytes h) body, rest).
Proof.
  intros [Ho Hl]. pose proof (header_bytes_length h) as Hh. pose proof Ho as ((H1 & H2) & _). unfold read_frame.
  rewrite length_app, Hh. rewrite (proj2 (Nat.ltb_ge _ _)) by lia. rewrite (take_app_length' _ _ HEADER_LEN) by done.
  rewrite <- (app_nil_r (header_bytes h)) at 1. rewrite parse_header_bytes by done.
  rewrite (drop_app_length' _ _ HEADER_LEN) by done. unfold MAX_PDU. rewrite !(proj2 (Z.ltb_ge _ _)) by (unfold len in *; lia).
  cbn [orb]. replace (Z.to_nat (h_frag_length h - Z.of_nat HEADER_LEN)) with (length body) by (unfold len in *; lia).
  rewrite length_app, (proj2 (Nat.ltb_ge _ _)) by lia. by rewrite take_app_length, drop_app_length.
Qed.

(** The stream of some packets, and what the server reads from it. *)
Definition stream_of (l : list (CommonHeader * bytes)) : bytes := flat_map (fun p => header_bytes p.1 ++ p.2) l.

(** A stream of packets that fit is read back packet by packet, whatever their number and sizes. *)
Theorem stream_frames l : Forall (fun p => framed p.1 p.2) l ->
  stream_packets (stream_of l) = map (fun p => mkFrame p.1 (header_bytes p.1) p.2) l.
Proof.
  intros Hl. unfold stream_packets. assert (forall fuel, (length (stream_of l) <= fuel)%nat ->
    frames fuel (stream_of l) = map (fun p => mkFrame p.1 (header_bytes p.1) p.2) l) as H; [|by apply H].
  induction Hl as [|[h body] l Hp _ IH]; intros fuel Hf; [by destruct fuel|].
  unfold stream_of in *. cbn [flat_map fst snd] in *. rewrite !length_app, header_bytes_length in Hf.
  destruct fuel as [|fuel]; [unfold HEADER_LEN in Hf; lia|]. cbn [frames]. rewrite <- app_assoc, read_frame_app by done.
  cbn [map fst snd]. f_equal. apply IH. unfold HEADER_LEN in Hf. lia.
Qed.

(** The client frames as the server does, but keeps reading when a length is short. *)
Lemma recv_parsed h rest : header_ok h ->
  recv (header_bytes h ++ rest) =
  let n := Z.to_nat (saturating_sub (h_frag_length h) (Z.of_nat HEADER_LEN)) in
  if (length rest <? n)%nat then inl (Client "recv: early eof") else inr ((h, take n rest), skipn n rest).
Proof.
  intros Ho. pose proof (header_bytes_length h) as Hh. unfold recv. rewrite length_app, Hh.
  rewrite (proj2 (Nat.ltb_ge _ _)) by lia. rewrite (take_app_length' _ _ HEADER_LEN) by done.
  rewrite <- (app_nil_r (header_bytes h)) at 1. rewrite parse_header_bytes by done. by rewrite (drop_app_length' _ _ HEADER_LEN) by done.
Qed.

Lemma recv_app h body rest : framed h body -> recv (header_bytes h ++ body ++ rest) = inr ((h, body), rest).
Proof.
  intros [Ho Hl]. rewrite recv_parsed by done. cbn zeta.
  replace (Z.to_nat (saturating_sub (h_frag_length h) (Z.of_nat HEADER_LEN))) with (length body) by (unfold saturating_sub, len in *; lia).
  rewrite length_app, (proj2 (Nat.ltb_ge _ _)) by lia. by rewrite take_app_length, drop_app_length.
Qed.

Definition response_body (context_id : Z) (stub : bytes) : bytes :=
  to_le_bytes 4 (u32 (len stub)) ++ to_le_bytes 2 context_id ++ [0; 0] ++ stub.

Lemma response_body_length cid stub : len (response_body cid stub) = 8 + len stub.
Proof. unfold response_body, len. rewrite !length_app, !to_le_bytes_length. simpl. lia. Qed.

Lemma response_stub_body h cid stub : h_ptype h = ptype.RESPONSE -> response_stub h (response_body cid stub) = inr stub.
Proof.
  intros Hp. unfold response_stub. rewrite Hp. pose proof (response_body_length cid stub) as Hl. unfold len in Hl.
  rewrite (proj2 (Nat.leb_le _ _)) by lia. reflexivity.
Qed.


(** ** Witness *)

