(* ===== verification/AdDirectory.v ===== *)
(** * The directory of a running domain controller

    [crates/magnetite-rpc/src/directory.rs]: the users and groups that the SAMR,
    LSA and DRSUAPI interfaces answer from.  [users] and [groups] are loaded at
    start-up; [runtime_users] and [runtime_groups] are filled while the server
    runs.  A [Directory] holds the current contents of what the source keeps
    behind locks, so a call that takes [&self] and writes returns the new value.

    The durable source of relative identifiers is any instance of
    [RidAllocator], the trait of [samr.rs]. *)

From S2P Require Import Prelude Bytes RustStr Utf16 KdcStore.

Local Open Scope Z_scope.

(** ** Data *)

Record ReplMeta := mkReplMeta {
  m_version : Z;
  m_originating_time : Z;
  m_originating_dsa : bytes;
  m_originating_usn : Z;
}.

Record User := mkUser {
  user_name : string;
  user_rid : Z;
  user_nt_hash : bytes;
  user_kerberos_key : bytes;
  user_disabled : bool;
  user_repl_meta : option ReplMeta;
}.

Record GroupLink := mkGroupLink { gl_member_rid : Z; gl_present : bool; gl_repl_meta : option ReplMeta }.

Record Group := mkGroup {
  group_name : string;
  group_rid : Z;
  members : list Z;
  member_links : list GroupLink;
  group_repl_meta : option ReplMeta;
}.

Inductive RidKind := KindUser | KindGroup.

#[export] Instance RidKind_eq_dec : EqDecision RidKind.
Proof. solve_decision. Defined.

(** [trait RidAllocator]: both calls may change the allocator. *)
Class RidAllocator (A : Type) := {
  allocate : A -> option Z * A;
  allocate_pool : Z -> A -> option (Z * Z) * A;
}.

Record Directory (A : Type) := mkDirectory {
  netbios : string;
  dns_domain : string;
  dir_realm : string;
  domain_sid : list Z;
  users : list User;
  groups : list Group;
  runtime_users : list User;
  runtime_groups : list Group;
  rid_pool_next : Z;
  rid_source : option A;
}.
Arguments mkDirectory {A}.
Arguments netbios {A}. Arguments dns_domain {A}. Arguments dir_realm {A}. Arguments domain_sid {A}.
Arguments users {A}. Arguments groups {A}. Arguments runtime_users {A}. Arguments runtime_groups {A}.
Arguments rid_pool_next {A}. Arguments rid_source {A}.

Definition RID_POOL_START : Z := 1100.
Definition RID_POOL_SIZE : Z := 500.
Definition RID_POOL_MAX : Z := 0x3fffffff.

(** [iter_mut().find(p)] and replace, or push. *)
Fixpoint replace_first {X} (p : X -> bool) (x : X) (l : list X) : list X :=
  match l with
  | [] => [x]
  | y :: l' => if p y then x :: l' else y :: replace_first p x l'
  end.

(** [iter_mut().find(p)] and change in place. *)
Fixpoint change_first {X} (p : X -> bool) (f : X -> X) (l : list X) : list X :=
  match l with
  | [] => []
  | y :: l' => if p y then f y :: l' else y :: change_first p f l'
  end.

Section directory.
Context {UC : UnicodeTables} {A : Type} {RA : RidAllocator A}.
Context (md4 : bytes -> bytes) (generate_key_from_password : bytes -> bytes -> string + bytes).
Implicit Types d : Directory A.

Definition nt_hash (password : string) : bytes := md4 (utf16le password).
Definition nt_hash_utf16le (pw_utf16le : bytes) : bytes := md4 pw_utf16le.

Definition new_directory (nb dns rlm : string) (sid : list Z) : Directory A :=
  mkDirectory nb dns rlm sid [] [] [] [] RID_POOL_START None.

Definition with_users (l : list User) d : Directory A :=
  mkDirectory (netbios d) (dns_domain d) (dir_realm d) (domain_sid d) l (groups d) (runtime_users d) (runtime_groups d)
    (rid_pool_next d) (rid_source d).
Definition with_groups (l : list Group) d : Directory A :=
  mkDirectory (netbios d) (dns_domain d) (dir_realm d) (domain_sid d) (users d) l (runtime_users d) (runtime_groups d)
    (rid_pool_next d) (rid_source d).
Definition with_runtime_users (l : list User) d : Directory A :=
  mkDirectory (netbios d) (dns_domain d) (dir_realm d) (domain_sid d) (users d) (groups d) l (runtime_groups d)
    (rid_pool_next d) (rid_source d).
Definition with_runtime_groups (l : list Group) d : Directory A :=
  mkDirectory (netbios d) (dns_domain d) (dir_realm d) (domain_sid d) (users d) (groups d) (runtime_users d) l
    (rid_pool_next d) (rid_source d).
Definition with_rids (next : Z) (src : option A) d : Directory A :=
  mkDirectory (netbios d) (dns_domain d) (dir_realm d) (domain_sid d) (users d) (groups d) (runtime_users d)
    (runtime_groups d) next src.

(** *** Relative identifiers *)

Definition set_rid_source (src : A) d : Directory A := with_rids (rid_pool_next d) (Some src) d.
Definition set_rid_pool_next (next : Z) d : Directory A := with_rids (Z.max next RID_POOL_START) (rid_source d) d.

Definition allocate_rid_pool (size : Z) d : option (Z * Z) * Directory A :=
  let size := Z.max size 1 in
  match rid_source d with
  | Some src => let '(r, src') := allocate_pool size src in (r, with_rids (rid_pool_next d) (Some src') d)
  | None =>
      let base := rid_pool_next d in
      (Some (base, size), with_rids (saturating_add32 base size) None d)
  end.

(** *** Accounts and groups that appear while the server runs *)

Definition named (sam : string) (u : User) : bool := eq_ignore_ascii_case (user_name u) sam.

Definition upsert_runtime_user (u : User) d : Directory A :=
  with_runtime_users (replace_first (named (user_name u)) u (runtime_users d)) d.

Definition upsert_runtime_group (g : Group) d : Directory A :=
  with_runtime_groups (replace_first (fun g' => group_rid g' =? group_rid g) g (runtime_groups d)) d.

Definition kept_user (keep : gset string) (u : User) : bool :=
  bool_decide (to_lowercase (user_name u) ∈ (set_map to_lowercase keep : gset string)).

Definition retain_runtime_users (keep : gset string) d : list string * Directory A :=
  (map user_name (List.filter (fun u => negb (kept_user keep u)) (runtime_users d)),
   with_runtime_users (List.filter (kept_user keep) (runtime_users d)) d).

Definition kept_group (keep : gset Z) (g : Group) : bool := bool_decide (group_rid g ∈ keep).

Definition retain_runtime_groups (keep : gset Z) d : list Z * Directory A :=
  (map group_rid (List.filter (fun g => negb (kept_group keep g)) (runtime_groups d)),
   with_runtime_groups (List.filter (kept_group keep) (runtime_groups d)) d).

(** *** Loading *)

Definition add_user (sam : string) (rid : Z) (password : string) d : string + Directory A :=
  match derive_aes256_key generate_key_from_password password (default_salt (dir_realm d) [sam]) with
  | inl e => inl e
  | inr k => inr (with_users (users d ++ [mkUser sam rid (nt_hash password) k false None]) d)
  end.

Definition add_user_with_keys (sam : string) (rid : Z) (nt kerb : bytes) (dis : bool) d : Directory A :=
  with_users (users d ++ [mkUser sam rid nt kerb dis None]) d.

Definition set_user_repl_meta (sam : string) (meta : ReplMeta) d : Directory A :=
  with_users (change_first (fun u => String.eqb (user_name u) sam)
    (fun u => mkUser (user_name u) (user_rid u) (user_nt_hash u) (user_kerberos_key u) (user_disabled u) (Some meta)) (users d)) d.

Definition add_group_with_members (sam : string) (rid : Z) (ms : list Z) d : Directory A :=
  with_groups (groups d ++ [mkGroup sam rid ms (map (fun m => mkGroupLink m true None) ms) None]) d.

Definition add_group (sam : string) (rid : Z) d : Directory A := add_group_with_members sam rid [] d.

Definition set_group_member_links (sam : string) (links : list GroupLink) d : Directory A :=
  with_groups (change_first (fun g => String.eqb (group_name g) sam)
    (fun g => mkGroup (group_name g) (group_rid g) (map gl_member_rid (List.filter gl_present links)) links (group_repl_meta g))
    (groups d)) d.

Definition set_group_repl_meta (sam : string) (meta : ReplMeta) d : Directory A :=
  with_groups (change_first (fun g => String.eqb (group_name g) sam)
    (fun g => mkGroup (group_name g) (group_rid g) (members g) (member_links g) (Some meta)) (groups d)) d.

Definition dir_set_domain_sid (sid : list Z) d : Directory A :=
  mkDirectory (netbios d) (dns_domain d) (dir_realm d) sid (users d) (groups d) (runtime_users d) (runtime_groups d)
    (rid_pool_next d) (rid_source d).

(** *** Lookups *)

Definition find_user (sam : string) d : option User :=
  match find (named sam) (users d) with
  | Some u => Some u
  | None => find (named sam) (runtime_users d)
  end.

Definition group_members (rid : Z) d : option (list Z) :=
  match find (fun g => group_rid g =? rid) (groups d) with
  | Some g => Some (members g)
  | None => members <$> find (fun g => group_rid g =? rid) (runtime_groups d)
  end.

Definition resolve_rid (rid : Z) d : option (string * RidKind) :=
  match find (fun u => user_rid u =? rid) (users d) with
  | Some u => Some (user_name u, KindUser)
  | None =>
      match find (fun u => user_rid u =? rid) (runtime_users d) with
      | Some u => Some (user_name u, KindUser)
      | None =>
          match find (fun g => group_rid g =? rid) (groups d) with
          | Some g => Some (group_name g, KindGroup)
          | None => (fun g => (group_name g, KindGroup)) <$> find (fun g => group_rid g =? rid) (runtime_groups d)
          end
      end
  end.

(** [for x in extra { if !all.iter().any(same rid) { all.push(x) } }] *)
Fixpoint merge_new {X} (rid : X -> Z) (all extra : list X) : list X :=
  match extra with
  | [] => all
  | x :: extra' => merge_new rid (if existsb (fun y => rid y =? rid x) all then all else all ++ [x]) extra'
  end.

Definition all_users d : list User := merge_new user_rid (users d) (runtime_users d).
Definition all_groups d : list Group := merge_new group_rid (groups d) (runtime_groups d).

(** *** [Default] *)

Definition directory_default : string + Directory A :=
  match add_user "alice" 1000 "password12" (new_directory "EXAMPLE" "example.com" "EXAMPLE.COM" [21; 1; 2; 3]) with
  | inl e => inl e
  | inr d => inr (add_group "Domain Users" 513 (add_group "Domain Admins" 512 d))
  end.
End directory.

(** ** Lookups after a change *)

Lemma find_replace_first {X} (p : X -> bool) x l : p x = true -> find p (replace_first p x l) = Some x.
Proof. intros Hx. induction l as [|y l IH]; simpl; [by rewrite Hx|]. destruct (p y) eqn:E; simpl; [by rewrite Hx|by rewrite E]. Qed.

Lemma find_replace_first_ne {X} (p q : X -> bool) x l : (forall y, p y = true -> q y = false) -> q x = false ->
  find q (replace_first p x l) = find q l.
Proof.
  intros Hd Hx. induction l as [|y l IH]; simpl; [by rewrite Hx|]. destruct (p y) eqn:E; simpl; [by rewrite Hx, (Hd y E)|].
  by destruct (q y).
Qed.

Lemma named_self u : named (user_name u) u = true.
Proof. by apply eq_ignore_ascii_case_iff. Qed.

(** A published account is found at once, unless one of that name was loaded at
    start-up, which keeps answering. *)
Lemma find_user_upsert {A} u (d : Directory A) :
  find_user (user_name u) (upsert_runtime_user u d) =
  match find (named (user_name u)) (users d) with Some old => Some old | None => Some u end.
Proof.
  unfold find_user, upsert_runtime_user. simpl. destruct (find _ (users d)); [done|].
  apply find_replace_first, named_self.
Qed.
