(* ===== verification/DrsSecret.v ===== *)
(** * Secrets on the replication wire

    [crates/magnetite-rpc/src/drsuapi.rs], from [rc4] to [decrypt_unicode_pwd]: a
    password hash travels under a DES layer keyed by the account's RID, and the
    result under RC4 keyed by the digest of the session key and a salt, with a
    CRC-32 in front.  RC4, CRC-32 and the expansion of DES keys are the code of
    the file; DES on one block and MD5 are arguments. *)

From S2P Require Import Prelude Bytes.

Local Open Scope Z_scope.

(** ** RC4 *)

(** [s.swap(i, j)]; the indices are below 256, the length of [s]. *)
Definition swap (i j : nat) (s : list Z) : list Z := <[i := s !!! j]> (<[j := s !!! i]> s).

Definition byte_idx (z : Z) : nat := Z.to_nat (Z.land z 0xff).

(** [for i in 0..256] of the key schedule, from [i] on. *)
Fixpoint rc4_schedule (key : bytes) (n i : nat) (j : Z) (s : list Z) : list Z :=
  match n with
  | O => s
  | S n' =>
      let j := Z.land (j + s !!! i + key !!! (i mod length key)%nat) 0xff in
      rc4_schedule key n' (S i) j (swap i (Z.to_nat j) s)
  end.

Fixpoint rc4_stream (data : bytes) (i j : Z) (s : list Z) : bytes :=
  match data with
  | [] => []
  | byte :: data' =>
      let i := Z.land (i + 1) 0xff in
      let j := Z.land (j + s !!! Z.to_nat i) 0xff in
      let s := swap (Z.to_nat i) (Z.to_nat j) s in
      let k := s !!! byte_idx (s !!! Z.to_nat i + s !!! Z.to_nat j) in
      Z.lxor byte k :: rc4_stream data' i j s
  end.

(** The key is never empty: both callers pass an MD5 digest. *)
Definition rc4 (key data : bytes) : bytes :=
  rc4_stream data 0 0 (rc4_schedule key 256 0 0 (map Z.of_nat (seq 0 256))).

(** ** CRC-32 *)

Definition crc_bit (crc : Z) : Z :=
  let mask := u32 (- Z.land crc 1) in
  Z.lxor (Z.shiftr crc 1) (Z.land 0xEDB88320 mask).

Definition crc_byte (crc b : Z) : Z := Nat.iter 8 crc_bit (Z.lxor crc b).

(** [!crc] on a [u32] *)
Definition crc32 (data : bytes) : Z := Z.lxor (fold_left crc_byte data 0xFFFFFFFF) 0xFFFFFFFF.

(** ** DES keys *)

Definition transform_key (i : bytes) : bytes :=
  let at' n := i !!! n in
  map (fun b => Z.land (u8 (Z.shiftl b 1)) 0xFE)
    [ Z.shiftr (at' 0%nat) 1;
      Z.lor (u8 (Z.shiftl (Z.land (at' 0%nat) 0x01) 6)) (Z.shiftr (at' 1%nat) 2);
      Z.lor (u8 (Z.shiftl (Z.land (at' 1%nat) 0x03) 5)) (Z.shiftr (at' 2%nat) 3);
      Z.lor (u8 (Z.shiftl (Z.land (at' 2%nat) 0x07) 4)) (Z.shiftr (at' 3%nat) 4);
      Z.lor (u8 (Z.shiftl (Z.land (at' 3%nat) 0x0F) 3)) (Z.shiftr (at' 4%nat) 5);
      Z.lor (u8 (Z.shiftl (Z.land (at' 4%nat) 0x1F) 2)) (Z.shiftr (at' 5%nat) 6);
      Z.lor (u8 (Z.shiftl (Z.land (at' 5%nat) 0x3F) 1)) (Z.shiftr (at' 6%nat) 7);
      Z.land (at' 6%nat) 0x7F ].

Definition derive_des_keys (rid : Z) : bytes * bytes :=
  let k := to_le_bytes 4 rid in
  let at' n := k !!! n in
  (transform_key [at' 0%nat; at' 1%nat; at' 2%nat; at' 3%nat; at' 0%nat; at' 1%nat; at' 2%nat],
   transform_key [at' 3%nat; at' 0%nat; at' 1%nat; at' 2%nat; at' 3%nat; at' 0%nat; at' 1%nat]).

(** ** The two layers *)

(** [Des] on one block of eight bytes and [Md5], of the crates [des] and [md5]. *)
Class DrsCrypto := {
  des_encrypt_block : bytes -> bytes -> bytes;
  des_decrypt_block : bytes -> bytes -> bytes;
  md5 : bytes -> bytes;
}.

(** What the two crates document: decryption inverts encryption under the same
    key, blocks and digests have their sizes. *)
Class DrsCryptoLaws `(DrsCrypto) : Prop := {
  des_inverse : forall k b, length k = 8%nat -> length b = 8%nat -> bytes_ok b ->
    des_decrypt_block k (des_encrypt_block k b) = b;
  des_block : forall k b, length k = 8%nat -> length b = 8%nat ->
    length (des_encrypt_block k b) = 8%nat /\ bytes_ok (des_encrypt_block k b);
  md5_length : forall b, length (md5 b) = 16%nat;
}.

Definition SECRET_SESSION_KEY : bytes := [0; 1; 2; 3; 4; 5; 6; 7; 8; 9; 10; 11; 12; 13; 14; 15].
Definition SECRET_SALT : bytes := replicate 16 0xAA.

Section layers.
Context {DC : DrsCrypto}.

Definition des_encrypt_hash (hash : bytes) (rid : Z) : bytes :=
  let '(k1, k2) := derive_des_keys rid in
  des_encrypt_block k1 (take 8 hash) ++ des_encrypt_block k2 (skipn 8 hash).

Definition des_decrypt_hash (hash : bytes) (rid : Z) : bytes :=
  let '(k1, k2) := derive_des_keys rid in
  des_decrypt_block k1 (take 8 hash) ++ des_decrypt_block k2 (skipn 8 hash).

Definition drs_encrypt_value (session_key salt data : bytes) : bytes :=
  let rc4_key := md5 (session_key ++ salt) in
  let inner := to_le_bytes 4 (crc32 data) ++ data in
  salt ++ rc4 rc4_key inner.

Definition encrypted_unicode_pwd (nt_hash : bytes) (rid : Z) (session_key : bytes) : bytes :=
  drs_encrypt_value session_key SECRET_SALT (des_encrypt_hash nt_hash rid).

Definition drs_decrypt_value (session_key wrapped : bytes) : option bytes :=
  if (length wrapped <? 16 + 4)%nat then None
  else
    let salt := take 16 wrapped in
    let enc := skipn 16 wrapped in
    let inner := rc4 (md5 (session_key ++ salt)) enc in
    let data := skipn 4 inner in
    if crc32 data =? from_le_bytes (take 4 inner) then Some data else None.

(** [try_into] of the plaintext fails unless it is 16 bytes. *)
Definition decrypt_unicode_pwd (value : bytes) (rid : Z) (session_key : bytes) : option bytes :=
  match drs_decrypt_value session_key value with
  | Some h => if (length h =? 16)%nat then Some (des_decrypt_hash h rid) else None
  | None => None
  end.
End layers.

(** ** RC4 is its own inverse *)

Lemma rc4_stream_length data : forall i j s, length (rc4_stream data i j s) = length data.
Proof. induction data as [|b data IH]; intros i j s; [done|]. cbn [rc4_stream length]. by rewrite IH. Qed.

Lemma rc4_length key data : length (rc4 key data) = length data.
Proof. apply rc4_stream_length. Qed.

Lemma rc4_stream_involution data : forall i j s, rc4_stream (rc4_stream data i j s) i j s = data.
Proof.
  induction data as [|b data IH]; intros i j s; [done|]. cbn [rc4_stream]. rewrite IH. f_equal.
  by rewrite Z.lxor_assoc, Z.lxor_nilpotent, Z.lxor_0_r.
Qed.

Lemma rc4_involution key data : rc4 key (rc4 key data) = data.
Proof. apply rc4_stream_involution. Qed.

(** ** The checksum is a 32-bit number *)

Lemma lxor_bound a b n : 0 <= n -> 0 <= a < 2 ^ n -> 0 <= b < 2 ^ n -> 0 <= Z.lxor a b < 2 ^ n.
Proof.
  intros Hn Ha Hb. assert (0 <= Z.lxor a b) as H0 by (apply Z.lxor_nonneg; lia). split; [done|].
  destruct (Z.eq_dec (Z.lxor a b) 0) as [->|Hz]; [lia|]. apply Z.log2_lt_pow2; [lia|].
  assert (forall x, 0 <= x < 2 ^ n -> x = 0 \/ Z.log2 x < n) as Hl.
  { intros x Hx. destruct (Z.eq_dec x 0); [by left|right]. apply Z.log2_lt_pow2; lia. }
  pose proof (Z.log2_lxor a b ltac:(lia) ltac:(lia)) as Hx.
  destruct (Hl a Ha) as [->|], (Hl b Hb) as [->|]; rewrite ?Z.lxor_0_l, ?Z.lxor_0_r in *; lia.
Qed.

Lemma land_bound a b n : 0 <= n -> 0 <= a < 2 ^ n -> 0 <= b -> 0 <= Z.land a b < 2 ^ n.
Proof.
  intros Hn Ha Hb. assert (0 <= Z.land a b) as H0 by (apply Z.land_nonneg; lia). split; [done|].
  rewrite <- (Z.mod_small a (2 ^ n)), <- Z.land_ones, <- Z.land_assoc, (Z.land_comm _ b), Z.land_assoc, Z.land_ones by lia.
  apply Z.mod_pos_bound. lia.
Qed.

Lemma crc_bit_bound c : is_u32 c -> is_u32 (crc_bit c).
Proof.
  unfold is_u32. intros Hc. unfold crc_bit, u32. apply lxor_bound; [lia| |].
  - rewrite Z.shiftr_div_pow2 by lia. change (2 ^ 1) with 2. dlia.
  - apply land_bound; [lia|lia|apply Z.mod_pos_bound; lia].
Qed.

Lemma crc_byte_bound c b : is_u32 c -> is_u8 b -> is_u32 (crc_byte c b).
Proof.
  intros Hc Hb. unfold crc_byte. generalize 8%nat as n. induction n as [|n IH]; cbn [Nat.iter]; [|by apply crc_bit_bound].
  unfold is_u32, is_u8 in *. apply lxor_bound; lia.
Qed.

Lemma crc32_bound data : bytes_ok data -> is_u32 (crc32 data).
Proof.
  intros H. unfold crc32. assert (is_u32 (fold_left crc_byte data 0xFFFFFFFF)) as Hc.
  { assert (is_u32 0xFFFFFFFF) as H0 by (unfold is_u32; lia). revert H0. generalize 0xFFFFFFFF as c.
    induction H as [|b data Hb _ IH]; intros c Hc; [done|]. cbn [fold_left]. apply IH. by apply crc_byte_bound. }
  unfold is_u32 in *. apply lxor_bound; lia.
Qed.

(** ** Secrets survive the wire *)

Lemma transform_key_length i : length (transform_key i) = 8%nat.
Proof. done. Qed.

Lemma derive_des_keys_length rid : length (derive_des_keys rid).1 = 8%nat /\ length (derive_des_keys rid).2 = 8%nat.
Proof. done. Qed.

Section secrets.
Context `{DL : DrsCryptoLaws}.

Lemma drs_value_round_trip session_key salt data : length salt = 16%nat -> bytes_ok data ->
  drs_decrypt_value session_key (drs_encrypt_value session_key salt data) = Some data.
Proof.
  intros Hs Hd. unfold drs_decrypt_value, drs_encrypt_value. cbv zeta.
  rewrite length_app, rc4_length, length_app, to_le_bytes_length, Hs, (proj2 (Nat.ltb_ge _ _)) by lia.
  rewrite (take_app_length' salt _ 16) by done.
  rewrite (drop_app_length' salt _ 16) by done.
  rewrite rc4_involution. rewrite (take_app_length' _ _ 4) by (by rewrite to_le_bytes_length).
  rewrite (drop_app_length' _ data 4) by (by rewrite to_le_bytes_length).
  rewrite from_to_le_bytes, Z.eqb_refl; [done|]. by apply crc32_bound.
Qed.

Lemma des_hash_spec hash rid : length hash = 16%nat -> bytes_ok hash ->
  length (des_encrypt_hash hash rid) = 16%nat /\ bytes_ok (des_encrypt_hash hash rid) /\
  des_decrypt_hash (des_encrypt_hash hash rid) rid = hash.
Proof.
  intros Hl Hb. unfold des_encrypt_hash, des_decrypt_hash. destruct (derive_des_keys_length rid) as [H1 H2].
  destruct (derive_des_keys rid) as [k1 k2]. simpl in H1, H2.
  assert (length (take 8 hash) = 8%nat) as Ht by (rewrite length_take; lia).
  assert (length (skipn 8 hash) = 8%nat) as Hk by (rewrite length_skipn; lia).
  assert (bytes_ok (take 8 hash) /\ bytes_ok (skipn 8 hash)) as [B1 B2].
  { unfold bytes_ok in *. rewrite <- (take_drop 8 hash) in Hb. by apply Forall_app in Hb. }
  destruct (des_block k1 (take 8 hash) H1 Ht) as [L1 O1], (des_block k2 (skipn 8 hash) H2 Hk) as [L2 O2].
  rewrite length_app, L1, L2. split; [done|]. split; [by apply Forall_app|].
  rewrite (take_app_length' _ _ 8) by done.
  assert (forall a b : bytes, length a = 8%nat -> skipn 8 (a ++ b) = b) as Hd by (intros a b E; by apply (drop_app_length' _ _ 8)).
  rewrite Hd, !des_inverse by done. apply take_drop.
Qed.

(** The hash of a password sent under a session key is recovered under it. *)
Lemma unicode_pwd_round_trip nt rid session_key : length nt = 16%nat -> bytes_ok nt ->
  decrypt_unicode_pwd (encrypted_unicode_pwd nt rid session_key) rid session_key = Some nt.
Proof.
  intros Hl Hb. destruct (des_hash_spec nt rid Hl Hb) as (L & B & D).
  unfold decrypt_unicode_pwd, encrypted_unicode_pwd. rewrite drs_value_round_trip by done. by rewrite L, D.
Qed.

Lemma encrypted_unicode_pwd_length nt rid session_key : length nt = 16%nat -> bytes_ok nt ->
  length (encrypted_unicode_pwd nt rid session_key) = 36%nat.
Proof.
  intros Hl Hb. destruct (des_hash_spec nt rid Hl Hb) as (L & _).
  unfold encrypted_unicode_pwd, drs_encrypt_value. by rewrite length_app, rc4_length, length_app, to_le_bytes_length, L.
Qed.
End secrets.

(** The usual test vectors of the two algorithms. *)
Example rc4_vector : rc4 [75; 101; 121] [80; 108; 97; 105; 110; 116; 101; 120; 116] = [187; 243; 22; 232; 217; 64; 175; 10; 211].
Proof. vm_compute. reflexivity. Qed.

Example crc32_vector : crc32 [49; 50; 51; 52; 53; 54; 55; 56; 57] = 0xCBF43926.
Proof. vm_compute. reflexivity. Qed.
