(* ===== verification/Ntlm.v ===== *)
(** * NTLM security support

    [crates/magnetite-rpc/src/ntlmssp.rs]: the challenge, the verification of an
    NTLMv2 response, the keys of the context it establishes, signatures, and the
    sealing layer of SASL.  MD4, MD5 and HMAC-MD5 are a class; the clock of the
    challenge is an argument.

    A context threads an RC4 keystream through its messages.  [Rc4_apply_rc4]
    relates it to the one-shot cipher of [DrsSecret], and [sealed_conversation]
    shows that a peer with the mirrored context reads a whole conversation back. *)

From S2P Require Import Prelude Bytes RustStr Utf16 DrsSecret.

Local Open Scope Z_scope.

Class NtlmCrypto := {
  hmac_md5 : bytes -> bytes -> bytes;
  md5_digest : bytes -> bytes;
}.

(** ** Constants *)

Definition NTLMSSP_NEGOTIATE_UNICODE : Z := 0x00000001.
Definition NTLMSSP_REQUEST_TARGET : Z := 0x00000004.
Definition NTLMSSP_NEGOTIATE_SIGN : Z := 0x00000010.
Definition NTLMSSP_NEGOTIATE_SEAL : Z := 0x00000020.
Definition NTLMSSP_NEGOTIATE_NTLM : Z := 0x00000200.
Definition NTLMSSP_NEGOTIATE_ALWAYS_SIGN : Z := 0x00008000.
Definition NTLMSSP_TARGET_TYPE_SERVER : Z := 0x00020000.
Definition NTLMSSP_NEGOTIATE_EXTENDED_SESSIONSECURITY : Z := 0x00080000.
Definition NTLMSSP_NEGOTIATE_TARGET_INFO : Z := 0x00800000.
Definition NTLMSSP_NEGOTIATE_VERSION : Z := 0x02000000.
Definition NTLMSSP_NEGOTIATE_128 : Z := 0x20000000.
Definition NTLMSSP_NEGOTIATE_KEY_EXCH : Z := 0x40000000.
Definition NTLMSSP_NEGOTIATE_56 : Z := 0x80000000.

Definition AV_EOL : Z := 0x0000.
Definition AV_NB_COMPUTER : Z := 0x0001.
Definition AV_NB_DOMAIN : Z := 0x0002.
Definition AV_DNS_COMPUTER : Z := 0x0003.
Definition AV_DNS_DOMAIN : Z := 0x0004.
Definition AV_TIMESTAMP : Z := 0x0007.

(** ["NTLMSSP\0"] *)
Definition SIGNATURE : bytes := bytes_of_string "NTLMSSP" ++ [0].

Definition SERVER_CHALLENGE : bytes := bytes_of_string "MAGNSSP1".

Definition now_filetime (secs : Z) : bytes := to_le_bytes 8 ((secs + 11644473600) * 10000000).

(** ** The keystream *)

Record Rc4 := mkRc4 { rc4_s : list Z; rc4_i : Z; rc4_j : Z }.

Fixpoint Rc4_schedule (key : bytes) (n i : nat) (j : Z) (s : list Z) : list Z :=
  match n with
  | O => s
  | S n' =>
      let j := u8 (u8 (j + s !!! i) + key !!! (i mod length key)%nat) in
      Rc4_schedule key n' (S i) j (swap i (Z.to_nat j) s)
  end.

Definition Rc4_new (key : bytes) : Rc4 := mkRc4 (Rc4_schedule key 256 0 0 (map Z.of_nat (seq 0 256))) 0 0.

Fixpoint Rc4_apply (data : bytes) (c : Rc4) : bytes * Rc4 :=
  match data with
  | [] => ([], c)
  | b :: data' =>
      let i := u8 (rc4_i c + 1) in
      let j := u8 (rc4_j c + rc4_s c !!! Z.to_nat i) in
      let s := swap (Z.to_nat i) (Z.to_nat j) (rc4_s c) in
      let k := s !!! Z.to_nat (u8 (s !!! Z.to_nat i + s !!! Z.to_nat j)) in
      let '(rest, c') := Rc4_apply data' (mkRc4 s i j) in
      (Z.lxor b k :: rest, c')
  end.

(** ** Messages *)

Definition av_pair (id : Z) (value : bytes) : bytes := to_le_bytes 2 id ++ to_le_bytes 2 (u16 (len value)) ++ value.

Definition names_block : bytes :=
  av_pair AV_NB_COMPUTER (utf16le "MAG") ++ av_pair AV_NB_DOMAIN (utf16le "EXAMPLE") ++
  av_pair AV_DNS_COMPUTER (utf16le "mag.example.com") ++ av_pair AV_DNS_DOMAIN (utf16le "example.com").

Definition target_info_block (secs : Z) : bytes := names_block ++ av_pair AV_TIMESTAMP (now_filetime secs) ++ av_pair AV_EOL [].

Definition challenge_flags : Z :=
  fold_left Z.lor
    [ NTLMSSP_REQUEST_TARGET; NTLMSSP_NEGOTIATE_SIGN; NTLMSSP_NEGOTIATE_SEAL; NTLMSSP_NEGOTIATE_NTLM;
      NTLMSSP_NEGOTIATE_ALWAYS_SIGN; NTLMSSP_TARGET_TYPE_SERVER; NTLMSSP_NEGOTIATE_EXTENDED_SESSIONSECURITY;
      NTLMSSP_NEGOTIATE_TARGET_INFO; NTLMSSP_NEGOTIATE_VERSION; NTLMSSP_NEGOTIATE_128; NTLMSSP_NEGOTIATE_KEY_EXCH;
      NTLMSSP_NEGOTIATE_56 ] NTLMSSP_NEGOTIATE_UNICODE.

(** The two challenges differ in the target name, the version and the clock. *)
Definition challenge (target_name target_info version : bytes) : bytes :=
  let payload_off := 56 in
  SIGNATURE ++ to_le_bytes 4 2 ++
  to_le_bytes 2 (u16 (len target_name)) ++ to_le_bytes 2 (u16 (len target_name)) ++ to_le_bytes 4 payload_off ++
  to_le_bytes 4 challenge_flags ++ SERVER_CHALLENGE ++ replicate 8 0 ++
  to_le_bytes 2 (u16 (len target_info)) ++ to_le_bytes 2 (u16 (len target_info)) ++
  to_le_bytes 4 (payload_off + len target_name) ++ version ++ target_name ++ target_info.

Definition challenge_message (secs : Z) : bytes := challenge (utf16le "EXAMPLE") (target_info_block secs) [6; 1; 0; 0; 0; 0; 0; 15].
Definition ldap_challenge_message : bytes := challenge [] (names_block ++ av_pair AV_EOL []) [10; 0; 0; 0; 0; 0; 0; 15].

(** [msg.windows(8).position(..)] *)
Fixpoint find_signature (fuel pos : nat) (msg : bytes) : option nat :=
  match fuel with
  | O => None
  | S fuel' =>
      if (length msg <? pos + 8)%nat then None
      else if bool_decide (take 8 (skipn pos msg) = SIGNATURE) then Some pos else find_signature fuel' (S pos) msg
  end.

Definition negotiate_flags (msg : bytes) : option Z :=
  match find_signature (S (length msg)) 0 msg with
  | None => None
  | Some pos =>
      match slice_get msg (pos + 8) (pos + 12) with
      | Some ty => if negb (from_le_bytes ty =? 1) then None else from_le_bytes <$> slice_get msg (pos + 12) (pos + 16)
      | None => None
      end
  end.

(** A field: its length and offset at [pos], and the bytes they name. *)
Definition field (msg : bytes) (pos : nat) : option bytes :=
  match slice_get msg pos (pos + 2), slice_get msg (pos + 4) (pos + 8) with
  | Some l, Some o =>
      let off := Z.to_nat (from_le_bytes o) in slice_get msg off (off + Z.to_nat (from_le_bytes l))
  | _, _ => None
  end.

Definition is_authenticate (msg : bytes) : bool := (64 <=? length msg)%nat && bool_decide (take 8 msg = SIGNATURE).

Definition ntlm_username (authenticate : bytes) : option string :=
  if negb (is_authenticate authenticate) then None else utf16le_to_string <$> field authenticate 36.

(** ** The context *)

Record NtlmContext := mkNtlmContext {
  nt_session_key : bytes;
  session_base_key : bytes;
  client_sign : bytes;
  server_sign : bytes;
  client_rc4 : Rc4;
  server_rc4 : Rc4;
  send_seq : Z;
  recv_seq : Z;
}.

Section ntlm.
Context {UC : UnicodeTables} {NC : NtlmCrypto}.

Definition ntowf_v2 (nt_hash : bytes) (user domain : string) : bytes :=
  hmac_md5 nt_hash (utf16le (to_uppercase user) ++ utf16le domain).

Definition magic (what : string) : bytes := bytes_of_string what ++ [0].

Definition sign_key (session_key : bytes) (server : bool) : bytes :=
  md5_digest (session_key ++ magic (if server then "session key to server-to-client signing key magic constant"
                                    else "session key to client-to-server signing key magic constant")).
Definition seal_key (session_key : bytes) (server : bool) : bytes :=
  md5_digest (session_key ++ magic (if server then "session key to server-to-client sealing key magic constant"
                                    else "session key to client-to-server sealing key magic constant")).

Definition establish_with_challenge (nt_hash authenticate server_challenge : bytes) : option NtlmContext :=
  if negb (is_authenticate authenticate) then None
  else match field authenticate 20, field authenticate 52 with
       | Some nt_response, Some enc_random_key =>
           let domain := utf16le_to_string (unwrap_or [] (field authenticate 28)) in
           let user := utf16le_to_string (unwrap_or [] (field authenticate 36)) in
           let flags := from_le_bytes (take 4 (skipn 60 authenticate)) in
           if (length nt_response <? 16)%nat then None
           else
             let nt_proof := take 16 nt_response in
             let temp := skipn 16 nt_response in
             let ntowf := ntowf_v2 nt_hash user domain in
             if negb (bool_decide (hmac_md5 ntowf (server_challenge ++ temp) = nt_proof)) then None
             else
               let base := hmac_md5 ntowf nt_proof in
               let session_key :=
                 if negb (Z.land flags NTLMSSP_NEGOTIATE_KEY_EXCH =? 0) && (length enc_random_key =? 16)%nat
                 then (Rc4_apply enc_random_key (Rc4_new base)).1 else base in
               Some (mkNtlmContext session_key base (sign_key session_key false) (sign_key session_key true)
                       (Rc4_new (seal_key session_key false)) (Rc4_new (seal_key session_key true)) 0 0)
       | _, _ => None
       end.

Definition establish (nt_hash authenticate : bytes) : option NtlmContext :=
  establish_with_challenge nt_hash authenticate SERVER_CHALLENGE.

Definition make_signature (sign_key : bytes) (c : Rc4) (seq : Z) (message : bytes) : bytes * Rc4 :=
  let checksum := take 8 (hmac_md5 sign_key (to_le_bytes 4 seq ++ message)) in
  let '(enc_checksum, c') := Rc4_apply checksum c in
  (to_le_bytes 4 1 ++ enc_checksum ++ to_le_bytes 4 seq, c').

Definition with_client (c : Rc4) (seq : Z) (x : NtlmContext) : NtlmContext :=
  mkNtlmContext (nt_session_key x) (session_base_key x) (client_sign x) (server_sign x) c (server_rc4 x) (send_seq x) seq.
Definition with_server (c : Rc4) (seq : Z) (x : NtlmContext) : NtlmContext :=
  mkNtlmContext (nt_session_key x) (session_base_key x) (client_sign x) (server_sign x) (client_rc4 x) c seq (recv_seq x).

Definition verify_request (message signature : bytes) (x : NtlmContext) : option Z * NtlmContext :=
  if negb (length signature =? 16)%nat then (None, x)
  else
    let seq := from_le_bytes (take 4 (skipn 12 signature)) in
    let '(expected, c) := make_signature (client_sign x) (client_rc4 x) seq message in
    (if bool_decide (expected = signature) then Some seq else None, with_client c (recv_seq x) x).

Definition sign_response (stub : bytes) (seq : Z) (x : NtlmContext) : bytes * NtlmContext :=
  let '(sig, c) := make_signature (server_sign x) (server_rc4 x) seq stub in (sig, with_server c (send_seq x) x).

Definition seal (message : bytes) (x : NtlmContext) : bytes * NtlmContext :=
  let seq := send_seq x in
  let '(sealed, c) := Rc4_apply message (server_rc4 x) in
  let '(sig, c') := make_signature (server_sign x) c seq message in
  (sig ++ sealed, with_server c' (u32 (seq + 1)) x).

Definition unseal (token : bytes) (x : NtlmContext) : option bytes * NtlmContext :=
  if (length token <? 16)%nat then (None, x)
  else
    let sig := take 16 token in
    let seq := recv_seq x in
    let '(plaintext, c) := Rc4_apply (skipn 16 token) (client_rc4 x) in
    let '(expected, c') := make_signature (client_sign x) c seq plaintext in
    if bool_decide (sig = expected) then (Some plaintext, with_client c' (u32 (seq + 1)) x)
    else (None, with_client c' seq x).
End ntlm.

(** ** The keystream *)

Lemma u8_land z : Z.land z 0xff = u8 z.
Proof. change 0xff with (Z.ones 8). by rewrite Z.land_ones. Qed.

Lemma Rc4_schedule_spec key n : forall i j s, Rc4_schedule key n i j s = rc4_schedule key n i j s.
Proof.
  induction n as [|n IH]; intros i j s; [done|]. cbn [Rc4_schedule rc4_schedule]. rewrite IH, u8_land.
  assert (u8 (u8 (j + s !!! i) + key !!! (i mod length key)%nat) = u8 (j + s !!! i + key !!! (i mod length key)%nat)) as ->; [|done].
  unfold u8. by rewrite Z.add_mod_idemp_l.
Qed.

Lemma Rc4_apply_stream data : forall c, (Rc4_apply data c).1 = rc4_stream data (rc4_i c) (rc4_j c) (rc4_s c).
Proof.
  induction data as [|b data IH]; intros c; [done|]. cbn [Rc4_apply rc4_stream]. rewrite !u8_land. unfold byte_idx. rewrite u8_land.
  set (c' := mkRc4 _ _ _). specialize (IH c'). destruct (Rc4_apply data c') as [rest c'']. simpl in *. by rewrite IH.
Qed.

(** The keystream of a fresh context is the cipher of the replication secrets. *)
Lemma Rc4_apply_rc4 key data : (Rc4_apply data (Rc4_new key)).1 = rc4 key data.
Proof. rewrite Rc4_apply_stream. unfold rc4, Rc4_new. cbn [rc4_s rc4_i rc4_j]. rewrite Rc4_schedule_spec. reflexivity. Qed.

Lemma Rc4_apply_length data c : length (Rc4_apply data c).1 = length data.
Proof. rewrite Rc4_apply_stream. apply rc4_stream_length. Qed.

(** The state after a message does not depend on its bytes. *)
Lemma Rc4_apply_state data : forall data' c, length data = length data' -> (Rc4_apply data c).2 = (Rc4_apply data' c).2.
Proof.
  induction data as [|b data IH]; intros [|b' data'] c; try done. intros [= Hl]. cbn [Rc4_apply].
  set (c' := mkRc4 _ _ _). specialize (IH data' c' Hl).
  destruct (Rc4_apply data c'), (Rc4_apply data' c'). exact IH.
Qed.

(** Two handles in the same state undo each other. *)
Lemma Rc4_apply_involution data c : Rc4_apply (Rc4_apply data c).1 c = (data, (Rc4_apply data c).2).
Proof.
  rewrite (surjective_pairing (Rc4_apply (Rc4_apply data c).1 c)). f_equal.
  - rewrite !Rc4_apply_stream. apply rc4_stream_involution.
  - apply Rc4_apply_state, Rc4_apply_length.
Qed.

(** Applying a handle in pieces is applying it to the whole. *)
Lemma Rc4_apply_app a b c : Rc4_apply (a ++ b) c = ((Rc4_apply a c).1 ++ (Rc4_apply b (Rc4_apply a c).2).1, (Rc4_apply b (Rc4_apply a c).2).2).
Proof.
  revert c. induction a as [|x a IH]; intros c; simpl; [apply surjective_pairing|].
  rewrite IH. destruct (Rc4_apply a _) as [ra ca]. simpl. done.
Qed.

(** ** Conversations *)

Section conversation.
Context {NC : NtlmCrypto}.
Hypothesis digest_size : forall k m, (8 <= length (hmac_md5 k m))%nat.

(** [y] is the peer that reads what [x] sends. *)
Definition mirrors (x y : NtlmContext) : Prop :=
  client_sign y = server_sign x /\ client_rc4 y = server_rc4 x /\ recv_seq y = send_seq x.

Fixpoint seal_all (messages : list bytes) (x : NtlmContext) : list bytes * NtlmContext :=
  match messages with
  | [] => ([], x)
  | m :: ms => let '(t, x1) := seal m x in let '(ts, x2) := seal_all ms x1 in (t :: ts, x2)
  end.
Fixpoint unseal_all (tokens : list bytes) (y : NtlmContext) : list (option bytes) * NtlmContext :=
  match tokens with
  | [] => ([], y)
  | t :: ts => let '(m, y1) := unseal t y in let '(ms, y2) := unseal_all ts y1 in (m :: ms, y2)
  end.

Lemma make_signature_length key c seq m : length (make_signature key c seq m).1 = 16%nat.
Proof.
  unfold make_signature. pose proof (Rc4_apply_length (take 8 (hmac_md5 key (to_le_bytes 4 seq ++ m))) c) as Hl.
  destruct (Rc4_apply _ _) as [e c']. cbn [fst] in *. rewrite length_take in Hl. specialize (digest_size key (to_le_bytes 4 seq ++ m)).
  rewrite !length_app, !to_le_bytes_length. lia.
Qed.

Lemma unseal_seal m x y : mirrors x y ->
  exists y', unseal (seal m x).1 y = (Some m, y') /\ mirrors (seal m x).2 y'.
Proof.
  intros (Hk & Hc & Hs). unfold seal.
  pose proof (Rc4_apply_involution m (server_rc4 x)) as Hinv. destruct (Rc4_apply m (server_rc4 x)) as [sealed c] eqn:E1. simpl in Hinv.
  pose proof (make_signature_length (server_sign x) c (send_seq x) m) as Hl.
  destruct (make_signature (server_sign x) c (send_seq x) m) as [sig c'] eqn:E2. simpl in Hl.
  unfold unseal. cbn [fst]. rewrite length_app, Hl, (proj2 (Nat.ltb_ge _ _)) by lia.
  rewrite take_app_length', drop_app_length' by done. rewrite Hc, Hs, Hk, Hinv, E2, bool_decide_true by done.
  eexists. split; [done|]. by repeat split.
Qed.

Lemma sealed_conversation messages x y : mirrors x y ->
  let '(tokens, x') := seal_all messages x in
  exists y', unseal_all tokens y = (map Some messages, y') /\ mirrors x' y'.
Proof.
  revert x y. induction messages as [|m ms IH]; intros x y Hm; [by exists y|].
  destruct (unseal_seal m x y Hm) as (y1 & H1 & Hm1).
  cbn [seal_all]. destruct (seal m x) as [t x1]. cbn [fst snd] in *.
  specialize (IH x1 y1 Hm1). destruct (seal_all ms x1) as [ts x2]. destruct IH as (y2 & H2 & Hm2).
  exists y2. split; [|done]. cbn [unseal_all]. by rewrite H1, H2.
Qed.
End conversation.

(** ** Witnesses *)

Module ntlm_demo.
(** Digests of sixteen bytes that depend on all of their input. *)
Definition digest (b : bytes) : bytes := map (fun i => u8 (Z.of_nat i + fold_left (fun s x => 3 * s + x) b 7)) (seq 0 16).
#[local] Instance toy_digests : NtlmCrypto := {| hmac_md5 k m := digest (k ++ m); md5_digest := digest |}.

Definition session : bytes := replicate 16 0x5a.
Definition server : NtlmContext :=
  mkNtlmContext session session (sign_key session false) (sign_key session true)
    (Rc4_new (seal_key session false)) (Rc4_new (seal_key session true)) 0 0.
(** The client reads with the keys that the server writes with. *)
Definition client : NtlmContext :=
  mkNtlmContext session session (sign_key session true) (sign_key session false)
    (Rc4_new (seal_key session true)) (Rc4_new (seal_key session false)) 0 0.

Lemma sealed_conversation_witness :
  let '(tokens, x') := seal_all [[1; 2; 3]; []; replicate 20 9] server in
  exists y', unseal_all tokens client = (map Some [[1; 2; 3]; []; replicate 20 9], y') /\ mirrors x' y'.
Proof.
  apply (sealed_conversation (NC := toy_digests)).
  - intros k m. simpl. lia.
  - done.
Defined.
End ntlm_demo.
