(* ===== verification/Gss.v ===== *)
(** * Protected messages over Kerberos

    [crates/magnetite-krb5/src/gss.rs]: the MIC and Wrap tokens of RFC 4121 under an
    AES256 key, in the three forms the server uses: split for RPC, in place with
    associated data for sealed RPC, and contiguous for SASL.

    AES on one block, HMAC-SHA1, and key derivation, checksum and cipher of the crate
    [picky_krb] are a class; the block chaining with ciphertext stealing of the
    in-place form is the code of the file.  The random confounders are arguments.

    [unwrap_wrap_iov] is the round trip of the in-place form with its associated
    data, [unwrap_wrap] that of the split form; [unwrap_ignores_header] shows what
    the latter does not check. *)

From S2P Require Import Prelude Bytes DrsSecret.

Local Open Scope Z_scope.
Local Open Scope outcome_scope.

(** [derive_key], [checksum], [encrypt] and [decrypt] of [picky_krb], with the text of
    their errors; the first argument of [krb_encrypt] is its confounder. *)
Class GssCrypto := {
  derive_key : bytes -> bytes -> string + bytes;
  krb_checksum : bytes -> Z -> bytes -> string + bytes;
  krb_encrypt : bytes -> bytes -> Z -> bytes -> string + bytes;
  krb_decrypt : bytes -> Z -> bytes -> string + bytes;
  aes256_encrypt_block : bytes -> bytes -> bytes;
  aes256_decrypt_block : bytes -> bytes -> bytes;
  hmac_sha1 : bytes -> bytes -> bytes;
}.

Definition CBLOCK : nat := 16.

(** [data.chunks(16)] *)
Fixpoint blocks (fuel : nat) (data : bytes) : list bytes :=
  match fuel, data with
  | S fuel', _ :: _ => take CBLOCK data :: blocks fuel' (skipn CBLOCK data)
  | _, _ => []
  end.
Definition chunks16 (data : bytes) : list bytes := blocks (length data) data.

Definition xor_block (a b : bytes) : bytes := zip_with Z.lxor a b.

(** [swap_last_two]: only called on two blocks or more. *)
Definition swap_last_two (data : bytes) : bytes :=
  let n := length data in
  take (n - 2 * CBLOCK) data ++ skipn (n - CBLOCK) data ++ take CBLOCK (skipn (n - 2 * CBLOCK) data).

Definition usage_const (usage tag : Z) : bytes := to_be_bytes 4 usage ++ [tag].

Section gss.
Context {GC : GssCrypto}.

Definition unwrap_or_default (r : string + bytes) : bytes := match r with inr k => k | inl _ => [] end.

Definition ke (base_key : bytes) (usage : Z) : bytes := unwrap_or_default (derive_key base_key (usage_const usage 0xAA)).
Definition ki (base_key : bytes) (usage : Z) : bytes := unwrap_or_default (derive_key base_key (usage_const usage 0x55)).

(** A short last chunk is indexed past its end. *)
Fixpoint cbc_encrypt_blocks (key prev : bytes) (l : list bytes) : outcome bytes :=
  match l with
  | [] => Ret []
  | chunk :: l' =>
      if (length chunk <? CBLOCK)%nat then Panic
      else
        let c := aes256_encrypt_block key (xor_block chunk prev) in
        let! rest := cbc_encrypt_blocks key c l' in Ret (c ++ rest)
  end.

(** [Aes256::new_from_slice] takes 32 bytes. *)
Definition cbc_encrypt_iv0 (key data : bytes) : outcome bytes :=
  if negb (length key =? 32)%nat then Ret [] else cbc_encrypt_blocks key (replicate CBLOCK 0) (chunks16 data).

(** A short last chunk is taken for zeros. *)
Fixpoint cbc_decrypt_blocks (key prev : bytes) (l : list bytes) : bytes :=
  match l with
  | [] => []
  | chunk :: l' =>
      let ct := if (length chunk =? CBLOCK)%nat then chunk else replicate CBLOCK 0 in
      xor_block (aes256_decrypt_block key ct) prev ++ cbc_decrypt_blocks key ct l'
  end.

Definition cbc_decrypt_iv0 (key data : bytes) : bytes :=
  if negb (length key =? 32)%nat then [] else cbc_decrypt_blocks key (replicate CBLOCK 0) (chunks16 data).

Definition cts_encrypt (key data : bytes) : outcome bytes :=
  let! buf := cbc_encrypt_iv0 key data in
  Ret (if (2 * CBLOCK <=? length buf)%nat then swap_last_two buf else buf).

Definition cts_decrypt (key data : bytes) : bytes :=
  cbc_decrypt_iv0 key (if (2 * CBLOCK <=? length data)%nat then swap_last_two data else data).

Definition hmac_sha1_96 (key data : bytes) : bytes := take 12 (hmac_sha1 key data).

(** ** MIC tokens *)

Definition KG_USAGE_INITIATOR_SIGN : Z := 25.
Definition KG_USAGE_ACCEPTOR_SIGN : Z := 23.
Definition KG_USAGE_ACCEPTOR_SEAL : Z := 22.
Definition KG_USAGE_INITIATOR_SEAL : Z := 24.
Definition MIC_FLAGS_INITIATOR : Z := 0x04.
Definition MIC_FLAGS_ACCEPTOR : Z := 0x05.

Definition mic_header (sequence flags : Z) : bytes := [0x04; 0x04; flags] ++ replicate 5 0xff ++ to_be_bytes 8 sequence.

Definition mic (subkey : bytes) (sequence : Z) (data : bytes) (flags usage : Z) : string + bytes :=
  let header := mic_header sequence flags in
  let pad := ((4 - length data mod 4) mod 4)%nat in
  match krb_checksum subkey usage (data ++ replicate pad (Z.of_nat pad) ++ header) with
  | inl e => inl e
  | inr cksum => inr (header ++ take 12 cksum)
  end.

Definition gss_mic (subkey : bytes) (sequence : Z) (data : bytes) : string + bytes :=
  mic subkey sequence data MIC_FLAGS_INITIATOR KG_USAGE_INITIATOR_SIGN.
Definition gss_mic_acceptor (subkey : bytes) (sequence : Z) (data : bytes) : string + bytes :=
  mic subkey sequence data MIC_FLAGS_ACCEPTOR KG_USAGE_ACCEPTOR_SIGN.

Definition verify_gss_mic (subkey data token : bytes) : option Z :=
  if (length token <? 28)%nat then None
  else
    let seq := from_be_bytes (take 8 (skipn 8 token)) in
    let sent_by_acceptor := negb (Z.land (token !!! 2%nat) 0x01 =? 0) in
    match (if sent_by_acceptor then gss_mic_acceptor subkey seq data else gss_mic subkey seq data) with
    | inl _ => None
    | inr expected => if bool_decide (expected = take 28 token) then Some seq else None
    end.

(** ** Wrap tokens *)

Definition WRAP_HEADER_LEN : nat := 16.
Definition WRAP_RRC : Z := 28.
Definition CFX_FLAG_ACCEPTOR : Z := 0x01.
Definition CFX_FLAG_SEALED : Z := 0x02.
Definition CFX_FLAG_ACCEPTOR_SUBKEY : Z := 0x04.
Definition CFX_CKSUM_LEN : nat := 12.

Definition cfx_header (flags ec rrc sequence : Z) : bytes :=
  [0x05; 0x04; flags; 0xff] ++ to_be_bytes 2 ec ++ to_be_bytes 2 rrc ++ to_be_bytes 8 sequence.
Definition wrap_header := cfx_header.

Definition wrap_flags (usage : Z) : Z :=
  let f := Z.lor CFX_FLAG_SEALED CFX_FLAG_ACCEPTOR_SUBKEY in
  if usage =? KG_USAGE_ACCEPTOR_SEAL then Z.lor f CFX_FLAG_ACCEPTOR else f.

Definition rotate_right (data : bytes) (n : nat) : bytes :=
  match data with
  | [] => []
  | _ => let split := (length data - n mod length data)%nat in skipn split data ++ take split data
  end.
Definition rotate_left (data : bytes) (n : nat) : bytes :=
  match data with
  | [] => []
  | _ => let n := (n mod length data)%nat in skipn n data ++ take n data
  end.

Definition gss_wrap (confounder session_key : bytes) (usage sequence : Z) (data : bytes) : string + bytes * bytes :=
  let pad := ((16 - length data mod 16) mod 16)%nat in
  let ec := Z.of_nat pad in
  let flags := wrap_flags usage in
  let plain := data ++ replicate pad 0xff ++ wrap_header flags ec 0 sequence in
  match krb_encrypt confounder session_key usage plain with
  | inl e => inl ("GSS wrap encrypt failed: " +:+ e)
  | inr cipher_text =>
      let rotate := (Z.to_nat WRAP_RRC + pad)%nat in
      let rotated := rotate_right cipher_text rotate in
      let split := (WRAP_HEADER_LEN + rotate)%nat in
      let fits := (split <=? length rotated)%nat in
      inr (if fits then skipn split rotated else [],
           wrap_header flags ec WRAP_RRC sequence ++ (if fits then take split rotated else []))
  end.

(** [EC] and [RRC] of a token. *)
Definition token_ec (auth : bytes) : nat := Z.to_nat (from_be_bytes (take 2 (skipn 4 auth))).
Definition token_rrc (auth : bytes) : nat := Z.to_nat (from_be_bytes (take 2 (skipn 6 auth))).

Definition gss_unwrap (session_key : bytes) (usage : Z) (sealed auth_data : bytes) : option bytes :=
  if (length auth_data <? WRAP_HEADER_LEN)%nat then None
  else
    let ec := token_ec auth_data in
    let rrc := token_rrc auth_data in
    let cipher_text := rotate_left (skipn WRAP_HEADER_LEN auth_data ++ sealed) (rrc + ec) in
    match krb_decrypt session_key usage cipher_text with
    | inl _ => None
    | inr plain =>
        if (length plain <? ec + WRAP_HEADER_LEN)%nat then None else Some (take (length plain - (ec + WRAP_HEADER_LEN)) plain)
    end.

(** *** In place, with associated data *)

Definition CFX_IOV_RRC : nat := 28.
Definition CFX_IOV_EC : nat := 0.

Definition gss_wrap_iov (confounder session_key : bytes) (usage sequence : Z) (pre_aad post_aad data : bytes) :
    outcome (string + bytes * bytes) :=
  let ec := CFX_IOV_EC in
  let rrc := CFX_IOV_RRC in
  let flags := wrap_flags usage in
  let header := wrap_header flags (Z.of_nat ec) 0 sequence in
  let plain := data ++ replicate ec 0xff ++ header in
  let k_e := ke session_key usage in
  let k_i := ki session_key usage in
  if bool_decide (k_e = []) || bool_decide (k_i = []) then Ret (inl "GSS wrap: invalid AES256 key")
  else
    let! c := cts_encrypt k_e (confounder ++ plain) in
    let mac_input := confounder ++ pre_aad ++ data ++ post_aad ++ replicate ec 0xff ++ header in
    let e := c ++ hmac_sha1_96 k_i mac_input in
    let rotate := (rrc + ec)%nat in
    let rotated := rotate_right e rotate in
    let split := (WRAP_HEADER_LEN + rotate)%nat in
    let fits := (split <=? length rotated)%nat in
    Ret (inr (if fits then skipn split rotated else [],
              wrap_header flags (Z.of_nat ec) (Z.of_nat rrc) sequence ++ (if fits then take split rotated else []))).

Definition gss_unwrap_iov (session_key : bytes) (usage : Z) (pre_aad post_aad body auth : bytes) : option bytes :=
  if (length auth <? WRAP_HEADER_LEN)%nat then None
  else
    let ec := token_ec auth in
    let rrc := token_rrc auth in
    let rotated := skipn WRAP_HEADER_LEN auth ++ body in
    if (length rotated <? WRAP_HEADER_LEN + 12)%nat then None
    else
      let e := rotate_left rotated (rrc + ec) in
      let k_e := ke session_key usage in
      let k_i := ki session_key usage in
      if bool_decide (k_e = []) || bool_decide (k_i = []) then None
      else
        let c1 := take (length e - 12) e in
        let tag := skipn (length e - 12) e in
        let plain_full := cts_decrypt k_e c1 in
        let confounder := take WRAP_HEADER_LEN plain_full in
        let plain := skipn WRAP_HEADER_LEN plain_full in
        if (length plain <? ec + WRAP_HEADER_LEN)%nat then None
        else
          let data_len := (length plain - (ec + WRAP_HEADER_LEN))%nat in
          let data := take data_len plain in
          let filler_hdr := skipn data_len plain in
          if bool_decide (hmac_sha1_96 k_i (confounder ++ pre_aad ++ data ++ post_aad ++ filler_hdr) = tag)
          then Some data else None.

(** *** Contiguous *)

Definition gss_seal_token (confounder subkey : bytes) (usage sequence : Z) (data : bytes) : string + bytes :=
  match gss_wrap confounder subkey usage sequence data with
  | inl e => inl e
  | inr (sealed, auth) => inr (auth ++ sealed)
  end.

Definition gss_unseal_token (subkey : bytes) (usage : Z) (token : bytes) : option (Z * bytes) :=
  if (length token <? WRAP_HEADER_LEN)%nat then None
  else
    let seq := from_be_bytes (take 8 (skipn 8 token)) in
    match gss_unwrap subkey usage (skipn WRAP_HEADER_LEN token) (take WRAP_HEADER_LEN token) with
    | Some plain => Some (seq, plain)
    | None => None
    end.

Definition gss_wrap_integrity (subkey : bytes) (usage sequence : Z) (data : bytes) : string + bytes :=
  let flags := Z.lor CFX_FLAG_ACCEPTOR CFX_FLAG_ACCEPTOR_SUBKEY in
  match krb_checksum subkey usage (data ++ cfx_header flags 0 0 sequence) with
  | inl e => inl e
  | inr cksum => inr (cfx_header flags (Z.of_nat CFX_CKSUM_LEN) 0 sequence ++ data ++ take CFX_CKSUM_LEN cksum)
  end.

Definition gss_unwrap_integrity (subkey : bytes) (usage : Z) (token : bytes) : option (Z * bytes) :=
  if (length token <? WRAP_HEADER_LEN + CFX_CKSUM_LEN)%nat then None
  else if negb (Z.land (token !!! 2%nat) CFX_FLAG_SEALED =? 0) then None
  else
    let rrc := token_rrc token in
    let seq := from_be_bytes (take 8 (skipn 8 token)) in
    let body := rotate_left (skipn WRAP_HEADER_LEN token) rrc in
    let split := (length body - CFX_CKSUM_LEN)%nat in
    let data := take split body in
    match gss_wrap_integrity subkey usage seq data with
    | inl _ => None
    | inr expected => if bool_decide (skipn (WRAP_HEADER_LEN + split) expected = skipn split body) then Some (seq, data) else None
    end.
End gss.

(** ** Rotations *)

Lemma rotate_right_length l n : length (rotate_right l n) = length l.
Proof.
  unfold rotate_right. destruct l as [|x l]; [done|]. rewrite length_app, length_take, length_drop. lia.
Qed.

Lemma rotate_left_length l n : length (rotate_left l n) = length l.
Proof.
  unfold rotate_left. destruct l as [|x l]; [done|]. rewrite length_app, length_take, length_drop. lia.
Qed.

Lemma rotate_left_right l n : rotate_left (rotate_right l n) n = l.
Proof.
  destruct (decide (l = [])) as [->|Hl]; [done|].
  assert (0 < length l)%nat as Hp by (destruct l; [done|simpl; lia]). pose proof (Nat.mod_upper_bound n (length l) ltac:(lia)) as Hb.
  pose proof (rotate_right_length l n) as Hr.
  assert (rotate_right l n = skipn (length l - n mod length l) l ++ take (length l - n mod length l) l) as E by by destruct l.
  unfold rotate_left. destruct (rotate_right l n) as [|y r] eqn:Er; [simpl in Hr; lia|]. rewrite Hr, E.
  assert (length (skipn (length l - n mod length l) l) = n mod length l)%nat as Hs by (rewrite length_drop; lia).
  rewrite drop_app_length', take_app_length' by done. apply take_drop.
Qed.

(** What the token and the body carry is the rotated ciphertext. *)
Lemma split_rotated (fits : bool) split (r : bytes) : (split <=? length r)%nat = fits -> fits = true ->
  (if fits then take split r else []) ++ (if fits then skipn split r else []) = r.
Proof. intros _ ->. apply take_drop. Qed.

(** ** Headers *)

Lemma cfx_header_length f ec rrc s : length (cfx_header f ec rrc s) = 16%nat.
Proof. unfold cfx_header. rewrite !length_app, !to_be_bytes_length. done. Qed.

Lemma header_ec f ec rrc s rest : 0 <= ec < 65536 -> token_ec (cfx_header f ec rrc s ++ rest) = Z.to_nat ec.
Proof.
  intros H. unfold token_ec, cfx_header. f_equal. rewrite <- !app_assoc.
  rewrite (drop_app_length' [5; 4; f; 255]) by done. rewrite take_app_length' by (by rewrite to_be_bytes_length). by apply from_to_be_bytes.
Qed.

Lemma header_rrc f ec rrc s rest : 0 <= rrc < 65536 -> token_rrc (cfx_header f ec rrc s ++ rest) = Z.to_nat rrc.
Proof.
  intros H. unfold token_rrc, cfx_header. f_equal. rewrite <- !app_assoc.
  change (([5; 4; f; 255] ++ to_be_bytes 2 ec ++ to_be_bytes 2 rrc ++ to_be_bytes 8 s ++ rest))
    with (([5; 4; f; 255] ++ to_be_bytes 2 ec) ++ to_be_bytes 2 rrc ++ to_be_bytes 8 s ++ rest).
  rewrite drop_app_length' by (by rewrite length_app, to_be_bytes_length).
  rewrite take_app_length' by (by rewrite to_be_bytes_length). by apply from_to_be_bytes.
Qed.

Lemma header_seq f ec rrc s rest : 0 <= s < 2 ^ 64 -> from_be_bytes (take 8 (skipn 8 (cfx_header f ec rrc s ++ rest))) = s.
Proof.
  intros H. unfold cfx_header. rewrite <- !app_assoc.
  replace ([5; 4; f; 255] ++ to_be_bytes 2 ec ++ to_be_bytes 2 rrc ++ to_be_bytes 8 s ++ rest)
    with (([5; 4; f; 255] ++ to_be_bytes 2 ec ++ to_be_bytes 2 rrc) ++ to_be_bytes 8 s ++ rest) by (by rewrite <- !app_assoc).
  rewrite drop_app_length' by (by rewrite !length_app, !to_be_bytes_length).
  rewrite take_app_length' by (by rewrite to_be_bytes_length). by apply from_to_be_bytes.
Qed.

Lemma header_tail f ec rrc s rest : skipn WRAP_HEADER_LEN (cfx_header f ec rrc s ++ rest) = rest.
Proof. apply drop_app_length'. by rewrite cfx_header_length. Qed.

(** ** The cipher of the in-place form *)

(** What the crates document of their functions. *)
Class GssCryptoLaws `(GssCrypto) : Prop := {
  aes256_inverse : forall k b, length k = 32%nat -> length b = 16%nat -> bytes_ok b ->
    aes256_decrypt_block k (aes256_encrypt_block k b) = b;
  aes256_block : forall k b, length k = 32%nat -> length b = 16%nat -> bytes_ok b ->
    length (aes256_encrypt_block k b) = 16%nat /\ bytes_ok (aes256_encrypt_block k b);
  derive_key_length : forall b c k, derive_key b c = inr k -> length k = 32%nat;
  hmac_sha1_length : forall k m, length (hmac_sha1 k m) = 20%nat;
  krb_inverse : forall r k u p c, krb_encrypt r k u p = inr c -> krb_decrypt k u c = inr p;
  krb_size : forall r k u p c, krb_encrypt r k u p = inr c -> length c = (length p + 28)%nat;
  krb_checksum_size : forall k u m c, krb_checksum k u m = inr c -> length c = 12%nat;
}.

Lemma inr_eq {A B} (x y : B) : @inr A B x = inr y -> x = y.
Proof. by intros [= ->]. Qed.

Definition is_block (b : bytes) : Prop := length b = 16%nat /\ bytes_ok b.

Lemma chunks16_concat l : Forall (fun b => length b = 16%nat) l -> chunks16 (concat l) = l.
Proof.
  intros Hl. unfold chunks16. generalize (Nat.le_refl (length (concat l))). generalize (length (concat l)) at 2 3 as fuel.
  induction Hl as [|b l Hb Hl IH]; intros fuel Hf; [by destruct fuel|]. cbn [concat] in *. rewrite length_app in Hf.
  destruct fuel as [|fuel]; [lia|]. destruct b as [|x b]; [done|]. cbn [blocks app].
  change (x :: b ++ concat l) with ((x :: b) ++ concat l). rewrite take_app_length', drop_app_length' by done.
  f_equal. apply IH. simpl in *. lia.
Qed.

Lemma aligned_chunks data : (length data mod 16 = 0)%nat -> bytes_ok data ->
  exists l, data = concat l /\ Forall is_block l /\ (length data = 16 * length l)%nat.
Proof.
  intros Hm. apply Nat.Div0.mod_divides in Hm as [n Hn]. revert data Hn. induction n as [|n IH]; intros data Hn Hok.
  - exists []. destruct data; [done|simpl in Hn; lia].
  - destruct (IH (skipn 16 data)) as (l & El & Hl & Hlen); [rewrite length_drop; lia|by apply Forall_drop|].
    exists (take 16 data :: l). rewrite length_drop in Hlen. cbn [concat length]. rewrite <- El, take_drop. split_and!; [done| |lia].
    constructor; [|done]. split; [rewrite length_take; lia|by apply Forall_take].
Qed.

Lemma xor_block_spec a b : is_block a -> is_block b -> is_block (xor_block a b) /\ xor_block (xor_block a b) b = a.
Proof.
  unfold is_block, xor_block. intros [Ha Oa] [Hb Ob]. assert (length a = length b) as Hab by lia. rewrite length_zip_with.
  split; [split; [lia|]|].
  - clear Ha Hb. revert b Hab Ob. induction Oa as [|x a Hx Oa IH]; intros [|y b] Hab Ob; try done. simpl.
    apply Forall_cons in Ob as [Hy Ob]. constructor; [|by apply IH; [injection Hab|]]. apply (lxor_bound x y 8); [lia|apply Hx|apply Hy].
  - clear Ha Hb Oa Ob. revert b Hab. induction a as [|x a IH]; intros [|y b] Hab; try done. simpl.
    rewrite IH by (by injection Hab). by rewrite Z.lxor_assoc, Z.lxor_nilpotent, Z.lxor_0_r.
Qed.

Lemma swap_app (a b c : bytes) : length b = 16%nat -> length c = 16%nat -> swap_last_two (a ++ b ++ c) = a ++ c ++ b.
Proof.
  intros Hb Hc. unfold swap_last_two, CBLOCK. rewrite !length_app.
  replace (length a + (length b + length c) - 2 * 16)%nat with (length a) by lia.
  replace (length a + (length b + length c) - 16)%nat with (length (a ++ b)) by (rewrite length_app; lia).
  rewrite take_app_length, (drop_app_length a), (take_app_length' b) by done. by rewrite (app_assoc a b c), drop_app_length.
Qed.

Section laws.
Context `{GL : GssCryptoLaws}.

(** Chaining, decrypted from the blocks it produced. *)
Lemma cbc_round_trip key : length key = 32%nat -> forall l prev, Forall is_block l -> is_block prev ->
  exists cs, cbc_encrypt_blocks key prev l = Ret (concat cs) /\ Forall (fun b => length b = 16%nat) cs /\
    length cs = length l /\ cbc_decrypt_blocks key prev cs = concat l.
Proof.
  intros Hk l. induction l as [|b l IH]; intros prev Hl Hp; [by exists []|]. apply Forall_cons in Hl as [Hb Hl].
  destruct (xor_block_spec b prev Hb Hp) as [[Hx Ox] Hxx]. set (c := aes256_encrypt_block key (xor_block b prev)).
  destruct (aes256_block key _ Hk Hx Ox) as [Hc Oc]. fold c in Hc, Oc. destruct (IH c Hl (conj Hc Oc)) as (cs & E & Hcs & Hlen & D).
  exists (c :: cs). cbn [cbc_encrypt_blocks cbc_decrypt_blocks concat length].
  destruct Hb as [Hb Ob]. rewrite Hb. cbn [Nat.ltb Nat.leb CBLOCK]. fold c. rewrite E. cbn [obind].
  split_and!; [done|by constructor|lia|]. rewrite Hc. cbn [Nat.eqb CBLOCK]. rewrite D. f_equal.
  unfold c. rewrite aes256_inverse by done. done.
Qed.

Lemma cts_round_trip key data : length key = 32%nat -> bytes_ok data -> (length data mod 16 = 0)%nat -> (32 <= length data)%nat ->
  exists c, cts_encrypt key data = Ret c /\ length c = length data /\ cts_decrypt key c = data.
Proof.
  intros Hk Hok Hm Hlen. destruct (aligned_chunks data Hm Hok) as (l & -> & Hl & Hll).
  assert (is_block (replicate CBLOCK 0)) as Hz by (split; [done|apply Forall_replicate; unfold is_u8; lia]).
  destruct (cbc_round_trip key Hk l _ Hl Hz) as (cs & E & Hcs & Hcl & D).
  assert (length (concat cs) = length (concat l)) as Hcc.
  { rewrite Hll, <- Hcl. clear -Hcs. induction Hcs as [|b cs Hb Hcs IH]; [done|]. cbn [concat length]. rewrite length_app. lia. }
  assert (Forall (fun b => length b = 16%nat) l) as Hl' by (eapply Forall_impl; [exact Hl|by intros ? []]).
  unfold cts_encrypt, cts_decrypt, cbc_encrypt_iv0, cbc_decrypt_iv0. rewrite Hk. cbn [Nat.eqb negb].
  rewrite chunks16_concat, E by done. cbn [obind]. rewrite (proj2 (Nat.leb_le _ _)) by (unfold CBLOCK; lia).
  assert (exists a b c, concat cs = a ++ b ++ c /\ length b = 16%nat /\ length c = 16%nat) as (a & b & c & Eab & Hb & Hc).
  { exists (take (length (concat cs) - 32) (concat cs)), (take 16 (skipn (length (concat cs) - 32) (concat cs))),
      (skipn 16 (skipn (length (concat cs) - 32) (concat cs))). rewrite !take_drop. split; [done|].
    rewrite length_take, !length_drop. lia. }
  rewrite Eab, swap_app by done. eexists. split; [done|]. split.
  - rewrite <- Hcc, Eab, !length_app. lia.
  - rewrite (proj2 (Nat.leb_le _ _)) by (rewrite !length_app; unfold CBLOCK; lia). rewrite swap_app by done.
    rewrite <- Eab, chunks16_concat by done. done.
Qed.
End laws.

(** ** Round trips *)

Section round_trips.
Context `{GL : GssCryptoLaws}.

Lemma wrap_flags_u8 usage : is_u8 (wrap_flags usage).
Proof. unfold wrap_flags. destruct (usage =? KG_USAGE_ACCEPTOR_SEAL); vm_compute; split; congruence. Qed.

(** C38: The in-place form: the stub keeps its length, the token is the sixty bytes that
    the server announces, and the peer with the same associated data recovers it. *)
Theorem unwrap_wrap_iov confounder key usage seq pre post data k_e k_i :
  derive_key key (usage_const usage 0xAA) = inr k_e -> derive_key key (usage_const usage 0x55) = inr k_i ->
  is_block confounder -> bytes_ok data -> (length data mod 16 = 0)%nat ->
  exists body auth, gss_wrap_iov confounder key usage seq pre post data = Ret (inr (body, auth)) /\
    length body = length data /\ length auth = 60%nat /\ gss_unwrap_iov key usage pre post body auth = Some data.
Proof.
  intros He Hi [Hc Oc] Od Hm. pose proof (wrap_flags_u8 usage) as Hf. unfold gss_wrap_iov, gss_unwrap_iov, ke, ki. rewrite He, Hi. cbn [unwrap_or_default].
  pose proof (derive_key_length _ _ _ He) as Hle. pose proof (derive_key_length _ _ _ Hi) as Hli.
  rewrite (bool_decide_false (k_e = [])), (bool_decide_false (k_i = [])) by (by intros ->). cbn [orb].
  unfold CFX_IOV_EC, CFX_IOV_RRC. change (28 + 0)%nat with 28%nat. change (replicate 0 255) with (@nil Z).
  rewrite !app_nil_l. set (h := wrap_header (wrap_flags usage) (Z.of_nat 0) 0 seq).
  assert (length h = 16%nat) as Hh by apply cfx_header_length.
  assert (bytes_ok h) as Oh.
  { unfold h, wrap_header, cfx_header. apply Forall_app_2; [repeat constructor; unfold is_u8 in *; lia|].
    apply Forall_app_2; [apply to_be_bytes_ok|]. apply Forall_app_2; apply to_be_bytes_ok. }
  destruct (cts_round_trip k_e (confounder ++ data ++ h)) as (c & Ec & Hlc & Dc); [done| | | |].
  { apply Forall_app_2; [done|]. by apply Forall_app_2. }
  { rewrite !length_app, Hc, Hh. rewrite Nat.add_mod, (Nat.add_mod (length data) 16), Hm by lia. done. }
  { rewrite !length_app. lia. }
  rewrite Ec. cbn [obind]. rewrite !length_app, Hc, Hh in Hlc.
  set (tag := hmac_sha1_96 k_i (confounder ++ pre ++ data ++ post ++ h)).
  assert (length tag = 12%nat) as Ht by (unfold tag, hmac_sha1_96; by rewrite length_take, hmac_sha1_length).
  assert (length (rotate_right (c ++ tag) 28) = (length data + 44)%nat) as Hr by (rewrite rotate_right_length, length_app; lia).
  eexists _, _. split; [done|]. rewrite (proj2 (Nat.leb_le _ _)) by (unfold WRAP_HEADER_LEN; lia).
  split; [rewrite length_drop; unfold WRAP_HEADER_LEN; lia|].
  assert (length (wrap_header (wrap_flags usage) (Z.of_nat 0) (Z.of_nat 28) seq) = 16%nat) as Hw by apply cfx_header_length.
  split; [rewrite length_app, length_take, Hw; unfold WRAP_HEADER_LEN; lia|].
  rewrite length_app, Hw, (proj2 (Nat.ltb_ge _ _)) by (unfold WRAP_HEADER_LEN; lia).
  unfold wrap_header. rewrite header_ec, header_rrc, header_tail, take_drop by lia. rewrite Hr.
  rewrite (proj2 (Nat.ltb_ge _ _)) by (unfold WRAP_HEADER_LEN; lia).
  change (Z.to_nat (Z.of_nat 28) + Z.to_nat (Z.of_nat 0))%nat with 28%nat. rewrite rotate_left_right.
  assert (length (c ++ tag) - 12 = length c)%nat as Hn by (rewrite length_app; lia). rewrite Hn, take_app_length, drop_app_length, Dc.
  rewrite (take_app_length' confounder), (drop_app_length' confounder) by done.
  change (Z.to_nat (Z.of_nat 0) + WRAP_HEADER_LEN)%nat with 16%nat. rewrite length_app, Hh, (proj2 (Nat.ltb_ge _ _)) by lia.
  replace (length data + 16 - 16)%nat with (length data) by lia. rewrite take_app_length, drop_app_length. fold tag. by rewrite bool_decide_true.
Qed.
End round_trips.

Section tokens.
Context `{GL : GssCryptoLaws}.

(** The padding of the split form. *)
Definition wrap_pad (data : bytes) : nat := ((16 - length data mod 16) mod 16)%nat.

Lemma inr_pair_inj (a b c d : bytes) : @inr string (bytes * bytes) (a, b) = inr (c, d) -> a = c /\ b = d.
Proof. by intros [= -> ->]. Qed.

(** A token is its header and the front of the rotated ciphertext. *)
Lemma gss_wrap_inv confounder key usage seq data sealed auth : gss_wrap confounder key usage seq data = inr (sealed, auth) ->
  let pad := wrap_pad data in
  exists c, krb_encrypt confounder key usage (data ++ replicate pad 0xff ++ cfx_header (wrap_flags usage) (Z.of_nat pad) 0 seq) = inr c /\
    length c = (length data + pad + 44)%nat /\
    sealed = skipn (44 + pad) (rotate_right c (28 + pad)) /\
    auth = cfx_header (wrap_flags usage) (Z.of_nat pad) WRAP_RRC seq ++ take (44 + pad) (rotate_right c (28 + pad)).
Proof.
  unfold gss_wrap. fold (wrap_pad data). intros E. cbv zeta. set (pad := wrap_pad data) in *. destruct (krb_encrypt _ _ _ _) as [e|c] eqn:Ek; [done|]. exists c.
  pose proof (krb_size _ _ _ _ _ Ek) as Hc. unfold wrap_header in *. rewrite !length_app, length_replicate, cfx_header_length in Hc.
  apply inr_pair_inj in E. rewrite (proj2 (Nat.leb_le _ _)) in E by (rewrite rotate_right_length; unfold WRAP_HEADER_LEN, WRAP_RRC; lia).
  destruct E as [<- <-]. split_and!; [done|lia|done|done].
Qed.

(** The tail of a token, under any header that asks for the same rotation, decrypts to
    the padded data, cut where that header says. *)
Lemma unwrap_any_header confounder key usage seq data sealed auth f ec rrc s :
  gss_wrap confounder key usage seq data = inr (sealed, auth) ->
  0 <= ec < 65536 -> 0 <= rrc < 65536 -> ec + rrc = WRAP_RRC + Z.of_nat (wrap_pad data) -> ec <= len data + Z.of_nat (wrap_pad data) ->
  gss_unwrap key usage sealed (cfx_header f ec rrc s ++ skipn WRAP_HEADER_LEN auth) =
    Some (take (length data + wrap_pad data - Z.to_nat ec) (data ++ replicate (wrap_pad data) 0xff)).
Proof.
  intros E Hec Hrrc Hsum Hle. destruct (gss_wrap_inv _ _ _ _ _ _ _ E) as (c & Ek & Hc & -> & ->). clear E. set (pad := wrap_pad data) in *.
  unfold gss_unwrap. rewrite length_app, cfx_header_length, (proj2 (Nat.ltb_ge _ _)) by (unfold WRAP_HEADER_LEN; lia).
  rewrite header_ec, header_rrc, !header_tail, take_drop by done.
  replace (Z.to_nat rrc + Z.to_nat ec)%nat with (28 + pad)%nat by (unfold WRAP_RRC in *; lia). rewrite rotate_left_right.
  rewrite (krb_inverse _ _ _ _ _ Ek). rewrite !length_app, length_replicate, cfx_header_length. unfold len, WRAP_HEADER_LEN in *.
  rewrite (proj2 (Nat.ltb_ge _ _)) by lia. f_equal. rewrite app_assoc.
  replace (length data + (pad + 16) - (Z.to_nat ec + 16))%nat with (length data + pad - Z.to_nat ec)%nat by lia.
  apply take_app_le. rewrite length_app, length_replicate. lia.
Qed.

Lemma unwrap_wrap confounder key usage seq data sealed auth :
  gss_wrap confounder key usage seq data = inr (sealed, auth) -> gss_unwrap key usage sealed auth = Some data.
Proof.
  intros E. pose proof (Nat.mod_upper_bound (16 - length data mod 16) 16 ltac:(lia)) as Hp. fold (wrap_pad data) in Hp.
  assert (auth = cfx_header (wrap_flags usage) (Z.of_nat (wrap_pad data)) WRAP_RRC seq ++ skipn WRAP_HEADER_LEN auth) as Ha.
  { destruct (gss_wrap_inv _ _ _ _ _ _ _ E) as (c & _ & _ & _ & ->). by rewrite header_tail. }
  rewrite Ha. rewrite (unwrap_any_header _ _ _ _ _ _ _ _ _ _ _ E); unfold WRAP_RRC, len; [|lia..].
  f_equal. apply take_app_length'. lia.
Qed.

(** C39: The split form recovers what was wrapped, and does not check its header: with
    [EC] raised and [RRC] lowered by the same amount, and any flags and sequence number,
    the token is still accepted and the message loses its last bytes. *)
Theorem unwrap_ignores_header confounder key usage seq data sealed auth k f s :
  gss_wrap confounder key usage seq data = inr (sealed, auth) -> (k <= 28)%nat -> (k <= length data)%nat ->
  gss_unwrap key usage sealed auth = Some data /\
  gss_unwrap key usage sealed
    (cfx_header f (Z.of_nat (wrap_pad data + k)) (WRAP_RRC - Z.of_nat k) s ++ skipn WRAP_HEADER_LEN auth)
  = Some (take (length data - k) data).
Proof.
  intros E Hk Hl. split; [by eapply unwrap_wrap|].
  pose proof (Nat.mod_upper_bound (16 - length data mod 16) 16 ltac:(lia)) as Hp. fold (wrap_pad data) in Hp.
  rewrite (unwrap_any_header _ _ _ _ _ _ _ _ _ _ _ E); unfold WRAP_RRC, len; [|lia..].
  f_equal. rewrite Nat2Z.id. replace (length data + wrap_pad data - (wrap_pad data + k))%nat with (length data - k)%nat by lia.
  apply take_app_le. lia.
Qed.

(** The contiguous form carries its sequence number. *)
Lemma unseal_seal_token confounder key usage seq data token : 0 <= seq < 2 ^ 64 ->
  gss_seal_token confounder key usage seq data = inr token -> gss_unseal_token key usage token = Some (seq, data).
Proof.
  intros Hs. unfold gss_seal_token, gss_unseal_token. destruct (gss_wrap _ _ _ _ _) as [e|[sealed auth]] eqn:E; [done|]. intros [= <-].
  pose proof (unwrap_wrap _ _ _ _ _ _ _ E) as Hu.
  assert (exists r, auth = cfx_header (wrap_flags usage) (Z.of_nat (wrap_pad data)) WRAP_RRC seq ++ r) as [r ->].
  { destruct (gss_wrap_inv _ _ _ _ _ _ _ E) as (c & _ & _ & _ & ->). by eexists. }
  pose proof (cfx_header_length (wrap_flags usage) (Z.of_nat (wrap_pad data)) WRAP_RRC seq) as Hh.
  unfold gss_unwrap in Hu |- *. rewrite !length_app, Hh in *. rewrite <- !app_assoc, header_tail, header_seq by done.
  rewrite take_app_length' by done. rewrite !(proj2 (Nat.ltb_ge _ _)) in * by (unfold WRAP_HEADER_LEN; lia).
  rewrite header_tail in Hu. pose proof (Nat.mod_upper_bound (16 - length data mod 16) 16 ltac:(lia)) as Hp. fold (wrap_pad data) in Hp.
  rewrite header_ec, header_rrc in Hu by (unfold WRAP_RRC; lia).
  set (h := cfx_header _ _ _ _) in *. replace (skipn WRAP_HEADER_LEN h) with (@nil Z) by (symmetry; apply drop_ge; unfold WRAP_HEADER_LEN; lia).
  rewrite <- (app_nil_r h). unfold h. rewrite header_ec, header_rrc by (unfold WRAP_RRC; lia). rewrite app_nil_l. by rewrite Hu.
Qed.

(** Tokens without encryption. *)
Lemma mic_verifies key seq data token (acceptor : bool) : 0 <= seq < 2 ^ 64 ->
  (if acceptor then gss_mic_acceptor key seq data else gss_mic key seq data) = inr token -> verify_gss_mic key data token = Some seq.
Proof.
  intros Hs E. assert (exists fl c, fl = (if acceptor then MIC_FLAGS_ACCEPTOR else MIC_FLAGS_INITIATOR) /\ token = mic_header seq fl ++ c /\ length c = 12%nat) as (fl & c & Hfl & -> & Hc).
  { unfold gss_mic_acceptor, gss_mic, mic in E. destruct acceptor; destruct (krb_checksum _ _ _) as [e|c] eqn:Ec; try done; injection E as <-;
      pose proof (krb_checksum_size _ _ _ _ Ec); eexists _, _; rewrite length_take; (split_and!; [done..|lia]). }
  assert (length (mic_header seq fl) = 16%nat) as Hh by (unfold mic_header; by rewrite !length_app, to_be_bytes_length).
  unfold verify_gss_mic. rewrite length_app, Hh, (proj2 (Nat.ltb_ge _ _)) by lia.
  assert (take 8 (skipn 8 (mic_header seq fl ++ c)) = to_be_bytes 8 seq) as ->.
  { unfold mic_header. rewrite app_assoc, <- app_assoc, drop_app_length' by done. apply take_app_length'. by rewrite to_be_bytes_length. }
  rewrite from_to_be_bytes by done. change ((mic_header seq fl ++ c) !!! 2%nat) with fl.
  rewrite (take_ge (_ ++ c)) by (rewrite length_app; lia).
  destruct acceptor; subst fl; cbn [MIC_FLAGS_ACCEPTOR MIC_FLAGS_INITIATOR]; [change (negb _) with true|change (negb _) with false];
    cbn iota; rewrite E; by rewrite bool_decide_true.
Qed.
End tokens.

(** ** Witnesses *)

Module gss_demo.
#[local] Instance toy_gss : GssCrypto := {|
  derive_key b c := inr (take 32 (b ++ c ++ replicate 32 0));
  krb_checksum _ _ m := inr (take 12 (m ++ replicate 12 0));
  krb_encrypt r _ _ p := inr (p ++ take 28 (r ++ replicate 28 0));
  krb_decrypt _ _ c := inr (take (length c - 28) c);
  aes256_encrypt_block _ b := rev b;
  aes256_decrypt_block _ b := rev b;
  hmac_sha1 k m := take 20 (rev (k ++ m) ++ replicate 20 0);
|}.

#[local] Instance toy_gss_laws : GssCryptoLaws toy_gss.
Proof.
  split; cbn [derive_key krb_checksum krb_encrypt krb_decrypt aes256_encrypt_block aes256_decrypt_block hmac_sha1 toy_gss].
  - intros. apply rev_involutive.
  - intros k b _ Hl Hb. rewrite length_rev. split; [done|]. unfold bytes_ok in *. apply Forall_rev, Hb.
  - intros b c k H%inr_eq; subst k. rewrite length_take, !length_app, length_replicate. lia.
  - intros k m. rewrite length_take, length_app, length_replicate. lia.
  - intros r k u p c H%inr_eq; subst c. f_equal. rewrite take_app_length'; [done|]. rewrite length_app, length_take, length_app, length_replicate. lia.
  - intros r k u p c H%inr_eq; subst c. rewrite length_app, length_take, length_app, length_replicate. lia.
  - intros k u m c H%inr_eq; subst c. rewrite length_take, length_app, length_replicate. lia.
Qed.

Definition key : bytes := replicate 32 7.
Definition confounder : bytes := replicate 16 3.
Definition subkey (n : Z) : bytes := match derive_key key (usage_const 24 n) with inr k => k | inl _ => [] end.

Lemma unwrap_wrap_iov_witness :
  exists body auth, gss_wrap_iov confounder key 24 5 [1; 2] [3] (replicate 32 4) = Ret (inr (body, auth)) /\
    length body = 32%nat /\ length auth = 60%nat /\ gss_unwrap_iov key 24 [1; 2] [3] body auth = Some (replicate 32 4).
Proof.
  apply (unwrap_wrap_iov confounder key 24 5 [1; 2] [3] (replicate 32 4) (subkey 0xAA) (subkey 0x55)); try reflexivity.
  - split; [reflexivity|]. repeat constructor; vm_compute; congruence.
  - repeat constructor; vm_compute; congruence.
Defined.

Definition wrapped : bytes * bytes :=
  match gss_wrap confounder key 24 5 [10; 20; 30; 40] with inr r => r | inl _ => ([], []) end.

(** Another header cuts the last two bytes off. *)
Lemma unwrap_ignores_header_witness :
  gss_unwrap key 24 wrapped.1 wrapped.2 = Some [10; 20; 30; 40] /\
  gss_unwrap key 24 wrapped.1 (cfx_header 0 (Z.of_nat (wrap_pad [10; 20; 30; 40] + 2)) (WRAP_RRC - 2) 99 ++ skipn WRAP_HEADER_LEN wrapped.2)
  = Some [10; 20].
Proof.
  apply (unwrap_ignores_header confounder key 24 5 [10; 20; 30; 40] wrapped.1 wrapped.2 2 0 99); [|lia|simpl; lia].
  vm_compute. reflexivity.
Defined.
End gss_demo.
