(* ===== verification/Spnego.v ===== *)
(** * SPNEGO tokens

    [crates/magnetite-krb5/src/spnego.rs]: the DER framing of Kerberos messages in
    the authentication tokens of RPC and LDAP.  The tokens are built element by
    element and read back by scanning for markers.

    [extract_wrapped_ap_req] shows that the scan finds the message in each of the
    three framings the clients build. *)

From S2P Require Import Prelude Bytes.

Local Open Scope Z_scope.

Definition KRB5_OID_DER : bytes := [0x06; 0x09; 0x2a; 0x86; 0x48; 0x86; 0xf7; 0x12; 0x01; 0x02; 0x02].
Definition MS_KRB5_OID_DER : bytes := [0x06; 0x09; 0x2a; 0x86; 0x48; 0x82; 0xf7; 0x12; 0x01; 0x02; 0x02].
Definition SPNEGO_OID_DER : bytes := [0x06; 0x06; 0x2b; 0x06; 0x01; 0x05; 0x05; 0x02].
Definition AP_REQ_MARKER : bytes := [0x01; 0x00; 0x6e].

(** ** DER elements *)

Definition der_len (len : Z) : bytes :=
  if len <? 0x80 then [len]
  else if len <? 0x100 then [0x81; len]
  else [0x82; u8 (Z.shiftr len 8); Z.land len 0xff].

Definition der (tag : Z) (content : bytes) : bytes := tag :: der_len (len content) ++ content.

(** [len = (len << 8) | byte] for the [n] bytes of a long form. *)
Fixpoint der_long (n : nat) (data : bytes) (len : Z) : option Z :=
  match n with
  | O => Some len
  | S n' => match data with b :: data' => der_long n' data' (Z.lor (u64 (Z.shiftl len 8)) b) | [] => None end
  end.

(** Where the content starts, and its length. *)
Definition der_content_offset (data : bytes) : option (Z * Z) :=
  match data !! 1%nat with
  | None => None
  | Some first =>
      if first <? 0x80 then Some (2, first)
      else
        let n := Z.land first 0x7f in
        (fun l => (2 + n, l)) <$> der_long (Z.to_nat n) (skipn 2 data) 0
  end.

Definition der_total_len (data : bytes) : option Z :=
  match der_content_offset data with Some (off, l) => Some (u64 (off + l)) | None => None end.

(** [slice.get(..n)] *)
Definition prefix_get (data : bytes) (n : Z) : option bytes :=
  if n <=? len data then Some (take (Z.to_nat n) data) else None.

(** ** Scans *)

(** Each loop runs over the suffixes of the token that have enough bytes left. *)
Fixpoint find_marked (blob : bytes) : option bytes :=
  match blob with
  | a :: rest =>
      match rest with
      | b :: c :: _ :: _ => if bool_decide ([a; b; c] = AP_REQ_MARKER) then Some (skipn 2 blob) else find_marked rest
      | _ => None
      end
  | [] => None
  end.

Fixpoint find_bare (blob : bytes) : option bytes :=
  match blob with
  | a :: rest =>
      match rest with
      | b :: _ :: _ =>
          if (a =? 0x6e) && (0x81 <=? b) && (b <=? 0x84) then
            match der_total_len blob with
            | Some n => if n <=? len blob then prefix_get blob n else find_bare rest
            | None => find_bare rest
            end
          else find_bare rest
      | _ => None
      end
  | [] => None
  end.

Definition extract_ap_req (blob : bytes) : option bytes :=
  match find_marked blob with
  | Some ap_req => match der_total_len ap_req with Some n => prefix_get ap_req n | None => None end
  | None => find_bare blob
  end.

(** [prev] is the byte before; there is none before the first. *)
Fixpoint find_ap_rep (prev : option Z) (blob : bytes) : option bytes :=
  match blob with
  | [] => None
  | b :: rest =>
      if b =? 0x6f then
        match der_total_len blob with
        | Some n =>
            if (n =? len blob) || bool_decide (prev = Some 0x04) then prefix_get blob n else find_ap_rep (Some b) rest
        | None => find_ap_rep (Some b) rest
        end
      else find_ap_rep (Some b) rest
  end.
Definition extract_ap_rep (blob : bytes) : option bytes := find_ap_rep None blob.

(** What follows the SPNEGO identifier. *)
Fixpoint after_spnego (blob : bytes) : option bytes :=
  if bool_decide (take 8 blob = SPNEGO_OID_DER) then Some (skipn 8 blob)
  else match blob with [] => None | _ :: rest => after_spnego rest end.

Fixpoint find_oid (rest : bytes) : option bytes :=
  match rest with
  | t :: rest' =>
      match rest' with
      | l :: _ :: _ =>
          if (t =? 0x06) && (8 <=? l) && (l <=? 12) && (2 + l <=? len rest) then Some (take (Z.to_nat (2 + l)) rest) else find_oid rest'
      | _ => None
      end
  | [] => None
  end.

Definition first_mech_oid (blob : bytes) : option bytes :=
  match after_spnego blob with Some rest => find_oid rest | None => None end.

(** The list of mechanisms: [?] inside the loop ends the search. *)
Fixpoint find_mech_list (rest : bytes) : option bytes :=
  match rest with
  | t :: rest' =>
      if (4 <? len rest) then
        if t =? 0xa0 then
          match der_content_offset rest with
          | None => None
          | Some (seq_off, _) =>
              let sq := skipn (Z.to_nat seq_off) rest in
              if bool_decide (head sq = Some 0x30) then
                match der_content_offset sq with
                | None => None
                | Some (off, _) =>
                    if bool_decide (sq !! Z.to_nat off = Some 0x06) then
                      match der_total_len sq with Some total => prefix_get sq total | None => None end
                    else find_mech_list rest'
                end
              else find_mech_list rest'
          end
        else find_mech_list rest'
      else None
  | [] => None
  end.

Definition mech_list_der (blob : bytes) : option bytes :=
  match after_spnego blob with Some rest => find_mech_list rest | None => None end.

(** ** Tokens *)

Definition krb5_mech_token (ap_req : bytes) : bytes := der 0x60 (KRB5_OID_DER ++ [0x01; 0x00] ++ ap_req).

Definition neg_token_init (mech_types mech_token : bytes) : bytes :=
  der 0x60 (SPNEGO_OID_DER ++ der 0xa0 (der 0x30 (der 0xa0 (der 0x30 mech_types) ++ der 0xa2 (der 0x04 mech_token)))).

Definition wrap_ap_req (ap_req : bytes) : bytes := neg_token_init KRB5_OID_DER (krb5_mech_token ap_req).
Definition wrap_ap_req_spnego_ldap (ap_req : bytes) : bytes :=
  neg_token_init (MS_KRB5_OID_DER ++ KRB5_OID_DER) (krb5_mech_token ap_req).
Definition wrap_ap_req_raw (ap_req : bytes) : bytes := krb5_mech_token ap_req.

Definition wrap_ap_rep (ap_rep mech_oid_der : bytes) : bytes :=
  let neg_state := der 0xa0 (der 0x0a [0x01]) in
  let supported_mech := der 0xa1 (match mech_oid_der with [] => KRB5_OID_DER | _ => mech_oid_der end) in
  let response_token := der 0xa2 (der 0x04 ap_rep) in
  der 0xa1 (der 0x30 (neg_state ++ supported_mech ++ response_token)).

Definition wrap_accept_completed_mic (mic_token : bytes) : bytes :=
  der 0xa1 (der 0x30 (der 0xa0 (der 0x0a [0x00]) ++ der 0xa3 (der 0x04 mic_token))).

(** ** The request is found *)

Lemma find_marked_skip a b c d l : a <> 1 \/ b <> 0 \/ c <> 0x6e ->
  find_marked (a :: b :: c :: d :: l) = find_marked (b :: c :: d :: l).
Proof. intros H. cbn [find_marked]. rewrite bool_decide_false; [done|]. unfold AP_REQ_MARKER. intros [= -> -> ->]. lia. Qed.

(** A byte that does not start a marker, before bytes that do not continue one. *)
Ltac skip_byte := rewrite find_marked_skip by lia.

(** The header of an element is passed when its content starts with another tag. *)
Lemma find_marked_der tag n r0 l : tag <> 1 -> 0 <= n < 65536 -> r0 <> 0 -> r0 <> 0x6e -> (3 <= length l)%nat ->
  find_marked (tag :: der_len n ++ r0 :: l) = find_marked (r0 :: l).
Proof.
  intros Ht Hn H0 H6 Hl. destruct l as [|r1 [|r2 [|r3 l]]]; try (simpl in Hl; lia).
  unfold der_len. destruct (n <? 0x80) eqn:E1; [|destruct (n <? 0x100) eqn:E2]; cbn [app]; by repeat skip_byte.
Qed.

Lemma find_marked_here l : (0 < length l)%nat -> find_marked (1 :: 0 :: 0x6e :: l) = Some (0x6e :: l).
Proof. destruct l as [|d l]; [simpl; lia|]. done. Qed.

(** An AP-REQ: an element of its own, with at least one byte of content. *)
Record is_ap_req (ap_req : bytes) : Prop := {
  ap_req_tag : exists b l, ap_req = 0x6e :: b :: l;
  ap_req_whole : der_total_len ap_req = Some (len ap_req);
}.

Lemma extract_found blob ap_req : is_ap_req ap_req -> find_marked blob = Some ap_req -> extract_ap_req blob = Some ap_req.
Proof.
  intros [_ Hl] Hf. unfold extract_ap_req. rewrite Hf, Hl. unfold prefix_get. rewrite Z.leb_refl. f_equal. apply take_ge. unfold len. lia.
Qed.

Lemma find_in_mech_token ap_req : is_ap_req ap_req -> len ap_req < 65000 ->
  find_marked (krb5_mech_token ap_req) = Some ap_req.
Proof.
  intros [(b & l & ->) _] Hlen. unfold krb5_mech_token, der, KRB5_OID_DER.
  set (n := len _). assert (0 <= n < 65536) as Hn by (unfold n, len in *; rewrite !length_app; cbn [length]; cbn [length] in Hlen; lia).
  clearbody n. cbn [app]. rewrite find_marked_der by (simpl; lia). repeat skip_byte. apply find_marked_here. simpl. lia.
Qed.

Lemma find_marked_not_first a l : a <> 1 -> (3 <= length l)%nat -> find_marked (a :: l) = find_marked l.
Proof. intros Ha Hl. destruct l as [|b [|c [|d l]]]; try (simpl in Hl; lia). by skip_byte. Qed.

Lemma find_marked_not_second a b l : b <> 0 -> (2 <= length l)%nat -> find_marked (a :: b :: l) = find_marked (b :: l).
Proof. intros Hb Hl. destruct l as [|c [|d l]]; try (simpl in Hl; lia). by skip_byte. Qed.

(** Past the header of an element whose content starts with the tag [r0]. *)
Lemma find_marked_past tag r0 c rest : tag <> 1 -> head c = Some r0 -> r0 <> 0 -> r0 <> 0x6e -> (4 <= length c)%nat -> len c < 65536 ->
  find_marked (der tag c ++ rest) = find_marked (c ++ rest).
Proof.
  intros Ht Hh H0 H6 Hl Hlen. destruct c as [|r c]; [done|]. injection Hh as ->. unfold der. cbn [app]. rewrite <- app_assoc. cbn [app].
  cbn [length] in *. apply find_marked_der; try done; unfold len in *; rewrite ?length_app; cbn [length] in *; lia.
Qed.

Lemma der_length tag c : (length c + 2 <= length (der tag c) <= length c + 4)%nat.
Proof. unfold der, der_len. destruct (len c <? 0x80); [|destruct (len c <? 0x100)]; cbn [length app]; lia. Qed.

Lemma find_marked_oids mech_types rest : mech_types = KRB5_OID_DER \/ mech_types = MS_KRB5_OID_DER ++ KRB5_OID_DER ->
  (3 <= length rest)%nat -> find_marked (mech_types ++ rest) = find_marked rest.
Proof.
  intros Hm Hl. unfold KRB5_OID_DER, MS_KRB5_OID_DER in Hm. destruct rest as [|a [|b [|c rest]]]; try (simpl in Hl; lia).
  destruct Hm as [-> | ->]; cbn [app]; repeat skip_byte; done.
Qed.

(** The framing of a list of mechanisms and a token that starts like one. *)
Lemma find_in_neg_token_init mech_types tok : mech_types = KRB5_OID_DER \/ mech_types = MS_KRB5_OID_DER ++ KRB5_OID_DER ->
  head tok = Some 0x60 -> (4 <= length tok)%nat -> len tok < 65200 ->
  find_marked (neg_token_init mech_types tok) = find_marked tok.
Proof.
  intros Hm Hh Hl Hlen. unfold neg_token_init.
  assert (11 <= length mech_types <= 22)%nat as Hml by (destruct Hm as [-> | ->]; cbn; lia).
  assert (head mech_types = Some 0x06) as Hmh by (by destruct Hm as [-> | ->]).
  set (c5 := der 0xa2 (der 0x04 tok)). set (cm := der 0xa0 (der 0x30 mech_types)).
  pose proof (der_length 0x04 tok). pose proof (der_length 0xa2 (der 0x04 tok)) as Hc5. fold c5 in Hc5.
  pose proof (der_length 0x30 mech_types). pose proof (der_length 0xa0 (der 0x30 mech_types)) as Hcm. fold cm in Hcm.
  pose proof (der_length 0x30 (cm ++ c5)) as H3. rewrite length_app in H3.
  pose proof (der_length 0xa0 (der 0x30 (cm ++ c5))).
  rewrite <- (app_nil_r (der 0x60 _)). unfold len in *.
  rewrite (find_marked_past 0x60 0x06); [|try done; unfold len; rewrite ?length_app; cbn [length SPNEGO_OID_DER]; lia..].
  rewrite app_nil_r. unfold SPNEGO_OID_DER. cbn [app].
  do 4 (rewrite find_marked_not_first by (cbn [length]; lia)). rewrite find_marked_not_second by (cbn [length]; lia).
  do 3 (rewrite find_marked_not_first by (cbn [length]; lia)).
  rewrite <- (app_nil_r (der 0xa0 (der 0x30 (cm ++ c5)))).
  rewrite (find_marked_past 0xa0 0x30); [|try done; unfold len; lia..].
  rewrite (find_marked_past 0x30 0xa0); [|try done; unfold len; rewrite ?length_app; lia..]. rewrite <- app_assoc. unfold cm.
  rewrite (find_marked_past 0xa0 0x30); [|try done; unfold len; lia..].
  rewrite (find_marked_past 0x30 0x06); [|try done; unfold len; lia..].
  rewrite find_marked_oids by (try done; rewrite length_app; lia). unfold c5.
  rewrite (find_marked_past 0xa2 0x04); [|try done; unfold len; lia..].
  rewrite (find_marked_past 0x04 0x60); [|try done; unfold len; lia..]. by rewrite app_nil_r.
Qed.

(** The framing of a NegTokenInit around the token. *)
Lemma extract_negotiated mech_types ap_req : mech_types = KRB5_OID_DER \/ mech_types = MS_KRB5_OID_DER ++ KRB5_OID_DER ->
  is_ap_req ap_req -> len ap_req < 65000 -> extract_ap_req (neg_token_init mech_types (krb5_mech_token ap_req)) = Some ap_req.
Proof.
  intros Hm Hap Hlen. apply extract_found; [done|]. unfold krb5_mech_token at 1.
  pose proof (der_length 0x60 (KRB5_OID_DER ++ [0x01; 0x00] ++ ap_req)) as Hd.
  rewrite !length_app in Hd. cbn [length KRB5_OID_DER] in Hd. unfold len in *.
  rewrite find_in_neg_token_init; [by apply find_in_mech_token|done|done|lia|unfold len; lia].
Qed.

(** Each framing of a request gives the request back. *)
Theorem extract_wrapped_ap_req ap_req : is_ap_req ap_req -> len ap_req < 65000 ->
  extract_ap_req (wrap_ap_req ap_req) = Some ap_req /\
  extract_ap_req (wrap_ap_req_spnego_ldap ap_req) = Some ap_req /\
  extract_ap_req (wrap_ap_req_raw ap_req) = Some ap_req.
Proof.
  intros Hap Hlen. split; [|split].
  - by apply (extract_negotiated KRB5_OID_DER); [left|..].
  - by apply (extract_negotiated (MS_KRB5_OID_DER ++ KRB5_OID_DER)); [right|..].
  - apply extract_found; [done|]. by apply find_in_mech_token.
Qed.

(** ** A reply that is not found *)

(** The length byte of the octet string around a reply of 111 bytes is taken for the
    tag of the reply, whose element would then end after the token. *)
Theorem ap_rep_of_111_bytes_is_lost l : len l = 110 -> extract_ap_rep (wrap_ap_rep (0x6f :: l) []) = None.
Proof.
  intros Hl. assert (len (0x6f :: l) = 111) as H1 by (unfold len in *; cbn [length]; lia).
  assert (der 0x04 (0x6f :: l) = 0x04 :: 0x6f :: 0x6f :: l) as E4 by (unfold der; by rewrite H1).
  unfold wrap_ap_rep. rewrite E4. set (tok := 0x04 :: 0x6f :: 0x6f :: l).
  assert (len tok = 113) as Ht by (unfold len in *; cbn [length tok]; lia).
  assert (der 0xa2 tok = 0xa2 :: 113 :: tok) as E3 by (unfold der; by rewrite Ht). rewrite E3.
  set (c := der 0xa0 (der 0x0a [0x01]) ++ der 0xa1 KRB5_OID_DER ++ 0xa2 :: 113 :: tok).
  assert (len c = 133) as Hc by (unfold c, len in *; rewrite !length_app;
    change (length (der 0xa0 (der 0x0a [0x01]))) with 5%nat; change (length (der 0xa1 KRB5_OID_DER)) with 13%nat; cbn [length]; lia).
  assert (der 0x30 c = 0x30 :: 0x81 :: 133 :: c) as E2 by (unfold der; by rewrite Hc). rewrite E2.
  assert (der 0xa1 (0x30 :: 0x81 :: 133 :: c) = 0xa1 :: 0x81 :: 136 :: 0x30 :: 0x81 :: 133 :: c) as ->.
  { unfold der. assert (len (0x30 :: 0x81 :: 133 :: c) = 136) as -> by (unfold len in *; cbn [length]; lia). done. }
  unfold extract_ap_rep. subst c tok. change (der 0xa0 (der 0x0a [0x01])) with [0xa0; 0x03; 0x0a; 0x01; 0x01].
  change (der 0xa1 KRB5_OID_DER) with (0xa1 :: 0x0b :: KRB5_OID_DER). cbn [find_ap_rep app KRB5_OID_DER Z.eqb Pos.eqb].
  change (der_total_len (0x6f :: 0x6f :: l)) with (Some 113). rewrite (bool_decide_true (Some 4 = Some 4)), orb_true_r by done.
  unfold prefix_get, len in *. cbn [length]. by rewrite (proj2 (Z.leb_gt _ _)) by lia.
Qed.

(** ** Witnesses *)

Module spnego_demo.
(** An element with the tag of an AP-REQ and 300 bytes of content. *)
Definition ap_req : bytes := [0x6e; 0x82; 0x01; 0x2c] ++ replicate 300 0x30.

Lemma extract_wrapped_ap_req_witness :
  extract_ap_req (wrap_ap_req ap_req) = Some ap_req /\
  extract_ap_req (wrap_ap_req_spnego_ldap ap_req) = Some ap_req /\
  extract_ap_req (wrap_ap_req_raw ap_req) = Some ap_req.
Proof.
  apply extract_wrapped_ap_req.
  - split; [by eexists _, _|vm_compute; reflexivity].
  - vm_compute. reflexivity.
Defined.
End spnego_demo.
