(* ===== verification/Ndr.v ===== *)
(** * Network data representation

    [crates/magnetite-rpc/src/ndr.rs]: the little-endian writer and reader of
    the RPC interfaces.  A field of [n] bytes starts at a multiple of [n], so
    what is written depends on the length of the buffer, and what is read on
    the position.

    [decodes pre n w r post] relates the two: from a buffer whose length
    satisfies [pre], what [w] appends is read by [r], at that position and
    whatever follows, with a value and an end position that satisfy [post].
    [n] bounds the referents that [w] takes from its counter.  The rules for
    the primitives, sequences and loops are the library; the message codecs are
    proved by composing them. *)

From S2P Require Import Prelude Bytes RustStr Utf16.

Local Open Scope Z_scope.

(** ** Writing *)

Definition writer := bytes -> bytes.

Fixpoint w_align_loop (fuel a : nat) (buf : bytes) : bytes :=
  match fuel with
  | O => buf
  | S fuel' => if (length buf mod a =? 0)%nat then buf else w_align_loop fuel' a (buf ++ [0])
  end.

(** [NdrWriter::align]: fewer than [a] bytes are missing. *)
Definition w_align (a : nat) : writer := w_align_loop a a.

Definition w_bytes (data : bytes) : writer := fun buf => buf ++ data.
Definition w_u8 (v : Z) : writer := w_bytes [v].
Definition w_u16 (v : Z) : writer := fun buf => w_bytes (to_le_bytes 2 v) (w_align 2 buf).
Definition w_u32 (v : Z) : writer := fun buf => w_bytes (to_le_bytes 4 v) (w_align 4 buf).

(** ** Reading *)

Definition reader (A : Type) := bytes -> nat -> option (A * nat).

Definition r_ret {A} (a : A) : reader A := fun _ pos => Some (a, pos).
Definition r_fail {A} : reader A := fun _ _ => None.
Definition r_bind {A B} (r : reader A) (k : A -> reader B) : reader B :=
  fun buf pos => match r buf pos with Some (a, pos') => k a buf pos' | None => None end.

Declare Scope ndr_scope.
Delimit Scope ndr_scope with ndr.
Notation "'rd!' x <- r ; k" := (r_bind r (fun x => k))
  (at level 200, x pattern, r at level 100, k at level 200, right associativity) : ndr_scope.
Local Open Scope ndr_scope.

(** Options inside a reader: [?] on an [Option]. *)
Definition r_opt {A} (o : option A) : reader A := match o with Some a => r_ret a | None => r_fail end.

Definition r_pos : reader nat := fun _ pos => Some (pos, pos).

Fixpoint r_align_loop (fuel a pos : nat) : nat :=
  match fuel with
  | O => pos
  | S fuel' => if (pos mod a =? 0)%nat then pos else r_align_loop fuel' a (S pos)
  end.
Definition r_align (a : nat) : reader unit := fun _ pos => Some ((), r_align_loop a a pos).

Definition r_take (n : nat) : reader bytes :=
  fun buf pos => if (length buf <? pos + n)%nat then None else Some (take n (skipn pos buf), (pos + n)%nat).

Definition r_u8 : reader Z := rd! s <- r_take 1; r_opt (s !! 0%nat).
Definition r_u16 : reader Z := rd! _ <- r_align 2; rd! s <- r_take 2; r_ret (from_le_bytes s).
Definition r_u32 : reader Z := rd! _ <- r_align 4; rd! s <- r_take 4; r_ret (from_le_bytes s).

(** [for _ in 0..count] and [for k in ks], collecting what is read. *)
Fixpoint r_repeat {A} (count : nat) (r : reader A) : reader (list A) :=
  match count with
  | O => r_ret []
  | S count' => rd! a <- r; rd! rest <- r_repeat count' r; r_ret (a :: rest)
  end.
Fixpoint r_each {K A} (r : K -> reader A) (ks : list K) : reader (list A) :=
  match ks with
  | [] => r_ret []
  | k :: ks' => rd! a <- r k; rd! rest <- r_each r ks'; r_ret (a :: rest)
  end.

(** [&self.buf[self.pos..]] panics when alignment has moved past the end. *)
Definition r_remaining (buf : bytes) (pos : nat) : outcome bytes :=
  if (length buf <? pos)%nat then Panic else Ret (skipn pos buf).

Definition skip_wstr : reader unit :=
  rd! _ <- r_align 4; rd! _ <- r_u32; rd! _ <- r_u32; rd! actual <- r_u32;
  rd! _ <- r_take (2 * Z.to_nat actual); r_ret ().

(** [trim_end_matches('\0')] *)
Definition trim_nul (s : string) : string := trim_end_matches (ascii_of_N 0) s.

Definition read_wstr : reader string :=
  rd! _ <- r_align 4; rd! _ <- r_u32; rd! _ <- r_u32; rd! actual <- r_u32;
  rd! b <- r_take (2 * Z.to_nat actual); r_ret (trim_nul (utf16le_to_string b)).

Definition skip_unique_wstr : reader unit :=
  rd! referent <- r_u32;
  if referent =? 0 then r_ret () else skip_wstr.

(** ** Writing with a counter of referents *)

(** A writer that numbers the pointers it emits. *)
Definition rwriter := Z * bytes -> Z * bytes.

Definition lift (w : writer) : rwriter := fun st => (st.1, w st.2).

(** [let r = next_ref; next_ref += 4; w.u32(r)] *)
Definition referent : rwriter := fun st => (u32 (st.1 + 4), w_u32 st.1 st.2).

Definition w_seq (w1 w2 : rwriter) : rwriter := fun st => w2 (w1 st).
Definition w_nop : rwriter := fun st => st.
Fixpoint w_each {X} (w : X -> rwriter) (l : list X) : rwriter :=
  match l with
  | [] => w_nop
  | x :: l' => w_seq (w x) (w_each w l')
  end.

Notation "w1 ;; w2" := (w_seq w1 w2) (at level 100, right associativity) : ndr_scope.

(** A numbering of its own, from [start]. *)
Definition with_refs (start : Z) (w : rwriter) : writer := fun buf => (w (start, buf)).2.

(** ** Alignment *)

Definition pad (a n : nat) : nat := ((a - n mod a) mod a)%nat.
Definition aligned (a n : nat) : Prop := (n mod a = 0)%nat.

Lemma pad_aligned a n : a <> 0%nat -> aligned a (n + pad a n).
Proof.
  intros Ha. unfold aligned, pad. rewrite Nat.Div0.add_mod_idemp_r, <- Nat.Div0.add_mod_idemp_l.
  pose proof (Nat.mod_upper_bound n a Ha). replace (n mod a + (a - n mod a))%nat with a by lia. apply Nat.Div0.mod_same.
Qed.

Lemma pad_0 a n : aligned a n -> pad a n = 0%nat.
Proof. unfold aligned, pad. intros ->. rewrite Nat.sub_0_r. apply Nat.Div0.mod_same. Qed.

Lemma mod_succ a n : a <> 0%nat -> (n mod a <> 0)%nat -> pad a n = S (pad a (S n)).
Proof.
  intros Ha Hn. unfold pad. pose proof (Nat.mod_upper_bound n a Ha).
  rewrite (Nat.mod_small (a - n mod a)) by lia.
  destruct (Nat.eq_dec (S (n mod a)) a) as [E|E].
  - assert (S n mod a = 0)%nat as ->. { rewrite <- Nat.add_1_l, <- Nat.Div0.add_mod_idemp_r. simpl. rewrite E. apply Nat.Div0.mod_same. }
    rewrite Nat.sub_0_r, Nat.Div0.mod_same. lia.
  - assert (S n mod a = S (n mod a))%nat as ->. { rewrite <- Nat.add_1_l, <- Nat.Div0.add_mod_idemp_r. simpl. rewrite Nat.mod_small; lia. }
    rewrite (Nat.mod_small (a - S (n mod a))); lia.
Qed.

Lemma w_align_loop_spec fuel a : forall buf, a <> 0%nat -> (pad a (length buf) <= fuel)%nat ->
  w_align_loop fuel a buf = buf ++ replicate (pad a (length buf)) 0.
Proof.
  induction fuel as [|fuel IH]; intros buf Ha Hf; simpl.
  - replace (pad a (length buf)) with 0%nat by lia. by rewrite app_nil_r.
  - destruct (Nat.eqb_spec (length buf mod a) 0) as [E|E]; [by rewrite pad_0, app_nil_r|].
    pose proof (mod_succ a _ Ha E) as Hs. rewrite IH.
    + rewrite length_app, Nat.add_1_r, Hs, <- app_assoc. done.
    + done.
    + rewrite length_app, Nat.add_1_r. lia.
Qed.

Lemma r_align_loop_spec fuel a : forall pos, a <> 0%nat -> (pad a pos <= fuel)%nat -> r_align_loop fuel a pos = (pos + pad a pos)%nat.
Proof.
  induction fuel as [|fuel IH]; intros pos Ha Hf; simpl; [lia|].
  destruct (Nat.eqb_spec (pos mod a) 0) as [E|E]; [by rewrite pad_0 by done|].
  pose proof (mod_succ a _ Ha E) as Hs. rewrite IH by (done || lia). lia.
Qed.

Lemma pad_le a n : a <> 0%nat -> (pad a n <= a)%nat.
Proof. intros Ha. unfold pad. pose proof (Nat.mod_upper_bound (a - n mod a) a Ha). lia. Qed.

Lemma w_align_spec a buf : a <> 0%nat -> w_align a buf = buf ++ replicate (pad a (length buf)) 0.
Proof. intros Ha. apply w_align_loop_spec; [done|by apply pad_le]. Qed.

(** ** What is written is read back *)

Definition decodes {A} (pre : nat -> Prop) (n : nat) (w : rwriter) (r : reader A) (post : A -> nat -> Prop) : Prop :=
  forall ref buf, pre (length buf) -> 0 < ref -> ref + 4 * Z.of_nat n < 2 ^ 32 ->
    exists out ref' a, w (ref, buf) = (ref', buf ++ out) /\ ref <= ref' <= ref + 4 * Z.of_nat n /\
      post a (length (buf ++ out)) /\
      forall rest, r (buf ++ out ++ rest) (length buf) = Some (a, length (buf ++ out)).

Definition anywhere (_ : nat) : Prop := True.

Section rules.
Implicit Types pre : nat -> Prop.

Lemma decodes_mono {A} pre n m w (r : reader A) (post post' : A -> nat -> Prop) :
  decodes pre n w r post -> (n <= m)%nat -> (forall a p, post a p -> post' a p) -> decodes pre m w r post'.
Proof.
  intros H Hn Hp ref buf Hpre Hr Hb. destruct (H ref buf Hpre Hr ltac:(lia)) as (out & ref' & a & E & Hl & Ha & Hrd).
  exists out, ref', a. split_and!; [done|lia|lia|by apply Hp|done].
Qed.

Lemma decodes_pre {A} (pre pre' : nat -> Prop) n w (r : reader A) post :
  (forall p, pre p -> pre' p) -> decodes pre' n w r post -> decodes pre n w r post.
Proof. intros H Hd ref buf Hpre. apply Hd. by apply H. Qed.

Lemma decodes_ret {A} pre (a : A) : decodes pre 0 w_nop (r_ret a) (fun x p => x = a /\ pre p).
Proof. intros ref buf Hp _ _. exists [], ref, a. rewrite app_nil_r. split_and!; (done || lia). Qed.

Lemma decodes_bind {A B} pre n m w1 w2 (r : reader A) (k : A -> reader B) mid post :
  decodes pre n w1 r mid -> (forall a, decodes (mid a) m w2 (k a) post) -> decodes pre (n + m) (w1 ;; w2) (r_bind r k) post.
Proof.
  intros H1 H2 ref buf Hpre Hr Hb.
  destruct (H1 ref buf Hpre Hr ltac:(lia)) as (o1 & ref1 & a & E1 & L1 & P1 & R1).
  destruct (H2 a ref1 (buf ++ o1) P1 ltac:(lia) ltac:(lia)) as (o2 & ref2 & b & E2 & L2 & P2 & R2).
  exists (o1 ++ o2), ref2, b. unfold w_seq. rewrite E1, E2, app_assoc. split_and!; [done|lia|lia|done|].
  intros rest. unfold r_bind. rewrite <- app_assoc, R1, app_assoc. apply R2.
Qed.

(** A reader that does not write, and a writer that is not read on its own. *)
Lemma decodes_pure {A B} pre n w (a : A) (k : A -> reader B) post :
  decodes pre n w (k a) post -> decodes pre n w (r_bind (r_ret a) k) post.
Proof. done. Qed.

Lemma decodes_last {A B} pre n w (r : reader A) (f : A -> B) (post : A -> nat -> Prop) (post' : B -> nat -> Prop) :
  decodes pre n w r post -> (forall a p, post a p -> post' (f a) p) -> decodes pre n w (rd! a <- r; r_ret (f a)) post'.
Proof.
  intros H Hp ref buf Hpre Hr Hb. destruct (H ref buf Hpre Hr Hb) as (out & ref' & a & E & Hl & Ha & Hrd).
  exists out, ref', (f a). split_and!; [done|lia|lia|by apply Hp|]. intros rest. unfold r_bind. by rewrite Hrd.
Qed.

Lemma decodes_align pre a : a <> 0%nat -> decodes pre 0 (lift (w_align a)) (r_align a) (fun _ p => aligned a p).
Proof.
  intros Ha ref buf _ _ _. exists (replicate (pad a (length buf)) 0), ref, ().
  unfold lift, r_align. simpl. rewrite w_align_spec by done. rewrite length_app, length_replicate.
  split_and!; [done|lia|lia|by apply pad_aligned|]. intros rest. by rewrite r_align_loop_spec by auto using pad_le.
Qed.

Lemma skipn_length_app {A} (a b : list A) : skipn (length a) (a ++ b) = b.
Proof. induction a; [done|]. done. Qed.

Lemma decodes_bytes pre l k : length l = k ->
  decodes pre 0 (lift (w_bytes l)) (r_take k) (fun x p => x = l /\ exists q, pre q /\ p = (q + k)%nat).
Proof.
  intros <- ref buf Hp _ _. exists l, ref, l. unfold lift, w_bytes. simpl. split_and!; [done|lia|lia|done| |].
  - exists (length buf). split; [done|]. by rewrite length_app.
  - intros rest. unfold r_take. rewrite skipn_length_app, !length_app.
    destruct (Nat.ltb_spec (length buf + (length l + length rest)) (length buf + length l)); [lia|].
    by rewrite take_app_length.
Qed.

Lemma w_uint_decodes pre k v : k <> 0%nat -> 0 <= v < 256 ^ Z.of_nat k ->
  decodes pre 0 (lift (fun buf => w_bytes (to_le_bytes k v) (w_align k buf)))
    (rd! _ <- r_align k; rd! s <- r_take k; r_ret (from_le_bytes s)) (fun x p => x = v /\ aligned k p).
Proof.
  intros Hk Hv. change (lift _) with (lift (w_align k) ;; lift (w_bytes (to_le_bytes k v))).
  apply (decodes_bind pre 0 0 _ _ _ _ (fun _ p => aligned k p)); [by apply decodes_align|]. intros _.
  eapply decodes_last; [apply decodes_bytes, to_le_bytes_length|]. simpl. intros x p [-> (q & Hq & ->)].
  split; [by apply from_to_le_bytes|]. unfold aligned in *. rewrite <- (Nat.Div0.add_mod_idemp_l), Hq. simpl. apply Nat.Div0.mod_same.
Qed.

Lemma decodes_u32 pre v : is_u32 v -> decodes pre 0 (lift (w_u32 v)) r_u32 (fun x p => x = v /\ aligned 4 p).
Proof. intros Hv. by apply (w_uint_decodes pre 4). Qed.

Lemma decodes_u16 pre v : is_u16 v -> decodes pre 0 (lift (w_u16 v)) r_u16 (fun x p => x = v /\ aligned 2 p).
Proof. intros Hv. by apply (w_uint_decodes pre 2). Qed.

Lemma decodes_referent pre : decodes pre 1 referent r_u32 (fun x p => x <> 0 /\ aligned 4 p).
Proof.
  intros ref buf Hp Hr Hb. destruct (decodes_u32 pre ref ltac:(unfold is_u32; lia) ref buf Hp Hr ltac:(lia)) as (out & ref' & a & E & _ & [-> Ha] & Hrd).
  exists out, (ref + 4), ref. unfold referent, lift in *. simpl in *. injection E as _ ->.
  unfold u32. rewrite Z.mod_small by lia. split_and!; [done|lia|lia|lia|done|done].
Qed.

(** [for x in l] on both sides. *)
Lemma decodes_each {X K A} (inv : nat -> Prop) (cost : X -> nat) (w : X -> rwriter) (r : K -> reader A)
    (S : X -> K -> Prop) (R : X -> A -> Prop) l : forall ks,
  Forall2 S l ks ->
  (forall x k, In x l -> S x k -> decodes inv (cost x) (w x) (r k) (fun a p => R x a /\ inv p)) ->
  decodes inv (sum_list_with cost l) (w_each w l) (r_each r ks) (fun out p => Forall2 R l out /\ inv p).
Proof.
  induction l as [|x l IH]; intros ks Hf Hs; inversion Hf as [|? k ? ks' Hk Hf']; subst; cbn [w_each r_each sum_list_with].
  - eapply decodes_mono; [apply decodes_ret|done|]. intros out p [-> Hp]. by split; [constructor|].
  - eapply decodes_bind; [apply Hs; [by left|done]|]. intros a. simpl.
    intros ref buf [Ha Hi] Hr Hb.
    assert (forall x k, In x l -> S x k -> decodes inv (cost x) (w x) (r k) (fun a p => R x a /\ inv p)) as Hs'.
    { intros x' k' Hin. apply Hs. by right. }
    exact (decodes_last inv _ _ _ (fun rest => a :: rest) (fun out p => Forall2 R l out /\ inv p) (fun out p => Forall2 R (x :: l) out /\ inv p)
             (IH ks' Hf' Hs') ltac:(intros rest p [H1 H2]; split; [by constructor|done]) ref buf Hi Hr Hb).
Qed.

Lemma r_repeat_each {A} n (r : reader A) buf : forall pos, r_repeat n r buf pos = r_each (fun _ : unit => r) (replicate n ()) buf pos.
Proof.
  induction n as [|n IH]; intros pos; [done|]. simpl. unfold r_bind. destruct (r buf pos) as [[a pos']|]; [|done]. by rewrite IH.
Qed.

Lemma decodes_repeat {X A} (inv : nat -> Prop) (cost : X -> nat) (w : X -> rwriter) (r : reader A) (R : X -> A -> Prop) l n :
  n = length l -> (forall x, In x l -> decodes inv (cost x) (w x) r (fun a p => R x a /\ inv p)) ->
  decodes inv (sum_list_with cost l) (w_each w l) (r_repeat n r) (fun out p => Forall2 R l out /\ inv p).
Proof.
  intros -> H ref buf Hp Hr Hb.
  destruct (decodes_each inv cost w (fun _ : unit => r) (fun _ _ => True) R l (replicate (length l) ())) with (ref := ref) (buf := buf)
    as (out & ref' & a & E & Hl & Ha & Hrd); [|by intros x [] Hin _; apply H|done..|].
  { clear. induction l; simpl; constructor; done. }
  exists out, ref', a. split_and!; [done|lia|lia|apply Ha|apply Ha|]. intros rest. by rewrite r_repeat_each.
Qed.

(** A position that does not matter. *)
Lemma decodes_weaken {A} pre n w (r : reader A) (post : A -> nat -> Prop) :
  decodes anywhere n w r post -> decodes pre n w r post.
Proof. by apply decodes_pre. Qed.

(** A fact about what was read before. *)
Lemma decodes_given {A} (P : Prop) pre n w (r : reader A) post :
  (P -> decodes pre n w r post) -> decodes (fun p => P /\ pre p) n w r post.
Proof. intros H ref buf [HP Hpre]. by apply H. Qed.

(** Another writer of the same bytes. *)
Lemma decodes_eq {A} pre n w w' (r : reader A) post :
  (forall st, pre (length st.2) -> w st = w' st) -> decodes pre n w' r post -> decodes pre n w r post.
Proof. intros E H ref buf Hpre Hr Hb. rewrite E by done. by apply H. Qed.

Lemma decodes_pos pre : decodes pre 0 w_nop r_pos (fun x p => x = p /\ pre p).
Proof. intros ref buf Hp _ _. exists [], ref, (length buf). rewrite app_nil_r. split_and!; (done || lia). Qed.

Lemma decodes_refs {A} pre n w (r : reader A) post start :
  0 < start -> start + 4 * Z.of_nat n < 2 ^ 32 ->
  decodes pre n w r post -> decodes pre 0 (lift (with_refs start w)) r post.
Proof.
  intros Hs Hb H ref buf Hpre _ _. destruct (H start buf Hpre Hs Hb) as (out & ref' & a & E & _ & Ha & Hrd).
  exists out, ref, a. unfold lift, with_refs. simpl. rewrite E. split_and!; (done || lia).
Qed.

(** The last writer of a message, a reader that consumes nothing, and a writer
    that adds nothing. *)
Lemma decodes_tail {A B} pre n w (r : reader A) (k : A -> reader B) mid post :
  decodes pre n w r mid -> (forall a, decodes (mid a) 0 w_nop (k a) post) -> decodes pre n w (r_bind r k) post.
Proof.
  intros H1 H2. apply (decodes_eq _ _ _ (w ;; w_nop)); [done|]. rewrite <- (Nat.add_0_r n). by eapply decodes_bind.
Qed.

Lemma decodes_return {A} pre (a : A) (post : A -> nat -> Prop) : (forall p, pre p -> post a p) -> decodes pre 0 w_nop (r_ret a) post.
Proof. intros H. eapply decodes_mono; [apply decodes_ret|done|]. intros x p [-> Hp]. auto. Qed.

Lemma decodes_read {A B} pre n w (r : reader A) (k : A -> reader B) mid post :
  decodes pre 0 w_nop r mid -> (forall a, decodes (mid a) n w (k a) post) -> decodes pre n w (r_bind r k) post.
Proof. intros H1 H2. apply (decodes_eq _ _ _ (w_nop ;; w)); [done|]. by apply (decodes_bind _ 0 n _ _ _ _ mid). Qed.

Lemma decodes_wskip {A} pre n w1 w2 (r : reader A) post :
  (forall st, pre (length st.2) -> w1 st = st) -> decodes pre n w2 r post -> decodes pre n (w1 ;; w2) r post.
Proof. intros E. apply decodes_eq. intros st Hp. unfold w_seq. by rewrite E. Qed.

(** At an aligned position a field is its bytes. *)
Lemma w_align_aligned a buf : a <> 0%nat -> aligned a (length buf) -> w_align a buf = buf.
Proof. intros Ha H. rewrite w_align_spec, pad_0 by done. by rewrite app_nil_r. Qed.

Lemma w_u32_aligned v buf : aligned 4 (length buf) -> w_u32 v buf = buf ++ to_le_bytes 4 v.
Proof. intros H. unfold w_u32. by rewrite w_align_aligned by done. Qed.

Lemma aligned_add a n m : aligned a n -> aligned a m -> aligned a (n + m).
Proof. unfold aligned. intros H1 H2. rewrite Nat.Div0.add_mod, H1, H2. apply Nat.Div0.mod_0_l. Qed.

Lemma aligned_8_4 n : aligned 8 n -> aligned 4 n.
Proof. unfold aligned. intros H. apply Nat.Div0.div_exact in H. rewrite H. replace (8 * (n / 8))%nat with (2 * (n / 8) * 4)%nat by lia. apply Nat.Div0.mod_mul. Qed.

Lemma decodes_raw_u32 pre v : is_u32 v -> (forall q, pre q -> aligned 4 q) ->
  decodes pre 0 (lift (w_bytes (to_le_bytes 4 v))) r_u32 (fun x p => x = v /\ exists q, pre q /\ p = (q + 4)%nat).
Proof.
  intros Hv Ha ref buf Hpre Hr Hb.
  destruct (decodes_bytes pre (to_le_bytes 4 v) 4 (to_le_bytes_length _ _) ref buf Hpre Hr Hb) as (out & ref' & a & E & Hl & [-> Hp] & Hrd).
  exists out, ref', v. split_and!; [done|lia|lia|done|done|]. intros rest. unfold r_u32, r_bind, r_align.
  rewrite r_align_loop_spec, pad_0 by (done || apply Ha, Hpre || (apply pad_le; done)). rewrite Nat.add_0_r, Hrd.
  unfold r_ret. by rewrite from_to_le_bytes.
Qed.
End rules.

Lemma sum_list_with_0 {X} (l : list X) : sum_list_with (fun _ => 0%nat) l = 0%nat.
Proof. by induction l. Qed.

Lemma Forall2_eq_r {X} (l k : list X) : Forall2 (fun x y => y = x) l k -> k = l.
Proof. induction 1; congruence. Qed.

(** One field of a message: the rule for it, then the rest with what was read. *)
Ltac field_with tac :=
  eapply decodes_bind; [tac | let x := fresh "x" in intros x; cbv beta; try (apply decodes_given; intros ->)].
Tactic Notation "field" tactic3(tac) := field_with tac.
Tactic Notation "last_field" tactic3(tac) :=
  eapply decodes_tail; [tac | let x := fresh "x" in intros x; cbv beta; try (apply decodes_given; intros ->)].

(** ** Readers and position *)

(** What [r] reads in a buffer it reads at every aligned place of a larger one. *)
Definition stable {A} (r : reader A) : Prop :=
  forall buf data rest pos a p, aligned 4 (length buf) -> r data pos = Some (a, p) ->
    r (buf ++ data ++ rest) (length buf + pos)%nat = Some (a, (length buf + p)%nat).

Lemma stable_ret {A} (a : A) : stable (r_ret a).
Proof. intros buf data rest pos a' p _ [= -> ->]. done. Qed.

Lemma stable_bind {A B} (r : reader A) (k : A -> reader B) : stable r -> (forall a, stable (k a)) -> stable (r_bind r k).
Proof.
  intros H1 H2 buf data rest pos b p Ha. unfold r_bind. destruct (r data pos) as [[a q]|] eqn:E; [|done].
  intros Hk. rewrite (H1 _ _ _ _ _ _ Ha E). by apply H2.
Qed.

Lemma stable_take n : stable (r_take n).
Proof.
  intros buf data rest pos a p _. unfold r_take. destruct (Nat.ltb_spec (length data) (pos + n)) as [H|H]; [done|]. intros [= <- <-].
  rewrite !length_app, (proj2 (Nat.ltb_ge _ _)) by lia. rewrite skipn_app, (skipn_all2 buf) by lia.
  replace (length buf + pos - length buf)%nat with pos by lia. rewrite skipn_app, app_nil_l.
  rewrite take_app_le by (rewrite length_skipn; lia). by rewrite Nat.add_assoc.
Qed.

Lemma aligned_pad a b n : a <> 0%nat -> aligned a b -> pad a (b + n) = pad a n.
Proof. intros Ha H. unfold pad, aligned in *. by rewrite <- (Nat.Div0.add_mod_idemp_l b), H. Qed.

Lemma stable_align4 : stable (r_align 4).
Proof.
  intros buf data rest pos a p Hb. unfold r_align. rewrite !r_align_loop_spec by auto using pad_le. intros [= <- <-].
  rewrite aligned_pad by done. by rewrite Nat.add_assoc.
Qed.

Lemma stable_u32 : stable r_u32.
Proof. apply stable_bind; [apply stable_align4|]. intros _. apply stable_bind; [apply stable_take|]. intros s. apply stable_ret. Qed.

Lemma stable_repeat {A} (r : reader A) n : stable r -> stable (r_repeat n r).
Proof.
  intros H. induction n as [|n IH]; cbn [r_repeat]; [apply stable_ret|]. apply stable_bind; [done|]. intros a.
  apply stable_bind; [done|]. intros l. apply stable_ret.
Qed.

Lemma stable_each {K A} (r : K -> reader A) ks : (forall k, stable (r k)) -> stable (r_each r ks).
Proof.
  intros H. induction ks as [|k ks IH]; cbn [r_each]; [apply stable_ret|]. apply stable_bind; [done|]. intros a.
  apply stable_bind; [done|]. intros l. apply stable_ret.
Qed.

(** Bytes that [r] reads in full. *)
Lemma decodes_stable {A} pre (r : reader A) data a : stable r -> (forall q, pre q -> aligned 4 q) ->
  r data 0%nat = Some (a, length data) ->
  decodes pre 0 (lift (w_bytes data)) r (fun x p => x = a /\ exists q, pre q /\ p = (q + length data)%nat).
Proof.
  intros Hs Ha E ref buf Hp _ _. exists data, ref, a. unfold lift, w_bytes. simpl. rewrite length_app.
  split_and!; [done|lia|lia|done|by exists (length buf)|]. intros rest.
  rewrite <- (Hs buf data rest 0%nat a _ (Ha _ Hp) E). by rewrite Nat.add_0_r.
Qed.
