(* ===== verification/DrsWire.v ===== *)
(** * Messages of the directory replication service

    [crates/magnetite-rpc/src/drsuapi.rs]: the encoder of the reply to
    [IDL_DRSGetNCChanges] with its parts, from [encode_dsname] to
    [write_getncchanges_reply], and the decoder [parse_get_nc_changes_reply].
    A byte array of fixed size is a list of that length.

    [reply_round_trip] states that the decoder returns the identity, the cursor,
    the objects and the links that the encoder was given, each object with the
    stamp that it is served under. *)

From S2P Require Import Prelude Bytes RustStr Utf16 Ndr AdDirectory.

Local Open Scope Z_scope.
Local Open Scope ndr_scope.

(** ** What is sent *)

Record ReplAttr := mkReplAttr { attid : Z; values : list bytes }.

Record ReplObject := mkReplObject {
  ro_guid : bytes;
  ro_name : string;
  ro_sid : bytes;
  ro_attrs : list ReplAttr;
  ro_usn : Z;
  ro_meta : option ReplMeta;
}.

Record LinkVal := mkLinkVal {
  lv_source_guid : bytes;
  lv_source_sid : bytes;
  lv_source_dn : string;
  lv_target_guid : bytes;
  lv_target_sid : bytes;
  lv_target_dn : string;
  lv_present : bool;
  lv_meta : option ReplMeta;
}.

(** ** What is received *)

Record AttrMetadata := mkAttrMetadata {
  am_version : Z;
  am_originating_time : Z;
  am_originating_dsa : bytes;
  am_originating_usn : Z;
}.

Record ReplicatedAttr := mkReplicatedAttr { ra_attid : Z; ra_values : list bytes; ra_metadata : option AttrMetadata }.

Record ReplicatedObject := mkReplicatedObject { guid : bytes; obj_name : string; attrs : list ReplicatedAttr }.

Record ReplicatedLink := mkReplicatedLink {
  rl_source_guid : bytes;
  rl_attr_id : Z;
  rl_target_guid : bytes;
  rl_target_sid : bytes;
  rl_present : bool;
  rl_version : Z;
  rl_originating_time : Z;
  rl_originating_dsa : bytes;
  rl_originating_usn : Z;
}.

Record ReplicatedChanges := mkReplicatedChanges {
  source_invocation_id : bytes;
  usn_to : Z;
  more_data : bool;
  objects : list ReplicatedObject;
  links : list ReplicatedLink;
  ext_op_err : Z;
}.

(** ** Constants *)

Definition STATUS_SUCCESS : Z := 0.
Definition LINK_ATTR_MEMBER : Z := 0x1f.

(** A [DSTIME]: seconds since 1601. *)
Definition META_TIME : Z := 13350000000.

(** The bytes of [tests/fixtures/prefix_table.bin]. *)
Definition PREFIX_TABLE : bytes := [
  42; 0; 0; 0; 0; 0; 0; 0; 2; 0; 0; 0; 20; 0; 2; 0; 1; 0; 0; 0; 2; 0; 0; 0; 24; 0; 2; 0; 2; 0; 0; 0;
  8; 0; 0; 0; 28; 0; 2; 0; 3; 0; 0; 0; 8; 0; 0; 0; 32; 0; 2; 0; 4; 0; 0; 0; 8; 0; 0; 0; 36; 0; 2; 0;
  5; 0; 0; 0; 8; 0; 0; 0; 40; 0; 2; 0; 6; 0; 0; 0; 8; 0; 0; 0; 44; 0; 2; 0; 7; 0; 0; 0; 8; 0; 0; 0;
  48; 0; 2; 0; 8; 0; 0; 0; 2; 0; 0; 0; 52; 0; 2; 0; 9; 0; 0; 0; 8; 0; 0; 0; 56; 0; 2; 0; 10; 0; 0; 0;
  8; 0; 0; 0; 60; 0; 2; 0; 19; 0; 0; 0; 8; 0; 0; 0; 64; 0; 2; 0; 20; 0; 0; 0; 8; 0; 0; 0; 68; 0; 2; 0;
  21; 0; 0; 0; 9; 0; 0; 0; 72; 0; 2; 0; 22; 0; 0; 0; 9; 0; 0; 0; 76; 0; 2; 0; 23; 0; 0; 0; 10; 0; 0; 0;
  80; 0; 2; 0; 24; 0; 0; 0; 2; 0; 0; 0; 84; 0; 2; 0; 25; 0; 0; 0; 2; 0; 0; 0; 88; 0; 2; 0; 26; 0; 0; 0;
  2; 0; 0; 0; 92; 0; 2; 0; 11; 0; 0; 0; 10; 0; 0; 0; 96; 0; 2; 0; 12; 0; 0; 0; 9; 0; 0; 0; 100; 0; 2; 0;
  13; 0; 0; 0; 10; 0; 0; 0; 104; 0; 2; 0; 14; 0; 0; 0; 9; 0; 0; 0; 108; 0; 2; 0; 15; 0; 0; 0; 10; 0; 0; 0;
  112; 0; 2; 0; 16; 0; 0; 0; 9; 0; 0; 0; 116; 0; 2; 0; 17; 0; 0; 0; 9; 0; 0; 0; 120; 0; 2; 0; 18; 0; 0; 0;
  10; 0; 0; 0; 124; 0; 2; 0; 27; 0; 0; 0; 9; 0; 0; 0; 128; 0; 2; 0; 28; 0; 0; 0; 9; 0; 0; 0; 132; 0; 2; 0;
  29; 0; 0; 0; 8; 0; 0; 0; 136; 0; 2; 0; 30; 0; 0; 0; 8; 0; 0; 0; 140; 0; 2; 0; 31; 0; 0; 0; 9; 0; 0; 0;
  144; 0; 2; 0; 32; 0; 0; 0; 9; 0; 0; 0; 148; 0; 2; 0; 33; 0; 0; 0; 10; 0; 0; 0; 152; 0; 2; 0; 34; 0; 0; 0;
  10; 0; 0; 0; 156; 0; 2; 0; 35; 0; 0; 0; 10; 0; 0; 0; 160; 0; 2; 0; 36; 0; 0; 0; 10; 0; 0; 0; 164; 0; 2; 0;
  37; 0; 0; 0; 6; 0; 0; 0; 168; 0; 2; 0; 38; 0; 0; 0; 6; 0; 0; 0; 172; 0; 2; 0; 39; 0; 0; 0; 9; 0; 0; 0;
  176; 0; 2; 0; 40; 0; 0; 0; 9; 0; 0; 0; 180; 0; 2; 0; 0; 0; 0; 0; 21; 0; 0; 0; 184; 0; 2; 0; 2; 0; 0; 0;
  85; 4; 0; 0; 2; 0; 0; 0; 85; 6; 0; 0; 8; 0; 0; 0; 42; 134; 72; 134; 247; 20; 1; 2; 8; 0; 0; 0; 42; 134; 72; 134;
  247; 20; 1; 3; 8; 0; 0; 0; 96; 134; 72; 1; 101; 2; 2; 1; 8; 0; 0; 0; 96; 134; 72; 1; 101; 2; 2; 3; 8; 0; 0; 0;
  96; 134; 72; 1; 101; 2; 1; 5; 8; 0; 0; 0; 96; 134; 72; 1; 101; 2; 1; 4; 2; 0; 0; 0; 85; 5; 0; 0; 8; 0; 0; 0;
  42; 134; 72; 134; 247; 20; 1; 4; 8; 0; 0; 0; 42; 134; 72; 134; 247; 20; 1; 5; 8; 0; 0; 0; 9; 146; 38; 137; 147; 242; 44; 100;
  8; 0; 0; 0; 96; 134; 72; 1; 134; 248; 66; 3; 9; 0; 0; 0; 9; 146; 38; 137; 147; 242; 44; 100; 1; 0; 0; 0; 9; 0; 0; 0;
  96; 134; 72; 1; 134; 248; 66; 3; 1; 0; 0; 0; 10; 0; 0; 0; 42; 134; 72; 134; 247; 20; 1; 5; 182; 88; 0; 0; 2; 0; 0; 0;
  85; 21; 0; 0; 2; 0; 0; 0; 85; 18; 0; 0; 2; 0; 0; 0; 85; 20; 0; 0; 10; 0; 0; 0; 42; 134; 72; 134; 247; 20; 1; 4;
  130; 4; 0; 0; 9; 0; 0; 0; 42; 134; 72; 134; 247; 20; 1; 5; 56; 0; 0; 0; 10; 0; 0; 0; 42; 134; 72; 134; 247; 20; 1; 4;
  130; 6; 0; 0; 9; 0; 0; 0; 42; 134; 72; 134; 247; 20; 1; 5; 57; 0; 0; 0; 10; 0; 0; 0; 42; 134; 72; 134; 247; 20; 1; 4;
  130; 7; 0; 0; 9; 0; 0; 0; 42; 134; 72; 134; 247; 20; 1; 5; 58; 0; 0; 0; 9; 0; 0; 0; 42; 134; 72; 134; 247; 20; 1; 5;
  73; 0; 0; 0; 10; 0; 0; 0; 42; 134; 72; 134; 247; 20; 1; 4; 130; 49; 0; 0; 9; 0; 0; 0; 43; 6; 1; 4; 1; 139; 58; 101;
  119; 0; 0; 0; 9; 0; 0; 0; 96; 134; 72; 1; 134; 248; 66; 3; 2; 0; 0; 0; 8; 0; 0; 0; 43; 6; 1; 4; 1; 129; 122; 1;
  8; 0; 0; 0; 42; 134; 72; 134; 247; 13; 1; 9; 9; 0; 0; 0; 9; 146; 38; 137; 147; 242; 44; 100; 4; 0; 0; 0; 9; 0; 0; 0;
  42; 134; 72; 134; 247; 20; 1; 6; 23; 0; 0; 0; 10; 0; 0; 0; 42; 134; 72; 134; 247; 20; 1; 6; 18; 1; 0; 0; 10; 0; 0; 0;
  42; 134; 72; 134; 247; 20; 1; 6; 18; 2; 0; 0; 10; 0; 0; 0; 42; 134; 72; 134; 247; 20; 1; 6; 13; 3; 0; 0; 10; 0; 0; 0;
  42; 134; 72; 134; 247; 20; 1; 6; 13; 4; 0; 0; 6; 0; 0; 0; 43; 6; 1; 1; 1; 1; 0; 0; 6; 0; 0; 0; 43; 6; 1; 1;
  1; 2; 0; 0; 9; 0; 0; 0; 43; 6; 1; 4; 1; 183; 125; 4; 1; 0; 0; 0; 9; 0; 0; 0; 43; 6; 1; 4; 1; 183; 125; 4;
  2; 0; 0; 0; 21; 0; 0; 0; 255; 0; 0; 0; 0; 0; 0; 0; 0; 0; 0; 0; 0; 0; 0; 0; 0; 0; 0; 0; 0; 0; 0; 0].
Definition PREFIX_TABLE_COUNT : Z := 42.

(** ** Encoding *)

(** [sid_buf] and [sid_len]: a SID in the fixed 28 bytes of an [NT4SID]. *)
Definition sid_len (sid : bytes) : nat := Nat.min (length sid) 28.
Definition sid_buf (sid : bytes) : bytes := take 28 sid ++ replicate (28 - length sid) 0.

(** [x as u32] of a length *)
Definition len32 {X} (l : list X) : Z := u32 (len l).

Definition encode_dsname (g sid : bytes) (nm : string) : rwriter :=
  let chars := encode_utf16 nm in
  let max_count := len chars + 1 in
  let struct_len := 4 + 4 + 4 + 16 + 28 + 4 + 2 * max_count in
  lift (w_u32 (u32 max_count)) ;;
  lift (w_u32 (u32 struct_len)) ;;
  lift (w_u32 (Z.of_nat (sid_len sid))) ;;
  lift (w_bytes g) ;;
  lift (w_bytes (sid_buf sid)) ;;
  lift (w_u32 (len32 chars)) ;;
  w_each (fun c => lift (w_u16 c)) chars ;;
  lift (w_u16 0) ;;
  lift (w_align 4).

Definition encode_flat_dsname (g : bytes) (dn : string) : bytes :=
  let chars := encode_utf16 dn in
  let struct_len := 56 + 2 * (len chars + 1) in
  to_le_bytes 4 struct_len ++ to_le_bytes 4 0 ++ g ++ replicate 28 0 ++ to_le_bytes 4 (len chars)
  ++ flat_map (to_le_bytes 2) chars ++ to_le_bytes 2 0.

Definition encode_flat_dsname_sid (g sid : bytes) (dn : string) : bytes :=
  let chars := encode_utf16 dn in
  let struct_len := 56 + 2 * (len chars + 1) in
  to_le_bytes 4 struct_len ++ to_le_bytes 4 (Z.of_nat (sid_len sid)) ++ g ++ sid_buf sid ++ to_le_bytes 4 (len chars)
  ++ flat_map (to_le_bytes 2) chars ++ to_le_bytes 2 0.

Definition encode_prefix_table : rwriter := lift (w_align 4) ;; lift (w_bytes PREFIX_TABLE).

(** One [PROPERTY_META_DATA_EXT]. *)
Definition encode_metadata (m : AttrMetadata) : rwriter :=
  lift (w_u32 (am_version m)) ;;
  lift (w_u32 0) ;;
  lift (w_bytes (to_le_bytes 8 (am_originating_time m))) ;;
  lift (w_bytes (am_originating_dsa m)) ;;
  lift (w_bytes (to_le_bytes 8 (am_originating_usn m))).

Definition encode_metadata_vector (attr_count : nat) (m : AttrMetadata) : rwriter :=
  lift (w_u32 (u32 (Z.of_nat attr_count))) ;;
  lift (w_align 8) ;;
  lift (w_u32 (u32 (Z.of_nat attr_count))) ;;
  lift (w_align 8) ;;
  w_each (fun _ : unit => encode_metadata m) (replicate attr_count ()).

(** The stamp an object is served under: its origin when known, else this DC at
    version 1. *)
Definition served_meta (dsa : bytes) (usn : Z) (meta : option ReplMeta) : AttrMetadata :=
  match meta with
  | Some m => mkAttrMetadata (m_version m) (m_originating_time m) (m_originating_dsa m) (m_originating_usn m)
  | None => mkAttrMetadata 1 META_TIME dsa usn
  end.

(** Each element with whether another one follows ([i + 1 < objects.len()]). *)
Fixpoint with_more {X} (l : list X) : list (X * bool) :=
  match l with
  | [] => []
  | [x] => [(x, false)]
  | x :: l' => (x, true) :: with_more l'
  end.

(** Pass 1: the inline [REPLENTINFLIST] node. *)
Definition encode_node (x : ReplObject * bool) : rwriter :=
  let '(obj, more) := x in
  (if more then referent else lift (w_u32 0)) ;;
  referent ;;
  lift (w_u32 0) ;;
  lift (w_u32 (len32 (ro_attrs obj))) ;;
  referent ;;
  lift (w_u32 0) ;;
  lift (w_u32 0) ;;
  referent.

Definition encode_attr_desc (a : ReplAttr) : rwriter :=
  lift (w_u32 (attid a)) ;;
  lift (w_u32 (len32 (values a))) ;;
  referent.

Definition encode_value (v : bytes) : rwriter :=
  lift (w_u32 (len32 v)) ;;
  lift (w_bytes v) ;;
  lift (w_align 4).

Definition encode_attr_values (a : ReplAttr) : rwriter :=
  lift (w_u32 (len32 (values a))) ;;
  w_each (fun v : bytes => lift (w_u32 (len32 v)) ;; referent) (values a) ;;
  w_each encode_value (values a).

(** Pass 2: the deferred payload of a node. *)
Definition encode_payload (dsa : bytes) (obj : ReplObject) : rwriter :=
  encode_dsname (ro_guid obj) (ro_sid obj) (ro_name obj) ;;
  lift (w_u32 (len32 (ro_attrs obj))) ;;
  w_each encode_attr_desc (ro_attrs obj) ;;
  w_each encode_attr_values (ro_attrs obj) ;;
  encode_metadata_vector (length (ro_attrs obj)) (served_meta dsa (ro_usn obj) (ro_meta obj)).

Definition encode_objects (objs : list ReplObject) (dsa : bytes) : writer :=
  with_refs 0x30000 (w_each encode_node (with_more objs) ;; w_each (encode_payload dsa) (rev objs)).

Definition target_blob (l : LinkVal) : bytes :=
  encode_flat_dsname_sid (lv_target_guid l) (lv_target_sid l) (lv_target_dn l).

(** Pass 1: the inline [REPLVALINF_V1] record. *)
Definition encode_link_record (dsa : bytes) (l : LinkVal) : rwriter :=
  let m := served_meta dsa 0 (lv_meta l) in
  referent ;;
  lift (w_u32 LINK_ATTR_MEMBER) ;;
  lift (w_u32 (len32 (target_blob l))) ;;
  referent ;;
  lift (w_u32 (if lv_present l then 1 else 0)) ;;
  lift (w_align 8) ;;
  lift (w_bytes (to_le_bytes 8 (am_originating_time m))) ;;
  encode_metadata m.

(** Pass 2: the source group, then the member. *)
Definition encode_link_payload (l : LinkVal) : rwriter :=
  encode_dsname (lv_source_guid l) (lv_source_sid l) (lv_source_dn l) ;;
  lift (w_u32 (len32 (target_blob l))) ;;
  lift (w_bytes (target_blob l)) ;;
  lift (w_align 4).

Definition encode_linked_values (ls : list LinkVal) (dsa : bytes) : writer :=
  with_refs 0x40000
    (lift (w_u32 (len32 ls)) ;;
     lift (w_align 8) ;;
     w_each (encode_link_record dsa) ls ;;
     w_each encode_link_payload ls).

Definition encode_uptodate_vector (invocation_id : bytes) (high_usn : Z) : rwriter :=
  lift (w_u32 1) ;;
  lift (w_align 8) ;;
  lift (w_u32 2) ;;
  lift (w_u32 0) ;;
  lift (w_u32 1) ;;
  lift (w_u32 0) ;;
  lift (w_align 8) ;;
  lift (w_bytes invocation_id) ;;
  lift (w_bytes (to_le_bytes 8 high_usn)) ;;
  lift (w_bytes (replicate 8 0)).

Definition usn_vector (high : Z) : bytes := to_le_bytes 8 high ++ replicate 8 0 ++ to_le_bytes 8 high.

Definition encode_reply (objs : list ReplObject) (ls : list LinkVal) (from usn_to high_water : Z) (more : bool)
    (invocation_id : bytes) (err : Z) : rwriter :=
  lift (w_u32 6) ;;
  lift (w_u32 6) ;;
  lift (w_bytes (replicate 16 0)) ;;
  lift (w_bytes invocation_id) ;;
  lift (w_u32 0) ;;
  lift (w_align 8) ;;
  lift (w_bytes (usn_vector from)) ;;
  lift (w_bytes (usn_vector usn_to)) ;;
  lift (w_u32 0x20000) ;;
  lift (w_u32 PREFIX_TABLE_COUNT) ;;
  lift (w_u32 0x20080) ;;
  lift (w_u32 err) ;;
  lift (w_u32 (len32 objs)) ;;
  lift (w_u32 0) ;;
  lift (w_u32 (match objs with [] => 0 | _ => 0x20004 end)) ;;
  lift (w_u32 (if more then 1 else 0)) ;;
  lift (w_u32 0) ;;
  lift (w_u32 0) ;;
  lift (w_u32 (len32 ls)) ;;
  lift (w_u32 (match ls with [] => 0 | _ => 0x20008 end)) ;;
  lift (w_u32 0) ;;
  encode_uptodate_vector invocation_id high_water ;;
  encode_prefix_table ;;
  lift (match objs with [] => fun buf => buf | _ => encode_objects objs invocation_id end) ;;
  lift (match ls with [] => fun buf => buf | _ => encode_linked_values ls invocation_id end).

Definition write_getncchanges_reply (objs : list ReplObject) (ls : list LinkVal) (from usn_to high_water : Z) (more : bool)
    (invocation_id : bytes) (err : Z) : bytes :=
  w_u32 STATUS_SUCCESS (with_refs 1 (encode_reply objs ls from usn_to high_water more invocation_id err) []).

(** ** Decoding *)

Definition read_dsname : reader (bytes * string) :=
  rd! _ <- r_u32;
  rd! _ <- r_u32;
  rd! _ <- r_u32;
  rd! g <- r_take 16;
  rd! _ <- r_take 28;
  rd! name_len <- r_u32;
  rd! units <- r_repeat (Z.to_nat name_len) r_u16;
  rd! _ <- r_u16;
  rd! _ <- r_align 4;
  r_ret (g, from_utf16_lossy units).

Definition decode_dsname_dn (value : bytes) : option string :=
  match slice_get value 52 56 with
  | Some nl =>
      match slice_get value 56 (56 + 2 * Z.to_nat (from_le_bytes nl)) with
      | Some s => Some (trim_nul (utf16le_to_string s))
      | None => None
      end
  | None => None
  end.

Definition skip_uptodate_vector : reader unit :=
  rd! _ <- r_u32;
  rd! _ <- r_align 8;
  rd! _ <- r_u32;
  rd! _ <- r_u32;
  rd! cursors <- r_u32;
  rd! _ <- r_u32;
  rd! _ <- r_align 8;
  rd! _ <- r_repeat (Z.to_nat cursors) (r_take 32);
  r_ret ().

Definition skip_prefix_entry : reader (nat * Z) :=
  rd! _ <- r_u32;
  rd! length <- r_u32;
  rd! elems_ref <- r_u32;
  r_ret (Z.to_nat length, elems_ref).

Definition skip_prefix_elements (e : nat * Z) : reader unit :=
  if e.2 =? 0 then r_ret ()
  else rd! _ <- r_u32; rd! _ <- r_take e.1; r_align 4.

Definition skip_prefix_table (count : nat) : reader unit :=
  rd! _ <- r_u32;
  rd! entries <- r_repeat count skip_prefix_entry;
  rd! _ <- r_each skip_prefix_elements entries;
  r_ret ().

(** The fields of a [PROPERTY_META_DATA_EXT] of 40 bytes. *)
Definition metadata_of (e : bytes) : AttrMetadata :=
  mkAttrMetadata (from_le_bytes (take 4 e)) (from_le_bytes_i64 (take 8 (skipn 8 e))) (take 16 (skipn 16 e))
    (from_le_bytes_i64 (take 8 (skipn 32 e))).

Definition parse_metadata_vector : reader (list AttrMetadata) :=
  rd! _ <- r_u32;
  rd! _ <- r_align 8;
  rd! num_props <- r_u32;
  rd! _ <- r_align 8;
  r_repeat (Z.to_nat num_props) (rd! e <- r_take 40; r_ret (metadata_of e)).

Definition read_node : reader (nat * Z * Z) :=
  rd! _ <- r_u32;
  rd! _ <- r_u32;
  rd! _ <- r_u32;
  rd! attr_count <- r_u32;
  rd! _ <- r_u32;
  rd! _ <- r_u32;
  rd! p_parent_guid <- r_u32;
  rd! p_metadata <- r_u32;
  r_ret (Z.to_nat attr_count, p_parent_guid, p_metadata).

Definition read_attr_desc : reader (Z * nat * Z) :=
  rd! a <- r_u32;
  rd! val_count <- r_u32;
  rd! p_aval <- r_u32;
  r_ret (a, Z.to_nat val_count, p_aval).

Definition read_value (n : nat) : reader bytes :=
  rd! buf_max <- r_u32;
  if negb (Z.to_nat buf_max =? n)%nat then r_fail
  else rd! v <- r_take n; rd! _ <- r_align 4; r_ret v.

Definition read_attr (d : Z * nat * Z) : reader ReplicatedAttr :=
  let '(a, val_count, p_aval) := d in
  if p_aval =? 0 then r_ret (mkReplicatedAttr a [] None)
  else
    rd! dv_max <- r_u32;
    if negb (Z.to_nat dv_max =? val_count)%nat then r_fail
    else
      rd! lens <- r_repeat val_count (rd! val_len <- r_u32; rd! _ <- r_u32; r_ret (Z.to_nat val_len));
      rd! vs <- r_each read_value lens;
      r_ret (mkReplicatedAttr a vs None).

Definition stamp_attr (x : ReplicatedAttr * AttrMetadata) : ReplicatedAttr :=
  mkReplicatedAttr (ra_attid x.1) (ra_values x.1) (Some x.2).

Definition parse_object_payload (node : nat * Z * Z) : reader ReplicatedObject :=
  let '(attr_count, p_parent_guid, p_metadata) := node in
  rd! dsname <- read_dsname;
  rd! arr_max <- r_u32;
  if negb (Z.to_nat arr_max =? attr_count)%nat then r_fail
  else
    rd! descs <- r_repeat attr_count read_attr_desc;
    rd! ats <- r_each read_attr descs;
    rd! _ <- (if p_parent_guid =? 0 then r_ret [] else r_take 16);
    rd! ats <- (if p_metadata =? 0 then r_ret ats
                else rd! meta <- parse_metadata_vector;
                     r_ret (if (length meta =? length ats)%nat then map stamp_attr (combine ats meta) else ats));
    r_ret (mkReplicatedObject dsname.1 dsname.2 ats).

Definition parse_replentinflist (count : nat) : reader (list ReplicatedObject) :=
  rd! nodes <- r_repeat count read_node;
  rd! rev_objs <- r_each parse_object_payload (rev nodes);
  r_ret (rev rev_objs).

(** One inline record of [rgValues]. *)
Record LinkInline := mkLinkInline {
  li_p_object : Z;
  li_attr_id : Z;
  li_val_len : nat;
  li_p_val : Z;
  li_present : bool;
  li_meta : AttrMetadata;
}.

Definition read_link_record : reader LinkInline :=
  rd! p_object <- r_u32;
  rd! attr_id <- r_u32;
  rd! val_len <- r_u32;
  rd! p_val <- r_u32;
  rd! present <- r_u32;
  rd! _ <- r_align 8;
  rd! _ <- r_take 8;
  rd! meta <- r_take 40;
  r_ret (mkLinkInline p_object attr_id (Z.to_nat val_len) p_val (negb (present =? 0)) (metadata_of meta)).

(** The member: GUID and SID of the flat [DSNAME], whose end is skipped. *)
Definition read_target (val_len : nat) : reader (bytes * bytes) :=
  rd! _ <- r_u32;
  rd! start <- r_pos;
  rd! _ <- r_u32;
  rd! sl <- r_u32;
  rd! g <- r_take 16;
  rd! sid <- r_take 28;
  rd! here <- r_pos;
  rd! _ <- r_take (val_len - (here - start));
  rd! _ <- r_align 4;
  r_ret (g, take (Nat.min (Z.to_nat sl) 28) sid).

Definition read_link_payload (i : LinkInline) : reader ReplicatedLink :=
  rd! source <- (if li_p_object i =? 0 then r_ret (replicate 16 0, EmptyString) else read_dsname);
  rd! target <- (if li_p_val i =? 0 then r_ret (replicate 16 0, []) else read_target (li_val_len i));
  r_ret (mkReplicatedLink source.1 (li_attr_id i) target.1 target.2 (li_present i) (am_version (li_meta i))
           (am_originating_time (li_meta i)) (am_originating_dsa (li_meta i)) (am_originating_usn (li_meta i))).

Definition parse_linked_values (count : nat) : reader (list ReplicatedLink) :=
  rd! _ <- r_u32;
  rd! _ <- r_align 8;
  rd! inline <- r_repeat count read_link_record;
  r_each read_link_payload inline.

Definition parse_reply : reader ReplicatedChanges :=
  rd! v <- r_u32;
  if negb (v =? 6) then r_fail else
  rd! v <- r_u32;
  if negb (v =? 6) then r_fail else
  rd! _ <- r_take 16;
  rd! src <- r_take 16;
  rd! p_nc <- r_u32;
  rd! _ <- r_align 8;
  rd! _ <- r_take 24;
  rd! usnvec_to <- r_take 24;
  rd! p_uptodate <- r_u32;
  rd! prefix_count <- r_u32;
  rd! p_prefix <- r_u32;
  rd! err <- r_u32;
  rd! num_objects <- r_u32;
  rd! _ <- r_u32;
  rd! p_objects <- r_u32;
  rd! more <- r_u32;
  rd! _ <- r_u32;
  rd! _ <- r_u32;
  rd! num_values <- r_u32;
  rd! p_values <- r_u32;
  rd! _ <- r_u32;
  rd! _ <- (if p_nc =? 0 then r_ret ([], EmptyString) else read_dsname);
  rd! _ <- (if p_uptodate =? 0 then r_ret () else skip_uptodate_vector);
  rd! _ <- (if p_prefix =? 0 then r_ret () else skip_prefix_table (Z.to_nat prefix_count));
  rd! objs <- (if negb (p_objects =? 0) && (0 <? num_objects) then parse_replentinflist (Z.to_nat num_objects) else r_ret []);
  rd! ls <- (if negb (p_values =? 0) && (0 <? num_values) then parse_linked_values (Z.to_nat num_values) else r_ret []);
  r_ret (mkReplicatedChanges src (from_le_bytes_i64 (take 8 usnvec_to)) (negb (more =? 0)) objs ls err).

Definition parse_get_nc_changes_reply (reply : bytes) : option ReplicatedChanges := fst <$> parse_reply reply 0%nat.

(** ** Well-formed messages *)

(** A name of a valid string whose units are counted by a [u32]. *)
Definition name_ok (nm : string) : Prop := is_str nm = true /\ len (encode_utf16 nm) < 2 ^ 32.
Definition value_ok (v : bytes) : Prop := len v < 2 ^ 32.
Definition attr_ok (a : ReplAttr) : Prop := is_u32 (attid a) /\ len (values a) < 2 ^ 32 /\ Forall value_ok (values a).
Definition meta_ok (m : AttrMetadata) : Prop :=
  is_u32 (am_version m) /\ is_i64 (am_originating_time m) /\ length (am_originating_dsa m) = 16%nat /\ is_i64 (am_originating_usn m).
Definition object_ok (dsa : bytes) (o : ReplObject) : Prop :=
  length (ro_guid o) = 16%nat /\ name_ok (ro_name o) /\ len (ro_attrs o) < 2 ^ 32 /\ Forall attr_ok (ro_attrs o) /\
  meta_ok (served_meta dsa (ro_usn o) (ro_meta o)).
Definition link_ok (dsa : bytes) (l : LinkVal) : Prop :=
  length (lv_source_guid l) = 16%nat /\ name_ok (lv_source_dn l) /\ length (lv_target_guid l) = 16%nat /\
  len (target_blob l) < 2 ^ 32 /\ meta_ok (served_meta dsa 0 (lv_meta l)).

(** What the decoder makes of an object and of a link. *)
Definition received_attr (m : AttrMetadata) (a : ReplAttr) : ReplicatedAttr := mkReplicatedAttr (attid a) (values a) (Some m).
Definition received_object (dsa : bytes) (o : ReplObject) : ReplicatedObject :=
  mkReplicatedObject (ro_guid o) (ro_name o) (map (received_attr (served_meta dsa (ro_usn o) (ro_meta o))) (ro_attrs o)).
Definition received_link (dsa : bytes) (l : LinkVal) : ReplicatedLink :=
  let m := served_meta dsa 0 (lv_meta l) in
  mkReplicatedLink (lv_source_guid l) LINK_ATTR_MEMBER (lv_target_guid l) (take 28 (lv_target_sid l)) (lv_present l)
    (am_version m) (am_originating_time m) (am_originating_dsa m) (am_originating_usn m).

(** The referents an object takes. *)
Definition attr_refs (a : ReplAttr) : nat := (1 + length (values a))%nat.
Definition object_refs (o : ReplObject) : nat := (4 + sum_list_with attr_refs (ro_attrs o))%nat.

(** ** Round trips *)

Lemma u32_is z : is_u32 (u32 z).
Proof. unfold is_u32, u32. apply Z.mod_pos_bound. lia. Qed.

Lemma len32_small {X} (l : list X) : len l < 2 ^ 32 -> len32 l = len l /\ Z.to_nat (len32 l) = length l.
Proof. intros H. unfold len32, u32, len in *. rewrite Z.mod_small by lia. lia. Qed.

#[local] Hint Resolve u32_is : ndr.

Ltac u32_side := first [ apply u32_is | unfold is_u32; lia | split; vm_compute; congruence ].
Tactic Notation "f_u32" := field (apply decodes_u32; u32_side).
Tactic Notation "f_ref" := field (apply decodes_referent).
Tactic Notation "f_align" := field (by apply decodes_align).

Lemma sid_buf_length sid : length (sid_buf sid) = 28%nat.
Proof. unfold sid_buf. rewrite length_app, length_take, length_replicate. lia. Qed.

Lemma units_decode pre l : Forall is_u16 l ->
  decodes pre 0 (w_each (fun c => lift (w_u16 c)) l) (r_repeat (length l) r_u16) (fun x p => x = l /\ True).
Proof.
  intros Hl. apply decodes_weaken. eapply decodes_mono.
  - apply (decodes_repeat anywhere (fun _ => 0%nat) _ _ (fun x a => a = x)); [done|]. intros c Hc.
    eapply decodes_mono; [apply decodes_u16|done|by intros a p [-> _]].
    rewrite Forall_forall in Hl. by apply Hl, list_elem_of_In.
  - by rewrite sum_list_with_0.
  - intros a p [H _]. split; [by apply Forall2_eq_r|done].
Qed.

Lemma dsname_decodes pre g sid nm : length g = 16%nat -> name_ok nm ->
  decodes pre 0 (encode_dsname g sid nm) read_dsname (fun x p => x = (g, nm) /\ aligned 4 p).
Proof.
  intros Hg [Hs Hn]. unfold encode_dsname, read_dsname. cbv zeta.
  eapply decodes_mono; [| |intros a p H; exact H].
  { f_u32. f_u32.
    field (apply decodes_u32; unfold is_u32, sid_len; lia).
    field (by apply decodes_bytes). field (apply decodes_bytes, sid_buf_length).
    f_u32. rewrite (proj2 (len32_small _ Hn)).
    field (by apply units_decode, encode_utf16_u16). field (apply decodes_u16; unfold is_u16; lia).
    last_field (by apply decodes_align). apply decodes_return. intros p Hp. by rewrite utf16_round_trip. }
  simpl. lia.
Qed.

(** *** Metadata *)

Definition metadata_bytes (m : AttrMetadata) : bytes :=
  to_le_bytes 4 (am_version m) ++ replicate 4 0 ++ to_le_bytes 8 (am_originating_time m) ++ am_originating_dsa m
  ++ to_le_bytes 8 (am_originating_usn m).

Lemma metadata_bytes_length m : meta_ok m -> length (metadata_bytes m) = 40%nat.
Proof. intros (_ & _ & Hd & _). unfold metadata_bytes. by rewrite !length_app, !to_le_bytes_length, Hd. Qed.

Lemma encode_metadata_aligned m st : aligned 8 (length st.2) -> encode_metadata m st = lift (w_bytes (metadata_bytes m)) st.
Proof.
  intros Ha%aligned_8_4. unfold encode_metadata, w_seq, lift, w_bytes, metadata_bytes. destruct st as [ref buf]. simpl in *.
  rewrite !w_u32_aligned; [|done|].
  - by rewrite <- !app_assoc.
  - rewrite w_u32_aligned by done. rewrite length_app, to_le_bytes_length. by apply aligned_add.
Qed.

Lemma metadata_of_bytes m : meta_ok m -> metadata_of (metadata_bytes m) = m.
Proof.
  intros (Hv & Ht & Hd & Hu). unfold metadata_of, metadata_bytes.
  rewrite (take_app_length' _ _ 4) by (by rewrite to_le_bytes_length).
  rewrite (app_assoc (to_le_bytes 4 _)), (drop_app_length' _ _ 8) by (by rewrite length_app, to_le_bytes_length).
  rewrite (take_app_length' _ _ 8) by (by rewrite to_le_bytes_length).
  rewrite (app_assoc _ (to_le_bytes 8 _)), (drop_app_length' _ _ 16) by (by rewrite !length_app, !to_le_bytes_length).
  rewrite (take_app_length' _ _ 16) by done.
  rewrite (app_assoc _ (am_originating_dsa m)), (drop_app_length' _ _ 32) by (by rewrite !length_app, !to_le_bytes_length, Hd).
  rewrite take_ge by (by rewrite to_le_bytes_length).
  rewrite from_to_le_bytes, !from_to_le_bytes_i64 by done. by destruct m.
Qed.

Lemma metadata_decodes m : meta_ok m ->
  decodes (aligned 8) 0 (encode_metadata m) (r_take 40) (fun e p => metadata_of e = m /\ aligned 8 p).
Proof.
  intros Hm. eapply decodes_eq; [apply encode_metadata_aligned|].
  eapply decodes_mono; [apply decodes_bytes; by apply metadata_bytes_length|done|].
  intros e p [-> (q & Hq & ->)]. split; [by apply metadata_of_bytes|]. by apply aligned_add.
Qed.

Lemma metadata_vector_decodes pre n m : meta_ok m -> Z.of_nat n < 2 ^ 32 ->
  decodes pre 0 (encode_metadata_vector n m) parse_metadata_vector (fun x p => x = replicate n m /\ aligned 4 p).
Proof.
  intros Hm Hn. unfold encode_metadata_vector, parse_metadata_vector.
  assert (Z.to_nat (u32 (Z.of_nat n)) = n) as En by (unfold u32; rewrite Z.mod_small; lia).
  eapply decodes_mono; [| |intros a p H; exact H].
  { f_u32. f_align. f_u32. rewrite En. f_align.
    eapply decodes_mono; [apply (decodes_repeat (aligned 8) (fun _ => 0%nat) _ _ (fun _ a => a = m))| |].
    - by rewrite length_replicate.
    - intros [] _. eapply decodes_tail; [by apply metadata_decodes|]. intros e. apply decodes_return. by intros p [-> Hp].
    - by rewrite sum_list_with_0.
    - intros l p [H Hp]. split; [|by apply aligned_8_4].
      clear -H. revert l H. induction n as [|n IH]; intros l H; inversion H; subst; [done|]. cbn [replicate]. f_equal. by apply IH. }
  simpl. lia.
Qed.

(** *** Objects *)

Lemma value_decodes v : value_ok v ->
  decodes (aligned 4) 0 (encode_value v) (read_value (length v)) (fun x p => x = v /\ aligned 4 p).
Proof.
  intros Hv. unfold encode_value, read_value. eapply decodes_mono; [| |intros a p H; exact H].
  { f_u32. rewrite (proj2 (len32_small _ Hv)), Nat.eqb_refl. cbn [negb].
    field (by apply decodes_bytes). last_field (by apply decodes_align). by apply decodes_return. }
  simpl. lia.
Qed.

Lemma attr_desc_decodes a : attr_ok a ->
  decodes (aligned 4) 1 (encode_attr_desc a) read_attr_desc
    (fun d p => (exists ref, ref <> 0 /\ d = (attid a, length (values a), ref)) /\ aligned 4 p).
Proof.
  intros (Ha & Hl & _). unfold encode_attr_desc, read_attr_desc. eapply decodes_mono; [| |intros d p H; exact H].
  { field (by apply decodes_u32). f_u32. last_field (apply decodes_referent). apply decodes_return.
    intros p [Hx Hp]. split; [|done]. exists x. split; [done|]. by rewrite (proj2 (len32_small _ Hl)). }
  simpl. lia.
Qed.

Lemma sum_list_with_1 {X} (l : list X) : sum_list_with (fun _ => 1%nat) l = length l.
Proof. induction l; simpl; lia. Qed.

Lemma lens_decode vs : Forall value_ok vs ->
  decodes (aligned 4) (length vs) (w_each (fun v : bytes => lift (w_u32 (len32 v)) ;; referent) vs)
    (r_repeat (length vs) (rd! val_len <- r_u32; rd! _ <- r_u32; r_ret (Z.to_nat val_len)))
    (fun lens p => Forall2 (fun v n => n = length v) vs lens /\ aligned 4 p).
Proof.
  intros Hvs. eapply decodes_mono; [apply (decodes_repeat _ (fun _ => 1%nat) _ _ (fun v n => n = length v)); [done|]| |].
  - intros v Hin. eapply decodes_mono; [| |intros n p H; exact H].
    + f_u32. last_field (apply decodes_referent). apply decodes_return. intros p [_ Hp]. split; [|done].
      apply len32_small. rewrite Forall_forall in Hvs. by apply Hvs, list_elem_of_In.
    + simpl. lia.
  - by rewrite sum_list_with_1.
  - done.
Qed.

Lemma values_decode vs lens : Forall value_ok vs -> Forall2 (fun v n => n = length v) vs lens ->
  decodes (aligned 4) 0 (w_each encode_value vs) (r_each read_value lens) (fun out p => out = vs /\ aligned 4 p).
Proof.
  intros Hvs Hl. eapply decodes_mono; [apply (decodes_each _ (fun _ => 0%nat) _ _ _ (fun v a => a = v) _ _ Hl)| |].
  - intros v n Hin ->. apply value_decodes. rewrite Forall_forall in Hvs. by apply Hvs, list_elem_of_In.
  - by rewrite sum_list_with_0.
  - intros out p [H Hp]. split; [by apply Forall2_eq_r|done].
Qed.

Definition bare_attr (a : ReplAttr) : ReplicatedAttr := mkReplicatedAttr (attid a) (values a) None.

Lemma attr_values_decode a ref : attr_ok a -> ref <> 0 ->
  decodes (aligned 4) (length (values a)) (encode_attr_values a) (read_attr (attid a, length (values a), ref))
    (fun x p => x = bare_attr a /\ aligned 4 p).
Proof.
  intros (_ & Hl & Hv) Hr. unfold encode_attr_values, read_attr. rewrite (proj2 (Z.eqb_neq _ _) Hr).
  eapply decodes_mono; [| |intros d p H; exact H].
  { f_u32. rewrite (proj2 (len32_small _ Hl)), Nat.eqb_refl. cbn [negb].
    field (by apply lens_decode). apply decodes_given. intros Hf.
    last_field (by apply values_decode). by apply decodes_return. }
  simpl. lia.
Qed.

Lemma attr_descs_decode l : Forall attr_ok l ->
  decodes (aligned 4) (length l) (w_each encode_attr_desc l) (r_repeat (length l) read_attr_desc)
    (fun ds p => Forall2 (fun a d => exists ref, ref <> 0 /\ d = (attid a, length (values a), ref)) l ds /\ aligned 4 p).
Proof.
  intros Hl. eapply decodes_mono; [apply (decodes_repeat _ (fun _ => 1%nat)); [done|]| |].
  - intros a Hin. apply attr_desc_decodes. rewrite Forall_forall in Hl. by apply Hl, list_elem_of_In.
  - by rewrite sum_list_with_1.
  - done.
Qed.

Lemma attrs_decode l ds : Forall attr_ok l ->
  Forall2 (fun a d => exists ref, ref <> 0 /\ d = (attid a, length (values a), ref)) l ds ->
  decodes (aligned 4) (sum_list_with (fun a => length (values a)) l) (w_each encode_attr_values l) (r_each read_attr ds)
    (fun out p => out = map bare_attr l /\ aligned 4 p).
Proof.
  intros Hl Hd. eapply decodes_mono; [apply (decodes_each _ (fun a => length (values a)) _ _ _ (fun a x => x = bare_attr a) _ _ Hd)|done|].
  - intros a d Hin (ref & Hr & ->). apply attr_values_decode; [|done]. rewrite Forall_forall in Hl. by apply Hl, list_elem_of_In.
  - intros out p [H Hp]. split; [|done]. clear -H. induction H; simpl; congruence.
Qed.

Lemma stamp_attrs m l : map stamp_attr (combine (map bare_attr l) (replicate (length l) m)) = map (received_attr m) l.
Proof. induction l as [|a l IH]; [done|]. cbn [map length replicate combine]. by rewrite IH. Qed.

Lemma sum_refs l : sum_list_with (fun a => (1 + length (values a))%nat) l = (length l + sum_list_with (fun a => length (values a)) l)%nat.
Proof. induction l as [|a l IH]; [done|]. simpl in *. lia. Qed.

Lemma payload_decodes dsa o ref : object_ok dsa o -> ref <> 0 ->
  decodes (aligned 4) (object_refs o) (encode_payload dsa o) (parse_object_payload (length (ro_attrs o), 0, ref))
    (fun x p => x = received_object dsa o /\ aligned 4 p).
Proof.
  intros (Hg & Hn & Hl & Ha & Hm) Hr. unfold encode_payload, parse_object_payload. cbv iota beta.
  eapply decodes_mono; [| |intros d p H; exact H].
  { field (by apply dsname_decodes). f_u32. rewrite (proj2 (len32_small _ Hl)), Nat.eqb_refl. cbn [negb].
    field (by apply attr_descs_decode). apply decodes_given. intros Hd.
    field (by apply attrs_decode). apply (decodes_read _ _ _ _ _ (fun _ => aligned 4)); [by apply decodes_return|]. intros _.
    rewrite (proj2 (Z.eqb_neq _ _) Hr).
    apply (decodes_tail _ _ _ _ _ (fun ats p => ats = attrs (received_object dsa o) /\ aligned 4 p)).
    - last_field (apply metadata_vector_decodes; [done|]; unfold len in Hl; lia). apply decodes_return. intros p Hp.
      rewrite length_replicate, length_map, Nat.eqb_refl. split; [apply stamp_attrs|done].
    - intros ats. apply decodes_given. intros ->. by apply decodes_return. }
  unfold object_refs, attr_refs. rewrite sum_refs. simpl. lia.
Qed.

Lemma next_decodes pre (more : bool) : decodes pre 1 (if more then referent else lift (w_u32 0)) r_u32 (fun _ => aligned 4).
Proof.
  destruct more; (eapply decodes_mono; [apply decodes_referent || by apply decodes_u32|lia|by intros a p [_ H]]).
Qed.

Lemma node_decodes x : len (ro_attrs x.1) < 2 ^ 32 ->
  decodes (aligned 4) 4 (encode_node x) read_node
    (fun d p => (exists ref, ref <> 0 /\ d = (length (ro_attrs x.1), 0, ref)) /\ aligned 4 p).
Proof.
  destruct x as [o more]. simpl. intros Hl. unfold read_node. eapply decodes_mono; [| |intros d p H; exact H].
  { field (apply next_decodes). f_ref. f_u32. f_u32. f_ref. f_u32. f_u32. last_field (apply decodes_referent). apply decodes_return.
    intros p [Hx Hp]. split; [|done]. rewrite (proj2 (len32_small _ Hl)). by eexists. }
  simpl. lia.
Qed.

Lemma with_more_fst {X} (l : list X) : map fst (with_more l) = l.
Proof. induction l as [|x [|y l] IH]; [done|done|]. cbn [with_more map fst] in *. by rewrite IH. Qed.

Lemma nodes_decode dsa objs : Forall (object_ok dsa) objs ->
  decodes (aligned 4) (4 * length objs) (w_each encode_node (with_more objs)) (r_repeat (length objs) read_node)
    (fun ns p => Forall2 (fun o d => exists ref, ref <> 0 /\ d = (length (ro_attrs o), 0, ref)) objs ns /\ aligned 4 p).
Proof.
  intros Ho. eapply decodes_mono; [apply (decodes_repeat _ (fun _ => 4%nat) _ _ (fun x d => exists ref, ref <> 0 /\ d = (length (ro_attrs x.1), 0, ref)))| |].
  - rewrite <- (with_more_fst objs) at 1. apply length_map.
  - intros x Hin. apply node_decodes. apply (in_map fst) in Hin. rewrite with_more_fst in Hin.
    rewrite Forall_forall in Ho. apply list_elem_of_In, Ho in Hin as (_ & _ & H & _). done.
  - rewrite <- (with_more_fst objs) at 2. rewrite length_map. induction (with_more objs); simpl in *; lia.
  - intros ns p [H Hp]. split; [|done]. rewrite <- (with_more_fst objs). clear -H. induction H; simpl; by constructor.
Qed.

Lemma Forall2_rev {X Y} (R : X -> Y -> Prop) l k : Forall2 R l k -> Forall2 R (rev l) (rev k).
Proof. induction 1; simpl; [done|]. apply Forall2_app; auto. Qed.

Lemma objects_decode dsa objs : Forall (object_ok dsa) objs ->
  decodes (aligned 4) (4 * length objs + sum_list_with object_refs (rev objs))
    (w_each encode_node (with_more objs) ;; w_each (encode_payload dsa) (rev objs)) (parse_replentinflist (length objs))
    (fun out p => out = map (received_object dsa) objs /\ aligned 4 p).
Proof.
  intros Ho. unfold parse_replentinflist. apply (decodes_bind _ _ _ _ _ _ _ _ _ (nodes_decode dsa objs Ho)).
  intros ns. apply decodes_given. intros Hns. eapply decodes_tail.
  - apply (decodes_each _ object_refs _ _ (fun o d => exists ref, ref <> 0 /\ d = (length (ro_attrs o), 0, ref)) (fun o x => x = received_object dsa o)).
    + by apply Forall2_rev.
    + intros o d Hin (ref & Hr & ->). apply payload_decodes; [|done]. rewrite Forall_forall in Ho. by apply Ho, list_elem_of_In, in_rev.
  - intros out. apply decodes_return. intros p [H Hp]. split; [|done]. rewrite <- (rev_involutive objs), map_rev at 1.
    f_equal. clear -H. induction H; simpl; congruence.
Qed.

(** *** Linked values *)

Definition link_inline (dsa : bytes) (l : LinkVal) (i : LinkInline) : Prop :=
  li_p_object i <> 0 /\ li_attr_id i = LINK_ATTR_MEMBER /\ li_val_len i = length (target_blob l) /\ li_p_val i <> 0 /\
  li_present i = lv_present l /\ li_meta i = served_meta dsa 0 (lv_meta l).

(** Whole words keep the alignment. *)
Lemma decodes_words (l : bytes) : (length l mod 8 = 0)%nat ->
  decodes (aligned 8) 0 (lift (w_bytes l)) (r_take (length l)) (fun x p => x = l /\ aligned 8 p).
Proof.
  intros Hl. eapply decodes_mono; [by apply decodes_bytes|done|]. intros x p [-> (q & Hq & ->)].
  split; [done|]. by apply aligned_add.
Qed.

Lemma link_record_decodes dsa l : link_ok dsa l ->
  decodes (aligned 8) 2 (encode_link_record dsa l) read_link_record (fun i p => link_inline dsa l i /\ aligned 8 p).
Proof.
  intros (_ & _ & _ & Hb & Hm). unfold encode_link_record, read_link_record. cbv zeta.
  eapply decodes_mono; [| |intros d p H; exact H].
  { f_ref. apply decodes_given. intros Hx. f_u32. f_u32. f_ref. apply decodes_given. intros Hx0.
    field (apply decodes_u32; unfold is_u32; destruct (lv_present l); lia). f_align.
    field (apply (decodes_words (to_le_bytes 8 _)); by rewrite to_le_bytes_length).
    last_field (by apply metadata_decodes). apply decodes_return. intros p Hp. split; [|done].
    unfold link_inline. simpl. rewrite (proj2 (len32_small _ Hb)). by destruct (lv_present l). }
  simpl. lia.
Qed.

Definition blob_tail (l : LinkVal) : bytes :=
  to_le_bytes 4 (len (encode_utf16 (lv_target_dn l))) ++ flat_map (to_le_bytes 2) (encode_utf16 (lv_target_dn l)) ++ to_le_bytes 2 0.

Lemma sid_buf_take sid : take (sid_len sid) (sid_buf sid) = take 28 sid.
Proof.
  unfold sid_len, sid_buf. destruct (le_lt_dec (length sid) 28).
  - rewrite Nat.min_l, (take_ge sid 28) by lia. by rewrite take_app_length.
  - rewrite Nat.min_r by lia. rewrite take_app_le by (rewrite length_take; lia). by rewrite take_take, Nat.min_id.
Qed.

(** The blob in the pieces that the decoder reads. *)
Definition blob_writer (l : LinkVal) : rwriter :=
  lift (w_bytes (to_le_bytes 4 (u32 (56 + 2 * (len (encode_utf16 (lv_target_dn l)) + 1))))) ;;
  lift (w_bytes (to_le_bytes 4 (Z.of_nat (sid_len (lv_target_sid l))))) ;;
  lift (w_bytes (lv_target_guid l)) ;;
  lift (w_bytes (sid_buf (lv_target_sid l))) ;;
  lift (w_bytes (blob_tail l)) ;;
  lift (w_align 4).

Lemma blob_writer_eq l st : (lift (w_bytes (target_blob l)) ;; lift (w_align 4)) st = blob_writer l st.
Proof.
  unfold blob_writer, w_seq, lift, w_bytes, target_blob, encode_flat_dsname_sid, blob_tail. cbn [fst snd].
  rewrite (to_le_bytes_wrap 4 (56 + _)). change (256 ^ Z.of_nat 4) with (2 ^ 32). fold (u32 (56 + 2 * (len (encode_utf16 (lv_target_dn l)) + 1))).
  by rewrite !app_assoc.
Qed.

Lemma blob_tail_length l : length (lv_target_guid l) = 16%nat -> (length (target_blob l) - 52 = length (blob_tail l))%nat.
Proof.
  intros Hg. unfold target_blob, encode_flat_dsname_sid, blob_tail. rewrite !length_app, !to_le_bytes_length, Hg, sid_buf_length. lia.
Qed.

Lemma target_decodes l : length (lv_target_guid l) = 16%nat -> len (target_blob l) < 2 ^ 32 ->
  decodes (aligned 4) 0
    (lift (w_u32 (len32 (target_blob l))) ;; lift (w_bytes (target_blob l)) ;; lift (w_align 4)) (read_target (length (target_blob l)))
    (fun x p => x = (lv_target_guid l, take 28 (lv_target_sid l)) /\ aligned 4 p).
Proof.
  intros Hg Hb. unfold read_target. eapply decodes_mono; [| |intros d p H; exact H].
  { f_u32. eapply (decodes_read _ _ _ _ _ (fun start p => p = start /\ aligned 4 p)).
    { eapply decodes_mono; [apply decodes_pos|done|]. by intros a p [-> H]. }
    intros start. eapply decodes_eq; [intros st _; apply blob_writer_eq|]. unfold blob_writer.
    field (apply decodes_raw_u32; [apply u32_is|by intros q [_ H]]).
    field (apply decodes_raw_u32; [unfold is_u32, sid_len; lia|]; intros q (q' & (_ & H) & ->); by apply aligned_add).
    field (by apply decodes_bytes). field (apply decodes_bytes, sid_buf_length).
    eapply (decodes_read _ _ _ _ _ (fun here p => here = (start + 52)%nat /\ True)).
    { eapply decodes_mono; [apply decodes_pos|done|]. intros a p [-> (q & (q1 & (q2 & (q3 & (-> & _) & ->) & ->) & ->) & ->)]. lia. }
    intros here. apply decodes_given. intros ->. replace (start + 52 - start)%nat with 52%nat by lia.
    field (apply decodes_bytes; by rewrite blob_tail_length). last_field (by apply decodes_align).
    apply decodes_return. intros p Hp. split; [|done]. f_equal. rewrite Nat2Z.id, Nat.min_l by (unfold sid_len; lia). apply sid_buf_take. }
  simpl. lia.
Qed.

Lemma link_payload_decodes dsa l i : link_ok dsa l -> link_inline dsa l i ->
  decodes (aligned 4) 0 (encode_link_payload l) (read_link_payload i) (fun x p => x = received_link dsa l /\ aligned 4 p).
Proof.
  intros (Hs & Hn & Ht & Hb & Hm) (Ho & Ea & El & Hv & Ep & Em). unfold encode_link_payload, read_link_payload.
  rewrite (proj2 (Z.eqb_neq _ _) Ho), (proj2 (Z.eqb_neq _ _) Hv), El. eapply decodes_mono; [| |intros d p H; exact H].
  { field (by apply dsname_decodes). last_field (by apply target_decodes). apply decodes_return. intros p Hp. split; [|done].
    unfold received_link. simpl. by rewrite Ea, Ep, Em. }
  simpl. lia.
Qed.

Lemma links_decode dsa ls : Forall (link_ok dsa) ls -> len ls < 2 ^ 32 ->
  decodes (aligned 4) (2 * length ls)
    (lift (w_u32 (len32 ls)) ;; lift (w_align 8) ;; w_each (encode_link_record dsa) ls ;; w_each encode_link_payload ls)
    (parse_linked_values (length ls)) (fun out p => out = map (received_link dsa) ls /\ aligned 4 p).
Proof.
  intros Hls Hl. unfold parse_linked_values. eapply decodes_mono; [| |intros d p H; exact H].
  { f_u32. f_align. rewrite Forall_forall in Hls.
    field (apply (decodes_repeat (aligned 8) (fun _ => 2%nat) _ _ (link_inline dsa)); [done|];
           intros l Hin; by apply link_record_decodes, Hls, list_elem_of_In).
    apply decodes_given. intros Hi. eapply decodes_pre; [apply aligned_8_4|].
    eapply decodes_mono; [apply (decodes_each _ (fun _ => 0%nat) _ _ _ (fun l x => x = received_link dsa l) _ _ Hi)|reflexivity|].
    - intros l i Hin. apply link_payload_decodes. by apply Hls, list_elem_of_In.
    - intros out p [H Hp]. split; [|done]. clear -H. induction H; simpl; congruence. }
  rewrite sum_list_with_0. assert (forall l : list LinkVal, sum_list_with (fun _ => 2%nat) l = (2 * length l)%nat) as -> by (induction l; simpl in *; lia).
  simpl. lia.
Qed.

(** *** The reply *)

Lemma uptodate_decodes pre inv high : length inv = 16%nat ->
  decodes pre 0 (encode_uptodate_vector inv high) skip_uptodate_vector (fun _ => aligned 4).
Proof.
  intros Hi. unfold encode_uptodate_vector, skip_uptodate_vector. eapply decodes_mono; [| |intros d p H; exact H].
  { f_u32. f_align. f_u32. f_u32. f_u32. f_u32. f_align.
    set (cur := inv ++ to_le_bytes 8 high ++ replicate 8 0).
    assert (length cur = 32%nat) as Hc by (unfold cur; by rewrite !length_app, to_le_bytes_length, Hi).
    apply (decodes_eq _ _ _ (lift (w_bytes cur))).
    { intros st _. unfold w_seq, lift, w_bytes, cur. cbn [fst snd]. by rewrite !app_assoc. }
    change (Z.to_nat 1) with 1%nat. cbn [r_repeat].
    apply (decodes_tail _ _ _ _ _ (fun _ => aligned 4)); [|intros []; by apply decodes_return].
    rewrite <- Hc. last_field (apply (decodes_words cur); by rewrite Hc). 
    apply (decodes_read _ _ _ _ _ (fun _ => aligned 8)); [by apply decodes_return|]. intros rest. apply decodes_return, aligned_8_4. }
  simpl. lia.
Qed.

Lemma skip_prefix_table_stable n : stable (skip_prefix_table n).
Proof.
  assert (stable skip_prefix_entry) as He.
  { repeat (apply stable_bind; [apply stable_u32|]; intros ?). apply stable_ret. }
  assert (forall e, stable (skip_prefix_elements e)) as Hs.
  { intros e. unfold skip_prefix_elements. destruct (e.2 =? 0); [apply stable_ret|].
    apply stable_bind; [apply stable_u32|]. intros _. apply stable_bind; [apply stable_take|]. intros _. apply stable_align4. }
  apply stable_bind; [apply stable_u32|]. intros _. apply stable_bind; [by apply stable_repeat|]. intros es.
  apply stable_bind; [by apply stable_each|]. intros _. apply stable_ret.
Qed.

Lemma prefix_table_decodes :
  decodes (aligned 4) 0 encode_prefix_table (skip_prefix_table (Z.to_nat PREFIX_TABLE_COUNT)) (fun _ => aligned 4).
Proof.
  apply decodes_wskip.
  { intros [ref buf] H. unfold lift. simpl in *. by rewrite w_align_aligned. }
  eapply decodes_mono; [apply (decodes_stable _ _ _ ()); [apply skip_prefix_table_stable|done|vm_compute; reflexivity]|done|].
  intros [] p [_ (q & Hq & ->)]. by apply aligned_add.
Qed.

Lemma usn_vector_take high : is_i64 high -> from_le_bytes_i64 (take 8 (usn_vector high)) = high.
Proof.
  intros H. unfold usn_vector. rewrite (take_app_length' _ _ 8) by (by rewrite to_le_bytes_length). by apply from_to_le_bytes_i64.
Qed.

(** The referents of the two deferred payloads stay below [2 ^ 32]. *)
Definition refs_ok (objs : list ReplObject) (ls : list LinkVal) : Prop :=
  0x30000 + 4 * Z.of_nat (4 * length objs + sum_list_with object_refs (rev objs)) < 2 ^ 32 /\
  0x40000 + 4 * Z.of_nat (2 * length ls) < 2 ^ 32.

Lemma refs_ok_len objs ls : refs_ok objs ls -> len objs < 2 ^ 32 /\ len ls < 2 ^ 32.
Proof. unfold refs_ok, len. lia. Qed.

Lemma objects_part inv objs ls : Forall (object_ok inv) objs -> refs_ok objs ls ->
  decodes (aligned 4) 0 (lift (match objs with [] => fun buf => buf | _ => encode_objects objs inv end))
    (if negb (match objs with [] => 0 | _ => 0x20004 end =? 0) && (0 <? len32 objs)
     then parse_replentinflist (Z.to_nat (len32 objs)) else r_ret [])
    (fun out p => out = map (received_object inv) objs /\ aligned 4 p).
Proof.
  intros Ho Hr. destruct (refs_ok_len _ _ Hr) as [Hl _]. destruct (len32_small _ Hl) as [E1 ->]. rewrite E1.
  destruct objs as [|o objs']; [apply (decodes_eq _ _ _ w_nop); [by intros []|by apply decodes_return]|].
  rewrite (proj2 (Z.ltb_lt _ _)) by (unfold len; simpl; lia). cbn [Z.eqb negb andb].
  eapply decodes_refs; [done| |by apply objects_decode]. apply Hr.
Qed.

Lemma links_part inv objs ls : Forall (link_ok inv) ls -> refs_ok objs ls ->
  decodes (aligned 4) 0 (lift (match ls with [] => fun buf => buf | _ => encode_linked_values ls inv end))
    (if negb (match ls with [] => 0 | _ => 0x20008 end =? 0) && (0 <? len32 ls)
     then parse_linked_values (Z.to_nat (len32 ls)) else r_ret [])
    (fun out p => out = map (received_link inv) ls /\ aligned 4 p).
Proof.
  intros Ho Hr. destruct (refs_ok_len _ _ Hr) as [_ Hl]. destruct (len32_small _ Hl) as [E1 ->]. rewrite E1.
  destruct ls as [|l ls']; [apply (decodes_eq _ _ _ w_nop); [by intros []|by apply decodes_return]|].
  rewrite (proj2 (Z.ltb_lt _ _)) by (unfold len; simpl; lia). cbn [Z.eqb negb andb].
  eapply decodes_refs; [done| |by apply links_decode]. apply Hr.
Qed.

Lemma reply_decodes objs ls from to high more inv err :
  length inv = 16%nat -> Forall (object_ok inv) objs -> Forall (link_ok inv) ls -> refs_ok objs ls -> is_i64 to -> is_u32 err ->
  decodes anywhere 0 (encode_reply objs ls from to high more inv err) parse_reply
    (fun x _ => x = mkReplicatedChanges inv to more (map (received_object inv) objs) (map (received_link inv) ls) err).
Proof.
  intros Hi Ho Hls Hr Ht He. unfold encode_reply, parse_reply. eapply decodes_mono; [| |intros d p H; exact H].
  { f_u32. cbn [Z.eqb negb Pos.eqb]. f_u32. cbn [Z.eqb negb Pos.eqb].
    field (by apply decodes_bytes). field (by apply decodes_bytes). f_u32. f_align.
    assert (forall h, length (usn_vector h) = 24%nat) as Hu by (intros h; unfold usn_vector; by rewrite !length_app, !to_le_bytes_length).
    field (apply decodes_bytes, Hu). field (apply decodes_bytes, Hu).
    f_u32. f_u32. f_u32. field (by apply decodes_u32). f_u32. f_u32.
    field (apply decodes_u32; unfold is_u32; destruct objs; lia). field (apply decodes_u32; unfold is_u32; destruct more; lia).
    f_u32. f_u32. f_u32. field (apply decodes_u32; unfold is_u32; destruct ls; lia). f_u32.
    apply (decodes_read _ _ _ _ _ (fun _ => aligned 4)); [by apply decodes_return|]. intros _. cbn [Z.eqb].
    field (by apply uptodate_decodes). field (apply prefix_table_decodes).
    field (by apply (objects_part inv objs ls)). last_field (by apply (links_part inv objs ls)).
    apply decodes_return. intros p Hp. rewrite usn_vector_take by done. by destruct more. }
  simpl. lia.
Qed.

Lemma reply_parses objs ls from to high more inv err :
  length inv = 16%nat -> Forall (object_ok inv) objs -> Forall (link_ok inv) ls -> refs_ok objs ls -> is_i64 to -> is_u32 err ->
  parse_get_nc_changes_reply (write_getncchanges_reply objs ls from to high more inv err) =
  Some (mkReplicatedChanges inv to more (map (received_object inv) objs) (map (received_link inv) ls) err).
Proof.
  intros Hi Ho Hls Hr Ht He. unfold parse_get_nc_changes_reply, write_getncchanges_reply, with_refs.
  destruct (reply_decodes objs ls from to high more inv err Hi Ho Hls Hr Ht He 1 []) as (out & ref' & x & E & _ & -> & Hrd); [done..|].
  rewrite E. unfold w_u32, w_bytes. cbn [snd app]. rewrite w_align_spec by done. rewrite <- app_assoc.
  specialize (Hrd (replicate (pad 4 (length out)) 0 ++ to_le_bytes 4 STATUS_SUCCESS)). cbn [app length] in Hrd. by rewrite Hrd.
Qed.

(** C17: The decoder of a reply to [IDL_DRSGetNCChanges] inverts its encoder: for
    every list of objects and links that the fields of the message can hold it
    returns the identity of the source, the cursor, the flag for more data, each
    object with its attributes under the stamp that it is served with, each link
    value, and the code of the extended operation. *)
Theorem reply_round_trip objs ls from to high more inv err :
  length inv = 16%nat -> Forall (object_ok inv) objs -> Forall (link_ok inv) ls -> refs_ok objs ls -> is_i64 to -> is_u32 err ->
  parse_get_nc_changes_reply (write_getncchanges_reply objs ls from to high more inv err) =
  Some (mkReplicatedChanges inv to more (map (received_object inv) objs) (map (received_link inv) ls) err).
Proof. apply reply_parses. Qed.

Lemma reply_round_trip_witness :
  let inv := replicate 16 7 in
  let o := mkReplObject (replicate 16 3) "CN=a" [1; 2; 0; 0] [mkReplAttr 3 [[97; 0]]; mkReplAttr 5 []] 9 None in
  let l := mkLinkVal (replicate 16 3) [] "CN=g" (replicate 16 4) [1; 1] "CN=a" true None in
  parse_get_nc_changes_reply (write_getncchanges_reply [o; o] [l] 0 9 9 true inv 0) =
  Some (mkReplicatedChanges inv 9 true [received_object inv o; received_object inv o] [received_link inv l] 0).
Proof.
  intros inv o l. apply reply_round_trip.
  - reflexivity.
  - repeat apply Forall_cons_2; try apply Forall_nil_2; unfold object_ok, name_ok, attr_ok, value_ok, meta_ok, is_u32, is_i64; simpl;
      (split_and!; try done; repeat apply Forall_cons_2; try apply Forall_nil_2; split_and!; try done; repeat constructor).
  - apply Forall_cons_2; [|apply Forall_nil_2]. unfold link_ok, name_ok, meta_ok, is_u32, is_i64; simpl; split_and!; done.
  - split; vm_compute; reflexivity.
  - split; vm_compute; congruence.
  - split; vm_compute; congruence.
Defined.
