(* ===== verification/DrsObject.v ===== *)
(** * Replicated objects

    [crates/magnetite-rpc/src/drsuapi.rs]: what a consumer reads from an object
    that [parse_get_nc_changes_reply] decoded ([impl ReplicatedObject]), with the
    parser of [supplementalCredentials].  Attributes are found by their [ATTRTYP];
    each accessor tolerates values that are too short. *)

From S2P Require Import Prelude Bytes RustStr Utf16 RustNet AdDirectory DrsSecret Ndr DrsWire.

Local Open Scope Z_scope.

(** ** Attribute types *)

Definition ATTID_SAMACCOUNTNAME : Z := 0x000900DD.
Definition ATTID_OBJECTSID : Z := 0x00090092.
Definition ATTID_UNICODEPWD : Z := 0x0009005A.
Definition ATTID_OBJECTCLASS : Z := 0x00000000.
Definition ATTID_INSTANCETYPE : Z := 0x00020001.
Definition ATTID_NAME : Z := 0x00090001.
Definition ATTID_CN : Z := 0x00000003.
Definition ATTID_USERACCOUNTCONTROL : Z := 0x00090008.
Definition ATTID_ISDELETED : Z := 0x000901A1.
Definition ATTID_OBJECTCATEGORY : Z := 0x0009030e.
Definition ATTID_NTSECURITYDESCRIPTOR : Z := 0x00020119.
Definition ATTID_DESCRIPTION : Z := 0x0000000D.
Definition ATTID_LDAPDISPLAYNAME : Z := 0x000201CC.
Definition ATTID_ATTRIBUTEID : Z := 0x0002001E.
Definition ATTID_GOVERNSID : Z := 0x00020016.
Definition ATTID_NCNAME : Z := 0x00020010.
Definition ATTID_OMSYNTAX : Z := 0x000200E7.
Definition ATTID_ISSINGLEVALUED : Z := 0x00020021.
Definition ATTID_SEARCHFLAGS : Z := 0x0002014E.
Definition ATTID_SYSTEMFLAGS : Z := 0x00090177.
Definition ATTID_SYSTEMONLY : Z := 0x000900AA.
Definition ATTID_RIDALLOCATIONPOOL : Z := 0x0009015c.
Definition ATTID_RIDAVAILABLEPOOL : Z := 0x00090172.
Definition ATTID_SUPPLEMENTALCREDENTIALS : Z := 0x0009007D.
Definition ATTID_GROUPTYPE : Z := 0x000902EE.

(** ** Conflict order *)

Definition meta_cmp (a b : AttrMetadata) : comparison :=
  pair_cmp (pair_cmp Z.compare Z.compare) bytes_cmp
    (am_version a, am_originating_time a, am_originating_dsa a) (am_version b, am_originating_time b, am_originating_dsa b).

Definition meta_wins_over (a b : AttrMetadata) : bool := match meta_cmp a b with Gt => true | _ => false end.

(** ** Kerberos keys *)

Record KerberosKey := mkKerberosKey { key_type : Z; kerb_key : bytes }.

Definition KERB_ETYPE_AES256 : Z := 18.
Definition KERB_ETYPE_AES128 : Z := 17.

Definition nibble (b : Z) : option Z :=
  if in_range 48 57 b then Some (b - 48)
  else if in_range 97 102 b then Some (b - 97 + 10)
  else if in_range 65 70 b then Some (b - 65 + 10)
  else None.

Fixpoint hex_pairs (hex : bytes) : option bytes :=
  match hex with
  | a :: b :: r =>
      match nibble a, nibble b, hex_pairs r with
      | Some x, Some y, Some l => Some (Z.lor (u8 (Z.shiftl x 4)) y :: l)
      | _, _, _ => None
      end
  | _ => Some []
  end.

Definition hex_decode (hex : bytes) : option bytes :=
  if negb (Nat.even (length hex)) then None else hex_pairs hex.

(** [u16::from_le_bytes([*data.get(pos)?, *data.get(pos + 1)?])] *)
Definition le16_at (data : bytes) (pos : nat) : option Z := from_le_bytes <$> slice_get data pos (pos + 2).
Definition le32_at (data : bytes) (pos : nat) : option Z := from_le_bytes <$> slice_get data pos (pos + 4).

(** [for i in 0..credential_count] *)
Fixpoint read_credentials (blob : bytes) (n i : nat) : option (list KerberosKey) :=
  match n with
  | O => Some []
  | S n' =>
      let base := (24 + i * 24)%nat in
      match slice_get blob base (base + 24) with
      | None => None
      | Some entry =>
          let ktype := from_le_bytes (take 4 (skipn 12 entry)) in
          let klen := Z.to_nat (from_le_bytes (take 4 (skipn 16 entry))) in
          let koff := Z.to_nat (from_le_bytes (take 4 (skipn 20 entry))) in
          match slice_get blob koff (koff + klen), read_credentials blob n' (S i) with
          | Some k, Some rest => Some (mkKerberosKey ktype k :: rest)
          | _, _ => None
          end
      end
  end.

Definition parse_kerb_stored_credential_new (blob : bytes) : option (list KerberosKey) :=
  if (length blob <? 24)%nat then None
  else read_credentials blob (Z.to_nat (from_le_bytes (take 2 (skipn 4 blob)))) 0.

Definition NEWER_KEYS : string := "Primary:Kerberos-Newer-Keys".

(** [for _ in 0..prop_count], from [pos] on *)
Fixpoint find_newer_keys (data : bytes) (n pos : nat) : option (list KerberosKey) :=
  match n with
  | O => None
  | S n' =>
      match le16_at data pos, le16_at data (pos + 2) with
      | Some name_len, Some value_len =>
          let name_start := (pos + 6)%nat in
          let value_start := (name_start + Z.to_nat name_len)%nat in
          match slice_get data name_start value_start with
          | None => None
          | Some nm =>
              match slice_get data value_start (value_start + Z.to_nat value_len) with
              | None => None
              | Some value_hex =>
                  if String.eqb (utf16le_to_string nm) NEWER_KEYS then
                    match hex_decode value_hex with
                    | Some blob => parse_kerb_stored_credential_new blob
                    | None => None
                    end
                  else find_newer_keys data n' (value_start + Z.to_nat value_len)
              end
          end
      | _, _ => None
      end
  end.

Definition parse_supplemental_kerberos_keys (data : bytes) : option (list KerberosKey) :=
  if (length data <? 112)%nat || negb (from_le_bytes (take 2 (skipn 108 data)) =? 0x0050) then None
  else find_newer_keys data (Z.to_nat (from_le_bytes (take 2 (skipn 110 data)))) 112.

(** ** Accessors *)

Definition find_attr (o : ReplicatedObject) (a : Z) : option ReplicatedAttr := find (fun x => ra_attid x =? a) (attrs o).

Definition attr (o : ReplicatedObject) (a : Z) : option bytes :=
  match find_attr o a with Some x => head (ra_values x) | None => None end.

(** A [LARGE_INTEGER]: its low and high halves. *)
Definition halves (v : bytes) : option (Z * Z) :=
  if (length v <? 8)%nat then None
  else let raw := from_le_bytes (take 8 v) in Some (Z.land raw 0xFFFFFFFF, Z.shiftr raw 32).

Definition rid_allocation_pool (o : ReplicatedObject) : option (Z * Z) :=
  match attr o ATTID_RIDALLOCATIONPOOL with
  | Some v =>
      match halves v with
      | Some (first, last) => if first <=? last then Some (first, u32 (last - first + 1)) else None
      | None => None
      end
  | None => None
  end.

Definition rid_available_pool (o : ReplicatedObject) : option (Z * Z) :=
  match attr o ATTID_RIDAVAILABLEPOOL with Some v => halves v | None => None end.

Definition sam_account_name (o : ReplicatedObject) : option string := utf16le_to_string <$> attr o ATTID_SAMACCOUNTNAME.

Definition rid_of_sid (sid : bytes) : option Z :=
  match sid !! 1%nat with
  | Some count =>
      match checked_sub count 1 with
      | Some k => le32_at sid (8 + Z.to_nat k * 4)
      | None => None
      end
  | None => None
  end.

Definition object_rid (o : ReplicatedObject) : option Z :=
  match attr o ATTID_OBJECTSID with Some sid => rid_of_sid sid | None => None end.

Definition object_sid (o : ReplicatedObject) : option bytes := attr o ATTID_OBJECTSID.

Definition user_account_control (o : ReplicatedObject) : option Z :=
  match attr o ATTID_USERACCOUNTCONTROL with Some v => le32_at v 0 | None => None end.

Definition is_disabled (o : ReplicatedObject) : bool :=
  is_some_and (fun uac => negb (Z.land uac 2 =? 0)) (user_account_control o).

Definition is_deleted (o : ReplicatedObject) : bool :=
  is_some_and (existsb (fun b => negb (b =? 0))) (attr o ATTID_ISDELETED)
  || (let nm := to_ascii_lowercase (obj_name o) in
      str_contains ",cn=deleted objects," nm || str_contains "\0adel:" nm
      || str_contains (String (ascii_of_N 10) "del:") nm).

Definition is_group (o : ReplicatedObject) : bool := existsb (fun a => ra_attid a =? ATTID_GROUPTYPE) (attrs o).

Definition dn (o : ReplicatedObject) : string := obj_name o.

(** [&s[..n]] panics inside a character. *)
Definition str_prefix (n : nat) (s : string) : outcome string :=
  if (String.length s <? n)%nat then Panic
  else match String.get n s with
       | Some c => if in_codes 0x80 0xBF c then Panic else Ret (String.substring 0 n s)
       | None => Ret (String.substring 0 n s)
       end.

Local Open Scope outcome_scope.

Definition projected_object_classes (o : ReplicatedObject) : outcome (option (list string)) :=
  let rdn := trim (hd EmptyString (split "," (obj_name o))) in
  let! ou := (if (3 <=? String.length rdn)%nat
              then let! p := str_prefix 3 rdn in Ret (eq_ignore_ascii_case p "OU=")
              else Ret false) in
  Ret (if ou then Some ["top"; "organizationalUnit"]%string
       else if attr o ATTID_ATTRIBUTEID then Some ["top"; "attributeSchema"]%string
       else if attr o ATTID_GOVERNSID then Some ["top"; "classSchema"]%string
       else if attr o ATTID_NCNAME then Some ["top"; "crossRef"]%string
       else None).

Inductive Syn := SynStr | SynInt | SynBool | SynSidHex | SynDn.

Definition TABLE : list (Z * string * Syn) :=
  [ (ATTID_CN, "cn"%string, SynStr);
    (ATTID_NAME, "name"%string, SynStr);
    (ATTID_SAMACCOUNTNAME, "sAMAccountName"%string, SynStr);
    (ATTID_LDAPDISPLAYNAME, "lDAPDisplayName"%string, SynStr);
    (ATTID_DESCRIPTION, "description"%string, SynStr);
    (ATTID_INSTANCETYPE, "instanceType"%string, SynInt);
    (ATTID_USERACCOUNTCONTROL, "userAccountControl"%string, SynInt);
    (ATTID_OMSYNTAX, "oMSyntax"%string, SynInt);
    (ATTID_SEARCHFLAGS, "searchFlags"%string, SynInt);
    (ATTID_SYSTEMFLAGS, "systemFlags"%string, SynInt);
    (ATTID_ISSINGLEVALUED, "isSingleValued"%string, SynBool);
    (ATTID_SYSTEMONLY, "systemOnly"%string, SynBool);
    (ATTID_OBJECTSID, "objectSid"%string, SynSidHex);
    (ATTID_OBJECTCATEGORY, "objectCategory"%string, SynDn) ].

Definition render (syn : Syn) (v : bytes) : option string :=
  match syn with
  | SynStr => Some (utf16le_to_string v)
  | SynInt => if (4 <=? length v)%nat then Some (dec_string (from_le_bytes (take 4 v))) else None
  | SynBool =>
      if (4 <=? length v)%nat then Some (if existsb (fun b => negb (b =? 0)) (take 4 v) then "TRUE"%string else "FALSE"%string) else None
  | SynSidHex => Some (hex_of v)
  | SynDn => decode_dsname_dn v
  end.

Definition ldap_attribute (o : ReplicatedObject) (out : gmap string (list string)) (e : Z * string * Syn) : gmap string (list string) :=
  let '(a, nm, syn) := e in
  match find_attr o a with
  | None => out
  | Some x => match filter_map (render syn) (ra_values x) with [] => out | vs => <[nm := vs]> out end
  end.

Definition ldap_attributes (o : ReplicatedObject) : gmap string (list string) := fold_left (ldap_attribute o) TABLE ∅.

(** [filter_map(metadata).reduce(newer)] *)
Definition newest_metadata (o : ReplicatedObject) : option AttrMetadata :=
  match filter_map ra_metadata (attrs o) with
  | [] => None
  | m :: ms => Some (fold_left (fun acc m => if meta_wins_over m acc then m else acc) ms m)
  end.

Definition attr_metadata (o : ReplicatedObject) (a : Z) : option AttrMetadata :=
  match find_attr o a with Some x => ra_metadata x | None => None end.

Definition secret_metadata (o : ReplicatedObject) : option AttrMetadata := attr_metadata o ATTID_UNICODEPWD.

Section secrets.
Context {DC : DrsCrypto}.

Definition object_nt_hash (session_key : bytes) (o : ReplicatedObject) : option bytes :=
  match attr o ATTID_UNICODEPWD with
  | Some enc =>
      match object_rid o with
      | Some rid => decrypt_unicode_pwd enc rid session_key
      | None => None
      end
  | None => None
  end.

Definition kerberos_keys (session_key : bytes) (o : ReplicatedObject) : list KerberosKey :=
  match attr o ATTID_SUPPLEMENTALCREDENTIALS with
  | None => []
  | Some enc =>
      match drs_decrypt_value session_key enc with
      | None => []
      | Some plain => unwrap_or [] (parse_supplemental_kerberos_keys plain)
      end
  end.
End secrets.
