(* ===== verification/Drs.v ===== *)
(** * The directory replication interface

    [crates/magnetite-rpc/src/drsuapi.rs]: the server side of
    [IDL_DRSGetNCChanges], from the request to the reply, with the authorization
    of the caller; the accessors of a received object; and, from
    [crates/magnetite-rpc/src/client.rs], the request that a consumer sends.

    The messages are those of [DrsWire], secrets are wrapped as in [DrsSecret],
    and the objects come from the [Directory] of [AdDirectory].  A call that may
    hand out a RID pool returns the directory as it leaves it. *)

From S2P Require Import Prelude Bytes RustStr Utf16 RustNet KdcStore Rpc AdDirectory DrsSecret Ndr DrsWire DrsObject.

Local Open Scope Z_scope.
Local Open Scope ndr_scope.

(** ** Constants *)

Definition OP_BIND : Z := 0.
Definition OP_UNBIND : Z := 1.
Definition OP_GET_NC_CHANGES : Z := 3.

Module exop.
Definition NONE : Z := 0.
Definition FSMO_REQ_ROLE : Z := 1.
Definition FSMO_RID_ALLOC : Z := 2.
Definition FSMO_RID_REQ_ROLE : Z := 3.
Definition FSMO_REQ_PDC : Z := 4.
Definition FSMO_ABANDON_ROLE : Z := 5.
Definition REPL_OBJ : Z := 6.
Definition REPL_SECRETS : Z := 7.
End exop.

Inductive ExOpErr := Success | NotOwner | RefusingRoles | Other (code : Z).

Definition from_raw (v : Z) : ExOpErr :=
  if v =? 1 then Success else if v =? 3 then NotOwner else if v =? 0xC then RefusingRoles else Other v.

Definition is_success (e : ExOpErr) : bool := match e with Success => true | _ => false end.

Inductive FsmoRole := Schema | DomainNaming | PdcEmulator | RidMaster | Infrastructure.

Definition role_exop (r : FsmoRole) : Z :=
  match r with
  | RidMaster => exop.FSMO_RID_REQ_ROLE
  | PdcEmulator => exop.FSMO_REQ_PDC
  | Schema | DomainNaming | Infrastructure => exop.FSMO_REQ_ROLE
  end.

Definition object_dn (r : FsmoRole) (domain_nc config_nc : string) : string :=
  match r with
  | Schema => "CN=Schema," +:+ config_nc
  | DomainNaming => "CN=Partitions," +:+ config_nc
  | PdcEmulator => domain_nc
  | RidMaster => "CN=RID Manager$,CN=System," +:+ domain_nc
  | Infrastructure => "CN=Infrastructure," +:+ domain_nc
  end.

Definition DRS_HANDLE : bytes :=
  [0x01; 0x00; 0x00; 0x00; 0x4d; 0x41; 0x47; 0x4e; 0x45; 0x54; 0x49; 0x54; 0x45; 0x44; 0x52; 0x53; 0x48; 0x4e; 0x44; 0x4c].

Definition DEFAULT_REPLICATION_GROUP_RIDS : list Z := [512; 516; 519; 521; 544].

Definition DSA_INVOCATION_ID : bytes :=
  [0x1a; 0x2b; 0x3c; 0x4d; 0x5e; 0x6f; 0x70; 0x81; 0x92; 0xa3; 0xb4; 0xc5; 0xd6; 0xe7; 0xf8; 0x09].

Definition PERSON_CLASS_GUID : bytes :=
  [0x6a; 0xe5; 0x0c; 0x01; 0x63; 0x25; 0x34; 0x4c; 0xbc; 0x55; 0x98; 0x46; 0xf2; 0xb9; 0x29; 0x14].
Definition GROUP_CLASS_GUID : bytes :=
  [0x9c; 0x7a; 0x96; 0xbf; 0xe6; 0x0d; 0xd0; 0x11; 0xa2; 0x85; 0x00; 0xaa; 0x00; 0x30; 0x49; 0xe2].
Definition GROUP_TYPE_GLOBAL_SECURITY : Z := 0x80000002.

(** ** Building objects *)

Definition minimal_security_descriptor : bytes :=
  let sid_system := [1; 1; 0; 0; 0; 0; 0; 5; 18; 0; 0; 0] in
  let sid_everyone := [1; 1; 0; 0; 0; 0; 0; 1; 0; 0; 0; 0] in
  let ace := [0; 0] ++ to_le_bytes 2 (8 + len sid_everyone) ++ to_le_bytes 4 0x000F01FF ++ sid_everyone in
  let dacl := [2; 0] ++ to_le_bytes 2 (8 + len ace) ++ to_le_bytes 2 1 ++ to_le_bytes 2 0 ++ ace in
  let off_dacl := 20 in
  let off_owner := off_dacl + len dacl in
  let off_group := off_owner + len sid_system in
  [1; 0] ++ to_le_bytes 2 0x8004 ++ to_le_bytes 4 off_owner ++ to_le_bytes 4 off_group ++ to_le_bytes 4 0
  ++ to_le_bytes 4 off_dacl ++ dacl ++ sid_system ++ sid_system.

Definition user_object_class : list bytes := map (to_le_bytes 4) [0x000A0009; 0x00010007; 0x00010006; 0x00010000].
Definition group_object_class : list bytes := map (to_le_bytes 4) [0x000A0008; 0x00010000].

Definition user_sid (domain_sid : list Z) (rid : Z) : bytes :=
  let subs := domain_sid ++ [rid] in
  [1; u8 (len subs); 0; 0; 0; 0; 0; 5] ++ flat_map (to_le_bytes 4) subs.

Definition dns_domain_to_nc (dns : string) : string := join "," (map (fun l => "DC=" +:+ l) (split "." dns)).

Definition object_guid (rid : Z) : bytes := to_le_bytes 4 rid ++ replicate 12 0x11.

Definition user_dn (sam nc : string) : string := "CN=" +:+ sam +:+ ",CN=Users," +:+ nc.

Section objects.
Context {DC : DrsCrypto}.

Definition user_attrs (user : User) (domain_nc : string) (domain_sid : list Z) (secret_key : bytes) : list ReplAttr :=
  [ mkReplAttr ATTID_OBJECTCLASS user_object_class;
    mkReplAttr ATTID_INSTANCETYPE [to_le_bytes 4 4];
    mkReplAttr ATTID_NAME [utf16le (user_name user)];
    mkReplAttr ATTID_CN [utf16le (user_name user)];
    mkReplAttr ATTID_USERACCOUNTCONTROL [to_le_bytes 4 0x200];
    mkReplAttr ATTID_SAMACCOUNTNAME [utf16le (user_name user)];
    mkReplAttr ATTID_OBJECTSID [user_sid domain_sid (user_rid user)];
    mkReplAttr ATTID_UNICODEPWD [encrypted_unicode_pwd (user_nt_hash user) (user_rid user) secret_key];
    mkReplAttr ATTID_NTSECURITYDESCRIPTOR [minimal_security_descriptor];
    mkReplAttr ATTID_OBJECTCATEGORY
      [encode_flat_dsname PERSON_CLASS_GUID ("CN=Person,CN=Schema,CN=Configuration," +:+ domain_nc)] ].

Definition build_user_object (user : User) (usn : Z) (domain_nc : string) (domain_sid : list Z) (secret_key : bytes) : ReplObject :=
  mkReplObject (object_guid (user_rid user)) (user_dn (user_name user) domain_nc) (user_sid domain_sid (user_rid user))
    (sort_by_key attid (user_attrs user domain_nc domain_sid secret_key)) (as_i64 usn) (user_repl_meta user).

Definition group_attrs (group : Group) (domain_nc : string) (domain_sid : list Z) : list ReplAttr :=
  [ mkReplAttr ATTID_OBJECTCLASS group_object_class;
    mkReplAttr ATTID_INSTANCETYPE [to_le_bytes 4 4];
    mkReplAttr ATTID_NAME [utf16le (group_name group)];
    mkReplAttr ATTID_CN [utf16le (group_name group)];
    mkReplAttr ATTID_SAMACCOUNTNAME [utf16le (group_name group)];
    mkReplAttr ATTID_OBJECTSID [user_sid domain_sid (group_rid group)];
    mkReplAttr ATTID_GROUPTYPE [to_le_bytes 4 GROUP_TYPE_GLOBAL_SECURITY];
    mkReplAttr ATTID_NTSECURITYDESCRIPTOR [minimal_security_descriptor];
    mkReplAttr ATTID_OBJECTCATEGORY
      [encode_flat_dsname GROUP_CLASS_GUID ("CN=Group,CN=Schema,CN=Configuration," +:+ domain_nc)] ].

Definition build_group_object (group : Group) (usn : Z) (domain_nc : string) (domain_sid : list Z) : ReplObject :=
  mkReplObject (object_guid (group_rid group)) (user_dn (group_name group) domain_nc) (user_sid domain_sid (group_rid group))
    (sort_by_key attid (group_attrs group domain_nc domain_sid)) (as_i64 usn) (group_repl_meta group).
End objects.

(** ** The request, as the server reads it *)

Record ChangeRequest := mkChangeRequest { from : Z; max_objects : Z; ext_op : Z }.

(** [n] bytes at [off], little-endian. *)
Definition le_at (off n : nat) (stub : bytes) : Z := from_le_bytes (take n (skipn off stub)).

Definition parse_change_request (stub : bytes) : ChangeRequest :=
  if (length stub <? 20 + 4)%nat || negb (le_at 20 4 stub =? 8) then mkChangeRequest 0 0 0
  else
    mkChangeRequest
      (if (72 + 24 <=? length stub)%nat then Z.max (le_at 72 8 stub) (le_at (72 + 16) 8 stub) else 0)
      (if (104 + 4 <=? length stub)%nat then le_at 104 4 stub else 0)
      (if (112 + 4 <=? length stub)%nat then le_at 112 4 stub else 0).

(** [l.windows(n)] *)
Definition windows {X} (n : nat) (l : list X) : list (list X) :=
  map (fun i => take n (skipn i l)) (seq 0 (length l + 1 - n)).

Definition utdv_dest_cursor (stub invocation_id : bytes) : option Z :=
  if (length stub <? 64)%nat then None
  else
    let region := skipn 64 stub in
    match position (fun w => bool_decide (w = invocation_id)) (windows 16 region) with
    | Some pos => from_le_bytes <$> slice_get region (pos + 16) (pos + 24)
    | None => None
    end.

(** ** The reply *)

Inductive Cand := CandUser (u : User) | CandGroup (g : Group).

Definition cand_meta (c : Cand) : option ReplMeta :=
  match c with CandUser u => user_repl_meta u | CandGroup g => group_repl_meta g end.

(** [i as u64 + 1] of each position *)
Definition numbered {X} (start : Z) (l : list X) : list (Z * X) :=
  combine (map (fun i => start + Z.of_nat i + 1) (seq 0 (length l))) l.

Section server.
Context {UC : UnicodeTables} {A : Type} {RA : RidAllocator A} {DC : DrsCrypto}.
Implicit Types dir : Directory A.

Definition candidates dir : list (Z * Cand) :=
  numbered 0 (map CandUser (users dir)) ++ numbered (len (users dir)) (map CandGroup (groups dir)).

(** Loop dampening: a change of another DSA that the destination holds is left out. *)
Definition not_held (stub invocation_id : bytes) (c : Cand) : bool :=
  match cand_meta c with
  | Some m =>
      if bool_decide (m_originating_dsa m = invocation_id) then true
      else
        let held := unwrap_or 0 (utdv_dest_cursor stub (m_originating_dsa m)) in
        held <? Z.max (m_originating_usn m) 0
  | None => true
  end.

Definition build_object (domain_nc : string) (domain_sid : list Z) (secret_key : bytes) (x : Z * Cand) : ReplObject :=
  match x.2 with
  | CandUser u => build_user_object u x.1 domain_nc domain_sid secret_key
  | CandGroup g => build_group_object g x.1 domain_nc domain_sid
  end.

Definition group_links (domain_nc : string) (domain_sid : list Z) (x : Z * Cand) : list LinkVal :=
  match x.2 with
  | CandUser _ => []
  | CandGroup g =>
      map (fun l =>
             let m := gl_member_rid l in
             mkLinkVal (object_guid (group_rid g)) (user_sid domain_sid (group_rid g)) (user_dn (group_name g) domain_nc)
               (object_guid m) (user_sid domain_sid m) ("CN=member-" +:+ dec_string m +:+ ",CN=Users," +:+ domain_nc)
               (gl_present l) (gl_repl_meta l))
        (member_links g)
  end.

Definition exop_error_reply (invocation_id : bytes) (err_code : Z) : bytes :=
  write_getncchanges_reply [] [] 0 1 1 false invocation_id err_code.

Definition EXOP_ERR_SUCCESS : Z := 1.
Definition EXOP_ERR_FSMO_NOT_OWNER : Z := 3.
Definition EXOP_ERR_DIR_ERROR : Z := 6.
Definition EXOP_ERR_FSMO_REFUSING : Z := 0xC.

(** [(high << 32) | low] *)
Definition large_integer (high low : Z) : Z := Z.lor (Z.shiftl high 32) low.

Definition rid_pool_object (nc : string) (base count : Z) : ReplObject :=
  let last := saturating_sub (saturating_add32 base count) 1 in
  let next_available := saturating_add32 base count in
  mkReplObject (replicate 16 0) ("CN=RID Manager$,CN=System," +:+ nc) []
    [ mkReplAttr ATTID_RIDALLOCATIONPOOL [to_le_bytes 8 (large_integer last base)];
      mkReplAttr ATTID_RIDAVAILABLEPOOL [to_le_bytes 8 (large_integer RID_POOL_MAX next_available)] ] 1 None.

Definition rid_alloc_reply (invocation_id : bytes) dir : bytes * Directory A :=
  let '(grant, dir') := allocate_rid_pool RID_POOL_SIZE dir in
  (match grant with
   | None => write_getncchanges_reply [] [] 0 1 1 false invocation_id EXOP_ERR_DIR_ERROR
   | Some (base, count) =>
       write_getncchanges_reply [rid_pool_object (dns_domain_to_nc (dns_domain dir)) base count] [] 0 1 1 false
         invocation_id EXOP_ERR_SUCCESS
   end, dir').

(** What is past the cursor, what of it this page covers, and where it ends. *)
Definition pending (from : Z) dir : list (Z * Cand) := List.filter (fun x => from <? x.1) (candidates dir).

Definition page_len (max_objects : Z) (pend : list (Z * Cand)) : nat :=
  if max_objects =? 0 then length pend else Nat.min (length pend) (Z.to_nat max_objects).

Definition page_end (from : Z) (n : nat) (pend : list (Z * Cand)) dir : Z :=
  match n with
  | O => Z.max (len (users dir) + len (groups dir)) from
  | S n' => match pend !! n' with Some x => x.1 | None => 0 end
  end.

Definition surviving (stub invocation_id : bytes) (n : nat) (pend : list (Z * Cand)) : list (Z * Cand) :=
  List.filter (fun x => not_held stub invocation_id x.2) (take n pend).

Definition delta_reply (request : ChangeRequest) (stub : bytes) (secret_key invocation_id : bytes) dir : bytes :=
  let cursor := Z.max (from request) (unwrap_or 0 (utdv_dest_cursor stub invocation_id)) in
  let pend := pending cursor dir in
  let n := page_len (max_objects request) pend in
  let more := (n <? length pend)%nat in
  let domain_nc := dns_domain_to_nc (dns_domain dir) in
  let live := surviving stub invocation_id n pend in
  write_getncchanges_reply (map (build_object domain_nc (domain_sid dir) secret_key) live)
    (flat_map (group_links domain_nc (domain_sid dir)) live)
    cursor (page_end cursor n pend dir) (len (users dir) + len (groups dir)) more invocation_id 0.

Definition get_nc_changes_response (stub : bytes) (session_key : option bytes) (invocation_id : bytes) (is_rid_master : bool)
    dir : bytes * Directory A :=
  let secret_key := unwrap_or SECRET_SESSION_KEY session_key in
  let request := parse_change_request stub in
  if ext_op request =? exop.FSMO_RID_ALLOC then
    if is_rid_master then rid_alloc_reply invocation_id dir
    else (exop_error_reply invocation_id EXOP_ERR_FSMO_NOT_OWNER, dir)
  else if existsb (Z.eqb (ext_op request))
            [exop.FSMO_REQ_ROLE; exop.FSMO_RID_REQ_ROLE; exop.FSMO_REQ_PDC; exop.FSMO_ABANDON_ROLE] then
    (exop_error_reply invocation_id EXOP_ERR_FSMO_REFUSING, dir)
  else (delta_reply request stub secret_key invocation_id dir, dir).

(** ** The interface *)

Definition drs_extensions_int : bytes := to_le_bytes 4 0x04000000 ++ replicate 48 0.

Definition bind_response : bytes :=
  with_refs 1
    (lift (w_u32 0x20000) ;;
     lift (w_u32 (len drs_extensions_int)) ;;
     lift (w_u32 (len drs_extensions_int)) ;;
     lift (w_bytes drs_extensions_int) ;;
     lift (w_bytes DRS_HANDLE) ;;
     lift (w_u32 STATUS_SUCCESS)) [].

Definition unbind_response : bytes := w_u32 STATUS_SUCCESS (w_bytes (replicate 20 0) []).

Record DrsuapiInterface := mkDrsuapiInterface {
  invocation_id : bytes;
  is_rid_master : bool;
  replication_group_rids : list Z;
}.

Definition new_interface : DrsuapiInterface := mkDrsuapiInterface DSA_INVOCATION_ID true DEFAULT_REPLICATION_GROUP_RIDS.
Definition with_replication_groups (rids : list Z) (i : DrsuapiInterface) : DrsuapiInterface :=
  mkDrsuapiInterface (invocation_id i) (is_rid_master i) rids.
Definition with_rid_master (b : bool) (i : DrsuapiInterface) : DrsuapiInterface :=
  mkDrsuapiInterface (invocation_id i) b (replication_group_rids i).
Definition with_invocation_id (id : bytes) (i : DrsuapiInterface) : DrsuapiInterface :=
  mkDrsuapiInterface id (is_rid_master i) (replication_group_rids i).

Definition normalize_account_name (principal : string) : string :=
  let p := trim principal in
  let p := List.last (split "\" p) p in
  let p := hd p (split "@" p) in
  hd p (split "/" p).

Definition is_authorized_for_replication (i : DrsuapiInterface) (principal : string) dir : bool :=
  match find_user (normalize_account_name principal) dir with
  | None => false
  | Some user =>
      existsb (fun rid => is_some_and (fun ms => existsb (Z.eqb (user_rid user)) ms) (group_members rid dir))
        (replication_group_rids i)
  end.

(** [Err] carries the fault code. *)
Definition call_with_session (i : DrsuapiInterface) (opnum : Z) (stub : bytes) (session_key : option bytes) dir :
    (Z + bytes) * Directory A :=
  if opnum =? OP_BIND then (inr bind_response, dir)
  else if opnum =? OP_UNBIND then (inr unbind_response, dir)
  else if opnum =? OP_GET_NC_CHANGES then
    let '(r, dir') := get_nc_changes_response stub session_key (invocation_id i) (is_rid_master i) dir in (inr r, dir')
  else (inl fault.OP_RNG_ERROR, dir).

Definition call (i : DrsuapiInterface) (opnum : Z) (stub : bytes) dir : (Z + bytes) * Directory A :=
  call_with_session i opnum stub None dir.

Definition call_authenticated (i : DrsuapiInterface) (opnum : Z) (stub : bytes) (session_key : option bytes)
    (principal : option string) dir : (Z + bytes) * Directory A :=
  if opnum =? OP_GET_NC_CHANGES then
    match principal with
    | None => (inl fault.ACCESS_DENIED, dir)
    | Some p =>
        if negb (is_authorized_for_replication i p dir) then (inl fault.ACCESS_DENIED, dir)
        else
          let '(r, dir') := get_nc_changes_response stub session_key (invocation_id i) (is_rid_master i) dir in
          (inr r, dir')
    end
  else call_with_session i opnum stub session_key dir.
End server.

(** ** Who may replicate *)

Section authorization.
Context {UC : UnicodeTables} {A : Type} {RA : RidAllocator A} {DC : DrsCrypto}.
Implicit Types dir : Directory A.

(** The account a principal names is in one of the groups. *)
Definition has_right (i : DrsuapiInterface) (principal : option string) dir : Prop :=
  exists p u rid ms, principal = Some p /\ find_user (normalize_account_name p) dir = Some u /\
    In rid (replication_group_rids i) /\ group_members rid dir = Some ms /\ In (user_rid u) ms.

Lemma is_authorized_iff i p dir : is_authorized_for_replication i p dir = true <-> has_right i (Some p) dir.
Proof.
  unfold is_authorized_for_replication, has_right. destruct (find_user _ dir) as [u|] eqn:Eu.
  - rewrite existsb_exists. split.
    + intros (rid & Hin & H). destruct (group_members rid dir) as [ms|] eqn:Em; [|done]. simpl in H.
      apply existsb_exists in H as (r & Hr & <-%Z.eqb_eq). exists p, u, rid, ms. done.
    + intros (p' & u' & rid & ms & [= <-] & E & Hin & Em & Hm). rewrite Eu in E. injection E as <-.
      exists rid. split; [done|]. rewrite Em. simpl. apply existsb_exists. exists (user_rid u). by rewrite Z.eqb_refl.
  - split; [done|]. intros (p' & u' & rid & ms & [= <-] & E & _). by rewrite Eu in E.
Qed.

(** C8: Secrets leave the server only for an account of a replication group: a call
    of [IDL_DRSGetNCChanges] is answered exactly when the caller has authenticated
    as one, is refused with [ACCESS_DENIED] otherwise, and what is refused leaves
    the directory as it was; the answers to the other operations do not depend on
    the directory. *)
Theorem replication_is_authorized i stub key principal dir :
  ((exists reply dir', call_authenticated i OP_GET_NC_CHANGES stub key principal dir = (inr reply, dir')) <-> has_right i principal dir) /\
  (forall code dir', call_authenticated i OP_GET_NC_CHANGES stub key principal dir = (inl code, dir') -> code = fault.ACCESS_DENIED /\ dir' = dir) /\
  (forall opnum dir2, opnum <> OP_GET_NC_CHANGES ->
     (call_authenticated i opnum stub key principal dir).1 = (call_authenticated i opnum stub key principal dir2).1 /\
     (call_authenticated i opnum stub key principal dir).2 = dir).
Proof.
  unfold call_authenticated. cbn [Z.eqb Pos.eqb OP_GET_NC_CHANGES]. split_and!.
  - destruct principal as [p|].
    + rewrite <- is_authorized_iff. destruct (is_authorized_for_replication i p dir); simpl; [|naive_solver].
      destruct (get_nc_changes_response _ _ _ _ _); naive_solver.
    + split; [naive_solver|]. by intros (p & u & rid & ms & [=] & _).
  - intros code dir'. destruct principal as [p|]; [|naive_solver].
    destruct (negb _); [naive_solver|]. destruct (get_nc_changes_response _ _ _ _ _); naive_solver.
  - intros opnum dir2 Ho. rewrite (proj2 (Z.eqb_neq _ _)) by done. unfold call_with_session.
    destruct (opnum =? OP_BIND); [done|]. destruct (opnum =? OP_UNBIND); [done|]. by rewrite (proj2 (Z.eqb_neq _ _)) by done.
Qed.
End authorization.

(** ** Directories that can be served *)

(** Strings and counts far below the limits of the message. *)
Definition sane (s : string) : Prop := is_str s = true /\ str_len s < 2 ^ 20.

Definition repl_meta_ok (m : ReplMeta) : Prop :=
  is_u32 (m_version m) /\ is_i64 (m_originating_time m) /\ length (m_originating_dsa m) = 16%nat /\ is_i64 (m_originating_usn m).
Definition opt_meta_ok (o : option ReplMeta) : Prop := forall m, o = Some m -> repl_meta_ok m.

Definition user_ok (u : User) : Prop :=
  sane (user_name u) /\ is_u32 (user_rid u) /\ length (user_nt_hash u) = 16%nat /\ bytes_ok (user_nt_hash u) /\
  opt_meta_ok (user_repl_meta u).
Definition glink_ok (l : GroupLink) : Prop := is_u32 (gl_member_rid l) /\ opt_meta_ok (gl_repl_meta l).
Definition group_ok (g : Group) : Prop :=
  sane (group_name g) /\ is_u32 (group_rid g) /\ Forall glink_ok (member_links g) /\ opt_meta_ok (group_repl_meta g).

Definition dir_ok {A} (dir : Directory A) : Prop :=
  Forall user_ok (users dir) /\ Forall group_ok (groups dir) /\ sane (dns_domain_to_nc (dns_domain dir)) /\
  (length (domain_sid dir) <= 4)%nat /\ Forall is_u32 (domain_sid dir) /\
  len (users dir) + len (groups dir) < 2 ^ 24 /\ len (flat_map member_links (groups dir)) < 2 ^ 24.

(** ** Objects of a directory are well-formed messages *)

Lemma str_len_app a b : str_len (a +:+ b) = str_len a + str_len b.
Proof. unfold str_len. rewrite str_length_app. lia. Qed.

Lemma str_len_nonneg a : 0 <= str_len a.
Proof. unfold str_len. lia. Qed.

Lemma name_ok_short s : is_str s = true -> str_len s < 2 ^ 24 -> name_ok s.
Proof.
  intros Hs Hl. split; [done|]. pose proof (encode_utf16_length s). unfold str_len, len in *. lia.
Qed.

Lemma user_dn_ok sam nc : sane sam -> sane nc -> name_ok (user_dn sam nc).
Proof.
  intros [H1 L1] [H2 L2]. unfold user_dn. apply name_ok_short; [by repeat apply is_str_app|].
  rewrite !str_len_app. change (str_len "CN=") with 3. change (str_len ",CN=Users,") with 10. lia.
Qed.

Lemma utf16le_value_ok s : str_len s < 2 ^ 20 -> value_ok (utf16le s).
Proof. intros H. unfold value_ok, len. rewrite utf16le_length. pose proof (encode_utf16_length s). unfold str_len in H. lia. Qed.

Lemma units_length us : length (flat_map (to_le_bytes 2) us) = (2 * length us)%nat.
Proof. induction us as [|u us IH]; [done|]. cbn [flat_map]. rewrite length_app, to_le_bytes_length, IH. cbn [length]. lia. Qed.

Lemma flat_dsname_length g dn : length g = 16%nat -> len (encode_flat_dsname g dn) <= 58 + 4 * str_len dn.
Proof.
  intros Hg. unfold encode_flat_dsname, len. rewrite !length_app, !to_le_bytes_length, units_length, length_replicate, Hg.
  pose proof (encode_utf16_length dn). unfold str_len. lia.
Qed.

Lemma flat_dsname_sid_length g sid dn : length g = 16%nat -> len (encode_flat_dsname_sid g sid dn) <= 58 + 4 * str_len dn.
Proof.
  intros Hg. unfold encode_flat_dsname_sid, len. rewrite !length_app, !to_le_bytes_length, units_length, sid_buf_length, Hg.
  pose proof (encode_utf16_length dn). unfold str_len. lia.
Qed.

Lemma user_sid_length domain rid : length (user_sid domain rid) = (12 + 4 * length domain)%nat.
Proof.
  unfold user_sid. rewrite length_app. cbn [length]. assert (forall l, length (flat_map (to_le_bytes 4) l) = (4 * length l)%nat) as ->.
  { induction l as [|u us IH]; [done|]. cbn [flat_map]. rewrite length_app, to_le_bytes_length, IH. cbn [length]. lia. }
  rewrite length_app. cbn [length]. lia.
Qed.

Lemma served_meta_ok inv usn meta : length inv = 16%nat -> is_i64 usn -> opt_meta_ok meta -> meta_ok (served_meta inv usn meta).
Proof.
  intros Hi Hu Hm. unfold served_meta. destruct meta as [m|]; [by apply Hm|].
  unfold meta_ok, is_u32, is_i64, META_TIME in *. simpl. split_and!; (done || lia).
Qed.

Lemma as_i64_range x : 0 <= x < 2 ^ 64 -> is_i64 (as_i64 x).
Proof. unfold is_i64, as_i64. change (2 ^ 64) with (2 * 2 ^ 63). intros H. case_match; to_prop; lia. Qed.

Lemma as_i64_small x : 0 <= x < 2 ^ 63 -> as_i64 x = x.
Proof. unfold as_i64. intros H. by rewrite (proj2 (Z.ltb_lt _ _)) by lia. Qed.

Lemma attr_ok_one a v : is_u32 a -> value_ok v -> attr_ok (mkReplAttr a [v]).
Proof. intros Ha Hv. split_and!; simpl; [done|unfold len; simpl; lia|by repeat constructor]. Qed.

Lemma attr_ok_words a ws : is_u32 a -> len ws < 2 ^ 32 -> attr_ok (mkReplAttr a (map (to_le_bytes 4) ws)).
Proof.
  intros Ha Hl. split_and!; cbn [attid values]; [done|unfold len in *; by rewrite length_map|]. apply Forall_map, Forall_forall. intros w _.
  change (value_ok (to_le_bytes 4 w)). unfold value_ok, len. rewrite to_le_bytes_length. lia.
Qed.

Lemma small_value_ok v n : length v = n -> Z.of_nat n < 2 ^ 32 -> value_ok v.
Proof. intros <- H. done. Qed.

Lemma sort_attrs_ok l : Forall attr_ok l -> Forall attr_ok (sort_by_key attid l) /\ length (sort_by_key attid l) = length l.
Proof.
  intros H. pose proof (sort_by_perm (fun a b => attid a <=? attid b) l) as Hp. split; [|by apply Permutation_length].
  rewrite Forall_forall in *. intros a Ha. apply H. unfold sort_by_key in Ha. by rewrite Hp in Ha.
Qed.

Section well_formed.
Context {UC : UnicodeTables} {A : Type} {RA : RidAllocator A} {DC : DrsCrypto} {DL : DrsCryptoLaws DC}.
Implicit Types dir : Directory A.

Ltac u32 := unfold is_u32; split; vm_compute; congruence.

Lemma category_ok g cls nc : length g = 16%nat -> sane nc -> str_len cls < 2 ^ 20 -> value_ok (encode_flat_dsname g (cls +:+ nc)).
Proof.
  intros Hg [_ Hn] Hc. pose proof (flat_dsname_length g (cls +:+ nc) Hg) as H. rewrite str_len_app in H. unfold value_ok. lia.
Qed.

Lemma user_attrs_ok u nc sid key : user_ok u -> sane nc -> (length sid <= 4)%nat -> Forall attr_ok (user_attrs u nc sid key).
Proof.
  intros (Hn & Hr & Hl & Hb & _) Hnc Hs. pose proof (utf16le_value_ok _ (proj2 Hn)) as Hv.
  assert (value_ok (user_sid sid (user_rid u))) as Hsid by (eapply small_value_ok; [apply user_sid_length|lia]).
  assert (value_ok (encrypted_unicode_pwd (user_nt_hash u) (user_rid u) key)) as Hp.
  { eapply small_value_ok; [by apply encrypted_unicode_pwd_length|lia]. }
  unfold user_attrs. apply Forall_cons. split; [apply attr_ok_words; [u32|vm_compute; congruence]|].
  repeat (apply Forall_cons; split; [apply attr_ok_one; [u32|]|]); try done; by apply category_ok.
Qed.

Lemma group_attrs_ok g nc sid : group_ok g -> sane nc -> (length sid <= 4)%nat -> Forall attr_ok (group_attrs g nc sid).
Proof.
  intros (Hn & Hr & _) Hnc Hs. pose proof (utf16le_value_ok _ (proj2 Hn)) as Hv.
  assert (value_ok (user_sid sid (group_rid g))) as Hsid by (eapply small_value_ok; [apply user_sid_length|lia]).
  unfold group_attrs. apply Forall_cons. split; [apply attr_ok_words; [u32|vm_compute; congruence]|].
  repeat (apply Forall_cons; split; [apply attr_ok_one; [u32|]|]); try done; by apply category_ok.
Qed.

Definition cand_ok (c : Cand) : Prop := match c with CandUser u => user_ok u | CandGroup g => group_ok g end.

Lemma build_object_ok inv nc sid key usn c : length inv = 16%nat -> cand_ok c -> sane nc -> (length sid <= 4)%nat ->
  0 <= usn < 2 ^ 64 -> object_ok inv (build_object nc sid key (usn, c)).
Proof.
  intros Hi Hc Hnc Hs Hu. pose proof (as_i64_range usn Hu) as Hr.
  destruct c as [u|g]; unfold build_object, object_ok; simpl.
  - destruct (sort_attrs_ok _ (user_attrs_ok u nc sid key Hc Hnc Hs)) as [Ha Hl].
    destruct Hc as (Hn & Hrid & _ & _ & Hm). split_and!; [done|by apply user_dn_ok|unfold len; rewrite Hl; vm_compute; done|done|by apply served_meta_ok].
  - destruct (sort_attrs_ok _ (group_attrs_ok g nc sid Hc Hnc Hs)) as [Ha Hl].
    destruct Hc as (Hn & Hrid & _ & Hm). split_and!; [done|by apply user_dn_ok|unfold len; rewrite Hl; vm_compute; done|done|by apply served_meta_ok].
Qed.

(** Decimal numbers are short ASCII. *)
Lemma digit_char d : 0 <= d < 10 -> is_ascii_digit (ascii_of_N (Z.to_N (48 + d))) = true.
Proof.
  intros H. assert (d = 0 \/ d = 1 \/ d = 2 \/ d = 3 \/ d = 4 \/ d = 5 \/ d = 6 \/ d = 7 \/ d = 8 \/ d = 9) as Hd by lia.
  repeat destruct Hd as [->|Hd]; try subst; done.
Qed.

Lemma dec_digits_spec fuel : forall z acc, str_forallb is_ascii_digit acc = true ->
  str_forallb is_ascii_digit (dec_digits fuel z acc) = true /\ str_len (dec_digits fuel z acc) <= str_len acc + Z.of_nat fuel.
Proof.
  induction fuel as [|fuel IH]; intros z acc Ha; cbn [dec_digits]; [split; [done|lia]|].
  set (c := ascii_of_N _). assert (is_ascii_digit c = true) as Hc.
  { apply digit_char, Z.mod_pos_bound. lia. }
  assert (str_forallb is_ascii_digit (String c acc) = true) as Ha' by (simpl; by rewrite Hc).
  assert (str_len (String c acc) = str_len acc + 1) as El by (unfold str_len; simpl; lia).
  destruct (z <? 10); [split; [done|rewrite El; lia]|]. destruct (IH (z / 10) _ Ha') as [H1 H2]. split; [done|]. rewrite El in H2. lia.
Qed.

Lemma digits_str s : str_forallb is_ascii_digit s = true -> is_str s = true.
Proof.
  unfold is_str. induction s as [|c s IH]; [done|]. simpl. intros [Hc Hs]%andb_true_iff.
  unfold is_ascii_digit, in_codes in Hc. apply andb_true_iff in Hc as [_ H%Z.leb_le].
  rewrite (proj2 (Z.ltb_lt _ _)) by lia. by apply IH.
Qed.

Lemma dec_string_ok z : is_str (dec_string z) = true /\ str_len (dec_string z) <= 20.
Proof. destruct (dec_digits_spec 20 z "" eq_refl) as [H1 H2]. split; [by apply digits_str|done]. Qed.

Lemma group_links_ok inv nc sid usn c : length inv = 16%nat -> cand_ok c -> sane nc -> (length sid <= 4)%nat ->
  Forall (link_ok inv) (group_links nc sid (usn, c)).
Proof.
  intros Hi Hc Hnc Hs. destruct c as [u|g]; [constructor|]. unfold group_links. cbn [snd]. apply Forall_map.
  destruct Hc as (Hn & Hr & Hl & _). eapply Forall_impl; [exact Hl|]. intros l [Hm Ho]. cbn beta.
  unfold compose, link_ok, target_blob. cbn [lv_source_guid lv_source_dn lv_target_guid lv_target_sid lv_target_dn lv_meta]. split_and!; [done|by apply user_dn_ok|done| |apply served_meta_ok; [done|unfold is_i64; lia|done]].
  eapply Z.le_lt_trans; [apply flat_dsname_sid_length; done|]. rewrite !str_len_app.
  destruct (dec_string_ok (gl_member_rid l)) as [_ Hd]. destruct Hnc as [_ Hnc].
  change (str_len "CN=member-") with 10. change (str_len ",CN=Users,") with 10. lia.
Qed.

Lemma build_object_refs nc sid key x : (object_refs (build_object nc sid key x) <= 27)%nat.
Proof. destruct x as [usn [u|g]]; vm_compute; lia. Qed.

(** ** The stream of changes *)

(** Users, then groups: the number of an object is its position from 1. *)
Definition stream dir : list Cand := map CandUser (users dir) ++ map CandGroup (groups dir).

Lemma numbered_cons {X} s (x : X) l : numbered s (x :: l) = (s + 1, x) :: numbered (s + 1) l.
Proof.
  unfold numbered. cbn [length seq map combine]. f_equal; [f_equal; lia|]. f_equal. rewrite <- seq_shift, map_map.
  apply map_ext. intros i. lia.
Qed.

Lemma numbered_app {X} (l1 l2 : list X) : forall s, numbered s (l1 ++ l2) = numbered s l1 ++ numbered (s + len l1) l2.
Proof.
  induction l1 as [|x l1 IH]; intros s; [simpl; f_equal; unfold len; simpl; lia|]. cbn [app]. rewrite !numbered_cons, IH. cbn [app].
  f_equal. f_equal. f_equal. unfold len. cbn [length]. lia.
Qed.

Lemma numbered_snd {X} (l : list X) : forall s, map snd (numbered s l) = l.
Proof. induction l as [|x l IH]; intros s; [done|]. rewrite numbered_cons. cbn [map snd]. by rewrite IH. Qed.

Lemma numbered_take {X} (l : list X) : forall n s, take n (numbered s l) = numbered s (take n l).
Proof.
  induction l as [|x l IH]; intros [|n] s; [done..|]. rewrite numbered_cons. cbn [take]. by rewrite numbered_cons, IH.
Qed.

Lemma numbered_lookup {X} (l : list X) : forall i s x, l !! i = Some x -> numbered s l !! i = Some (s + Z.of_nat i + 1, x).
Proof.
  induction l as [|y l IH]; intros [|i] s x H; [done..| |]; rewrite numbered_cons; simpl in *.
  - injection H as ->. do 2 f_equal. lia.
  - rewrite (IH i (s + 1) x H). do 2 f_equal. lia.
Qed.

Lemma numbered_length {X} s (l : list X) : length (numbered s l) = length l.
Proof. rewrite <- (numbered_snd l s) at 2. by rewrite length_map. Qed.

Lemma numbered_range {X} (l : list X) : forall s k x, In (k, x) (numbered s l) -> s < k <= s + len l /\ In x l.
Proof.
  induction l as [|y l IH]; intros s k x; [done|]. rewrite numbered_cons. intros [[= <- <-]|H].
  - unfold len. simpl. split; [lia|by left].
  - destruct (IH _ _ _ H) as [H1 H2]. unfold len in *. simpl. split; [lia|by right].
Qed.

Lemma numbered_filter {X} (l : list X) : forall s c, s <= c ->
  List.filter (fun x => c <? x.1) (numbered s l) = numbered c (skipn (Z.to_nat (c - s)) l).
Proof.
  induction l as [|x l IH]; intros s c Hs; [by rewrite skipn_nil|]. rewrite numbered_cons. cbn [List.filter fst].
  destruct (Z.eq_dec c s) as [->|Hne].
  - rewrite (proj2 (Z.ltb_lt _ _)) by lia. rewrite Z.sub_diag. change (skipn (Z.to_nat 0) (x :: l)) with (x :: l). rewrite numbered_cons. f_equal.
    clear IH Hs. assert (Forall (fun x => s <? x.1 = true) (numbered (s + 1) l)) as Hall.
    { apply Forall_forall. intros [k y] Hin%list_elem_of_In. destruct (numbered_range _ _ _ _ Hin). simpl. apply Z.ltb_lt. lia. }
    induction (numbered (s + 1) l) as [|y ys IHy]; [done|]. apply Forall_cons in Hall as [Hy Hys]. cbn [List.filter]. by rewrite Hy, IHy.
  - rewrite (proj2 (Z.ltb_ge _ _)) by lia. rewrite IH by lia.
    replace (Z.to_nat (c - s)) with (S (Z.to_nat (c - (s + 1)))) by lia. done.
Qed.

Lemma candidates_stream dir : candidates dir = numbered 0 (stream dir).
Proof. unfold candidates, stream. rewrite numbered_app. unfold len. by rewrite length_map. Qed.

Lemma stream_len dir : len (stream dir) = len (users dir) + len (groups dir).
Proof. unfold stream, len. rewrite length_app, !length_map. lia. Qed.

Lemma pending_stream c dir : 0 <= c -> pending c dir = numbered c (skipn (Z.to_nat c) (stream dir)).
Proof. intros Hc. unfold pending. rewrite candidates_stream, numbered_filter by done. by rewrite Z.sub_0_r. Qed.

Lemma stream_ok dir c : dir_ok dir -> In c (stream dir) -> cand_ok c.
Proof.
  intros (Hu & Hg & _) [Hin|Hin]%in_app_iff; apply in_map_iff in Hin as (x & <- & Hin); simpl.
  - rewrite Forall_forall in Hu. by apply Hu, list_elem_of_In.
  - rewrite Forall_forall in Hg. by apply Hg, list_elem_of_In.
Qed.
Lemma pending_in c dir k x : 0 <= c -> In (k, x) (pending c dir) -> c < k <= len (stream dir) /\ In x (stream dir).
Proof.
  intros Hc. rewrite pending_stream by done. intros [H1 H2]%numbered_range. unfold len in *. rewrite length_skipn in H1.
  split; [lia|]. rewrite <- (firstn_skipn (Z.to_nat c) (stream dir)). apply in_app_iff. by right.
Qed.

Lemma page_end_bound c n dir : 0 <= c < 2 ^ 63 -> len (stream dir) < 2 ^ 24 -> is_i64 (page_end c n (pending c dir) dir).
Proof.
  intros Hc Hs. unfold page_end, is_i64. destruct n as [|n]; [rewrite <- stream_len; lia|].
  destruct (pending c dir !! n) as [[k x]|] eqn:E; [|lia].
  apply list_elem_of_lookup_2, list_elem_of_In, pending_in in E; [|lia]. simpl. lia.
Qed.

Lemma filter_length_le {X} (p : X -> bool) l : (length (List.filter p l) <= length l)%nat.
Proof. induction l as [|x l IH]; [done|]. simpl. destruct (p x); simpl; lia. Qed.

Lemma filter_sublist {X} (p : X -> bool) l : sublist (List.filter p l) l.
Proof. induction l as [|x l IH]; [constructor|]. simpl. destruct (p x); by constructor. Qed.

Lemma surviving_sublist stub inv n c dir : 0 <= c -> sublist (map snd (surviving stub inv n (pending c dir))) (stream dir).
Proof.
  intros Hc. unfold surviving. transitivity (map snd (pending c dir)).
  - apply fmap_sublist. etrans; [apply filter_sublist|apply sublist_take].
  - rewrite pending_stream, numbered_snd by done. apply sublist_drop.
Qed.

Lemma surviving_in stub inv n c dir k x : 0 <= c -> In (k, x) (surviving stub inv n (pending c dir)) -> In (k, x) (pending c dir).
Proof.
  intros Hc [H _]%filter_In. rewrite <- (firstn_skipn n (pending c dir)). apply in_app_iff. by left.
Qed.

Lemma sum_list_with_le {X} (f : X -> nat) b l : Forall (fun x => (f x <= b)%nat) l -> (sum_list_with f l <= b * length l)%nat.
Proof. induction 1 as [|x l Hx _ IH]; simpl; lia. Qed.

(** Link values of a part of the stream are at most those of the whole. *)
Definition links_of (c : Cand) : nat := match c with CandUser _ => 0%nat | CandGroup g => length (member_links g) end.

Lemma group_links_length nc sid x : length (group_links nc sid x) = links_of x.2.
Proof. destruct x as [k [u|g]]; [done|]. unfold group_links. cbn [snd]. by rewrite length_map. Qed.

Lemma flat_map_links nc sid l : length (flat_map (group_links nc sid) l) = sum_list_with links_of (map snd l).
Proof. induction l as [|x l IH]; [done|]. cbn [flat_map map]. rewrite length_app, group_links_length, IH. done. Qed.

Lemma sum_list_with_sublist {X} (f : X -> nat) l1 l2 : sublist l1 l2 -> (sum_list_with f l1 <= sum_list_with f l2)%nat.
Proof. induction 1; simpl; lia. Qed.

Lemma stream_links dir : sum_list_with links_of (stream dir) = length (flat_map member_links (groups dir)).
Proof.
  unfold stream. rewrite sum_list_with_app. assert (sum_list_with links_of (map CandUser (users dir)) = 0%nat) as ->.
  { induction (users dir); done. }
  simpl. induction (groups dir) as [|g gs IH]; [done|]. cbn [map flat_map]. rewrite length_app, <- IH. done.
Qed.

Lemma live_refs_ok stub inv n c dir nc sid key : dir_ok dir -> 0 <= c ->
  refs_ok (map (build_object nc sid key) (surviving stub inv n (pending c dir)))
    (flat_map (group_links nc sid) (surviving stub inv n (pending c dir))).
Proof.
  intros (_ & _ & _ & _ & _ & Hs & Hl) Hc. pose proof (surviving_sublist stub inv n c dir Hc) as Hsub.
  set (live := surviving _ _ _ _) in *. pose proof (sublist_length _ _ Hsub) as H1. rewrite length_map in H1.
  rewrite <- stream_len in Hs. unfold len in Hs. split.
  - assert (sum_list_with object_refs (rev (map (build_object nc sid key) live)) <= 27 * length live)%nat.
    { rewrite <- (length_map (build_object nc sid key) live), <- length_rev. apply sum_list_with_le, Forall_rev.
      apply Forall_map, Forall_forall. intros x _. apply build_object_refs. }
    rewrite length_map. lia.
  - pose proof (sum_list_with_sublist links_of _ _ Hsub) as H2. rewrite stream_links in H2. unfold len in Hl.
    rewrite flat_map_links. lia.
Qed.

(** A reply to a delta request decodes to the objects past the cursor that the destination does not hold. *)
Lemma delta_reply_decodes req stub key inv dir : dir_ok dir -> length inv = 16%nat ->
  let cursor := Z.max (from req) (unwrap_or 0 (utdv_dest_cursor stub inv)) in
  let pend := pending cursor dir in
  let n := page_len (max_objects req) pend in
  let nc := dns_domain_to_nc (dns_domain dir) in
  0 <= cursor < 2 ^ 63 ->
  parse_get_nc_changes_reply (delta_reply req stub key inv dir) =
  Some (mkReplicatedChanges inv (page_end cursor n pend dir) (n <? length pend)%nat
          (map (fun x => received_object inv (build_object nc (domain_sid dir) key x)) (surviving stub inv n pend))
          (map (received_link inv) (flat_map (group_links nc (domain_sid dir)) (surviving stub inv n pend))) 0).
Proof.
  intros Hd Hi cursor pend n nc Hc. pose proof Hd as (_ & _ & Hnc & Hsid & _ & Hs & _).
  assert (forall k x, In (k, x) (surviving stub inv n pend) -> cand_ok x /\ 0 <= k < 2 ^ 64) as Hlive.
  { intros k x Hin%surviving_in%pending_in; [|lia..]. rewrite <- stream_len in Hs. destruct Hin as [H1 H2].
    split; [by apply (stream_ok dir)|lia]. }
  unfold delta_reply. fold cursor pend n nc. rewrite reply_parses; [by rewrite map_map|done| | |apply live_refs_ok; [done|lia]| |unfold is_u32; lia].
  - apply Forall_map, Forall_forall. intros [k x] Hin%list_elem_of_In. destruct (Hlive _ _ Hin). by apply build_object_ok.
  - apply Forall_flat_map, Forall_forall. intros [k x] Hin%list_elem_of_In. destruct (Hlive _ _ Hin). by apply group_links_ok.
  - apply page_end_bound; [done|by rewrite stream_len].
Qed.
(** ** What the destination reads back *)

Lemma user_attr_values inv u usn nc sid key :
  let o := received_object inv (build_user_object u usn nc sid key) in
  attr o ATTID_SAMACCOUNTNAME = Some (utf16le (user_name u)) /\ attr o ATTID_OBJECTSID = Some (user_sid sid (user_rid u)) /\
  attr o ATTID_UNICODEPWD = Some (encrypted_unicode_pwd (user_nt_hash u) (user_rid u) key) /\
  attr o ATTID_USERACCOUNTCONTROL = Some (to_le_bytes 4 0x200) /\ is_group o = false.
Proof. split_and!; reflexivity. Qed.

Lemma group_attr_values inv g usn nc sid :
  let o := received_object inv (build_group_object g usn nc sid) in
  attr o ATTID_SAMACCOUNTNAME = Some (utf16le (group_name g)) /\ attr o ATTID_OBJECTSID = Some (user_sid sid (group_rid g)) /\
  attr o ATTID_UNICODEPWD = None /\ is_group o = true.
Proof. split_and!; reflexivity. Qed.

Lemma words_length l : length (flat_map (to_le_bytes 4) l) = (4 * length l)%nat.
Proof. induction l as [|u us IH]; [done|]. cbn [flat_map]. rewrite length_app, to_le_bytes_length, IH. cbn [length]. lia. Qed.

Lemma rid_of_user_sid sid rid : (length sid <= 4)%nat -> is_u32 rid -> rid_of_sid (user_sid sid rid) = Some rid.
Proof.
  intros Hs Hr. unfold rid_of_sid, user_sid. cbn [app lookup list_lookup].
  assert (u8 (len (sid ++ [rid])) = len sid + 1) as ->.
  { unfold len, u8. rewrite length_app. cbn [length]. rewrite Z.mod_small; lia. }
  unfold checked_sub. rewrite (proj2 (Z.leb_le _ _)) by (unfold len; lia). replace (Z.to_nat (len sid + 1 - 1)) with (length sid) by (unfold len; lia).
  unfold le32_at. rewrite flat_map_app.
  rewrite (slice_get_app _ (to_le_bytes 4 rid) []); [cbn [fmap option_fmap option_map]; f_equal; by apply from_to_le_bytes| | |apply to_le_bytes_length].
  - cbn [drop flat_map]. replace (8 + length sid * 4)%nat with (8 + length (flat_map (to_le_bytes 4) sid))%nat by (rewrite words_length; lia).
    cbn [drop Nat.add]. by rewrite drop_app_length.
  - cbn [length]. rewrite length_app, words_length. lia.
Qed.

Lemma user_received inv u usn nc sid key : user_ok u -> (length sid <= 4)%nat ->
  let o := received_object inv (build_user_object u usn nc sid key) in
  sam_account_name o = Some (user_name u) /\ object_rid o = Some (user_rid u) /\
  object_nt_hash key o = Some (user_nt_hash u) /\ is_group o = false.
Proof.
  intros ((Hn & _) & Hr & Hl & Hb & _) Hs o. destruct (user_attr_values inv u usn nc sid key) as (H1 & H2 & H3 & _ & H4). fold o in H1, H2, H3, H4.
  assert (object_rid o = Some (user_rid u)) as Hrid by (unfold object_rid; rewrite H2; by apply rid_of_user_sid).
  split_and!; [|done| |done].
  - unfold sam_account_name. rewrite H1. simpl. f_equal. by apply utf16le_round_trip.
  - unfold object_nt_hash. rewrite H3, Hrid. by apply unicode_pwd_round_trip.
Qed.

Lemma group_received inv g usn nc sid : group_ok g -> (length sid <= 4)%nat ->
  let o := received_object inv (build_group_object g usn nc sid) in
  sam_account_name o = Some (group_name g) /\ object_rid o = Some (group_rid g) /\ is_group o = true.
Proof.
  intros ((Hn & _) & Hr & _) Hs o. destruct (group_attr_values inv g usn nc sid) as (H1 & H2 & _ & H4). fold o in H1, H2, H4.
  split_and!; [| |done].
  - unfold sam_account_name. rewrite H1. simpl. f_equal. by apply utf16le_round_trip.
  - unfold object_rid. rewrite H2. by apply rid_of_user_sid.
Qed.
End well_formed.
