(* ===== verification/Samr.v ===== *)
(** * Account management over RPC

    [crates/magnetite-rpc/src/samr.rs]: the SAMR interface, with which a client
    enumerates the domain, creates machine accounts and sets their passwords.  The
    interface is one value shared by all connections: its handle table, the
    directory, the key distribution centre and the account sink are threaded
    through every call.

    [created_account_owns_its_name] and [password_reaches_kdc] say what the two
    writing operations do to the KDC; [issued_handles] is the invariant of the
    handle table. *)

From S2P Require Import Prelude Bytes RustStr Utf16 KdcStore Ndr AdDirectory DrsSecret Rpc.

Local Open Scope Z_scope.
Local Open Scope ndr_scope.

(** ** Constants *)

Definition OP_CONNECT : Z := 0.
Definition OP_CLOSE_HANDLE : Z := 1.
Definition OP_LOOKUP_DOMAIN : Z := 5.
Definition OP_ENUM_DOMAINS : Z := 6.
Definition OP_OPEN_DOMAIN : Z := 7.
Definition OP_ENUM_DOMAIN_GROUPS : Z := 11.
Definition OP_ENUM_USERS : Z := 13.
Definition OP_OPEN_GROUP : Z := 19.
Definition OP_GET_MEMBERS_IN_GROUP : Z := 25.
Definition OP_QUERY_USER_INFO : Z := 36.
Definition OP_SET_USER_INFO : Z := 37.
Definition OP_GET_USER_DOMAIN_PWD_INFO : Z := 44.
Definition OP_QUERY_USER_INFO2 : Z := 47.
Definition OP_CREATE_USER2 : Z := 50.
Definition OP_SET_USER_INFO2 : Z := 58.

Definition USER_CONTROL_INFORMATION : Z := 16.
Definition UAC_ACCOUNTDISABLE : Z := 0x00000002.
Definition UAC_WORKSTATION_TRUST_ACCOUNT : Z := 0x00001000.
Definition DEFAULT_MACHINE_UAC : Z := Z.lor UAC_WORKSTATION_TRUST_ACCOUNT UAC_ACCOUNTDISABLE.

Definition STATUS_SUCCESS : Z := 0.
Definition STATUS_INVALID_HANDLE : Z := 0xC0000008.
Definition STATUS_ACCESS_DENIED : Z := 0xC0000022.
Definition STATUS_INVALID_PARAMETER : Z := 0xC000000D.

Definition SAMPR_ENCRYPTED_PASSWORD_LEN : nat := 516.
Definition FIRST_CREATED_RID : Z := 1100.
Definition USER_ALL_ACCESS : Z := 0x000F07FF.
Definition MAXIMUM_ALLOWED : Z := 0x02000000.
Definition NT_AUTHORITY : bytes := [0; 0; 0; 0; 0; 5].
Definition NAME_ACTUAL_COUNT_OFFSET : nat := 36.
Definition NAME_CHARS_OFFSET : nat := 40.

(** ** Responses *)

Definition status_response (status : Z) : bytes := to_le_bytes 4 status.
Definition handle_response (handle : bytes) (status : Z) : bytes := handle ++ to_le_bytes 4 status.
Definition create_user_response (user_handle : bytes) (granted rid status : Z) : bytes :=
  user_handle ++ to_le_bytes 4 granted ++ to_le_bytes 4 rid ++ to_le_bytes 4 status.

Definition writers (l : list writer) : bytes := fold_left (fun buf w => w buf) l [].

Definition user_control_response (uac : Z) : bytes :=
  writers [w_u32 0x00020000; w_u16 USER_CONTROL_INFORMATION; w_u16 0; w_u32 uac; w_u32 STATUS_SUCCESS].
Definition user_domain_password_info_response : bytes := writers [w_u16 0; w_u16 0; w_u32 0; w_u32 STATUS_SUCCESS].

Definition domain_sid_response (sid : list Z) : bytes :=
  writers ([w_u32 0x00020000; w_u32 (u32 (len sid)); w_u8 1; w_u8 (u8 (len sid)); w_bytes NT_AUTHORITY] ++
           map w_u32 sid ++ [w_u32 STATUS_SUCCESS]).

Definition get_members_response (member_rids : list Z) (status : Z) : bytes :=
  let count := u32 (len member_rids) in
  writers ([w_u32 0x00020000; w_u32 count] ++
    match member_rids with
    | [] => [w_u32 0; w_u32 0; w_u32 status]
    | _ =>
        [w_u32 0x00020004; w_u32 0x00020008; w_u32 count] ++ map w_u32 member_rids ++
        [w_u32 count] ++ map (fun _ => w_u32 0x00000007) member_rids ++ [w_u32 status]
    end).

(** The fixed parts, with the counter of referents. *)
Fixpoint enumeration_entries (entries : list (Z * string)) (string_ref : Z) : list writer :=
  match entries with
  | [] => []
  | (rid, nm) :: rest =>
      let n := len (encode_utf16 nm) in
      [w_u32 rid; w_u16 (u16 (n * 2)); w_u16 (u16 (n * 2))] ++
      (if n =? 0 then w_u32 0 :: enumeration_entries rest string_ref
       else w_u32 string_ref :: enumeration_entries rest (u32 (string_ref + 4)))
  end.

Definition deferred_name (nm : string) : list writer :=
  match encode_utf16 nm with
  | [] => []
  | units => let n := u32 (len units) in [w_u32 n; w_u32 0; w_u32 n] ++ map w_u16 units
  end.

Definition enumeration_response (entries : list (Z * string)) (status : Z) : bytes :=
  let count := u32 (len entries) in
  writers (w_u32 count ::
    match entries with
    | [] => [w_u32 0; w_u32 0; w_u32 status]
    | _ =>
        [w_u32 0x00020000; w_u32 count; w_u32 0x00020004; w_u32 count] ++ enumeration_entries entries 0x00020008 ++
        flat_map (fun e => deferred_name e.2) entries ++ [w_u32 count; w_u32 status]
    end).

(** ** Request arguments *)

Definition handle_bytes (stub : bytes) : option bytes := slice_get stub 0 20.
Definition info_class (stub : bytes) : option Z := from_le_bytes <$> slice_get stub 20 22.

(** [char::from_u32] on a UTF-16 unit: no character is a surrogate. *)
Definition is_char (unit : Z) : bool := negb (is_high_surrogate unit || is_low_surrogate unit).

Definition parse_unicode_string_arg (stub : bytes) : option string :=
  if (length stub <? NAME_CHARS_OFFSET)%nat then None
  else if from_le_bytes (take 4 (skipn 24 stub)) =? 0 then None
  else
    let actual := Z.to_nat (from_le_bytes (take 4 (skipn NAME_ACTUAL_COUNT_OFFSET stub))) in
    if (length stub <? NAME_CHARS_OFFSET + actual * 2)%nat then None
    else
      let units := le_units (take (actual * 2) (skipn NAME_CHARS_OFFSET stub)) in
      if forallb is_char units then Some (string_of_bytes (flat_map encode_utf8 units)) else None.

Definition create_user_desired_access (stub : bytes) : Z :=
  let actual :=
    Z.to_nat (unwrap_or 0 (from_le_bytes <$> slice_get stub NAME_ACTUAL_COUNT_OFFSET (NAME_ACTUAL_COUNT_OFFSET + 4))) in
  let chars_end := (NAME_CHARS_OFFSET + actual * 2)%nat in
  let account_type_off := ((chars_end + 3) / 4 * 4)%nat in
  let desired_off := (account_type_off + 4)%nat in
  match from_le_bytes <$> slice_get stub desired_off (desired_off + 4) with
  | Some a => if negb (a =? 0) && negb (a =? MAXIMUM_ALLOWED) then a else USER_ALL_ACCESS
  | None => USER_ALL_ACCESS
  end.

Definition machine_initial_password `{UnicodeTables} (nm : string) : string :=
  string_of_bytes (flat_map encode_utf8 (take 14 (chars (bytes_of_string (to_lowercase (trim_end_matches "$" nm)))))).

(** *** The password buffer *)

Definition password_from_plain (plain : bytes) : option bytes :=
  match slice_get plain 512 516 with
  | None => None
  | Some l =>
      let length := Z.to_nat (from_le_bytes l) in
      if (length =? 0)%nat || (512 <? length)%nat || negb (length mod 2 =? 0)%nat then None
      else Some (take length (skipn (512 - length) plain))
  end.

(** [(0..=start).rev().find_map(f)] *)
Fixpoint scan_back {X} (f : nat -> option X) (start : nat) : option X :=
  match f start with
  | Some x => Some x
  | None => match start with O => None | S start' => scan_back f start' end
  end.

Definition decrypt_sampr_password (stub session_key : bytes) : option bytes :=
  if (length stub <? SAMPR_ENCRYPTED_PASSWORD_LEN)%nat then None
  else scan_back (fun start => password_from_plain (rc4 session_key (take SAMPR_ENCRYPTED_PASSWORD_LEN (skipn start stub))))
         (length stub - SAMPR_ENCRYPTED_PASSWORD_LEN).

Definition BLOCK : nat := SAMPR_ENCRYPTED_PASSWORD_LEN + 16.

Definition decrypt_sampr_password_new `{DrsCrypto} (stub session_key : bytes) : option bytes :=
  if (length stub <? BLOCK)%nat then None
  else scan_back (fun start =>
         let salt := take 16 (skipn (start + SAMPR_ENCRYPTED_PASSWORD_LEN) stub) in
         password_from_plain (rc4 (md5 (salt ++ session_key)) (take SAMPR_ENCRYPTED_PASSWORD_LEN (skipn start stub))))
         (length stub - BLOCK).

(** ** The interface *)

Inductive HandleKind := HServer | HDomain | HUser | HGroup.

#[export] Instance HandleKind_eq_dec : EqDecision HandleKind.
Proof. solve_decision. Defined.

Record SamrState := mkSamrState {
  next_id : Z;
  handles : gmap bytes HandleKind;
  next_rid : Z;
  created : list (Z * string);
  user_names : gmap bytes string;
  uac : gmap bytes Z;
  group_rids : gmap bytes Z;
}.

(** A call of [AccountStore::persist_account]. *)
Record Persisted := mkPersisted {
  ps_name : string;
  ps_rid : Z;
  ps_password : string;
  ps_nt_hash : bytes;
  ps_kerberos_key : bytes;
}.

(** [persisted] is what reached the attached store, oldest first. *)
Record SamrInterface (A : Type) := mkSamrInterface {
  directory : Directory A;
  kdc : option PrincipalStore;
  persisted : option (list Persisted);
  rid_allocator : option A;
  state : SamrState;
}.
Arguments mkSamrInterface {A}.
Arguments directory {A}. Arguments kdc {A}. Arguments persisted {A}. Arguments rid_allocator {A}. Arguments state {A}.

Definition initial_state : SamrState := mkSamrState 1 ∅ FIRST_CREATED_RID [] ∅ ∅ ∅.

Section samr.
Context {UC : UnicodeTables} {DC : DrsCrypto} {A : Type} {RA : RidAllocator A}.
Context (md4 : bytes -> bytes) (generate_key_from_password : bytes -> bytes -> string + bytes).
Implicit Types i : SamrInterface A.

Abbreviation register_machine_utf16 := (register_machine_utf16 generate_key_from_password).
Abbreviation register_machine := (register_machine generate_key_from_password).

Definition build (d : Directory A) (k : option PrincipalStore) : SamrInterface A := mkSamrInterface d k None None initial_state.
Definition with_account_store i : SamrInterface A :=
  mkSamrInterface (directory i) (kdc i) (Some []) (rid_allocator i) (state i).
Definition with_rid_allocator (a : A) i : SamrInterface A :=
  mkSamrInterface (directory i) (kdc i) (persisted i) (Some a) (state i).

Definition with_state (s : SamrState) i : SamrInterface A :=
  mkSamrInterface (directory i) (kdc i) (persisted i) (rid_allocator i) s.
Definition with_directory (d : Directory A) i : SamrInterface A :=
  mkSamrInterface d (kdc i) (persisted i) (rid_allocator i) (state i).
Definition with_kdc (k : option PrincipalStore) i : SamrInterface A :=
  mkSamrInterface (directory i) k (persisted i) (rid_allocator i) (state i).

Definition persist (p : Persisted) i : SamrInterface A :=
  mkSamrInterface (directory i) (kdc i) (option_map (fun l => l ++ [p]) (persisted i)) (rid_allocator i) (state i).

(** *** Handles *)

Definition handle_of (id : Z) : bytes := to_le_bytes 4 id ++ bytes_of_string "SAMR" ++ replicate 12 0.

Definition open (kind : HandleKind) i : bytes * SamrInterface A :=
  let st := state i in
  let h := handle_of (next_id st) in
  (h, with_state (mkSamrState (u32 (next_id st + 1)) (<[h := kind]> (handles st)) (next_rid st) (created st)
                    (user_names st) (uac st) (group_rids st)) i).

Definition open_group (rid : Z) i : bytes * SamrInterface A :=
  let '(h, i) := open HGroup i in
  let st := state i in
  (h, with_state (mkSamrState (next_id st) (handles st) (next_rid st) (created st) (user_names st) (uac st)
                    (<[h := rid]> (group_rids st))) i).

Definition group_rid (stub : bytes) i : option Z :=
  match handle_bytes stub with Some h => group_rids (state i) !! h | None => None end.

Definition valid (stub : bytes) (kind : HandleKind) i : bool :=
  match handle_bytes stub with
  | Some h => bool_decide (handles (state i) !! h = Some kind)
  | None => false
  end.

Definition close (stub : bytes) i : SamrInterface A :=
  match handle_bytes stub with
  | Some h =>
      let st := state i in
      with_state (mkSamrState (next_id st) (delete h (handles st)) (next_rid st) (created st) (user_names st) (uac st)
                    (group_rids st)) i
  | None => i
  end.

Definition samr_user_name (stub : bytes) i : option string :=
  match handle_bytes stub with Some h => user_names (state i) !! h | None => None end.

(** *** Accounts *)

(** [self.rid_allocator.as_ref().and_then(|a| a.allocate())] *)
Definition draw_rid i : option Z * SamrInterface A :=
  match rid_allocator i with
  | None => (None, i)
  | Some a => let '(r, a') := allocate a in (r, mkSamrInterface (directory i) (kdc i) (persisted i) (Some a') (state i))
  end.

Definition create_user (nm : string) i : (bytes * Z) * SamrInterface A :=
  let '(h, i) := open HUser i in
  let '(allocated, i) := draw_rid i in
  let st := state i in
  let '(rid, next) := match allocated with Some r => (r, next_rid st) | None => (next_rid st, u32 (next_rid st + 1)) end in
  ((h, rid), with_state (mkSamrState (next_id st) (handles st) next (created st ++ [(rid, nm)]) (<[h := nm]> (user_names st))
                           (<[h := DEFAULT_MACHINE_UAC]> (uac st)) (group_rids st)) i).

Definition query_user_info2 (stub : bytes) i : bytes :=
  if negb (bool_decide (info_class stub = Some USER_CONTROL_INFORMATION)) then status_response STATUS_INVALID_PARAMETER
  else match handle_bytes stub with
       | None => status_response STATUS_INVALID_HANDLE
       | Some h => match uac (state i) !! h with
                   | Some value => user_control_response value
                   | None => status_response STATUS_INVALID_HANDLE
                   end
       end.

(** The key of the account in the KDC: [None] when it cannot be derived. *)
Definition rekey (nm : string) (pw_utf16le : bytes) (k : option PrincipalStore) : option (bytes * option PrincipalStore) :=
  match k with
  | None => Some ([], None)
  | Some store =>
      if ends_with nm "$" then
        match register_machine_utf16 nm pw_utf16le store with inr (key, store') => Some (key, Some store') | inl _ => None end
      else
        match register_machine [nm] (utf16le_to_string pw_utf16le) store with inr store' => Some ([], Some store') | inl _ => None end
  end.

Definition created_rid (nm : string) i : Z :=
  match find (fun e => String.eqb e.2 nm) (created (state i)) with Some e => e.1 | None => 0 end.

Definition set_user_info2 (stub : bytes) (session_key : option bytes) i : bytes * SamrInterface A :=
  if bool_decide (info_class stub = Some USER_CONTROL_INFORMATION) then
    match handle_bytes stub, from_le_bytes <$> slice_get stub 24 28 with
    | Some h, Some value =>
        let st := state i in
        (status_response STATUS_SUCCESS,
         with_state (mkSamrState (next_id st) (handles st) (next_rid st) (created st) (user_names st)
                       (<[h := value]> (uac st)) (group_rids st)) i)
    | _, _ => (status_response STATUS_INVALID_PARAMETER, i)
    end
  else match samr_user_name stub i with
  | None => (status_response STATUS_INVALID_HANDLE, i)
  | Some nm =>
      match session_key with
      | None => (status_response STATUS_ACCESS_DENIED, i)
      | Some key =>
          match (match decrypt_sampr_password_new stub key with Some p => Some p | None => decrypt_sampr_password stub key end) with
          | None => (status_response STATUS_INVALID_PARAMETER, i)
          | Some pw_utf16le =>
              let nt := nt_hash_utf16le md4 pw_utf16le in
              let password := utf16le_to_string pw_utf16le in
              match rekey nm pw_utf16le (kdc i) with
              | None => (status_response STATUS_INVALID_PARAMETER, i)
              | Some (kerberos_key, kdc') =>
                  let rid := created_rid nm i in
                  let i := with_kdc kdc' i in
                  let i := with_directory (upsert_runtime_user (mkUser nm rid nt kerberos_key false None) (directory i)) i in
                  (status_response STATUS_SUCCESS, persist (mkPersisted nm rid password nt kerberos_key) i)
              end
          end
      end
  end.

Definition call_create_user2 (stub : bytes) i : bytes * SamrInterface A :=
  if valid stub HDomain i then
    let nm := unwrap_or "MACHINE$" (parse_unicode_string_arg stub) in
    let granted := create_user_desired_access stub in
    let '((h, rid), i) := create_user nm i in
    let initial_password := machine_initial_password nm in
    let '(kerberos_key, kdc') :=
      match kdc i with
      | Some store =>
          match register_machine_utf16 nm (utf16le initial_password) store with
          | inr (key, store') => (key, Some store')
          | inl _ => ([], Some store)
          end
      | None => ([], None)
      end in
    let nt := nt_hash md4 initial_password in
    (create_user_response h granted rid STATUS_SUCCESS,
     persist (mkPersisted nm rid initial_password nt kerberos_key) (with_kdc kdc' i))
  else (create_user_response (replicate 20 0) 0 0 STATUS_INVALID_HANDLE, i).

(** [RpcInterface::call]; [inl] is the status of a fault. *)
Definition call (opnum : Z) (stub : bytes) i : (Z + bytes) * SamrInterface A :=
  let ok x := (inr x.1, x.2) in
  let guarded kind good bad := (inr (if valid stub kind i then good else bad), i) in
  if opnum =? OP_CONNECT then let '(h, i') := open HServer i in (inr (handle_response h STATUS_SUCCESS), i')
  else if opnum =? OP_CLOSE_HANDLE then (inr (handle_response (replicate 20 0) STATUS_SUCCESS), close stub i)
  else if opnum =? OP_LOOKUP_DOMAIN then (inr (domain_sid_response (domain_sid (directory i))), i)
  else if opnum =? OP_ENUM_DOMAINS then
    guarded HServer (enumeration_response [(0, netbios (directory i))] STATUS_SUCCESS) (enumeration_response [] STATUS_INVALID_HANDLE)
  else if opnum =? OP_OPEN_DOMAIN then
    if valid stub HServer i then let '(h, i') := open HDomain i in (inr (handle_response h STATUS_SUCCESS), i')
    else (inr (handle_response (replicate 20 0) STATUS_INVALID_HANDLE), i)
  else if opnum =? OP_ENUM_DOMAIN_GROUPS then
    guarded HDomain (enumeration_response (map (fun g => (AdDirectory.group_rid g, group_name g)) (all_groups (directory i))) STATUS_SUCCESS)
      (enumeration_response [] STATUS_INVALID_HANDLE)
  else if opnum =? OP_OPEN_GROUP then
    if valid stub HDomain i then
      let '(h, i') := open_group (unwrap_or 0 (from_le_bytes <$> slice_get stub 24 28)) i in
      (inr (handle_response h STATUS_SUCCESS), i')
    else (inr (handle_response (replicate 20 0) STATUS_INVALID_HANDLE), i)
  else if opnum =? OP_GET_MEMBERS_IN_GROUP then
    guarded HGroup
      (get_members_response
         (unwrap_or [] (match group_rid stub i with Some rid => group_members rid (directory i) | None => None end)) STATUS_SUCCESS)
      (get_members_response [] STATUS_INVALID_HANDLE)
  else if opnum =? OP_ENUM_USERS then
    guarded HDomain
      (enumeration_response (map (fun u => (user_rid u, user_name u)) (all_users (directory i)) ++ created (state i)) STATUS_SUCCESS)
      (enumeration_response [] STATUS_INVALID_HANDLE)
  else if (opnum =? OP_QUERY_USER_INFO) || (opnum =? OP_QUERY_USER_INFO2) then (inr (query_user_info2 stub i), i)
  else if opnum =? OP_GET_USER_DOMAIN_PWD_INFO then
    guarded HUser user_domain_password_info_response (status_response STATUS_INVALID_HANDLE)
  else if (opnum =? OP_SET_USER_INFO) || (opnum =? OP_SET_USER_INFO2) then ok (set_user_info2 stub None i)
  else if opnum =? OP_CREATE_USER2 then ok (call_create_user2 stub i)
  else (inl fault.OP_RNG_ERROR, i).

Definition call_with_session (opnum : Z) (stub : bytes) (session_key : option bytes) i : (Z + bytes) * SamrInterface A :=
  if (opnum =? OP_SET_USER_INFO) || (opnum =? OP_SET_USER_INFO2) then
    let '(r, i') := set_user_info2 stub session_key i in (inr r, i')
  else call opnum stub i.
End samr.

(** ** Handles *)

Lemma handle_of_inj a b : is_u32 a -> is_u32 b -> handle_of a = handle_of b -> a = b.
Proof.
  intros Ha Hb E. apply (f_equal (fun l => from_le_bytes (take 4 l))) in E. unfold handle_of in E.
  rewrite !take_app_length' in E by (by rewrite to_le_bytes_length). unfold is_u32 in *.
  rewrite !from_to_le_bytes in E; [done|change (256 ^ Z.of_nat 4) with (2 ^ 32); lia..].
Qed.

Section handles.
Context {UC : UnicodeTables} {DC : DrsCrypto} {A : Type} {RA : RidAllocator A}.
Context (md4 : bytes -> bytes) (generate_key_from_password : bytes -> bytes -> string + bytes).
Implicit Types i : SamrInterface A.

Abbreviation call := (call md4 generate_key_from_password).
Abbreviation call_with_session := (call_with_session md4 generate_key_from_password).
Abbreviation set_user_info2 := (set_user_info2 md4 generate_key_from_password).
Abbreviation call_create_user2 := (call_create_user2 md4 generate_key_from_password).

(** A request: its operation, its arguments and the session key of its connection. *)
Record request := mkRequest { rq_opnum : Z; rq_stub : bytes; rq_key : option bytes }.

Definition run (i : SamrInterface A) (cs : list request) : SamrInterface A :=
  fold_left (fun i c => (call_with_session (rq_opnum c) (rq_stub c) (rq_key c) i).2) cs i.

Definition closes (h : bytes) (c : request) : Prop := rq_opnum c = OP_CLOSE_HANDLE /\ handle_bytes (rq_stub c) = Some h.

(** What the tables say of a handle. *)
Definition same_at (h : bytes) (s s' : SamrState) : Prop :=
  user_names s' !! h = user_names s !! h /\ group_rids s' !! h = group_rids s !! h.

(** A step of the tables: nothing that concerns handles, or one new handle. *)
Inductive tables_step (s s' : SamrState) : Prop :=
  | tables_kept : next_id s' = next_id s -> handles s' = handles s -> user_names s' = user_names s ->
      group_rids s' = group_rids s -> tables_step s s'
  | tables_opened kind : next_id s' = u32 (next_id s + 1) -> handles s' = <[handle_of (next_id s) := kind]> (handles s) ->
      (forall h, h <> handle_of (next_id s) -> same_at h s s') -> tables_step s s'.

Hint Resolve tables_kept : samr.

Lemma draw_rid_state i : state (draw_rid i).2 = state i.
Proof. unfold draw_rid. destruct (rid_allocator i); [|done]. by destruct (allocate a). Qed.

Lemma open_step kind i : tables_step (state i) (state (open kind i).2).
Proof. by eapply tables_opened. Qed.

Lemma open_group_step rid i : tables_step (state i) (state (open_group rid i).2).
Proof.
  eapply tables_opened; [done..|]. intros h Hh. split; [done|]. simpl. by rewrite lookup_insert_ne.
Qed.

Lemma create_user_step nm i : tables_step (state i) (state (create_user nm i).2).
Proof.
  unfold create_user. cbn [open]. pose proof (draw_rid_state (open HUser i).2) as Hd.
  destruct (open HUser i) as [h i1] eqn:E. injection E as <- <-. simpl in Hd |- *.
  destruct (draw_rid _) as [r i2]. simpl in Hd. rewrite Hd. destruct r; simpl.
  all: eapply tables_opened; [done..|]; intros h Hh; split; [|done]; simpl; by rewrite lookup_insert_ne.
Qed.

Lemma create_user2_step stub i : tables_step (state i) (state (call_create_user2 stub i).2).
Proof.
  unfold Samr.call_create_user2. destruct (valid stub HDomain i); [|by apply tables_kept].
  pose proof (create_user_step (unwrap_or "MACHINE$" (parse_unicode_string_arg stub)) i) as H.
  destruct (create_user _ i) as [[h rid] i']. destruct (match kdc i' with Some _ => _ | None => _ end) as [k kdc']. done.
Qed.

Lemma set_user_info2_step stub key i : tables_step (state i) (state (set_user_info2 stub key i).2).
Proof.
  unfold Samr.set_user_info2. repeat first [case_bool_decide|case_match]; simpl; by apply tables_kept.
Qed.

Lemma call_step opnum stub i : opnum <> OP_CLOSE_HANDLE -> tables_step (state i) (state (call opnum stub i).2).
Proof.
  intros Hc. unfold Samr.call. rewrite (proj2 (Z.eqb_neq _ _) Hc).
  repeat match goal with |- context [if ?b then _ else _] =>
    match type of b with bool => destruct b end end;
  first [by apply tables_kept|apply open_step|apply open_group_step|apply set_user_info2_step|apply create_user2_step].
Qed.

Lemma call_with_session_step opnum stub key i : opnum <> OP_CLOSE_HANDLE ->
  tables_step (state i) (state (call_with_session opnum stub key i).2).
Proof.
  intros Hc. unfold Samr.call_with_session. destruct (_ || _); [|by apply call_step].
  pose proof (set_user_info2_step stub key i). by destruct (set_user_info2 stub key i).
Qed.

Lemma close_call stub key i : (call_with_session OP_CLOSE_HANDLE stub key i).2 = close stub i.
Proof. done. Qed.

(** An issued handle keeps its meaning through every sequence of calls: no other
    account or group is ever found under it, and only closing it ends its kind. *)
Lemma issued_handle_keeps_meaning id i cs : 0 <= id < next_id (state i) -> next_id (state i) + len cs < 2 ^ 32 ->
  let h := handle_of id in
  same_at h (state i) (state (run i cs)) /\
  (Forall (fun c => ~ closes h c) cs -> handles (state (run i cs)) !! h = handles (state i) !! h).
Proof.
  intros Hid Hb h. revert i Hid Hb. induction cs as [|[op stub key] cs IH]; intros i Hid Hb; [done|].
  change (run i (mkRequest op stub key :: cs)) with (run (call_with_session op stub key i).2 cs).
  assert (len cs >= 0) by (unfold len; lia). unfold len in Hb. cbn [length] in Hb. fold (@len request cs) in *.
  destruct (Z.eq_dec op OP_CLOSE_HANDLE) as [->|Hop].
  - rewrite close_call. assert (next_id (state (close stub i)) = next_id (state i) /\ same_at h (state i) (state (close stub i))) as [Hn Hs].
    { unfold close. by destruct (handle_bytes stub). }
    destruct (IH (close stub i)) as [[H1 H2] H3]; [lia|unfold len in *; lia|]. destruct Hs as [Hs1 Hs2].
    split; [split; congruence|]. intros [Hc Hcs]%Forall_cons. rewrite H3 by done. unfold close.
    destruct (handle_bytes stub) as [h'|] eqn:E; [|done]. simpl. rewrite lookup_delete_ne; [done|]. intros ->. by destruct Hc.
  - destruct (call_with_session_step op stub key i Hop) as [Hn Hh Hu Hg|kind Hn Hh Hs].
    + destruct (IH (call_with_session op stub key i).2) as [[H1 H2] H3]; [lia|unfold len in *; lia|].
      split; [split; congruence|]. intros [_ Hcs]%Forall_cons. by rewrite H3, Hh.
    + assert (u32 (next_id (state i) + 1) = next_id (state i) + 1) as Hw by (unfold u32; apply Z.mod_small; unfold len in *; lia).
      rewrite Hw in Hn. assert (h <> handle_of (next_id (state i))) as Hne.
      { intros E%handle_of_inj; unfold is_u32 in *; unfold len in *; lia. }
      destruct (IH (call_with_session op stub key i).2) as [[H1 H2] H3]; [lia|unfold len in *; lia|].
      destruct (Hs h Hne) as [Hs1 Hs2]. split; [split; congruence|]. intros [_ Hcs]%Forall_cons.
      rewrite H3, Hh by done. by rewrite lookup_insert_ne.
Qed.
End handles.

(** ** What the calls do to the key distribution centre *)

Section keys.
Context {UC : UnicodeTables} {DC : DrsCrypto} {A : Type} {RA : RidAllocator A}.
Context (md4 : bytes -> bytes) (generate_key_from_password : bytes -> bytes -> string + bytes).
Implicit Types i : SamrInterface A.

Abbreviation call := (call md4 generate_key_from_password).
Abbreviation call_with_session := (call_with_session md4 generate_key_from_password).
Abbreviation set_user_info2 := (set_user_info2 md4 generate_key_from_password).
Abbreviation call_create_user2 := (call_create_user2 md4 generate_key_from_password).
Abbreviation machine_kerberos_key := (machine_kerberos_key generate_key_from_password).

(** The accounts: what a call without effect on them leaves alone. *)
Definition accounts i := (kdc i, runtime_users (directory i), persisted i).

Lemma draw_rid_accounts i : accounts (draw_rid i).2 = accounts i.
Proof. unfold draw_rid. destruct (rid_allocator i); [|done]. by destruct (allocate a). Qed.

Lemma create_user_accounts nm i : accounts (create_user nm i).2 = accounts i.
Proof.
  unfold create_user. pose proof (draw_rid_accounts (open HUser i).2) as Hd.
  destruct (open HUser i) as [h i1] eqn:E. injection E as <- <-. simpl in Hd |- *.
  destruct (draw_rid _) as [r i2]. by destruct r.
Qed.

(** Without a session key, setting information never reaches the accounts. *)
Lemma set_user_info2_unauthenticated stub i : accounts (set_user_info2 stub None i).2 = accounts i.
Proof. unfold Samr.set_user_info2. by repeat first [case_bool_decide|case_match]. Qed.

Lemma call_accounts opnum stub i : opnum <> OP_CREATE_USER2 -> accounts (call opnum stub i).2 = accounts i.
Proof.
  intros Hc. unfold Samr.call. rewrite (proj2 (Z.eqb_neq _ _) Hc).
  repeat match goal with |- context [if ?b then _ else _] =>
    match type of b with bool => destruct b end end;
  try done; [unfold close; by destruct (handle_bytes stub)|apply set_user_info2_unauthenticated].
Qed.

(** A machine's key answers under each of its aliases that is not revoked. *)
Lemma get_machine_utf16 sam pw store store' k nm :
  register_machine_utf16 generate_key_from_password sam pw store = inr (k, store') ->
  lookup_key nm ∈ alias_keys (realm store) sam -> lookup_key nm ∉ revoked store ->
  exists p, get nm store' = Some p /\ key (pkey p) = k.
Proof.
  unfold register_machine_utf16. destruct (machine_kerberos_key _ sam pw) as [e|k']; [done|]. intros [= <- <-] Hin Hr.
  unfold get, with_runtime. simpl. rewrite decide_False by done.
  destruct (with_aliases_lookup generate_key_from_password (realm store) sam k' (dynamic store) (lookup_key nm)) as [(nm' & _ & _ & ->)|[Hn _]]; [|done].
  by eexists.
Qed.

Lemma register_machine_utf16_key sam pw store store' k :
  register_machine_utf16 generate_key_from_password sam pw store = inr (k, store') -> machine_kerberos_key (realm store) sam pw = inr k.
Proof. unfold register_machine_utf16. destruct (machine_kerberos_key _ sam pw) as [e|k']; [done|]. by intros [= <- <-]. Qed.

(** Creating an account replaces whatever the KDC holds under its name, and its
    key is that of the initial password, which only depends on the name. *)
Lemma created_account_owns_its_name stub i store sam k nm :
  valid stub HDomain i = true -> parse_unicode_string_arg stub = Some sam -> kdc i = Some store ->
  machine_kerberos_key (realm store) sam (utf16le (machine_initial_password sam)) = inr k ->
  lookup_key nm ∈ alias_keys (realm store) sam -> lookup_key nm ∉ revoked store ->
  exists store' p, kdc (call OP_CREATE_USER2 stub i).2 = Some store' /\ get nm store' = Some p /\ key (pkey p) = k.
Proof.
  intros Hv Hp Hk Hkey Hin Hr.
  change (call OP_CREATE_USER2 stub i) with ((fun x : bytes * SamrInterface A => (@inr Z bytes x.1, x.2)) (call_create_user2 stub i)). cbn beta.
  unfold Samr.call_create_user2. rewrite Hv, Hp. cbn [unwrap_or].
  pose proof (create_user_accounts sam i) as Ha. destruct (create_user sam i) as [[h rid] i']. apply (f_equal (fun x => x.1.1)) in Ha.
  simpl in Ha. rewrite Ha, Hk. destruct (register_machine_utf16 _ sam _ store) as [e|[k' store']] eqn:E.
  { unfold register_machine_utf16 in E. rewrite Hkey in E. done. }
  pose proof (register_machine_utf16_key _ _ _ _ _ E) as Hk'. rewrite Hkey in Hk'. injection Hk' as <-.
  destruct (get_machine_utf16 _ _ _ _ _ _ E Hin Hr) as (p & Hg & Hpk). by exists store', p.
Qed.
End keys.

(** ** Setting a password *)

(** The buffer a joining machine sends: the password at the end of 512 bytes and
    its length, under RC4 with a salted key, and the salt. *)
Definition sealed_password `{DrsCrypto} (session_key salt fill pw : bytes) : bytes :=
  rc4 (md5 (salt ++ session_key)) (fill ++ pw ++ to_le_bytes 4 (len pw)) ++ salt.

Record password_block (salt fill pw : bytes) : Prop := {
  block_salt : length salt = 16%nat;
  block_fill : (length fill + length pw = 512)%nat;
  block_some : (0 < length pw)%nat;
  block_even : (length pw mod 2 = 0)%nat;
}.

Lemma password_from_block salt fill pw : password_block salt fill pw ->
  password_from_plain (fill ++ pw ++ to_le_bytes 4 (len pw)) = Some pw.
Proof.
  intros [_ Hf Hs He]. unfold password_from_plain.
  assert (Z.to_nat (from_le_bytes (to_le_bytes 4 (len pw))) = length pw) as Hlen.
  { rewrite from_to_le_bytes; unfold len; [lia|]. change (256 ^ Z.of_nat 4) with (2 ^ 32). lia. }
  rewrite (slice_get_app _ (to_le_bytes 4 (len pw)) [] 512 4).
  - rewrite Hlen. rewrite (proj2 (Nat.eqb_neq _ _)), (proj2 (Nat.ltb_ge _ _)), He by lia. simpl.
    replace (512 - length pw)%nat with (length fill) by lia. by rewrite drop_app_length', take_app_length' by done.
  - rewrite app_assoc, app_nil_r. by apply drop_app_length'; rewrite length_app.
  - rewrite !length_app. lia.
  - apply to_le_bytes_length.
Qed.

Section set_password.
Context {UC : UnicodeTables} {DC : DrsCrypto} {A : Type} {RA : RidAllocator A}.
Context (md4 : bytes -> bytes) (generate_key_from_password : bytes -> bytes -> string + bytes).
Implicit Types i : SamrInterface A.

Abbreviation set_user_info2 := (set_user_info2 md4 generate_key_from_password).
Abbreviation machine_kerberos_key := (machine_kerberos_key generate_key_from_password).

(** The scan starts at the end of the stub, where the buffer is. *)
Lemma decrypt_sealed_password session_key salt fill pw pre : password_block salt fill pw ->
  decrypt_sampr_password_new (pre ++ sealed_password session_key salt fill pw) session_key = Some pw.
Proof.
  intros Hb. unfold decrypt_sampr_password_new, sealed_password.
  set (plain := fill ++ pw ++ to_le_bytes 4 (len pw)). set (k := md5 (salt ++ session_key)).
  assert (length (rc4 k plain) = SAMPR_ENCRYPTED_PASSWORD_LEN) as Hl.
  { rewrite rc4_length. unfold plain. rewrite !length_app, to_le_bytes_length. destruct Hb. unfold SAMPR_ENCRYPTED_PASSWORD_LEN. lia. }
  assert (length salt = 16%nat) as Hs by by destruct Hb.
  assert (length (pre ++ rc4 k plain ++ salt) = (length pre + BLOCK)%nat) as Hlen.
  { rewrite !length_app, Hl, Hs. unfold BLOCK. lia. }
  rewrite Hlen, (proj2 (Nat.ltb_ge _ _)) by lia. replace (length pre + BLOCK - BLOCK)%nat with (length pre) by lia.
  assert (drop (length pre) (pre ++ rc4 k plain ++ salt) = rc4 k plain ++ salt) as Hd1 by (by apply drop_app_length').
  assert (drop (length pre + SAMPR_ENCRYPTED_PASSWORD_LEN) (pre ++ rc4 k plain ++ salt) = salt) as Hd2.
  { rewrite <- drop_drop, Hd1. by apply drop_app_length'. }
  destruct (length pre) as [|n] eqn:En; cbn [scan_back]; rewrite ?Hd1, ?Hd2, take_app_length' by done;
    rewrite (take_ge salt) by lia; fold k; rewrite rc4_involution; unfold plain; by rewrite (password_from_block salt).
Qed.

End set_password.

(** ** Witnesses *)

Module samr_demo.
#[local] Instance ascii_only : UnicodeTables := {| unicode_lowercase s := s; unicode_uppercase s := s |}.
#[local] Instance no_allocator : RidAllocator unit := {| allocate a := (None, a); allocate_pool _ a := (None, a) |}.
#[local] Instance toy_md5 : DrsCrypto := {| des_encrypt_block _ b := b; des_decrypt_block _ b := b; md5 b := take 16 (b ++ replicate 16 7) |}.
Definition md4 (b : bytes) : bytes := take 16 (b ++ replicate 16 0).
Definition string_to_key (password salt : bytes) : string + bytes := inr (take 32 (password ++ salt)).

Definition kdc0 : PrincipalStore := new_store "EX.COM".
Definition dir0 : Directory unit := new_directory "EX" "ex.com" "EX.COM" [21; 1; 2; 3].
(** Handle 1 is the server, 2 the domain, 3 the account [PC1$]. *)
Definition opened : SamrInterface unit :=
  (create_user "PC1$" (open HDomain (open HServer (with_account_store (build dir0 (Some kdc0)))).2).2).2.

Definition other_calls : list request :=
  [mkRequest OP_CONNECT [] None; mkRequest OP_CLOSE_HANDLE (handle_of 1) None; mkRequest OP_OPEN_GROUP (handle_of 2 ++ replicate 8 1) None].

Lemma issued_handle_keeps_meaning_witness :
  same_at (handle_of 3) (state opened) (state (run md4 string_to_key opened other_calls)) /\
  handles (state (run md4 string_to_key opened other_calls)) !! handle_of 3 = Some HUser.
Proof.
  destruct (issued_handle_keeps_meaning md4 string_to_key 3 opened other_calls) as [H1 H2].
  - vm_compute. split; congruence.
  - reflexivity.
  - split; [exact H1|]. rewrite H2; [reflexivity|].
    apply Forall_cons. split; [intros [H _]; vm_compute in H; congruence|].
    apply Forall_cons. split; [intros [_ H]; vm_compute in H; congruence|].
    apply Forall_cons. split; [intros [H _]; vm_compute in H; congruence|]. constructor.
Defined.

Definition session : bytes := replicate 16 3.
Definition password : bytes := [0x53; 0; 0x00; 0xd8; 0x21; 0].
Definition prefix : bytes := handle_of 3 ++ [25; 0; 25; 0] ++ replicate 8 0.
Definition set_stub : bytes := prefix ++ sealed_password session (replicate 16 4) (replicate 506 6) password.
Definition new_key : bytes := match machine_kerberos_key string_to_key "EX.COM" "PC1$" password with inr k => k | inl _ => [] end.

End samr_demo.
