(* ===== verification/Netlogon.v ===== *)
(** * The Netlogon secure channel

    [crates/magnetite-rpc/src/netlogon.rs]: the challenge and authentication calls,
    the rotation of a machine password, the signatures and sealing of the calls that
    follow, and the logon reply.  AES-128 on one block and HMAC-SHA256 are a class;
    the cipher feedback mode over them is the code of the file.

    [unseal_seal_aes] is the round trip of the sealing layer, [rotations_stay_in_step]
    what a machine that rotates its password relies on, [rotation_follows_last_challenge]
    for whom a rotation takes effect, and [zero_credential_accepted_iff] when a session
    is opened without knowing the password. *)

From S2P Require Import Prelude Bytes RustStr Utf16 KdcStore Ndr AdDirectory Rpc Samr.

Local Open Scope Z_scope.
Local Open Scope ndr_scope.

Class NetlogonCrypto := {
  aes128_encrypt_block : bytes -> bytes -> bytes;
  hmac_sha256 : bytes -> bytes -> bytes;
}.

(** ** Constants *)

Module Netlogon.
Definition OP_REQ_CHALLENGE : Z := 4.
Definition OP_PASSWORD_SET2 : Z := 30.
Definition OP_GET_CAPABILITIES : Z := 21.
Definition OP_AUTHENTICATE3 : Z := 26.
Definition OP_SAM_LOGON_EX : Z := 39.
Definition SERVER_CHALLENGE : bytes := bytes_of_string "MAGNSVR1".
End Netlogon.

Definition LOGON_USER : string := "alice".
Definition LOGON_DOMAIN : string := "EXAMPLE".
Definition LOGON_USER_RID : Z := 1000.
Definition LOGON_PRIMARY_GID : Z := 513.
Definition DOMAIN_SID_SUBAUTH : list Z := [21; 1; 2; 3].
Definition SERVER_CAPABILITIES : Z := 0x00000001.
Definition STATUS_NO_TRUST_SAM_ACCOUNT : Z := 0xC0000233.
Definition MACHINE_ACCOUNT_RID : Z := 1001.
Definition NL_SIGNATURE_HMAC_SHA256 : Z := 0x0013.
Definition NL_SEAL_NOT_ENCRYPTED : Z := 0xffff.
Definition NL_SEAL_AES128 : Z := 0x001A.
Definition SEAL_CONFOUNDER : bytes := bytes_of_string "MAGSEAL1".

(** ** Cipher feedback *)

Section cfb8.
Context {NC : NetlogonCrypto}.

(** [iv.copy_within(1..16, 0); iv[15] = c] *)
Definition shift_iv (iv : bytes) (c : Z) : bytes := skipn 1 iv ++ [c].

Fixpoint aes128_cfb8_encrypt (key iv data : bytes) : bytes :=
  match data with
  | [] => []
  | byte :: data' =>
      let c := Z.lxor byte (aes128_encrypt_block key iv !!! 0%nat) in
      c :: aes128_cfb8_encrypt key (shift_iv iv c) data'
  end.

Fixpoint aes128_cfb8_decrypt (key iv data : bytes) : bytes :=
  match data with
  | [] => []
  | c :: data' => Z.lxor c (aes128_encrypt_block key iv !!! 0%nat) :: aes128_cfb8_decrypt key (shift_iv iv c) data'
  end.

Definition session_key_aes (nt_hash client server : bytes) : bytes := take 16 (hmac_sha256 nt_hash (client ++ server)).
Definition netlogon_credential_aes (session_key input : bytes) : bytes := aes128_cfb8_encrypt session_key (replicate 16 0) input.

(** ** Signatures and sealing *)

Definition signature_header (seal_algorithm : Z) : bytes :=
  to_le_bytes 2 NL_SIGNATURE_HMAC_SHA256 ++ to_le_bytes 2 seal_algorithm ++ to_le_bytes 2 0xffff ++ to_le_bytes 2 0.

Definition nl_seal_key (session_key : bytes) : bytes := map (fun b => Z.lxor b 0xf0) session_key.

Definition derive_sequence_number (sequence : Z) : bytes :=
  let low := Z.land sequence 0xffffffff in
  let high := Z.lor (u32 (Z.shiftr sequence 32)) 0x80000000 in
  to_be_bytes 4 low ++ to_be_bytes 4 high.

Definition sign_integrity_aes (session_key data : bytes) (sequence : Z) : bytes :=
  let header := signature_header NL_SEAL_NOT_ENCRYPTED in
  let checksum := take 8 (hmac_sha256 session_key (header ++ data)) in
  let seq_enc := aes128_cfb8_encrypt session_key (checksum ++ checksum) (derive_sequence_number sequence) in
  header ++ seq_enc ++ checksum ++ replicate 24 0.

(** The ciphertext and the signature. *)
Definition seal_aes (session_key plain confounder : bytes) (sequence : Z) : bytes * bytes :=
  let header := signature_header NL_SEAL_AES128 in
  let checksum := take 8 (hmac_sha256 session_key (header ++ confounder ++ plain)) in
  let derived := derive_sequence_number sequence in
  let stream := aes128_cfb8_encrypt (nl_seal_key session_key) (derived ++ derived) (confounder ++ plain) in
  let seq_enc := aes128_cfb8_encrypt session_key (checksum ++ checksum) derived in
  (skipn 8 stream, header ++ seq_enc ++ checksum ++ take 8 stream ++ replicate 24 0).

Definition seal_response_aes (session_key plain : bytes) (sequence : Z) : bytes * bytes :=
  seal_aes session_key plain SEAL_CONFOUNDER sequence.

Definition unseal_aes (session_key ciphertext signature : bytes) (sequence : Z) : option bytes :=
  if (length signature <? 32)%nat then None
  else
    let seq_field := take 8 (skipn 8 signature) in
    let checksum_field := take 8 (skipn 16 signature) in
    let enc_confounder := take 8 (skipn 24 signature) in
    let derived := derive_sequence_number sequence in
    let plain := aes128_cfb8_decrypt (nl_seal_key session_key) (derived ++ derived) (enc_confounder ++ ciphertext) in
    let header := signature_header NL_SEAL_AES128 in
    if negb (bool_decide (take 8 (hmac_sha256 session_key (header ++ take 8 plain ++ skipn 8 plain)) = checksum_field)) then None
    else if negb (bool_decide (aes128_cfb8_encrypt session_key (checksum_field ++ checksum_field) derived = seq_field)) then None
    else Some (skipn 8 plain).

(** [build_signed_response] and [build_sealed_response] of [auth.rs] *)
Definition build_signed_response (call_id context_id : Z) (stub session_key : bytes) (sequence : Z) : bytes :=
  let pad := response_pad (length stub) in
  let plain := stub ++ replicate pad 0 in
  build_auth_response_typed call_id context_id plain RPC_C_AUTHN_NETLOGON RPC_C_AUTHN_LEVEL_PKT_INTEGRITY pad
    (sign_integrity_aes session_key plain sequence).

Definition build_sealed_response (call_id context_id : Z) (stub session_key : bytes) (sequence : Z) : bytes :=
  let pad := response_pad (length stub) in
  let plain := stub ++ replicate pad 0xBB in
  let '(ciphertext, signature) := seal_response_aes session_key plain sequence in
  build_auth_response_typed call_id context_id ciphertext RPC_C_AUTHN_NETLOGON RPC_C_AUTHN_LEVEL_PKT_PRIVACY pad signature.
End cfb8.

(** ** The interface *)

Record Challenges := mkChallenges { ch_client : bytes; ch_server : bytes }.

Record NetlogonState := mkNetlogonState {
  challenges : option Challenges;
  nl_session_key : option bytes;
  machine_nt_hash : bytes;
  stored_credential : option bytes;
  computer_name : option string;
}.

Record NetlogonInterface (A : Type) := mkNetlogonInterface {
  nl_state : NetlogonState;
  nl_kdc : option PrincipalStore;
  nl_persisted : option (list Persisted);
  nl_directory : option (Directory A);
}.
Arguments mkNetlogonInterface {A}.
Arguments nl_state {A}. Arguments nl_kdc {A}. Arguments nl_persisted {A}. Arguments nl_directory {A}.

Definition advance_credential (credential : bytes) (delta : Z) : bytes :=
  to_le_bytes 4 (u32 (from_le_bytes (take 4 credential) + delta)) ++ skipn 4 credential.

Definition password_set2_error (status : Z) : bytes := replicate 12 0 ++ to_le_bytes 4 status.

Definition extract_trust_password (plain : bytes) : option bytes :=
  match slice_get plain 512 516 with
  | None => None
  | Some l =>
      let length := Z.to_nat (from_le_bytes l) in
      if (length =? 0)%nat || (512 <? length)%nat || negb (length mod 2 =? 0)%nat then None
      else Some (take length (skipn (512 - length) plain))
  end.

Definition auth_response (server_credential : bytes) (negotiate_flags status : Z) : bytes :=
  server_credential ++ to_le_bytes 4 negotiate_flags ++ to_le_bytes 4 MACHINE_ACCOUNT_RID ++ to_le_bytes 4 status.

(** *** The logon reply *)

Inductive Deferred :=
  | DeferredUtf16 (units : list Z)
  | DeferredGroups (groups : list (Z * Z))
  | DeferredSid (id_auth : bytes) (sub : list Z).

(** The buffer, the queue of referents and the next number. *)
Definition info_writer := (bytes * list Deferred) * Z -> (bytes * list Deferred) * Z.

Definition put (w : writer) : info_writer := fun '((buf, d), r) => ((w buf, d), r).

Definition pointer (item : option Deferred) : info_writer := fun '((buf, d), r) =>
  match item with
  | Some x => ((w_u32 r buf, d ++ [x]), u32 (r + 4))
  | None => ((w_u32 0 buf, d), r)
  end.

Definition unicode_string (s : string) : info_writer := fun st =>
  let units := encode_utf16 s in
  let byte_len := u16 (len units * 2) in
  pointer (match units with [] => None | _ => Some (DeferredUtf16 units) end) (put (w_u16 byte_len) (put (w_u16 byte_len) st)).

Definition write_deferred (d : Deferred) : list writer :=
  match d with
  | DeferredUtf16 units => let n := u32 (len units) in [w_u32 n; w_u32 0; w_u32 n] ++ map w_u16 units
  | DeferredGroups gs => w_u32 (u32 (len gs)) :: flat_map (fun g => [w_u32 g.1; w_u32 g.2]) gs
  | DeferredSid id_auth sub => [w_u32 (u32 (len sub)); w_u8 1; w_u8 (u8 (len sub)); w_bytes id_auth] ++ map w_u32 sub
  end.

Definition sam_logon_ex_response (domain_sub : list Z) : bytes :=
  let fields : list info_writer :=
    [put (w_u16 3); put (w_u32 0x00020000)] ++ repeat (put (w_u32 0)) 12 ++
    [unicode_string LOGON_USER] ++ repeat (unicode_string EmptyString) 5 ++
    [put (w_u16 0); put (w_u16 0); put (w_u32 LOGON_USER_RID); put (w_u32 LOGON_PRIMARY_GID); put (w_u32 1);
     pointer (Some (DeferredGroups [(LOGON_PRIMARY_GID, 7)])); put (w_u32 0); put (w_bytes (replicate 16 0));
     unicode_string EmptyString; unicode_string LOGON_DOMAIN; pointer (Some (DeferredSid NT_AUTHORITY domain_sub));
     put (w_bytes (replicate 40 0)); put (w_u32 0); pointer None] in
  let '((buf, deferred), _) := fold_left (fun st w => w st) fields (([], []), 0x00020004) in
  fold_left (fun buf w => w buf) (flat_map write_deferred deferred ++ [w_u8 1; w_u32 0; w_u32 STATUS_SUCCESS]) buf.

(** *** The calls *)

Section interface.
Context {UC : UnicodeTables} {NC : NetlogonCrypto} {A : Type}.
Context (md4 : bytes -> bytes) (generate_key_from_password : bytes -> bytes -> string + bytes).
Implicit Types i : NetlogonInterface A.

Abbreviation register_machine_utf16 := (register_machine_utf16 generate_key_from_password).

Definition new_netlogon (machine_password : string) : NetlogonInterface A :=
  mkNetlogonInterface (mkNetlogonState None None (nt_hash md4 machine_password) None None) None None None.

Definition with_nl_state (s : NetlogonState) i : NetlogonInterface A :=
  mkNetlogonInterface s (nl_kdc i) (nl_persisted i) (nl_directory i).

Definition parse_req_challenge : reader (string * bytes) :=
  rd! _ <- skip_unique_wstr; rd! computer <- read_wstr; rd! client <- r_take 8; r_ret (computer, client).

Definition req_challenge (stub : bytes) i : (Z + bytes) * NetlogonInterface A :=
  match parse_req_challenge stub 0%nat with
  | None => (inl fault.NDR, i)
  | Some ((computer, client), _) =>
      let st := nl_state i in
      let name := if bool_decide (computer = EmptyString) then computer_name st else Some computer in
      (inr (Netlogon.SERVER_CHALLENGE ++ to_le_bytes 4 STATUS_SUCCESS),
       with_nl_state (mkNetlogonState (Some (mkChallenges client Netlogon.SERVER_CHALLENGE)) (nl_session_key st) (machine_nt_hash st)
                        (stored_credential st) name) i)
  end.

Definition parse_authenticate3 : reader (string * bytes * Z) :=
  rd! _ <- skip_unique_wstr; rd! account_name <- read_wstr; rd! _ <- r_u16; rd! _ <- skip_wstr;
  rd! client_credential <- r_take 8; rd! negotiate_flags <- r_u32; r_ret (account_name, client_credential, negotiate_flags).

(** The hash of the named account, from the directory when there is one. *)
Definition resolve_hash (account_name : string) i : option (NetlogonInterface A) :=
  match nl_directory i with
  | None => Some i
  | Some d =>
      match find_user account_name d with
      | None => None
      | Some u =>
          let st := nl_state i in
          Some (with_nl_state (mkNetlogonState (challenges st) (nl_session_key st) (user_nt_hash u) (stored_credential st)
                                 (computer_name st)) i)
      end
  end.

Definition authenticate3 (stub : bytes) i : (Z + bytes) * NetlogonInterface A :=
  match parse_authenticate3 stub 0%nat with
  | None => (inl fault.NDR, i)
  | Some ((account_name, client_credential, flags), _) =>
      let refuse status := inr (auth_response (replicate 8 0) flags status) in
      match resolve_hash account_name i with
      | None => (refuse STATUS_NO_TRUST_SAM_ACCOUNT, i)
      | Some i =>
          let st := nl_state i in
          match challenges st with
          | None => (refuse STATUS_ACCESS_DENIED, i)
          | Some ch =>
              if bool_decide (ch_client ch = replicate 8 0) then (refuse STATUS_ACCESS_DENIED, i)
              else
                let key := session_key_aes (machine_nt_hash st) (ch_client ch) (ch_server ch) in
                let expected := netlogon_credential_aes key (ch_client ch) in
                if negb (bool_decide (expected = client_credential)) then (refuse STATUS_ACCESS_DENIED, i)
                else
                  (inr (auth_response (netlogon_credential_aes key (ch_server ch)) flags STATUS_SUCCESS),
                   with_nl_state (mkNetlogonState (challenges st) (Some key) (machine_nt_hash st) (Some expected) (computer_name st)) i)
          end
      end
  end.

(** The trailing 516 bytes of what remains. *)
Definition parse_password_set2 : reader (bytes * Z * bytes) :=
  rd! _ <- skip_unique_wstr; rd! _ <- skip_wstr; rd! _ <- r_u16; rd! _ <- skip_wstr;
  rd! auth_credential <- r_take 8; rd! timestamp <- r_u32;
  fun buf pos =>
    let rem := skipn pos buf in
    if (length rem <? 516)%nat then None else Some ((auth_credential, timestamp, skipn (length rem - 516) rem), pos).

(** The new password of [account] in the KDC, the store and the directory. *)
Definition publish_rotation (account : string) (new_password new_nt_hash : bytes) i : option (NetlogonInterface A) :=
  let finish kerberos_key kdc' :=
    Some (mkNetlogonInterface (nl_state i) kdc'
            (option_map (fun l => l ++ [mkPersisted account 0 EmptyString new_nt_hash kerberos_key]) (nl_persisted i))
            (option_map (upsert_runtime_user (mkUser account 0 new_nt_hash kerberos_key false None)) (nl_directory i))) in
  match nl_kdc i with
  | None => finish [] None
  | Some store =>
      match register_machine_utf16 account new_password store with
      | inl _ => None
      | inr (key, store') => finish key (Some store')
      end
  end.

Definition password_set2 (stub : bytes) i : (Z + bytes) * NetlogonInterface A :=
  match nl_session_key (nl_state i), stored_credential (nl_state i) with
  | Some key, Some stored =>
      match parse_password_set2 stub 0%nat with
      | None => (inl fault.NDR, i)
      | Some ((auth_credential, timestamp, encrypted), _) =>
          let advanced := advance_credential stored timestamp in
          if negb (bool_decide (netlogon_credential_aes key advanced = auth_credential))
          then (inr (password_set2_error STATUS_ACCESS_DENIED), i)
          else match extract_trust_password (aes128_cfb8_decrypt key (replicate 16 0) encrypted) with
          | None => (inr (password_set2_error STATUS_ACCESS_DENIED), i)
          | Some new_password =>
              let next := advance_credential advanced 1 in
              let new_nt_hash := nt_hash_utf16le md4 new_password in
              let st := nl_state i in
              let i := with_nl_state (mkNetlogonState (challenges st) (nl_session_key st) new_nt_hash (Some next) (computer_name st)) i in
              let ok := inr (netlogon_credential_aes key next ++ to_le_bytes 4 0 ++ to_le_bytes 4 STATUS_SUCCESS) in
              match computer_name st with
              | None => (ok, i)
              | Some computer =>
                  match publish_rotation (computer +:+ "$") new_password new_nt_hash i with
                  | None => (inr (password_set2_error STATUS_ACCESS_DENIED), i)
                  | Some i => (ok, i)
                  end
              end
          end
      end
  | _, _ => (inr (password_set2_error STATUS_ACCESS_DENIED), i)
  end.

Definition nl_call (opnum : Z) (stub : bytes) i : (Z + bytes) * NetlogonInterface A :=
  if opnum =? Netlogon.OP_REQ_CHALLENGE then req_challenge stub i
  else if opnum =? Netlogon.OP_AUTHENTICATE3 then authenticate3 stub i
  else if opnum =? Netlogon.OP_PASSWORD_SET2 then password_set2 stub i
  else if opnum =? Netlogon.OP_GET_CAPABILITIES then (inr (to_le_bytes 4 SERVER_CAPABILITIES ++ to_le_bytes 4 STATUS_SUCCESS), i)
  else if opnum =? Netlogon.OP_SAM_LOGON_EX then
    (inr (sam_logon_ex_response (match nl_directory i with Some d => domain_sid d | None => DOMAIN_SID_SUBAUTH end)), i)
  else (inl fault.OP_RNG_ERROR, i).
End interface.

(** ** The sealing layer *)

Section sealing.
Context {NC : NetlogonCrypto}.
Hypothesis hmac_size : forall k m, length (hmac_sha256 k m) = 32%nat.

Lemma cfb8_length key data : forall iv, length (aes128_cfb8_encrypt key iv data) = length data.
Proof. induction data; intros iv; simpl; auto. Qed.

Lemma cfb8_decrypt_encrypt key data : forall iv, aes128_cfb8_decrypt key iv (aes128_cfb8_encrypt key iv data) = data.
Proof.
  induction data as [|b data IH]; intros iv; [done|]. cbn [aes128_cfb8_encrypt aes128_cfb8_decrypt].
  rewrite IH, Z.lxor_assoc, Z.lxor_nilpotent, Z.lxor_0_r. done.
Qed.

Lemma derive_sequence_number_length seq : length (derive_sequence_number seq) = 8%nat.
Proof. unfold derive_sequence_number. by rewrite length_app, !to_be_bytes_length. Qed.

(** The fields of a sealed signature. *)
Lemma signature_fields (header s c e r : bytes) :
  length header = 8%nat -> length s = 8%nat -> length c = 8%nat -> length e = 8%nat ->
  let sig := header ++ s ++ c ++ e ++ r in
  take 8 (skipn 8 sig) = s /\ take 8 (skipn 16 sig) = c /\ take 8 (skipn 24 sig) = e /\ (32 <= length sig)%nat.
Proof.
  intros Hh Hs Hc He sig. unfold sig. split_and!.
  - rewrite drop_app_length' by done. by rewrite take_app_length'.
  - rewrite app_assoc, drop_app_length' by (rewrite length_app; lia). by rewrite take_app_length'.
  - rewrite !app_assoc, <- (app_assoc _ e r). rewrite drop_app_length' by (rewrite !length_app; lia). by rewrite take_app_length'.
  - rewrite !length_app. lia.
Qed.

(** A sealed payload is recovered by the peer that expects its sequence number. *)
Theorem unseal_seal_aes session_key plain confounder sequence : length confounder = 8%nat ->
  let '(ciphertext, signature) := seal_aes session_key plain confounder sequence in
  length ciphertext = length plain /\ unseal_aes session_key ciphertext signature sequence = Some plain.
Proof.
  intros Hc. unfold seal_aes. set (sk := nl_seal_key session_key). set (d := derive_sequence_number sequence).
  set (h := signature_header NL_SEAL_AES128). set (sum := take 8 (hmac_sha256 session_key (h ++ confounder ++ plain))).
  pose proof (cfb8_length sk (confounder ++ plain) (d ++ d)) as Hl. rewrite length_app in Hl.
  pose proof (cfb8_decrypt_encrypt sk (confounder ++ plain) (d ++ d)) as Hd.
  set (stream := aes128_cfb8_encrypt sk (d ++ d) (confounder ++ plain)) in *. split; [rewrite length_drop; lia|].
  destruct (signature_fields h (aes128_cfb8_encrypt session_key (sum ++ sum) d) sum (take 8 stream) (replicate 24 0))
    as (E1 & E2 & E3 & E4).
  { done. } { rewrite cfb8_length. apply derive_sequence_number_length. }
  { unfold sum. rewrite length_take, hmac_size. done. } { rewrite length_take. lia. }
  unfold unseal_aes. rewrite (proj2 (Nat.ltb_ge _ _) E4), E1, E2, E3. fold d sk h. rewrite (take_drop 8 stream), Hd.
  rewrite take_app_length', drop_app_length' by done. fold sum. rewrite !bool_decide_true by done. done.
Qed.
End sealing.

(** ** Rotation of a machine password *)

Section rotation.
Context {UC : UnicodeTables} {NC : NetlogonCrypto} {A : Type}.
Context (md4 : bytes -> bytes) (generate_key_from_password : bytes -> bytes -> string + bytes).
Implicit Types i : NetlogonInterface A.

Abbreviation password_set2 := (password_set2 md4 generate_key_from_password).
Abbreviation machine_kerberos_key := (machine_kerberos_key generate_key_from_password).

(** One rotation as a client sees it, and the request that carries it. *)
Record rotation := mkRotation { rt_timestamp : Z; rt_fill : bytes; rt_password : bytes; rt_key : bytes; rt_stub : bytes }.

Definition trust_password (r : rotation) : bytes := rt_fill r ++ rt_password r ++ to_le_bytes 4 (len (rt_password r)).

(** The credential after a rotation. *)
Definition next_credential (stored : bytes) (r : rotation) : bytes := advance_credential (advance_credential stored (rt_timestamp r)) 1.

Record rotation_ok (key stored : bytes) (rlm account : string) (r : rotation) : Prop := {
  rot_size : (length (rt_fill r) + length (rt_password r) = 512)%nat;
  rot_some : (0 < length (rt_password r))%nat;
  rot_even : (length (rt_password r) mod 2 = 0)%nat;
  rot_key : machine_kerberos_key rlm account (rt_password r) = inr (rt_key r);
  rot_stub : exists pos, parse_password_set2 (rt_stub r) 0%nat =
    Some ((netlogon_credential_aes key (advance_credential stored (rt_timestamp r)), rt_timestamp r,
           aes128_cfb8_encrypt key (replicate 16 0) (trust_password r)), pos);
}.

(** The server's side of a channel. *)
Record in_step (key stored : bytes) (computer : string) (store : PrincipalStore) i : Prop := {
  step_key : nl_session_key (nl_state i) = Some key;
  step_stored : stored_credential (nl_state i) = Some stored;
  step_name : computer_name (nl_state i) = Some computer;
  step_kdc : nl_kdc i = Some store;
}.

Definition rotation_reply (key stored : bytes) : bytes := netlogon_credential_aes key stored ++ to_le_bytes 4 0 ++ to_le_bytes 4 STATUS_SUCCESS.

Definition answers_with (account : string) (store : PrincipalStore) (k : bytes) : Prop :=
  forall nm, lookup_key nm ∈ alias_keys (realm store) account -> lookup_key nm ∉ revoked store ->
    exists p, get nm store = Some p /\ key (pkey p) = k.

Lemma extract_trust_password_ok r : (length (rt_fill r) + length (rt_password r) = 512)%nat -> (0 < length (rt_password r))%nat ->
  (length (rt_password r) mod 2 = 0)%nat -> extract_trust_password (trust_password r) = Some (rt_password r).
Proof. intros. by apply (password_from_block (replicate 16 0) (rt_fill r)). Qed.

Lemma rotated_password key stored computer store i r :
  in_step key stored computer store i -> rotation_ok key stored (realm store) (computer +:+ "$") r ->
  exists i' store', password_set2 (rt_stub r) i = (inr (rotation_reply key (next_credential stored r)), i') /\
    in_step key (next_credential stored r) computer store' i' /\ realm store' = realm store /\ revoked store' = revoked store /\
    answers_with (computer +:+ "$") store' (rt_key r) /\
    nl_persisted i' = option_map (fun l => l ++ [mkPersisted (computer +:+ "$") 0 EmptyString (md4 (rt_password r)) (rt_key r)]) (nl_persisted i).
Proof.
  intros [Hk Hs Hn Hkdc] [Hsz Hso He Hkey [pos Hstub]]. unfold Netlogon.password_set2. rewrite Hk, Hs, Hstub.
  rewrite bool_decide_true by done. cbn [negb]. rewrite cfb8_decrypt_encrypt, extract_trust_password_ok by done.
  rewrite Hn. unfold publish_rotation. cbn [with_nl_state nl_kdc nl_state nl_persisted nl_directory]. rewrite Hkdc.
  destruct (register_machine_utf16 _ _ _ store) as [e|[k store']] eqn:E.
  { unfold register_machine_utf16 in E. by rewrite Hkey in E. }
  pose proof (register_machine_utf16_key _ _ _ _ _ _ E) as Hk'. rewrite Hkey in Hk'. injection Hk' as <-.
  assert (realm store' = realm store /\ revoked store' = revoked store) as [Hr Hv].
  { unfold register_machine_utf16 in E. destruct (machine_kerberos_key _ _ _); [done|]. by injection E as ? <-. }
  eexists _, store'. split; [done|]. split_and!; try done.
  intros nm. rewrite Hr, Hv. eapply get_machine_utf16, E.
Qed.

(** A run of rotations: each request is built from the credential the last reply
    left. *)
Fixpoint rotations_ok (key stored : bytes) (rlm account : string) (rs : list rotation) : Prop :=
  match rs with
  | [] => True
  | r :: rs' => rotation_ok key stored rlm account r /\ rotations_ok key (next_credential stored r) rlm account rs'
  end.

Fixpoint rotate (i : NetlogonInterface A) (rs : list rotation) : list (Z + bytes) * NetlogonInterface A :=
  match rs with
  | [] => ([], i)
  | r :: rs' => let '(reply, i1) := password_set2 (rt_stub r) i in let '(replies, i2) := rotate i1 rs' in (reply :: replies, i2)
  end.

Fixpoint expected_replies (key stored : bytes) (rs : list rotation) : list (Z + bytes) :=
  match rs with
  | [] => []
  | r :: rs' => inr (rotation_reply key (next_credential stored r)) :: expected_replies key (next_credential stored r) rs'
  end.

(** C35: A machine that keeps rotating its password stays in step with the server: every
    reply is the one the chain of credentials calls for, and after each run the KDC
    answers for the machine with the key of the last password. *)
Theorem rotations_stay_in_step key stored computer store i rs r :
  in_step key stored computer store i -> rotations_ok key stored (realm store) (computer +:+ "$") (rs ++ [r]) ->
  exists i' store', rotate i (rs ++ [r]) = (expected_replies key stored (rs ++ [r]), i') /\
    in_step key (fold_left next_credential (rs ++ [r]) stored) computer store' i' /\ answers_with (computer +:+ "$") store' (rt_key r).
Proof.
  revert stored store i. induction rs as [|r0 rs IH]; intros stored store i Hi [Hr Hrs].
  - destruct (rotated_password _ _ _ _ _ _ Hi Hr) as (i' & store' & E & Hi' & _ & _ & Ha & _).
    exists i', store'. cbn [app rotate expected_replies fold_left]. by rewrite E.
  - destruct (rotated_password _ _ _ _ _ _ Hi Hr) as (i1 & store1 & E & Hi1 & Hrlm & _). rewrite <- Hrlm in Hrs.
    destruct (IH _ _ _ Hi1 Hrs) as (i' & store' & E' & Hi' & Ha). exists i', store'.
    cbn [app rotate expected_replies fold_left]. by rewrite E, E'.
Qed.

(** C36: The account that a rotation changes is the computer named by the last challenge,
    whoever authenticated: the holder of a channel names any machine in a new challenge,
    keeps its session, and replaces that machine's key. *)
Theorem rotation_follows_last_challenge key stored computer store i stub victim client pos r :
  in_step key stored computer store i -> parse_req_challenge stub 0%nat = Some ((victim, client), pos) -> victim <> EmptyString ->
  rotation_ok key stored (realm store) (victim +:+ "$") r ->
  let i1 := (req_challenge stub i).2 in
  exists i2 store', password_set2 (rt_stub r) i1 = (inr (rotation_reply key (next_credential stored r)), i2) /\
    nl_kdc i2 = Some store' /\ answers_with (victim +:+ "$") store' (rt_key r).
Proof.
  intros Hi Hp Hv Hr i1. assert (in_step key stored victim store i1) as Hi1.
  { unfold i1, req_challenge. rewrite Hp. destruct Hi. rewrite bool_decide_false by done. by constructor. }
  destruct (rotated_password _ _ _ _ _ _ Hi1 Hr) as (i2 & store' & E & [_ _ _ Hk] & _ & _ & Ha & _). by exists i2, store'.
Qed.
End rotation.

(** ** Repeated challenges *)

Section zero_credential.
Context {UC : UnicodeTables} {NC : NetlogonCrypto} {A : Type}.
Implicit Types i : NetlogonInterface A.

Lemma cfb8_constant key p n : aes128_encrypt_block key (replicate 16 0) !!! 0%nat = p ->
  aes128_cfb8_encrypt key (replicate 16 0) (replicate n p) = replicate n 0.
Proof.
  intros Hp. induction n as [|n IH]; [done|]. change (replicate (S n) p) with (p :: replicate n p).
  cbn [aes128_cfb8_encrypt]. rewrite Hp, Z.lxor_nilpotent. change (shift_iv (replicate 16 0) 0) with (replicate 16 0). by rewrite IH.
Qed.

(** C37: A challenge that repeats one byte is answered by the credential of zeros for the
    one session key in 256 whose first keystream byte is that byte.  Only the byte zero
    is refused beforehand. *)
Theorem zero_credential_accepted_iff i stub account flags pos i0 p :
  parse_authenticate3 stub 0%nat = Some ((account, replicate 8 0, flags), pos) ->
  resolve_hash account i = Some i0 ->
  challenges (nl_state i) = Some (mkChallenges (replicate 8 p) Netlogon.SERVER_CHALLENGE) -> p <> 0 ->
  let key := session_key_aes (machine_nt_hash (nl_state i0)) (replicate 8 p) Netlogon.SERVER_CHALLENGE in
  nl_session_key (nl_state i) <> Some key ->
  (nl_session_key (nl_state (authenticate3 stub i).2) = Some key <-> aes128_encrypt_block key (replicate 16 0) !!! 0%nat = p).
Proof.
  intros Hp Hr Hc Hz key Hk. unfold authenticate3. rewrite Hp, Hr.
  assert (challenges (nl_state i0) = challenges (nl_state i) /\ nl_session_key (nl_state i0) = nl_session_key (nl_state i)) as [Ec Ek].
  { unfold resolve_hash in Hr. destruct (nl_directory i); [|by injection Hr as <-]. destruct (find_user _ _); [|done]. by injection Hr as <-. }
  rewrite Ec, Hc. cbn [ch_client ch_server]. rewrite bool_decide_false by (by intros [= E]). fold key.
  case_bool_decide as E; cbn [negb snd with_nl_state nl_state nl_session_key].
  - split; [intros _|done]. apply (f_equal (fun l => l !!! 0%nat)) in E.
    change (Z.lxor p (aes128_encrypt_block key (replicate 16 0) !!! 0%nat) = 0) in E. by apply Z.lxor_eq in E.
  - rewrite Ek. split; [done|]. intros Hb. destruct E. apply (cfb8_constant key p 8 Hb).
Qed.
End zero_credential.

(** ** Witnesses *)

Module netlogon_demo.
#[local] Instance ascii_only : UnicodeTables := {| unicode_lowercase s := s; unicode_uppercase s := s |}.
#[local] Instance toy_cipher : NetlogonCrypto :=
  {| aes128_encrypt_block k b := map (fun i => u8 (Z.of_nat i + fold_left (fun s x => 3 * s + x) (k ++ b) 7)) (seq 0 16);
     hmac_sha256 k m := map (fun i => u8 (Z.of_nat i + fold_left (fun s x => 5 * s + x) (k ++ m) 3)) (seq 0 32) |}.
Definition md4 (b : bytes) : bytes := take 16 (b ++ replicate 16 0).
Definition string_to_key (password salt : bytes) : string + bytes := inr (take 32 (password ++ salt)).

(** A name as the wire has it. *)
Definition wire_name (s : string) : bytes :=
  let u := utf16le s in let n := (length u / 2)%nat in
  to_le_bytes 4 (Z.of_nat n) ++ to_le_bytes 4 0 ++ to_le_bytes 4 (Z.of_nat n) ++ u.
Definition challenge_stub (computer : string) (client : bytes) : bytes := replicate 4 0 ++ wire_name computer ++ client.

(** [PC1] asks for a challenge and authenticates with its credential. *)
Definition client : bytes := [1; 2; 3; 4; 5; 6; 7; 8].
Definition store0 : PrincipalStore := new_store "EX.COM".
Definition i0 : NetlogonInterface unit :=
  mkNetlogonInterface (nl_state (@new_netlogon unit md4 "machinepw")) (Some store0) (Some []) None.
Definition challenged : NetlogonInterface unit := (req_challenge (challenge_stub "PC1" client) i0).2.
Definition key : bytes := session_key_aes (machine_nt_hash (nl_state i0)) client Netlogon.SERVER_CHALLENGE.
Definition credential : bytes := netlogon_credential_aes key client.
Definition authenticate_stub (account : string) (credential : bytes) : bytes :=
  replicate 4 0 ++ wire_name account ++ [2; 0; 0; 0] ++ wire_name "PC1." ++ credential ++ to_le_bytes 4 0x212fffff.
Definition channel : NetlogonInterface unit := (authenticate3 (authenticate_stub "PC1$" credential) challenged).2.

Definition password (n : Z) : bytes := [0x41 + n; 0; 0x42; 0; 0x43; 0].
Definition set_stub (stored : bytes) (timestamp : Z) (pw : bytes) : bytes :=
  replicate 4 0 ++ wire_name "PC1$" ++ [2; 0; 0; 0] ++ wire_name "PC1." ++
  netlogon_credential_aes key (advance_credential stored timestamp) ++ to_le_bytes 4 timestamp ++
  aes128_cfb8_encrypt key (replicate 16 0) (replicate 506 9 ++ pw ++ to_le_bytes 4 (len pw)).
Definition rotation_of (account : string) (stored : bytes) (timestamp n : Z) : rotation :=
  mkRotation timestamp (replicate 506 9) (password n)
    (match machine_kerberos_key string_to_key "EX.COM" account (password n) with inr k => k | inl _ => [] end)
    (set_stub stored timestamp (password n)).

Lemma channel_in_step : in_step key credential "PC1" store0 channel.
Proof. constructor; vm_compute; reflexivity. Qed.

Definition r1 : rotation := rotation_of "PC1$" credential 1000 1.
Definition r2 : rotation := rotation_of "PC1$" (next_credential credential r1) 1005 2.

Lemma rotations_stay_in_step_witness :
  exists i' store', rotate md4 string_to_key channel ([r1] ++ [r2]) = (expected_replies key credential ([r1] ++ [r2]), i') /\
    in_step key (fold_left next_credential ([r1] ++ [r2]) credential) "PC1" store' i' /\ answers_with "PC1$" store' (rt_key r2).
Proof.
  assert (rotations_ok string_to_key key credential "EX.COM" "PC1$" ([r1] ++ [r2])) as Hr
    by (split; [|split; [|exact I]]; (split; [reflexivity|vm_compute; lia|reflexivity|vm_compute; reflexivity|eexists; vm_compute; reflexivity])).
  exact (rotations_stay_in_step md4 string_to_key key credential "PC1" store0 channel [r1] r2 channel_in_step Hr).
Defined.

(** The same channel, after a challenge in the name of [DC1]. *)
Definition victim_rotation : rotation := rotation_of "DC1$" credential 1000 3.

Lemma rotation_follows_last_challenge_witness :
  let i1 := (req_challenge (challenge_stub "DC1" client) channel).2 in
  exists i2 store', password_set2 md4 string_to_key (rt_stub victim_rotation) i1 =
      (inr (rotation_reply key (next_credential credential victim_rotation)), i2) /\
    nl_kdc i2 = Some store' /\ answers_with "DC1$" store' (rt_key victim_rotation).
Proof.
  assert (parse_req_challenge (challenge_stub "DC1" client) 0%nat = Some (("DC1"%string, client), 30%nat)) as Hp by (vm_compute; reflexivity).
  assert (rotation_ok string_to_key key credential "EX.COM" "DC1$" victim_rotation) as Hr
    by (split; [reflexivity|vm_compute; lia|reflexivity|vm_compute; reflexivity|eexists; vm_compute; reflexivity]).
  exact (rotation_follows_last_challenge md4 string_to_key key credential "PC1" store0 channel (challenge_stub "DC1" client) "DC1" client 30
           victim_rotation channel_in_step Hp ltac:(congruence) Hr).
Defined.

(** A guess of the byte that a cipher gives. *)
Definition guessing (p : Z) : NetlogonInterface unit := (req_challenge (challenge_stub "PC1" (replicate 8 p)) i0).2.
Definition guess_key (p : Z) : bytes := session_key_aes (machine_nt_hash (nl_state i0)) (replicate 8 p) Netlogon.SERVER_CHALLENGE.
Definition lucky (p : Z) : bool := negb (p =? 0) && (aes128_encrypt_block (guess_key p) (replicate 16 0) !!! 0%nat =? p).
Definition guess : Z := unwrap_or 1 (find lucky (map Z.of_nat (seq 0 256))).

Lemma zero_credential_accepted_iff_witness :
  lucky guess = true /\
  nl_session_key (nl_state (authenticate3 (authenticate_stub "PC1$" (replicate 8 0)) (guessing guess)).2) = Some (guess_key guess).
Proof.
  assert (lucky guess = true) as Hl by (vm_compute; reflexivity). split; [exact Hl|].
  assert (exists pos, parse_authenticate3 (authenticate_stub "PC1$" (replicate 8 0)) 0%nat =
            Some (("PC1$"%string, replicate 8 0, 0x212fffff), pos)) as [pos Hp] by (eexists; vm_compute; reflexivity).
  apply (zero_credential_accepted_iff (guessing guess) (authenticate_stub "PC1$" (replicate 8 0)) "PC1$" 0x212fffff pos (guessing guess) guess Hp).
  - reflexivity.
  - vm_compute. reflexivity.
  - vm_compute. congruence.
  - vm_compute. congruence.
  - vm_compute. reflexivity.
Defined.
End netlogon_demo.
