(* ===== verification/RpcConn.v ===== *)
(** * RPC connections

    [crates/magnetite-rpc/src/server.rs]: one connection to an RPC endpoint, from the
    packets it receives to the calls its interface gets and the packets it answers
    with.  A connection carries the state of three security contexts: the Netlogon
    channel, NTLM and Kerberos.

    The interface behind the connection is any instance of [RpcInterface], the trait
    of [interface.rs]; its state is threaded through.  The Kerberos exchange that
    opens a context ([ap_req.rs], over the messages of [picky_krb]) is a class.  What
    a run draws from the clock and the random generator are arguments.

    [calls_are_attributed] says whom a call may be attributed to, [handle_returns]
    that no packet stops the connection, [unauthorized_connection_learns_nothing] what
    this means for replication, and [anonymous_takes_over_account] what it does not
    prevent. *)

From S2P Require Import Prelude Bytes RustStr Utf16 KdcStore Rpc AdDirectory DrsSecret Ntlm Gss Spnego Drs Samr Netlogon.

Local Open Scope Z_scope.
Local Open Scope outcome_scope.

(** ** Interfaces *)

(** [trait RpcInterface]; [inl] is the status of a fault. *)
Class RpcInterface (I : Type) := {
  if_call : Z -> bytes -> I -> (Z + bytes) * I;
  if_call_authenticated : Z -> bytes -> option bytes -> option string -> I -> (Z + bytes) * I;
  if_session_key : I -> option bytes;
}.

Record VerifiedApReq := mkVerifiedApReq {
  client_name : list string;
  client_realm : string;
  ticket_session_key : bytes;
  authenticator_subkey : option bytes;
  ctime : bytes;
  cusec : bytes;
}.

(** [verify_ap_req] at a time, and [build_ap_rep] with its fresh subkey. *)
Class ApExchange := {
  verify_ap_req : Z -> bytes -> bytes -> string + VerifiedApReq;
  build_ap_rep : bytes -> bytes -> bytes -> bytes -> Z -> string + bytes;
}.

(** What handling a packet draws from outside: the time, a subkey and a confounder. *)
Record surroundings := mkSurroundings { now : Z; fresh_subkey : bytes; fresh_confounder : bytes }.

(** ** The connection *)

Definition GSS_ACCEPTOR_SEQ_BASE : Z := 1.
Definition SEAL_AUTH_LEN : Z := 60.
Definition FAULT_ACCESS_DENIED : Z := 0x00000005.

Record AuthConfig := mkAuthConfig { cfg_ntlm_nt_hash : option bytes; cfg_gss_service_key : option bytes }.

Record Connection := mkConnection {
  c_session_key : option bytes;
  c_sequence : Z;
  ntlm_nt_hash : option bytes;
  ntlm_lookup : option (string -> option bytes);
  ntlm : option NtlmContext;
  gss_service_key : option bytes;
  gss_subkey : option bytes;
  gss_mech_list : option bytes;
  gss_acceptor_seq : Z;
  header_signing : bool;
  transport_session_key : option bytes;
  gss_principal : option string;
  ntlm_principal : option string;
  transport_principal : option string;
}.

Definition default_connection : Connection :=
  mkConnection None 0 None None None None None None 0 false None None None None.

(** [handle_conn]: the state a connection to an endpoint starts in. *)
Definition accepted (auth : AuthConfig) : Connection :=
  mkConnection None 0 (cfg_ntlm_nt_hash auth) None None (cfg_gss_service_key auth) None None 0 false None None None None.

(** [RpcPipe::new_with_session_key], [with_ntlm_lookup], [with_transport_principal] *)
Definition pipe_connection (session_key : option bytes) (lookup : option (string -> option bytes)) (principal : option string) :
    Connection :=
  mkConnection None 0 None lookup None None None None 0 false session_key None None principal.

Definition set_netlogon (key : option bytes) (seq : Z) (c : Connection) : Connection :=
  mkConnection key seq (ntlm_nt_hash c) (ntlm_lookup c) (ntlm c) (gss_service_key c) (gss_subkey c) (gss_mech_list c)
    (gss_acceptor_seq c) (header_signing c) (transport_session_key c) (gss_principal c) (ntlm_principal c) (transport_principal c).
Definition set_ntlm (ctx : option NtlmContext) (principal : option string) (c : Connection) : Connection :=
  mkConnection (c_session_key c) (c_sequence c) (ntlm_nt_hash c) (ntlm_lookup c) ctx (gss_service_key c) (gss_subkey c)
    (gss_mech_list c) (gss_acceptor_seq c) (header_signing c) (transport_session_key c) (gss_principal c) principal (transport_principal c).
Definition set_gss (principal : option string) (subkey mech_list : option bytes) (seq : Z) (signing : bool) (c : Connection) : Connection :=
  mkConnection (c_session_key c) (c_sequence c) (ntlm_nt_hash c) (ntlm_lookup c) (ntlm c) (gss_service_key c) subkey mech_list seq
    signing (transport_session_key c) principal (ntlm_principal c) (transport_principal c).
Definition set_acceptor_seq (seq : Z) (c : Connection) : Connection :=
  set_gss (gss_principal c) (gss_subkey c) (gss_mech_list c) seq (header_signing c) c.

Section connection.
Context {UC : UnicodeTables} {NC : NtlmCrypto} {LC : NetlogonCrypto} {GC : GssCrypto} {AX : ApExchange}.
Context {I : Type} {RI : RpcInterface I}.
Implicit Types (c : Connection) (i : I).

(** *** Without a security context *)

Definition dispatch (header : CommonHeader) (body : bytes) (sec_addr : string) (transport_key : option bytes)
    (principal : option string) i : option bytes * I :=
  let pt := h_ptype header in
  if (pt =? ptype.BIND) || (pt =? ptype.ALTER_CONTEXT) then
    (Some (match parse_bind body with
           | inr req => match contexts req with [] => build_bind_nak (h_call_id header) | _ => build_bind_ack (h_call_id header) req sec_addr end
           | inl _ => build_bind_nak (h_call_id header)
           end), i)
  else if pt =? ptype.REQUEST then
    match parse_request header body with
    | inl _ => (Some (build_fault (h_call_id header) 0 fault.NDR), i)
    | inr req =>
        let '(result, i') := if_call_authenticated (req_opnum req) (req_stub req) transport_key principal i in
        (Some (match result with
               | inr out => build_response (h_call_id header) (req_context_id req) out
               | inl status => build_fault (h_call_id header) (req_context_id req) status
               end), i')
    end
  else (None, i).

(** *** NTLM *)

Definition handle_ntlm_request (header : CommonHeader) (header_bytes body : bytes) c i : bytes * (Connection * I) :=
  let cid := h_call_id header in
  match ntlm c with
  | None => (build_fault cid 0 FAULT_ACCESS_DENIED, (c, i))
  | Some ctx =>
      match parse_signed_request body (h_auth_length header) with
      | None => (build_fault cid 0 fault.NDR, (c, i))
      | Some req =>
          match checked_sub (len body) (h_auth_length header) with
          | None => (build_fault cid (sr_context_id req) fault.NDR, (c, i))
          | Some signed_end =>
              let message := header_bytes ++ take (Z.to_nat signed_end) body in
              let '(verified, ctx) := verify_request message (sr_signature req) ctx in
              let c := set_ntlm (Some ctx) (ntlm_principal c) c in
              match verified with
              | None => (build_fault cid (sr_context_id req) FAULT_ACCESS_DENIED, (c, i))
              | Some seq =>
                  match unpadded_stub req with
                  | None => (build_fault cid (sr_context_id req) fault.NDR, (c, i))
                  | Some stub =>
                      let '(result, i') := if_call_authenticated (sr_opnum req) stub (Some (nt_session_key ctx)) (ntlm_principal c) i in
                      match result with
                      | inl status => (build_fault cid (sr_context_id req) status, (c, i'))
                      | inr out =>
                          let '(plain, pad) := padded_response_stub out in
                          let '(signature, ctx) := sign_response plain (u32 (seq + 1)) ctx in
                          (build_auth_response_typed cid (sr_context_id req) plain RPC_C_AUTHN_WINNT (sr_auth_level req) pad signature,
                           (set_ntlm (Some ctx) (ntlm_principal c) c, i'))
                      end
                  end
              end
          end
      end
  end.

(** The hash to verify an AUTHENTICATE with: the account's, or the configured one. *)
Definition auth3_hash (user : option string) c : option bytes :=
  match (match ntlm_lookup c, user with Some lk, Some u => lk u | _, _ => None end) with
  | Some h => Some h
  | None => ntlm_nt_hash c
  end.

Definition handle_auth3 (header : CommonHeader) (body : bytes) c : Connection :=
  match checked_sub (len body) (h_auth_length header) with
  | None => c
  | Some start =>
      let auth := skipn (Z.to_nat start) body in
      let user := ntlm_username auth in
      match auth3_hash user c with
      | None => c
      | Some h =>
          let ctx := establish h auth in
          set_ntlm ctx (match ctx with Some _ => user | None => ntlm_principal c end) c
      end
  end.

(** *** Kerberos *)

(** [parts.join("/")], with an empty name left out. *)
Definition principal_of (parts : list string) : option string :=
  let joined := join "/" parts in if bool_decide (joined = EmptyString) then None else Some joined.

(** [ack.get_mut(3)] of a bind acknowledgement *)
Definition confirm_header_signing (ack : bytes) : bytes := alter (fun b => Z.lor b pfc.SUPPORT_HEADER_SIGN) 3%nat ack.

Definition handle_gss_bind (w : surroundings) (header : CommonHeader) (body : bytes) (sec_addr : string) c :
    option bytes * Connection :=
  let cid := h_call_id header in
  let auth_len := h_auth_length header in
  match parse_bind body with
  | inl _ => (Some (build_bind_nak cid), c)
  | inr req =>
      let level := unwrap_or RPC_C_AUTHN_LEVEL_PKT_INTEGRITY (negotiated_auth_level body auth_len) in
      let ctx_id := unwrap_or 0 (negotiated_auth_ctx_id body auth_len) in
      if h_ptype header =? ptype.ALTER_CONTEXT then
        let plain := Some (build_alter_context_resp_noauth cid req) in
        (match gss_subkey c, gss_mech_list c with
         | Some subkey, Some mech_list =>
             match gss_mic_acceptor subkey 0 mech_list with
             | inr mic => Some (build_alter_context_resp cid req EmptyString RPC_C_AUTHN_GSS_NEGOTIATE level ctx_id (wrap_accept_completed_mic mic))
             | inl _ => plain
             end
         | _, _ => plain
         end, c)
      else
        match gss_service_key c, auth_token body auth_len with
        | Some service_key, Some token =>
            let verified :=
              match extract_ap_req token with
              | Some ap_req => match verify_ap_req (now w) service_key ap_req with inr v => Some v | inl _ => None end
              | None => None
              end in
            let outcome :=
              match verified with
              | Some v =>
                  match build_ap_rep (fresh_subkey w) (ticket_session_key v) (ctime v) (cusec v) GSS_ACCEPTOR_SEQ_BASE with
                  | inr ap_rep => Some (v, ap_rep)
                  | inl _ => None
                  end
              | None => None
              end in
            match outcome with
            | None => (Some (build_bind_nak cid), c)
            | Some (v, ap_rep) =>
                let signing := negb (Z.land (h_pfc_flags header) pfc.SUPPORT_HEADER_SIGN =? 0) in
                let c := set_gss (principal_of (client_name v)) (Some (fresh_subkey w)) (mech_list_der token) GSS_ACCEPTOR_SEQ_BASE signing c in
                let mech := unwrap_or [] (first_mech_oid token) in
                let ack := build_bind_ack_with_auth cid req sec_addr RPC_C_AUTHN_GSS_NEGOTIATE level ctx_id (wrap_ap_rep ap_rep mech) in
                (Some (if signing then confirm_header_signing ack else ack), c)
            end
        | _, _ => (None, c)
        end
  end.

(** The two buffers that a sealed request signs besides its stub. *)
Definition request_aad (header : CommonHeader) (body : bytes) c : bytes * bytes :=
  if header_signing c then
    let start := Z.to_nat (Z.max 0 (len body - (h_auth_length header + 8))) in
    (common_header ptype.REQUEST (h_pfc_flags header) (h_frag_length header) (h_auth_length header) (h_call_id header)
       ++ unwrap_or [] (slice_get body 0 8),
     unwrap_or [] (slice_get body start (start + 8)))
  else ([], []).

(** The stub of a protected request, or the fault that refuses it. *)
Definition gss_stub (header : CommonHeader) (body subkey : bytes) (req : SignedRequest) c : Z + bytes :=
  if sr_auth_level req =? RPC_C_AUTHN_LEVEL_PKT_PRIVACY then
    if (length (sr_signature req) <? 16)%nat then inl fault.NDR
    else
      let '(req_pre, req_post) := request_aad header body c in
      match (if header_signing c
             then gss_unwrap_iov subkey KG_USAGE_INITIATOR_SEAL req_pre req_post (sr_payload req) (sr_signature req)
             else gss_unwrap subkey KG_USAGE_INITIATOR_SEAL (sr_payload req) (sr_signature req)) with
      | None => inl FAULT_ACCESS_DENIED
      | Some plain => match strip_pad plain (sr_auth_pad_len req) with Some stub => inr stub | None => inl fault.NDR end
      end
  else
    match verify_gss_mic subkey (sr_payload req) (sr_signature req) with
    | None => inl FAULT_ACCESS_DENIED
    | Some _ => match unpadded_stub req with Some stub => inr stub | None => inl fault.NDR end
    end.

(** The packet of a reply sealed in place. *)
Definition sealed_in_place (w : surroundings) (cid ctx_id : Z) (subkey : bytes) (req : SignedRequest) (resp_seq : Z) (out : bytes) :
    outcome bytes :=
  let pad := ((16 - length out mod 16) mod 16)%nat in
  let plain := out ++ replicate pad 0 in
  let rh := common_header ptype.RESPONSE whole (u16 (Z.of_nat HEADER_LEN + 8 + len plain + 8 + SEAL_AUTH_LEN)) SEAL_AUTH_LEN cid in
  let resp_hdr := to_le_bytes 4 (u32 (len plain)) ++ to_le_bytes 2 (sr_context_id req) ++ [0; 0] in
  let sec_tr := [RPC_C_AUTHN_GSS_NEGOTIATE; sr_auth_level req; Z.of_nat pad; 0] ++ to_le_bytes 4 ctx_id in
  let! r := gss_wrap_iov (fresh_confounder w) subkey KG_USAGE_ACCEPTOR_SEAL resp_seq (rh ++ resp_hdr) sec_tr plain in
  Ret (match r with
       | inl _ => build_fault cid (sr_context_id req) fault.NDR
       | inr (pdu_stub, auth) => rh ++ resp_hdr ++ pdu_stub ++ sec_tr ++ auth
       end).

(** The packet of any other protected reply. *)
Definition protected_reply (w : surroundings) (cid : Z) (subkey : bytes) (req : SignedRequest) (resp_seq : Z) (out : bytes) : bytes :=
  let '(plain, pad) := padded_response_stub out in
  let answer pdu_data auth_data :=
    build_auth_response_typed cid (sr_context_id req) pdu_data RPC_C_AUTHN_GSS_NEGOTIATE (sr_auth_level req) pad auth_data in
  if sr_auth_level req =? RPC_C_AUTHN_LEVEL_PKT_PRIVACY then
    match gss_wrap (fresh_confounder w) subkey KG_USAGE_ACCEPTOR_SEAL resp_seq plain with
    | inr (sealed, auth) => answer sealed auth
    | inl _ => build_fault cid (sr_context_id req) fault.NDR
    end
  else answer plain (unwrap_or_default (gss_mic subkey resp_seq plain)).

Definition handle_gss_request (w : surroundings) (header : CommonHeader) (body : bytes) c i : outcome (bytes * (Connection * I)) :=
  let cid := h_call_id header in
  match gss_subkey c with
  | None => Ret (build_fault cid 0 FAULT_ACCESS_DENIED, (c, i))
  | Some subkey =>
      match parse_signed_request body (h_auth_length header) with
      | None => Ret (build_fault cid 0 fault.NDR, (c, i))
      | Some req =>
          match gss_stub header body subkey req c with
          | inl status => Ret (build_fault cid (sr_context_id req) status, (c, i))
          | inr stub =>
              let '(result, i') := if_call_authenticated (sr_opnum req) stub (Some subkey) (gss_principal c) i in
              match result with
              | inl status => Ret (build_fault cid (sr_context_id req) status, (c, i'))
              | inr out =>
                  let resp_seq := gss_acceptor_seq c in
                  let c' := set_acceptor_seq (u64 (resp_seq + 1)) c in
                  let ctx_id := unwrap_or 0 (negotiated_auth_ctx_id body (h_auth_length header)) in
                  if (sr_auth_level req =? RPC_C_AUTHN_LEVEL_PKT_PRIVACY) && header_signing c then
                    let! reply := sealed_in_place w cid ctx_id subkey req resp_seq out in Ret (reply, (c', i'))
                  else Ret (protected_reply w cid subkey req resp_seq out, (c', i'))
              end
          end
      end
  end.

(** *** The Netlogon channel *)

Definition handle_signed_request (header : CommonHeader) (body : bytes) c i : bytes * (Connection * I) :=
  let cid := h_call_id header in
  match c_session_key c with
  | None => (build_fault cid 0 FAULT_ACCESS_DENIED, (c, i))
  | Some key =>
      match parse_signed_request body (h_auth_length header) with
      | None => (build_fault cid 0 fault.NDR, (c, i))
      | Some req =>
          let sealed := sr_auth_level req =? RPC_C_AUTHN_LEVEL_PKT_PRIVACY in
          let stub :=
            if sealed then
              match unseal_aes key (sr_payload req) (sr_signature req) (c_sequence c) with
              | None => inl FAULT_ACCESS_DENIED
              | Some plain => match strip_pad plain (sr_auth_pad_len req) with Some s => inr s | None => inl fault.NDR end
              end
            else if negb (bool_decide (sign_integrity_aes key (sr_payload req) (c_sequence c) = sr_signature req)) then inl FAULT_ACCESS_DENIED
            else match unpadded_stub req with Some s => inr s | None => inl fault.NDR end in
          match stub with
          | inl status => (build_fault cid (sr_context_id req) status, (c, i))
          | inr stub =>
              let '(result, i') := if_call (sr_opnum req) stub i in
              let seq := u64 (c_sequence c + 1) in
              (match result with
               | inr out => if sealed then build_sealed_response cid (sr_context_id req) out key seq
                            else build_signed_response cid (sr_context_id req) out key seq
               | inl status => build_fault cid (sr_context_id req) status
               end, (set_netlogon (c_session_key c) (u64 (c_sequence c + 2)) c, i'))
          end
      end
  end.

(** *** One packet *)

Definition is_bind (header : CommonHeader) : bool := (h_ptype header =? ptype.BIND) || (h_ptype header =? ptype.ALTER_CONTEXT).

Definition handle (w : surroundings) (sec_addr : string) (header : CommonHeader) (header_bytes body : bytes) c i :
    outcome (option bytes * (Connection * I)) :=
  let cid := h_call_id header in
  let auth_len := h_auth_length header in
  let authed := 0 <? auth_len in
  let auth_type := negotiated_auth_type body auth_len in
  let level := unwrap_or RPC_C_AUTHN_LEVEL_PKT_INTEGRITY (negotiated_auth_level body auth_len) in
  let ctx_id := unwrap_or 0 (negotiated_auth_ctx_id body auth_len) in
  if is_bind header && authed && bool_decide (is_Some (gss_service_key c)) && bool_decide (auth_type = Some RPC_C_AUTHN_GSS_NEGOTIATE) then
    let '(reply, c') := handle_gss_bind w header body sec_addr c in Ret (reply, (c', i))
  else if (h_ptype header =? ptype.BIND) && authed && bool_decide (auth_type = Some RPC_C_AUTHN_WINNT) &&
          (bool_decide (is_Some (ntlm_nt_hash c)) || bool_decide (is_Some (ntlm_lookup c))) then
    Ret (Some (match parse_bind body with
               | inl _ => build_bind_nak cid
               | inr req => build_bind_ack_with_auth cid req sec_addr RPC_C_AUTHN_WINNT level ctx_id (challenge_message (now w))
               end), (c, i))
  else if (h_ptype header =? ptype.AUTH3) && authed then Ret (None, (handle_auth3 header body c, i))
  else if (h_ptype header =? ptype.ALTER_CONTEXT) && authed then
    match parse_bind body with
    | inl _ => Ret (Some (build_bind_nak cid), (c, i))
    | inr req =>
        Ret (Some (build_alter_context_resp cid req sec_addr RPC_C_AUTHN_NETLOGON level ctx_id nl_auth_message_response),
             (set_netlogon (if_session_key i) 0 c, i))
    end
  else if (h_ptype header =? ptype.REQUEST) && authed then
    let sst := sr_auth_type <$> parse_signed_request body auth_len in
    if bool_decide (sst = Some RPC_C_AUTHN_WINNT) then
      let '(reply, s) := handle_ntlm_request header header_bytes body c i in Ret (Some reply, s)
    else if bool_decide (sst = Some RPC_C_AUTHN_GSS_NEGOTIATE) then
      let! r := handle_gss_request w header body c i in let '(reply, s) := r in Ret (Some reply, s)
    else let '(reply, s) := handle_signed_request header body c i in Ret (Some reply, s)
  else let '(reply, i') := dispatch header body sec_addr (transport_session_key c) (transport_principal c) i in Ret (reply, (c, i')).

(** [RpcPipe::transact] *)
Definition transact (w : surroundings) (sec_addr : string) (pdu : bytes) c i : outcome (option bytes * (Connection * I)) :=
  if (length pdu <? HEADER_LEN)%nat then Ret (None, (c, i))
  else match parse_header (take HEADER_LEN pdu) with
       | inl _ => Ret (None, (c, i))
       | inr header =>
           match slice_get pdu HEADER_LEN (Nat.min (Z.to_nat (h_frag_length header)) (length pdu)) with
           | None => Ret (None, (c, i))
           | Some body => handle w sec_addr header (take HEADER_LEN pdu) body c i
           end
       end.

(** [handle_conn]: the packets of a stream, each with its surroundings. *)
Fixpoint serve (sec_addr : string) (packets : list (surroundings * frame)) c i : outcome (list bytes * (Connection * I)) :=
  match packets with
  | [] => Ret ([], (c, i))
  | (w, f) :: rest =>
      let! r := handle w sec_addr (fr_header f) (fr_header_bytes f) (fr_body f) c i in
      let '(reply, (c, i)) := r in
      let! r := serve sec_addr rest c i in
      let '(replies, s) := r in Ret (match reply with Some b => b :: replies | None => replies end, s)
  end.
End connection.

(** ** No packet stops a connection *)

Section total.
Context {UC : UnicodeTables} {NC : NtlmCrypto} {LC : NetlogonCrypto} {GC : GssCrypto} {AX : ApExchange}.
Context {I : Type} {RI : RpcInterface I}.

Lemma blocks_aligned fuel : forall data, (length data mod 16 = 0)%nat -> Forall (fun b => length b = 16%nat) (blocks fuel data).
Proof.
  induction fuel as [|fuel IH]; intros data Hm; [constructor|]. destruct data as [|x data]; [constructor|]. cbn [blocks].
  set (l := x :: data) in *. assert (16 <= length l)%nat as Hl.
  { destruct (le_lt_dec 16 (length l)) as [|Hlt]; [done|]. rewrite Nat.mod_small in Hm by done. done. }
  constructor; [rewrite length_take; unfold CBLOCK; lia|]. apply IH. rewrite length_drop. unfold CBLOCK.
  replace (length l) with (length l - 16 + 1 * 16)%nat in Hm by lia. by rewrite Nat.Div0.mod_add in Hm.
Qed.

Lemma cts_encrypt_returns key data : (length data mod 16 = 0)%nat -> exists c, cts_encrypt key data = Ret c.
Proof.
  intros Hm. assert (forall prev l, Forall (fun b => length b = 16%nat) l -> exists c, cbc_encrypt_blocks key prev l = Ret c) as Hb.
  { intros prev l. revert prev. induction l as [|b l IH]; intros prev Hl; [by eexists|]. apply Forall_cons in Hl as [Hb Hl].
    cbn [cbc_encrypt_blocks]. rewrite Hb. cbn [Nat.ltb Nat.leb CBLOCK]. destruct (IH (aes256_encrypt_block key (xor_block b prev)) Hl) as [c ->].
    by eexists. }
  unfold cts_encrypt, cbc_encrypt_iv0. destruct (negb _); [by eexists|].
  destruct (Hb (replicate CBLOCK 0) (chunks16 data) (blocks_aligned _ _ Hm)) as [c ->]. by eexists.
Qed.

(** Confounder, padded message and header are whole blocks. *)
Lemma sealed_aligned n : ((16 + (n + (16 - n mod 16) mod 16 + (CFX_IOV_EC + 16))) mod 16 = 0)%nat.
Proof.
  unfold CFX_IOV_EC. pose proof (Nat.div_mod_eq n 16) as H. pose proof (Nat.mod_upper_bound n 16 ltac:(lia)).
  set (q := (n / 16)%nat) in *. set (m := (n mod 16)%nat) in *. rewrite H. destruct (decide (m = 0)%nat) as [->|Hm].
  - change ((16 - 0) mod 16)%nat with 0%nat. replace (16 + (16 * q + 0 + 0 + (0 + 16)))%nat with ((q + 2) * 16)%nat by lia. apply Nat.Div0.mod_mul.
  - rewrite (Nat.mod_small (16 - m)) by lia. replace (16 + (16 * q + m + (16 - m) + (0 + 16)))%nat with ((q + 3) * 16)%nat by lia. apply Nat.Div0.mod_mul.
Qed.

Lemma sealed_in_place_returns w cid ctx_id subkey req seq out : length (fresh_confounder w) = 16%nat ->
  exists r, sealed_in_place w cid ctx_id subkey req seq out = Ret r.
Proof.
  intros Hc. unfold sealed_in_place, gss_wrap_iov. destruct (bool_decide (ke _ _ = []) || _); [by eexists|].
  edestruct (cts_encrypt_returns (ke subkey KG_USAGE_ACCEPTOR_SEAL)) as [c E]; [|rewrite E; by eexists].
  rewrite !length_app, cfx_header_length, Hc, !length_replicate. apply sealed_aligned.
Qed.

(** Every packet is answered or ignored: the stub of a sealed reply always has the
    alignment that the cipher indexes by. *)
Lemma handle_returns w sec_addr header hb body c (i : I) : length (fresh_confounder w) = 16%nat ->
  exists r, handle w sec_addr header hb body c i = Ret r.
Proof.
  intros Hc. unfold handle.
  destruct (_ && _ && _ && _); [destruct (handle_gss_bind _ _ _ _ _); by eexists|].
  destruct (_ && _ && _ && _); [by eexists|]. destruct (_ && _); [by eexists|].
  destruct (_ && _); [destruct (parse_bind body); by eexists|].
  destruct (_ && _); [|destruct (dispatch _ _ _ _ _ _); by eexists].
  destruct (bool_decide _); [destruct (handle_ntlm_request _ _ _ _ _); by eexists|].
  destruct (bool_decide _); [|destruct (handle_signed_request _ _ _ _); by eexists].
  assert (exists r, handle_gss_request w header body c i = Ret r) as [[reply s] ->]; [|by eexists].
  unfold handle_gss_request. destruct (gss_subkey c) as [subkey|]; [|by eexists].
  destruct (parse_signed_request _ _) as [req|]; [|by eexists]. destruct (gss_stub _ _ _ _ _); [by eexists|].
  destruct (if_call_authenticated _ _ _ _ i) as [[status|out] i']; [by eexists|]. destruct (_ && _); [|by eexists].
  edestruct sealed_in_place_returns as [r E]; [exact Hc|]. rewrite E. by eexists.
Qed.

Lemma serve_returns sec_addr packets : Forall (fun p => length (fresh_confounder p.1) = 16%nat) packets ->
  forall c (i : I), exists r, serve sec_addr packets c i = Ret r.
Proof.
  induction 1 as [|[w f] packets Hw _ IH]; intros c i; [by eexists|]. cbn [serve].
  destruct (handle_returns w sec_addr (fr_header f) (fr_header_bytes f) (fr_body f) c i Hw) as [[reply [c' i']] ->]. cbn [obind].
  destruct (IH c' i') as [[replies s] ->]. by eexists.
Qed.
End total.

(** ** What a connection proves *)

Section evidence.
Context {UC : UnicodeTables} {NC : NtlmCrypto} {AX : ApExchange}.

(** An AUTHENTICATE that verifies for the account it names. *)
Definition proves_ntlm (c0 : Connection) (f : frame) (user : string) : Prop :=
  exists start h ctx, checked_sub (len (fr_body f)) (h_auth_length (fr_header f)) = Some start /\
    let auth := skipn (Z.to_nat start) (fr_body f) in
    ntlm_username auth = Some user /\ auth3_hash (Some user) c0 = Some h /\ establish h auth = Some ctx.

(** A request for the service's ticket that verifies for a client. *)
Definition proves_gss (c0 : Connection) (w : surroundings) (f : frame) (p : string) : Prop :=
  exists service_key token ap_req v, gss_service_key c0 = Some service_key /\
    auth_token (fr_body f) (h_auth_length (fr_header f)) = Some token /\ extract_ap_req token = Some ap_req /\
    verify_ap_req (now w) service_key ap_req = inr v /\ principal_of (client_name v) = Some p.

Definition proves (c0 : Connection) (p : surroundings * frame) (who : string) : Prop :=
  proves_ntlm c0 p.2 who \/ proves_gss c0 p.1 p.2 who.

(** The part of a connection that packets do not change. *)
Definition same_config (c0 c : Connection) : Prop :=
  ntlm_nt_hash c = ntlm_nt_hash c0 /\ ntlm_lookup c = ntlm_lookup c0 /\ gss_service_key c = gss_service_key c0 /\
  transport_session_key c = transport_session_key c0 /\ transport_principal c = transport_principal c0.
End evidence.

Section simulation.
Context {UC : UnicodeTables} {NC : NtlmCrypto} {LC : NetlogonCrypto} {GC : GssCrypto} {AX : ApExchange}.
Context {I1 I2 : Type} {RI1 : RpcInterface I1} {RI2 : RpcInterface I2}.

(** Two interfaces that answer alike for the principals in [may], and over the Netlogon
    channel if [channel] allows one. *)
Context (R : I1 -> I2 -> Prop) (may : string -> Prop) (channel : bool) (c0 : Connection).
Definition may_opt (p : option string) : Prop := forall s, p = Some s -> may s.
Definition same_call (x : (Z + bytes) * I1) (y : (Z + bytes) * I2) : Prop := x.1 = y.1 /\ R x.2 y.2.
Hypothesis answers_alike : forall op stub key p i1 i2, may_opt p -> R i1 i2 ->
  same_call (if_call_authenticated op stub key p i1) (if_call_authenticated op stub key p i2).
Hypothesis channel_alike : forall op stub i1 i2, channel = true -> R i1 i2 -> same_call (if_call op stub i1) (if_call op stub i2).
Hypothesis keys_alike : forall i1 i2, R i1 i2 ->
  if_session_key i1 = if_session_key i2 /\ (channel = false -> if_session_key i1 = None).
Hypothesis may_transport : may_opt (transport_principal c0).

Record well_attributed (c : Connection) : Prop := {
  wa_config : same_config c0 c;
  wa_ntlm : may_opt (ntlm_principal c);
  wa_gss : may_opt (gss_principal c);
  wa_channel : channel = false -> c_session_key c = None;
}.

Definition related (x : outcome (option bytes * (Connection * I1))) (y : outcome (option bytes * (Connection * I2))) : Prop :=
  match x, y with
  | Ret (r1, (c1, i1)), Ret (r2, (c2, i2)) => r1 = r2 /\ c1 = c2 /\ well_attributed c1 /\ R i1 i2
  | Panic, Panic | OutOfFuel, OutOfFuel => True
  | _, _ => False
  end.

(** Both sides make the same call. *)
Ltac same_answer H :=
  let r1 := fresh "r1" in let r2 := fresh "r2" in let i1 := fresh "i1'" in let i2 := fresh "i2'" in let E := fresh "E" in
  pose proof H as [E ?]; revert E;
  match type of H with same_call ?x ?y => destruct x as [r1 i1]; destruct y as [r2 i2] end; cbn [fst snd] in *; intros ->.

Lemma handle_auth3_ok w f c : well_attributed c -> (forall who, proves c0 (w, f) who -> may who) ->
  well_attributed (handle_auth3 (fr_header f) (fr_body f) c).
Proof.
  intros Hc Hp. unfold handle_auth3. destruct (checked_sub _ _) as [start|] eqn:Es; [|done].
  destruct (auth3_hash _ c) as [h|] eqn:Eh; [|done]. destruct Hc as [Hcfg Hn Hg Hk]. destruct (establish h _) as [ctx|] eqn:Ee; [|by constructor].
  constructor; try done. intros s Hs. simpl in Hs. apply Hp. left. exists start, h, ctx. split_and!; try done.
  destruct Hcfg as (E1 & E2 & _). unfold auth3_hash in *. rewrite <- E1, <- E2. by rewrite Hs in Eh.
Qed.

Lemma handle_gss_bind_ok w f sec_addr c : well_attributed c -> (forall who, proves c0 (w, f) who -> may who) ->
  well_attributed (handle_gss_bind w (fr_header f) (fr_body f) sec_addr c).2.
Proof.
  intros Hc Hp. unfold handle_gss_bind. destruct (parse_bind _) as [|req]; [done|]. destruct (_ =? _); [done|].
  destruct (gss_service_key c) as [sk|] eqn:Ek; [|done]. destruct (auth_token _ _) as [token|] eqn:Et; [|done].
  destruct (extract_ap_req token) as [ap|] eqn:Ea; [|done]. destruct (verify_ap_req _ sk ap) as [|v] eqn:Ev; [done|].
  destruct (build_ap_rep _ _ _ _ _) as [|rep]; [done|]. destruct Hc as [Hcfg Hn Hg Hk]. constructor; try done.
  intros s Hs. simpl in Hs. apply Hp. right. exists sk, token, ap, v. destruct Hcfg as (_ & _ & E3 & _). split_and!; try done. congruence.
Qed.

Lemma set_ntlm_ok ctx c : well_attributed c -> well_attributed (set_ntlm ctx (ntlm_principal c) c).
Proof. by intros []. Qed.

Lemma handle_ntlm_ok header hb body c i1 i2 : well_attributed c -> R i1 i2 ->
  let x := handle_ntlm_request header hb body c i1 in let y := handle_ntlm_request header hb body c i2 in
  x.1 = y.1 /\ x.2.1 = y.2.1 /\ well_attributed x.2.1 /\ R x.2.2 y.2.2.
Proof.
  intros Hc HR. unfold handle_ntlm_request. destruct (ntlm c) as [ctx|]; [|done].
  destruct (parse_signed_request _ _) as [req|]; [|done]. destruct (checked_sub _ _) as [e|]; [|done].
  destruct (verify_request _ _ ctx) as [v ctx']. pose proof (set_ntlm_ok (Some ctx') c Hc) as Hc'. destruct v as [seq|]; [|done].
  destruct (unpadded_stub req) as [stub|]; [|done].
  pose proof (answers_alike (sr_opnum req) stub (Some (nt_session_key ctx')) (ntlm_principal (set_ntlm (Some ctx') (ntlm_principal c) c)) i1 i2
    (wa_ntlm _ Hc') HR) as Hs. same_answer Hs. destruct r2 as [status|out]; [done|].
  destruct (padded_response_stub out) as [plain pad]. destruct (sign_response _ _ ctx') as [sig ctx'']. split_and!; try done. by apply set_ntlm_ok.
Qed.

Lemma handle_signed_ok header body c i1 i2 : well_attributed c -> R i1 i2 ->
  let x := handle_signed_request header body c i1 in let y := handle_signed_request header body c i2 in
  x.1 = y.1 /\ x.2.1 = y.2.1 /\ well_attributed x.2.1 /\ R x.2.2 y.2.2.
Proof.
  intros Hc HR. unfold handle_signed_request. destruct (c_session_key c) as [key|] eqn:Ek; [|done].
  assert (channel = true) as Hch by (destruct channel eqn:E; [done|]; by rewrite (wa_channel c Hc E) in Ek).
  destruct (parse_signed_request _ _) as [req|]; [|done].
  match goal with |- context [match ?s with inl _ => _ | inr _ => _ end] => destruct s as [status|stub]; [done|] end.
  pose proof (channel_alike (sr_opnum req) stub i1 i2 Hch HR) as Hs. same_answer Hs.
  split_and!; try done. destruct Hc. constructor; try done. intros E. by rewrite E in Hch.
Qed.

Lemma handle_gss_request_ok w header body c i1 i2 : well_attributed c -> R i1 i2 ->
  match handle_gss_request w header body c i1, handle_gss_request w header body c i2 with
  | Ret x, Ret y => x.1 = y.1 /\ x.2.1 = y.2.1 /\ well_attributed x.2.1 /\ R x.2.2 y.2.2
  | Panic, Panic | OutOfFuel, OutOfFuel => True
  | _, _ => False
  end.
Proof.
  intros Hc HR. unfold handle_gss_request. destruct (gss_subkey c) as [subkey|]; [|done].
  destruct (parse_signed_request _ _) as [req|]; [|done]. destruct (gss_stub _ _ _ _ _) as [status|stub]; [done|].
  pose proof (answers_alike (sr_opnum req) stub (Some subkey) (gss_principal c) i1 i2 (wa_gss _ Hc) HR) as Hs. same_answer Hs.
  destruct r2 as [status|out]; [done|].
  assert (well_attributed (set_acceptor_seq (u64 (gss_acceptor_seq c + 1)) c)) as Hc' by (by destruct Hc).
  destruct (_ && _); [|done]. by destruct (sealed_in_place _ _ _ _ _ _ _).
Qed.

Lemma dispatch_ok header body sec_addr key p i1 i2 : may_opt p -> R i1 i2 ->
  let x := dispatch header body sec_addr key p i1 in let y := dispatch header body sec_addr key p i2 in x.1 = y.1 /\ R x.2 y.2.
Proof.
  intros Hp HR. unfold dispatch. destruct (_ || _); [done|]. destruct (_ =? _); [|done]. destruct (parse_request _ _) as [|req]; [done|].
  pose proof (answers_alike (req_opnum req) (req_stub req) key p i1 i2 Hp HR) as Hs. by same_answer Hs.
Qed.

Ltac by_parts H := destruct H as (? & ? & ? & ?); cbn [fst snd] in *; subst; done.

(** The two sides stay related through a packet whose proofs are all in [may]. *)
Lemma handle_simulation w sec_addr f c i1 i2 : well_attributed c -> R i1 i2 -> (forall who, proves c0 (w, f) who -> may who) ->
  related (handle w sec_addr (fr_header f) (fr_header_bytes f) (fr_body f) c i1)
          (handle w sec_addr (fr_header f) (fr_header_bytes f) (fr_body f) c i2).
Proof.
  intros Hc HR Hp. unfold handle. destruct (_ && _ && _ && _).
  { pose proof (handle_gss_bind_ok w f sec_addr c Hc Hp) as H. by destruct (handle_gss_bind _ _ _ _ _). }
  destruct (_ && _ && _ && _); [done|]. destruct (_ && _); [pose proof (handle_auth3_ok w f c Hc Hp); done|]. destruct (_ && _).
  { destruct (parse_bind _); [done|]. destruct (keys_alike i1 i2 HR) as [E Hk]. rewrite <- E. split_and!; try done.
    destruct Hc. constructor; try done. }
  destruct (_ && _).
  - destruct (bool_decide _).
    { pose proof (handle_ntlm_ok (fr_header f) (fr_header_bytes f) (fr_body f) c i1 i2 Hc HR) as H.
      destruct (handle_ntlm_request _ _ _ c i1) as [? []], (handle_ntlm_request _ _ _ c i2) as [? []]; try done; by_parts H. }
    destruct (bool_decide _).
    + pose proof (handle_gss_request_ok w (fr_header f) (fr_body f) c i1 i2 Hc HR) as H.
      destruct (handle_gss_request _ _ _ c i1) as [[? []]| |], (handle_gss_request _ _ _ c i2) as [[? []]| |]; try done; by_parts H.
    + pose proof (handle_signed_ok (fr_header f) (fr_body f) c i1 i2 Hc HR) as H.
      destruct (handle_signed_request _ _ c i1) as [? []], (handle_signed_request _ _ c i2) as [? []]; try done; by_parts H.
  - assert (may_opt (transport_principal c)) as Ht by (destruct Hc as [(_ & _ & _ & _ & ->) _ _ _]; done).
    pose proof (dispatch_ok (fr_header f) (fr_body f) sec_addr (transport_session_key c) _ i1 i2 Ht HR) as H.
    destruct (dispatch _ _ _ _ _ i1), (dispatch _ _ _ _ _ i2). destruct H as [E ?]. cbn [fst snd] in *. subst. done.
Qed.

Lemma serve_simulation sec_addr packets : forall c i1 i2, well_attributed c -> R i1 i2 ->
  Forall (fun p => forall who, proves c0 p who -> may who) packets ->
  match serve sec_addr packets c i1, serve sec_addr packets c i2 with
  | Ret (r1, (c1, j1)), Ret (r2, (c2, j2)) => r1 = r2 /\ c1 = c2 /\ well_attributed c1 /\ R j1 j2
  | Panic, Panic | OutOfFuel, OutOfFuel => True
  | _, _ => False
  end.
Proof.
  induction packets as [|[w f] packets IH]; intros c i1 i2 Hc HR Hp; [done|]. apply Forall_cons in Hp as [Hp Hps]. cbn [serve].
  pose proof (handle_simulation w sec_addr f c i1 i2 Hc HR Hp) as H.
  destruct (handle _ _ _ _ _ c i1) as [[r1 [c1 j1]]| |], (handle _ _ _ _ _ c i2) as [[r2 [c2 j2]]| |]; try done.
  destruct H as (-> & -> & Hc2 & HR2). cbn [obind]. specialize (IH c2 j1 j2 Hc2 HR2 Hps).
  destruct (serve _ _ c2 j1) as [[s1 [d1 k1]]| |], (serve _ _ c2 j2) as [[s2 [d2 k2]]| |]; try done.
  cbn [obind]. destruct IH as (-> & -> & ? & ?). done.
Qed.
End simulation.

(** ** Attribution of calls *)

Record logged_call := mkLoggedCall { lc_opnum : Z; lc_stub : bytes; lc_key : option bytes; lc_principal : option string }.

(** Any interface, with a record of the calls it gets. *)
#[export] Instance logged {I} `{RpcInterface I} : RpcInterface (I * list logged_call) := {
  if_call op stub s := let '(r, i) := if_call op stub s.1 in (r, (i, s.2 ++ [mkLoggedCall op stub None None]));
  if_call_authenticated op stub key p s :=
    let '(r, i) := if_call_authenticated op stub key p s.1 in (r, (i, s.2 ++ [mkLoggedCall op stub key p]));
  if_session_key s := if_session_key s.1;
}.

(** A connection on which nothing has been proved. *)
Definition fresh (c : Connection) : Prop := ntlm_principal c = None /\ gss_principal c = None /\ c_session_key c = None.

Section attribution.
Context {UC : UnicodeTables} {NC : NtlmCrypto} {LC : NetlogonCrypto} {GC : GssCrypto} {AX : ApExchange}.
Context {I : Type} {RI : RpcInterface I}.

(** C2: Every call that an interface gets in the name of a principal is in the name of the
    transport's, of an account whose NTLM proof a packet carried, or of the client of a
    ticket that a packet carried. *)
Theorem calls_are_attributed c0 sec_addr packets (i : I) replies c i' log : fresh c0 ->
  serve sec_addr packets c0 (i, []) = Ret (replies, (c, (i', log))) ->
  Forall (fun call => forall who, lc_principal call = Some who ->
            transport_principal c0 = Some who \/ Exists (fun p => proves c0 p who) packets) log.
Proof.
  intros (Hn & Hg & Hk) E.
  set (may := fun who => transport_principal c0 = Some who \/ Exists (fun p => proves c0 p who) packets).
  set (log_ok := Forall (fun call => may_opt may (lc_principal call))).
  pose proof (serve_simulation (fun x y : I * list logged_call => x = y /\ log_ok x.2) may true c0) as Hsim.
  specialize (Hsim ltac:(intros op stub key p i1 i2 Hp [<- Hl]; unfold same_call, if_call_authenticated, logged;
    destruct (RpcConn.if_call_authenticated op stub key p i1.1); split; [done|split; [done|]]; apply Forall_app_2; [done|by constructor])).
  specialize (Hsim ltac:(intros op stub i1 i2 _ [<- Hl]; unfold same_call, if_call, logged;
    destruct (RpcConn.if_call op stub i1.1); split; [done|split; [done|]]; apply Forall_app_2; [done|by constructor])).
  specialize (Hsim ltac:(by intros i1 i2 [<- _]) ltac:(intros s Hs; by left) sec_addr packets c0 (i, []) (i, [])).
  rewrite E in Hsim. apply Hsim.
  - constructor; [done|by rewrite Hn|by rewrite Hg|done].
  - split; [done|constructor].
  - apply Forall_forall. intros p Hp who Hw. right. apply Exists_exists. by exists p.
Qed.
End attribution.

(** ** Replication *)

(** The replication interface: its configuration is fixed, its state is the directory. *)
Definition drs_interface {UC : UnicodeTables} {A} `{RidAllocator A} {DC : DrsCrypto} (d : DrsuapiInterface) : RpcInterface (Directory A) := {|
  if_call op stub dir := Drs.call d op stub dir;
  if_call_authenticated op stub key p dir := Drs.call_authenticated d op stub key p dir;
  if_session_key _ := None;
|}.

Section replication.
Context {UC : UnicodeTables} {NC : NtlmCrypto} {LC : NetlogonCrypto} {GC : GssCrypto} {AX : ApExchange} {DC : DrsCrypto}.
Context {A : Type} {RA : RidAllocator A}.

(** A refused or harmless call: the reply does not depend on the directory. *)
Lemma unauthorized_call d op stub key p (dir : Directory A) : ~ has_right d p dir ->
  call_authenticated d op stub key p dir =
    (if op =? OP_BIND then inr bind_response else if op =? OP_UNBIND then inr unbind_response
     else if op =? OP_GET_NC_CHANGES then inl fault.ACCESS_DENIED else inl fault.OP_RNG_ERROR, dir).
Proof.
  intros Hn. unfold call_authenticated, Drs.call_with_session. destruct (op =? OP_GET_NC_CHANGES) eqn:E.
  - apply Z.eqb_eq in E as ->. cbn [Z.eqb Pos.eqb OP_GET_NC_CHANGES OP_BIND OP_UNBIND]. destruct p as [p|]; [|done].
    destruct (is_authorized_for_replication d p dir) eqn:Ea; [|done]. destruct Hn. by apply is_authorized_iff.
  - destruct (op =? OP_BIND); [done|]. by destruct (op =? OP_UNBIND).
Qed.

(** C4: A connection to the replication endpoint that proves only principals without the
    right to replicate gets the same bytes from every directory: nothing of the accounts
    and their secrets leaves the server, and the directory does not change. *)
Theorem unauthorized_connection_learns_nothing d service_key sec_addr packets (dir1 dir2 : Directory A) :
  let c0 := accepted (mkAuthConfig None (Some service_key)) in
  let run dir := @serve UC NC LC GC AX _ (drs_interface d) sec_addr packets c0 dir in
  Forall (fun p => length (fresh_confounder p.1) = 16%nat) packets ->
  Forall (fun p => forall who, proves c0 p who -> ~ has_right d (Some who) dir1 /\ ~ has_right d (Some who) dir2) packets ->
  exists replies c, run dir1 = Ret (replies, (c, dir1)) /\ run dir2 = Ret (replies, (c, dir2)).
Proof.
  intros c0 run Hw Hp.
  pose proof (@serve_simulation UC NC LC GC AX (Directory A) (Directory A) (drs_interface d) (drs_interface d)
    (fun x y => x = dir1 /\ y = dir2) (fun who => ~ has_right d (Some who) dir1 /\ ~ has_right d (Some who) dir2) false c0) as Hsim.
  assert (forall dir : Directory A, ~ has_right d None dir) as Hnone by (by intros dir (p & u & rid & ms & [=] & _)).
  specialize (Hsim ltac:(intros op stub key p i1 i2 Hm [-> ->]; unfold same_call; cbn [if_call_authenticated drs_interface];
    destruct p as [p|]; [destruct (Hm p eq_refl) as [H1 H2]; by rewrite !unauthorized_call|by rewrite !unauthorized_call by done])).
  specialize (Hsim ltac:(done) ltac:(done) ltac:(done) sec_addr packets c0 dir1 dir2).
  destruct (@serve_returns UC NC LC GC AX _ (drs_interface d) sec_addr packets Hw c0 dir1) as [[r1 [c1 j1]] E1].
  destruct (@serve_returns UC NC LC GC AX _ (drs_interface d) sec_addr packets Hw c0 dir2) as [[r2 [c2 j2]] E2].
  unfold run. rewrite E1, E2 in *. destruct Hsim as (-> & -> & _ & -> & ->); [by constructor|done|done|]. by exists r2, c2.
Qed.
End replication.

(** ** Account management *)

Definition samr_interface {UC : UnicodeTables} {DC : DrsCrypto} {A} `{RidAllocator A} (md4 : bytes -> bytes)
    (generate_key_from_password : bytes -> bytes -> string + bytes) : RpcInterface (SamrInterface A) := {|
  if_call op stub i := Samr.call md4 generate_key_from_password op stub i;
  if_call_authenticated op stub key _ i := Samr.call_with_session md4 generate_key_from_password op stub key i;
  if_session_key _ := None;
|}.

(** A request without authentication, as a client sends it. *)
Definition request_frame (cid op : Z) (stub : bytes) : frame :=
  let body := build_request_body 0 op stub in
  let h := mkCommonHeader ptype.REQUEST whole (Z.of_nat HEADER_LEN + len body) 0 cid in
  mkFrame h (header_bytes h) body.

Lemma parse_request_frame cid op stub : is_u16 op ->
  parse_request (fr_header (request_frame cid op stub)) (fr_body (request_frame cid op stub)) = inr (Rpc.mkRequest 0 op stub).
Proof.
  intros Ho. cbn [request_frame fr_body fr_header].
  assert (len (build_request_body 0 op stub) = 8 + len stub) as Hl.
  { unfold build_request_body, len. rewrite !length_app, !to_le_bytes_length. lia. }
  assert (skipn 8 (build_request_body 0 op stub) = stub) as Hs.
  { unfold build_request_body. rewrite !app_assoc. apply drop_app_length'. rewrite !length_app, !to_le_bytes_length. done. }
  assert (from_le_bytes (take 2 (skipn 4 (build_request_body 0 op stub))) = 0) as Hc.
  { unfold build_request_body. rewrite drop_app_length' by (by rewrite to_le_bytes_length). by rewrite take_app_length' by (by rewrite to_le_bytes_length). }
  assert (from_le_bytes (take 2 (skipn 6 (build_request_body 0 op stub))) = op) as Hop.
  { unfold build_request_body. rewrite (app_assoc (to_le_bytes 4 _)), drop_app_length' by (by rewrite length_app, !to_le_bytes_length).
    rewrite take_app_length' by (by rewrite to_le_bytes_length). by apply from_to_le_bytes. }
  set (b := build_request_body 0 op stub) in *. clearbody b. unfold len in Hl.
  unfold parse_request, run_reader, p_u32, p_u16, p_take, p_bind, p_rest, p_ret. cbn [h_pfc_flags].
  rewrite !(proj2 (Nat.ltb_ge _ _)) by lia. cbn [Nat.add]. change (negb (Z.land whole pfc.OBJECT_UUID =? 0)) with false. cbn iota beta.
  by rewrite Hs, Hc, Hop.
Qed.

Section account_takeover.
Context {UC : UnicodeTables} {NC : NtlmCrypto} {LC : NetlogonCrypto} {GC : GssCrypto} {AX : ApExchange} {DC : DrsCrypto}.
Context {A : Type} {RA : RidAllocator A}.
Context (md4 : bytes -> bytes) (generate_key_from_password : bytes -> bytes -> string + bytes).
Implicit Types i : SamrInterface A.

Abbreviation samr := (samr_interface md4 generate_key_from_password).
Abbreviation serve_samr := (@serve UC NC LC GC AX _ samr).
Abbreviation call := (Samr.call md4 generate_key_from_password).

(** An unauthenticated request reaches the interface. *)
Lemma serve_request sec_addr w cid op stub rest cfg i : is_u16 op -> op <> OP_SET_USER_INFO -> op <> OP_SET_USER_INFO2 ->
  serve_samr sec_addr ((w, request_frame cid op stub) :: rest) (accepted cfg) i =
    (let! r := serve_samr sec_addr rest (accepted cfg) (call op stub i).2 in
     Ret ((match (call op stub i).1 with inr out => build_response cid 0 out | inl status => build_fault cid 0 status end) :: r.1, r.2)).
Proof.
  intros Ho H1 H2. pose proof (parse_request_frame cid op stub Ho) as Hreq. cbn [serve]. unfold handle, is_bind.
  set (f := request_frame cid op stub) in *. change (h_auth_length (fr_header f)) with 0. change (h_ptype (fr_header f)) with ptype.REQUEST.
  change (0 <? 0) with false. rewrite !andb_false_r. cbn [andb]. unfold dispatch. rewrite Hreq.
  change (h_ptype (fr_header f)) with ptype.REQUEST. change (h_call_id (fr_header f)) with cid. change (ptype.REQUEST =? ptype.BIND) with false.
  change (ptype.REQUEST =? ptype.ALTER_CONTEXT) with false. change (ptype.REQUEST =? ptype.REQUEST) with true. cbn [orb req_opnum req_stub req_context_id].
  cbn [samr_interface if_call_authenticated]. unfold Samr.call_with_session. rewrite (proj2 (Z.eqb_neq _ _) H1), (proj2 (Z.eqb_neq _ _) H2). cbn [orb].
  destruct (call op stub i) as [r i']. cbn [obind fst snd]. by destruct (serve_samr _ _ _ i') as [[? ?]| |].
Qed.

(** C33: What an anonymous client does to an account: it opens the domain and creates an
    account of that name.  The KDC then answers for it, and for its service names, with
    the key of a password that only depends on the name, whatever was there before. *)
Theorem anonymous_takes_over_account cfg sec_addr w i store sam args k nm :
  kdc i = Some store -> 0 <= next_id (state i) < 2 ^ 32 - 2 ->
  let h1 := handle_of (next_id (state i)) in
  let h2 := handle_of (next_id (state i) + 1) in
  parse_unicode_string_arg (h2 ++ args) = Some sam ->
  machine_kerberos_key generate_key_from_password (realm store) sam (utf16le (machine_initial_password sam)) = inr k ->
  lookup_key nm ∈ alias_keys (realm store) sam -> lookup_key nm ∉ revoked store ->
  exists replies c i' store' p,
    serve_samr sec_addr [(w, request_frame 1 OP_CONNECT []); (w, request_frame 2 OP_OPEN_DOMAIN h1);
                         (w, request_frame 3 OP_CREATE_USER2 (h2 ++ args))] (accepted cfg) i = Ret (replies, (c, i')) /\
    kdc i' = Some store' /\ get nm store' = Some p /\ key (pkey p) = k.
Proof.
  intros Hk Hid h1 h2 Hp Hkey Hin Hr.
  assert (forall id rest, handle_bytes (handle_of id ++ rest) = Some (handle_of id)) as Hb.
  { intros id rest. unfold handle_bytes. apply (slice_get_app _ (handle_of id) rest 0 20); [done|lia|]. unfold handle_of.
    rewrite !length_app, to_le_bytes_length. done. }
  set (i1 := (open HServer i).2). set (i2 := (open HDomain i1).2).
  assert (next_id (state i1) = next_id (state i) + 1) as Hn1 by (cbn; unfold u32; rewrite Z.mod_small; lia).
  assert (valid h1 HServer i1 = true) as Hv1.
  { pose proof (Hb (next_id (state i)) []) as E. rewrite app_nil_r in E. unfold valid, h1. rewrite E. apply bool_decide_eq_true. apply lookup_insert_eq. }
  assert (valid (h2 ++ args) HDomain i2 = true) as Hv2.
  { unfold valid, h2. rewrite Hb. apply bool_decide_eq_true. rewrite <- Hn1. apply lookup_insert_eq. }
  destruct (created_account_owns_its_name md4 generate_key_from_password (h2 ++ args) i2 store sam k nm Hv2 Hp Hk Hkey Hin Hr)
    as (store' & p & E1 & E2 & E3).
  rewrite !serve_request by (done || (unfold is_u16; vm_compute; split; congruence)).
  change ((call OP_CONNECT [] i).2) with i1.
  assert ((call OP_OPEN_DOMAIN h1 i1).2 = i2) as ->.
  { unfold Samr.call. change (OP_OPEN_DOMAIN =? OP_CONNECT) with false. change (OP_OPEN_DOMAIN =? OP_CLOSE_HANDLE) with false.
    change (OP_OPEN_DOMAIN =? OP_LOOKUP_DOMAIN) with false. change (OP_OPEN_DOMAIN =? OP_ENUM_DOMAINS) with false.
    change (OP_OPEN_DOMAIN =? OP_OPEN_DOMAIN) with true. cbn iota. by rewrite Hv1. }
  cbn [serve obind]. by eexists _, _, _, store', p.
Qed.
End account_takeover.

(** ** Witnesses *)

Module conn_demo.
#[local] Instance ascii_only : UnicodeTables := {| unicode_lowercase s := s; unicode_uppercase s := s |}.
#[local] Instance no_allocator : RidAllocator unit := {| allocate a := (None, a); allocate_pool _ a := (None, a) |}.
#[local] Instance toy_des : DrsCrypto := {| des_encrypt_block _ b := b; des_decrypt_block _ b := b; md5 b := take 16 (b ++ replicate 16 7) |}.
#[local] Existing Instances ntlm_demo.toy_digests netlogon_demo.toy_cipher gss_demo.toy_gss.
(** Every ticket is one of [mallory]. *)
#[local] Instance tickets : ApExchange := {|
  verify_ap_req _ _ _ := inr (mkVerifiedApReq ["mallory"%string] "EX.COM" (replicate 32 1) None [] []);
  build_ap_rep subkey _ _ _ _ := inr (0x6f :: 32 :: subkey);
|}.

Definition w : surroundings := mkSurroundings 0 (replicate 32 2) (replicate 16 3).
Definition authed_frame (pt cid : Z) (body token : bytes) : frame :=
  let body := body ++ sec_trailer RPC_C_AUTHN_GSS_NEGOTIATE RPC_C_AUTHN_LEVEL_PKT_INTEGRITY 0 ++ token in
  let h := mkCommonHeader pt whole (Z.of_nat HEADER_LEN + len body) (len token) cid in
  mkFrame h (header_bytes h) body.

(** A client that binds with its ticket, then signs a request for the changes. *)
Definition stub : bytes := replicate 64 0.
Definition packets : list (surroundings * frame) :=
  [(w, authed_frame ptype.BIND 1 (build_bind_body 0 (replicate 16 5) 4) (wrap_ap_req ([0x6e; 0x10] ++ replicate 16 0)));
   (w, authed_frame ptype.REQUEST 2 (build_request_body 0 OP_GET_NC_CHANGES stub) (unwrap_or_default (gss_mic (replicate 32 2) 0 stub)));
   (w, request_frame 3 OP_BIND [])].

Definition directory_of (hash : bytes) : Directory unit :=
  mkDirectory "EX" "ex.com" "EX.COM" [21; 1; 2; 3]
    [mkUser "mallory" 1103 hash [] false None; mkUser "DC2$" 1104 hash [] false None]
    [mkGroup "Domain Controllers" 516 [1104] [mkGroupLink 1104 true None] None] [] [] 1105 None.

Definition endpoint : Connection := accepted (mkAuthConfig None (Some (replicate 32 9))).
Definition drs : RpcInterface (Directory unit) := drs_interface new_interface.
Definition served : list bytes * (Connection * (Directory unit * list logged_call)) :=
  match @serve _ _ _ _ _ _ (@logged _ drs) "135" packets endpoint (directory_of [1], []) with Ret r => r | _ => ([], (endpoint, (directory_of [], []))) end.

Lemma calls_are_attributed_witness :
  map lc_principal served.2.2.2 = [Some "mallory"%string; None] /\
  Forall (fun call => forall who, lc_principal call = Some who ->
            transport_principal endpoint = Some who \/ Exists (fun p => proves endpoint p who) packets) served.2.2.2.
Proof.
  split; [vm_compute; reflexivity|].
  apply (@calls_are_attributed _ _ _ _ _ _ drs endpoint "135" packets (directory_of [1]) served.1 served.2.1 served.2.2.1 served.2.2.2).
  - split; [reflexivity|split; reflexivity].
  - vm_compute. reflexivity.
Defined.

Lemma only_mallory p who : proves endpoint p who -> who = "mallory"%string.
Proof.
  intros [(? & h & ? & _ & _ & E & _)|(k & token & ap & v & _ & _ & _ & E & Ep)]; [done|].
  injection E as <-. by injection Ep as <-.
Qed.

Lemma unauthorized_connection_learns_nothing_witness :
  exists replies c,
    @serve _ _ _ _ _ _ drs "135" packets endpoint (directory_of [1]) = Ret (replies, (c, directory_of [1])) /\
    @serve _ _ _ _ _ _ drs "135" packets endpoint (directory_of [2]) = Ret (replies, (c, directory_of [2])).
Proof.
  apply (unauthorized_connection_learns_nothing new_interface (replicate 32 9) "135" packets (directory_of [1]) (directory_of [2])).
  - repeat constructor.
  - apply Forall_forall. intros p _ who ->%only_mallory. split; rewrite <- is_authorized_iff; vm_compute; congruence.
Defined.

(** The account whose key signs every ticket. *)
Definition krbtgt_args : bytes :=
  let u := utf16le "krbtgt/EX.COM" in
  replicate 4 0 ++ to_le_bytes 4 1 ++ to_le_bytes 4 13 ++ to_le_bytes 4 0 ++ to_le_bytes 4 13 ++ u.
Definition samr0 : SamrInterface unit :=
  Samr.build (directory_of [1]) (Some (new_store "EX.COM")).
Definition known_key : bytes :=
  match machine_kerberos_key samr_demo.string_to_key "EX.COM" "krbtgt/EX.COM" (utf16le (machine_initial_password "krbtgt/EX.COM")) with
  | inr k => k | inl _ => [] end.

Lemma anonymous_takes_over_account_witness :
  exists replies c i' store' p,
    @serve _ _ _ _ _ _ (samr_interface samr_demo.md4 samr_demo.string_to_key) "135"
      [(w, request_frame 1 OP_CONNECT []); (w, request_frame 2 OP_OPEN_DOMAIN (handle_of 1));
       (w, request_frame 3 OP_CREATE_USER2 (handle_of 2 ++ krbtgt_args))] (accepted (mkAuthConfig (Some [1]) None)) samr0 = Ret (replies, (c, i')) /\
    kdc i' = Some store' /\ get ["krbtgt"%string; "EX.COM"%string] store' = Some p /\ key (pkey p) = known_key.
Proof.
  apply (anonymous_takes_over_account samr_demo.md4 samr_demo.string_to_key (mkAuthConfig (Some [1]) None) "135" w samr0 (new_store "EX.COM")
           "krbtgt/EX.COM" krbtgt_args known_key ["krbtgt"%string; "EX.COM"%string]).
  - reflexivity.
  - vm_compute. split; congruence.
  - vm_compute. reflexivity.
  - vm_compute. reflexivity.
  - vm_compute. left.
  - vm_compute. intros H. inversion H.
Defined.
End conn_demo.
