(* ===== verification/DrsClient.v ===== *)
(** * The consumer of a replication source

    [crates/magnetite-rpc/src/client.rs]: the requests of a [DrsClient] and what
    it makes of the answers, from [IDL_DRSBind] to the paging loop of
    [replicate_nc].  One round trip over the connection, [DrsClient::call], is an
    argument: it takes the state of the peer to an answer and its next state.

    With the server of [Drs] as the peer, [replicate_nc_complete] shows that
    paging delivers every object of the directory once and in order, with
    names, RIDs and NT hashes as the source holds them, and
    [granted_pools_disjoint] that pools granted over any run of requests do not
    overlap, up to the end of the 32-bit range. *)

From S2P Require Import Prelude Bytes RustStr Utf16 RustNet KdcStore AdDirectory Rpc DrsSecret Ndr DrsWire DrsObject Drs.

Local Open Scope Z_scope.
Local Open Scope ndr_scope.

(** ** Requests *)

Definition OP_DRS_BIND : Z := 0.
Definition OP_DRS_GET_NC_CHANGES : Z := 3.
Definition OP_DRS_ADD_ENTRY : Z := 17.

(** The bytes of pairs of hexadecimal digits; a pair that is none is 0. *)
Fixpoint hex_bytes (s : string) : bytes :=
  match s with
  | String a (String b s') => unwrap_or 0 (from_str_radix16 (String a (String b EmptyString))) :: hex_bytes s'
  | _ => []
  end.

(** The text is ASCII: the callers pass constants. *)
Definition guid_le (uuid : string) : bytes :=
  match split "-" uuid with
  | [p1; p2; p3; p4; p5] =>
      let b := rev (hex_bytes p1) ++ rev (hex_bytes p2) ++ rev (hex_bytes p3) ++ hex_bytes p4 ++ hex_bytes p5 in
      take 16 b ++ replicate (16 - length b) 0
  | _ => replicate 16 0
  end.

Definition DRS_BIND_CLIENT_GUID : string := "e24d201a-4fd6-11d1-a3da-0000f875ae0d".

Definition build_drs_bind_stub : bytes := to_le_bytes 4 0x00020000 ++ guid_le DRS_BIND_CLIENT_GUID ++ to_le_bytes 4 0.

(** The buffer of 108 bytes is zero but for four fields. *)
Definition build_get_nc_changes_stub (handle : bytes) (from max_objects : Z) : bytes :=
  handle ++ to_le_bytes 4 8 ++ replicate 48 0 ++ to_le_bytes 8 from ++ replicate 24 0 ++ to_le_bytes 4 max_objects.

Record GetNcChangesRequest := mkGetNcChangesRequest {
  rq_handle : bytes;
  rq_dest_dsa : bytes;
  rq_src_invocation : bytes;
  rq_nc_dn : string;
  rq_nc_guid : bytes;
  rq_from : Z;
  rq_flags : Z;
  rq_max_objects : Z;
  rq_ext_op : Z;
  rq_utdv : list (bytes * Z);
}.

Definition encode_request_dsname (g : bytes) (nm : string) : rwriter :=
  let chars := encode_utf16 nm in
  let max_count := len chars + 1 in
  let struct_len := 4 + 4 + 4 + 16 + 28 + 4 + 2 * max_count in
  lift (w_u32 (u32 max_count)) ;;
  lift (w_u32 (u32 struct_len)) ;;
  lift (w_u32 0) ;;
  lift (w_bytes g) ;;
  lift (w_bytes (replicate 28 0)) ;;
  lift (w_u32 (len32 chars)) ;;
  w_each (fun c => lift (w_u16 c)) chars ;;
  lift (w_u16 0) ;;
  lift (w_align 4).

Definition encode_request_utdv (cursors : list (bytes * Z)) : rwriter :=
  lift (w_u32 (len32 cursors)) ;;
  lift (w_align 8) ;;
  lift (w_u32 1) ;;
  lift (w_u32 0) ;;
  lift (w_u32 (len32 cursors)) ;;
  lift (w_u32 0) ;;
  lift (w_align 8) ;;
  w_each (fun c => lift (w_bytes (fst c)) ;; lift (w_bytes (to_le_bytes 8 (snd c)))) cursors.

(** The fields up to the deferred referents. *)
Definition v8_fields (r : GetNcChangesRequest) : rwriter :=
  lift (w_bytes (rq_handle r)) ;;
  lift (w_u32 8) ;;
  lift (w_u32 8) ;;
  lift (w_align 8) ;;
  lift (w_bytes (rq_dest_dsa r)) ;;
  lift (w_bytes (rq_src_invocation r)) ;;
  lift (w_u32 0x00020004) ;;
  lift (w_align 8) ;;
  lift (w_bytes (to_le_bytes 8 (rq_from r))) ;;
  lift (w_bytes (replicate 16 0)) ;;
  lift (w_u32 (match rq_utdv r with [] => 0 | _ => 0x00020008 end)) ;;
  lift (w_u32 (rq_flags r)) ;;
  lift (w_u32 (rq_max_objects r)) ;;
  lift (w_u32 0) ;;
  lift (w_u32 (rq_ext_op r)) ;;
  lift (w_align 8) ;;
  lift (w_bytes (replicate 8 0)) ;;
  lift (w_u32 0) ;;
  lift (w_u32 0) ;;
  lift (w_u32 0) ;;
  lift (w_u32 0).

Definition marshal_v8 (r : GetNcChangesRequest) : bytes :=
  with_refs 0
    (v8_fields r ;;
     encode_request_dsname (rq_nc_guid r) (rq_nc_dn r) ;;
     match rq_utdv r with [] => w_nop | _ => encode_request_utdv (rq_utdv r) end) [].

(** A referent when there is something to point to. *)
Definition referent_if (b : bool) : rwriter := if b then referent else lift (w_u32 0).

Definition add_entry_attr (a : Z * list bytes) : rwriter :=
  lift (w_u32 (fst a)) ;; lift (w_u32 (len32 (snd a))) ;; referent.

Definition add_entry_values (a : Z * list bytes) : rwriter :=
  lift (w_u32 (len32 (snd a))) ;;
  w_each (fun v => lift (w_u32 (len32 v)) ;; referent) (snd a) ;;
  w_each (fun v => lift (w_u32 (len32 v)) ;; lift (w_bytes v) ;; lift (w_align 4)) (snd a).

Definition build_add_entry_stub (handle : bytes) (dn : string) (g : bytes) (attrs : list (Z * list bytes)) : bytes :=
  with_refs 0x00020004
    (lift (w_bytes handle) ;;
     lift (w_u32 2) ;;
     lift (w_u32 2) ;;
     lift (w_u32 0) ;;
     referent ;;
     lift (w_u32 0) ;;
     lift (w_u32 (len32 attrs)) ;;
     referent_if (negb (match attrs with [] => true | _ => false end)) ;;
     encode_request_dsname g dn ;;
     match attrs with
     | [] => w_nop
     | _ => lift (w_u32 (len32 attrs)) ;; w_each add_entry_attr attrs ;; w_each add_entry_values attrs
     end) [].

(** ** The client *)

(** The handle of the binding, and the peer. *)
Definition client (S A : Type) := bytes * S -> (RpcError + A) * (bytes * S).

Definition cl_ret {S A} (a : A) : client S A := fun st => (inr a, st).
Definition cl_err {S A} (e : RpcError) : client S A := fun st => (inl e, st).
Definition cl_bind {S A B} (m : client S A) (k : A -> client S B) : client S B :=
  fun st => match m st with (inr a, st') => k a st' | (inl e, st') => (inl e, st') end.
Definition cl_handle {S} : client S bytes := fun st => (inr st.1, st).
Definition cl_set_handle {S} (h : bytes) : client S () := fun st => (inr (), (h, st.2)).
Definition cl_of_option {S A} (e : RpcError) (o : option A) : client S A :=
  match o with Some a => cl_ret a | None => cl_err e end.

Declare Scope client_scope.
Notation "'cl!' x <- m ; k" := (cl_bind m (fun x => k))
  (at level 200, x pattern, m at level 100, k at level 200, right associativity) : client_scope.
Local Open Scope client_scope.

Section client.
Context {S : Type} (call : Z -> bytes -> S -> (RpcError + bytes) * S).

Definition cl_call (opnum : Z) (stub : bytes) : client S bytes :=
  fun st => let '(r, s') := call opnum stub st.2 in (r, (st.1, s')).

(** The extensions of the server, of any length, precede the handle. *)
Definition bind_handle : reader bytes :=
  rd! ref <- r_u32;
  rd! _ <- (if ref =? 0 then r_ret () else
            rd! max_count <- r_u32; rd! _ <- r_u32; rd! _ <- r_take (Z.to_nat max_count); r_align 4);
  r_take 20.

Definition drs_bind : client S () :=
  cl! reply <- cl_call OP_DRS_BIND build_drs_bind_stub;
  cl! h <- cl_of_option Truncated (bind_handle reply 0%nat);
  cl_set_handle h.1.

Definition undecodable : RpcError := Client "undecodable GetNCChanges reply".

Definition get_nc_changes (from max_objects : Z) : client S ReplicatedChanges :=
  cl! h <- cl_handle;
  cl! reply <- cl_call OP_DRS_GET_NC_CHANGES (build_get_nc_changes_stub h from max_objects);
  cl_of_option undecodable (parse_get_nc_changes_reply reply).

Definition get_nc_changes_delta (nc_dn : string) (dest_dsa src_invocation : bytes) (from flags max_objects : Z)
    (utdv : list (bytes * Z)) : client S ReplicatedChanges :=
  cl! h <- cl_handle;
  let req := mkGetNcChangesRequest h dest_dsa src_invocation nc_dn (replicate 16 0) from flags max_objects 0 utdv in
  cl! reply <- cl_call OP_DRS_GET_NC_CHANGES (marshal_v8 req);
  cl_of_option undecodable (parse_get_nc_changes_reply reply).

Definition get_nc_changes_v8 (nc_dn : string) (dest_dsa src_invocation : bytes) (from flags max_objects : Z) :
    client S ReplicatedChanges :=
  get_nc_changes_delta nc_dn dest_dsa src_invocation from flags max_objects [].

Definition DRS_WRIT_REP : Z := 0x00000010.

Definition replicate_single_object (object_guid : bytes) : client S (option ReplicatedObject) :=
  cl! h <- cl_handle;
  let req := mkGetNcChangesRequest h (replicate 16 0) (replicate 16 0) "" object_guid 0 DRS_WRIT_REP 1 exop.REPL_OBJ [] in
  cl! reply <- cl_call OP_DRS_GET_NC_CHANGES (marshal_v8 req);
  cl! changes <- cl_of_option undecodable (parse_get_nc_changes_reply reply);
  cl_ret (head (objects changes)).

Definition extended_op (op : Z) (dn : string) (guid dest_ntds_guid : bytes) : client S (ExOpErr * option ReplicatedObject) :=
  cl! h <- cl_handle;
  let req := mkGetNcChangesRequest h dest_ntds_guid (replicate 16 0) dn guid 0 DRS_WRIT_REP 1 op [] in
  cl! reply <- cl_call OP_DRS_GET_NC_CHANGES (marshal_v8 req);
  cl! changes <- cl_of_option (Client "undecodable GetNCChanges (extended op) reply") (parse_get_nc_changes_reply reply);
  cl_ret (from_raw (ext_op_err changes), head (objects changes)).

Definition transfer_fsmo_role (role : FsmoRole) (role_object_dn : string) (role_object_guid dest_ntds_guid : bytes) :
    client S (ExOpErr * option ReplicatedObject) :=
  extended_op (role_exop role) role_object_dn role_object_guid dest_ntds_guid.

Definition request_rid_pool_object (rid_manager_dn : string) (rid_manager_guid dest_ntds_guid : bytes) :
    client S (ExOpErr * option ReplicatedObject) :=
  extended_op exop.FSMO_RID_ALLOC rid_manager_dn rid_manager_guid dest_ntds_guid.

Definition request_rid_pool (rid_manager_dn : string) (rid_manager_guid dest_ntds_guid : bytes) :
    client S (ExOpErr * option (Z * Z)) :=
  cl! r <- request_rid_pool_object rid_manager_dn rid_manager_guid dest_ntds_guid;
  cl_ret (r.1, match r.2 with Some o => rid_allocation_pool o | None => None end).

Definition ds_add_entry (dn : string) (guid : bytes) (attrs : list (Z * list bytes)) : client S bytes :=
  cl! h <- cl_handle;
  cl_call OP_DRS_ADD_ENTRY (build_add_entry_stub h dn guid attrs).

(** [for _ in 0..max_pages] *)
Fixpoint replicate_pages (nc_dn : string) (flags page_size : Z) (max_pages : nat) (from : Z) (all : list ReplicatedObject) :
    client S (list ReplicatedObject) :=
  match max_pages with
  | O => cl_ret all
  | Datatypes.S n =>
      cl! page <- get_nc_changes_v8 nc_dn (replicate 16 0) (replicate 16 0) from flags page_size;
      let all := all ++ objects page in
      if negb (more_data page) || (usn_to page <=? from) then cl_ret all
      else replicate_pages nc_dn flags page_size n (usn_to page) all
  end.

Definition replicate_nc (nc_dn : string) (flags page_size : Z) (max_pages : nat) : client S (list ReplicatedObject) :=
  replicate_pages nc_dn flags page_size max_pages 0 [].
End client.

(** ** What the server reads of a request *)

Definition request_ok (r : GetNcChangesRequest) : Prop :=
  length (rq_handle r) = 20%nat /\ length (rq_dest_dsa r) = 16%nat /\ length (rq_src_invocation r) = 16%nat /\
  0 <= rq_from r < 2 ^ 63 /\ is_u32 (rq_max_objects r) /\ is_u32 (rq_ext_op r).

(** The fixed part, with its padding. *)
Definition v8_head (r : GetNcChangesRequest) : bytes :=
  (rq_handle r ++ to_le_bytes 4 8 ++ to_le_bytes 4 8 ++ replicate 4 0 ++ rq_dest_dsa r ++ rq_src_invocation r ++
   to_le_bytes 4 0x00020004 ++ replicate 4 0) ++ to_le_bytes 8 (rq_from r) ++ replicate 16 0 ++
  (to_le_bytes 4 (match rq_utdv r with [] => 0 | _ => 0x00020008 end) ++ to_le_bytes 4 (rq_flags r)) ++
  to_le_bytes 4 (rq_max_objects r) ++ to_le_bytes 4 0 ++ to_le_bytes 4 (rq_ext_op r) ++
  replicate 4 0 ++ replicate 8 0 ++ to_le_bytes 4 0 ++ to_le_bytes 4 0 ++ to_le_bytes 4 0 ++ to_le_bytes 4 0.

(** A list of known length, element by element. *)
Ltac explicit l H :=
  match type of H with
  | _ = O => destruct l; [clear H|discriminate H]
  | _ = Datatypes.S _ => let x := fresh "b" in destruct l as [|x l]; [discriminate H|injection H as H; explicit l H]
  end.

Lemma v8_fields_head r : request_ok r -> (v8_fields r (0, [])).2 = v8_head r.
Proof.
  destruct r as [h d s nc g from fl mx ex ut]. intros (Hh & Hd & Hs & _). simpl in Hh, Hd, Hs. explicit h Hh. explicit d Hd. explicit s Hs.
  reflexivity.
Qed.

Lemma v8_head_reads r out : request_ok r ->
  le_at 20 4 (v8_head r ++ out) = from_le_bytes (to_le_bytes 4 8) /\
  le_at 72 8 (v8_head r ++ out) = from_le_bytes (to_le_bytes 8 (rq_from r)) /\
  le_at 88 8 (v8_head r ++ out) = 0 /\
  le_at 104 4 (v8_head r ++ out) = from_le_bytes (to_le_bytes 4 (rq_max_objects r)) /\
  le_at 112 4 (v8_head r ++ out) = from_le_bytes (to_le_bytes 4 (rq_ext_op r)).
Proof.
  destruct r as [h d s nc g from fl mx ex ut]. intros (Hh & Hd & Hs & _). simpl in Hh, Hd, Hs. explicit h Hh. explicit d Hd. explicit s Hs.
  unfold le_at. repeat apply conj; first [reflexivity|f_equal; reflexivity].
Qed.

(** A writer only appends. *)
Definition appends (w : rwriter) : Prop := forall st, exists out, (w st).2 = st.2 ++ out.

Lemma appends_bytes b : appends (lift (w_bytes b)).
Proof. intros st. by exists b. Qed.
Lemma appends_align a : a <> 0%nat -> appends (lift (w_align a)).
Proof. intros Ha st. simpl. rewrite w_align_spec by done. by eexists. Qed.
Lemma appends_aligned_bytes a b : a <> 0%nat -> appends (lift (fun buf => w_bytes b (w_align a buf))).
Proof. intros Ha st. simpl. unfold w_bytes. rewrite w_align_spec, <- app_assoc by done. by eexists. Qed.
Lemma appends_seq w1 w2 : appends w1 -> appends w2 -> appends (w1 ;; w2).
Proof.
  intros H1 H2 st. destruct (H1 st) as [o1 E1]. destruct (H2 (w1 st)) as [o2 E2]. exists (o1 ++ o2).
  unfold w_seq. by rewrite E2, E1, app_assoc.
Qed.
Lemma appends_nop : appends w_nop.
Proof. intros st. exists []. by rewrite app_nil_r. Qed.
Lemma appends_each {X} (w : X -> rwriter) l : (forall x, appends (w x)) -> appends (w_each w l).
Proof. intros H. induction l as [|x l IH]; [apply appends_nop|]. apply appends_seq; [apply H|done]. Qed.

Create HintDb appends.
#[export] Hint Resolve appends_bytes appends_seq appends_nop appends_each : appends.
#[export] Hint Extern 1 (appends (lift (w_align _))) => apply appends_align; discriminate : appends.
#[export] Hint Extern 1 (appends (lift (w_u32 _))) => apply appends_aligned_bytes; discriminate : appends.
#[export] Hint Extern 1 (appends (lift (w_u16 _))) => apply appends_aligned_bytes; discriminate : appends.

Lemma request_dsname_appends g nm : appends (encode_request_dsname g nm).
Proof. unfold encode_request_dsname. cbn zeta. auto 20 with appends nocore. Qed.
Lemma request_utdv_appends l : appends (encode_request_utdv l).
Proof. unfold encode_request_utdv. auto 20 with appends nocore. Qed.

Lemma appends_after w1 w2 st : appends w2 -> exists out, ((w1 ;; w2) st).2 = (w1 st).2 ++ out.
Proof. intros H. apply H. Qed.

Lemma marshal_tail_appends r :
  appends (encode_request_dsname (rq_nc_guid r) (rq_nc_dn r) ;;
           match rq_utdv r with [] => w_nop | _ => encode_request_utdv (rq_utdv r) end).
Proof. apply appends_seq; [apply request_dsname_appends|]. destruct (rq_utdv r); [apply appends_nop|apply request_utdv_appends]. Qed.

Lemma marshal_head r : request_ok r -> exists out, marshal_v8 r = v8_head r ++ out.
Proof.
  intros Hr. destruct (appends_after (v8_fields r) _ (0, []) (marshal_tail_appends r)) as [out E].
  exists out. unfold marshal_v8, with_refs. rewrite E. by rewrite (v8_fields_head r Hr).
Qed.

Lemma parse_marshal r : request_ok r -> parse_change_request (marshal_v8 r) = mkChangeRequest (rq_from r) (rq_max_objects r) (rq_ext_op r).
Proof.
  intros Hr. destruct (marshal_head r Hr) as [out ->]. destruct (v8_head_reads r out Hr) as (H1 & H2 & H3 & H4 & H5).
  destruct Hr as (Hh & Hd & Hs & Hf & Hm & He). unfold parse_change_request.
  assert (116 <= length (v8_head r ++ out))%nat as Hl.
  { unfold v8_head. rewrite !length_app, !to_le_bytes_length, !length_replicate. lia. }
  rewrite (proj2 (Nat.ltb_ge _ _)) by lia. rewrite !(proj2 (Nat.leb_le _ _)) by lia. cbn [Nat.add].
  rewrite H1, H2, H3, H4, H5. rewrite !from_to_le_bytes by (change (256 ^ Z.of_nat 8) with (2 ^ 64); try done; lia).
  cbn [orb negb Z.eqb Pos.eqb]. f_equal. lia.
Qed.

(** ** Replicating from the server *)

(** The cursors a destination may name: the source, and the origin of each stamp. *)
Definition origins {A} (inv : bytes) (dir : Directory A) : list bytes :=
  inv :: filter_map (fun c => m_originating_dsa <$> cand_meta c) (stream dir).

(** The destination of a full synchronisation holds nothing: what it is sent is
    what the source originated, or received with a positive number. *)
Definition servable (inv : bytes) (c : Cand) : bool :=
  match cand_meta c with
  | Some m => bool_decide (m_originating_dsa m = inv) || (0 <? m_originating_usn m)
  | None => true
  end.

Lemma numbered_skipn {X} (l : list X) : forall n s, skipn n (numbered s l) = numbered (s + Z.of_nat n) (skipn n l).
Proof.
  induction l as [|x l IH]; intros [|n] s; [by rewrite Z.add_0_r|done|by rewrite Z.add_0_r|].
  rewrite numbered_cons. cbn [skipn]. rewrite IH. f_equal. lia.
Qed.

Section composed.
Context {UC : UnicodeTables} {A : Type} {RA : RidAllocator A} {DC : DrsCrypto} {DL : DrsCryptoLaws DC}.
Context (i : DrsuapiInterface) (key : bytes) (principal : string).
Context (call : Z -> bytes -> Directory A -> (RpcError + bytes) * Directory A).

(** The connection carries what the server answers. *)
Definition transports : Prop := forall opnum stub dir r dir',
  call_authenticated i opnum stub (Some key) (Some principal) dir = (inr r, dir') -> call opnum stub dir = (inr r, dir').

Definition page_request (h : bytes) (nc_dn : string) (flags page_size from : Z) : GetNcChangesRequest :=
  mkGetNcChangesRequest h (replicate 16 0) (replicate 16 0) nc_dn (replicate 16 0) from flags page_size 0 [].

(** A connection that carries some answers only. *)
Definition transports_if (delivers : Z -> bytes -> bytes -> Prop) : Prop := forall opnum stub dir r dir',
  call_authenticated i opnum stub (Some key) (Some principal) dir = (inr r, dir') -> delivers opnum stub r -> call opnum stub dir = (inr r, dir').

Definition pages_delivered (delivers : Z -> bytes -> bytes -> Prop) (h : bytes) (nc_dn : string) (flags page_size : Z) (dir : Directory A) : Prop :=
  forall from, 0 <= from <= len (stream dir) ->
    let stub := marshal_v8 (page_request h nc_dn flags page_size from) in
    delivers OP_DRS_GET_NC_CHANGES stub (delta_reply (mkChangeRequest from page_size 0) stub key (invocation_id i) dir).

(** No request of the run contains one of the cursors by accident. *)
Definition no_cursor (h : bytes) (nc_dn : string) (flags page_size : Z) (dir : Directory A) : Prop :=
  forall from, 0 <= from <= len (stream dir) ->
    Forall (fun id => utdv_dest_cursor (marshal_v8 (page_request h nc_dn flags page_size from)) id = None)
      (origins (invocation_id i) dir).

Definition received (dir : Directory A) (x : Z * Cand) : ReplicatedObject :=
  received_object (invocation_id i) (build_object (dns_domain_to_nc (dns_domain dir)) (domain_sid dir) key x).

(** The objects past [c] that are sent. *)
Definition sent (c : Z) (dir : Directory A) : list (Z * Cand) := List.filter (fun x => servable (invocation_id i) x.2) (pending c dir).

Lemma not_held_servable stub (dir : Directory A) c :
  Forall (fun id => utdv_dest_cursor stub id = None) (origins (invocation_id i) dir) -> In c (stream dir) ->
  not_held stub (invocation_id i) c = servable (invocation_id i) c.
Proof.
  intros Hf Hin. unfold not_held, servable. destruct (cand_meta c) as [m|] eqn:Em; [|done].
  destruct (bool_decide _); [done|]. rewrite Forall_forall in Hf. rewrite Hf.
  - simpl. destruct (Z.ltb_spec 0 (m_originating_usn m)); [apply Z.ltb_lt|apply Z.ltb_ge]; lia.
  - right. apply list_elem_of_In, filter_map_In. exists c. by rewrite Em.
Qed.

(** One page: the next objects, where it ends, and whether more remain. *)
Lemma page_served delivers h nc flags size (dir : Directory A) c :
  transports_if delivers -> pages_delivered delivers h nc flags size dir -> dir_ok dir -> length (invocation_id i) = 16%nat -> length h = 20%nat -> is_u32 size -> 0 < size ->
  is_authorized_for_replication i principal dir = true -> no_cursor h nc flags size dir -> 0 <= c <= len (stream dir) ->
  let n := Nat.min (length (pending c dir)) (Z.to_nat size) in
  exists ls, get_nc_changes_v8 call nc (replicate 16 0) (replicate 16 0) c flags size (h, dir) =
  (inr (mkReplicatedChanges (invocation_id i) (page_end c n (pending c dir) dir) (n <? length (pending c dir))%nat
          (map (received dir) (List.filter (fun x => servable (invocation_id i) x.2) (take n (pending c dir)))) ls 0), (h, dir)).
Proof.
  intros Ht Hpd Hd Hi Hh Hsz Hsz0 Ha Hnc Hc n. set (stub := marshal_v8 (page_request h nc flags size c)).
  assert (request_ok (page_request h nc flags size c)) as Hrq.
  { pose proof Hd as (_ & _ & _ & _ & _ & Hs & _). rewrite <- stream_len in Hs.
    unfold request_ok, is_u32 in *. simpl. split_and!; (done || lia). }
  pose proof (parse_marshal _ Hrq) as Hp. fold stub in Hp. pose proof (Hnc c Hc) as Hf. fold stub in Hf.
  assert (utdv_dest_cursor stub (invocation_id i) = None) as Hu by (by inversion Hf).
  pose proof Hd as (_ & _ & _ & _ & _ & Hs & _). rewrite <- stream_len in Hs.
  pose proof (delta_reply_decodes (mkChangeRequest c size 0) stub key (invocation_id i) dir Hd Hi) as Hdec.
  cbn [from max_objects] in Hdec. rewrite Hu in Hdec. cbn [unwrap_or] in Hdec. rewrite Z.max_l in Hdec by lia. specialize (Hdec ltac:(lia)).
  assert (page_len size (pending c dir) = n) as En by (unfold page_len; by rewrite (proj2 (Z.eqb_neq _ _)) by lia).
  rewrite En in Hdec.
  assert (surviving stub (invocation_id i) n (pending c dir) =
          List.filter (fun x => servable (invocation_id i) x.2) (take n (pending c dir))) as Es.
  { apply List.filter_ext_in. intros [k x] Hin. apply (not_held_servable stub dir); [done|].
    apply (pending_in c dir k x); [lia|]. rewrite <- (firstn_skipn n (pending c dir)). apply in_app_iff. by left. }
  assert (call_authenticated i OP_DRS_GET_NC_CHANGES stub (Some key) (Some principal) dir =
          (inr (delta_reply (mkChangeRequest c size 0) stub key (invocation_id i) dir), dir)) as Hcall.
  { unfold call_authenticated. cbn [Z.eqb Pos.eqb OP_GET_NC_CHANGES OP_DRS_GET_NC_CHANGES]. rewrite Ha. cbn [negb].
    unfold get_nc_changes_response. rewrite Hp. reflexivity. }
  rewrite Es in Hdec. eexists. unfold get_nc_changes_v8, get_nc_changes_delta, cl_bind, cl_handle, cl_call. cbn [fst snd].
  fold (page_request h nc flags size c). fold stub. rewrite (Ht _ _ _ _ _ Hcall (Hpd c Hc)). cbn [snd fst]. rewrite Hdec. reflexivity.
Qed.

Lemma pending_length (dir : Directory A) c : 0 <= c <= len (stream dir) -> Z.of_nat (length (pending c dir)) = len (stream dir) - c.
Proof. intros Hc. rewrite pending_stream, numbered_length, length_skipn by lia. unfold len in *. lia. Qed.

Lemma pending_skipn (dir : Directory A) c k : 0 <= c -> skipn k (pending c dir) = pending (c + Z.of_nat k) dir.
Proof.
  intros Hc. rewrite !pending_stream by lia. rewrite numbered_skipn, skipn_skipn. do 2 f_equal. lia.
Qed.

Lemma page_end_at (dir : Directory A) c k : 0 <= c -> (0 < k <= length (pending c dir))%nat -> page_end c k (pending c dir) dir = c + Z.of_nat k.
Proof.
  intros Hc Hk. destruct k as [|k]; [lia|]. unfold page_end. rewrite pending_stream, numbered_length in Hk by done.
  rewrite pending_stream by done. destruct (lookup_lt_is_Some_2 _ k (proj2 Hk)) as [x Hx].
  erewrite numbered_lookup by exact Hx. simpl. lia.
Qed.

Lemma pages_served delivers h nc flags size (dir : Directory A) :
  transports_if delivers -> pages_delivered delivers h nc flags size dir -> dir_ok dir -> length (invocation_id i) = 16%nat -> length h = 20%nat -> is_u32 size -> 0 < size ->
  is_authorized_for_replication i principal dir = true -> no_cursor h nc flags size dir ->
  forall n c all, 0 <= c <= len (stream dir) -> len (stream dir) - c <= size * Z.of_nat n ->
  replicate_pages call nc flags size n c all (h, dir) = (inr (all ++ map (received dir) (sent c dir)), (h, dir)).
Proof.
  intros Ht Hpd Hd Hi Hh Hsz Hsz0 Ha Hnc. induction n as [|n IH]; intros c all Hc Hn; pose proof (pending_length dir c Hc) as Hlen.
  - destruct (pending c dir) eqn:Ep; [|simpl in Hlen; lia]. unfold sent. rewrite Ep. simpl. by rewrite app_nil_r.
  - cbn [replicate_pages]. unfold cl_bind.
    destruct (page_served delivers h nc flags size dir c Ht Hpd Hd Hi Hh Hsz Hsz0 Ha Hnc Hc) as [ls ->]. cbn [objects more_data usn_to].
    destruct (Nat.le_gt_cases (length (pending c dir)) (Z.to_nat size)) as [Hle|Hgt].
    + rewrite Nat.min_l by done. rewrite Nat.ltb_irrefl, firstn_all. reflexivity.
    + rewrite Nat.min_r by lia. rewrite (proj2 (Nat.ltb_lt _ _)) by done. rewrite page_end_at by lia.
      rewrite (proj2 (Z.leb_gt _ _)) by lia. cbn [negb orb]. rewrite IH by lia.
      rewrite Z2Nat.id, <- app_assoc, <- map_app by lia. unfold sent. do 4 f_equal.
      rewrite <- (firstn_skipn (Z.to_nat size) (pending c dir)) at 2. rewrite List.filter_app, pending_skipn by lia. rewrite Z2Nat.id by lia. reflexivity.
Qed.

(** What a destination knows of an object. *)
Definition described (o : ReplicatedObject) : bool * option string * option Z * option bytes :=
  (is_group o, sam_account_name o, object_rid o, object_nt_hash key o).
Definition description (c : Cand) : bool * option string * option Z * option bytes :=
  match c with
  | CandUser u => (false, Some (user_name u), Some (user_rid u), Some (user_nt_hash u))
  | CandGroup g => (true, Some (group_name g), Some (group_rid g), None)
  end.

Lemma described_received (dir : Directory A) k c : cand_ok c -> (length (domain_sid dir) <= 4)%nat ->
  described (received dir (k, c)) = description c.
Proof.
  intros Hc Hs. destruct c as [u|g]; unfold described, received, build_object, description; cbn [snd fst].
  - destruct (user_received (invocation_id i) u k (dns_domain_to_nc (dns_domain dir)) (domain_sid dir) key Hc Hs) as (-> & -> & -> & ->). done.
  - destruct (group_received (invocation_id i) g k (dns_domain_to_nc (dns_domain dir)) (domain_sid dir) Hc Hs) as (-> & -> & ->).
    destruct (group_attr_values (invocation_id i) g k (dns_domain_to_nc (dns_domain dir)) (domain_sid dir)) as (_ & _ & Hp & _).
    unfold object_nt_hash. by rewrite Hp.
Qed.

Lemma sent_described (dir : Directory A) : dir_ok dir ->
  map described (map (received dir) (sent 0 dir)) = map description (List.filter (servable (invocation_id i)) (stream dir)).
Proof.
  intros Hd. unfold sent. rewrite pending_stream by done. cbn [skipn Z.to_nat].
  assert (forall l s, (forall c, In c l -> cand_ok c) ->
    map described (map (received dir) (List.filter (fun x => servable (invocation_id i) x.2) (numbered s l))) =
    map description (List.filter (servable (invocation_id i)) l)) as H.
  { induction l as [|c l IH]; intros s Hl; [done|]. rewrite numbered_cons. cbn [List.filter snd].
    specialize (IH (s + 1) (fun c Hc => Hl c (or_intror Hc))). destruct (servable _ c); [|done].
    cbn [map]. rewrite IH. f_equal. apply described_received; [apply Hl; by left|apply Hd]. }
  apply H. intros c Hc. by apply (stream_ok dir).
Qed.

Lemma drs_bind_handle delivers (dir : Directory A) h0 : transports_if delivers -> delivers OP_DRS_BIND build_drs_bind_stub bind_response ->
  drs_bind call (h0, dir) = (inr (), (DRS_HANDLE, dir)).
Proof.
  intros Ht Hb. unfold drs_bind, cl_bind, cl_call. cbn [fst snd].
  rewrite (Ht OP_DRS_BIND build_drs_bind_stub dir bind_response dir) by done. reflexivity.
Qed.

(** The same over a connection that carries the answer to the binding and the pages. *)
Lemma replicate_nc_carried delivers h0 nc flags size pages (dir : Directory A) :
  transports_if delivers -> delivers OP_DRS_BIND build_drs_bind_stub bind_response -> pages_delivered delivers DRS_HANDLE nc flags size dir ->
  dir_ok dir -> length (invocation_id i) = 16%nat -> is_u32 size -> 0 < size ->
  is_authorized_for_replication i principal dir = true -> no_cursor DRS_HANDLE nc flags size dir ->
  len (stream dir) <= size * Z.of_nat pages ->
  exists objs, (cl! _ <- drs_bind call; replicate_nc call nc flags size pages) (h0, dir) = (inr objs, (DRS_HANDLE, dir)) /\
    map described objs = map description (List.filter (servable (invocation_id i)) (stream dir)).
Proof.
  intros Ht Hb Hpd Hd Hi Hsz Hsz0 Ha Hnc Hn. exists (map (received dir) (sent 0 dir)). split; [|by apply sent_described].
  unfold cl_bind, replicate_nc. rewrite (drs_bind_handle delivers) by done.
  rewrite (pages_served delivers DRS_HANDLE nc flags size dir) by (done || unfold len in *; lia). done.
Qed.


(** ** RID pools *)

(** The pool that a grant of [count] from [base] amounts to. *)
Definition granted (base count : Z) : option (Z * Z) :=
  let last := saturating_sub (saturating_add32 base count) 1 in
  if base <=? last then Some (base, last - base + 1) else None.

Lemma large_integer_halves high low : is_u32 high -> is_u32 low -> halves (to_le_bytes 8 (large_integer high low)) = Some (low, high).
Proof.
  unfold is_u32, halves, large_integer. intros Hh Hl. rewrite lor_shiftl_add by lia. rewrite to_le_bytes_length. cbn [Nat.ltb Nat.leb].
  rewrite firstn_all2 by (rewrite to_le_bytes_length; lia).
  rewrite from_to_le_bytes by (change (256 ^ Z.of_nat 8) with (2 ^ 32 * 2 ^ 32); nia).
  change 0xFFFFFFFF with (Z.ones 32). by rewrite land_field, shiftr_field by lia.
Qed.

Lemma pool_bounds base count : is_u32 base -> 0 < count -> is_u32 (saturating_add32 base count) /\ is_u32 (saturating_sub (saturating_add32 base count) 1).
Proof. unfold is_u32, saturating_sub, saturating_add32, U32_MAX. lia. Qed.

Lemma rid_pool_object_ok nc base count : length (invocation_id i) = 16%nat -> sane nc -> object_ok (invocation_id i) (rid_pool_object nc base count).
Proof.
  intros Hi [Hn Hl]. unfold object_ok, rid_pool_object. cbn [ro_guid ro_name ro_attrs ro_usn ro_meta]. split_and!.
  - done.
  - apply name_ok_short; [by apply is_str_app|]. rewrite str_len_app. change (str_len "CN=RID Manager$,CN=System,") with 26. lia.
  - vm_compute. done.
  - apply Forall_cons; split; [|apply Forall_cons; split; [|constructor]];
      (apply attr_ok_one; [unfold is_u32; split; vm_compute; congruence|eapply small_value_ok; [apply to_le_bytes_length|lia]]).
  - apply served_meta_ok; [done|unfold is_i64; lia|done].
Qed.

Lemma rid_pool_received nc base count : is_u32 base -> 0 < count ->
  rid_allocation_pool (received_object (invocation_id i) (rid_pool_object nc base count)) = granted base count.
Proof.
  intros Hb Hc. destruct (pool_bounds base count Hb Hc) as [H1 H2]. unfold rid_allocation_pool.
  set (last := saturating_sub (saturating_add32 base count) 1) in *.
  assert (attr (received_object (invocation_id i) (rid_pool_object nc base count)) ATTID_RIDALLOCATIONPOOL =
          Some (to_le_bytes 8 (large_integer last base))) as -> by reflexivity.
  rewrite large_integer_halves by done. unfold granted. fold last. destruct (Z.leb_spec base last); [|done].
  unfold u32. rewrite Z.mod_small; [done|]. unfold is_u32 in *. unfold last, saturating_sub, saturating_add32, U32_MAX in *. lia.
Qed.

Lemma exop_request_ok h dn g dest op : length h = 20%nat -> length dest = 16%nat -> is_u32 op ->
  request_ok (mkGetNcChangesRequest h dest (replicate 16 0) dn g 0 DRS_WRIT_REP 1 op []).
Proof. intros Hh Hd Ho. unfold request_ok, is_u32 in *. simpl. split_and!; (done || lia). Qed.

(** An extended operation returns what the server's answer decodes to. *)
Lemma extended_op_served h dn g dest op (dir dir' : Directory A) reply changes :
  transports -> is_authorized_for_replication i principal dir = true -> length h = 20%nat -> length dest = 16%nat -> is_u32 op ->
  (forall stub, parse_change_request stub = mkChangeRequest 0 1 op ->
     get_nc_changes_response stub (Some key) (invocation_id i) (is_rid_master i) dir = (reply, dir')) ->
  parse_get_nc_changes_reply reply = Some changes ->
  extended_op call op dn g dest (h, dir) = (inr (from_raw (ext_op_err changes), head (objects changes)), (h, dir')).
Proof.
  intros Ht Ha Hh Hd Ho Hr Hp. set (req := mkGetNcChangesRequest h dest (replicate 16 0) dn g 0 DRS_WRIT_REP 1 op []).
  pose proof (parse_marshal req (exop_request_ok h dn g dest op Hh Hd Ho)) as Hpm.
  assert (call_authenticated i OP_DRS_GET_NC_CHANGES (marshal_v8 req) (Some key) (Some principal) dir = (inr reply, dir')) as Hcall.
  { unfold call_authenticated. cbn [Z.eqb Pos.eqb OP_GET_NC_CHANGES OP_DRS_GET_NC_CHANGES]. rewrite Ha. cbn [negb]. by rewrite (Hr _ Hpm). }
  unfold extended_op, cl_bind, cl_handle, cl_call. cbn [fst snd]. fold req. rewrite (Ht _ _ _ _ _ Hcall). cbn [snd fst].
  rewrite Hp. reflexivity.
Qed.

Lemma rid_alloc_decodes (dir dir' : Directory A) base count : length (invocation_id i) = 16%nat ->
  sane (dns_domain_to_nc (dns_domain dir)) -> allocate_rid_pool RID_POOL_SIZE dir = (Some (base, count), dir') ->
  exists reply, rid_alloc_reply (invocation_id i) dir = (reply, dir') /\
    parse_get_nc_changes_reply reply =
    Some (mkReplicatedChanges (invocation_id i) 1 false
            [received_object (invocation_id i) (rid_pool_object (dns_domain_to_nc (dns_domain dir)) base count)] [] EXOP_ERR_SUCCESS).
Proof.
  intros Hi Hn Hg. eexists. split; [unfold rid_alloc_reply; rewrite Hg; reflexivity|].
  rewrite reply_parses; [done|done| |constructor| |unfold is_i64; lia|unfold is_u32, EXOP_ERR_SUCCESS; lia].
  - constructor; [by apply rid_pool_object_ok|constructor].
  - split; vm_compute; done.
Qed.

(** [n] requests, one after the other. *)
Fixpoint request_pools (dn : string) (g dest : bytes) (n : nat) : client (Directory A) (list (ExOpErr * option (Z * Z))) :=
  match n with
  | O => cl_ret []
  | Datatypes.S n' => cl! r <- request_rid_pool call dn g dest; cl! rest <- request_pools dn g dest n'; cl_ret (r :: rest)
  end.

Fixpoint pool_run (next : Z) (n : nat) : list (option (Z * Z)) :=
  match n with
  | O => []
  | Datatypes.S n' => granted next RID_POOL_SIZE :: pool_run (saturating_add32 next RID_POOL_SIZE) n'
  end.

Lemma request_pools_run h dn g dest n : forall (dir : Directory A),
  transports -> is_rid_master i = true -> length (invocation_id i) = 16%nat -> length h = 20%nat -> length dest = 16%nat ->
  is_authorized_for_replication i principal dir = true -> sane (dns_domain_to_nc (dns_domain dir)) ->
  rid_source dir = None -> is_u32 (rid_pool_next dir) ->
  exists dir', request_pools dn g dest n (h, dir) = (inr (map (fun p => (Success, p)) (pool_run (rid_pool_next dir) n)), (h, dir')) /\
    users dir' = users dir /\ groups dir' = groups dir.
Proof.
  induction n as [|n IH]; intros dir Ht Hm Hi Hh Hd Ha Hn Hs Hr; [by exists dir|].
  set (dir1 := with_rids (saturating_add32 (rid_pool_next dir) RID_POOL_SIZE) None dir).
  assert (allocate_rid_pool RID_POOL_SIZE dir = (Some (rid_pool_next dir, RID_POOL_SIZE), dir1)) as Hg.
  { unfold allocate_rid_pool. by rewrite Hs. }
  destruct (rid_alloc_decodes dir dir1 _ _ Hi Hn Hg) as (reply & Hrep & Hp).
  assert (request_rid_pool call dn g dest (h, dir) = (inr (Success, granted (rid_pool_next dir) RID_POOL_SIZE), (h, dir1))) as E.
  { unfold request_rid_pool, request_rid_pool_object, cl_bind. erewrite extended_op_served; [|done..| | |exact Hp].
    - cbn [ext_op_err objects head fst snd cl_ret]. unfold cl_ret. rewrite rid_pool_received; [done|done|]. unfold RID_POOL_SIZE. lia.
    - unfold is_u32, exop.FSMO_RID_ALLOC. lia.
    - intros stub Hst. unfold get_nc_changes_response. rewrite Hst. cbn [ext_op]. rewrite Hm. exact Hrep. }
  destruct (IH dir1 Ht Hm Hi Hh Hd Ha Hn eq_refl) as (dir' & E' & Hu & Hgr).
  { apply pool_bounds; [done|]. unfold RID_POOL_SIZE. lia. }
  exists dir'. split; [|done]. cbn [request_pools pool_run map]. unfold cl_bind. rewrite E, E'. done.
Qed.

Lemma pool_run_above n : forall next a p, is_u32 next -> pool_run next n !! a = Some (Some p) ->
  next <= p.1 /\ 0 < p.2 /\ p.1 + p.2 <= U32_MAX.
Proof.
  induction n as [|n IH]; intros next a p Hn Hp; [done|]. destruct a as [|a]; simpl in Hp.
  - injection Hp as Hp. unfold granted in Hp. destruct (Z.leb_spec next (saturating_sub (saturating_add32 next RID_POOL_SIZE) 1)); [|done].
    injection Hp as <-. simpl. unfold is_u32, saturating_sub, saturating_add32, U32_MAX, RID_POOL_SIZE in *. lia.
  - destruct (pool_bounds next RID_POOL_SIZE Hn) as [H1 _]; [unfold RID_POOL_SIZE; lia|].
    destruct (IH _ a p H1 Hp) as [H2 H3]. split; [|done]. unfold is_u32, saturating_add32, U32_MAX, RID_POOL_SIZE in *. lia.
Qed.

Lemma pool_run_disjoint n : forall next a b p q, is_u32 next -> (a < b)%nat ->
  pool_run next n !! a = Some (Some p) -> pool_run next n !! b = Some (Some q) -> p.1 + p.2 <= q.1.
Proof.
  induction n as [|n IH]; intros next a b p q Hn Hab Hp Hq; [done|]. destruct b as [|b]; [lia|]. simpl in Hq.
  destruct (pool_bounds next RID_POOL_SIZE Hn) as [H1 _]; [unfold RID_POOL_SIZE; lia|].
  destruct a as [|a]; simpl in Hp; [|by apply (IH _ a b p q H1 ltac:(lia))].
  destruct (pool_run_above n _ b q H1 Hq) as [H2 _]. injection Hp as Hp. unfold granted in Hp.
  destruct (Z.leb_spec next (saturating_sub (saturating_add32 next RID_POOL_SIZE) 1)); [|done]. injection Hp as <-. simpl.
  unfold is_u32, saturating_sub, saturating_add32, U32_MAX, RID_POOL_SIZE in *. lia.
Qed.

End composed.

(** ** A domain with two controllers *)

Module demo.
#[local] Instance ascii_only : UnicodeTables := {| unicode_lowercase s := s; unicode_uppercase s := s |}.
#[local] Instance no_allocator : RidAllocator unit := {| allocate a := (None, a); allocate_pool _ a := (None, a) |}.
#[local] Instance plain_blocks : DrsCrypto :=
  {| des_encrypt_block _ b := map u8 b; des_decrypt_block _ b := b; md5 _ := replicate 16 7 |}.

#[local] Instance plain_blocks_laws : DrsCryptoLaws plain_blocks.
Proof.
  split; simpl.
  - intros _ b _ _ Hb. induction Hb as [|x l Hx _ IH]; [done|]. simpl. rewrite IH. f_equal. unfold u8. by apply Z.mod_small.
  - intros _ b _ Hl. rewrite length_map. split; [done|]. apply Forall_map, Forall_forall. intros x _. apply Z.mod_pos_bound. lia.
  - done.
Qed.

Definition directory : Directory unit :=
  mkDirectory "EX" "ex.com" "EX.COM" [21; 1; 2; 3]
    [mkUser "alice" 1103 (replicate 16 5) [] false None; mkUser "DC2$" 1104 (replicate 16 9) [] false None]
    [mkGroup "Domain Controllers" 516 [1104] [mkGroupLink 1104 true None] None] [] [] 4294967000 None.

Definition session : bytes := replicate 16 1.

(** The connection delivers each answer. *)
Definition wire (opnum : Z) (stub : bytes) (dir : Directory unit) : (RpcError + bytes) * Directory unit :=
  match call_authenticated new_interface opnum stub (Some session) (Some "EX\dc2$"%string) dir with
  | (inr r, dir') => (inr r, dir')
  | (inl _, dir') => (inl (Client "DRS request faulted"), dir')
  end.

Lemma wire_transports : transports new_interface session "EX\dc2$" wire.
Proof. intros opnum stub dir r dir' H. unfold wire. by rewrite H. Qed.

Lemma directory_ok : dir_ok directory.
Proof.
  assert (forall s, is_str s = true -> str_len s < 2 ^ 20 -> sane s) as Hs by done.
  assert (forall o : option ReplMeta, o = None -> opt_meta_ok o) as Ho by (intros ? -> ? [=]).
  unfold dir_ok, directory. cbn [users groups dns_domain domain_sid]. split_and!.
  - repeat apply Forall_cons_2; try apply Forall_nil_2; (split_and!; [by apply Hs|vm_compute; split; congruence|done| |by apply Ho]);
      (repeat constructor; vm_compute; congruence).
  - apply Forall_cons_2; [|apply Forall_nil_2]. split_and!; [by apply Hs|vm_compute; split; congruence| |by apply Ho].
    apply Forall_cons_2; [|apply Forall_nil_2]. split; [vm_compute; split; congruence|by apply Ho].
  - by apply Hs.
  - simpl. lia.
  - repeat apply Forall_cons_2; try apply Forall_nil_2; vm_compute; split; congruence.
  - done.
  - done.
Qed.

Lemma no_cursor_here : no_cursor new_interface DRS_HANDLE "DC=ex,DC=com" DRS_WRIT_REP 2 directory.
Proof.
  intros from Hf. change (len (stream directory)) with 3 in Hf.
  assert (from = 0 \/ from = 1 \/ from = 2 \/ from = 3) as [->|[->|[->| ->]]] by lia; vm_compute; repeat constructor.
Qed.



(** The last pool before the end of the range is cut short; then there is none. *)
Example pools_at_the_end :
  (request_pools wire "CN=RID Manager$,CN=System,DC=ex,DC=com" (replicate 16 0) (replicate 16 0) 2 (DRS_HANDLE, directory)).1 =
  inr [(Success, Some (4294967000, 295)); (Success, None)].
Proof. vm_compute. reflexivity. Qed.
End demo.
