(* ===== verification/RpcClient.v ===== *)
(** The packet layer of the replication client ([magnetite-rpc/src/client.rs]) and
    its conversation with the server of [RpcConn].

    A [DrsConn] is the state of a [DrsClient] besides the handle of the binding, which
    [DrsClient.client] threads.  What the client sends is answered by a peer: a
    function from the bytes sent to the bytes that come back, for this repository's
    server the packets of the stream through [handle].  [call] is one call of an
    interface, plain, signed or sealed; [kerberos_bind] opens a context with a ticket;
    the messages of Kerberos are a class.

    [signed_session_relays_calls] says that a signed connection is transparent as far
    as the answers fit a packet, [kerberos_replication_complete] composes the client,
    the packets, the security context, the interface and the directory, and
    [ticket_client_is_refused] says which of the two ways to connect the server of this
    repository accepts. *)

From stdpp Require Import pretty.
From S2P Require Import Prelude Bytes RustStr Utf16 KdcStore Rpc AdDirectory DrsSecret Ntlm Gss Spnego Ndr DrsWire DrsObject Drs Samr Netlogon RpcConn DrsClient.

Local Open Scope Z_scope.
Local Open Scope client_scope.

(** ** The client *)

Definition GSS_SEQ_BASE : Z := 0x12345678.
Definition CLIENT_SEAL_AUTH_LEN : Z := 60.
Definition DRSUAPI_UUID : string := "E3514235-4B06-11D1-AB04-00C04FC2DCD2".

(** The initiator's side of Kerberos; the first argument of the builders is what they draw. *)
Class ApInitiator := {
  build_ap_req : bytes -> bytes -> string -> list string -> list string -> string + bytes * bytes;
  build_ap_req_from_ticket : bytes -> bytes -> bytes -> string -> list string -> Z -> string + bytes;
  dce_style_auth3 : bytes -> bytes -> string + bytes * bytes;
}.

Record DrsConn := mkDrsConn {
  dc_call_id : Z;
  dc_context_id : Z;
  dc_gss : option bytes;
  dc_auth_level : Z;
  dc_header_signing : bool;
  dc_auth_type : Z;
  dc_seq : Z;
}.

(** The structs that [connect], [connect_kerberos] and [connect_kerberos_ticket] start from. *)
Definition initial_conn : DrsConn := mkDrsConn 1 0 None RPC_C_AUTHN_LEVEL_PKT_INTEGRITY false RPC_C_AUTHN_GSS_NEGOTIATE 0.
Definition ticket_conn : DrsConn := mkDrsConn 1 0 None RPC_C_AUTHN_LEVEL_PKT_PRIVACY true RPC_C_AUTHN_GSS_KERBEROS GSS_SEQ_BASE.

Definition set_gss_key (key : bytes) (d : DrsConn) : DrsConn :=
  mkDrsConn (dc_call_id d) (dc_context_id d) (Some key) (dc_auth_level d) (dc_header_signing d) (dc_auth_type d) (dc_seq d).
Definition next_call (d : DrsConn) : DrsConn :=
  mkDrsConn (u32 (dc_call_id d + 1)) (dc_context_id d) (dc_gss d) (dc_auth_level d) (dc_header_signing d) (dc_auth_type d) (dc_seq d).
Definition next_seq (d : DrsConn) : DrsConn :=
  mkDrsConn (dc_call_id d) (dc_context_id d) (dc_gss d) (dc_auth_level d) (dc_header_signing d) (dc_auth_type d) (u64 (dc_seq d + 1)).

(** [{:08x}] of a [u32] *)
Definition hex_digit (n : Z) : string := unwrap_or EmptyString (String.get (Z.to_nat n) "0123456789abcdef" ≫= fun c => Some (String c EmptyString)).
Fixpoint lower_hex (width : nat) (z : Z) : string :=
  match width with O => EmptyString | S w => lower_hex w (z / 16) +:+ hex_digit (z mod 16) end.

(** [protected_response_stub]; every slice follows from the check of the trailer. *)
Definition protected_response_stub `{GssCrypto} (d : DrsConn) (header : CommonHeader) (body subkey : bytes) : RpcError + bytes :=
  if h_ptype header =? ptype.FAULT then
    let status := unwrap_or 0 (from_le_bytes <$> slice_get body 8 12) in
    inl (Client ("DRS request faulted (status 0x" +:+ lower_hex 8 status +:+ ")"))
  else if negb (h_ptype header =? ptype.RESPONSE) then inl (Client "unexpected reply PDU")
  else
    match trailer_start body (h_auth_length header) with
    | None => inl (Client "protected response too short")
    | Some start =>
        let pad := match parse_trailer (skipn start body) with Some t => tr_auth_pad_len t | None => 0 end in
        let sec_tr := take 8 (skipn start body) in
        let auth := take (Z.to_nat (h_auth_length header)) (skipn (start + 8) body) in
        match slice_get body 8 start with
        | None => inl (Client "bad body")
        | Some payload =>
            let strip plain := match strip_pad plain pad with Some stub => inr stub | None => inl (Client "bad pad") end in
            if dc_auth_level d =? RPC_C_AUTHN_LEVEL_PKT_PRIVACY then
              let '(pre, post) :=
                if dc_header_signing d then
                  (common_header ptype.RESPONSE (h_pfc_flags header) (h_frag_length header) (h_auth_length header) (h_call_id header)
                     ++ take 8 body, sec_tr)
                else ([], []) in
              match gss_unwrap_iov subkey KG_USAGE_ACCEPTOR_SEAL pre post payload auth with
              | None => inl (Client "response unseal failed")
              | Some plain => strip plain
              end
            else strip payload
        end
    end.

(** A request protected at the level of the connection, and its length in blocks. *)
Definition block_of (d : DrsConn) : nat := if dc_auth_level d =? RPC_C_AUTHN_LEVEL_PKT_PRIVACY then 16%nat else 4%nat.
Definition request_pad (d : DrsConn) (stub : bytes) : nat := ((block_of d - length stub mod block_of d) mod block_of d)%nat.

Definition protected_request `{GssCrypto} (confounder : bytes) (d : DrsConn) (opnum : Z) (stub subkey : bytes) : outcome (RpcError + bytes) :=
  let pad := request_pad d stub in
  let padded := stub ++ replicate pad 0 in
  let sec_tr := sec_trailer (dc_auth_type d) (dc_auth_level d) (Z.of_nat pad) in
  if dc_auth_level d =? RPC_C_AUTHN_LEVEL_PKT_PRIVACY then
    let frag_length := u16 (Z.of_nat HEADER_LEN + 8 + len padded + 8 + CLIENT_SEAL_AUTH_LEN) in
    let header := common_header ptype.REQUEST whole frag_length CLIENT_SEAL_AUTH_LEN (dc_call_id d) in
    let req_hdr := to_le_bytes 4 (u32 (len padded)) ++ to_le_bytes 2 (dc_context_id d) ++ to_le_bytes 2 opnum in
    let '(pre, post) := if dc_header_signing d then (header ++ req_hdr, sec_tr) else ([], []) in
    obind (gss_wrap_iov confounder subkey KG_USAGE_INITIATOR_SEAL (dc_seq d) pre post padded) (fun r =>
      Ret (match r with
           | inl e => inl (Client ("gss_wrap_iov: " +:+ e))
           | inr (pdu_stub, auth) => inr (header ++ req_hdr ++ pdu_stub ++ sec_tr ++ auth)
           end))
  else
    Ret (match gss_mic subkey (dc_seq d) padded with
         | inl e => inl (Client ("gss_mic: " +:+ e))
         | inr mic =>
             inr (build_pdu_with_auth ptype.REQUEST (dc_call_id d)
                    (build_request_body (dc_context_id d) opnum padded ++ sec_tr ++ mic) (u16 (len mic)))
         end).

(** No request panics: what is sealed is whole blocks. *)
Lemma sealing_returns `{GssCrypto} confounder d opnum stub subkey :
  length confounder = 16%nat -> exists r, protected_request confounder d opnum stub subkey = Ret r.
Proof.
  intros Hc. unfold protected_request, request_pad, block_of. destruct (dc_auth_level d =? RPC_C_AUTHN_LEVEL_PKT_PRIVACY); [|by eexists].
  destruct (if dc_header_signing d then _ else _) as [pre post]. unfold gss_wrap_iov. destruct (bool_decide (ke _ _ = []) || _); [by eexists|].
  edestruct (cts_encrypt_returns (ke subkey KG_USAGE_INITIATOR_SEAL)) as [c E]; [|rewrite E; by eexists].
  rewrite !length_app, cfx_header_length, Hc, !length_replicate. apply sealed_aligned.
Qed.

Section client.
Context {GC : GssCrypto} {AI : ApInitiator}.

(** The peer, and the random bytes drawn for each sequence number. *)
Context {P : Type} (respond : bytes -> P -> bytes * P) (draw : Z -> bytes).

(** The client, what has arrived and was not read yet, and the peer. *)
Definition session : Type := DrsConn * (bytes * P).

Definition send (pdu : bytes) (s : session) : session :=
  let '(d, (inbox, p)) := s in let '(out, p') := respond pdu p in (d, (inbox ++ out, p')).

Definition receive (s : session) : (RpcError + CommonHeader * bytes) * session :=
  let '(d, (inbox, p)) := s in
  match recv inbox with
  | inl e => (inl e, s)
  | inr (packet, rest) => (inr packet, (d, (rest, p)))
  end.

(** The fragments of a reply, until the last one; each takes at least a header from the inbox. *)
Fixpoint collect (fuel : nat) (subkey full : bytes) (s : session) : (RpcError + bytes) * session :=
  match fuel with
  | O => (inl (Client "recv: early eof"), s)
  | S fuel' =>
      match receive s with
      | (inl e, s) => (inl e, s)
      | (inr (header, body), s) =>
          match protected_response_stub s.1 header body subkey with
          | inl e => (inl e, s)
          | inr chunk =>
              let full := full ++ chunk in
              if negb (Z.land (h_pfc_flags header) pfc.LAST_FRAG =? 0) then (inr full, s) else collect fuel' subkey full s
          end
      end
  end.

(** A panic while sealing ends the task of the caller; [sealing_returns] says it does not happen. *)
Definition signed_call (opnum : Z) (stub subkey : bytes) (s : session) : (RpcError + bytes) * session :=
  let '(d, net) := s in
  match protected_request (draw (dc_seq d)) d opnum stub subkey with
  | Ret (inr pdu) => let s := send pdu (next_seq d, net) in collect (S (length s.2.1)) subkey [] s
  | Ret (inl e) => (inl e, (next_seq d, net))
  | _ => (inl (Client "panicked"), (next_seq d, net))
  end.

Definition call (opnum : Z) (stub : bytes) (s : session) : (RpcError + bytes) * session :=
  let d := next_call s.1 in
  match dc_gss d with
  | Some subkey => signed_call opnum stub subkey (d, s.2)
  | None =>
      match receive (send (build_pdu ptype.REQUEST (dc_call_id d) (build_request_body (dc_context_id d) opnum stub)) (d, s.2)) with
      | (inl e, s) => (inl e, s)
      | (inr (header, body), s) => (response_stub header body, s)
      end
  end.

Definition kerberos_bind (ap_req session_key : bytes) (s : session) : (RpcError + ()) * session :=
  let d := s.1 in
  let token := if dc_auth_type d =? RPC_C_AUTHN_GSS_KERBEROS then wrap_ap_req_raw ap_req else wrap_ap_req ap_req in
  let body := build_bind_body (dc_context_id d) (guid_le DRSUAPI_UUID) 4 ++ sec_trailer (dc_auth_type d) (dc_auth_level d) 0 ++ token in
  let flags := if dc_header_signing d then Z.lor whole pfc.SUPPORT_HEADER_SIGN else whole in
  match receive (send (build_pdu_with_auth_pfc ptype.BIND flags (dc_call_id d) body (u16 (len token))) s) with
  | (inl e, s) => (inl e, s)
  | (inr (h, ack), s) =>
      if negb (h_ptype h =? ptype.BIND_ACK) then (inl (Client ("Kerberos BIND rejected (ptype " +:+ pretty (Z.to_N (h_ptype h)) +:+ ")")), s)
      else match auth_token ack (h_auth_length h) with
           | None => (inl (Client "BIND_ACK has no auth token"), s)
           | Some auth =>
               match extract_ap_rep auth with
               | None => (inl (Client "no AP-REP in BIND_ACK"), s)
               | Some ap_rep =>
                   match dce_style_auth3 session_key ap_rep with
                   | inl e => (inl (Client ("DCE-style AUTH3: " +:+ e)), s)
                   | inr (subkey, auth3_token) =>
                       let auth3_body := replicate 4 0 ++ sec_trailer (dc_auth_type d) (dc_auth_level d) 0 ++ auth3_token in
                       (inr (), send (build_pdu_with_auth_pfc ptype.AUTH3 whole (dc_call_id d) auth3_body (u16 (len auth3_token)))
                                  (set_gss_key subkey s.1, s.2))
                   end
               end
           end
  end.

(** The ways to connect, over a connected stream; the result carries the handle. *)
Definition connect (p : P) : (RpcError + ()) * (bytes * session) :=
  match receive (send (build_pdu ptype.BIND 1 (build_bind_body 0 (guid_le DRSUAPI_UUID) 4)) (initial_conn, ([], p))) with
  | (inl e, s) => (inl e, (replicate 20 0, s))
  | (inr (h, _), s) =>
      if negb (h_ptype h =? ptype.BIND_ACK) then (inl (Client "BIND rejected"), (replicate 20 0, s))
      else drs_bind call (replicate 20 0, s)
  end.

Definition bound (ap_req session_key : bytes) (s : session) : (RpcError + ()) * (bytes * session) :=
  match kerberos_bind ap_req session_key s with
  | (inl e, s) => (inl e, (replicate 20 0, s))
  | (inr _, s) => drs_bind call (replicate 20 0, s)
  end.

Definition connect_kerberos (drawn service_key : bytes) (rlm : string) (service_spn client_principal : list string) (p : P) :
    (RpcError + ()) * (bytes * session) :=
  let s := (initial_conn, ([], p)) in
  match build_ap_req drawn service_key rlm service_spn client_principal with
  | inl e => (inl (Client ("build AP-REQ: " +:+ e)), (replicate 20 0, s))
  | inr (ap_req, session_key) => bound ap_req session_key s
  end.

Definition connect_kerberos_ticket (drawn ticket_der session_key : bytes) (rlm : string) (client_principal : list string) (p : P) :
    (RpcError + ()) * (bytes * session) :=
  let s := (ticket_conn, ([], p)) in
  match build_ap_req_from_ticket drawn ticket_der session_key rlm client_principal GSS_SEQ_BASE with
  | inl e => (inl (Client ("build AP-REQ from ticket: " +:+ e)), (replicate 20 0, s))
  | inr ap_req => bound ap_req session_key s
  end.
End client.

(** ** The server as a peer *)

Section server.
Context {UC : UnicodeTables} {NC : NtlmCrypto} {LC : NetlogonCrypto} {GC : GssCrypto} {AX : ApExchange}.
Context {I : Type} {RI : RpcInterface I}.
Context (sec_addr : string) (around : frame -> surroundings).

(** [handle_conn] on what has arrived: the bytes it writes, and what it waits with.
    [None] is a connection that ended. *)
Definition server_state : Type := option (bytes * (Connection * I)).

Fixpoint pump (fuel : nat) (stream : bytes) (c : Connection) (i : I) : bytes * server_state :=
  match fuel with
  | O => ([], Some (stream, (c, i)))
  | S fuel' =>
      match read_frame stream with
      | None => ([], Some (stream, (c, i)))
      | Some (f, rest) =>
          match handle (around f) sec_addr (fr_header f) (fr_header_bytes f) (fr_body f) c i with
          | Ret (reply, (c', i')) => let '(out, st) := pump fuel' rest c' i' in (unwrap_or [] reply ++ out, st)
          | _ => ([], None)
          end
      end
  end.

Definition server_respond (pdu : bytes) (st : server_state) : bytes * server_state :=
  match st with
  | None => ([], None)
  | Some (buf, (c, i)) => pump (S (length (buf ++ pdu))) (buf ++ pdu) c i
  end.

(** One packet, whole. *)
Lemma server_responds h body c i reply c' i' : framed h body ->
  handle (around (mkFrame h (header_bytes h) body)) sec_addr h (header_bytes h) body c i = Ret (reply, (c', i')) ->
  server_respond (header_bytes h ++ body) (Some ([], (c, i))) = (unwrap_or [] reply, Some ([], (c', i'))).
Proof.
  intros Hf Hh. unfold server_respond. cbn [app]. pose proof (read_frame_app h body [] Hf) as Hr. rewrite app_nil_r in Hr.
  cbn [pump]. rewrite Hr. cbn [fr_header fr_header_bytes fr_body]. rewrite Hh.
  destruct (length (header_bytes h ++ body)); cbn [pump]; change (read_frame []) with (@None (frame * bytes)); cbn; by rewrite app_nil_r.
Qed.
End server.

(** ** Signed packets are read back *)

Lemma skipn_drop_app {X} (a b : list X) n : length a = n -> skipn n (a ++ b) = b.
Proof. intros <-. apply drop_app_length. Qed.

Lemma checked_sub_len {X} (a b : list X) n : len b = n -> checked_sub (len (a ++ b)) n = Some (len a).
Proof. intros <-. unfold checked_sub, len. rewrite length_app. rewrite (proj2 (Z.leb_le _ _)) by lia. f_equal. lia. Qed.

Lemma trailer_start_app body tr sig n : length tr = 8%nat -> len sig = n -> trailer_start (body ++ tr ++ sig) n = Some (length body).
Proof.
  intros Ht Hs. unfold trailer_start. rewrite checked_sub_len by (unfold len in *; rewrite length_app; lia). cbn. f_equal. unfold len. lia.
Qed.

Lemma strip_pad_app stub pad : strip_pad (stub ++ replicate pad 0) (Z.of_nat pad) = Some stub.
Proof.
  unfold strip_pad. rewrite checked_sub_len by (unfold len; by rewrite length_replicate). cbn. f_equal. apply take_app_length'. unfold len. lia.
Qed.

Lemma parse_signed_request_app cid op t l pad p sig : is_u16 cid -> is_u16 op ->
  parse_signed_request (build_request_body cid op p ++ sec_trailer t l pad ++ sig) (len sig) = Some (mkSignedRequest cid op t l pad p sig).
Proof.
  intros Hc Ho. set (rb := build_request_body cid op p). assert (length rb = 8 + length p)%nat as Hl.
  { unfold rb, build_request_body. rewrite !length_app, !to_le_bytes_length. lia. }
  unfold parse_signed_request. rewrite trailer_start_app by done. rewrite (proj2 (Nat.ltb_ge _ _)) by lia.
  rewrite skipn_drop_app by done. change (take 8 (sec_trailer t l pad ++ sig)) with (sec_trailer t l pad).
  change (parse_trailer (sec_trailer t l pad)) with (Some (mkSecTrailer t l pad)). cbn [tr_auth_type tr_auth_level tr_auth_pad_len].
  assert (skipn 4 (rb ++ sec_trailer t l pad ++ sig) = to_le_bytes 2 cid ++ to_le_bytes 2 op ++ p ++ sec_trailer t l pad ++ sig) as E4.
  { unfold rb, build_request_body. rewrite <- !app_assoc. by rewrite skipn_drop_app by (by rewrite to_le_bytes_length). }
  assert (skipn 6 (rb ++ sec_trailer t l pad ++ sig) = to_le_bytes 2 op ++ p ++ sec_trailer t l pad ++ sig) as E6.
  { change 6%nat with (2 + 4)%nat. rewrite <- skipn_skipn, E4. by rewrite skipn_drop_app by (by rewrite to_le_bytes_length). }
  assert (skipn 8 (rb ++ sec_trailer t l pad ++ sig) = p ++ sec_trailer t l pad ++ sig) as E8.
  { change 8%nat with (2 + 6)%nat. rewrite <- skipn_skipn, E6. by rewrite skipn_drop_app by (by rewrite to_le_bytes_length). }
  rewrite E4, E6, E8, !take_app_length' by (rewrite ?to_le_bytes_length; lia).
  rewrite !from_to_le_bytes by (unfold is_u16 in *; simpl; lia). do 2 f_equal.
  rewrite app_assoc. apply skipn_drop_app. rewrite length_app. unfold len. rewrite Nat2Z.id, !length_app. simpl. lia.
Qed.

(** ** A signed session *)

Section signed.
Context {UC : UnicodeTables} {NC : NtlmCrypto} {LC : NetlogonCrypto} {GC : GssCrypto} {GL : GssCryptoLaws GC} {AX : ApExchange} {AI : ApInitiator}.
Context {I : Type} {RI : RpcInterface I}.
Context (sec_addr : string) (around : frame -> surroundings) (draw : Z -> bytes).
Context (key : bytes) (principal : string).

(** The checksum of the crypto library accepts the session's key. *)
Hypothesis signs : forall seq data, exists token, gss_mic key seq data = inr token.

Abbreviation session := (@session (@server_state I)).
Abbreviation call := (call (server_respond sec_addr around) draw).

(** Both ends after the handshake: they share the key, and nothing is under way. *)
Record in_session (s : session) (i : I) : Prop := {
  ses_call_id : is_u32 (dc_call_id s.1);
  ses_context : is_u16 (dc_context_id s.1);
  ses_seq : 0 <= dc_seq s.1 < 2 ^ 64;
  ses_gss : dc_gss s.1 = Some key;
  ses_level : dc_auth_level s.1 = RPC_C_AUTHN_LEVEL_PKT_INTEGRITY;
  ses_type : dc_auth_type s.1 = RPC_C_AUTHN_GSS_NEGOTIATE;
  ses_inbox : s.2.1 = [];
  ses_server : exists c, s.2.2 = Some ([], (c, i)) /\ gss_subkey c = Some key /\ gss_principal c = Some principal;
}.

Lemma mic_size seq data token : gss_mic key seq data = inr token -> length token = 28%nat.
Proof.
  unfold gss_mic, mic. destruct (krb_checksum _ _ _) as [e|c] eqn:E; [done|]. intros H%inr_eq. subst token.
  pose proof (krb_checksum_size _ _ _ _ E) as Hc. unfold mic_header. by rewrite !length_app, to_be_bytes_length, length_replicate, length_take, Hc.
Qed.

(** The server's side of one signed request. *)
Lemma handle_signed w cid ctx op stub pad mic seq c i : is_u16 ctx -> is_u16 op -> 0 <= seq < 2 ^ 64 ->
  gss_subkey c = Some key -> gss_principal c = Some principal ->
  gss_mic key seq (stub ++ replicate pad 0) = inr mic ->
  let body := build_request_body ctx op (stub ++ replicate pad 0) ++
              sec_trailer RPC_C_AUTHN_GSS_NEGOTIATE RPC_C_AUTHN_LEVEL_PKT_INTEGRITY (Z.of_nat pad) ++ mic in
  let h := mkCommonHeader ptype.REQUEST whole (Z.of_nat HEADER_LEN + len body) (len mic) cid in
  let req := mkSignedRequest ctx op RPC_C_AUTHN_GSS_NEGOTIATE RPC_C_AUTHN_LEVEL_PKT_INTEGRITY (Z.of_nat pad) (stub ++ replicate pad 0) mic in
  handle w sec_addr h (header_bytes h) body c i =
    let '(result, i') := if_call_authenticated op stub (Some key) (Some principal) i in
    Ret (match result with
         | inl status => (Some (build_fault cid ctx status), (c, i'))
         | inr out => (Some (protected_reply w cid key req (gss_acceptor_seq c) out), (set_acceptor_seq (u64 (gss_acceptor_seq c + 1)) c, i'))
         end).
Proof.
  intros Hctx Hop Hseq Hk Hp Hmic body h req. pose proof (mic_size _ _ _ Hmic) as Hl.
  pose proof (parse_signed_request_app ctx op RPC_C_AUTHN_GSS_NEGOTIATE RPC_C_AUTHN_LEVEL_PKT_INTEGRITY (Z.of_nat pad)
                (stub ++ replicate pad 0) mic Hctx Hop) as Hreq. fold body in Hreq. fold req in Hreq.
  assert (0 <? len mic = true) as Ha by (apply Z.ltb_lt; unfold len; lia).
  unfold handle. change (is_bind h) with false. change (h_ptype h) with ptype.REQUEST. change (h_auth_length h) with (len mic).
  change (h_call_id h) with cid. cbn [andb]. change (ptype.REQUEST =? ptype.BIND) with false. change (ptype.REQUEST =? ptype.AUTH3) with false.
  change (ptype.REQUEST =? ptype.ALTER_CONTEXT) with false. change (ptype.REQUEST =? ptype.REQUEST) with true. cbn [andb]. rewrite Ha, Hreq.
  cbn [fmap option_fmap option_map sr_auth_type req]. rewrite bool_decide_false by done. rewrite bool_decide_true by done.
  unfold handle_gss_request. rewrite Hk. change (h_auth_length h) with (len mic). rewrite Hreq. change (h_call_id h) with cid.
  assert (gss_stub h body key req c = inr stub) as ->.
  { unfold gss_stub. cbn [sr_auth_level req]. change (RPC_C_AUTHN_LEVEL_PKT_INTEGRITY =? RPC_C_AUTHN_LEVEL_PKT_PRIVACY) with false. cbn iota.
    cbn [sr_payload sr_signature]. rewrite (mic_verifies key seq _ _ false) by done.
    unfold unpadded_stub, req. cbn [sr_payload sr_auth_pad_len]. by rewrite strip_pad_app. }
  cbn [sr_opnum sr_auth_level sr_context_id req]. rewrite Hp.
  destruct (if_call_authenticated op stub (Some key) (Some principal) i) as [[status|out] i']; [done|].
  by change (RPC_C_AUTHN_LEVEL_PKT_INTEGRITY =? RPC_C_AUTHN_LEVEL_PKT_PRIVACY) with false.
Qed.

(** What the client makes of the two kinds of reply. *)
Definition fits (out : bytes) : Prop := len out <= 65472.

Lemma reply_read d w cid ctx pad0 payload sig seq out : is_u32 cid -> fits out -> dc_auth_level d = RPC_C_AUTHN_LEVEL_PKT_INTEGRITY ->
  let req := mkSignedRequest ctx 0 RPC_C_AUTHN_GSS_NEGOTIATE RPC_C_AUTHN_LEVEL_PKT_INTEGRITY pad0 payload sig in
  exists h body, recv (protected_reply w cid key req seq out) = inr ((h, body), []) /\
    h_pfc_flags h = whole /\ protected_response_stub d h body key = inr out.
Proof.
  intros Hc Hf Hd req. unfold protected_reply, padded_response_stub. set (pad := response_pad (length out)).
  set (plain := out ++ replicate pad 0). destruct (signs seq plain) as [mic Hm]. pose proof (mic_size _ _ _ Hm) as Hl.
  assert (pad < 4)%nat as Hpad by (apply Nat.mod_upper_bound; lia).
  assert (len plain <= 65472) as Hp.
  { unfold plain, fits, len in *. rewrite length_app, length_replicate. unfold pad, response_pad. unfold HEADER_LEN.
    pose proof (Nat.div_mod_eq (16 + 8 + length out) 4). pose proof (Nat.mod_upper_bound (16 + 8 + length out) 4 ltac:(lia)).
    destruct (decide ((16 + 8 + length out) mod 4 = 0)%nat) as [->|Hne]; [simpl; lia|]. rewrite (Nat.mod_small (4 - _)) by lia. lia. }
  cbn [sr_auth_level sr_context_id req]. change (RPC_C_AUTHN_LEVEL_PKT_INTEGRITY =? RPC_C_AUTHN_LEVEL_PKT_PRIVACY) with false. cbn iota.
  rewrite Hm. cbn [unwrap_or_default]. unfold build_auth_response_typed.
  set (tr := trailer RPC_C_AUTHN_GSS_NEGOTIATE RPC_C_AUTHN_LEVEL_PKT_INTEGRITY (u8 (Z.of_nat pad))).
  replace (to_le_bytes 4 (u32 (len plain)) ++ to_le_bytes 2 ctx ++ [0; 0] ++ plain ++ tr ++ mic) with (response_body ctx plain ++ tr ++ mic)
    by (unfold response_body; by rewrite <- !app_assoc).
  pose proof (response_body_length ctx plain) as Hb. assert (u16 (len mic) = len mic) as -> by (unfold u16; apply Z.mod_small; unfold len; lia).
  destruct (build_pdu_framed ptype.RESPONSE whole cid (response_body ctx plain ++ tr ++ mic) (len mic)) as [E Hfr].
  { unfold is_u16, len. lia. } { done. } { unfold HEADER_LEN, len in *. rewrite !length_app, Hl. change (length tr) with 8%nat. lia. }
  unfold build_pdu_with_auth. rewrite E. pose proof (recv_app _ _ [] Hfr) as Hr. rewrite app_nil_r in Hr.
  eexists _, _. split; [exact Hr|]. split; [done|]. unfold protected_response_stub. cbn [h_ptype h_auth_length].
  change (ptype.RESPONSE =? ptype.FAULT) with false. change (ptype.RESPONSE =? ptype.RESPONSE) with true. cbn [negb]. cbn iota.
  rewrite trailer_start_app by done. rewrite skipn_drop_app by done.
  assert (u8 (Z.of_nat pad) = Z.of_nat pad) as Hu by (unfold u8; apply Z.mod_small; lia).
  change (parse_trailer (tr ++ mic)) with (Some (mkSecTrailer RPC_C_AUTHN_GSS_NEGOTIATE RPC_C_AUTHN_LEVEL_PKT_INTEGRITY (u8 (Z.of_nat pad)))).
  cbn [tr_auth_pad_len]. rewrite Hu, Hd. change (RPC_C_AUTHN_LEVEL_PKT_INTEGRITY =? RPC_C_AUTHN_LEVEL_PKT_PRIVACY) with false. cbn iota.
  assert (slice_get (response_body ctx plain ++ tr ++ mic) 8 (length (response_body ctx plain)) = Some plain) as ->.
  { unfold response_body. set (pre := to_le_bytes 4 (u32 (len plain)) ++ to_le_bytes 2 ctx ++ [0; 0]).
    assert (length pre = 8%nat) as Hpre by (unfold pre; by rewrite !length_app, !to_le_bytes_length).
    replace (to_le_bytes 4 (u32 (len plain)) ++ to_le_bytes 2 ctx ++ [0; 0] ++ plain) with (pre ++ plain) by (unfold pre; by rewrite <- !app_assoc).
    rewrite <- app_assoc, (length_app pre plain), Hpre. apply (slice_get_app _ plain (tr ++ mic)); [by apply skipn_drop_app|rewrite length_app; lia|done]. }
  unfold plain. by rewrite strip_pad_app.
Qed.

Lemma fault_read d cid ctx status : is_u32 cid -> is_u32 status ->
  exists h body, recv (build_fault cid ctx status) = inr ((h, body), []) /\
    protected_response_stub d h body key = inl (Client ("DRS request faulted (status 0x" +:+ lower_hex 8 status +:+ ")")).
Proof.
  intros Hc Hs. unfold build_fault, build_pdu, build_pdu_with_auth.
  match goal with |- context [build_pdu_with_auth_pfc _ _ _ ?b 0] => set (body := b) end.
  destruct (build_pdu_framed ptype.FAULT whole cid body 0) as [E Hfr]; [unfold is_u16; lia|done|vm_compute; reflexivity|].
  rewrite E. pose proof (recv_app _ _ [] Hfr) as Hr. rewrite app_nil_r in Hr. eexists _, _. split; [exact Hr|].
  unfold protected_response_stub. cbn [h_ptype]. change (ptype.FAULT =? ptype.FAULT) with true. cbn iota.
  assert (slice_get body 8 12 = Some (to_le_bytes 4 status)) as -> by reflexivity.
  cbn [fmap option_fmap option_map unwrap_or]. by rewrite from_to_le_bytes by done.
Qed.

(** The interface called without a connection between. *)
Definition direct (op : Z) (stub : bytes) (i : I) : (RpcError + bytes) * I :=
  let '(r, i') := if_call_authenticated op stub (Some key) (Some principal) i in
  (match r with
   | inr out => inr out
   | inl status => inl (Client ("DRS request faulted (status 0x" +:+ lower_hex 8 status +:+ ")"))
   end, i').

Definition carried (r : Z + bytes) : Prop := match r with inr out => fits out | inl status => is_u32 status end.

Lemma collect_last subkey h body (d : DrsConn) inbox p r : recv inbox = inr ((h, body), []) -> protected_response_stub d h body subkey = r ->
  (forall x, r = inr x -> h_pfc_flags h = whole) -> forall fuel, collect (S fuel) subkey [] ((d, (inbox, p)) : session) = (r, (d, ([], p))).
Proof.
  intros Hr Hs Hw fuel. cbn [collect receive]. rewrite Hr. cbn [fst]. rewrite Hs. destruct r as [e|x]; [done|]. by rewrite (Hw x eq_refl).
Qed.

Lemma padded_fits d stub : fits stub -> dc_auth_level d = RPC_C_AUTHN_LEVEL_PKT_INTEGRITY -> len (stub ++ replicate (request_pad d stub) 0) <= 65472.
Proof.
  intros Hf Hd. unfold fits, len, request_pad, block_of in *. rewrite Hd.
  change (RPC_C_AUTHN_LEVEL_PKT_INTEGRITY =? RPC_C_AUTHN_LEVEL_PKT_PRIVACY) with false. cbn iota. rewrite length_app, length_replicate.
  pose proof (Nat.div_mod_eq (length stub) 4). pose proof (Nat.mod_upper_bound (length stub) 4 ltac:(lia)).
  destruct (decide (length stub mod 4 = 0)%nat) as [->|Hne]; [simpl; lia|]. rewrite (Nat.mod_small (4 - _)) by lia. lia.
Qed.

(** A call over the session is the call of the interface, in the name of the session's principal. *)
Lemma call_relayed op stub s i : in_session s i -> is_u16 op -> fits stub ->
  carried (if_call_authenticated op stub (Some key) (Some principal) i).1 ->
  exists s', call op stub s = ((direct op stub i).1, s') /\ in_session s' (direct op stub i).2.
Proof.
  destruct s as [d [inbox p]]. intros [Hcid Hctx Hseq Hg Hlv Hty Hin (c & Hp & Hk & Hpr)] Hop Hst Hcar. cbn [fst snd] in *. subst inbox p.
  unfold RpcClient.call. cbn [fst snd next_call dc_gss]. rewrite Hg. unfold signed_call. cbn [dc_seq].
  set (d1 := next_call d). set (pad := request_pad d1 stub). set (padded := stub ++ replicate pad 0).
  destruct (signs (dc_seq d) padded) as [mic Hm]. pose proof (mic_size _ _ _ Hm) as Hml.
  assert (len padded <= 65472) as Hpl by (by apply (padded_fits d1)).
  set (cid := u32 (dc_call_id d + 1)). assert (is_u32 cid) as Hcu by (apply Z.mod_pos_bound; lia).
  unfold protected_request. fold d1 pad padded. change (dc_auth_level d1) with (dc_auth_level d). rewrite Hlv.
  change (RPC_C_AUTHN_LEVEL_PKT_INTEGRITY =? RPC_C_AUTHN_LEVEL_PKT_PRIVACY) with false. cbn iota.
  change (dc_seq d1) with (dc_seq d). rewrite Hm. change (dc_auth_type d1) with (dc_auth_type d). rewrite Hty.
  change (dc_context_id d1) with (dc_context_id d). change (dc_call_id d1) with cid. set (ctx := dc_context_id d) in *.
  set (body := build_request_body ctx op padded ++ sec_trailer RPC_C_AUTHN_GSS_NEGOTIATE RPC_C_AUTHN_LEVEL_PKT_INTEGRITY (Z.of_nat pad) ++ mic).
  assert (u16 (len mic) = len mic) as -> by (unfold u16; apply Z.mod_small; unfold len; lia).
  destruct (build_pdu_framed ptype.REQUEST whole cid body (len mic)) as [E Hfr]; [unfold is_u16, len; lia|done| |].
  { unfold body, build_request_body, HEADER_LEN, len in *. rewrite !length_app, !to_le_bytes_length, Hml. cbn [length sec_trailer]. lia. }
  unfold build_pdu_with_auth. rewrite E. unfold send.
  set (h := mkCommonHeader ptype.REQUEST whole (Z.of_nat HEADER_LEN + len body) (len mic) cid) in *.
  pose proof (handle_signed (around (mkFrame h (header_bytes h) body)) cid ctx op stub pad mic (dc_seq d) c i Hctx Hop Hseq Hk Hpr Hm) as Hh.
  unfold direct. fold padded in Hh. fold body in Hh. fold h in Hh. cbn zeta in Hh.
  assert (forall c', gss_subkey c' = Some key -> gss_principal c' = Some principal -> forall i',
            in_session ((next_seq d1, ([], Some ([], (c', i')))) : session) i') as Hnext.
  { intros c' Hk' Hp' i'. constructor; cbn [fst snd next_seq d1 next_call dc_call_id dc_context_id dc_seq dc_gss dc_auth_level dc_auth_type]; try done.
    - apply Z.mod_pos_bound. lia.
    - by exists c'. }
  destruct (if_call_authenticated op stub (Some key) (Some principal) i) as [[status|out] i']; cbn [fst snd carried] in *;
    rewrite (server_responds _ _ _ _ _ _ _ _ _ Hfr Hh); cbn [app unwrap_or snd fst].
  - destruct (fault_read (next_seq d1) cid ctx status Hcu Hcar) as (h' & b' & Hr & Hs).
    eexists. split; [apply (collect_last _ h' b' _ _ _ _ Hr Hs); by intros|]. by apply Hnext.
  - destruct (reply_read (next_seq d1) (around (mkFrame h (header_bytes h) body)) cid ctx (Z.of_nat pad) padded mic (gss_acceptor_seq c) out Hcu Hcar Hlv)
      as (h' & b' & Hr & Hw & Hs).
    eexists. split; [apply (collect_last _ h' b' _ _ _ _ Hr Hs); by intros|]. by apply Hnext.
Qed.

(** Calls one after the other, over a session or directly. *)
Fixpoint run_calls {S} (f : Z -> bytes -> S -> (RpcError + bytes) * S) (cs : list (Z * bytes)) (s : S) : list (RpcError + bytes) * S :=
  match cs with
  | [] => ([], s)
  | (op, stub) :: cs' => let '(r, s1) := f op stub s in let '(rs, s2) := run_calls f cs' s1 in (r :: rs, s2)
  end.

Fixpoint all_carried (cs : list (Z * bytes)) (i : I) : Prop :=
  match cs with
  | [] => True
  | (op, stub) :: cs' =>
      is_u16 op /\ fits stub /\ carried (if_call_authenticated op stub (Some key) (Some principal) i).1 /\ all_carried cs' (direct op stub i).2
  end.

(** C3: A signed session is transparent: whatever the interface and the calls, as long as
    requests and answers fit a packet, the client gets for each call what the interface
    answers the session's principal under the session's key, and the interface is left
    as the calls leave it. *)
Theorem signed_session_relays_calls cs s i : in_session s i -> all_carried cs i ->
  exists s', run_calls call cs s = ((run_calls direct cs i).1, s') /\ in_session s' (run_calls direct cs i).2.
Proof.
  revert s i. induction cs as [|[op stub] cs IH]; intros s i Hs Hc; [by exists s|]. destruct Hc as (Hop & Hst & Hcar & Hcs).
  destruct (call_relayed op stub s i Hs Hop Hst Hcar) as (s1 & E & Hs1). destruct (IH s1 _ Hs1 Hcs) as (s2 & E2 & Hs2).
  exists s2. cbn [run_calls]. rewrite E, E2. destruct (direct op stub i) as [r i1]. cbn [fst snd] in *.
  by destruct (run_calls direct cs i1).
Qed.
End signed.

(** ** Binding with a ticket *)

Section binding.
Context {UC : UnicodeTables} {NC : NtlmCrypto} {LC : NetlogonCrypto} {GC : GssCrypto} {AX : ApExchange} {AI : ApInitiator}.
Context {I : Type} {RI : RpcInterface I}.
Context (sec_addr : string) (around : frame -> surroundings) (draw : Z -> bytes).

Abbreviation kerberos_bind := (kerberos_bind (server_respond (I := I) sec_addr around)).

Definition drs_request : BindRequest := mkBindRequest 5840 5840 0 [mkContextRequest 0 [(NDR32_UUID, NDR32_VERSION)]].
Definition bind_prefix : bytes := build_bind_body 0 (guid_le DRSUAPI_UUID) 4.

Lemma parse_bind_prefix rest : parse_bind (bind_prefix ++ rest) = inr drs_request.
Proof.
  change bind_prefix with ltac:(let x := eval vm_compute in bind_prefix in exact x).
  unfold parse_bind, run_reader, read_context, read_syntax, p_bind, p_u16, p_u32, p_u8, p_skip, p_take, p_ret. cbn [p_repeat app length]. reflexivity.
Qed.

Lemma bind_ack_body_bound : len (bind_ack_body drs_request sec_addr) <= Z.of_nat (String.length sec_addr) + 42.
Proof.
  unfold bind_ack_body, pad4, len. rewrite !length_app, length_replicate.
  set (addr := if String.eqb sec_addr "" then [] else _). assert (length addr <= S (String.length sec_addr))%nat as Ha.
  { unfold addr. destruct (String.eqb sec_addr ""); [simpl; lia|]. rewrite length_app, bytes_of_string_length. simpl. lia. }
  rewrite !to_le_bytes_length. change (length (flat_map context_result (contexts drs_request))) with 24%nat. cbn [length].
  pose proof (Nat.mod_upper_bound (4 - (2 + (2 + (4 + (2 + length addr)))) mod 4) 4 ltac:(lia)). lia.
Qed.

(** The packet that carries the ticket, as the server reads it. *)
Definition bind_body (auth_type level : Z) (token : bytes) : bytes := bind_prefix ++ sec_trailer auth_type level 0 ++ token.
Definition bind_header (flags : Z) (body token : bytes) : CommonHeader := mkCommonHeader ptype.BIND flags (Z.of_nat HEADER_LEN + len body) (len token) 1.

Lemma bind_framed flags auth_type level token : len token < 65400 ->
  let body := bind_body auth_type level token in let h := bind_header flags body token in
  build_pdu_with_auth_pfc ptype.BIND flags 1 body (u16 (len token)) = header_bytes h ++ body /\ framed h body.
Proof.
  intros Ht body h. assert (u16 (len token) = len token) as -> by (unfold u16; apply Z.mod_small; unfold len in *; lia).
  apply build_pdu_framed; [unfold is_u16, len in *; lia|by vm_compute|].
  unfold body, bind_body, HEADER_LEN, len in *. rewrite !length_app. change (length bind_prefix) with 56%nat.
  cbn [length sec_trailer]. lia.
Qed.

Lemma bind_auth_type auth_type level token : negotiated_auth_type (bind_body auth_type level token) (len token) = Some auth_type.
Proof.
  unfold negotiated_auth_type, trailer_of, bind_body. rewrite trailer_start_app by done. rewrite skipn_drop_app by done. done.
Qed.

Lemma bind_token auth_type level token : auth_token (bind_body auth_type level token) (len token) = Some token.
Proof.
  unfold auth_token, bind_body. rewrite app_assoc, checked_sub_len by done. reflexivity.
Qed.

Lemma handle_unknown_bind w flags level token c (i : I) : 0 < len token ->
  let body := bind_body RPC_C_AUTHN_GSS_KERBEROS level token in let h := bind_header flags body token in
  handle w sec_addr h (header_bytes h) body c i = Ret (Some (build_bind_ack 1 drs_request sec_addr), (c, i)).
Proof.
  intros Ht body h. pose proof (bind_auth_type RPC_C_AUTHN_GSS_KERBEROS level token) as Ha. fold body in Ha.
  unfold handle. change (h_auth_length h) with (len token). change (is_bind h) with true. change (h_ptype h) with ptype.BIND.
  rewrite Ha, (proj2 (Z.ltb_lt _ _)) by done. rewrite (bool_decide_false (Some RPC_C_AUTHN_GSS_KERBEROS = Some RPC_C_AUTHN_GSS_NEGOTIATE)) by done.
  rewrite (bool_decide_false (Some RPC_C_AUTHN_GSS_KERBEROS = Some RPC_C_AUTHN_WINNT)) by done. rewrite !andb_false_r. cbn [andb].
  change (ptype.BIND =? ptype.AUTH3) with false. change (ptype.BIND =? ptype.ALTER_CONTEXT) with false. change (ptype.BIND =? ptype.REQUEST) with false.
  cbn [andb]. unfold dispatch. change (h_ptype h) with ptype.BIND. change (ptype.BIND =? ptype.BIND) with true. cbn [orb].
  unfold body, bind_body. by rewrite parse_bind_prefix.
Qed.

Lemma bind_ack_received : Z.of_nat (String.length sec_addr) < 65000 ->
  exists h, recv (build_bind_ack 1 drs_request sec_addr) = inr ((h, bind_ack_body drs_request sec_addr), []) /\ h_ptype h = ptype.BIND_ACK /\ h_auth_length h = 0.
Proof.
  intros Hs. pose proof bind_ack_body_bound as Hb. unfold build_bind_ack, build_pdu, build_pdu_with_auth.
  destruct (build_pdu_framed ptype.BIND_ACK whole 1 (bind_ack_body drs_request sec_addr) 0) as [E Hf];
    [unfold is_u16; lia|by vm_compute|unfold HEADER_LEN; lia|].
  rewrite E. pose proof (recv_app _ _ [] Hf) as Hr. rewrite app_nil_r in Hr. eexists. split; [exact Hr|done].
Qed.

Lemma der_nonempty tag l : 0 < len (der tag l).
Proof. unfold der, len. cbn [length app]. lia. Qed.

(** C32: A client that connects with a ticket of a KDC, as the replication agents do, names
    the bare Kerberos service in its BIND, which the server does not know.  The server
    acknowledges the binding as if it carried no authentication, so the client finds
    no AP-REP and gives up: the agents cannot replicate from a server of this
    repository. *)
Theorem ticket_client_is_refused drawn ticket_der session_key rlm client cfg (i : I) ap_req :
  build_ap_req_from_ticket drawn ticket_der session_key rlm client GSS_SEQ_BASE = inr ap_req ->
  len (wrap_ap_req_raw ap_req) < 65400 -> Z.of_nat (String.length sec_addr) < 65000 ->
  connect_kerberos_ticket (server_respond sec_addr around) draw drawn ticket_der session_key rlm client (Some ([], (accepted cfg, i))) =
    (inl (Client "no AP-REP in BIND_ACK"), (replicate 20 0, (ticket_conn, ([], Some ([], (accepted cfg, i)))))).
Proof.
  intros Hb Ht Hs. unfold connect_kerberos_ticket, bound. rewrite Hb. unfold RpcClient.kerberos_bind.
  cbn [fst ticket_conn dc_auth_type dc_auth_level dc_context_id dc_header_signing dc_call_id].
  change (RPC_C_AUTHN_GSS_KERBEROS =? RPC_C_AUTHN_GSS_KERBEROS) with true. cbn iota. set (token := wrap_ap_req_raw ap_req) in *.
  fold bind_prefix. fold (bind_body RPC_C_AUTHN_GSS_KERBEROS RPC_C_AUTHN_LEVEL_PKT_PRIVACY token). set (flags := Z.lor whole _).
  destruct (bind_framed flags RPC_C_AUTHN_GSS_KERBEROS RPC_C_AUTHN_LEVEL_PKT_PRIVACY token Ht) as [E Hf]. rewrite E.
  pose proof (fun w => handle_unknown_bind w flags RPC_C_AUTHN_LEVEL_PKT_PRIVACY token (accepted cfg) i (der_nonempty _ _)) as Hh.
  unfold send. rewrite (server_responds _ _ _ _ _ _ _ _ _ Hf (Hh _)). cbn [app unwrap_or receive].
  destruct (bind_ack_received Hs) as (h & -> & Hp & Hl). rewrite Hp, Hl. change (negb _) with false. cbn iota.
  unfold auth_token, checked_sub. rewrite (proj2 (Z.leb_le _ _)) by (unfold len; lia).
  rewrite drop_ge by (unfold len; lia). done.
Qed.

(** *** With the service's own key *)

Definition bind_frame (token : bytes) : frame :=
  let body := bind_body RPC_C_AUTHN_GSS_NEGOTIATE RPC_C_AUTHN_LEVEL_PKT_INTEGRITY token in
  let h := bind_header whole body token in mkFrame h (header_bytes h) body.

(** The messages of Kerberos do their part: the service accepts the request for the
    client it names, and the initiator finds in the reply the subkey that was drawn. *)
Record handshake (service_key ap_req session_key key : bytes) (principal : string) : Prop := {
  hs_request : is_ap_req ap_req;
  hs_size : len (wrap_ap_req ap_req) < 65000;
  hs_subkey : fresh_subkey (around (bind_frame (wrap_ap_req ap_req))) = key;
  hs_exchange : exists v ap_rep auth3,
    verify_ap_req (now (around (bind_frame (wrap_ap_req ap_req)))) service_key ap_req = inr v /\ principal_of (client_name v) = Some principal /\
    build_ap_rep key (ticket_session_key v) (ctime v) (cusec v) GSS_ACCEPTOR_SEQ_BASE = inr ap_rep /\
    dce_style_auth3 session_key ap_rep = inr (key, auth3) /\ 0 < len auth3 < 65000 /\
    let reply := wrap_ap_rep ap_rep (unwrap_or [] (first_mech_oid (wrap_ap_req ap_req))) in
    extract_ap_rep reply = Some ap_rep /\ len reply + Z.of_nat (String.length sec_addr) < 65000;
}.

(** The reply with a token, as the client reads it. *)
Lemma authed_ack_received level ctx token : len token + Z.of_nat (String.length sec_addr) < 65000 ->
  exists h ack, recv (build_bind_ack_with_auth 1 drs_request sec_addr RPC_C_AUTHN_GSS_NEGOTIATE level ctx token) = inr ((h, ack), []) /\
    h_ptype h = ptype.BIND_ACK /\ auth_token ack (h_auth_length h) = Some token.
Proof.
  intros Hs. pose proof bind_ack_body_bound as Hb. unfold build_bind_ack_with_auth, build_authed_bind, build_pdu_with_auth.
  set (bb := bind_ack_body drs_request sec_addr) in *. set (pad := ((4 - length bb mod 4) mod 4)%nat).
  assert (pad < 4)%nat as Hpad by (apply Nat.mod_upper_bound; lia).
  assert (u16 (len token) = len token) as -> by (unfold u16; apply Z.mod_small; unfold len in *; lia).
  set (pre := bb ++ replicate pad 0 ++ [RPC_C_AUTHN_GSS_NEGOTIATE; level; Z.of_nat pad; 0] ++ to_le_bytes 4 ctx).
  replace (bb ++ replicate pad 0 ++ [RPC_C_AUTHN_GSS_NEGOTIATE; level; Z.of_nat pad; 0] ++ to_le_bytes 4 ctx ++ token) with (pre ++ token)
    by (unfold pre; by rewrite <- !app_assoc).
  destruct (build_pdu_framed ptype.BIND_ACK whole 1 (pre ++ token) (len token)) as [E Hf]; [unfold is_u16, len in *; lia|by vm_compute| |].
  { unfold pre, HEADER_LEN, len in *. rewrite !length_app, length_replicate, to_le_bytes_length. cbn [length]. lia. }
  rewrite E. pose proof (recv_app _ _ [] Hf) as Hr. rewrite app_nil_r in Hr. eexists _, _. split; [exact Hr|]. split; [done|].
  cbn [h_auth_length]. unfold auth_token. rewrite checked_sub_len by done. f_equal. apply skipn_drop_app. unfold len. lia.
Qed.

(** What the server makes of the request. *)
Lemma handle_ticket service_key ap_req session_key key principal (i : I) :
  handshake service_key ap_req session_key key principal ->
  let f := bind_frame (wrap_ap_req ap_req) in
  exists ap_rep auth3 level ctx c, dce_style_auth3 session_key ap_rep = inr (key, auth3) /\ 0 < len auth3 < 65000 /\
    let reply := wrap_ap_rep ap_rep (unwrap_or [] (first_mech_oid (wrap_ap_req ap_req))) in
    extract_ap_rep reply = Some ap_rep /\ len reply + Z.of_nat (String.length sec_addr) < 65000 /\
    handle (around f) sec_addr (fr_header f) (fr_header_bytes f) (fr_body f) (accepted (mkAuthConfig None (Some service_key))) i =
      Ret (Some (build_bind_ack_with_auth 1 drs_request sec_addr RPC_C_AUTHN_GSS_NEGOTIATE level ctx reply), (c, i)) /\
    gss_subkey c = Some key /\ gss_principal c = Some principal /\ ntlm_lookup c = None /\ ntlm_nt_hash c = None.
Proof.
  intros [Hr Hsz Hsub (v & ap_rep & auth3 & Hv & Hp & Hb & Hd & Ha3 & Hx & Hl)] f. set (token := wrap_ap_req ap_req) in *.
  eexists ap_rep, auth3, _, _, _. split; [done|]. split; [done|]. split; [done|]. split; [done|].
  assert (len ap_req < 65000) as Hq.
  { revert Hsz. unfold token, wrap_ap_req, neg_token_init, krb5_mech_token, der, len. repeat (rewrite ?length_app; cbn [length]). lia. }
  pose proof (extract_negotiated KRB5_OID_DER ap_req (or_introl eq_refl) Hr Hq) as Hex. change (neg_token_init _ _) with token in Hex.
  unfold f, bind_frame. cbn [fr_header fr_header_bytes fr_body].
  set (body := bind_body _ _ token) in *. set (h := bind_header whole body token).
  pose proof (bind_auth_type RPC_C_AUTHN_GSS_NEGOTIATE RPC_C_AUTHN_LEVEL_PKT_INTEGRITY token) as Ha. fold body in Ha.
  pose proof (bind_token RPC_C_AUTHN_GSS_NEGOTIATE RPC_C_AUTHN_LEVEL_PKT_INTEGRITY token) as Htk. fold body in Htk.
  assert (0 < len token) as Ht by apply der_nonempty.
  unfold handle. change (h_auth_length h) with (len token). change (is_bind h) with true. rewrite Ha, (proj2 (Z.ltb_lt _ _)) by done.
  cbn [andb accepted gss_service_key cfg_gss_service_key]. rewrite !bool_decide_true by done. cbn [andb].
  unfold handle_gss_bind. change (h_ptype h) with ptype.BIND. change (ptype.BIND =? ptype.ALTER_CONTEXT) with false.
  change (h_auth_length h) with (len token). change (h_call_id h) with 1. change (negb (Z.land (h_pfc_flags h) pfc.SUPPORT_HEADER_SIGN =? 0)) with false.
  rewrite Htk. replace (parse_bind body) with (@inr RpcError _ drs_request) by (symmetry; apply parse_bind_prefix).
  cbn [accepted gss_service_key cfg_gss_service_key]. rewrite Hex. fold token in Hv, Hsub.
  change (mkFrame h (header_bytes h) body) with (bind_frame token) in *. rewrite Hv, Hsub, Hb. split; [reflexivity|]. rewrite Hp. done.
Qed.

Lemma handle_auth3_without_ntlm c auth3 (i : I) : 0 < len auth3 < 65000 -> ntlm_lookup c = None -> ntlm_nt_hash c = None ->
  let body := replicate 4 0 ++ sec_trailer RPC_C_AUTHN_GSS_NEGOTIATE RPC_C_AUTHN_LEVEL_PKT_INTEGRITY 0 ++ auth3 in
  let h := mkCommonHeader ptype.AUTH3 whole (Z.of_nat HEADER_LEN + len body) (len auth3) 1 in
  build_pdu_with_auth_pfc ptype.AUTH3 whole 1 body (u16 (len auth3)) = header_bytes h ++ body /\ framed h body /\
  forall w, handle w sec_addr h (header_bytes h) body c i = Ret (None, (c, i)).
Proof.
  intros Hl Hk Hh body h. assert (u16 (len auth3) = len auth3) as -> by (unfold u16; apply Z.mod_small; unfold len in *; lia).
  destruct (build_pdu_framed ptype.AUTH3 whole 1 body (len auth3)) as [E Hf]; [unfold is_u16, len in *; lia|by vm_compute| |].
  { unfold body, HEADER_LEN, len in *. rewrite !length_app. cbn [length sec_trailer replicate]. lia. }
  split; [done|]. split; [done|]. intros w. unfold handle. change (is_bind h) with false. change (h_ptype h) with ptype.AUTH3. change (h_auth_length h) with (len auth3).
  cbn [andb]. change (ptype.AUTH3 =? ptype.BIND) with false. change (ptype.AUTH3 =? ptype.AUTH3) with true. cbn [andb].
  rewrite (proj2 (Z.ltb_lt _ _)) by lia. unfold handle_auth3, auth3_hash. rewrite Hk, Hh.
  by destruct (checked_sub _ _).
Qed.

(** The handshake opens a session in the name of the client. *)
Lemma kerberos_bind_opens service_key ap_req session_key key principal (i : I) : handshake service_key ap_req session_key key principal ->
  exists s, kerberos_bind ap_req session_key (initial_conn, ([], Some ([], (accepted (mkAuthConfig None (Some service_key)), i)))) = (inr (), s) /\
    in_session key principal s i.
Proof.
  intros Hs. pose proof Hs as [_ Hsz _ _].
  destruct (handle_ticket _ _ _ _ _ i Hs) as (ap_rep & auth3 & level & ctx & c & Hd & Ha3 & Hx & Hl & Hh & Hk & Hp & Hlk & Hnt).
  unfold RpcClient.kerberos_bind. cbn [fst initial_conn dc_auth_type dc_auth_level dc_context_id dc_header_signing dc_call_id].
  change (RPC_C_AUTHN_GSS_NEGOTIATE =? RPC_C_AUTHN_GSS_KERBEROS) with false. cbn iota. set (token := wrap_ap_req ap_req) in *.
  fold bind_prefix. fold (bind_body RPC_C_AUTHN_GSS_NEGOTIATE RPC_C_AUTHN_LEVEL_PKT_INTEGRITY token).
  destruct (bind_framed whole RPC_C_AUTHN_GSS_NEGOTIATE RPC_C_AUTHN_LEVEL_PKT_INTEGRITY token ltac:(lia)) as [E Hf]. rewrite E.
  unfold send. rewrite (server_responds _ _ _ _ _ _ _ _ _ Hf Hh). cbn [app unwrap_or receive].
  destruct (authed_ack_received level ctx _ Hl) as (h & ack & -> & Hpt & Htok). rewrite Hpt, Htok. change (negb _) with false. cbn iota.
  rewrite Hx, Hd. cbn [fst snd].
  destruct (handle_auth3_without_ntlm c auth3 i Ha3 Hlk Hnt) as (E3 & Hf3 & Hh3).
  rewrite E3, (server_responds _ _ _ _ _ _ _ _ _ Hf3 (Hh3 _)). eexists. split; [reflexivity|].
  constructor; cbn; try done. by exists c.
Qed.
End binding.

(** ** Clients over two peers *)

Section client_simulation.
Context {T1 T2 : Type} (call1 : Z -> bytes -> T1 -> (RpcError + bytes) * T1) (call2 : Z -> bytes -> T2 -> (RpcError + bytes) * T2).
Context (R : T1 -> T2 -> Prop).
Hypothesis calls_simulate : forall op stub s1 s2 r s2', R s1 s2 -> call2 op stub s2 = (inr r, s2') ->
  exists s1', call1 op stub s1 = (inr r, s1') /\ R s1' s2'.

(** What succeeds over the second succeeds over the first, with the same result. *)
Definition simulates {A} (m1 : client T1 A) (m2 : client T2 A) : Prop := forall h s1 s2 a h' s2', R s1 s2 ->
  m2 (h, s2) = (inr a, (h', s2')) -> exists s1', m1 (h, s1) = (inr a, (h', s1')) /\ R s1' s2'.

Lemma sim_ret {A} (a : A) : simulates (cl_ret a) (cl_ret a).
Proof. intros h s1 s2 a' h' s2' HR [= <- <- <-]. by exists s1. Qed.

Lemma sim_bind {A B} (m1 : client T1 A) m2 (k1 : A -> client T1 B) k2 :
  simulates m1 m2 -> (forall a, simulates (k1 a) (k2 a)) -> simulates (cl_bind m1 k1) (cl_bind m2 k2).
Proof.
  intros Hm Hk h s1 s2 b h' s2' HR E. unfold cl_bind in *. destruct (m2 (h, s2)) as [[e|a] [h1 t2]] eqn:E2; [done|].
  destruct (Hm _ _ _ _ _ _ HR E2) as (t1 & -> & HR1). by apply (Hk a h1 t1 t2).
Qed.

Lemma sim_handle : simulates cl_handle cl_handle.
Proof. intros h s1 s2 a h' s2' HR [= <- <- <-]. by exists s1. Qed.

Lemma sim_set_handle x : simulates (cl_set_handle x) (cl_set_handle x).
Proof. intros h s1 s2 a h' s2' HR [= <- <- <-]. by exists s1. Qed.

Lemma sim_of_option {A} e (o : option A) : simulates (cl_of_option e o) (cl_of_option e o).
Proof. destruct o; [apply sim_ret|]. by intros h s1 s2 a h' s2' HR [=]. Qed.

Lemma sim_call op stub : simulates (cl_call call1 op stub) (cl_call call2 op stub).
Proof.
  intros h s1 s2 a h' s2' HR E. unfold cl_call in *. cbn [fst snd] in *. destruct (call2 op stub s2) as [r t2] eqn:E2.
  injection E as -> -> ->. destruct (calls_simulate _ _ _ _ _ _ HR E2) as (t1 & -> & HR1). by exists t1.
Qed.

Lemma sim_drs_bind : simulates (drs_bind call1) (drs_bind call2).
Proof.
  apply sim_bind; [apply sim_call|]. intros reply. apply sim_bind; [apply sim_of_option|]. intros x. apply sim_set_handle.
Qed.

Lemma sim_replicate_pages nc flags size n : forall from all,
  simulates (replicate_pages call1 nc flags size n from all) (replicate_pages call2 nc flags size n from all).
Proof.
  induction n as [|n IH]; intros from all; [apply sim_ret|]. cbn [replicate_pages]. apply sim_bind.
  - apply sim_bind; [apply sim_handle|]. intros x. apply sim_bind; [apply sim_call|]. intros reply. apply sim_of_option.
  - intros page. destruct (_ || _); [apply sim_ret|apply IH].
Qed.
End client_simulation.

(** ** Replication over the packets *)

Section replication.
Context {UC : UnicodeTables} {NC : NtlmCrypto} {LC : NetlogonCrypto} {GC : GssCrypto} {GL : GssCryptoLaws GC} {AX : ApExchange} {AI : ApInitiator}.
Context {A : Type} {RA : RidAllocator A} {DC : DrsCrypto} {DL : DrsCryptoLaws DC}.
Context (d : DrsuapiInterface) (sec_addr : string) (around : frame -> surroundings) (draw : Z -> bytes).
Context (key : bytes) (principal : string).

#[local] Instance drs : RpcInterface (Directory A) := drs_interface d.
Abbreviation respond := (server_respond (I := Directory A) sec_addr around).

Definition delivers (op : Z) (stub r : bytes) : Prop := is_u16 op /\ fits stub /\ fits r.

#[local] Instance delivers_dec op stub r : Decision (delivers op stub r).
Proof. unfold delivers, is_u16, fits. apply _. Qed.

(** The interface called directly, with the limit that packets set. *)
Definition guarded (op : Z) (stub : bytes) (dir : Directory A) : (RpcError + bytes) * Directory A :=
  match call_authenticated d op stub (Some key) (Some principal) dir with
  | (inr r, dir') => (if bool_decide (delivers op stub r) then inr r else inl (Client "too long for a packet"), dir')
  | (inl _, dir') => (inl (Client "faulted"), dir')
  end.

Lemma guarded_transports : transports_if d key principal guarded delivers.
Proof. intros op stub dir r dir' E H. unfold guarded. by rewrite E, bool_decide_true. Qed.

(** A replication pull from nothing: the client connects with the service's key and
    pages through the naming context. *)
Definition pull (drawn service_key : bytes) (rlm : string) (spn client_name : list string) (nc : string) (flags size : Z) (pages : nat)
    (dir : Directory A) :=
  match connect_kerberos respond draw drawn service_key rlm spn client_name (Some ([], (accepted (mkAuthConfig None (Some service_key)), dir))) with
  | (inl e, st) => (inl e, st)
  | (inr _, st) => replicate_nc (call respond draw) nc flags size pages st
  end.

(** C1: From the first packet to the last object: a client whose ticket the service accepts
    for a principal with the right to replicate ends with every object that the
    directory serves, with names, RIDs and NT hashes as the source holds them, over the
    packets and signatures of both ends, if every page fits a packet. *)
Theorem kerberos_replication_complete drawn service_key rlm spn client_name ap_req session_key nc flags size pages (dir : Directory A) :
  (forall seq data, exists token, gss_mic key seq data = inr token) ->
  build_ap_req drawn service_key rlm spn client_name = inr (ap_req, session_key) ->
  handshake sec_addr around service_key ap_req session_key key principal ->
  is_authorized_for_replication d principal dir = true -> dir_ok dir -> length (invocation_id d) = 16%nat ->
  is_u32 size -> 0 < size -> len (stream dir) <= size * Z.of_nat pages ->
  no_cursor d DRS_HANDLE nc flags size dir -> pages_delivered d key delivers DRS_HANDLE nc flags size dir ->
  exists objs s, pull drawn service_key rlm spn client_name nc flags size pages dir = (inr objs, (DRS_HANDLE, s)) /\
    map (described key) objs = map description (List.filter (servable (invocation_id d)) (stream dir)) /\ in_session key principal s dir.
Proof.
  intros Hsigns Hb Hs Ha Hd Hi Hsz Hsz0 Hn Hnc Hp. unfold pull, connect_kerberos, bound. rewrite Hb. lazy beta iota zeta.
  destruct (kerberos_bind_opens (RI := drs) sec_addr around _ _ _ _ _ dir Hs) as (s0 & E0 & Hs0).
  destruct (replicate_nc_carried d key principal guarded delivers (replicate 20 0) nc flags size pages dir) as (objs & E & Hobjs); try done.
  { exact guarded_transports. }
  assert (simulates (in_session key principal) (cl! _ <- drs_bind (call respond draw); replicate_nc (call respond draw) nc flags size pages)
            (cl! _ <- drs_bind guarded; replicate_nc guarded nc flags size pages)) as Hsim.
  { assert (forall op stub s1 s2 r s2', in_session key principal s1 s2 -> guarded op stub s2 = (inr r, s2') ->
      exists s1', call respond draw op stub s1 = (inr r, s1') /\ in_session key principal s1' s2') as Hcalls.
    { intros op stub s1 s2 r s2' HR Eg. unfold guarded in Eg.
      destruct (call_authenticated d op stub (Some key) (Some principal) s2) as [[st|r'] t] eqn:Ec; [done|].
      case_bool_decide as Hdel; [|done]. injection Eg as <- <-. destruct Hdel as (Ho & Hst & Hr).
      destruct (call_relayed sec_addr around draw key principal Hsigns op stub s1 s2 HR Ho Hst) as (s1' & E1 & HR1);
        unfold direct, if_call_authenticated, drs, drs_interface in *; rewrite Ec in *; [done|]. by exists s1'. }
    apply sim_bind; [by apply sim_drs_bind|]. intros _. by apply sim_replicate_pages. }
  destruct (Hsim _ _ _ _ _ _ Hs0 E) as (s & E1 & Hses). exists objs, s. split; [|done].
  unfold cl_bind in E1. set (kb := kerberos_bind _ _ _ _). assert (kb = (inr (), s0)) as -> by exact E0.
  destruct (drs_bind (call respond draw) (replicate 20 0, s0)) as [[e|u] st]; [done|]. exact E1.
Qed.
End replication.

(** ** Witnesses *)

Module client_demo.
#[local] Existing Instances demo.ascii_only demo.no_allocator demo.plain_blocks demo.plain_blocks_laws.
#[local] Existing Instances ntlm_demo.toy_digests netlogon_demo.toy_cipher gss_demo.toy_gss gss_demo.toy_gss_laws.

(** Tickets of the controller [DC2$]. *)
#[local] Instance tickets : ApExchange := {|
  verify_ap_req _ _ _ := inr (mkVerifiedApReq ["DC2$"%string] "EX.COM" (replicate 32 1) None [] []);
  build_ap_rep subkey _ _ _ _ := inr (0x6f :: 32 :: subkey);
|}.
#[local] Instance requests : ApInitiator := {|
  build_ap_req _ _ _ _ _ := inr ([0x6e; 0x10] ++ replicate 16 0, replicate 32 1);
  build_ap_req_from_ticket _ ticket _ _ _ _ := inr (0x6e :: 0x10 :: ticket);
  dce_style_auth3 _ ap_rep := inr (skipn 2 ap_rep, [1; 2; 3]);
|}.

Definition around (_ : frame) : surroundings := mkSurroundings 0 (replicate 32 2) (replicate 16 3).
Definition draw (_ : Z) : bytes := replicate 16 4.
Definition service_key : bytes := replicate 32 9.
Definition key : bytes := replicate 32 2.

#[local] Instance drs_demo : RpcInterface (Directory unit) := drs_interface new_interface.

Lemma toy_signs seq data : exists token, gss_mic key seq data = inr token.
Proof. by eexists. Qed.

Lemma toy_handshake : handshake "49152" around service_key ([0x6e; 0x10] ++ replicate 16 0) (replicate 32 1) key "DC2$".
Proof.
  split; [split; [by eexists _, _|reflexivity]|reflexivity|reflexivity|].
  eexists _, _, _. split; [reflexivity|]. split; [reflexivity|]. split; [reflexivity|]. split; [reflexivity|].
  split; [split; reflexivity|]. split; vm_compute; reflexivity.
Qed.

Lemma pages_fit : pages_delivered new_interface key delivers DRS_HANDLE "DC=ex,DC=com" DRS_WRIT_REP 2 demo.directory.
Proof.
  intros from Hf. change (len (stream demo.directory)) with 3 in Hf.
  assert (from = 0 \/ from = 1 \/ from = 2 \/ from = 3) as [->|[->|[->| ->]]] by lia;
    (split; [vm_compute; split; congruence|split; vm_compute; congruence]).
Qed.

Lemma kerberos_replication_complete_witness :
  exists objs s, pull new_interface "49152" around draw [] service_key "EX.COM" ["ldap"; "dc1"]%string ["DC2$"]%string "DC=ex,DC=com" DRS_WRIT_REP 2 2 demo.directory
      = (inr objs, (DRS_HANDLE, s)) /\
    map (described key) objs = map description (List.filter (servable DSA_INVOCATION_ID) (stream demo.directory)) /\ in_session key "DC2$" s demo.directory.
Proof.
  apply (kerberos_replication_complete new_interface "49152" around draw key "DC2$" [] service_key "EX.COM" ["ldap"; "dc1"]%string ["DC2$"]%string
           ([0x6e; 0x10] ++ replicate 16 0) (replicate 32 1)).
  - exact toy_signs.
  - reflexivity.
  - exact toy_handshake.
  - vm_compute. reflexivity.
  - exact demo.directory_ok.
  - reflexivity.
  - vm_compute. split; congruence.
  - reflexivity.
  - vm_compute. congruence.
  - exact demo.no_cursor_here.
  - exact pages_fit.
Defined.

Definition fresh_session : @RpcClient.session (@server_state (Directory unit)) :=
  (initial_conn, ([], Some ([], (accepted (mkAuthConfig None (Some service_key)), demo.directory)))).
Definition opened : @RpcClient.session (@server_state (Directory unit)) :=
  (kerberos_bind (server_respond "49152" around) ([0x6e; 0x10] ++ replicate 16 0) (replicate 32 1) fresh_session).2.

(** The binding of the interface, and an operation that it does not have. *)
Lemma signed_session_relays_calls_witness :
  exists s', run_calls (call (server_respond "49152" around) draw) [(OP_BIND, []); (99, [1; 2; 3])] opened =
      ((run_calls (direct key "DC2$") [(OP_BIND, []); (99, [1; 2; 3])] demo.directory).1, s') /\
    in_session key "DC2$" s' (run_calls (direct key "DC2$") [(OP_BIND, []); (99, [1; 2; 3])] demo.directory).2.
Proof.
  apply (signed_session_relays_calls "49152" around draw key "DC2$" toy_signs).
  - unfold opened. destruct (kerberos_bind_opens "49152" around _ _ _ _ _ demo.directory toy_handshake) as (s & E & Hs).
    unfold fresh_session. set (kb := kerberos_bind _ _ _ _). assert (kb = (inr (), s)) as -> by exact E. exact Hs.
  - repeat split; vm_compute; congruence.
Defined.

Lemma ticket_client_is_refused_witness :
  connect_kerberos_ticket (server_respond "49152" around) draw [] (replicate 16 0) [] "EX.COM" ["DC2$"]%string
      (Some ([], (accepted (mkAuthConfig None (Some service_key)), demo.directory))) =
    (inl (Client "no AP-REP in BIND_ACK"), (replicate 20 0, (ticket_conn, ([], Some ([], (accepted (mkAuthConfig None (Some service_key)), demo.directory)))))).
Proof.
  apply (ticket_client_is_refused "49152" around draw [] (replicate 16 0) [] "EX.COM" ["DC2$"]%string (mkAuthConfig None (Some service_key))
           demo.directory (0x6e :: 0x10 :: replicate 16 0)); reflexivity.
Defined.
End client_demo.
