(* ===== verification/AdStore.v ===== *)
(** * The directory store of the domain controller

    [crates/magnetite-db/src/ad.rs] and [replication.rs]: the principals and
    groups of the domain, the replication stamp of each, the up-to-dateness
    cursors, the USN counter and the RID pool.  A DC changes its own store with
    the local operations, and merges what it pulls from its partners with
    [apply_replicated_principal_merged] and [apply_replicated_group].

    The tables are instances of [Table], the counters [dsa_state:main] and
    [rid_pool:main] instances of [Single].  MD4, the Kerberos string-to-key and
    [string::lowercase] are arguments.  [uuid] is the identifier that
    [Uuid::new_v4] would mint, [now] the clock in Unix seconds.

    [view] is the store as finite maps: [abs s v] relates the two, and each
    operation is shown to act on the maps as a pure function does.  On the maps,
    merging is a last-writer-wins register per attribute, from which the
    convergence of replicas follows. *)

From S2P Require Import Prelude Bytes RustStr Utf16 KdcStore RustNet Surreal.

Local Open Scope Z_scope.
Local Open Scope db_scope.

(** ** Records *)

Record AdPrincipalRecord := mkAdPrincipalRecord {
  sam_account_name : string;
  rid : Z;
  nt_hash_of : bytes;
  kerberos_key : bytes;
  disabled : bool;
}.

Record RidPoolRecord := mkRidPoolRecord { next : Z }.

Record DomainSidRecord := mkDomainSidRecord { subauth : list Z; updated_by : string }.

Record StoredLink := mkStoredLink {
  sl_member_sid : string;
  sl_present : bool;
  sl_version : Z;
  sl_originating_dsa : bytes;
  sl_originating_usn : Z;
  sl_originating_time : Z;
}.

Record IncomingLink := mkIncomingLink {
  il_member_sid : string;
  il_present : bool;
  il_version : Z;
  il_originating_dsa : bytes;
  il_originating_usn : Z;
  il_originating_time : Z;
}.

Record AdGroupRecord := mkAdGroupRecord {
  g_sam_account_name : string;
  g_rid : Z;
  g_sid : string;
  g_member_links : list StoredLink;
}.

Record AdGroup := mkAdGroup {
  ag_sam_account_name : string;
  ag_rid : Z;
  ag_sid : string;
  ag_member_sids : list string;
  ag_member_links : list StoredLink;
}.

Record DsaStateRecord := mkDsaStateRecord { invocation_id : bytes; highest_usn_of : Z }.

Record ReplStamp := mkReplStamp {
  version : Z;
  originating_time : Z;
  originating_dsa : bytes;
  originating_usn : Z;
  local_usn : Z;
}.

Record UtdvCursor := mkUtdvCursor { c_dsa : bytes; c_high_usn : Z; c_last_sync : Z }.

Record ReplMetadataRecord := mkReplMetadataRecord {
  md_object_key : string;
  md_version : Z;
  md_originating_time : Z;
  md_originating_dsa : bytes;
  md_originating_usn : Z;
  md_local_usn : Z;
}.

Record ReplCursorRecord := mkReplCursorRecord { rc_dsa : string; rc_high_usn : Z; rc_last_sync : Z }.

#[export] Instance AdPrincipalRecord_eq_dec : EqDecision AdPrincipalRecord.
Proof. solve_decision. Defined.
#[export] Instance StoredLink_eq_dec : EqDecision StoredLink.
Proof. solve_decision. Defined.
#[export] Instance ReplStamp_eq_dec : EqDecision ReplStamp.
Proof. solve_decision. Defined.

(** ** Conflict resolution *)

(** The order on [(version, originating_time, originating_dsa)]. *)
Definition stamp_cmp (a b : ReplStamp) : comparison :=
  match version a ?= version b with
  | Eq => match originating_time a ?= originating_time b with
          | Eq => bytes_cmp (originating_dsa a) (originating_dsa b)
          | c => c
          end
  | c => c
  end.

Definition wins_over (a b : ReplStamp) : bool := match stamp_cmp a b with Gt => true | _ => false end.

(** ** Keys and identifiers *)

Definition to_uuid16 (b : bytes) : bytes := take 16 b ++ replicate (16 - length b) 0.

Definition dsa_hex (dsa : bytes) : string := hex_of dsa.

(** [s.as_bytes().chunks(2)] *)
Fixpoint chunks2 (s : string) : list string :=
  match s with
  | EmptyString => []
  | String a EmptyString => [String a EmptyString]
  | String a (String b s') => String a (String b EmptyString) :: chunks2 s'
  end.

Definition dsa_from_hex (s : string) : bytes :=
  to_uuid16 (map (fun c => unwrap_or 0 (from_str_radix16 c)) (take 16 (chunks2 s))).

(** The key of the stamp of a principal's secret. *)
Definition secret_key (sam : string) : string := sam +:+ "#unicodePwd".

(** ** The store *)

Record Store (TP TG TM TC TD TS TR : Type) := mkStore {
  ad_principal : TP;
  ad_group : TG;
  repl_metadata : TM;
  repl_cursor : TC;
  domain_sid_state : TD;
  dsa_state : TS;
  rid_pool : TR;
}.
Arguments mkStore {TP TG TM TC TD TS TR} _ _ _ _ _ _ _.
Arguments ad_principal {TP TG TM TC TD TS TR} _.
Arguments ad_group {TP TG TM TC TD TS TR} _.
Arguments repl_metadata {TP TG TM TC TD TS TR} _.
Arguments repl_cursor {TP TG TM TC TD TS TR} _.
Arguments domain_sid_state {TP TG TM TC TD TS TR} _.
Arguments dsa_state {TP TG TM TC TD TS TR} _.
Arguments rid_pool {TP TG TM TC TD TS TR} _.

(** The stamp fields of a metadata record, and back. *)
Definition meta_of (key : string) (st : ReplStamp) : ReplMetadataRecord :=
  mkReplMetadataRecord key (version st) (originating_time st) (originating_dsa st) (originating_usn st) (local_usn st).

Definition stamp_of (m : ReplMetadataRecord) : ReplStamp :=
  mkReplStamp (md_version m) (md_originating_time m) (to_uuid16 (md_originating_dsa m)) (md_originating_usn m)
    (md_local_usn m).

(** [ReplStamp { local_usn, ..remote.clone() }] *)
Definition with_local_usn (usn : Z) (st : ReplStamp) : ReplStamp :=
  mkReplStamp (version st) (originating_time st) (originating_dsa st) (originating_usn st) usn.

(** The links of a group as a map from the member, and what an incoming link does to it. *)
Definition link_stamp (l : StoredLink) : ReplStamp :=
  mkReplStamp (sl_version l) (sl_originating_time l) (to_uuid16 (sl_originating_dsa l)) (sl_originating_usn l) 0.

Definition incoming_stamp (l : IncomingLink) : ReplStamp :=
  mkReplStamp (il_version l) (il_originating_time l) (il_originating_dsa l) (il_originating_usn l) 0.

Definition stored_link (l : IncomingLink) : StoredLink :=
  mkStoredLink (il_member_sid l) (il_present l) (il_version l) (il_originating_dsa l) (il_originating_usn l)
    (il_originating_time l).

Definition by_member (links : list StoredLink) : gmap string StoredLink :=
  fold_left (fun m l => <[sl_member_sid l := l]> m) links ∅.

Definition merge_link (m : gmap string StoredLink) (inc : IncomingLink) : gmap string StoredLink :=
  let take := match m !! il_member_sid inc with
              | Some cur => wins_over (incoming_stamp inc) (link_stamp cur)
              | None => true
              end in
  if take then <[il_member_sid inc := stored_link inc]> m else m.

Definition sort_links (l : list StoredLink) : list StoredLink :=
  sort_by (fun a b => str_le (sl_member_sid a) (sl_member_sid b)) l.

Definition merge_links (existing : list StoredLink) (incoming : list IncomingLink) : list StoredLink :=
  sort_links (map snd (map_to_list (fold_left merge_link incoming (by_member existing)))).

(** The membership edit of [set_group_member_local]: the first link of the member
    is replaced, or a link is added. *)
Fixpoint put_link (link : StoredLink) (l : list StoredLink) : list StoredLink :=
  match l with
  | [] => [link]
  | x :: l' => if String.eqb (sl_member_sid x) (sl_member_sid link) then link :: l' else x :: put_link link l'
  end.

Definition find_link (member : string) (l : list StoredLink) : option StoredLink :=
  find (fun x => String.eqb (sl_member_sid x) member) l.

Definition into_group (r : AdGroupRecord) : AdGroup :=
  mkAdGroup (g_sam_account_name r) (g_rid r) (g_sid r)
    (map sl_member_sid (List.filter sl_present (g_member_links r))) (g_member_links r).

Lemma to_uuid16_id b : length b = 16%nat -> to_uuid16 b = b.
Proof. intros H. unfold to_uuid16. rewrite firstn_all2 by lia. rewrite H. apply app_nil_r. Qed.

Lemma to_uuid16_length b : length (to_uuid16 b) = 16%nat.
Proof. unfold to_uuid16. rewrite length_app, length_take, length_replicate. lia. Qed.

(** ** Last-writer-wins registers *)

(** What conflict resolution compares. *)
Definition precedence (st : ReplStamp) : Z * Z * bytes := (version st, originating_time st, originating_dsa st).

Definition prec_cmp : Z * Z * bytes -> Z * Z * bytes -> comparison :=
  pair_cmp (pair_cmp Z.compare Z.compare) bytes_cmp.

#[export] Instance prec_CmpLaws : CmpLaws prec_cmp := _.

Lemma wins_over_clt a b : wins_over a b = clt prec_cmp (precedence b) (precedence a).
Proof.
  unfold clt. rewrite (cmp_opp (cmp := prec_cmp) (precedence a) (precedence b)).
  unfold wins_over, stamp_cmp, prec_cmp, pair_cmp, precedence. simpl.
  destruct (version a ?= version b), (originating_time a ?= originating_time b); simpl; try done.
  by destruct (bytes_cmp _ _).
Qed.

Section register.
Context {X : Type}.

(** A value and its stamp; the first write always lands. *)
Definition pick (cur : option (ReplStamp * X)) (inc : ReplStamp * X) : option (ReplStamp * X) :=
  match cur with
  | Some (st, x) => if wins_over inc.1 st then Some inc else cur
  | None => Some inc
  end.

Definition contents (cur : option (ReplStamp * X)) (l : list (ReplStamp * X)) : list (ReplStamp * X) :=
  option_list cur ++ l.

(** The register ends up with one of the writes that no other wins over. *)
Lemma fold_pick_max l : forall cur, contents cur l <> [] ->
  exists w, fold_left pick l cur = Some w /\ In w (contents cur l) /\
    forall i, In i (contents cur l) -> wins_over i.1 w.1 = false.
Proof.
  induction l as [|i l IH]; intros cur Hne.
  - destruct cur as [w|]; [|done]. exists w. split; [done|]. split; [by left|].
    intros i [->|[]]. by rewrite wins_over_clt, (clt_irrefl prec_cmp).
  - destruct (IH (pick cur i)) as (w & Ew & Hin & Hmax).
    { unfold contents, pick. destruct cur as [[st x]|]; [destruct (wins_over _ _)|]; done. }
    exists w. split; [exact Ew|]. unfold contents, pick in *. destruct cur as [[st x]|]; simpl in *; [|by split].
    destruct (wins_over i.1 st) eqn:Ei; simpl in *; (split; [naive_solver|]); intros j [<-|[<-|Hj]].
    + pose proof (Hmax i (or_introl eq_refl)) as Hi. rewrite wins_over_clt in *. simpl.
      apply (clt_not_cle prec_cmp) in Hi. apply (clt_not_cle prec_cmp). eapply (cle_trans prec_cmp); [|exact Hi].
      apply (cle_cases prec_cmp). by left.
    + by apply Hmax; left.
    + by apply Hmax; right.
    + by apply (Hmax (st, x)); left.
    + pose proof (Hmax (st, x) (or_introl eq_refl)) as Hi. rewrite wins_over_clt in *. simpl in *.
      apply (clt_not_cle prec_cmp) in Hi, Ei. apply (clt_not_cle prec_cmp). by eapply (cle_trans prec_cmp).
    + by apply Hmax; right.
Qed.

(** A stamp names one write. *)
Definition coherent (l : list (ReplStamp * X)) : Prop :=
  forall i j, In i l -> In j l -> precedence i.1 = precedence j.1 -> i = j.

(** Registers that saw the same writes agree, whatever the order and the
    repetitions. *)
Lemma fold_pick_agree l1 l2 c1 c2 :
  (forall i, In i (contents c1 l1) <-> In i (contents c2 l2)) -> coherent (contents c1 l1) ->
  fold_left pick l1 c1 = fold_left pick l2 c2.
Proof.
  intros Hsame Hco.
  destruct (contents c1 l1) as [|a r] eqn:E1.
  { assert (contents c2 l2 = []) as E2.
    { destruct (contents c2 l2) as [|b r]; [done|]. exfalso. apply (Hsame b). by left. }
    unfold contents in *. destruct c1, l1, c2, l2; done. }
  destruct (fold_pick_max l1 c1) as (w1 & -> & Hin1 & Hmax1); [by rewrite E1|]. rewrite E1 in *.
  destruct (fold_pick_max l2 c2) as (w2 & -> & Hin2 & Hmax2).
  { intros E2. rewrite E2 in Hsame. apply (Hsame a). by left. }
  f_equal. apply Hco; [done|by apply Hsame|].
  pose proof (Hmax1 w2 (proj2 (Hsame _) Hin2)) as H12. pose proof (Hmax2 w1 (proj1 (Hsame _) Hin1)) as H21.
  rewrite wins_over_clt in H12, H21. apply (clt_not_cle prec_cmp) in H12, H21.
  apply (cle_cases prec_cmp) in H12 as [H|<-]; [|done]. exfalso.
  pose proof (clt_cle_trans prec_cmp _ _ _ H H21) as Hirr. by rewrite (clt_irrefl prec_cmp) in Hirr.
Qed.
End register.

(** ** Membership links *)

(** Each link is filed under its member. *)
Definition filed (m : gmap string StoredLink) : Prop := forall k l, m !! k = Some l -> sl_member_sid l = k.

Lemma filed_insert m l : filed m -> filed (<[sl_member_sid l := l]> m).
Proof. intros H k l'. rewrite lookup_insert_Some. intros [[<- <-]|[_ E]]; [done|by apply H]. Qed.

Lemma fold_insert_filed links : forall m, filed m -> filed (fold_left (fun m l => <[sl_member_sid l := l]> m) links m).
Proof. induction links as [|l links IH]; simpl; [done|]. intros m H. by apply IH, filed_insert. Qed.

Lemma by_member_filed links : filed (by_member links).
Proof. by apply fold_insert_filed. Qed.

Lemma merge_link_filed m inc : filed m -> filed (merge_link m inc).
Proof.
  intros H. pose proof (filed_insert m (stored_link inc) H) as Hi. unfold merge_link.
  destruct (m !! il_member_sid inc); [destruct (wins_over _ _)|]; done.
Qed.

Lemma fold_merge_filed incs : forall m, filed m -> filed (fold_left merge_link incs m).
Proof. induction incs as [|i incs IH]; simpl; [done|]. intros m H. by apply IH, merge_link_filed. Qed.

(** A list with one link per member is filed as it is, in any order. *)
Lemma fold_insert_lookup links : forall (m : gmap string StoredLink) k, NoDup (map sl_member_sid links) ->
  fold_left (fun m l => <[sl_member_sid l := l]> m) links m !! k =
  match find (fun l => String.eqb (sl_member_sid l) k) links with Some l => Some l | None => m !! k end.
Proof.
  induction links as [|l links IH]; intros m k; simpl; [done|]. intros [Hn Hd]%NoDup_cons. rewrite IH by done.
  destruct (String.eqb_spec (sl_member_sid l) k) as [<-|Hne].
  - destruct (find _ links) as [l'|] eqn:E; [|apply lookup_insert_eq]. exfalso. apply find_some in E as [Hin Heq].
    apply String.eqb_eq in Heq. apply Hn. rewrite <- Heq. by apply list_elem_of_In, in_map.
  - by rewrite lookup_insert_ne.
Qed.

Lemma filed_members (m : gmap string StoredLink) : filed m -> map sl_member_sid (map snd (map_to_list m)) = map fst (map_to_list m).
Proof.
  intros H. rewrite map_map. apply map_ext_in. intros [k l] Hin%list_elem_of_In%elem_of_map_to_list. by apply H.
Qed.

Lemma by_member_values m : filed m -> by_member (sort_links (map snd (map_to_list m))) = m.
Proof.
  intros H. apply map_eq. intros k. unfold by_member.
  assert (sort_links (map snd (map_to_list m)) ≡ₚ map snd (map_to_list m)) as Hp by apply sort_by_perm.
  rewrite fold_insert_lookup.
  2: { rewrite Hp, filed_members by done. apply NoDup_fst_map_to_list. }
  destruct (find _ _) as [l|] eqn:E.
  - apply find_some in E as [Hin Heq%String.eqb_eq]. rewrite Hp in Hin.
    apply in_map_iff in Hin as ([k' l'] & <- & Hin%list_elem_of_In%elem_of_map_to_list). simpl in *.
    pose proof (H _ _ Hin). congruence.
  - rewrite lookup_empty. destruct (m !! k) as [l|] eqn:Ek; [|done]. exfalso.
    assert (In l (sort_links (map snd (map_to_list m)))) as Hn%(find_none _ _ E).
    2: { by rewrite (H _ _ Ek), String.eqb_refl in Hn. }
    rewrite Hp. apply in_map_iff. exists (k, l). split; [done|]. by apply list_elem_of_In, elem_of_map_to_list.
Qed.

Lemma by_member_merge existing incoming :
  by_member (merge_links existing incoming) = fold_left merge_link incoming (by_member existing).
Proof. apply by_member_values, fold_merge_filed, by_member_filed. Qed.

(** The state of one member's link, with its stamp; an incoming link is a write to it. *)
Definition link_register (m : gmap string StoredLink) (k : string) : option (ReplStamp * StoredLink) :=
  (fun l => (link_stamp l, l)) <$> m !! k.

Definition link_writes (k : string) (incs : list IncomingLink) : list (ReplStamp * StoredLink) :=
  map (fun i => (incoming_stamp i, stored_link i)) (List.filter (fun i => String.eqb (il_member_sid i) k) incs).

Definition link_ok (i : IncomingLink) : Prop := length (il_originating_dsa i) = 16%nat.

Lemma link_stamp_stored i : link_ok i -> link_stamp (stored_link i) = incoming_stamp i.
Proof. intros H. unfold link_stamp, stored_link, incoming_stamp. simpl. by rewrite to_uuid16_id. Qed.

Lemma merge_link_register m i k : link_ok i ->
  link_register (merge_link m i) k =
  if String.eqb (il_member_sid i) k then pick (link_register m k) (incoming_stamp i, stored_link i) else link_register m k.
Proof.
  intros Hi. unfold merge_link, link_register. destruct (String.eqb_spec (il_member_sid i) k) as [<-|Hne].
  - destruct (m !! il_member_sid i) as [cur|] eqn:E; simpl.
    + destruct (wins_over _ _); [|by rewrite E]. rewrite lookup_insert_eq. simpl. by rewrite link_stamp_stored.
    + rewrite lookup_insert_eq. simpl. by rewrite link_stamp_stored.
  - destruct (m !! il_member_sid i); [destruct (wins_over _ _)|]; by rewrite ?lookup_insert_ne.
Qed.

Lemma fold_merge_register incs k : forall m, Forall link_ok incs ->
  link_register (fold_left merge_link incs m) k = fold_left pick (link_writes k incs) (link_register m k).
Proof.
  induction incs as [|i incs IH]; intros m; simpl; [done|]. intros [Hi Hincs]%Forall_cons.
  rewrite IH, merge_link_register by done. unfold link_writes. simpl. by destruct (String.eqb _ k).
Qed.

Lemma link_register_ext m1 m2 : (forall k, link_register m1 k = link_register m2 k) -> m1 = m2.
Proof.
  intros H. apply map_eq. intros k. specialize (H k). unfold link_register in H.
  destruct (m1 !! k), (m2 !! k); simpl in H; congruence.
Qed.

(** ** The hexadecimal keys of the cursors *)

Lemma hex_digit_String d : exists c, hex_digit d = String c EmptyString.
Proof. by eexists. Qed.

Lemma chunks2_hex b : chunks2 (hex_of b) = map (fun x => hex_digit (x / 16) +:+ hex_digit (x mod 16)) b.
Proof.
  induction b as [|x b IH]; [done|]. cbn [hex_of map].
  destruct (hex_digit_String (x / 16)) as [c ->]. destruct (hex_digit_String (x mod 16)) as [c' ->]. cbn. by rewrite IH.
Qed.

Lemma from_str_radix16_hex x : 0 <= x < 256 -> from_str_radix16 (hex_digit (x / 16) +:+ hex_digit (x mod 16)) = Some x.
Proof.
  intros Hx. assert (x ∈ seqZ 0 256) as Hin by (apply elem_of_seqZ; lia). revert Hin. clear Hx.
  assert (forallb (fun x => bool_decide (from_str_radix16 (hex_digit (x / 16) +:+ hex_digit (x mod 16)) = Some x)) (seqZ 0 256) = true)
    as H by (vm_compute; reflexivity).
  intros Hin%list_elem_of_In. rewrite forallb_forall in H. by apply H, bool_decide_eq_true in Hin.
Qed.

(** A DSA identifier reads back from its key. *)
Lemma dsa_hex_round_trip d : length d = 16%nat -> bytes_ok d -> dsa_from_hex (dsa_hex d) = d.
Proof.
  intros Hl Hb. unfold dsa_from_hex, dsa_hex. rewrite chunks2_hex, firstn_all2 by (rewrite length_map; lia).
  rewrite map_map. assert (map (fun x => unwrap_or 0 (from_str_radix16 (hex_digit (x / 16) +:+ hex_digit (x mod 16)))) d = d)
    as ->; [|by apply to_uuid16_id].
  rewrite <- (map_id d) at 2. apply map_ext_in. intros x Hin. unfold bytes_ok in Hb. rewrite Forall_forall in Hb.
  rewrite from_str_radix16_hex; [done|]. by apply Hb, list_elem_of_In.
Qed.

Section repository.
Context {TP TG TM TC TD TS TR : Type}.
Context {PT : Table TP AdPrincipalRecord} {GT : Table TG AdGroupRecord} {MT : Table TM ReplMetadataRecord}
        {CT : Table TC ReplCursorRecord} {DT : Table TD DomainSidRecord}
        {ST : Single TS DsaStateRecord} {RT : Single TR RidPoolRecord}.
(** [Md4::digest], and [generate_key_from_password] of the AES256 suite, with the
    text of its error. *)
Context (md4 : bytes -> bytes) (generate_key_from_password : bytes -> bytes -> string + bytes).
(** SurrealQL's [string::lowercase]. *)
Context (lowercase : string -> string).

Abbreviation store := (Store TP TG TM TC TD TS TR).
Abbreviation Db := (M store).

Definition put_principals (t : TP) (s : store) : store :=
  mkStore t (ad_group s) (repl_metadata s) (repl_cursor s) (domain_sid_state s) (dsa_state s) (rid_pool s).
Definition put_groups (t : TG) (s : store) : store :=
  mkStore (ad_principal s) t (repl_metadata s) (repl_cursor s) (domain_sid_state s) (dsa_state s) (rid_pool s).
Definition put_metadata (t : TM) (s : store) : store :=
  mkStore (ad_principal s) (ad_group s) t (repl_cursor s) (domain_sid_state s) (dsa_state s) (rid_pool s).
Definition put_cursors (t : TC) (s : store) : store :=
  mkStore (ad_principal s) (ad_group s) (repl_metadata s) t (domain_sid_state s) (dsa_state s) (rid_pool s).
Definition put_domain_sid (t : TD) (s : store) : store :=
  mkStore (ad_principal s) (ad_group s) (repl_metadata s) (repl_cursor s) t (dsa_state s) (rid_pool s).
Definition put_dsa (t : TS) (s : store) : store :=
  mkStore (ad_principal s) (ad_group s) (repl_metadata s) (repl_cursor s) (domain_sid_state s) t (rid_pool s).
Definition put_rid_pool (t : TR) (s : store) : store :=
  mkStore (ad_principal s) (ad_group s) (repl_metadata s) (repl_cursor s) (domain_sid_state s) (dsa_state s) t.

Definition on_principals {B} (q : TP -> DbResult B * TP) : Db B := on_table ad_principal put_principals q.
Definition on_groups {B} (q : TG -> DbResult B * TG) : Db B := on_table ad_group put_groups q.
Definition on_metadata {B} (q : TM -> DbResult B * TM) : Db B := on_table repl_metadata put_metadata q.
Definition on_cursors {B} (q : TC -> DbResult B * TC) : Db B := on_table repl_cursor put_cursors q.
Definition on_domain_sid {B} (q : TD -> DbResult B * TD) : Db B := on_table domain_sid_state put_domain_sid q.
Definition on_dsa {B} (q : TS -> DbResult B * TS) : Db B := on_table dsa_state put_dsa q.
Definition on_rid_pool {B} (q : TR -> DbResult B * TR) : Db B := on_table rid_pool put_rid_pool q.

(** *** [replication.rs] *)

Definition read_dsa_state : Db (option DsaStateRecord) := read_from dsa_state read_single.

Definition dsa_invocation_id (uuid : bytes) : Db bytes :=
  do! state <- read_dsa_state;
  match state with
  | Some state => mret (to_uuid16 (invocation_id state))
  | None =>
      do! _ <- ignore (on_dsa (create_single (mkDsaStateRecord uuid 0)));
      do! state <- read_dsa_state;
      match state with
      | Some state => mret (to_uuid16 (invocation_id state))
      | None => mfail (Constraint "dsa_state not created")
      end
  end.

(** [SET highest_usn = highest_usn + 1]; SurrealDB refuses an overflow. *)
Definition bump_usn (st : DsaStateRecord) : DsaStateRecord :=
  mkDsaStateRecord (invocation_id st) (highest_usn_of st + 1).

Definition allocate_usn (uuid : bytes) : Db Z :=
  do! _ <- dsa_invocation_id uuid;
  do! after <- on_dsa (update_single bump_usn);
  match after with
  | Some (_, st) => mret (highest_usn_of st)
  | None => mfail (Constraint "dsa_state missing on USN allocation")
  end.

Definition highest_usn : Db Z :=
  do! state <- read_dsa_state;
  mret (match state with Some st => highest_usn_of st | None => 0 end).

Definition read_repl_metadata (object_key : string) : Db (option ReplMetadataRecord) :=
  read_from repl_metadata (select_one (has_key md_object_key object_key)).

Definition repl_stamp (object_key : string) : Db (option ReplStamp) :=
  do! m <- read_repl_metadata object_key;
  mret (stamp_of <$> m).

Definition write_repl_metadata (object_key : string) (stamp : ReplStamp) : Db unit :=
  do! _ <- on_metadata (delete_where (has_key md_object_key object_key));
  on_metadata (create_row (meta_of object_key stamp)).

Definition next_local_stamp (uuid : bytes) (now : Z) (object_key : string) : Db ReplStamp :=
  do! dsa <- dsa_invocation_id uuid;
  do! usn <- allocate_usn uuid;
  do! prev <- read_repl_metadata object_key;
  let version := match prev with Some m => u32 (md_version m + 1) | None => 1 end in
  mret (mkReplStamp version now dsa usn usn).

Definition stamp_local_change (uuid : bytes) (now : Z) (object_key : string) : Db ReplStamp :=
  do! stamp <- next_local_stamp uuid now object_key;
  do! _ <- write_repl_metadata object_key stamp;
  mret stamp.

Definition write_principal_stamped (principal : AdPrincipalRecord) (stamp : ReplStamp) : Db unit :=
  let sam := sam_account_name principal in
  atomically
    (do! _ <- on_principals (delete_where (has_key sam_account_name sam));
     do! _ <- on_principals (create_row principal);
     do! _ <- on_metadata (delete_where (has_key md_object_key sam));
     on_metadata (create_row (meta_of sam stamp))).

Definition write_group_stamped (group : AdGroupRecord) (object_key : string) (stamp : ReplStamp) : Db unit :=
  atomically
    (do! _ <- on_groups (delete_where (has_key g_sid (g_sid group)));
     do! _ <- on_groups (create_row group);
     do! _ <- on_metadata (delete_where (has_key md_object_key object_key));
     on_metadata (create_row (meta_of object_key stamp))).

Definition apply_replicated_principal (uuid : bytes) (sam : string) (r : Z) (nt kerb : bytes)
    (remote_stamp : ReplStamp) : Db unit :=
  do! local_usn <- allocate_usn uuid;
  write_principal_stamped (mkAdPrincipalRecord sam r nt kerb false) (with_local_usn local_usn remote_stamp).

Definition read_principal (sam : string) : Db (option AdPrincipalRecord) :=
  read_from ad_principal (select_one (has_key sam_account_name sam)).

Definition write_principal_merged (principal : AdPrincipalRecord) (object_stamp : ReplStamp) (skey : string)
    (secret_stamp : ReplStamp) : Db unit :=
  let sam := sam_account_name principal in
  atomically
    (do! _ <- on_principals (delete_where (has_key sam_account_name sam));
     do! _ <- on_principals (create_row principal);
     do! _ <- on_metadata (delete_where (has_key md_object_key sam));
     do! _ <- on_metadata (create_row (meta_of sam object_stamp));
     do! _ <- on_metadata (delete_where (has_key md_object_key skey));
     on_metadata (create_row (meta_of skey secret_stamp))).

(** [cur.as_ref().is_none_or(|c| stamp.wins_over(c))] *)
Definition wins_over_current (stamp : ReplStamp) (cur : option ReplStamp) : bool :=
  match cur with Some c => wins_over stamp c | None => true end.

(** The stamp to keep: the current one ([expect]ed to be there) unless the incoming one wins. *)
Definition winner (wins : bool) (usn : Z) (stamp : ReplStamp) (cur : option ReplStamp) : ReplStamp :=
  match cur with
  | Some c => if wins then with_local_usn usn stamp else c
  | None => with_local_usn usn stamp
  end.

(** The record to write. *)
Definition merged_principal (object_wins secret_wins : bool) (sam : string) (r : Z) (nt kerb : bytes) (dis : bool)
    (current : option AdPrincipalRecord) : AdPrincipalRecord :=
  mkAdPrincipalRecord sam
    (if object_wins then r else match current with Some c => rid c | None => r end)
    (if secret_wins then nt else match current with Some c => nt_hash_of c | None => nt end)
    (if secret_wins then kerb else match current with Some c => kerberos_key c | None => kerb end)
    (if object_wins then dis else match current with Some c => disabled c | None => false end).

Definition apply_replicated_principal_merged (uuid : bytes) (sam : string) (r : Z) (nt kerb : bytes) (dis : bool)
    (object_stamp secret_stamp : ReplStamp) : Db bool :=
  do! current <- read_principal sam;
  do! cur_obj <- repl_stamp sam;
  do! cur_secret <- repl_stamp (secret_key sam);
  let object_wins := wins_over_current object_stamp cur_obj in
  let secret_wins := wins_over_current secret_stamp cur_secret in
  if negb object_wins && negb secret_wins then mret false
  else
    do! local_usn <- allocate_usn uuid;
    do! _ <- write_principal_merged (merged_principal object_wins secret_wins sam r nt kerb dis current)
               (winner object_wins local_usn object_stamp cur_obj) (secret_key sam)
               (winner secret_wins local_usn secret_stamp cur_secret);
    mret true.

Definition read_cursor (dsa : bytes) : Db (option ReplCursorRecord) :=
  read_from repl_cursor (select_one (has_key rc_dsa (dsa_hex dsa))).

Definition record_cursor (now : Z) (dsa : bytes) (high_usn : Z) : Db unit :=
  do! existing <- read_cursor dsa;
  if match existing with Some c => high_usn <=? rc_high_usn c | None => false end then mret ()
  else
    let key := dsa_hex dsa in
    do! _ <- on_cursors (delete_where (has_key rc_dsa key));
    on_cursors (create_row (mkReplCursorRecord key high_usn now)).

Definition up_to_date_vector (uuid : bytes) : Db (list UtdvCursor) :=
  do! own <- dsa_invocation_id uuid;
  do! own_high <- highest_usn;
  do! records <- read_from repl_cursor (select (fun _ => true) unordered None);
  let out := map (fun kr => mkUtdvCursor (dsa_from_hex (rc_dsa kr.2)) (rc_high_usn kr.2) (rc_last_sync kr.2)) records in
  mret (List.filter (fun c => negb (bool_decide (c_dsa c = own))) out ++ [mkUtdvCursor own own_high 0]).

(** *** [ad.rs] *)

Definition nt_hash (password : string) : bytes :=
  md4 (utf16le password).

Abbreviation derive_aes256_key := (derive_aes256_key generate_key_from_password).

(** SurrealDB adds as 64-bit integers; a value past [u32] does not read back. *)
Definition reserve_rid_block (first block : Z) : Db Z :=
  do! _ <- ignore (on_rid_pool (create_single (mkRidPoolRecord first)));
  do! before <- on_rid_pool (update_single (fun p => mkRidPoolRecord (next p + block)));
  match before with
  | Some (p, _) => if next p <=? U32_MAX then mret (next p) else mfail Surreal
  | None => mret first
  end.

(** The given key, or the one derived from the password. *)
Definition long_term_key (sam password realm : string) (kerb : option bytes) : Db bytes :=
  match kerb with
  | Some k => mret k
  | None =>
      match derive_aes256_key password (default_salt realm [sam]) with
      | inl e => mfail (Constraint ("Kerberos key derivation failed: " +:+ e))
      | inr k => mret k
      end
  end.

Definition upsert_local_principal (uuid : bytes) (now : Z) (sam : string) (r : Z) (password : string) (nt : bytes)
    (kerb : option bytes) (realm : string) : Db ReplStamp :=
  do! k <- long_term_key sam password realm kerb;
  do! stamp <- next_local_stamp uuid now sam;
  do! _ <- write_principal_stamped (mkAdPrincipalRecord sam r nt k false) stamp;
  mret stamp.

Definition create_ad_principal (uuid : bytes) (now : Z) (sam : string) (r : Z) (password realm : string) : Db unit :=
  do! _ <- upsert_local_principal uuid now sam r password (nt_hash password) None realm;
  mret ().

Definition upsert_ad_principal (uuid : bytes) (now : Z) (sam : string) (r : Z) (password realm : string) : Db unit :=
  do! _ <- upsert_local_principal uuid now sam r password (nt_hash password) None realm;
  mret ().

Definition create_disabled_ad_principal (uuid : bytes) (now : Z) (sam : string) (r : Z) : Db unit :=
  do! stamp <- next_local_stamp uuid now sam;
  write_principal_stamped (mkAdPrincipalRecord sam r (replicate 16 0) [] true) stamp.

Definition upsert_ad_principal_with_hash (sam : string) (r : Z) (password : string) (nt : bytes) (kerb : option bytes)
    (realm : string) : Db unit :=
  do! k <- long_term_key sam password realm kerb;
  do! _ <- on_principals (delete_where (has_key sam_account_name sam));
  on_principals (create_row (mkAdPrincipalRecord sam r nt k false)).

Definition list_ad_principals : Db (list AdPrincipalRecord) :=
  do! l <- read_from ad_principal (select (fun _ => true) unordered None);
  mret (map snd l).

Definition get_ad_principal (sam : string) : Db (option AdPrincipalRecord) :=
  read_from ad_principal (select_one (fun r => String.eqb (lowercase (sam_account_name r)) (lowercase sam))).

(** [.take(0).unwrap_or_default()]: a failed statement reads as no record, a
    failed request ([at_take = false]) is an error. *)
Definition take_or_default {A} (at_take : bool) (m : Db (option A)) : Db (option A) :=
  fun s => match m s with
           | (Err e, s') => if at_take then (Ok None, s') else (Err e, s')
           | r => r
           end.

Definition delete_replicated_principal (at_take : bool) (r : Z) : Db (option string) :=
  do! removed <- take_or_default at_take (read_from ad_principal (select_one (fun p => rid p =? r)));
  match removed with
  | None => mret None
  | Some record =>
      let sam := sam_account_name record in
      do! _ <- atomically
        (do! _ <- on_principals (delete_where (fun p => rid p =? r));
         on_metadata (delete_where (fun m => has_key md_object_key sam m || has_key md_object_key (secret_key sam) m)));
      mret (Some sam)
  end.

Definition delete_replicated_group (at_take : bool) (sid : string) : Db (option string) :=
  do! removed <- take_or_default at_take (read_from ad_group (select_one (has_key g_sid sid)));
  match removed with
  | None => mret None
  | Some record =>
      do! _ <- atomically
        (do! _ <- on_groups (delete_where (has_key g_sid sid));
         on_metadata (delete_where (has_key md_object_key sid)));
      mret (Some (g_sam_account_name record))
  end.

Fixpoint local_links (uuid : bytes) (now : Z) (dsa : bytes) (members : list string) : Db (list StoredLink) :=
  match members with
  | [] => mret []
  | m :: rest =>
      do! usn <- allocate_usn uuid;
      do! links <- local_links uuid now dsa rest;
      mret (mkStoredLink m true 1 dsa usn now :: links)
  end.

Definition upsert_ad_group (uuid : bytes) (now : Z) (sam : string) (r : Z) (sid : string) (members : list string) : Db unit :=
  do! dsa <- dsa_invocation_id uuid;
  do! links <- local_links uuid now dsa members;
  do! _ <- on_groups (delete_where (has_key g_sid sid));
  on_groups (create_row (mkAdGroupRecord sam r sid links)).

Definition read_group (sid : string) : Db (option AdGroupRecord) :=
  read_from ad_group (select_one (has_key g_sid sid)).

Definition read_group_links (sid : string) : Db (list StoredLink) :=
  do! rec <- read_group sid;
  mret (match rec with Some r => g_member_links r | None => [] end).

Definition apply_replicated_group (uuid : bytes) (sam : string) (r : Z) (sid : string) (incoming : list IncomingLink)
    (remote_stamp : ReplStamp) : Db unit :=
  do! existing <- read_group_links sid;
  let member_links := merge_links existing incoming in
  do! cur <- repl_stamp sid;
  do! stamp <- match cur with
               | Some cur =>
                   if negb (wins_over remote_stamp cur) then mret cur
                   else do! usn <- allocate_usn uuid; mret (with_local_usn usn remote_stamp)
               | None => do! usn <- allocate_usn uuid; mret (with_local_usn usn remote_stamp)
               end;
  write_group_stamped (mkAdGroupRecord sam r sid member_links) sid stamp.

Definition set_group_member_local (uuid : bytes) (now : Z) (sid member : string) (present : bool) : Db unit :=
  do! rec <- read_group sid;
  match rec with
  | None => mfail NotFound
  | Some rec =>
      do! dsa <- dsa_invocation_id uuid;
      do! usn <- allocate_usn uuid;
      let links := g_member_links rec in
      let version := match find_link member links with Some l => u32 (sl_version l + 1) | None => 1 end in
      let links := sort_links (put_link (mkStoredLink member present version dsa usn now) links) in
      do! obj <- repl_stamp sid;
      let obj_stamp := unwrap_or (mkReplStamp 1 now dsa usn usn) obj in
      write_group_stamped (mkAdGroupRecord (g_sam_account_name rec) (g_rid rec) (g_sid rec) links) sid obj_stamp
  end.

Definition list_ad_groups : Db (list AdGroup) :=
  do! l <- read_from ad_group (select (fun _ => true) unordered None);
  mret (map (fun kr => into_group kr.2) l).

Definition get_ad_group (sam : string) : Db (option AdGroup) :=
  do! g <- read_from ad_group (select_one (fun r => String.eqb (lowercase (g_sam_account_name r)) (lowercase sam)));
  mret (into_group <$> g).

Definition get_domain_sid : Db (option (list Z)) :=
  do! r <- read_from domain_sid_state (select_one (fun _ => true));
  mret (subauth <$> r).

Definition set_domain_sid (sub : list Z) (actor : string) : Db unit :=
  do! existing <- get_domain_sid;
  do! _ <- match existing with
           | Some _ => on_domain_sid (delete_where (fun _ => true))
           | None => mret ()
           end;
  on_domain_sid (create_row (mkDomainSidRecord sub actor)).

Definition ensure_domain_sid (sub : list Z) (actor : string) : Db (list Z) :=
  do! existing <- get_domain_sid;
  match existing with
  | Some sid => mret sid
  | None => do! _ <- set_domain_sid sub actor; mret sub
  end.

(** ** The store as maps *)

Record view := mkView {
  principals : gmap string AdPrincipalRecord;
  groups : gmap string AdGroupRecord;
  stamps : gmap string ReplMetadataRecord;
  cursors : gmap string ReplCursorRecord;
  dsa : option DsaStateRecord;
}.

Definition abs (s : store) (v : view) : Prop :=
  keyed sam_account_name (ad_principal s) (principals v) /\
  keyed g_sid (ad_group s) (groups v) /\
  keyed md_object_key (repl_metadata s) (stamps v) /\
  keyed rc_dsa (repl_cursor s) (cursors v) /\
  single (dsa_state s) = dsa v.

Definition with_principal (p : AdPrincipalRecord) (v : view) : view :=
  mkView (<[sam_account_name p := p]> (principals v)) (groups v) (stamps v) (cursors v) (dsa v).
Definition with_group (g : AdGroupRecord) (v : view) : view :=
  mkView (principals v) (<[g_sid g := g]> (groups v)) (stamps v) (cursors v) (dsa v).
Definition with_stamp (k : string) (st : ReplStamp) (v : view) : view :=
  mkView (principals v) (groups v) (<[k := meta_of k st]> (stamps v)) (cursors v) (dsa v).
Definition with_cursor (c : ReplCursorRecord) (v : view) : view :=
  mkView (principals v) (groups v) (stamps v) (<[rc_dsa c := c]> (cursors v)) (dsa v).
Definition with_dsa (o : option DsaStateRecord) (v : view) : view :=
  mkView (principals v) (groups v) (stamps v) (cursors v) o.

(** The stamp of a key, and the DSA's state, created on first use. *)
Definition stamp_at (v : view) (k : string) : option ReplStamp := stamp_of <$> stamps v !! k.
Definition dsa_or (uuid : bytes) (v : view) : DsaStateRecord := unwrap_or (mkDsaStateRecord uuid 0) (dsa v).
Definition own_dsa (uuid : bytes) (v : view) : bytes := to_uuid16 (invocation_id (dsa_or uuid v)).
Definition next_usn (uuid : bytes) (v : view) : Z := highest_usn_of (dsa_or uuid v) + 1.
Definition used_usn (uuid : bytes) (v : view) : view := with_dsa (Some (bump_usn (dsa_or uuid v))) v.

(** The DSA's state moves forward: its identity stays, its USN does not drop. *)
Definition usn_le (o o' : option DsaStateRecord) : Prop :=
  match o, o' with
  | Some d, Some d' => invocation_id d' = invocation_id d /\ highest_usn_of d <= highest_usn_of d'
  | Some _, None => False
  | None, _ => True
  end.

(** Nothing but the DSA's state moved. *)
Definition only_dsa (v v' : view) : Prop := v' = with_dsa (dsa v') v /\ usn_le (dsa v) (dsa v').

(** A call that acts on the maps: it returns [a] and leads to [v'], or fails and
    changes nothing but the DSA's state. *)
Definition refines {A} (m : Db A) (v : view) (a : A) (v' : view) : Prop :=
  forall s, abs s v ->
    wp m (fun r s' => match r with
                      | Ok x => x = a /\ abs s' v'
                      | Err _ => exists v'', abs s' v'' /\ only_dsa v v''
                      end) s.

Lemma with_dsa_same v : with_dsa (dsa v) v = v.
Proof. by destruct v. Qed.

Lemma only_dsa_refl v : only_dsa v v.
Proof. split; [by rewrite with_dsa_same|]. destruct (dsa v) as [d|]; simpl; [split; [done|lia]|done]. Qed.

Lemma only_dsa_trans v1 v2 v3 : only_dsa v1 v2 -> only_dsa v2 v3 -> only_dsa v1 v3.
Proof.
  intros [E1 H1] [E2 H2]. split; [by rewrite E2, E1|]. clear E1 E2.
  destruct (dsa v1), (dsa v2), (dsa v3); simpl in *; try done. destruct H1, H2. split; [congruence|lia].
Qed.

Lemma only_dsa_minted uuid v : only_dsa v (with_dsa (Some (dsa_or uuid v)) v).
Proof. split; [done|]. unfold dsa_or. simpl. destruct (dsa v); simpl; [split; [done|lia]|done]. Qed.

Lemma only_dsa_used uuid v : only_dsa v (used_usn uuid v).
Proof. split; [done|]. unfold used_usn, dsa_or. simpl. destruct (dsa v); simpl; [split; [done|lia]|done]. Qed.

Lemma refines_ret {A} (a : A) v : refines (mret a) v a v.
Proof. by intros s Hs. Qed.

Lemma refines_bind {A B} (m : Db A) (k : A -> Db B) v a v1 b v2 :
  refines m v a v1 -> only_dsa v v1 -> refines (k a) v1 b v2 -> refines (mbind_ m k) v b v2.
Proof.
  intros Hm Hd Hk s Hs. apply wp_bind, (wp_mono _ _ _ _ (Hm s Hs)). intros [x|e] s1; [|done].
  intros [-> Hs1]. apply (wp_mono _ _ _ _ (Hk s1 Hs1)). intros [y|e] s2; [done|].
  intros (v'' & Ha & Ho). exists v''. split; [done|]. by eapply only_dsa_trans.
Qed.

(** A call whose result is not looked at further. *)
Lemma refines_map {A B} (m : Db A) (f : A -> B) v a v' :
  refines m v a v' -> refines (do! x <- m; mret (f x)) v (f a) v'.
Proof.
  intros Hm s Hs. apply wp_bind, (wp_mono _ _ _ _ (Hm s Hs)). intros [x|e] s1; [|done]. by intros [-> Hs1].
Qed.

Lemma read_dsa_state_refines v : refines read_dsa_state v (dsa v) v.
Proof.
  intros s Hs. apply wp_read_single; [destruct Hs as (H1 & H2 & H3 & H4 & H5); split; [done|by split_and!]|].
  intros e. exists v. split; [done|apply only_dsa_refl].
Qed.

Lemma abs_put_dsa s v t : abs s v -> abs (put_dsa t s) (with_dsa (single t) v).
Proof. intros (H1 & H2 & H3 & H4 & H5). done. Qed.

Lemma dsa_invocation_id_refines uuid v :
  refines (dsa_invocation_id uuid) v (own_dsa uuid v) (with_dsa (Some (dsa_or uuid v)) v).
Proof.
  intros s Hs. apply wp_bind, (wp_mono _ _ _ _ (read_dsa_state_refines v s Hs)).
  intros [x|e] s1; [|done]. intros [-> Hs1]. destruct (dsa v) as [d|] eqn:Ed.
  - apply wp_ret. unfold own_dsa, dsa_or. rewrite Ed. split; [done|]. simpl. by rewrite <- Ed, with_dsa_same.
  - apply wp_bind, wp_ignore, wp_create_single.
    + intros t _ Ht. apply (abs_put_dsa _ _ t) in Hs1. rewrite Ht in Hs1.
      apply wp_bind, wp_read_single; simpl; rewrite ?Ht.
      * unfold own_dsa, dsa_or. by rewrite Ed.
      * intros e. eexists. split; [exact Hs1|]. split; [done|]. by rewrite Ed.
    + intros e t Ht. assert (Hn : single (dsa_state s1) = None).
      { destruct Hs1 as (_ & _ & _ & _ & H). congruence. }
      apply (abs_put_dsa _ _ t) in Hs1. rewrite Ht, Hn in Hs1. rewrite <- Ed, with_dsa_same in Hs1.
      apply wp_bind, wp_read_single; simpl; rewrite ?Ht, ?Hn; [|intros e'];
        (exists v; split; [exact Hs1|apply only_dsa_refl]).
Qed.

Lemma allocate_usn_refines uuid v : refines (allocate_usn uuid) v (next_usn uuid v) (used_usn uuid v).
Proof.
  eapply refines_bind; [apply dsa_invocation_id_refines|apply only_dsa_minted|].
  intros s Hs. apply wp_bind, wp_update_single.
  - intros b t Hb Ht. destruct Hs as (H1 & H2 & H3 & H4 & H5). rewrite Hb in H5. injection H5 as ->.
    apply wp_ret. split; [done|]. split_and!; done.
  - intros t Hn. destruct Hs as (_ & _ & _ & _ & H5). rewrite Hn in H5. done.
  - intros e t Ht. eexists. split; [|apply only_dsa_refl].
    destruct Hs as (H1 & H2 & H3 & H4 & H5). split_and!; try done. by rewrite <- H5.
Qed.

(** Reading one record. *)
Lemma read_repl_metadata_refines k v : refines (read_repl_metadata k) v (stamps v !! k) v.
Proof.
  intros s Hs. eapply (wp_keyed_select md_object_key); [apply Hs|done|].
  intros e. exists v. split; [done|apply only_dsa_refl].
Qed.

Lemma repl_stamp_refines k v : refines (repl_stamp k) v (stamp_at v k) v.
Proof. apply (refines_map (read_repl_metadata k) (fmap stamp_of) v (stamps v !! k)), read_repl_metadata_refines. Qed.

Lemma read_principal_refines sam v : refines (read_principal sam) v (principals v !! sam) v.
Proof.
  intros s Hs. eapply (wp_keyed_select sam_account_name); [apply Hs|done|].
  intros e. exists v. split; [done|apply only_dsa_refl].
Qed.

Lemma read_group_refines sid v : refines (read_group sid) v (groups v !! sid) v.
Proof.
  intros s Hs. eapply (wp_keyed_select g_sid); [apply Hs|done|].
  intros e. exists v. split; [done|apply only_dsa_refl].
Qed.

Lemma read_cursor_refines d v : refines (read_cursor d) v (cursors v !! dsa_hex d) v.
Proof.
  intros s Hs. eapply (wp_keyed_select rc_dsa); [apply Hs|done|].
  intros e. exists v. split; [done|apply only_dsa_refl].
Qed.

(** Replacing the row of a key, in a transaction. *)
Lemma wp_replace_principal p s v (Q : DbResult unit -> store -> Prop) :
  abs s v -> (forall s', abs s' (with_principal p v) -> Q (Ok ()) s') -> (forall e s', Q (Err e) s') ->
  wp (do! _ <- on_principals (delete_where (has_key sam_account_name (sam_account_name p)));
      on_principals (create_row p)) Q s.
Proof.
  intros (H1 & H2 & H3 & H4 & H5) Hok Herr. apply wp_bind, (wp_keyed_delete_key sam_account_name _ _ (principals v)); [done| |done].
  intros t Ht. apply (wp_keyed_create sam_account_name _ _ _ _ _ _ Ht); [apply lookup_delete_eq| |done].
  intros t' Ht'. apply Hok. rewrite insert_delete_eq in Ht'. by split_and!.
Qed.

Lemma wp_replace_group g s v (Q : DbResult unit -> store -> Prop) :
  abs s v -> (forall s', abs s' (with_group g v) -> Q (Ok ()) s') -> (forall e s', Q (Err e) s') ->
  wp (do! _ <- on_groups (delete_where (has_key g_sid (g_sid g))); on_groups (create_row g)) Q s.
Proof.
  intros (H1 & H2 & H3 & H4 & H5) Hok Herr. apply wp_bind, (wp_keyed_delete_key g_sid _ _ (groups v)); [done| |done].
  intros t Ht. apply (wp_keyed_create g_sid _ _ _ _ _ _ Ht); [apply lookup_delete_eq| |done].
  intros t' Ht'. apply Hok. rewrite insert_delete_eq in Ht'. by split_and!.
Qed.

Lemma wp_replace_stamp k st s v (Q : DbResult unit -> store -> Prop) :
  abs s v -> (forall s', abs s' (with_stamp k st v) -> Q (Ok ()) s') -> (forall e s', Q (Err e) s') ->
  wp (do! _ <- on_metadata (delete_where (has_key md_object_key k)); on_metadata (create_row (meta_of k st))) Q s.
Proof.
  intros (H1 & H2 & H3 & H4 & H5) Hok Herr. apply wp_bind, (wp_keyed_delete_key md_object_key _ _ (stamps v)); [done| |done].
  intros t Ht. apply (wp_keyed_create md_object_key _ _ _ _ _ _ Ht); [apply lookup_delete_eq| |done].
  intros t' Ht'. apply Hok. simpl in Ht'. rewrite insert_delete_eq in Ht'. by split_and!.
Qed.

Lemma mbind_assoc {S A B C} (m : M S A) (f : A -> M S B) (g : B -> M S C) s :
  mbind_ (mbind_ m f) g s = mbind_ m (fun a => mbind_ (f a) g) s.
Proof. unfold mbind_. by destruct (m s) as [[a|e] s1]. Qed.

Lemma wp_assoc {S A B C} (m : M S A) (f : A -> M S B) (g : B -> M S C) (Q : DbResult C -> S -> Prop) s :
  wp (mbind_ (mbind_ m f) g) Q s -> wp (mbind_ m (fun a => mbind_ (f a) g)) Q s.
Proof. unfold wp. by rewrite mbind_assoc. Qed.

(** A transaction that reaches [v']. *)
Lemma refines_atomically (m : Db unit) v v' :
  (forall s, abs s v -> wp m (fun r s' => match r with Ok _ => abs s' v' | Err _ => True end) s) ->
  refines (atomically m) v () v'.
Proof.
  intros H s Hs. apply wp_atomically, (wp_mono _ _ _ _ (H s Hs)). intros [[]|e] s'; [done|].
  intros _. exists v. split; [done|apply only_dsa_refl].
Qed.

Lemma write_principal_stamped_refines p st v :
  refines (write_principal_stamped p st) v () (with_stamp (sam_account_name p) st (with_principal p v)).
Proof.
  apply refines_atomically. intros s Hs. apply wp_assoc, wp_bind, (wp_replace_principal _ _ v); [done| |done].
  intros s1 Hs1. by apply (wp_replace_stamp _ _ _ (with_principal p v)).
Qed.

Lemma write_group_stamped_refines g k st v :
  refines (write_group_stamped g k st) v () (with_stamp k st (with_group g v)).
Proof.
  apply refines_atomically. intros s Hs. apply wp_assoc, wp_bind, (wp_replace_group _ _ v); [done| |done].
  intros s1 Hs1. by apply (wp_replace_stamp _ _ _ (with_group g v)).
Qed.

Lemma write_principal_merged_refines p st k st' v :
  refines (write_principal_merged p st k st') v ()
    (with_stamp k st' (with_stamp (sam_account_name p) st (with_principal p v))).
Proof.
  apply refines_atomically. intros s Hs. apply wp_assoc, wp_bind, (wp_replace_principal _ _ v); [done| |done].
  intros s1 Hs1. apply wp_assoc, wp_bind, (wp_replace_stamp _ _ _ (with_principal p v)); [done| |done].
  intros s2 Hs2. by apply (wp_replace_stamp _ _ _ (with_stamp (sam_account_name p) st (with_principal p v))).
Qed.

(** ** Local changes *)

Definition local_stamp (uuid : bytes) (now : Z) (k : string) (v : view) : ReplStamp :=
  mkReplStamp (match stamps v !! k with Some m => u32 (md_version m + 1) | None => 1 end)
    now (own_dsa uuid v) (next_usn uuid v) (next_usn uuid v).

Lemma next_local_stamp_refines uuid now k v :
  refines (next_local_stamp uuid now k) v (local_stamp uuid now k v) (used_usn uuid v).
Proof.
  eapply refines_bind; [apply dsa_invocation_id_refines|apply only_dsa_minted|].
  eapply refines_bind; [apply allocate_usn_refines|apply only_dsa_used|].
  eapply refines_bind; [apply read_repl_metadata_refines|apply only_dsa_refl|]. apply refines_ret.
Qed.

(** A locally written principal. *)
Definition local_principal (uuid : bytes) (now : Z) (p : AdPrincipalRecord) (v : view) : view :=
  with_stamp (sam_account_name p) (local_stamp uuid now (sam_account_name p) v) (with_principal p (used_usn uuid v)).

Lemma upsert_local_principal_refines uuid now sam r password nt kerb realm v k :
  long_term_key sam password realm kerb = mret k ->
  refines (upsert_local_principal uuid now sam r password nt kerb realm) v (local_stamp uuid now sam v)
    (local_principal uuid now (mkAdPrincipalRecord sam r nt k false) v).
Proof.
  intros Ek. unfold upsert_local_principal. rewrite Ek.
  eapply refines_bind; [apply refines_ret|apply only_dsa_refl|].
  eapply refines_bind; [apply next_local_stamp_refines|apply only_dsa_used|].
  apply (refines_map (write_principal_stamped (mkAdPrincipalRecord sam r nt k false) (local_stamp uuid now sam v))
           (fun _ => local_stamp uuid now sam v) _ ()).
  apply write_principal_stamped_refines.
Qed.

Lemma create_disabled_refines uuid now sam r v :
  refines (create_disabled_ad_principal uuid now sam r) v ()
    (local_principal uuid now (mkAdPrincipalRecord sam r (replicate 16 0) [] true) v).
Proof.
  eapply refines_bind; [apply next_local_stamp_refines|apply only_dsa_used|]. apply write_principal_stamped_refines.
Qed.

(** ** Replicated principals *)

(** A principal as a partner sends it. *)
Record incoming_principal := mkIncoming {
  u_sam : string;
  u_rid : Z;
  u_nt : bytes;
  u_kerb : bytes;
  u_disabled : bool;
  u_object : ReplStamp;
  u_secret : ReplStamp;
}.

Definition apply_one_principal (uuid : bytes) (u : incoming_principal) : Db bool :=
  apply_replicated_principal_merged uuid (u_sam u) (u_rid u) (u_nt u) (u_kerb u) (u_disabled u) (u_object u) (u_secret u).

(** What it does to the maps. *)
Definition merge_principal (uuid : bytes) (u : incoming_principal) (v : view) : bool * view :=
  let sam := u_sam u in
  let cur_obj := stamp_at v sam in
  let cur_secret := stamp_at v (secret_key sam) in
  let object_wins := wins_over_current (u_object u) cur_obj in
  let secret_wins := wins_over_current (u_secret u) cur_secret in
  if negb object_wins && negb secret_wins then (false, v)
  else (true,
    with_stamp (secret_key sam) (winner secret_wins (next_usn uuid v) (u_secret u) cur_secret)
      (with_stamp sam (winner object_wins (next_usn uuid v) (u_object u) cur_obj)
        (with_principal (merged_principal object_wins secret_wins sam (u_rid u) (u_nt u) (u_kerb u) (u_disabled u)
                           (principals v !! sam)) (used_usn uuid v)))).

Lemma apply_one_principal_refines uuid u v :
  refines (apply_one_principal uuid u) v (merge_principal uuid u v).1 (merge_principal uuid u v).2.
Proof.
  eapply refines_bind; [apply read_principal_refines|apply only_dsa_refl|].
  eapply refines_bind; [apply repl_stamp_refines|apply only_dsa_refl|].
  eapply refines_bind; [apply repl_stamp_refines|apply only_dsa_refl|]. unfold merge_principal. cbv zeta.
  destruct (negb _ && negb _); [apply refines_ret|].
  eapply refines_bind; [apply allocate_usn_refines|apply only_dsa_used|].
  eapply (refines_map (write_principal_merged _ _ _ _) (fun _ => true)), write_principal_merged_refines.
Qed.

(** A part of an account, under the stamp stored at [k]. *)
Definition register {X} (f : AdPrincipalRecord -> X) (v : view) (k sam : string) : option (ReplStamp * X) :=
  match stamp_at v k, f <$> principals v !! sam with
  | Some st, Some x => Some (with_local_usn 0 st, x)
  | _, _ => None
  end.

(** The identity and the secret of an account, each under its stamp. *)
Definition identity (p : AdPrincipalRecord) : Z * bool := (rid p, disabled p).
Definition secret (p : AdPrincipalRecord) : bytes * bytes := (nt_hash_of p, kerberos_key p).
Definition object_register (v : view) (sam : string) : option (ReplStamp * (Z * bool)) := register identity v sam sam.
Definition secret_register (v : view) (sam : string) : option (ReplStamp * (bytes * bytes)) :=
  register secret v (secret_key sam) sam.

Definition object_write (u : incoming_principal) : ReplStamp * (Z * bool) :=
  (with_local_usn 0 (u_object u), (u_rid u, u_disabled u)).

Definition secret_write (u : incoming_principal) : ReplStamp * (bytes * bytes) :=
  (with_local_usn 0 (u_secret u), (u_nt u, u_kerb u)).

(** An account name that is not the key of another stamp. *)
Definition plain_name (sam : string) : bool := negb (contains_char "#" sam).

(** A stamped account has its record. *)
Definition well_stamped (v : view) : Prop :=
  forall sam, plain_name sam = true -> groups v !! sam = None ->
    is_Some (stamps v !! sam) \/ is_Some (stamps v !! secret_key sam) -> is_Some (principals v !! sam).

(** The DSA identifiers of an incoming principal are 16 bytes, as their type says. *)
Definition dsa_ok (st : ReplStamp) : Prop := length (originating_dsa st) = 16%nat.
Definition incoming_ok (v : view) (u : incoming_principal) : Prop :=
  dsa_ok (u_object u) /\ dsa_ok (u_secret u) /\ plain_name (u_sam u) = true /\ groups v !! u_sam u = None.

Lemma stamp_of_meta k st : dsa_ok st -> stamp_of (meta_of k st) = st.
Proof. intros H. destruct st. unfold stamp_of, meta_of. simpl. by rewrite to_uuid16_id. Qed.

Lemma plain_not_secret a b : plain_name a = true -> a <> secret_key b.
Proof.
  intros H ->. unfold plain_name, contains_char in H. apply negb_true_iff in H. revert H. unfold secret_key.
  induction b as [|c b IH]; [done|]. simpl. intros [_ H]%orb_false_iff. auto.
Qed.

Lemma secret_key_inj a b : secret_key a = secret_key b -> a = b.
Proof.
  unfold secret_key. revert b. induction a as [|c a IH]; intros [|c' b]; simpl.
  - done.
  - intros H. exfalso. apply (f_equal String.length) in H. simpl in H. rewrite str_length_app in H. simpl in H. lia.
  - intros H. exfalso. apply (f_equal String.length) in H. simpl in H. rewrite str_length_app in H. simpl in H. lia.
  - intros [= -> H]. f_equal. by apply IH.
Qed.

Lemma stamp_at_ok v k st : stamp_at v k = Some st -> dsa_ok st.
Proof. unfold stamp_at. destruct (stamps v !! k); [|done]. intros [= <-]. apply to_uuid16_length. Qed.

Lemma winner_ok wins usn st v k : dsa_ok st -> dsa_ok (winner wins usn st (stamp_at v k)).
Proof.
  intros H. unfold winner. destruct (stamp_at v k) as [c|] eqn:E; [|exact H].
  destruct wins; [exact H|by eapply stamp_at_ok].
Qed.

(** Writing an attribute under the winning stamp is a write to its register. *)
Lemma winner_pick {X} usn st (cur : option ReplStamp) (old : option X) (x new : X) :
  (is_Some cur -> is_Some old) -> new = (if wins_over_current st cur then x else unwrap_or x old) ->
  Some (with_local_usn 0 (winner (wins_over_current st cur) usn st cur), new) =
  pick (match cur, old with Some c, Some y => Some (with_local_usn 0 c, y) | _, _ => None end) (with_local_usn 0 st, x).
Proof.
  intros H ->. destruct cur as [c|]; simpl; [|done]. destruct old as [y|]; [|by destruct (H ltac:(eauto))].
  simpl. change (wins_over (with_local_usn 0 st) (with_local_usn 0 c)) with (wins_over st c). by destruct (wins_over st c).
Qed.

(** The view after a merge that changes something. *)
Definition merged_view (uuid : bytes) (u : incoming_principal) (v : view) : view :=
  let sam := u_sam u in
  let ow := wins_over_current (u_object u) (stamp_at v sam) in
  let sw := wins_over_current (u_secret u) (stamp_at v (secret_key sam)) in
  with_stamp (secret_key sam) (winner sw (next_usn uuid v) (u_secret u) (stamp_at v (secret_key sam)))
    (with_stamp sam (winner ow (next_usn uuid v) (u_object u) (stamp_at v sam))
      (with_principal (merged_principal ow sw sam (u_rid u) (u_nt u) (u_kerb u) (u_disabled u) (principals v !! sam))
         (used_usn uuid v))).

Lemma merge_principal_view uuid u v :
  merge_principal uuid u v =
  if negb (wins_over_current (u_object u) (stamp_at v (u_sam u))) &&
     negb (wins_over_current (u_secret u) (stamp_at v (secret_key (u_sam u)))) then (false, v)
  else (true, merged_view uuid u v).
Proof. done. Qed.

Lemma well_stamped_fmap {X} (f : AdPrincipalRecord -> X) v sam k :
  well_stamped v -> plain_name sam = true -> groups v !! sam = None -> k = sam \/ k = secret_key sam ->
  is_Some (stamp_at v k) -> is_Some (f <$> principals v !! sam).
Proof.
  intros Hw Hp Hg Hk Hs. apply fmap_is_Some, Hw; [done..|]. unfold stamp_at in Hs. apply fmap_is_Some in Hs.
  destruct Hk as [->| ->]; auto.
Qed.

Lemma loses_to_current st cur : wins_over_current st cur = false -> is_Some cur.
Proof. destruct cur; [eauto|done]. Qed.

Lemma merged_identity ow sw sam r nt kerb dis cur : (ow = false -> is_Some cur) ->
  identity (merged_principal ow sw sam r nt kerb dis cur) = if ow then (r, dis) else unwrap_or (r, dis) (identity <$> cur).
Proof. intros H. destruct ow; [done|]. by destruct (H eq_refl) as [p ->]. Qed.

Lemma merged_secret ow sw sam r nt kerb dis cur : (sw = false -> is_Some cur) ->
  secret (merged_principal ow sw sam r nt kerb dis cur) = if sw then (nt, kerb) else unwrap_or (nt, kerb) (secret <$> cur).
Proof. intros H. destruct sw; [done|]. by destruct (H eq_refl) as [p ->]. Qed.

Lemma merged_view_registers uuid u v : well_stamped v -> incoming_ok v u ->
  object_register (merged_view uuid u v) (u_sam u) = pick (object_register v (u_sam u)) (object_write u) /\
  secret_register (merged_view uuid u v) (u_sam u) = pick (secret_register v (u_sam u)) (secret_write u).
Proof.
  intros Hw (Ho & Hs & Hp & Hg). pose proof (plain_not_secret (u_sam u) (u_sam u) Hp) as Hne.
  pose proof (fun X f => well_stamped_fmap (X := X) f v (u_sam u) (u_sam u) Hw Hp Hg (or_introl eq_refl)) as W1.
  pose proof (fun X f => well_stamped_fmap (X := X) f v (u_sam u) (secret_key (u_sam u)) Hw Hp Hg (or_intror eq_refl)) as W2.
  unfold object_register, secret_register, register, stamp_at at 1 3. simpl.
  rewrite lookup_insert_eq, (lookup_insert_ne _ (secret_key (u_sam u)) (u_sam u)), !lookup_insert_eq by congruence.
  cbn [fmap option_fmap option_map]. rewrite !stamp_of_meta by (by apply winner_ok).
  split; (apply winner_pick; [eauto|]); [apply merged_identity|apply merged_secret];
    intros E%loses_to_current; [by eapply fmap_is_Some, (W1 _ identity)|by eapply fmap_is_Some, (W2 _ secret)].
Qed.

(** Names other than the one merged. *)
Lemma merged_view_other {X} (f : AdPrincipalRecord -> X) uuid u v sam k :
  sam <> u_sam u -> k <> u_sam u -> k <> secret_key (u_sam u) -> register f (merged_view uuid u v) k sam = register f v k sam.
Proof. intros H1 H2 H3. unfold register, stamp_at. simpl. by rewrite !lookup_insert_ne by done. Qed.

Lemma merged_view_well_stamped uuid u v : well_stamped v -> incoming_ok v u -> well_stamped (merged_view uuid u v).
Proof.
  intros Hw (_ & _ & Hp & _) sam Hsam Hg. simpl. destruct (decide (sam = u_sam u)) as [->|Hne].
  { intros _. rewrite lookup_insert_eq. eauto. }
  rewrite !lookup_insert_ne; try done; [by apply Hw|..].
  all: first [by apply plain_not_secret|by intros E%secret_key_inj; congruence|by intros E; symmetry in E; apply plain_not_secret in E].
Qed.

(** One replicated principal, on the registers. *)
Lemma merge_principal_step uuid u v : well_stamped v -> incoming_ok v u ->
  let v' := (merge_principal uuid u v).2 in
  well_stamped v' /\ groups v' = groups v /\
  (object_register v' (u_sam u) = pick (object_register v (u_sam u)) (object_write u) /\
   secret_register v' (u_sam u) = pick (secret_register v (u_sam u)) (secret_write u)) /\
  forall sam, sam <> u_sam u -> plain_name sam = true ->
    object_register v' sam = object_register v sam /\ secret_register v' sam = secret_register v sam.
Proof.
  intros Hw Hu. pose proof Hu as (_ & _ & Hp & Hg). rewrite merge_principal_view. destruct (negb _ && negb _) eqn:E; simpl.
  - split_and!; [done..| | |done].
    all: apply andb_true_iff in E as [E1%negb_true_iff E2%negb_true_iff].
    + pose proof (loses_to_current _ _ E1) as H1.
      apply (well_stamped_fmap identity v (u_sam u) (u_sam u)) in H1; [|by auto..].
      unfold object_register, register. destruct (stamp_at v (u_sam u)), (identity <$> _); try done.
      simpl in *. change (wins_over (with_local_usn 0 (u_object u)) (with_local_usn 0 r)) with (wins_over (u_object u) r).
      by rewrite E1.
    + pose proof (loses_to_current _ _ E2) as H1.
      apply (well_stamped_fmap secret v (u_sam u) (secret_key (u_sam u))) in H1; [|by auto..].
      unfold secret_register, register. destruct (stamp_at v (secret_key _)), (secret <$> _); try done.
      simpl in *. change (wins_over (with_local_usn 0 (u_secret u)) (with_local_usn 0 r)) with (wins_over (u_secret u) r).
      by rewrite E2.
  - split_and!; [by apply merged_view_well_stamped|done|by apply merged_view_registers..|].
    intros sam Hne Hsam. split; apply merged_view_other; try done.
    + by apply plain_not_secret.
    + intros H. symmetry in H. by apply plain_not_secret in H.
    + intros H%secret_key_inj. congruence.
Qed.

(** A page of replicated principals, one after the other; the number that changed something. *)
Fixpoint apply_principals (uuid : bytes) (us : list incoming_principal) : Db Z :=
  match us with
  | [] => mret 0
  | u :: us' =>
      do! changed <- apply_one_principal uuid u;
      do! n <- apply_principals uuid us';
      mret ((if changed : bool then 1 else 0) + n)
  end.

Definition merge_principals (uuid : bytes) (us : list incoming_principal) (v : view) : view :=
  fold_left (fun v u => (merge_principal uuid u v).2) us v.

Lemma apply_principals_ok uuid us : forall s v n s', abs s v ->
  apply_principals uuid us s = (Ok n, s') -> abs s' (merge_principals uuid us v).
Proof.
  induction us as [|u us IH]; intros s v n s' Hs E.
  - by injection E as <- <-.
  - apply mbind_inv in E as [(e & _ & [=])|(a & s1 & E1 & E)].
    destruct (wp_run _ _ _ _ _ E1 (apply_one_principal_refines uuid u v s Hs)) as [-> Hs1].
    apply mbind_inv in E as [(e & _ & [=])|(n' & s2 & E2 & [= <- <-])]. by apply (IH _ _ _ _ Hs1 E2).
Qed.

Definition writes_to {X} (w : incoming_principal -> ReplStamp * X) (sam : string) (us : list incoming_principal) :
    list (ReplStamp * X) :=
  map w (List.filter (fun u => String.eqb (u_sam u) sam) us).

(** A page acts on the registers of each account as its writes do, in turn. *)
Lemma merge_principals_registers uuid sam us : forall v,
  well_stamped v -> Forall (incoming_ok v) us -> plain_name sam = true ->
  let v' := merge_principals uuid us v in
  object_register v' sam = fold_left pick (writes_to object_write sam us) (object_register v sam) /\
  secret_register v' sam = fold_left pick (writes_to secret_write sam us) (secret_register v sam).
Proof.
  induction us as [|u us IH]; intros v Hw Hus Hp; [done|]. apply Forall_cons in Hus as [Hu Hus].
  destruct (merge_principal_step uuid u v Hw Hu) as (Hw' & Hg & [E1 E2] & Hne). simpl.
  destruct (IH (merge_principal uuid u v).2 Hw') as [-> ->]; [|done|].
  { eapply Forall_impl; [exact Hus|]. intros u'. unfold incoming_ok. by rewrite Hg. }
  unfold writes_to. simpl. destruct (String.eqb_spec (u_sam u) sam) as [<-|H]; simpl; [by rewrite E1, E2|].
  by destruct (Hne sam) as [-> ->].
Qed.

(** Replicas that saw the same writes to an attribute of [sam]. *)
Definition same_writes {X} (w : incoming_principal -> ReplStamp * X) (sam : string)
    (r1 r2 : option (ReplStamp * X)) (us1 us2 : list incoming_principal) : Prop :=
  (forall i, In i (contents r1 (writes_to w sam us1)) <-> In i (contents r2 (writes_to w sam us2))) /\
  coherent (contents r1 (writes_to w sam us1)).

Lemma register_Some {X} (f : AdPrincipalRecord -> X) v k sam : is_Some (register f v k sam) -> is_Some (principals v !! sam).
Proof. unfold register. intros [x H]. destruct (stamp_at v k); [|done]. destruct (principals v !! sam); [eauto|done]. Qed.

Lemma same_registers_same_principal v1 v2 sam :
  (forall p, principals v1 !! sam = Some p -> sam_account_name p = sam) ->
  (forall p, principals v2 !! sam = Some p -> sam_account_name p = sam) ->
  object_register v1 sam = object_register v2 sam -> secret_register v1 sam = secret_register v2 sam ->
  is_Some (object_register v1 sam) -> is_Some (secret_register v1 sam) -> principals v1 !! sam = principals v2 !! sam.
Proof.
  intros K1 K2 E1 E2 H1 H2. pose proof (register_Some _ _ _ _ H1) as [p1 P1].
  pose proof H1 as H1'. rewrite E1 in H1'. pose proof (register_Some _ _ _ _ H1') as [p2 P2].
  specialize (K1 _ P1). specialize (K2 _ P2). rewrite P1, P2.
  unfold object_register, secret_register, register in *. rewrite P1, P2 in *. simpl in *.
  destruct (stamp_at v1 sam), (stamp_at v2 sam), (stamp_at v1 (secret_key sam)), (stamp_at v2 (secret_key sam));
    try done; try (by destruct H1); try (by destruct H2).
  injection E1 as _ E3 E4. injection E2 as _ E5 E6. f_equal. destruct p1, p2. simpl in *. congruence.
Qed.

Lemma fold_pick_Some {X} l (cur : option (ReplStamp * X)) : contents cur l <> [] -> is_Some (fold_left pick l cur).
Proof. intros H. destruct (fold_pick_max l cur H) as (w & -> & _). eauto. Qed.

(** C6: Convergence of replicas: two stores that have received the same replicated
    writes to an account, in any order and with any repetitions, hold the same
    record for it, and the same stamps. *)
Theorem replicas_converge uuid1 uuid2 us1 us2 (s1 s2 s1' s2' : store) n1 n2 v1 v2 sam :
  abs s1 v1 -> abs s2 v2 -> well_stamped v1 -> well_stamped v2 ->
  Forall (incoming_ok v1) us1 -> Forall (incoming_ok v2) us2 ->
  apply_principals uuid1 us1 s1 = (Ok n1, s1') -> apply_principals uuid2 us2 s2 = (Ok n2, s2') ->
  In sam (map u_sam us1) ->
  same_writes object_write sam (object_register v1 sam) (object_register v2 sam) us1 us2 ->
  same_writes secret_write sam (secret_register v1 sam) (secret_register v2 sam) us1 us2 ->
  exists v1' v2', abs s1' v1' /\ abs s2' v2' /\
    object_register v1' sam = object_register v2' sam /\ secret_register v1' sam = secret_register v2' sam /\
    is_Some (principals v1' !! sam) /\ principals v1' !! sam = principals v2' !! sam.
Proof.
  intros A1 A2 W1 W2 U1 U2 E1 E2 (u & <- & Hin)%in_map_iff [So Co] [Ss Cs].
  assert (plain_name (u_sam u) = true) as Hp.
  { rewrite Forall_forall in U1. by apply list_elem_of_In, U1 in Hin as (_ & _ & ? & _). }
  apply (apply_principals_ok _ _ _ _ _ _ A1) in E1. apply (apply_principals_ok _ _ _ _ _ _ A2) in E2.
  exists (merge_principals uuid1 us1 v1), (merge_principals uuid2 us2 v2).
  destruct (merge_principals_registers uuid1 (u_sam u) us1 v1 W1 U1 Hp) as [R1 R2].
  destruct (merge_principals_registers uuid2 (u_sam u) us2 v2 W2 U2 Hp) as [R3 R4].
  assert (forall X (w : incoming_principal -> ReplStamp * X) c, contents c (writes_to w (u_sam u) us1) <> []) as Hne.
  { intros X w c H. apply app_eq_nil in H as [_ H]. apply (in_nil (a := w u)). rewrite <- H.
    apply in_map, filter_In. split; [done|apply String.eqb_refl]. }
  assert (Ho : is_Some (object_register (merge_principals uuid1 us1 v1) (u_sam u))) by (rewrite R1; by apply fold_pick_Some).
  assert (Hs : is_Some (secret_register (merge_principals uuid1 us1 v1) (u_sam u))) by (rewrite R2; by apply fold_pick_Some).
  pose proof (fold_pick_agree _ _ _ _ So Co) as Eo. pose proof (fold_pick_agree _ _ _ _ Ss Cs) as Es.
  rewrite <- R1, <- R3 in Eo. rewrite <- R2, <- R4 in Es.
  split_and!; [done..|by eapply register_Some|]. apply same_registers_same_principal; try done; intros p Pp.
  - by apply (keyed_key _ _ _ _ _ (proj1 E1)).
  - by apply (keyed_key _ _ _ _ _ (proj1 E2)).
Qed.

(** ** Replicated groups *)

Record incoming_group := mkIncomingGroup {
  ig_sam : string;
  ig_rid : Z;
  ig_sid : string;
  ig_links : list IncomingLink;
  ig_stamp : ReplStamp;
}.

Fixpoint apply_groups (uuid : bytes) (gs : list incoming_group) : Db unit :=
  match gs with
  | [] => mret ()
  | g :: gs' =>
      do! _ <- apply_replicated_group uuid (ig_sam g) (ig_rid g) (ig_sid g) (ig_links g) (ig_stamp g);
      apply_groups uuid gs'
  end.

Definition links_of (v : view) (sid : string) : list StoredLink :=
  match groups v !! sid with Some g => g_member_links g | None => [] end.

(** What a replicated group does to the maps. *)
Definition merge_group (uuid : bytes) (g : incoming_group) (v : view) : view :=
  let group := mkAdGroupRecord (ig_sam g) (ig_rid g) (ig_sid g) (merge_links (links_of v (ig_sid g)) (ig_links g)) in
  match stamp_at v (ig_sid g) with
  | Some cur =>
      if negb (wins_over (ig_stamp g) cur) then with_stamp (ig_sid g) cur (with_group group v)
      else with_stamp (ig_sid g) (with_local_usn (next_usn uuid v) (ig_stamp g)) (with_group group (used_usn uuid v))
  | None => with_stamp (ig_sid g) (with_local_usn (next_usn uuid v) (ig_stamp g)) (with_group group (used_usn uuid v))
  end.

Lemma apply_replicated_group_refines uuid g v :
  refines (apply_replicated_group uuid (ig_sam g) (ig_rid g) (ig_sid g) (ig_links g) (ig_stamp g)) v ()
    (merge_group uuid g v).
Proof.
  eapply refines_bind; [|apply only_dsa_refl|].
  { apply (refines_map (read_group (ig_sid g)) (fun rec => match rec with Some r => g_member_links r | None => [] end)),
      read_group_refines. }
  eapply refines_bind; [apply repl_stamp_refines|apply only_dsa_refl|]. unfold merge_group. fold (links_of v (ig_sid g)).
  destruct (stamp_at v (ig_sid g)) as [cur|].
  - destruct (negb (wins_over (ig_stamp g) cur)).
    + eapply refines_bind; [apply refines_ret|apply only_dsa_refl|]. apply write_group_stamped_refines.
    + eapply refines_bind; [apply (refines_map (allocate_usn uuid) (fun usn => with_local_usn usn (ig_stamp g))), allocate_usn_refines|
        apply only_dsa_used|]. apply write_group_stamped_refines.
  - eapply refines_bind; [apply (refines_map (allocate_usn uuid) (fun usn => with_local_usn usn (ig_stamp g))), allocate_usn_refines|
      apply only_dsa_used|]. apply write_group_stamped_refines.
Qed.

Lemma merge_group_links uuid g v sid :
  links_of (merge_group uuid g v) sid =
  if String.eqb (ig_sid g) sid then merge_links (links_of v sid) (ig_links g) else links_of v sid.
Proof.
  unfold merge_group. unfold links_of at 1 4 5.
  destruct (stamp_at v (ig_sid g)) as [cur|]; [destruct (negb _)|]; simpl;
    (destruct (String.eqb_spec (ig_sid g) sid) as [<-|Hne]; [by rewrite lookup_insert_eq|by rewrite lookup_insert_ne]).
Qed.

Definition merge_groups (uuid : bytes) (gs : list incoming_group) (v : view) : view :=
  fold_left (fun v g => merge_group uuid g v) gs v.

Lemma apply_groups_ok uuid gs : forall s v s', abs s v -> apply_groups uuid gs s = (Ok (), s') -> abs s' (merge_groups uuid gs v).
Proof.
  induction gs as [|g gs IH]; intros s v s' Hs E.
  - by injection E as <-.
  - apply mbind_inv in E as [(e & _ & [=])|(a & s1 & E1 & E)].
    destruct (wp_run _ _ _ _ _ E1 (apply_replicated_group_refines uuid g v s Hs)) as [-> Hs1].
    by apply (IH _ _ _ Hs1 E).
Qed.

(** The links that a sequence of pages brings for a group. *)
Definition incoming_links (sid : string) (gs : list incoming_group) : list IncomingLink :=
  flat_map ig_links (List.filter (fun g => String.eqb (ig_sid g) sid) gs).

Lemma merge_groups_links uuid sid gs : forall v,
  by_member (links_of (merge_groups uuid gs v) sid) = fold_left merge_link (incoming_links sid gs) (by_member (links_of v sid)).
Proof.
  induction gs as [|g gs IH]; intros v; [done|]. simpl. rewrite IH, merge_group_links. unfold incoming_links. simpl.
  destruct (String.eqb (ig_sid g) sid); [|done]. simpl. by rewrite fold_left_app, by_member_merge.
Qed.

(** A group that a page has touched keeps its links in the order of the members. *)
Lemma merge_groups_sorted uuid sid gs : forall v, In sid (map ig_sid gs) ->
  exists m, filed m /\ links_of (merge_groups uuid gs v) sid = sort_links (map snd (map_to_list m)).
Proof.
  induction gs as [|g gs IH] using rev_ind; [done|]. intros v. unfold merge_groups. rewrite map_app, fold_left_app. simpl.
  rewrite merge_group_links. intros [Hin|[->|[]]]%in_app_or.
  - destruct (String.eqb (ig_sid g) sid); [|by apply IH]. eexists. split; [|reflexivity].
    apply fold_merge_filed, by_member_filed.
  - rewrite String.eqb_refl. eexists. split; [|reflexivity]. apply fold_merge_filed, by_member_filed.
Qed.

(** Convergence of memberships: two stores that have received the same membership
    links of a group, present or removed, hold the same links for it, whatever
    the order in which pages and links arrived. *)
Theorem memberships_converge uuid1 uuid2 gs1 gs2 (s1 s2 s1' s2' : store) v1 v2 sid :
  abs s1 v1 -> abs s2 v2 ->
  apply_groups uuid1 gs1 s1 = (Ok (), s1') -> apply_groups uuid2 gs2 s2 = (Ok (), s2') ->
  In sid (map ig_sid gs1) -> In sid (map ig_sid gs2) ->
  Forall link_ok (incoming_links sid gs1) -> Forall link_ok (incoming_links sid gs2) ->
  (forall member,
    let h1 := contents (link_register (by_member (links_of v1 sid)) member) (link_writes member (incoming_links sid gs1)) in
    let h2 := contents (link_register (by_member (links_of v2 sid)) member) (link_writes member (incoming_links sid gs2)) in
    (forall i, In i h1 <-> In i h2) /\ coherent h1) ->
  exists v1' v2', abs s1' v1' /\ abs s2' v2' /\ links_of v1' sid = links_of v2' sid /\
    StronglySorted (fun a b => str_le (sl_member_sid a) (sl_member_sid b) = true) (links_of v1' sid).
Proof.
  intros A1 A2 E1 E2 I1 I2 L1 L2 Hs.
  exists (merge_groups uuid1 gs1 v1), (merge_groups uuid2 gs2 v2).
  split_and!; [by eapply apply_groups_ok|by eapply apply_groups_ok| |].
  - assert (by_member (links_of (merge_groups uuid1 gs1 v1) sid) = by_member (links_of (merge_groups uuid2 gs2 v2) sid)) as E.
    { rewrite !merge_groups_links. apply link_register_ext. intros k. rewrite !fold_merge_register by done.
      destruct (Hs k) as [H1 H2]. by apply fold_pick_agree. }
    destruct (merge_groups_sorted uuid1 sid gs1 v1 I1) as (m1 & F1 & Q1).
    destruct (merge_groups_sorted uuid2 sid gs2 v2 I2) as (m2 & F2 & Q2).
    rewrite Q1, Q2 in *. rewrite !by_member_values in E by done. by rewrite E.
  - destruct (merge_groups_sorted uuid1 sid gs1 v1 I1) as (m1 & F1 & ->).
    apply sort_by_sorted; [intros a b; apply str_le_total|intros a b c; apply str_le_trans].
Qed.

(** ** The cursors *)

Definition recorded (now : Z) (d : bytes) (usn : Z) (v : view) : view :=
  match cursors v !! dsa_hex d with
  | Some c => if usn <=? rc_high_usn c then v else with_cursor (mkReplCursorRecord (dsa_hex d) usn now) v
  | None => with_cursor (mkReplCursorRecord (dsa_hex d) usn now) v
  end.

Lemma wp_replace_cursor c s v :
  abs s v -> wp (do! _ <- on_cursors (delete_where (has_key rc_dsa (rc_dsa c))); on_cursors (create_row c))
               (on_ok (fun _ s' => abs s' (with_cursor c v))) s.
Proof.
  intros (H1 & H2 & H3 & H4 & H5). apply wp_bind, (wp_keyed_delete_key rc_dsa _ _ (cursors v)); [done| |done].
  intros t Ht. apply (wp_keyed_create rc_dsa _ _ _ _ _ _ Ht); [apply lookup_delete_eq| |done].
  intros t' Ht'. simpl in Ht'. rewrite insert_delete_eq in Ht'. by split_and!.
Qed.

Lemma record_cursor_ok now d usn s v s' :
  abs s v -> record_cursor now d usn s = (Ok (), s') -> abs s' (recorded now d usn v).
Proof.
  intros Hs E. apply mbind_inv in E as [(e & _ & [=])|(o & s1 & E1 & E)].
  destruct (wp_run _ _ _ _ _ E1 (read_cursor_refines d v s Hs)) as [-> Hs1]. unfold recorded.
  destruct (cursors v !! dsa_hex d) as [c|]; [destruct (usn <=? rc_high_usn c)|].
  - by injection E as <-.
  - exact (wp_run_ok _ _ _ _ _ E (wp_replace_cursor (mkReplCursorRecord (dsa_hex d) usn now) _ _ Hs1)).
  - exact (wp_run_ok _ _ _ _ _ E (wp_replace_cursor (mkReplCursorRecord (dsa_hex d) usn now) _ _ Hs1)).
Qed.

(** The vector lists the stored cursors of other DSAs, and this DSA's USN. *)
Lemma up_to_date_vector_spec uuid s v :
  abs s v -> wp (up_to_date_vector uuid) (on_ok (fun l s' => abs s' (with_dsa (Some (dsa_or uuid v)) v) /\
    In (mkUtdvCursor (own_dsa uuid v) (highest_usn_of (dsa_or uuid v)) 0) l /\
    forall k c, cursors v !! k = Some c -> dsa_from_hex k <> own_dsa uuid v ->
      In (mkUtdvCursor (dsa_from_hex k) (rc_high_usn c) (rc_last_sync c)) l)) s.
Proof.
  intros Hs. apply wp_bind, (wp_mono _ _ _ _ (dsa_invocation_id_refines uuid v s Hs)). intros [x|e] s1; [|done].
  intros [-> Hs1]. pose proof (refines_map _ (fun o => match o with Some st => highest_usn_of st | None => 0 end)
    _ _ _ (read_dsa_state_refines (with_dsa (Some (dsa_or uuid v)) v)) s1 Hs1) as Hh.
  apply wp_bind, (wp_mono _ _ _ _ Hh). intros [y|e] s2; [|done]. intros [-> Hs2].
  apply wp_bind, wp_select; [by left|done| |done]. intros l Hl _. split; [done|]. split.
  - apply in_or_app. right. by left.
  - intros k c Ec Hne. apply in_or_app. left. apply filter_In. simpl. split.
    2: { apply negb_true_iff, bool_decide_eq_false. by rewrite <- (keyed_key _ _ _ _ _ (proj1 (proj2 (proj2 (proj2 Hs2)))) Ec) in *. }
    destruct Hs2 as (_ & _ & _ & Hc & _). pose proof (keyed_key _ _ _ _ _ Hc Ec) as <-.
    apply (keyed_In _ _ _ c Hc) in Ec. apply in_map_iff in Ec as (kr & <- & Hin). apply in_map_iff. exists kr. split; [done|].
    rewrite Hl. by apply filter_In.
Qed.

(** What a DC has recorded of a partner is what it asks with: after a page has
    been recorded, the up-to-dateness vector has a cursor of that DSA which is
    not behind it, nor behind what was recorded before. *)
Theorem recorded_cursor_is_sent uuid now d usn (s s1 s2 : store) v l :
  abs s v -> length d = 16%nat -> bytes_ok d -> d <> own_dsa uuid v ->
  record_cursor now d usn s = (Ok (), s1) -> up_to_date_vector uuid s1 = (Ok l, s2) ->
  exists c, In c l /\ c_dsa c = d /\ usn <= c_high_usn c /\
    forall old, cursors v !! dsa_hex d = Some old -> rc_high_usn old <= c_high_usn c.
Proof.
  intros Hs Hl Hb Hne E1 E2. apply (record_cursor_ok _ _ _ _ _ _ Hs) in E1.
  destruct (wp_run_ok _ _ _ _ _ E2 (up_to_date_vector_spec uuid s1 _ E1)) as (_ & _ & Hc).
  assert (own_dsa uuid (recorded now d usn v) = own_dsa uuid v) as Ho.
  { unfold recorded. destruct (cursors v !! dsa_hex d); [destruct (_ <=? _)|]; done. }
  pose proof (fun c => Hc (dsa_hex d) c) as Hd. rewrite Ho, dsa_hex_round_trip in Hd by done. clear Hc.
  unfold recorded in Hd. destruct (cursors v !! dsa_hex d) as [old|] eqn:Eo; [destruct (Z.leb_spec usn (rc_high_usn old))|].
  - eexists. split; [by apply Hd|]. split; [done|]. split; [done|]. intros o' [= ->]. simpl. lia.
  - eexists. split; [apply Hd; [apply lookup_insert_eq|done]|]. split; [done|]. simpl. split; [lia|]. intros o' [= ->]. lia.
  - eexists. split; [apply Hd; [apply lookup_insert_eq|done]|]. split; [done|]. simpl. split; [lia|done].
Qed.

(** ** Local edits of a membership *)

Definition local_link (uuid : bytes) (now : Z) (member : string) (present : bool) (rec : AdGroupRecord) (v : view) : StoredLink :=
  mkStoredLink member present
    (match find_link member (g_member_links rec) with Some l => u32 (sl_version l + 1) | None => 1 end)
    (own_dsa uuid v) (next_usn uuid v) now.

Definition edited_group (uuid : bytes) (now : Z) (member : string) (present : bool) (rec : AdGroupRecord) (v : view) : AdGroupRecord :=
  mkAdGroupRecord (g_sam_account_name rec) (g_rid rec) (g_sid rec)
    (sort_links (put_link (local_link uuid now member present rec v) (g_member_links rec))).

Definition edited_member (uuid : bytes) (now : Z) (sid member : string) (present : bool) (v : view) : view :=
  match groups v !! sid with
  | None => v
  | Some rec =>
      with_stamp sid (unwrap_or (mkReplStamp 1 now (own_dsa uuid v) (next_usn uuid v) (next_usn uuid v)) (stamp_at v sid))
        (with_group (edited_group uuid now member present rec v) (used_usn uuid v))
  end.

Lemma set_group_member_refines uuid now sid member present v :
  refines (set_group_member_local uuid now sid member present) v () (edited_member uuid now sid member present v).
Proof.
  eapply refines_bind; [apply read_group_refines|apply only_dsa_refl|]. unfold edited_member.
  destruct (groups v !! sid) as [rec|].
  - eapply refines_bind; [apply dsa_invocation_id_refines|apply only_dsa_minted|].
    eapply refines_bind; [apply allocate_usn_refines|apply only_dsa_used|]. cbv zeta.
    eapply refines_bind; [apply repl_stamp_refines|apply only_dsa_refl|]. apply write_group_stamped_refines.
  - intros s Hs. exists v. split; [done|apply only_dsa_refl].
Qed.

(** ** The stamped writes *)

Inductive ad_write :=
| WLocal (sam : string) (r : Z) (password : string) (nt : bytes) (kerb : option bytes) (realm : string)
| WDisabled (sam : string) (r : Z)
| WMerge (u : incoming_principal)
| WGroup (g : incoming_group)
| WMember (sid member : string) (present : bool).

Definition exec (uuid : bytes) (now : Z) (w : ad_write) : Db unit :=
  match w with
  | WLocal sam r password nt kerb realm => do! _ <- upsert_local_principal uuid now sam r password nt kerb realm; mret ()
  | WDisabled sam r => create_disabled_ad_principal uuid now sam r
  | WMerge u => do! _ <- apply_one_principal uuid u; mret ()
  | WGroup g => apply_replicated_group uuid (ig_sam g) (ig_rid g) (ig_sid g) (ig_links g) (ig_stamp g)
  | WMember sid member present => set_group_member_local uuid now sid member present
  end.

Definition derived_key (sam password realm : string) (kerb : option bytes) : option bytes :=
  match kerb with
  | Some k => Some k
  | None => match derive_aes256_key password (default_salt realm [sam]) with inl _ => None | inr k => Some k end
  end.

(** The write on the maps. *)
Definition effect (uuid : bytes) (now : Z) (w : ad_write) (v : view) : view :=
  match w with
  | WLocal sam r password nt kerb realm =>
      match derived_key sam password realm kerb with
      | Some k => local_principal uuid now (mkAdPrincipalRecord sam r nt k false) v
      | None => v
      end
  | WDisabled sam r => local_principal uuid now (mkAdPrincipalRecord sam r (replicate 16 0) [] true) v
  | WMerge u => (merge_principal uuid u v).2
  | WGroup g => merge_group uuid g v
  | WMember sid member present => edited_member uuid now sid member present v
  end.

Lemma long_term_key_derived sam password realm kerb :
  match derived_key sam password realm kerb with
  | Some k => long_term_key sam password realm kerb = mret k
  | None => exists m, long_term_key sam password realm kerb = mfail (Constraint m)
  end.
Proof. unfold derived_key, long_term_key. destruct kerb; [done|]. destruct (derive_aes256_key _ _); [by eexists|done]. Qed.

Lemma exec_refines uuid now w v : refines (exec uuid now w) v () (effect uuid now w v).
Proof.
  destruct w as [sam r password nt kerb realm|sam r|u|g|sid member present]; simpl.
  - pose proof (long_term_key_derived sam password realm kerb) as Hk. destruct (derived_key _ _ _ _) as [k|].
    + apply (refines_map (upsert_local_principal uuid now sam r password nt kerb realm) (fun _ => ()) _ _ _
               (upsert_local_principal_refines uuid now sam r password nt kerb realm v k Hk)).
    + destruct Hk as [m Hm]. intros s Hs. unfold upsert_local_principal. rewrite Hm. exists v.
      split; [done|apply only_dsa_refl].
  - apply create_disabled_refines.
  - apply (refines_map (apply_one_principal uuid u) (fun _ => ()) _ _ _ (apply_one_principal_refines uuid u v)).
  - apply apply_replicated_group_refines.
  - apply set_group_member_refines.
Qed.

(** C27: The store refines the maps: a stamped write, local or replicated, either
    takes its whole effect, record and stamps together, or fails and leaves
    every account, group, stamp and cursor as it was; and the USN never drops. *)
Theorem stamped_writes_refine_the_maps uuid now w (s : store) v r s' :
  abs s v -> exec uuid now w s = (r, s') ->
  match r with
  | Ok _ => abs s' (effect uuid now w v) /\ usn_le (dsa v) (dsa (effect uuid now w v))
  | Err _ => exists v', abs s' v' /\ v' = with_dsa (dsa v') v /\ usn_le (dsa v) (dsa v')
  end.
Proof.
  intros Hs E. pose proof (wp_run _ _ _ _ _ E (exec_refines uuid now w v s Hs)) as H. destruct r as [a|e]; [|exact H].
  destruct H as [_ H]. split; [done|].
  assert (usn_le (dsa v) (dsa v)) as Hr by apply only_dsa_refl. assert (usn_le (dsa v) (dsa (used_usn uuid v))) as Hu by apply only_dsa_used.
  clear -Hr Hu. destruct w as [sam r password nt kerb realm|sam r|u|g|sid member present]; simpl.
  - by destruct (derived_key _ _ _ _).
  - done.
  - rewrite merge_principal_view. by destruct (negb _ && negb _).
  - unfold merge_group. destruct (stamp_at v (ig_sid g)); [destruct (negb _)|]; done.
  - unfold edited_member. by destruct (groups v !! sid).
Qed.

(** A local change is stamped by this DSA with a fresh USN, lands, and wins over
    what its object held before. *)
Theorem local_changes_win uuid now sam r password nt kerb realm (s s' : store) v stamp :
  abs s v -> (forall m, stamps v !! sam = Some m -> 0 <= md_version m < U32_MAX) ->
  upsert_local_principal uuid now sam r password nt kerb realm s = (Ok stamp, s') ->
  exists v' k, abs s' v' /\ derived_key sam password realm kerb = Some k /\
    principals v' !! sam = Some (mkAdPrincipalRecord sam r nt k false) /\
    stamp_at v' sam = Some stamp /\ originating_dsa stamp = own_dsa uuid v /\
    (forall d, dsa v = Some d -> highest_usn_of d < originating_usn stamp) /\
    (forall c, stamp_at v sam = Some c -> wins_over stamp c = true).
Proof.
  intros Hs Hv E. pose proof (long_term_key_derived sam password realm kerb) as Hk.
  destruct (derived_key _ _ _ _) as [k|]; [|by destruct Hk as [m Hm]; unfold upsert_local_principal in E; rewrite Hm in E].
  destruct (wp_run _ _ _ _ _ E (upsert_local_principal_refines uuid now sam r password nt kerb realm v k Hk s Hs)) as [-> Hs'].
  exists (local_principal uuid now (mkAdPrincipalRecord sam r nt k false) v), k.
  split_and!; [done|done|apply lookup_insert_eq| |done| |].
  - unfold stamp_at. simpl. rewrite lookup_insert_eq. simpl. rewrite stamp_of_meta; [done|apply to_uuid16_length].
  - intros d Hd. simpl. unfold next_usn, dsa_or. rewrite Hd. simpl. lia.
  - unfold stamp_at, local_stamp, wins_over, stamp_cmp. destruct (stamps v !! sam) as [m|]; [|done]. intros c [= <-]. simpl.
    specialize (Hv m eq_refl). unfold U32_MAX in Hv. unfold u32. rewrite Z.mod_small by lia.
    by rewrite (proj2 (Z.compare_gt_iff _ _)) by lia.
Qed.

(** ** RID blocks *)

(** With the counter in place, a block starts where the previous one ended. *)
Lemma reserve_rid_block_spec first block (s s' : store) p base :
  single (rid_pool s) = Some p -> reserve_rid_block first block s = (Ok base, s') ->
  base = next p /\ single (rid_pool s') = Some (mkRidPoolRecord (next p + block)) /\ base <= U32_MAX.
Proof.
  intros Hp E. apply (wp_run_ok _ (fun base s' => base = next p /\ single (rid_pool s') = Some (mkRidPoolRecord (next p + block)) /\
    base <= U32_MAX) _ _ _ E).
  apply wp_bind, wp_ignore, wp_create_single; [intros t Hn; congruence|]. intros e t Ht.
  apply wp_bind, wp_update_single.
  - intros b t' Hb Ht'. simpl in *. rewrite Ht, Hp in Hb. injection Hb as <-.
    destruct (Z.leb_spec (next p) U32_MAX); [|done]. by apply wp_ret.
  - intros t' Hn. simpl in Hn. congruence.
  - done.
Qed.

Fixpoint reserve_all (reqs : list (Z * Z)) : Db (list (Z * Z)) :=
  match reqs with
  | [] => mret []
  | (first, block) :: reqs' =>
      do! base <- reserve_rid_block first block;
      do! rest <- reserve_all reqs';
      mret ((base, block) :: rest)
  end.

(** No RID is handed out twice: the blocks reserved by any sequence of front-ends
    follow one another. *)
Theorem rid_blocks_are_disjoint reqs : forall (s s' : store) p blocks,
  single (rid_pool s) = Some p -> Forall (fun r => 0 <= r.2) reqs -> reserve_all reqs s = (Ok blocks, s') ->
  Forall (fun b => next p <= b.1 /\ b.1 <= U32_MAX) blocks /\
  StronglySorted (fun a b => a.1 + a.2 <= b.1) blocks.
Proof.
  induction reqs as [|[first block] reqs IH]; intros s s' p blocks Hp Hr E.
  - injection E as <- <-. split; constructor.
  - apply Forall_cons in Hr as [Hb Hr]. simpl in Hb.
    apply mbind_inv in E as [(e & _ & [=])|(base & s1 & E1 & E)].
    apply (reserve_rid_block_spec _ _ _ _ _ _ Hp) in E1 as (-> & Hp1 & Hm).
    apply mbind_inv in E as [(e & _ & [=])|(rest & s2 & E2 & [= <- <-])].
    destruct (IH _ _ _ _ Hp1 Hr E2) as [HF HS]. simpl in HF. split.
    + constructor; [simpl; lia|]. eapply Forall_impl; [exact HF|]. simpl. intros. lia.
    + constructor; [done|]. eapply Forall_impl; [exact HF|]. simpl. intros. lia.
Qed.

(** ** Membership edits *)

Lemma put_link_In link l x :
  In x (put_link link l) -> x = link \/ In x l.
Proof.
  induction l as [|y l IH]; simpl; [naive_solver|]. destruct (String.eqb _ _); simpl; naive_solver.
Qed.

Lemma put_link_iff link l x : NoDup (map sl_member_sid l) ->
  In x (put_link link l) <-> x = link \/ (In x l /\ sl_member_sid x <> sl_member_sid link).
Proof.
  induction l as [|y l IH]; simpl; [naive_solver|]. intros [Hn Hd]%NoDup_cons.
  destruct (String.eqb_spec (sl_member_sid y) (sl_member_sid link)) as [E|E]; simpl.
  - split; [|naive_solver]. intros [->|Hin]; [by left|]. right. split; [by right|]. intros E'. apply Hn.
    rewrite E, <- E'. by apply list_elem_of_In, in_map.
  - rewrite IH by done. naive_solver.
Qed.

(** Adding or removing a member here does that, for that member alone, and the
    link it leaves wins over the one it replaces on every partner. *)
Theorem membership_edits_win uuid now sid member present (s s' : store) v rec :
  abs s v -> groups v !! sid = Some rec -> NoDup (map sl_member_sid (g_member_links rec)) ->
  (forall l, In l (g_member_links rec) -> 0 <= sl_version l < U32_MAX) ->
  set_group_member_local uuid now sid member present s = (Ok (), s') ->
  exists v' rec' link, abs s' v' /\ groups v' !! sid = Some rec' /\
    In link (g_member_links rec') /\ sl_member_sid link = member /\ sl_present link = present /\
    (forall old, find_link member (g_member_links rec) = Some old -> wins_over (link_stamp link) (link_stamp old) = true) /\
    (In member (ag_member_sids (into_group rec')) <-> present = true) /\
    (forall m, m <> member -> In m (ag_member_sids (into_group rec')) <-> In m (ag_member_sids (into_group rec))).
Proof.
  intros Hs Hg Hd Hv E. pose proof (keyed_key _ _ _ _ _ (proj1 (proj2 Hs)) Hg) as Hsid.
  destruct (wp_run _ _ _ _ _ E (set_group_member_refines uuid now sid member present v s Hs)) as [_ Hs'].
  unfold edited_member in Hs'. rewrite Hg in Hs'. eexists _, (edited_group uuid now member present rec v), (local_link uuid now member present rec v).
  assert (forall x, In x (g_member_links (edited_group uuid now member present rec v)) <->
    x = local_link uuid now member present rec v \/ (In x (g_member_links rec) /\ sl_member_sid x <> member)) as Hin.
  { intros x. simpl. unfold sort_links. rewrite sort_by_perm. by apply put_link_iff. }
  split_and!; [exact Hs'|simpl; rewrite Hsid; apply lookup_insert_eq|by apply Hin; left|done|done| | |].
  - intros old Ho. unfold wins_over, stamp_cmp. simpl. rewrite Ho. apply find_some in Ho as [Ho _]. specialize (Hv _ Ho).
    unfold U32_MAX in Hv. unfold u32. rewrite Z.mod_small by lia. by rewrite (proj2 (Z.compare_gt_iff _ _)) by lia.
  - simpl. rewrite in_map_iff. setoid_rewrite filter_In. split.
    + intros (x & <- & [->|[_ Hne]]%Hin & Hp); [done|]. done.
    + intros ->. exists (local_link uuid now member true rec v). split; [done|]. split; [|done]. apply Hin. by left.
  - intros m Hm. simpl. rewrite !in_map_iff. setoid_rewrite filter_In. split.
    + intros (x & <- & [->|[Hx _]]%Hin & Hp); [done|]. by exists x.
    + intros (x & <- & Hx & Hp). exists x. split; [done|]. split; [|done]. apply Hin. by right.
Qed.

(** ** Tombstones *)

(** The view without the accounts of a RID, and without the stamps of one name. *)
Definition without_rid (r : Z) (v : view) : view :=
  mkView (base.filter (fun kp : string * AdPrincipalRecord => rid kp.2 <> r) (principals v)) (groups v) (stamps v) (cursors v) (dsa v).
Definition without_stamps (sam : string) (v : view) : view :=
  mkView (principals v) (groups v) (delete (secret_key sam) (delete sam (stamps v))) (cursors v) (dsa v).

Lemma wp_delete_rid r s v (Q : DbResult unit -> store -> Prop) :
  abs s v -> (forall s', abs s' (without_rid r v) -> Q (Ok ()) s') -> (forall e s', Q (Err e) s') ->
  wp (on_principals (delete_where (fun p => rid p =? r))) Q s.
Proof.
  intros (H1 & H2 & H3 & H4 & H5) Hok Herr.
  apply (wp_keyed_delete sam_account_name _ _ (principals v) _
           (base.filter (fun kp : string * AdPrincipalRecord => rid kp.2 <> r))); [done| |intros t Ht; apply Hok; by split_and!|done].
  intros k. rewrite map_lookup_filter. destruct (principals v !! k) as [p|]; simpl; [|done].
  destruct (Z.eqb_spec (rid p) r); [by rewrite option_guard_False by tauto|by rewrite option_guard_True].
Qed.

Lemma wp_delete_stamps sam s v (Q : DbResult unit -> store -> Prop) :
  abs s v -> (forall s', abs s' (without_stamps sam v) -> Q (Ok ()) s') -> (forall e s', Q (Err e) s') ->
  wp (on_metadata (delete_where (fun m => has_key md_object_key sam m || has_key md_object_key (secret_key sam) m))) Q s.
Proof.
  intros (H1 & H2 & H3 & H4 & H5) Hok Herr.
  apply (wp_keyed_delete md_object_key _ _ (stamps v) _ (fun m => delete (secret_key sam) (delete sam m)));
    [done| |intros t Ht; apply Hok; by split_and!|done].
  intros k. destruct (stamps v !! k) as [m|] eqn:E.
  - pose proof (keyed_key _ _ _ _ _ H3 E) as <-. unfold has_key.
    destruct (String.eqb_spec (md_object_key m) sam) as [<-|N1]; simpl.
    + destruct (decide (secret_key (md_object_key m) = md_object_key m)) as [->|]; [by rewrite lookup_delete_eq|].
      by rewrite lookup_delete_ne, lookup_delete_eq.
    + destruct (String.eqb_spec (md_object_key m) (secret_key sam)) as [->|N2]; [by rewrite lookup_delete_eq|].
      by rewrite !lookup_delete_ne by congruence.
  - destruct (decide (secret_key sam = k)) as [<-|]; [by rewrite lookup_delete_eq|].
    destruct (decide (sam = k)) as [<-|]; [by rewrite lookup_delete_ne, lookup_delete_eq|]. by rewrite !lookup_delete_ne.
Qed.

Lemma delete_replicated_principal_spec r s v :
  abs s v -> wp (delete_replicated_principal false r)
    (fun o s' => match o with
                 | Ok (Some sam) => abs s' (without_stamps sam (without_rid r v)) /\
                     exists p, principals v !! sam = Some p /\ rid p = r
                 | Ok None => abs s' v /\ forall sam p, principals v !! sam = Some p -> rid p <> r
                 | Err _ => abs s' v
                 end) s.
Proof.
  intros Hs. unfold delete_replicated_principal. apply wp_bind. unfold wp, take_or_default, read_from, select_one. simpl.
  destruct (select _ _ _ _) as [l|e] eqn:E; simpl; [|done].
  destruct (select_ok _ _ _ _ _ E) as (all & Hp & _ & ->); [by left|done|]. simpl.
  destruct all as [|[k p] all]; simpl.
  - split; [done|]. intros sam p Ep Hr. pose proof (keyed_key _ _ _ _ _ (proj1 Hs) Ep) as <-.
    apply (keyed_In _ _ _ _ (proj1 Hs)) in Ep. apply in_map_iff in Ep as (kr & <- & Hin).
    apply Permutation_nil in Hp. apply (in_nil (a := kr)). rewrite <- Hp. apply filter_In. split; [done|]. by apply Z.eqb_eq.
  - assert (In (k, p) (List.filter (fun kr => rid kr.2 =? r) (rows (ad_principal s)))) as [Hin Hr]%filter_In.
    { apply (perm_In ((k, p) :: all)); [done|by left]. }
    apply Z.eqb_eq in Hr. simpl in Hr.
    apply wp_bind, wp_atomically, wp_bind, (wp_delete_rid _ _ v); [done| |done]. intros s1 Hs1.
    apply (wp_delete_stamps _ _ (without_rid r v)); [done| |done]. intros s2 Hs2. apply wp_ret. split; [done|].
    exists p. split; [|done]. apply (keyed_In _ _ _ _ (proj1 Hs)). apply in_map_iff. by exists (k, p).
Qed.

(** A tombstone removes the account it names, with both its stamps, and no other
    account or stamp. *)
Theorem tombstone_removes_the_account r (s s' : store) v sam :
  abs s v -> (forall a b p q, principals v !! a = Some p -> principals v !! b = Some q -> rid p = rid q -> a = b) ->
  delete_replicated_principal false r s = (Ok (Some sam), s') ->
  exists v', abs s' v' /\ is_Some (principals v !! sam) /\ principals v' = delete sam (principals v) /\
    stamps v' = delete (secret_key sam) (delete sam (stamps v)) /\ groups v' = groups v /\
    (well_stamped v -> plain_name sam = true -> well_stamped v').
Proof.
  intros Hs Hu E. destruct (wp_run _ _ _ _ _ E (delete_replicated_principal_spec r s v Hs)) as (Hs' & p & Ep & Hr).
  assert (base.filter (fun kp : string * AdPrincipalRecord => rid kp.2 <> r) (principals v) = delete sam (principals v)) as Ef.
  { apply map_eq. intros k. rewrite map_lookup_filter. destruct (decide (sam = k)) as [<-|Hne].
    - rewrite lookup_delete_eq, Ep. simpl. by rewrite option_guard_False by tauto.
    - rewrite lookup_delete_ne by done. destruct (principals v !! k) as [q|] eqn:Eq; simpl; [|done].
      rewrite option_guard_True; [done|]. simpl. intros Hq. apply Hne. apply (Hu sam k p q Ep Eq). congruence. }
  eexists. split; [exact Hs'|]. split_and!; [eauto|exact Ef|done|done|].
  intros Hw Hp sam' Hp' Hg. simpl. rewrite Ef. destruct (decide (sam = sam')) as [<-|Hne].
  - rewrite (lookup_delete_eq (delete sam (stamps v))), lookup_delete_ne, lookup_delete_eq.
    + by intros [[? [=]]|[? [=]]].
    + intros H. symmetry in H. by apply plain_not_secret in H.
  - rewrite !lookup_delete_ne; try done; [by apply Hw|..].
    all: first [by apply plain_not_secret|by intros H%secret_key_inj; congruence|by intros H; symmetry in H; apply plain_not_secret in H].
Qed.

(** ** The domain SID *)

Definition sid_rows (s : store) : list DomainSidRecord := map snd (rows (domain_sid_state s)).

Lemma get_domain_sid_spec s (Q : DbResult (option (list Z)) -> store -> Prop) :
  (length (sid_rows s) <= 1)%nat -> Q (Ok (subauth <$> head (sid_rows s))) s -> (forall e, Q (Err e) s) -> wp get_domain_sid Q s.
Proof.
  intros Hl H1 H2. apply wp_bind. unfold wp, read_from, select_one. simpl.
  destruct (select _ _ _ _) as [l|e] eqn:E; simpl; [|apply H2].
  destruct (select_ok _ _ _ _ _ E) as (all & Hp & _ & ->); [by left|done|]. apply wp_ret.
  assert (map snd all ≡ₚ sid_rows s) as Hq.
  { rewrite Hp. unfold sid_rows. by rewrite (filter_map_snd (fun _ => true)), List.filter_true. }
  clear Hp E. revert H1. destruct (sid_rows s) as [|r [|]], all as [|[k r'] all]; simpl in *; try lia; try done.
  - apply Permutation_length in Hq. simpl in Hq. lia.
  - apply Permutation_length in Hq. simpl in Hq. lia.
  - apply Permutation_singleton_r in Hq. injection Hq as -> _. done.
Qed.

(** Setting the SID replaces the record. *)
Lemma set_domain_sid_spec sub actor s :
  (length (sid_rows s) <= 1)%nat -> wp (set_domain_sid sub actor) (on_ok (fun _ s' => sid_rows s' = [mkDomainSidRecord sub actor])) s.
Proof.
  intros Hl. apply wp_bind, get_domain_sid_spec; [done| |done].
  assert (forall s1, sid_rows s1 = [] -> wp (on_domain_sid (create_row (mkDomainSidRecord sub actor)))
    (on_ok (fun _ s' => sid_rows s' = [mkDomainSidRecord sub actor])) s1) as Hc.
  { intros s1 H1. unfold wp, on_domain_sid, on_table, create_row.
    destruct (create _ (domain_sid_state s1)) as [o t] eqn:E. apply create_ok in E.
    destruct o as [[[k r]|]|e]; simpl; [|done..]. destruct E as (_ & _ & Hp). unfold sid_rows in *. simpl.
    apply Permutation_singleton_r. rewrite Hp. simpl. by rewrite H1. }
  destruct (head (sid_rows s)) as [r|] eqn:Eh; simpl.
  - apply wp_bind, wp_delete_where; [|done]. intros t Ht. apply Hc. unfold sid_rows. simpl.
    rewrite (filter_agree _ (fun _ => false)) in Ht by done. rewrite List.filter_false in Ht. apply Permutation_nil_r in Ht. by rewrite Ht.
  - apply wp_bind, wp_ret, Hc. by destruct (sid_rows s).
Qed.

(** The domain keeps the SID it was given first: a later seed does not change it. *)
Theorem domain_sid_is_stable sub1 sub2 a1 a2 (s s1 s2 : store) x y :
  (length (sid_rows s) <= 1)%nat ->
  ensure_domain_sid sub1 a1 s = (Ok x, s1) -> ensure_domain_sid sub2 a2 s1 = (Ok y, s2) -> y = x /\ sid_rows s2 = sid_rows s1.
Proof.
  intros Hl E1 E2.
  assert (exists r, sid_rows s1 = [r] /\ subauth r = x) as (r & Hr & Hx).
  { apply (wp_run_ok _ (fun x s1 => exists r, sid_rows s1 = [r] /\ subauth r = x) _ _ _ E1).
    apply wp_bind, get_domain_sid_spec; [done| |done]. destruct (sid_rows s) as [|r [|]] eqn:Er; simpl in *; [| |lia].
    - apply wp_bind. assert (length (sid_rows s) <= 1)%nat as Hl' by (rewrite Er; simpl; lia).
      apply (wp_mono _ _ _ _ (set_domain_sid_spec sub1 a1 s Hl')). intros [[]|e] s'; [|done]. intros H. apply wp_ret. by eexists.
    - apply wp_ret. by exists r. }
  apply (wp_run_ok _ (fun y s2 => y = x /\ sid_rows s2 = sid_rows s1) _ _ _ E2).
  apply wp_bind, get_domain_sid_spec; [rewrite Hr; simpl; lia| |done]. rewrite Hr. simpl. by apply wp_ret.
Qed.
End repository.

(** ** Samples *)

Abbreviation sample_tables := (Store (list_table AdPrincipalRecord) (list_table AdGroupRecord) (list_table ReplMetadataRecord)
  (list_table ReplCursorRecord) (list_table DomainSidRecord) (option DsaStateRecord) (option RidPoolRecord)).

Definition empty_ad_store : sample_tables := mkStore lt_empty lt_empty lt_empty lt_empty lt_empty None None.
Definition empty_view : view := mkView ∅ ∅ ∅ ∅ None.

Lemma abs_empty : abs empty_ad_store empty_view.
Proof. split_and!; done. Qed.

Lemma well_stamped_empty : well_stamped empty_view.
Proof. intros sam _ _ [[x H]|[x H]]; done. Qed.

(** Three DSAs, and a key derivation that keeps the password. *)
Definition dsa_a : bytes := replicate 16 0xA1.
Definition dsa_b : bytes := replicate 16 0xB2.
Definition dsa_c : bytes := replicate 16 0xC3.
Definition sample_generate_key (password salt : bytes) : string + bytes := inr (salt ++ password).
Definition sample_md4 (b : bytes) : bytes := to_uuid16 b.

Definition stamp_v (n t : Z) (d : bytes) : ReplStamp := mkReplStamp n t d n 0.

(** [alice], created on [dsa_a]; then her password is changed on [dsa_b] while she
    is disabled on [dsa_a]. *)
Definition alice_created : incoming_principal :=
  mkIncoming "alice" 1105 [1] [2] false (stamp_v 1 100 dsa_a) (stamp_v 1 100 dsa_a).
Definition alice_new_password : incoming_principal :=
  mkIncoming "alice" 1105 [3] [4] false (stamp_v 1 100 dsa_a) (stamp_v 2 200 dsa_b).
Definition alice_disabled : incoming_principal :=
  mkIncoming "alice" 1105 [1] [2] true (stamp_v 2 150 dsa_a) (stamp_v 1 100 dsa_a).

Definition page_one : list incoming_principal := [alice_created; alice_new_password; alice_disabled].
Definition page_two : list incoming_principal := [alice_disabled; alice_new_password; alice_created; alice_disabled].
Definition replica_one : sample_tables := (apply_principals dsa_b page_one empty_ad_store).2.
Definition replica_two : sample_tables := (apply_principals dsa_c page_two empty_ad_store).2.

Example converged_alice :
  (read_principal "alice" replica_one).1 = Ok (Some (mkAdPrincipalRecord "alice" 1105 [3] [4] true)) /\
  (read_principal "alice" replica_two).1 = (read_principal "alice" replica_one).1.
Proof. split; vm_compute; reflexivity. Qed.

Lemma page_ok : Forall (incoming_ok empty_view) page_one /\ Forall (incoming_ok empty_view) page_two.
Proof. split; repeat constructor. Qed.

Lemma sample_same_writes :
  same_writes object_write "alice" (object_register empty_view "alice") (object_register empty_view "alice") page_one page_two /\
  same_writes secret_write "alice" (secret_register empty_view "alice") (secret_register empty_view "alice") page_one page_two.
Proof.
  assert (forall X (w : incoming_principal -> ReplStamp * X), contents None (writes_to w "alice" page_one) = map w page_one) as E1 by done.
  assert (forall X (w : incoming_principal -> ReplStamp * X), contents None (writes_to w "alice" page_two) = map w page_two) as E2 by done.
  change (object_register empty_view "alice") with (@None (ReplStamp * (Z * bool))).
  change (secret_register empty_view "alice") with (@None (ReplStamp * (bytes * bytes))).
  unfold same_writes, page_one, page_two in *. rewrite !E1, !E2. split; (split; [intros i; simpl; tauto|]);
    intros i j [<-|[<-|[<-|[]]]] [<-|[<-|[<-|[]]]]; done.
Qed.

Lemma replicas_converge_witness :
  exists v1' v2', abs replica_one v1' /\ abs replica_two v2' /\
    object_register v1' "alice" = object_register v2' "alice" /\ secret_register v1' "alice" = secret_register v2' "alice" /\
    is_Some (principals v1' !! "alice"%string) /\ principals v1' !! "alice"%string = principals v2' !! "alice"%string.
Proof.
  apply (replicas_converge dsa_b dsa_c page_one page_two empty_ad_store empty_ad_store replica_one replica_two 3 2
           empty_view empty_view "alice");
    [apply abs_empty|apply abs_empty|apply well_stamped_empty|apply well_stamped_empty|apply page_ok|apply page_ok
    |vm_compute; reflexivity|vm_compute; reflexivity|by left|apply sample_same_writes|apply sample_same_writes].
Defined.

(** A group whose member [m1] is removed on [dsa_b] while [m2] is added on [dsa_a]. *)
Definition in_link (m : string) (present : bool) (n t : Z) (d : bytes) : IncomingLink := mkIncomingLink m present n d n t.
Definition group_page (name : string) (links : list IncomingLink) (st : ReplStamp) : incoming_group :=
  mkIncomingGroup name 1200 "s1" links st.

Definition staff_created : incoming_group := group_page "staff" [in_link "m1" true 1 100 dsa_a] (stamp_v 1 100 dsa_a).
Definition staff_removed : incoming_group := group_page "staff" [in_link "m1" false 2 200 dsa_b] (stamp_v 1 100 dsa_a).
Definition staff_added : incoming_group := group_page "staff" [in_link "m2" true 1 150 dsa_a; in_link "m1" true 1 100 dsa_a] (stamp_v 1 100 dsa_a).

Definition group_pages_one : list incoming_group := [staff_created; staff_removed; staff_added].
Definition group_pages_two : list incoming_group := [staff_added; staff_created; staff_removed; staff_added].
Definition groups_one : sample_tables := (apply_groups dsa_b group_pages_one empty_ad_store).2.
Definition groups_two : sample_tables := (apply_groups dsa_c group_pages_two empty_ad_store).2.

Example converged_staff :
  result_map (map ag_member_sids) (list_ad_groups groups_one).1 = Ok [["m2"%string]] /\
  (list_ad_groups groups_two).1 = (list_ad_groups groups_one).1.
Proof. split; vm_compute; reflexivity. Qed.

Lemma sample_same_links member :
  let h1 := contents (link_register (by_member (links_of empty_view "s1")) member) (link_writes member (incoming_links "s1" group_pages_one)) in
  let h2 := contents (link_register (by_member (links_of empty_view "s1")) member) (link_writes member (incoming_links "s1" group_pages_two)) in
  (forall i, In i h1 <-> In i h2) /\ coherent h1.
Proof.
  change (link_register (by_member (links_of empty_view "s1")) member) with (@None (ReplStamp * StoredLink)).
  set (a := in_link "m1" true 1 100 dsa_a). set (b := in_link "m1" false 2 200 dsa_b). set (c := in_link "m2" true 1 150 dsa_a).
  change (incoming_links "s1" group_pages_one) with [a; b; c; a].
  change (incoming_links "s1" group_pages_two) with [c; a; a; b; c; a].
  unfold link_writes, contents. cbn [List.filter].
  change (il_member_sid a) with "m1"%string. change (il_member_sid b) with "m1"%string. change (il_member_sid c) with "m2"%string.
  destruct (String.eqb "m1" member), (String.eqb "m2" member); simpl; (split; [intros i; tauto|]);
    intros i j; simpl; intros H1 H2; destruct_or?; subst; done.
Qed.

Lemma memberships_converge_witness :
  exists v1' v2', abs groups_one v1' /\ abs groups_two v2' /\ links_of v1' "s1" = links_of v2' "s1" /\
    StronglySorted (fun a b => str_le (sl_member_sid a) (sl_member_sid b) = true) (links_of v1' "s1").
Proof.
  apply (memberships_converge dsa_b dsa_c group_pages_one group_pages_two empty_ad_store empty_ad_store groups_one groups_two
           empty_view empty_view "s1");
    [apply abs_empty|apply abs_empty|vm_compute; reflexivity|vm_compute; reflexivity|by left|by left
    |repeat constructor|repeat constructor|apply sample_same_links].
Defined.

(** Views of the sample stores. *)
Lemma abs_replica_one : abs replica_one (merge_principals dsa_b page_one empty_view).
Proof. apply (apply_principals_ok dsa_b page_one empty_ad_store _ 3); [apply abs_empty|vm_compute; reflexivity]. Qed.

Lemma abs_groups_one : abs groups_one (merge_groups dsa_b group_pages_one empty_view).
Proof. apply (apply_groups_ok dsa_b group_pages_one empty_ad_store); [apply abs_empty|vm_compute; reflexivity]. Qed.

Definition written_store : sample_tables := (exec sample_generate_key dsa_b 300 (WDisabled "bob" 1106) replica_one).2.

Lemma stamped_writes_refine_the_maps_witness :
  let v := merge_principals dsa_b page_one empty_view in
  abs written_store (effect sample_generate_key dsa_b 300 (WDisabled "bob" 1106) v) /\
  usn_le (dsa v) (dsa (effect sample_generate_key dsa_b 300 (WDisabled "bob" 1106) v)).
Proof.
  exact (stamped_writes_refine_the_maps sample_generate_key dsa_b 300 (WDisabled "bob" 1106) replica_one _ (Ok ()) written_store
           abs_replica_one ltac:(vm_compute; reflexivity)).
Defined.

Definition local_change : sample_tables :=
  (upsert_local_principal sample_generate_key dsa_b 300 "alice" 1105 "s3cret" [9] None "EXAMPLE.COM" replica_one).2.
Definition changed_stamp : ReplStamp := mkReplStamp 3 300 dsa_b 4 4.

Lemma alice_version m : stamps (merge_principals dsa_b page_one empty_view) !! "alice"%string = Some m -> 0 <= md_version m < U32_MAX.
Proof.
  assert (stamps (merge_principals dsa_b page_one empty_view) !! "alice"%string =
    Some (mkReplMetadataRecord "alice" 2 150 dsa_a 2 3)) as -> by (vm_compute; reflexivity).
  intros E. assert (m = mkReplMetadataRecord "alice" 2 150 dsa_a 2 3) as -> by congruence. vm_compute. split; done.
Qed.

Lemma local_changes_win_witness :
  let v := merge_principals dsa_b page_one empty_view in
  exists v' k, abs local_change v' /\ derived_key sample_generate_key "alice" "s3cret" "EXAMPLE.COM" None = Some k /\
    principals v' !! "alice"%string = Some (mkAdPrincipalRecord "alice" 1105 [9] k false) /\
    stamp_at v' "alice" = Some changed_stamp /\ originating_dsa changed_stamp = own_dsa dsa_b v /\
    (forall d, dsa v = Some d -> highest_usn_of d < originating_usn changed_stamp) /\
    (forall c, stamp_at v "alice" = Some c -> wins_over changed_stamp c = true).
Proof.
  apply (local_changes_win sample_generate_key dsa_b 300 "alice" 1105 "s3cret" [9] None "EXAMPLE.COM" replica_one local_change
           (merge_principals dsa_b page_one empty_view) changed_stamp);
    [apply abs_replica_one|apply alice_version|vm_compute; reflexivity].
Defined.

Definition cursor_store : sample_tables := (record_cursor 300 dsa_c 7 replica_one).2.

Lemma recorded_cursor_is_sent_witness :
  exists c, In c [mkUtdvCursor dsa_c 7 300; mkUtdvCursor dsa_b 3 0] /\ c_dsa c = dsa_c /\ 7 <= c_high_usn c /\
    forall old, cursors (merge_principals dsa_b page_one empty_view) !! dsa_hex dsa_c = Some old -> rc_high_usn old <= c_high_usn c.
Proof.
  apply (recorded_cursor_is_sent dsa_b 300 dsa_c 7 replica_one cursor_store cursor_store);
    [apply abs_replica_one|done|repeat constructor; done|vm_compute; done|vm_compute; reflexivity|vm_compute; reflexivity].
Defined.

Definition edited_store : sample_tables := (set_group_member_local dsa_b 400 "s1" "m2" false groups_one).2.

Lemma membership_edits_win_witness :
  let rec := mkAdGroupRecord "staff" 1200 "s1" [mkStoredLink "m1" false 2 dsa_b 2 200; mkStoredLink "m2" true 1 dsa_a 1 150] in
  exists v' rec' link, abs edited_store v' /\ groups v' !! "s1"%string = Some rec' /\
    In link (g_member_links rec') /\ sl_member_sid link = "m2"%string /\ sl_present link = false /\
    (forall old, find_link "m2" (g_member_links rec) = Some old -> wins_over (link_stamp link) (link_stamp old) = true) /\
    (In "m2"%string (ag_member_sids (into_group rec')) <-> false = true) /\
    (forall m, m <> "m2"%string -> In m (ag_member_sids (into_group rec')) <-> In m (ag_member_sids (into_group rec))).
Proof.
  apply (membership_edits_win dsa_b 400 "s1" "m2" false groups_one edited_store (merge_groups dsa_b group_pages_one empty_view));
    [apply abs_groups_one|vm_compute; reflexivity|apply NoDup_ListNoDup; repeat constructor; simpl; naive_solver
    |intros l [<-|[<-|[]]]; split; done|vm_compute; reflexivity].
Defined.

(** ** Behaviours to know of *)

(** A local password change does not advance the stamp of the secret: a password
    set elsewhere before it ([t = 200]) still replaces it ([t = 500]). *)
Definition local_password_kept : DbResult (option AdPrincipalRecord) :=
  (read_principal "alice"
    (apply_principals dsa_b [alice_new_password]
      (upsert_local_principal sample_generate_key dsa_b 500 "alice" 1105 "s3cret" [9] None "EXAMPLE.COM"
        (apply_principals dsa_b [alice_created] empty_ad_store).2).2).2).1.

Example older_password_replaces_local_one : result_map (fmap nt_hash_of) local_password_kept = Ok (Some [3]).
Proof. vm_compute. reflexivity. Qed.

(** A group takes the name of the last page, not of the winning stamp: replicas
    that receive a rename in different orders keep different names. *)
Definition staff_renamed : incoming_group := group_page "people" [] (stamp_v 2 300 dsa_b).

Example renames_diverge :
  result_map (map ag_sam_account_name) (list_ad_groups (apply_groups dsa_c [staff_created; staff_renamed] empty_ad_store).2).1 = Ok ["people"%string] /\
  result_map (map ag_sam_account_name) (list_ad_groups (apply_groups dsa_c [staff_renamed; staff_created] empty_ad_store).2).1 = Ok ["staff"%string].
Proof. split; vm_compute; reflexivity. Qed.

(** A deleted account leaves no stamp behind: a page that predates the deletion
    brings it back. *)
Example deleted_account_returns :
  let deleted := (delete_replicated_principal false 1105 replica_one).2 in
  (read_principal "alice" deleted).1 = Ok None /\
  result_map (fmap rid) (read_principal "alice" (apply_principals dsa_b [alice_created] deleted).2).1 = Ok (Some 1105).
Proof. split; vm_compute; reflexivity. Qed.

(** An account named after another's secret key shares its stamp. *)
Example secret_key_collision :
  let s := (create_disabled_ad_principal dsa_b 900 (secret_key "alice") 1107 replica_one).2 in
  result_map (fmap version) (repl_stamp (secret_key "alice") s).1 = Ok (Some 3) /\
  result_map (fmap originating_time) (repl_stamp (secret_key "alice") s).1 = Ok (Some 900).
Proof. split; vm_compute; reflexivity. Qed.
