(* ===== verification/Ldap.v ===== *)
(** * The LDAP domain: names, entries and access rules

    Models [crates/magnetite-core/src/domains/ldap]: the syntax of distinguished
    names and the form checks ([validate.rs]), entries with their projections and
    the access rules ([model.rs]).  A name is compared after [normalize_dn], which
    trims and lower-cases it; [normalize_dn_idem] and [normalize_join] say that
    normal names stay normal, also when they are put together with a comma, which
    the repository of the directory relies on. *)

From S2P Require Import Prelude Bytes RustStr.

(** ** Names ([validate.rs]) *)

Definition MSG_CN : string := "CN を正しく入力してください。".
Definition MSG_UID : string := "uid を正しく入力してください。".
Definition MSG_SN : string := "姓 (sn) を正しく入力してください。".
Definition MSG_OU : string := "OU 名を正しく入力してください。".
Definition MSG_MAIL : string := "メールアドレスの形式が正しくありません。".
Definition MSG_DN : string := "DN の形式が正しくありません。".

Definition normalize_dn (dn : string) : string := to_ascii_lowercase (trim dn).

Definition is_valid_dn (dn : string) : bool :=
  let dn := trim dn in
  negb (is_empty dn) &&
  forallb (fun comp => match split_once "=" (trim comp) with
                       | Some (a, v) => negb (is_empty (trim a)) && negb (is_empty (trim v))
                       | None => false
                       end) (split "," dn).

Definition rdn_of (dn : string) : string := trim (unwrap_or EmptyString (head (split "," dn))).

Definition build_dn (rdn parent_dn : string) : string := trim rdn +:+ "," +:+ trim parent_dn.

Definition check_name (value msg : string) : string + unit :=
  let len := char_count (trim value) in
  if (1 <=? len) && (len <=? 64) then inr () else inl msg.

Definition check_email (mail : string) : string + unit :=
  if is_empty mail then inr ()
  else match split_once "@" mail with
       | Some (local, domain) => if negb (is_empty local) && contains_char "." domain then inr () else inl MSG_MAIL
       | None => inl MSG_MAIL
       end.

Definition uid_char (c : ascii) : bool :=
  is_ascii_alphanumeric c || existsb (Ascii.eqb c) ["."; "_"; "-"]%char.

Definition check_user (uid cn sn mail : string) : string + unit :=
  if is_empty (trim uid) || (64 <? char_count (trim uid)) || negb (str_forallb uid_char uid) then inl MSG_UID
  else match check_name cn MSG_CN with
       | inl e => inl e
       | inr _ => match check_name sn MSG_SN with
                  | inl e => inl e
                  | inr _ => check_email (trim mail)
                  end
       end.

Definition check_group (cn : string) : string + unit := check_name cn MSG_CN.
Definition check_ou (ou : string) : string + unit := check_name ou MSG_OU.
Definition check_member_dn (dn : string) : string + unit := if is_valid_dn dn then inr () else inl MSG_DN.

(** ** Entries ([model.rs]) *)

Definition OC_USER : string := "inetOrgPerson".
Definition OC_GROUP : string := "groupOfNames".
Definition OC_OU : string := "organizationalUnit".
Definition OC_DOMAIN : string := "domain".
Definition OC_CONTAINER : string := "container".
Definition ATTR_PASSWORD : string := "userPassword".

(** [BTreeMap<String, Vec<String>>], and its keys in their order. *)
Abbreviation Attributes := (gmap string (list string)).
Definition keys (m : Attributes) : list string := sort_by str_le (map fst (map_to_list m)).

Record DirectoryEntry := mkDirectoryEntry {
  e_id : string;
  e_created_at : Z;
  e_updated_at : Z;
  e_created_by : string;
  e_dn : string;
  e_rdn : string;
  e_parent_dn : option string;
  e_object_classes : list string;
  e_structural_class : string;
  e_attributes : Attributes;
  e_has_children : bool;
}.

Definition attr (e : DirectoryEntry) (name : string) : option string := e_attributes e !! name ≫= head.
Definition attr_values (e : DirectoryEntry) (name : string) : list string := unwrap_or [] (e_attributes e !! name).

Definition redacted (e : DirectoryEntry) : DirectoryEntry :=
  mkDirectoryEntry (e_id e) (e_created_at e) (e_updated_at e) (e_created_by e) (e_dn e) (e_rdn e) (e_parent_dn e)
    (e_object_classes e) (e_structural_class e) (delete ATTR_PASSWORD (e_attributes e)) (e_has_children e).

Record LdapUser := mkLdapUser {
  u_dn : string; u_uid : string; u_cn : string; u_sn : string; u_mail : option string; u_enabled : bool }.
Record LdapGroup := mkLdapGroup {
  gr_dn : string; gr_cn : string; gr_description : option string; gr_members : list string }.
Record LdapOu := mkLdapOu { ou_dn : string; ou_ou : string; ou_description : option string; ou_has_children : bool }.
Record TreeNode := mkTreeNode { tn_dn : string; tn_rdn : string; tn_structural_class : string; tn_has_children : bool }.
Definition TreeNode_from (e : DirectoryEntry) : TreeNode :=
  mkTreeNode (e_dn e) (e_rdn e) (e_structural_class e) (e_has_children e).

(** The state of the content-synchronisation consumer. *)
Record LdapSyncState := mkLdapSyncState {
  cookie : string; last_sync : option Z; sync_applied : Z; sync_deleted : Z; sync_last_error : option string }.

(** ** Access rules *)

Inductive LdapAclOperation := OpSearch | OpRead | OpAdd | OpModify | OpDelete | OpModifyDn | OpCompare.
Inductive LdapAclSubject := Anyone | Anonymous | Authenticated | SubjectDn (dn : string) | GroupMember (group : string).
Inductive LdapAclEffect := Allow | Deny.

#[export] Instance LdapAclOperation_eq_dec : EqDecision LdapAclOperation.
Proof. solve_decision. Defined.
#[export] Instance LdapAclSubject_eq_dec : EqDecision LdapAclSubject.
Proof. solve_decision. Defined.
#[export] Instance LdapAclEffect_eq_dec : EqDecision LdapAclEffect.
Proof. solve_decision. Defined.

Record LdapAclRule := mkLdapAclRule {
  acl_id : string;
  acl_created_at : Z;
  acl_updated_at : Z;
  acl_created_by : string;
  priority : Z;
  target_dn : string;
  operations : list LdapAclOperation;
  subject : LdapAclSubject;
  effect : LdapAclEffect;
  acl_enabled : bool;
}.

(** ** Trimming *)

(** No white-space character is a prefix of another, has a comma or a letter. *)
Lemma white_space_prefix_free :
  forallb (fun w => forallb (fun w' => negb (starts_with w' w) || String.eqb w w') white_space) white_space = true.
Proof. vm_compute. reflexivity. Qed.

Lemma white_space_plain :
  forallb (fun w => negb (is_empty w) && str_forallb (fun c => negb (Ascii.eqb "," c) && negb (is_ascii_alphabetic c)) w) white_space = true.
Proof. vm_compute. reflexivity. Qed.

Lemma white_chars w : In w white_space ->
  w <> EmptyString /\ str_forallb (fun c => negb (Ascii.eqb "," c) && negb (is_ascii_alphabetic c)) w = true.
Proof.
  intros H. pose proof white_space_plain as Hp. rewrite forallb_forall in Hp. specialize (Hp _ H).
  apply andb_true_iff in Hp as [H1 H2]. split; [|done]. by destruct w.
Qed.

Lemma prefix_prefix a b x y : a +:+ x = b +:+ y -> (String.length a <= String.length b)%nat -> exists z, b = a +:+ z.
Proof.
  revert b. induction a as [|c a IH]; intros b E H; [by exists b|]. destruct b as [|c' b]; [simpl in H; lia|].
  cbn in E. injection E as -> E. simpl in H. destruct (IH b E) as [z ->]; [lia|]. by exists z.
Qed.

Lemma white_unique w w' x y : In w white_space -> In w' white_space -> w +:+ x = w' +:+ y -> w = w'.
Proof.
  intros Hw Hw' E. pose proof white_space_prefix_free as Hp. rewrite forallb_forall in Hp.
  assert (forall a b, In a white_space -> In b white_space -> (exists z, b = a +:+ z) -> a = b) as Hpf.
  { intros a b Ha Hb Hz. specialize (Hp _ Ha). rewrite forallb_forall in Hp. specialize (Hp _ Hb).
    apply starts_with_iff in Hz. rewrite Hz in Hp. by apply String.eqb_eq in Hp. }
  destruct (Nat.le_ge_cases (String.length w) (String.length w')).
  - apply Hpf; [done..|]. by eapply prefix_prefix.
  - symmetry. apply Hpf; [done..|]. by eapply prefix_prefix.
Qed.

Lemma strip_one_Some s r : strip_one white_space s = Some r <-> exists w, In w white_space /\ s = w +:+ r.
Proof.
  split.
  - generalize white_space. intros ws. induction ws as [|w ws IH]; cbn [strip_one]; [done|].
    destruct (strip_prefix w s) as [x|] eqn:E; [|intros [w' [? ?]]%IH; exists w'; by (split; [right|])].
    intros [= ->]. apply strip_prefix_Some in E. exists w. by (split; [left|]).
  - intros (w & Hw & ->).
    assert (forall ws, (forall x, In x ws -> In x white_space) -> In w ws -> strip_one ws (w +:+ r) = Some r) as Hg; [|by apply Hg].
    intros ws. induction ws as [|w' ws IH]; intros Hsub Hin; [done|]. cbn [strip_one].
    destruct (strip_prefix w' (w +:+ r)) as [x|] eqn:E.
    + apply strip_prefix_Some in E. assert (w = w') as <- by (eapply white_unique; [done| |exact E]; apply Hsub; by left).
      f_equal. revert E. clear. induction w as [|c w IH]; cbn; intros E; [done|]. injection E. auto.
    + apply IH; [intros; apply Hsub; by right|]. destruct Hin as [->|Hin]; [|done]. exfalso.
      assert (strip_prefix w (w +:+ r) = Some r) by (by apply strip_prefix_Some). congruence.
Qed.

Lemma strip_one_shorter s r : strip_one white_space s = Some r -> (String.length r < String.length s)%nat.
Proof.
  intros (w & Hw & ->)%strip_one_Some. rewrite str_length_app. apply white_chars in Hw as [Hw _].
  destruct w; simpl; [done|lia].
Qed.

(** [trim_start] by its equations. *)
Lemma trim_start_fuel_enough n : forall m s, (String.length s <= n)%nat -> (String.length s <= m)%nat ->
  trim_start_fuel n s = trim_start_fuel m s.
Proof.
  induction n as [|n IH]; intros m s Hn Hm.
  - destruct s; [|simpl in Hn; lia]. by destruct m.
  - destruct m as [|m]; [destruct s; [done|simpl in Hm; lia]|]. cbn [trim_start_fuel].
    destruct (strip_one white_space s) as [r|] eqn:E; [|done]. apply strip_one_shorter in E. apply IH; lia.
Qed.

Lemma trim_start_eq s : trim_start s = match strip_one white_space s with Some r => trim_start r | None => s end.
Proof.
  unfold trim_start. destruct s as [|c s]; [done|]. cbn [String.length trim_start_fuel].
  destruct (strip_one white_space (String c s)) as [r|] eqn:E; [|done].
  apply strip_one_shorter in E. apply trim_start_fuel_enough; simpl in E; lia.
Qed.

(** Induction along the white space at the front. *)
Lemma trim_start_ind (P : string -> Prop) :
  (forall s, strip_one white_space s = None -> P s) ->
  (forall w r, In w white_space -> P r -> P (w +:+ r)) -> forall s, P s.
Proof.
  intros H0 H1 s. remember (String.length s) as n eqn:En. assert (String.length s <= n)%nat as Hn by lia. clear En.
  revert s Hn. induction n as [|n IH]; intros s Hn.
  - apply H0. destruct s; [done|simpl in Hn; lia].
  - destruct (strip_one white_space s) as [r|] eqn:E; [|by apply H0]. pose proof (strip_one_shorter _ _ E).
    apply strip_one_Some in E as (w & Hw & ->). apply H1; [done|]. apply IH. lia.
Qed.

Lemma trim_start_white w r : In w white_space -> trim_start (w +:+ r) = trim_start r.
Proof. intros Hw. rewrite trim_start_eq. assert (strip_one white_space (w +:+ r) = Some r) as -> by (apply strip_one_Some; eauto). done. Qed.

Lemma trim_start_None s : strip_one white_space s = None -> trim_start s = s.
Proof. intros H. by rewrite trim_start_eq, H. Qed.

Lemma trim_start_clean s : strip_one white_space (trim_start s) = None.
Proof. induction s as [s H|w r Hw IH] using trim_start_ind; [by rewrite trim_start_None|by rewrite trim_start_white]. Qed.

Lemma all_white_app a b : all_white a = true -> all_white b = true -> all_white (a +:+ b) = true.
Proof.
  unfold all_white. intros Ha Hb. induction a as [a H|w r Hw IH] using trim_start_ind.
  - rewrite trim_start_None in Ha by done. by destruct a.
  - rewrite str_app_assoc, trim_start_white by done. rewrite trim_start_white in Ha by done. auto.
Qed.

Lemma comma_not_white a b : all_white (a +:+ String "," b) = false.
Proof.
  unfold all_white. remember (a +:+ String "," b) as s eqn:E. revert a E.
  induction s as [s H|w r Hw IH] using trim_start_ind; intros a E.
  - rewrite trim_start_None by done. subst s. by destruct a.
  - rewrite trim_start_white by done. destruct (white_chars _ Hw) as [_ Hc].
    assert (exists a', r = a' +:+ String "," b) as [a' ->]; [|by eapply IH].
    clear Hw IH. revert a E. induction w as [|c w IHw]; intros a E; [by exists a|].
    cbn in Hc. apply andb_true_iff in Hc as [Hc1 Hc2]. destruct a as [|c' a]; cbn in E; injection E as E1 E2.
    + subst c. by apply andb_true_iff in Hc1 as [Hc1 _].
    + by apply (IHw Hc2 a).
Qed.

Lemma trim_end_eq s : trim_end s = if all_white s then EmptyString
  else match s with EmptyString => EmptyString | String c s' => String c (trim_end s') end.
Proof. by destruct s. Qed.

(** What [trim_end] cuts off is white space. *)
Lemma trim_end_split s : exists w, s = trim_end s +:+ w /\ all_white w = true.
Proof.
  induction s as [|c s IH]; [by exists EmptyString|]. rewrite trim_end_eq.
  destruct (all_white (String c s)) eqn:E; [by exists (String c s)|].
  destruct IH as (w & E' & Hw). exists w. split; [|done]. cbn. f_equal. exact E'.
Qed.

Lemma trim_end_idem s : trim_end (trim_end s) = trim_end s.
Proof.
  induction s as [|c s IH]; [done|]. rewrite (trim_end_eq (String c s)). destruct (all_white (String c s)) eqn:E; [done|].
  rewrite trim_end_eq, IH. destruct (all_white (String c (trim_end s))) eqn:E'; [|done].
  destruct (trim_end_split s) as (w & Es & Hw). exfalso.
  assert (all_white (String c (trim_end s) +:+ w) = true) as Ht by (by apply all_white_app).
  cbn in Ht. unfold "+:+" in *. rewrite <- Es in Ht. congruence.
Qed.

Lemma strip_one_prefix a b : strip_one white_space (a +:+ b) = None -> strip_one white_space a = None.
Proof.
  intros H. destruct (strip_one white_space a) as [r|] eqn:E; [|done]. apply strip_one_Some in E as (w & Hw & ->).
  rewrite str_app_assoc in H. assert (strip_one white_space (w +:+ (r +:+ b)) = Some (r +:+ b)) by (apply strip_one_Some; eauto).
  congruence.
Qed.

Lemma trim_clean s : strip_one white_space (trim s) = None /\ trim_end (trim s) = trim s.
Proof.
  unfold trim. split; [|apply trim_end_idem]. destruct (trim_end_split (trim_start s)) as (w & E & _).
  apply (strip_one_prefix _ w). unfold "+:+" in *. rewrite <- E. apply trim_start_clean.
Qed.

Lemma trim_fixed s : strip_one white_space s = None -> trim_end s = s -> trim s = s.
Proof. intros H1 H2. unfold trim. by rewrite trim_start_None. Qed.

Lemma trim_length s : (String.length (trim s) <= String.length s)%nat.
Proof.
  unfold trim. destruct (trim_end_split (trim_start s)) as (w & E & _). apply (f_equal String.length) in E. rewrite str_length_app in E.
  assert (String.length (trim_start s) <= String.length s)%nat; [|lia]. clear E w.
  induction s as [s H|w r Hw IH] using trim_start_ind; [by rewrite trim_start_None|]. rewrite trim_start_white, str_length_app by done. lia.
Qed.

Lemma trim_idem s : trim (trim s) = trim s.
Proof. destruct (trim_clean s). by apply trim_fixed. Qed.

(** Trimmed names put together with a comma. *)
Lemma trim_end_comma a b : trim_end (a +:+ String "," b) = a +:+ String "," (trim_end b).
Proof.
  induction a as [|c a IH]; rewrite trim_end_eq.
  - pose proof (comma_not_white EmptyString b) as Hc. unfold "+:+" in *. cbn [String.append] in *. by rewrite Hc.
  - pose proof (comma_not_white (String c a) b) as Hc. unfold "+:+" in *. cbn [String.append] in *. rewrite Hc. by f_equal.
Qed.

Lemma strip_one_comma a b : strip_one white_space a = None -> strip_one white_space (a +:+ String "," b) = None.
Proof.
  intros H. destruct (strip_one white_space (a +:+ String "," b)) as [r|] eqn:E; [|done]. exfalso.
  apply strip_one_Some in E as (w & Hw & E). destruct (white_chars _ Hw) as [_ Hc].
  destruct (Nat.le_gt_cases (String.length w) (String.length a)) as [Hl|Hl].
  - destruct (prefix_prefix w a _ _ (eq_sym E) Hl) as [z ->].
    assert (strip_one white_space (w +:+ z) = Some z) by (apply strip_one_Some; eauto). congruence.
  - clear H Hw. revert w E Hl Hc. induction a as [|c a IH]; intros w E Hl Hc; (destruct w as [|c' w]; [simpl in Hl; lia|]).
    + cbn in E. injection E as <- _. by cbn in Hc.
    + cbn in E. injection E as <- E. cbn in Hc. apply andb_true_iff in Hc as [_ Hc]. apply (IH w E); [simpl in Hl; lia|done].
Qed.

Lemma trim_join a b : trim a = a -> trim b = b -> trim (a +:+ String "," b) = a +:+ String "," b.
Proof.
  intros Ha Hb. destruct (trim_clean a) as [H1 _], (trim_clean b) as [_ H2]. rewrite Ha in H1. rewrite Hb in H2.
  apply trim_fixed; [by apply strip_one_comma|]. by rewrite trim_end_comma, H2.
Qed.

(** ** Case *)

Lemma ascii_lower_fixed c d : is_ascii_alphabetic d = false -> Ascii.eqb (ascii_lower c) d = Ascii.eqb c d.
Proof.
  intros Hd. unfold ascii_lower. destruct (is_ascii_upper c) eqn:E; [|done].
  unfold is_ascii_alphabetic, is_ascii_upper, is_ascii_lower, in_codes in *.
  destruct (Ascii.eqb_spec c d) as [->|_]; [by rewrite E in Hd|].
  apply Ascii.eqb_neq. intros <-. unfold code in *. rewrite N_ascii_embedding in Hd by lia. 
  apply orb_false_iff in Hd as [_ Hd]. apply andb_true_iff in E as [E1%Z.leb_le E2%Z.leb_le].
  apply andb_false_iff in Hd as [Hd%Z.leb_gt|Hd%Z.leb_gt]; lia.
Qed.

Lemma strip_prefix_lower w : str_forallb (fun c => negb (is_ascii_alphabetic c)) w = true -> forall s,
  strip_prefix w (to_ascii_lowercase s) = to_ascii_lowercase <$> strip_prefix w s.
Proof.
  induction w as [|c w IH]; intros Hw s; [done|]. cbn in Hw. apply andb_true_iff in Hw as [Hc Hw].
  apply negb_true_iff in Hc. destruct s as [|a s]; [done|]. cbn.
  rewrite (Ascii.eqb_sym c), (Ascii.eqb_sym c), ascii_lower_fixed by done. destruct (Ascii.eqb a c); [|done]. by apply IH.
Qed.

Lemma strip_one_lower s : strip_one white_space (to_ascii_lowercase s) = to_ascii_lowercase <$> strip_one white_space s.
Proof.
  assert (forall ws, (forall w, In w ws -> In w white_space) ->
            strip_one ws (to_ascii_lowercase s) = to_ascii_lowercase <$> strip_one ws s) as H; [|by apply H].
  intros ws. induction ws as [|w ws IH]; intros Hs; [done|]. cbn [strip_one].
  rewrite strip_prefix_lower.
  - destruct (strip_prefix w s); [done|]. apply IH. intros; apply Hs; by right.
  - destruct (white_chars w (Hs w (or_introl eq_refl))) as [_ Hc]. revert Hc. clear.
    induction w as [|c w IH]; cbn; [done|]. intros [[_ Hc]%andb_true_iff Hw]%andb_true_iff. rewrite Hc. auto.
Qed.

Lemma trim_start_lower s : trim_start (to_ascii_lowercase s) = to_ascii_lowercase (trim_start s).
Proof.
  induction s as [s H|w r Hw IH] using trim_start_ind.
  - rewrite !trim_start_None; [done|done|]. by rewrite strip_one_lower, H.
  - rewrite trim_start_white by done. rewrite trim_start_eq, strip_one_lower.
    assert (strip_one white_space (w +:+ r) = Some r) as -> by (apply strip_one_Some; eauto). done.
Qed.

Lemma all_white_lower s : all_white (to_ascii_lowercase s) = all_white s.
Proof. unfold all_white. rewrite trim_start_lower. by destruct (trim_start s). Qed.

Lemma trim_end_lower s : trim_end (to_ascii_lowercase s) = to_ascii_lowercase (trim_end s).
Proof.
  induction s as [|c s IH]; [done|]. rewrite (trim_end_eq (String c s)), trim_end_eq, all_white_lower.
  destruct (all_white (String c s)); [done|]. cbn. f_equal. exact IH.
Qed.

Lemma trim_lower s : trim (to_ascii_lowercase s) = to_ascii_lowercase (trim s).
Proof. unfold trim. by rewrite trim_start_lower, trim_end_lower. Qed.

(** ** Normal names *)

Lemma normalize_dn_length dn : (String.length (normalize_dn dn) <= String.length dn)%nat.
Proof. unfold normalize_dn. rewrite to_ascii_lowercase_length. apply trim_length. Qed.

Lemma normalize_dn_idem dn : normalize_dn (normalize_dn dn) = normalize_dn dn.
Proof. unfold normalize_dn. by rewrite trim_lower, trim_idem, to_ascii_lowercase_idem. Qed.

Lemma normalize_fixed dn : normalize_dn dn = dn <-> trim dn = dn /\ to_ascii_lowercase dn = dn.
Proof.
  unfold normalize_dn. split; [|by intros [-> ->]]. intros H.
  assert (to_ascii_lowercase dn = dn) as Hl by (rewrite <- H at 1; by rewrite to_ascii_lowercase_idem).
  split; [|done]. rewrite <- trim_lower, Hl in H. done.
Qed.

Lemma normalize_join a b : normalize_dn a = a -> normalize_dn b = b ->
  normalize_dn (a +:+ "," +:+ b) = a +:+ "," +:+ b.
Proof.
  rewrite !normalize_fixed. intros [Ha La] [Hb Lb]. change ("," +:+ b) with (String "," b). split; [by apply trim_join|].
  rewrite to_ascii_lowercase_app, La. cbn. by rewrite Lb.
Qed.

(** The name that a form builds. *)
Lemma normalize_build rdn parent :
  normalize_dn (build_dn rdn parent) = normalize_dn rdn +:+ "," +:+ normalize_dn parent.
Proof.
  unfold normalize_dn, build_dn. change ("," +:+ trim parent) with (String "," (trim parent)).
  rewrite trim_join by apply trim_idem. by rewrite to_ascii_lowercase_app.
Qed.
