(* ===== verification/LdapDb.v ===== *)
(** * The directory repository

    Models [crates/magnetite-db/src/ldap.rs]: the directory tree (entries under
    their distinguished names), user, group and organizational-unit forms, the
    LDAP operations add, modify, rename and delete, content synchronisation as
    provider and as consumer, the projection of replicated objects, the objects of
    the operation-master roles, and the access rules.  A store is four tables, any
    instances of [Table], with SurrealDB's unique index on the name of an entry
    ([Unique]); attributes are JSON columns ([Serde]); Argon2 and [chrono]'s RFC
    3339 are parameters.  An operation reads the clock once, [now].

    [vwp] is the logic of the proofs: the tables are seen as a map from names to
    entries and a log of deletions ([view]), and a call either acts on the view as
    stated, or is a failure of the database.  [tree] says what a well-formed
    directory is: every entry but a root has its parent, and [has_children] tells
    whether an entry has children. *)

From S2P Require Import Prelude Bytes RustStr RustNet Surreal Serde Ldap.
Local Open Scope db_scope.

Definition MSG_OU_GUARD : string := "この OU には配下エントリがあります。先に移動または削除してください。".
Definition MSG_DN_DUP : string := "同じ DN のエントリが既に存在します。".
Definition MSG_NO_PARENT : string := "親 DN が存在しません。".
Definition MSG_NO_MEMBER : string := "指定した DN のエントリが存在しません。".

(** ** Rows *)

Record EntryRecord := mkEntryRecord {
  er_dn : string;
  er_rdn : string;
  er_parent_dn : option string;
  er_object_classes : list string;
  er_structural_class : string;
  er_attributes : string;
  er_enabled : bool;
  er_password_ref : option string;
  er_has_children : bool;
  er_created_at : string;
  er_updated_at : string;
  er_created_by : string;
  er_source_uuid : option string;
}.

Record LdapChangeRecord := mkLdapChangeRecord { ch_dn : string; ch_csn : string }.

Record LdapSyncStateRecord := mkLdapSyncStateRecord {
  ss_cookie : string; ss_last_sync : option string; ss_applied : Z; ss_deleted : Z; ss_last_error : option string }.

Record AclRecord := mkAclRecord {
  ar_priority : Z;
  ar_target_dn : string;
  ar_operations : string;
  ar_subject : string;
  ar_effect : string;
  ar_enabled : bool;
  ar_created_at : string;
  ar_updated_at : string;
  ar_created_by : string;
}.

Inductive LdapModifyOp := Add | Delete | Replace.
Record LdapAttrChange := mkChange { op : LdapModifyOp; change_attr : string; values : list string }.

Record LdapStore (TE TL TY TA : Type) := mkLdapStore {
  entry : TE; ldap_changelog : TL; ldap_sync_state : TY; ldap_acl : TA }.
Arguments mkLdapStore {TE TL TY TA} _ _ _ _.
Arguments entry {TE TL TY TA} _.
Arguments ldap_changelog {TE TL TY TA} _.
Arguments ldap_sync_state {TE TL TY TA} _.
Arguments ldap_acl {TE TL TY TA} _.

(** [DEFINE INDEX ... UNIQUE] ([store.rs]): no row is created under a value in use. *)
Class Unique (T R : Type) {TT : Table T R} (key : R -> string) : Prop :=
  create_unique : forall r t x t', create r t = (Ok (Some x), t') -> key r ∉ map key (map snd (rows t)).

Class Fails (T R : Type) {TT : Table T R} : Prop := {
  select_fails : forall p le n t e, select p le n t = Err e -> e = Surreal;
  create_fails : forall r t e t', create r t = (Err e, t') -> e = Surreal;
  delete_where_fails : forall p t e t', delete_where p t = (Err e, t') -> e = Surreal;
  update_where_fails : forall p f t e t', update_where p f t = (Err e, t') -> e = Surreal;
}.

(** ** Operation-master roles *)

Record FsmoOwners := mkFsmoOwners {
  o_schema : option string;
  o_domain_naming : option string;
  o_rid : option string;
  o_infrastructure : option string;
  o_pdc : option string;
  o_domain_dns : option string;
  o_forest_dns : option string;
}.
Inductive master := SchemaRole | NamingRole | RidRole | InfrastructureRole | PdcRole.

#[export] Instance master_eq_dec : EqDecision master.
Proof. solve_decision. Defined.

Definition no_owners : FsmoOwners := mkFsmoOwners None None None None None None None.

Definition set_owner (key owner : string) (o : FsmoOwners) : FsmoOwners :=
  let '(mkFsmoOwners s n r i p d f) := o in
  let w := Some owner in
  if String.eqb key "schema" then mkFsmoOwners w n r i p d f
  else if String.eqb key "naming" || String.eqb key "domain-naming" then mkFsmoOwners s w r i p d f
  else if String.eqb key "rid" then mkFsmoOwners s n w i p d f
  else if String.eqb key "pdc" then mkFsmoOwners s n r i w d f
  else if String.eqb key "infra" || String.eqb key "infrastructure" then mkFsmoOwners s n r w p d f
  else if String.eqb key "domaindns" || String.eqb key "domain-dns" then mkFsmoOwners s n r i p w f
  else if String.eqb key "forestdns" || String.eqb key "forest-dns" then mkFsmoOwners s n r i p d w
  else o.

Definition from_spec (spec : string) : FsmoOwners :=
  fold_left (fun o e => match split_once "=" e with
                        | None => o
                        | Some (key, owner) =>
                            let owner := trim owner in
                            if is_empty owner then o else set_owner (to_ascii_lowercase (trim key)) owner o
                        end) (split "," spec) no_owners.

(** ** Helpers *)

Definition is_some {A} (o : option A) : bool := is_some_and (fun _ => true) o.

(** [s.chars().take(n)] *)
Fixpoint take_chars (n : nat) (s : string) : string :=
  match s with
  | EmptyString => EmptyString
  | String c s' =>
      if in_codes 0x80 0xBF c then String c (take_chars n s')
      else match n with O => EmptyString | S n' => String c (take_chars n' s') end
  end.

Definition to_ascii_uppercase : string -> string := str_map ascii_upper.

Definition first_component (dn : string) : string := unwrap_or dn (head (split "," dn)).
Definition parent_of (dn : string) : option string := snd <$> split_once "," dn.

(** The last object class that is not [top]. *)
Definition structural_of (object_classes : list string) : string :=
  unwrap_or "top" (find (fun c => negb (eq_ignore_ascii_case c "top")) (rev object_classes)).

Definition find_key (name : string) (m : Attributes) : option string := find (fun k => eq_ignore_ascii_case k name) (keys m).

Definition add_attr_value (m : Attributes) (name value : string) : Attributes :=
  let key := unwrap_or name (find_key name m) in
  let vs := unwrap_or [] (m !! key) in
  <[key := if existsb (fun v => eq_ignore_ascii_case v value) vs then vs else vs ++ [value]]> m.

Definition remove_attr_value (m : Attributes) (name value : string) : Attributes :=
  match find_key name m with
  | None => m
  | Some key =>
      match m !! key with
      | None => m
      | Some vs =>
          let vs' := List.filter (fun v => negb (eq_ignore_ascii_case v value)) vs in
          match vs' with [] => delete key m | _ => <[key := vs']> m end
      end
  end.

Definition dn_in_scope (target_pattern dn : string) : bool :=
  String.eqb target_pattern "*" ||
  let target := normalize_dn target_pattern in String.eqb dn target || ends_with dn ("," +:+ target).

(** One change of a modify request, on the attributes and the password to set. *)
Definition apply_change (acc : Attributes * option string) (c : LdapAttrChange) : Attributes * option string :=
  let (m, pw) := acc in
  let a := change_attr c in
  if eq_ignore_ascii_case a "userPassword" then
    (m, match op c with Delete => pw | _ => head (values c) end)
  else
    (match op c with
     | Add => <[a := unwrap_or [] (m !! a) ++ values c]> m
     | Replace => match values c with [] => delete a m | vs => <[a := vs]> m end
     | Delete =>
         match values c with
         | [] => delete a m
         | vs => match m !! a with
                 | None => m
                 | Some old => match List.filter (fun v => negb (existsb (String.eqb v) vs)) old with
                               | [] => delete a m
                               | rest => <[a := rest]> m
                               end
                 end
         end
     end, pw).

(** [for x in l { f(x).await?; }] *)
Fixpoint for_each {S A} (f : A -> M S unit) (l : list A) : M S unit :=
  match l with
  | [] => mret ()
  | x :: l' => do! _ <- f x; for_each f l'
  end.

(** ** Changes of a row *)

Definition with_flag (v : bool) (r : EntryRecord) : EntryRecord :=
  mkEntryRecord (er_dn r) (er_rdn r) (er_parent_dn r) (er_object_classes r) (er_structural_class r) (er_attributes r)
    (er_enabled r) (er_password_ref r) v (er_created_at r) (er_updated_at r) (er_created_by r) (er_source_uuid r).
Definition with_attributes (a t : string) (r : EntryRecord) : EntryRecord :=
  mkEntryRecord (er_dn r) (er_rdn r) (er_parent_dn r) (er_object_classes r) (er_structural_class r) a
    (er_enabled r) (er_password_ref r) (er_has_children r) (er_created_at r) t (er_created_by r) (er_source_uuid r).
Definition with_enabled (v : bool) (t : string) (r : EntryRecord) : EntryRecord :=
  mkEntryRecord (er_dn r) (er_rdn r) (er_parent_dn r) (er_object_classes r) (er_structural_class r) (er_attributes r)
    v (er_password_ref r) (er_has_children r) (er_created_at r) t (er_created_by r) (er_source_uuid r).
Definition with_password (p t : string) (r : EntryRecord) : EntryRecord :=
  mkEntryRecord (er_dn r) (er_rdn r) (er_parent_dn r) (er_object_classes r) (er_structural_class r) (er_attributes r)
    (er_enabled r) (Some p) (er_has_children r) (er_created_at r) t (er_created_by r) (er_source_uuid r).
Definition with_place (dn rdn : string) (parent : option string) (a t : string) (r : EntryRecord) : EntryRecord :=
  mkEntryRecord dn rdn parent (er_object_classes r) (er_structural_class r) a
    (er_enabled r) (er_password_ref r) (er_has_children r) (er_created_at r) t (er_created_by r) (er_source_uuid r).
Definition with_synced (classes : list string) (structural a uuid : string) (en : bool) (t : string) (r : EntryRecord) : EntryRecord :=
  mkEntryRecord (er_dn r) (er_rdn r) (er_parent_dn r) classes structural a
    en (er_password_ref r) (er_has_children r) (er_created_at r) t (er_created_by r) (Some uuid).

Definition at_dn (dn : string) (_ : string) (r : EntryRecord) : bool := has_key er_dn dn r.
Definition dn_le (a b : EntryRecord) : bool := str_le (er_dn a) (er_dn b).
Definition structural_is (c : string) (r : EntryRecord) : bool := String.eqb (er_structural_class r) c.
Definition child_of (parent : string) (r : EntryRecord) : bool := bool_decide (er_parent_dn r = Some parent).

(** ** The tree *)

(** What the shape of the tree depends on. *)
Definition shape (e : EntryRecord) : string * option string * bool := (er_dn e, er_parent_dn e, er_has_children e).

Definition child (m : gmap string EntryRecord) (p c : string) : Prop := exists e, m !! c = Some e /\ er_parent_dn e = Some p.

Record node (m : gmap string EntryRecord) (k : string) (e : EntryRecord) : Prop := mkNode {
  node_dn : er_dn e = k;
  node_normal : normalize_dn k = k;
  node_parent : forall p, er_parent_dn e = Some p -> is_Some (m !! p) /\ exists rdn, k = rdn +:+ "," +:+ p;
  node_flag : er_has_children e = true <-> exists c, child m k c;
}.

Definition tree (m : gmap string EntryRecord) : Prop := forall k e, m !! k = Some e -> node m k e.

Lemma child_shape m m' p c : (forall k, shape <$> m' !! k = shape <$> m !! k) -> child m p c -> child m' p c.
Proof.
  intros H (e & He & Hp). specialize (H c). rewrite He in H. destruct (m' !! c) as [e'|] eqn:E; [|done].
  exists e'. split; [done|]. injection H as _ H _. congruence.
Qed.

Lemma tree_shape m m' : (forall k, shape <$> m' !! k = shape <$> m !! k) -> tree m -> tree m'.
Proof.
  intros H Ht k e He. pose proof (H k) as Hk. rewrite He in Hk. destruct (m !! k) as [e0|] eqn:E0; [|done].
  injection Hk as H1 H2 H3. destruct (Ht k e0 E0) as [N1 N2 N3 N4]. split.
  - congruence.
  - done.
  - rewrite H2. intros p Hp. destruct (N3 p Hp) as [[x Hx] Hs]. split; [|done]. specialize (H p). rewrite Hx in H.
    by destruct (m' !! p).
  - rewrite H3, N4. split; intros [c Hc]; exists c; (eapply child_shape; [|exact Hc]); [done|by intros; symmetry].
Qed.

Lemma tree_alter m k f : (forall e, shape (f e) = shape e) -> tree m -> tree (alter f k m).
Proof.
  intros Hf. apply tree_shape. intros k'. rewrite lookup_alter. destruct (decide (k = k')) as [<-|]; [|done].
  destruct (m !! k); simpl; [|done]. by rewrite Hf.
Qed.

Lemma comma_longer rdn p : p <> rdn +:+ "," +:+ p.
Proof. intros E%(f_equal String.length). rewrite !str_length_app in E. simpl in E. lia. Qed.

(** An entry is no ancestor of itself: names get longer. *)
Lemma tree_parent_ne m k e p : tree m -> m !! k = Some e -> er_parent_dn e = Some p -> p <> k.
Proof. intros Ht He Hp. destruct (node_parent _ _ _ (Ht k e He) p Hp) as [_ [rdn ->]]. apply comma_longer. Qed.

(** The map with the flag of [p] set to whether [p] has children. *)
Definition has_child (m : gmap string EntryRecord) (p : string) : bool :=
  existsb (child_of p) (map snd (map_to_list m)).

Lemma has_child_iff m p : has_child m p = true <-> exists c, child m p c.
Proof.
  unfold has_child, child. rewrite existsb_exists. split.
  - intros (e & ([c e'] & <- & Hin%list_elem_of_In%elem_of_map_to_list)%in_map_iff & Hc%bool_decide_eq_true). eauto.
  - intros (c & e & He & Hp). exists e. split; [|by apply bool_decide_eq_true].
    apply (in_map snd (map_to_list m) (c, e)), list_elem_of_In. by apply elem_of_map_to_list.
Qed.

Definition reflag (p : string) (m : gmap string EntryRecord) : gmap string EntryRecord := alter (with_flag (has_child m p)) p m.

Definition reflag_opt (o : option string) (m : gmap string EntryRecord) : gmap string EntryRecord :=
  match o with Some p => reflag p m | None => m end.

(** The nodes but for the flags: [bad] lists the names whose flags may be wrong. *)
Definition nodes (bad : list string) (m : gmap string EntryRecord) : Prop :=
  forall k e, m !! k = Some e -> er_dn e = k /\ normalize_dn k = k /\
    (forall p, er_parent_dn e = Some p -> is_Some (m !! p) /\ exists rdn, k = rdn +:+ "," +:+ p) /\
    (k ∉ bad -> er_has_children e = true <-> exists c, child m k c).

Lemma tree_nodes m : tree m <-> nodes [] m.
Proof.
  split; intros H k e He.
  - destruct (H k e He). split_and!; auto.
  - destruct (H k e He) as (H1 & H2 & H3 & H4). split; auto. apply H4. set_solver.
Qed.

Lemma child_alter_flag m b p k c : child (alter (with_flag b) p m) k c <-> child m k c.
Proof.
  unfold child. rewrite lookup_alter. destruct (decide (p = c)) as [<-|]; [|done].
  split; intros (e & He & Hp).
  - destruct (m !! p) as [x|] eqn:E; [|done]. injection He as <-. by exists x.
  - rewrite He. by exists (with_flag b e).
Qed.

Lemma nodes_flag bad m b p : nodes (p :: bad) m -> (is_Some (m !! p) -> b = true <-> exists c, child m p c) ->
  nodes bad (alter (with_flag b) p m).
Proof.
  intros H Hb k e He. rewrite lookup_alter in He.
  assert (forall q, is_Some (m !! q) -> is_Some (alter (with_flag b) p m !! q)) as His.
  { intros q [x Hx]. rewrite lookup_alter. destruct (decide (p = q)) as [<-|]; rewrite Hx; by eexists. }
  assert (forall k, (exists c, child (alter (with_flag b) p m) k c) <-> exists c, child m k c) as Hc.
  { intros k'. by setoid_rewrite child_alter_flag. }
  destruct (decide (p = k)) as [<-|Hne].
  - destruct (m !! p) as [x|] eqn:E; [|done]. injection He as <-. destruct (H p x E) as (H1 & H2 & H3 & _).
    split_and!; [done|done| |].
    + intros q Hq. destruct (H3 q Hq) as [Hs ?]. split; [by apply His|done].
    + intros _. simpl. rewrite Hc. apply Hb. by eexists.
  - destruct (H k e He) as (H1 & H2 & H3 & H4). split_and!; [done|done| |].
    + intros q Hq. destruct (H3 q Hq) as [Hs ?]. split; [by apply His|done].
    + intros Hb'. rewrite Hc. apply H4. set_solver.
Qed.

Lemma nodes_reflag bad m p : nodes (p :: bad) m -> nodes bad (reflag p m).
Proof. intros H. apply nodes_flag; [done|]. intros _. apply has_child_iff. Qed.

Lemma nodes_reflag_opt bad m o : nodes (option_list o ++ bad) m -> nodes bad (reflag_opt o m).
Proof. destruct o; [apply nodes_reflag|done]. Qed.

(** A new leaf. *)
Lemma nodes_insert bad m k e :
  nodes bad m -> m !! k = None -> er_dn e = k -> normalize_dn k = k -> er_has_children e = false ->
  (forall p, er_parent_dn e = Some p -> is_Some (m !! p) /\ exists rdn, k = rdn +:+ "," +:+ p) ->
  nodes (option_list (er_parent_dn e) ++ bad) (<[k := e]> m).
Proof.
  intros H Hn Hd Hk Hf Hp.
  assert (forall q, is_Some (m !! q) -> is_Some (<[k := e]> m !! q)) as His.
  { intros q Hq. destruct (decide (k = q)) as [<-|]; [rewrite lookup_insert_eq; by eexists|by rewrite lookup_insert_ne]. }
  intros k' e' He'. destruct (decide (k = k')) as [<-|Hne].
  - rewrite lookup_insert_eq in He'. injection He' as <-. split_and!; [done|done| |].
    + intros p Hep. destruct (Hp p Hep). auto.
    + intros _. rewrite Hf. split; [done|]. intros (c & x & Hc & Hpc). exfalso.
      destruct (decide (k = c)) as [<-|Hkc].
      * rewrite lookup_insert_eq in Hc. injection Hc as <-. destruct (Hp k Hpc) as [[? ?] _]. congruence.
      * rewrite lookup_insert_ne in Hc by done. destruct (H c x Hc) as (_ & _ & H3 & _). destruct (H3 k Hpc) as [[? ?] _]. congruence.
  - rewrite lookup_insert_ne in He' by done. destruct (H k' e' He') as (H1 & H2 & H3 & H4). split_and!; [done|done| |].
    + intros p Hep. destruct (H3 p Hep). auto.
    + intros Hb. rewrite H4 by set_solver. split; intros (c & x & Hc & Hpc).
      * exists c, x. rewrite lookup_insert_ne; [done|congruence].
      * destruct (decide (k = c)) as [<-|Hkc].
        -- rewrite lookup_insert_eq in Hc. injection Hc as <-. rewrite Hpc in Hb. set_solver.
        -- rewrite lookup_insert_ne in Hc by done. by exists c, x.
Qed.

(** A leaf taken out. *)
Lemma nodes_delete bad m k e :
  nodes bad m -> m !! k = Some e -> (forall c, ~ child m k c) -> nodes (option_list (er_parent_dn e) ++ bad) (delete k m).
Proof.
  intros H He Hl k' e' He'. apply lookup_delete_Some in He' as [Hne He']. destruct (H k' e' He') as (H1 & H2 & H3 & H4).
  split_and!; [done|done| |].
  - intros p Hp. destruct (H3 p Hp) as [Hs ?]. split; [|done]. rewrite lookup_delete_ne; [done|].
    intros <-. apply (Hl k'). by exists e'.
  - intros Hb. rewrite H4 by set_solver. split; intros (c & x & Hc & Hpc).
    + exists c, x. rewrite lookup_delete_ne; [done|]. intros <-. rewrite He in Hc. injection Hc as <-.
      rewrite Hpc in Hb. set_solver.
    + apply lookup_delete_Some in Hc as [_ Hc]. by exists c, x.
Qed.

Lemma nodes_weaken bad bad' m : (forall x, x ∈ bad -> x ∈ bad') -> nodes bad m -> nodes bad' m.
Proof. intros Hb H k e He. destruct (H k e He) as (H1 & H2 & H3 & H4). split_and!; try done. intros Hk. apply H4. auto. Qed.

(** Setting a flag that is set changes nothing. *)
Lemma alter_flag_set (m : gmap string EntryRecord) p e b : m !! p = Some e -> er_has_children e = b -> alter (with_flag b) p m = m.
Proof.
  intros He Hf. apply map_eq. intros k. rewrite lookup_alter. destruct (decide (p = k)) as [<-|]; [|done].
  rewrite He. simpl. subst b. by destruct e.
Qed.

(** A leaf [e] moved from [k] to the row [e'] at [k'], before the flags. *)
Definition moved (k k' : string) (e' : EntryRecord) (m : gmap string EntryRecord) : gmap string EntryRecord :=
  <[k' := e']> (delete k m).

(** The flags of the parents, when they differ. *)
Definition reparented (old new : option string) (m : gmap string EntryRecord) : gmap string EntryRecord :=
  if decide (old = new) then m
  else let m := reflag_opt old m in match new with Some p => alter (with_flag true) p m | None => m end.

Lemma tree_moved m k k' e e' :
  tree m -> m !! k = Some e -> (forall c, ~ child m k c) -> (k' <> k -> m !! k' = None) ->
  er_dn e' = k' -> normalize_dn k' = k' -> er_has_children e' = false ->
  (forall p, er_parent_dn e' = Some p -> p <> k /\ is_Some (m !! p) /\ exists rdn, k' = rdn +:+ "," +:+ p) ->
  tree (reparented (er_parent_dn e) (er_parent_dn e') (moved k k' e' m)).
Proof.
  intros Ht He Hc Hk' Hd Hn Hf Hp. pose proof Ht as Hnd%tree_nodes.
  assert (nodes (option_list (er_parent_dn e') ++ option_list (er_parent_dn e)) (moved k k' e' m)) as Hm.
  { rewrite <- (app_nil_r (option_list (er_parent_dn e))).
    apply nodes_insert; [by apply nodes_delete| |done|done|done|].
    - destruct (decide (k' = k)) as [->|]; [apply lookup_delete_eq|]. rewrite lookup_delete_ne by done. auto.
    - intros p Ep. destruct (Hp p Ep) as (Hne & Hs & Hr). split; [|done]. by rewrite lookup_delete_ne. }
  assert (forall p, er_parent_dn e' = Some p -> child (moved k k' e' m) p k') as Hch.
  { intros p Ep. exists e'. unfold moved. by rewrite lookup_insert_eq. }
  apply tree_nodes. unfold reparented. destruct (decide (er_parent_dn e = er_parent_dn e')) as [Eq|Hne].
  - destruct (er_parent_dn e') as [p|] eqn:Ep; rewrite Eq in Hm; [|done].
    destruct (Hp p eq_refl) as (Hpk & [x Hx] & _).
    assert (er_has_children x = true) as Hfx by (apply (Ht p x Hx); exists k, e; by split).
    destruct (decide (p = k')) as [->|Hpk'].
    { exfalso. destruct (decide (k' = k)) as [->|Hkk]; [done|]. rewrite (Hk' Hkk) in Hx. done. }
    assert (moved k k' e' m !! p = Some x) as Hmx by (unfold moved; by rewrite lookup_insert_ne, lookup_delete_ne by done).
    rewrite <- (alter_flag_set _ p x true Hmx Hfx). apply nodes_flag.
    + eapply nodes_weaken; [|exact Hm]. intros y. simpl. set_solver.
    + intros _. split; [|done]. intros _. exists k'. by apply Hch.
  - assert (nodes (option_list (er_parent_dn e')) (reflag_opt (er_parent_dn e) (moved k k' e' m))) as Hr.
    { apply nodes_reflag_opt. eapply nodes_weaken; [|exact Hm]. set_solver. }
    destruct (er_parent_dn e') as [p|] eqn:Ep; [|done]. apply nodes_flag; [done|]. intros _. split; [|done]. intros _.
    exists k'. specialize (Hch p eq_refl). destruct (er_parent_dn e); [|done]. simpl. by apply child_alter_flag.
Qed.

Section repository.
Context {TE TL TY TA : Type}.
Context {ET : Table TE EntryRecord} {LT : Table TL LdapChangeRecord} {YT : Table TY LdapSyncStateRecord}
        {AT : Table TA AclRecord}.
Context {SA : Serde Attributes} {SO : Serde (list LdapAclOperation)} {SS : Serde LdapAclSubject} {SE : Serde LdapAclEffect}.
(** [DateTime::to_rfc3339] and [DateTime::parse_from_rfc3339]. *)
Context (to_rfc3339 : Z -> string) (parse_from_rfc3339 : string -> option Z).
(** Argon2: hashing under a salt, with the text of its error; reading a hash; checking. *)
Context {PasswordHash : Type} (argon2 : string -> string -> string + string)
        (PasswordHash_new : string -> option PasswordHash) (verify_password : string -> PasswordHash -> bool).

Abbreviation store := (LdapStore TE TL TY TA).
Abbreviation Db := (M store).

Definition put_entries (t : TE) (s : store) : store := mkLdapStore t (ldap_changelog s) (ldap_sync_state s) (ldap_acl s).
Definition put_changelog (t : TL) (s : store) : store := mkLdapStore (entry s) t (ldap_sync_state s) (ldap_acl s).
Definition put_sync_state (t : TY) (s : store) : store := mkLdapStore (entry s) (ldap_changelog s) t (ldap_acl s).
Definition put_acls (t : TA) (s : store) : store := mkLdapStore (entry s) (ldap_changelog s) (ldap_sync_state s) t.

Definition on_entries {B} (q : TE -> DbResult B * TE) : Db B := on_table entry put_entries q.
Definition on_changelog {B} (q : TL -> DbResult B * TL) : Db B := on_table ldap_changelog put_changelog q.
Definition on_sync_state {B} (q : TY -> DbResult B * TY) : Db B := on_table ldap_sync_state put_sync_state q.
Definition on_acls {B} (q : TA -> DbResult B * TA) : Db B := on_table ldap_acl put_acls q.

Definition parse_rfc3339 (now : Z) (value : string) : Z := unwrap_or now (parse_from_rfc3339 value).

Definition attributes_map (r : EntryRecord) : Attributes := unwrap_or ∅ (of_string (er_attributes r)).

Definition into_entry (now : Z) (kr : string * EntryRecord) : DirectoryEntry :=
  let (k, r) := kr in
  mkDirectoryEntry k (parse_rfc3339 now (er_created_at r)) (parse_rfc3339 now (er_updated_at r)) (er_created_by r)
    (er_dn r) (er_rdn r) (er_parent_dn r) (er_object_classes r) (er_structural_class r) (attributes_map r) (er_has_children r).

Definition hash_password (salt password : string) : DbResult string :=
  match argon2 salt password with inr h => Ok h | inl e => Err (Surreal.PasswordHash e) end.

(** The row that an operation creates at [now]. *)
Definition new_row (now : Z) (actor dn rdn : string) (parent : option string) (classes : list string) (structural : string)
    (attributes : string) : EntryRecord :=
  mkEntryRecord dn rdn parent classes structural attributes true None false (to_rfc3339 now) (to_rfc3339 now) actor None.

(** *** Reading *)

(** [find_entry], with the key of the row and, where the key is not used, without. *)
Definition find_row (dn : string) : Db (option (string * EntryRecord)) :=
  do! l <- read_from entry (select (has_key er_dn (normalize_dn dn)) unordered (Some 1%nat));
  mret (head l).
Definition find_entry (dn : string) : Db (option EntryRecord) := read_from entry (select_one (has_key er_dn (normalize_dn dn))).

Definition ldap_root_dn : Db (option string) :=
  do! o <- read_from entry (select_one (structural_is OC_DOMAIN));
  mret (er_dn <$> o).

Definition get_entry (now : Z) (dn : string) : Db (option DirectoryEntry) :=
  do! o <- find_row dn; mret ((fun kr => redacted (into_entry now kr)) <$> o).

Definition get_entry_full (now : Z) (dn : string) : Db (option DirectoryEntry) :=
  do! o <- find_row dn; mret (into_entry now <$> o).

Definition select_entries (p : EntryRecord -> bool) : Db (list (string * EntryRecord)) := read_from entry (select p dn_le None).

Definition list_all_entries (now : Z) : Db (list DirectoryEntry) :=
  do! l <- select_entries (fun _ => true); mret (map (into_entry now) l).

Definition list_entries_by_parent (now : Z) (parent_dn : string) : Db (list DirectoryEntry) :=
  do! l <- select_entries (child_of (normalize_dn parent_dn)); mret (map (into_entry now) l).

Definition in_subtree (base : string) (r : EntryRecord) : bool := String.eqb (er_dn r) base || ends_with (er_dn r) ("," +:+ base).

Definition list_entries_subtree (now : Z) (base_dn : string) : Db (list DirectoryEntry) :=
  do! l <- select_entries (in_subtree (normalize_dn base_dn)); mret (map (into_entry now) l).

Definition list_computers (now : Z) : Db (list DirectoryEntry) :=
  do! l <- select_entries (structural_is "computer"); mret (map (fun kr => redacted (into_entry now kr)) l).

Definition list_children (now : Z) (parent_dn : option string) : Db (list TreeNode) :=
  do! l <- select_entries (match parent_dn with
                           | Some p => child_of (normalize_dn p)
                           | None => fun r => bool_decide (er_parent_dn r = None)
                           end);
  mret (map (fun kr => TreeNode_from (into_entry now kr)) l).

Definition list_by_structural (class : string) : Db (list (string * EntryRecord)) := select_entries (structural_is class).

Definition parent_exists (parent_dn : string) : Db bool := do! o <- find_entry parent_dn; mret (is_some o).

Definition verify_ldap_bind (dn password : string) : Db bool :=
  do! o <- find_entry dn;
  mret (match o with
        | None => false
        | Some rec =>
            er_enabled rec &&
            match er_password_ref rec with
            | None => false
            | Some hash => match PasswordHash_new hash with
                           | None => false
                           | Some parsed => verify_password password parsed
                           end
            end
        end).

Definition list_users (now : Z) : Db (list LdapUser) :=
  do! l <- list_by_structural OC_USER;
  mret (map (fun kr => let e := into_entry now kr in
                       mkLdapUser (e_dn e) (unwrap_or EmptyString (attr e "uid")) (unwrap_or EmptyString (attr e "cn"))
                         (unwrap_or EmptyString (attr e "sn")) (attr e "mail") (er_enabled kr.2)) l).

Definition list_groups (now : Z) : Db (list LdapGroup) :=
  do! l <- list_by_structural OC_GROUP;
  mret (map (fun kr => let e := into_entry now kr in
                       mkLdapGroup (e_dn e) (unwrap_or EmptyString (attr e "cn")) (attr e "description") (attr_values e "member")) l).

Definition list_ous (now : Z) : Db (list LdapOu) :=
  do! l <- list_by_structural OC_OU;
  mret (map (fun kr => let e := into_entry now kr in
                       mkLdapOu (e_dn e) (unwrap_or EmptyString (attr e "ou")) (attr e "description") (er_has_children kr.2)) l).

Definition account_matches (account : string) (e : DirectoryEntry) : bool :=
  existsb (fun name => is_some_and (fun v => eq_ignore_ascii_case v account) (attr e name)) ["uid"; "sAMAccountName"; "cn"].

Definition resolve_account_dn (now : Z) (account : string) : Db (option string) :=
  do! l <- list_all_entries now; mret (e_dn <$> find (account_matches account) l).

Definition count_class (c : string) (l : list (string * EntryRecord)) : Z :=
  Z.of_nat (length (List.filter (fun kr => structural_is c kr.2) l)).

Definition ldap_metrics : Db (Z * Z * Z * Z) :=
  do! l <- read_from entry (select (fun _ => true) unordered None);
  mret (Z.of_nat (length l), count_class OC_USER l, count_class OC_GROUP l, count_class OC_OU l).

(** *** Writing *)

Definition set_has_children (dn : string) (v : bool) : Db unit :=
  do! _ <- on_entries (update_where (at_dn (normalize_dn dn)) (with_flag v)); mret ().

Definition write_attributes (now : Z) (dn attributes_json : string) : Db unit :=
  do! _ <- on_entries (update_where (at_dn (normalize_dn dn)) (with_attributes attributes_json (to_rfc3339 now))); mret ().

Definition insert_entry (now : Z) (rec : EntryRecord) : Db DirectoryEntry :=
  do! found <- find_entry (er_dn rec);
  if is_some found then mfail (Constraint MSG_DN_DUP)
  else
    do! orphan <- match er_parent_dn rec with
                  | None => mret false
                  | Some parent => do! ok <- parent_exists parent; mret (negb ok)
                  end;
    if orphan : bool then mfail (Constraint MSG_NO_PARENT)
    else
      do! created <- on_entries (create rec);
      match created with
      | None => mfail (Constraint "entry creation returned nothing")
      | Some kr =>
          do! _ <- match er_parent_dn rec with Some parent => set_has_children parent true | None => mret () end;
          mret (into_entry now kr)
      end.

Definition reset_password (now : Z) (salt dn new_password : string) : Db unit :=
  do! o <- find_entry dn;
  match o with
  | None => mfail NotFound
  | Some _ =>
      do! hash <- (fun s => (hash_password salt new_password, s));
      do! _ <- on_entries (update_where (at_dn (normalize_dn dn)) (with_password hash (to_rfc3339 now))); mret ()
  end.

Definition set_user_enabled (now : Z) (dn : string) (enabled : bool) : Db unit :=
  do! o <- find_entry dn;
  match o with
  | None => mfail NotFound
  | Some _ => do! _ <- on_entries (update_where (at_dn (normalize_dn dn)) (with_enabled enabled (to_rfc3339 now))); mret ()
  end.

Definition create_entry (now : Z) (salt dn : string) (object_classes : list string) (attributes : Attributes) (actor : string) :
    Db DirectoryEntry :=
  let norm := normalize_dn dn in
  let pw_key := find_key "userPassword" attributes in
  let '(attrs, password) := match pw_key with
                            | None => (attributes, None)
                            | Some k => (delete k attributes, attributes !! k ≫= head)
                            end in
  do! e <- insert_entry now (new_row now actor norm (first_component norm) (parent_of norm) object_classes
                               (structural_of object_classes) (unwrap_or "{}" (to_string attrs)));
  do! _ <- match password with Some pw => reset_password now salt (e_dn e) pw | None => mret () end;
  mret e.

(** A form's optional text. *)
Definition given (o : option string) : option string := o ≫= fun m => if is_empty m then None else Some m.

Definition with_optional (name : string) (o : option string) (m : Attributes) : Attributes :=
  match given o with Some v => <[name := [v]]> m | None => m end.

Definition create_user (now : Z) (parent_dn uid cn sn : string) (mail : option string) (actor : string) : Db LdapUser :=
  let rdn := "uid=" +:+ uid in
  let attributes := with_optional "mail" mail (<["sn" := [sn]]> (<["cn" := [cn]]> (<["uid" := [uid]]> ∅))) in
  do! e <- insert_entry now (new_row now actor (normalize_dn (build_dn rdn parent_dn)) rdn (Some (normalize_dn parent_dn))
                               ["top"; "person"; "organizationalPerson"; OC_USER] OC_USER (json_text attributes));
  mret (mkLdapUser (e_dn e) uid cn sn (given mail) true).

Definition create_group (now : Z) (parent_dn cn : string) (description : option string) (actor : string) : Db LdapGroup :=
  let rdn := "cn=" +:+ cn in
  let attributes := <["member" := []]> (with_optional "description" description (<["cn" := [cn]]> ∅)) in
  do! e <- insert_entry now (new_row now actor (normalize_dn (build_dn rdn parent_dn)) rdn (Some (normalize_dn parent_dn))
                               ["top"; OC_GROUP] OC_GROUP (json_text attributes));
  mret (mkLdapGroup (e_dn e) cn (given description) []).

Definition create_ou (now : Z) (parent_dn ou : string) (description : option string) (actor : string) : Db LdapOu :=
  let rdn := "ou=" +:+ ou in
  let attributes := with_optional "description" description (<["ou" := [ou]]> ∅) in
  do! e <- insert_entry now (new_row now actor (normalize_dn (build_dn rdn parent_dn)) rdn (Some (normalize_dn parent_dn))
                               ["top"; OC_OU] OC_OU (json_text attributes));
  mret (mkLdapOu (e_dn e) ou (given description) false).

(** Without the member [target], if it is there. *)
Definition strip_member (target : string) (r : EntryRecord) : option string :=
  let m := attributes_map r in
  match m !! "member" with
  | None => None
  | Some members =>
      let rest := List.filter (fun x => negb (String.eqb (normalize_dn x) target)) members in
      if (length rest =? length members)%nat then None else Some (json_text (<["member" := rest]> m))
  end.

(** With the member [old] renamed, if it is there. *)
Definition rename_member (old new : string) (r : EntryRecord) : option string :=
  let m := attributes_map r in
  match m !! "member" with
  | None => None
  | Some members =>
      if existsb (fun x => String.eqb (normalize_dn x) old) members
      then Some (json_text (<["member" := map (fun x => if String.eqb (normalize_dn x) old then new else x) members]> m))
      else None
  end.

(** The loop over the groups: those that [f] changes are written back. *)
Definition update_groups (now : Z) (f : EntryRecord -> option string) : Db unit :=
  do! groups <- list_by_structural OC_GROUP;
  for_each (fun kr => match f kr.2 with
                      | Some json => write_attributes now (er_dn kr.2) json
                      | None => mret ()
                      end) groups.

Definition log_deletion (now : Z) (dn : string) : Db unit := on_changelog (create_row (mkLdapChangeRecord dn (to_rfc3339 now))).

Definition recompute_children (now : Z) (parent : string) : Db unit :=
  do! remaining <- list_children now (Some parent);
  set_has_children parent (match remaining with [] => false | _ => true end).

Definition delete_entry (now : Z) (dn : string) : Db unit :=
  do! o <- find_entry dn;
  match o with
  | None => mfail NotFound
  | Some e =>
      if er_has_children e then mfail (Constraint MSG_OU_GUARD)
      else
        let target := normalize_dn dn in
        do! _ <- update_groups now (strip_member target);
        do! _ <- on_entries (delete_where (has_key er_dn target));
        do! _ <- log_deletion now target;
        match er_parent_dn e with
        | Some parent => recompute_children now parent
        | None => mret ()
        end
  end.

(** The attributes of an entry under its new name. *)
Definition renamed_attributes (delete_old_rdn : bool) (old_rdn new_rdn : string) (m : Attributes) : Attributes :=
  let m := if delete_old_rdn then match split_once "=" old_rdn with Some (a, v) => remove_attr_value m a v | None => m end else m in
  match split_once "=" new_rdn with Some (a, v) => add_attr_value m a v | None => m end.

Definition rename_entry (now : Z) (dn new_rdn : string) (delete_old_rdn : bool) (new_superior : option string) : Db DirectoryEntry :=
  do! o <- find_row dn;
  match o with
  | None => mfail NotFound
  | Some (k, record) =>
      if er_has_children record then mfail (Constraint MSG_OU_GUARD)
      else
        let old_dn := normalize_dn dn in
        let new_rdn := normalize_dn new_rdn in
        let new_parent := match new_superior with Some sup => Some (normalize_dn sup) | None => er_parent_dn record end in
        let new_dn := match new_parent with Some parent => new_rdn +:+ "," +:+ parent | None => new_rdn end in
        do! taken <- (if String.eqb new_dn old_dn then mret false
                      else do! found <- find_entry new_dn; mret (is_some found));
        if taken : bool then mfail (Constraint MSG_DN_DUP)
        else
          do! orphan <- match new_parent with
                        | None => mret false
                        | Some parent =>
                            if bool_decide (er_parent_dn record = Some parent) then mret false
                            else do! ok <- parent_exists parent; mret (negb ok)
                        end;
          if orphan : bool then mfail (Constraint MSG_NO_PARENT)
          else
            let attributes_json :=
              unwrap_or "{}" (to_string (renamed_attributes delete_old_rdn (er_rdn record) new_rdn (attributes_map record))) in
            do! _ <- update_groups now (rename_member old_dn new_dn);
            let old_parent := er_parent_dn record in
            do! _ <- on_entries (update_where (at_dn old_dn) (with_place new_dn new_rdn new_parent attributes_json (to_rfc3339 now)));
            do! _ <- log_deletion now old_dn;
            do! _ <- (if bool_decide (old_parent = new_parent) then mret ()
                      else
                        do! _ <- match old_parent with Some parent => recompute_children now parent | None => mret () end;
                        match new_parent with Some parent => set_has_children parent true | None => mret () end);
            mret (into_entry now (k, with_place new_dn new_rdn new_parent attributes_json (er_updated_at record) record))
  end.

Definition modify_entry (now : Z) (salt dn : string) (changes : list LdapAttrChange) : Db bool :=
  do! o <- find_entry dn;
  match o with
  | None => mret false
  | Some record =>
      let '(attributes, new_password) := fold_left apply_change changes (attributes_map record, None) in
      do! _ <- write_attributes now dn (unwrap_or "{}" (to_string attributes));
      do! _ <- match new_password with Some password => reset_password now salt dn password | None => mret () end;
      mret true
  end.

Definition replace (a : string) (vs : list string) : LdapAttrChange := mkChange Replace a vs.

(** Every attribute replaced, in the order of the names. *)
Definition replace_all (m : Attributes) : list LdapAttrChange := map (fun k => replace k (unwrap_or [] (m !! k))) (keys m).

Definition set_entry_ad_identity (now : Z) (salt dn sam_account_name object_sid_hex : string) : Db bool :=
  modify_entry now salt dn [replace "sAMAccountName" [sam_account_name]; replace "objectSid" [object_sid_hex]].

Definition member_set (f : list string -> list string) (dflt : bool) (r : EntryRecord) : Attributes :=
  let m := attributes_map r in
  match m !! "member" with
  | Some members => <["member" := f members]> m
  | None => if dflt then <["member" := f []]> m else m
  end.

Definition add_member (now : Z) (group_dn member_dn : string) : Db unit :=
  do! present <- find_entry member_dn;
  if negb (is_some present) then mfail (Constraint MSG_NO_MEMBER)
  else
    do! o <- find_entry group_dn;
    match o with
    | None => mfail NotFound
    | Some group =>
        let target := normalize_dn member_dn in
        let push members := if existsb (fun m => String.eqb (normalize_dn m) target) members then members else members ++ [member_dn] in
        write_attributes now (er_dn group) (json_text (member_set push true group))
    end.

Definition remove_member (now : Z) (group_dn member_dn : string) : Db unit :=
  do! o <- find_entry group_dn;
  match o with
  | None => mfail NotFound
  | Some group =>
      let target := normalize_dn member_dn in
      write_attributes now (er_dn group)
        (json_text (member_set (List.filter (fun m => negb (String.eqb (normalize_dn m) target))) false group))
  end.

(** *** Seeding *)

Definition ensure_ldap_base (now : Z) (base_dn actor : string) : Db string :=
  do! existing <- ldap_root_dn;
  match existing with
  | Some dn => mret dn
  | None =>
      let base := normalize_dn base_dn in
      do! _ <- on_entries (create_row (new_row now actor base (first_component base) None ["top"; OC_DOMAIN] OC_DOMAIN "{}"));
      mret base
  end.

Definition ensure_container (now : Z) (dn structural actor : string) : Db unit :=
  let norm := normalize_dn dn in
  do! found <- find_entry norm;
  if is_some found then mret ()
  else
    do! _ <- insert_entry now (new_row now actor norm (first_component norm) (parent_of norm) ["top"; structural] structural "{}");
    mret ().

Definition seed_domain_containers (now : Z) (base_dn actor : string) : Db unit :=
  do! base <- ensure_ldap_base now base_dn actor;
  do! _ <- for_each (fun cn => ensure_container now ("CN=" +:+ cn +:+ "," +:+ base) OC_CONTAINER actor) ["Users"; "Computers"; "System"];
  ensure_container now ("OU=Domain Controllers," +:+ base) OC_OU actor.

Definition single_valued (l : list (string * string)) : Attributes :=
  fold_left (fun m kv => <[kv.1 := [kv.2]]> m) l ∅.

Definition ensure_object (now : Z) (dn structural : string) (attrs : list (string * string)) (actor : string) : Db unit :=
  let norm := normalize_dn dn in
  do! found <- find_entry norm;
  if is_some found then mret ()
  else
    do! _ <- insert_entry now (new_row now actor norm (first_component norm) (parent_of norm) ["top"; structural] structural
                                 (unwrap_or "{}" (to_string (single_valued attrs))));
    mret ().

(** *** Operation masters *)

Definition config_dn (base : string) : string := "CN=Configuration," +:+ base.
Definition servers_dn (base : string) : string := "CN=Servers,CN=Default-First-Site-Name,CN=Sites," +:+ config_dn base.
Definition schema_dn (base : string) : string := "CN=Schema," +:+ config_dn base.
Definition partitions_dn (base : string) : string := "CN=Partitions," +:+ config_dn base.
Definition rid_manager_dn (base : string) : string := "CN=RID Manager$,CN=System," +:+ base.
Definition infrastructure_dn (base : string) : string := "CN=Infrastructure," +:+ base.

(** The directory-service object of a domain controller. *)
Definition ntds_dn (base netbios : string) : string :=
  normalize_dn ("CN=NTDS Settings,CN=" +:+ netbios +:+ "," +:+ servers_dn base).

Definition owner_of (base dc_netbios : string) (peer : option string) : string :=
  match peer with
  | Some nb => if String.eqb nb dc_netbios then ntds_dn base dc_netbios else ntds_dn base nb
  | None => ntds_dn base dc_netbios
  end.

Definition dc_labels (base : string) : list string :=
  omap (fun c => let c := trim c in
                 match strip_prefix "dc=" c with Some l => Some l | None => strip_prefix "DC=" c end) (split "," base).

Definition domain_netbios (base : string) : string :=
  match dc_labels base with l :: _ => take_chars 15 (to_ascii_uppercase l) | [] => EmptyString end.

Definition seed_fsmo_roles_owned (now : Z) (salt base_dn dc_netbios : string) (owners : FsmoOwners) (actor : string) : Db unit :=
  do! base <- ensure_ldap_base now base_dn actor;
  let config := config_dn base in
  let owner peer := owner_of base dc_netbios peer in
  let ensure dn class attrs := ensure_object now dn class attrs actor in
  do! _ <- ensure config "container" [];
  do! _ <- ensure ("CN=Sites," +:+ config) "container" [];
  do! _ <- ensure ("CN=Default-First-Site-Name,CN=Sites," +:+ config) "site" [];
  do! _ <- ensure (servers_dn base) "container" [];
  do! _ <- ensure ("CN=" +:+ dc_netbios +:+ "," +:+ servers_dn base) "server" [];
  do! _ <- ensure ("CN=NTDS Settings,CN=" +:+ dc_netbios +:+ "," +:+ servers_dn base) "nTDSDSA" [];
  do! _ <- ensure (schema_dn base) "dMD" [("fSMORoleOwner", owner (o_schema owners))];
  do! _ <- ensure (partitions_dn base) "crossRefContainer" [("fSMORoleOwner", owner (o_domain_naming owners))];
  do! _ <- (if is_empty (domain_netbios base) then mret ()
            else ensure ("CN=" +:+ domain_netbios base +:+ "," +:+ partitions_dn base) "crossRef"
                   [("nCName", base); ("nETBIOSName", domain_netbios base); ("dnsRoot", join "." (dc_labels base));
                    ("systemFlags", "3")]);
  do! _ <- ensure ("CN=System," +:+ base) OC_CONTAINER [];
  do! _ <- ensure (rid_manager_dn base) "rIDManager" [("fSMORoleOwner", owner (o_rid owners))];
  do! _ <- ensure (infrastructure_dn base) "infrastructureUpdate" [("fSMORoleOwner", owner (o_infrastructure owners))];
  do! _ <- for_each (fun po : string * string =>
                       let part_head := "DC=" +:+ po.1 +:+ "," +:+ base in
                       do! _ <- ensure part_head "domainDNS" [];
                       ensure ("CN=Infrastructure," +:+ part_head) "infrastructureUpdate" [("fSMORoleOwner", po.2)])
             [("DomainDnsZones", owner (o_domain_dns owners)); ("ForestDnsZones", owner (o_forest_dns owners))];
  do! root <- find_entry base;
  if is_some_and (fun r => is_some (attributes_map r !! "fSMORoleOwner" ≫= head)) root then mret ()
  else
    do! _ <- modify_entry now salt base [replace "fSMORoleOwner" [owner (o_pdc owners)]]; mret ().

Definition seed_fsmo_roles (now : Z) (salt base_dn dc_netbios actor : string) : Db unit :=
  seed_fsmo_roles_owned now salt base_dn dc_netbios no_owners actor.


Definition role_trigger (role_attr : string) : option master :=
  let a := to_ascii_lowercase role_attr in
  if String.eqb a "becomeschemamaster" then Some SchemaRole
  else if String.eqb a "becomedomainmaster" then Some NamingRole
  else if String.eqb a "becomeridmaster" then Some RidRole
  else if String.eqb a "becomeinfrastructuremaster" then Some InfrastructureRole
  else if String.eqb a "becomepdc" then Some PdcRole
  else None.

Definition role_dn (base : string) (r : master) : string :=
  match r with
  | SchemaRole => schema_dn base
  | NamingRole => partitions_dn base
  | RidRole => rid_manager_dn base
  | InfrastructureRole => infrastructure_dn base
  | PdcRole => base
  end.

Definition seize_fsmo_role (now : Z) (salt base_dn dc_netbios role_attr : string) : Db (option string) :=
  do! base <- ensure_ldap_base now base_dn "system";
  match role_trigger role_attr with
  | None => mret None
  | Some r =>
      do! _ <- modify_entry now salt (role_dn base r) [replace "fSMORoleOwner" [ntds_dn base dc_netbios]];
      mret (Some (role_dn base r))
  end.

Definition role_key (r : master) : string :=
  match r with
  | SchemaRole => "schema" | NamingRole => "domain_naming" | RidRole => "rid"
  | InfrastructureRole => "infrastructure" | PdcRole => "pdc"
  end.
Definition all_roles : list master := [SchemaRole; NamingRole; RidRole; InfrastructureRole; PdcRole].

(** The first value of the first attribute of that name, whatever its case. *)
Definition role_owner (e : DirectoryEntry) : option string :=
  k ← find_key "fSMORoleOwner" (e_attributes e); e_attributes e !! k ≫= head.

Fixpoint fsmo_owners_of (now : Z) (base : string) (roles : list master) : Db (list (string * string * option string)) :=
  match roles with
  | [] => mret []
  | r :: roles' =>
      do! e <- get_entry now (role_dn base r);
      do! rest <- fsmo_owners_of now base roles';
      mret ((role_key r, role_dn base r, e ≫= role_owner) :: rest)
  end.

Definition fsmo_owners (now : Z) (base_dn : string) : Db (list (string * string * option string)) :=
  fsmo_owners_of now (normalize_dn base_dn) all_roles.

(** *** Projected objects *)

Definition ensure_computer_entry (now : Z) (salt base_dn sam_account_name dns_host_name : string) (user_account_control : Z)
    (actor : string) : Db unit :=
  do! base <- ensure_ldap_base now base_dn actor;
  let cn := trim_end_matches "$" sam_account_name in
  let dn := normalize_dn ("cn=" +:+ cn +:+ "," +:+ base) in
  let attributes : Attributes := <["userAccountControl" := [dec_string user_account_control]]>
    (<["dNSHostName" := [dns_host_name]]> (<["sAMAccountName" := [sam_account_name]]> ∅)) in
  do! found <- find_entry dn;
  if is_some found then do! _ <- modify_entry now salt dn (replace_all attributes); mret ()
  else do! _ <- create_entry now salt dn ["top"; "computer"] attributes actor; mret ().

(** The ancestors of a name that are missing, the nearest first: the loop stops at
    the first that exists. *)
Fixpoint missing_ancestors (fuel : nat) (parent : option string) : Db (list string) :=
  match fuel, parent with
  | S fuel', Some p =>
      if is_empty p then mret []
      else
        do! found <- find_entry p;
        if is_some found then mret []
        else do! rest <- missing_ancestors fuel' (normalize_dn <$> parent_of p); mret (p :: rest)
  | _, _ => mret []
  end.

Definition ensure_ancestors (now : Z) (dn actor : string) : Db unit :=
  do! missing <- missing_ancestors (S (String.length dn)) (normalize_dn <$> parent_of dn);
  for_each (fun anc => ensure_container now anc OC_CONTAINER actor) (rev missing).

Definition upsert_projected_entry (now : Z) (salt dn : string) (object_classes : list string) (attributes : Attributes)
    (actor : string) : Db unit :=
  do! _ <- ensure_ancestors now dn actor;
  do! found <- find_entry dn;
  if is_some found then do! _ <- modify_entry now salt dn (replace_all attributes); mret ()
  else do! _ <- create_entry now salt dn object_classes attributes actor; mret ().

Definition ensure_user_entry (now : Z) (salt base_dn sam_account_name : string) (object_sid : bytes) (user_account_control : Z)
    (actor : string) : Db unit :=
  do! base <- ensure_ldap_base now base_dn actor;
  let users := "CN=Users," +:+ base in
  do! _ <- ensure_container now users OC_CONTAINER actor;
  let dn := normalize_dn ("CN=" +:+ sam_account_name +:+ "," +:+ users) in
  let attributes : Attributes := <["userAccountControl" := [dec_string user_account_control]]>
    (<["objectSid" := [hex_of object_sid]]> (<["sAMAccountName" := [sam_account_name]]> ∅)) in
  upsert_projected_entry now salt dn ["top"; "person"; "organizationalPerson"; "user"] attributes actor.

Definition delete_projected_entry (base_dn sam_account_name : string) : Db unit :=
  let base := normalize_dn base_dn in
  let dn := normalize_dn ("CN=" +:+ sam_account_name +:+ ",CN=Users," +:+ base) in
  do! found <- find_entry dn;
  if is_some found then on_entries (delete_where (has_key er_dn dn)) else mret ().

(** *** Content synchronisation *)

Definition max_str (a b : string) : string := if str_lt a b then b else a.
Definition csn_desc (a b : LdapChangeRecord) : bool := str_le (ch_csn b) (ch_csn a).
Definition updated_desc (a b : EntryRecord) : bool := str_le (er_updated_at b) (er_updated_at a).

Definition ldap_context_csn : Db string :=
  do! entries <- read_from entry (select (fun _ => true) updated_desc (Some 1%nat));
  do! deletes <- read_from ldap_changelog (select (fun _ => true) csn_desc (Some 1%nat));
  let m := match entries with kr :: _ => max_str EmptyString (er_updated_at kr.2) | [] => EmptyString end in
  mret (match deletes with kr :: _ => max_str m (ch_csn kr.2) | [] => m end).

Definition ldap_entries_since (now : Z) (since : string) : Db (list DirectoryEntry) :=
  do! l <- select_entries (fun r => is_empty since || str_lt since (er_updated_at r)); mret (map (into_entry now) l).

Definition ldap_deletions_since (since : string) : Db (list string) :=
  do! l <- read_from ldap_changelog (select (fun c => str_lt since (ch_csn c)) (fun a b => str_le (ch_csn a) (ch_csn b)) None);
  mret (map (fun kr => ch_dn kr.2) l).

Definition apply_ldap_sync_entry (now : Z) (dn entry_uuid : string) (object_classes : list string) (attributes : Attributes)
    (enabled : bool) : Db bool :=
  let norm := normalize_dn dn in
  let structural := structural_of object_classes in
  let attrs_json := unwrap_or "{}" (to_string attributes) in
  do! existing <- find_entry norm;
  if is_some existing then
    do! _ <- on_entries (update_where (at_dn norm) (with_synced object_classes structural attrs_json entry_uuid enabled (to_rfc3339 now)));
    mret false
  else
    do! _ <- on_entries (create_row (mkEntryRecord norm (first_component norm) (parent_of norm) object_classes structural attrs_json
                                       enabled None false (to_rfc3339 now) (to_rfc3339 now) "syncrepl" (Some entry_uuid)));
    do! _ <- match parent_of norm with Some parent => ignore (set_has_children parent true) | None => mret () end;
    mret true.

Definition ldap_imported_uuids : Db (list string) :=
  do! l <- read_from entry (select (fun r => is_some (er_source_uuid r)) unordered None);
  mret (omap (fun kr => er_source_uuid kr.2) l).

Definition from_uuid (u : string) (r : EntryRecord) : bool := bool_decide (er_source_uuid r = Some u).

Definition apply_ldap_sync_delete (entry_uuid : string) : Db bool :=
  do! l <- read_from entry (select (from_uuid entry_uuid) unordered None);
  match l with
  | [] => mret false
  | _ => do! _ <- on_entries (delete_where (from_uuid entry_uuid)); mret true
  end.

Definition get_ldap_sync_state (now : Z) : Db LdapSyncState :=
  do! o <- read_from ldap_sync_state (select_one (fun _ => true));
  mret (match o with
        | Some r => mkLdapSyncState (ss_cookie r) (parse_rfc3339 now <$> ss_last_sync r) (ss_applied r) (ss_deleted r) (ss_last_error r)
        | None => mkLdapSyncState EmptyString None 0 0 None
        end).

(** The totals are [u64]; they stay far below [2^64]. *)
Definition record_ldap_sync (now : Z) (cookie : string) (applied deleted : Z) (last_error : option string) : Db unit :=
  do! prev <- get_ldap_sync_state now;
  let rec := mkLdapSyncStateRecord cookie (Some (to_rfc3339 now)) (sync_applied prev + applied) (sync_deleted prev + deleted) last_error in
  do! existing <- read_from ldap_sync_state (select_one (fun _ => true));
  if is_some existing
  then do! _ <- on_sync_state (update_where (fun _ _ => true) (fun _ => rec)); mret ()
  else on_sync_state (create_row rec).

(** *** Access rules *)

Definition into_model (now : Z) (kr : string * AclRecord) : LdapAclRule :=
  let (k, r) := kr in
  mkLdapAclRule k (parse_rfc3339 now (ar_created_at r)) (parse_rfc3339 now (ar_updated_at r)) (ar_created_by r)
    (ar_priority r) (ar_target_dn r) (unwrap_or [] (of_string (ar_operations r))) (unwrap_or Anyone (of_string (ar_subject r)))
    (unwrap_or Deny (of_string (ar_effect r))) (ar_enabled r).

Definition priority_le (a b : AclRecord) : bool := ar_priority a <=? ar_priority b.

Definition list_ldap_acls (now : Z) : Db (list LdapAclRule) :=
  do! l <- read_from ldap_acl (select (fun _ => true) priority_le None); mret (map (into_model now) l).

(** A JSON string. *)
Definition quoted (s : string) : string := let q := String (ascii_of_N 34) EmptyString in q +:+ s +:+ q.

Definition create_ldap_acl (now : Z) (rule : LdapAclRule) : Db LdapAclRule :=
  do! created <- on_acls (create (mkAclRecord (priority rule) (normalize_dn (target_dn rule))
                                    (unwrap_or "[]" (to_string (operations rule))) (unwrap_or "null" (to_string (subject rule)))
                                    (unwrap_or (quoted "deny") (to_string (effect rule))) (acl_enabled rule)
                                    (to_rfc3339 now) (to_rfc3339 now) (acl_created_by rule)));
  match created with
  | Some kr => mret (into_model now kr)
  | None => mfail (Constraint "ACL creation returned nothing")
  end.

Definition delete_ldap_acl (id : string) : Db unit := on_acls (delete_key id).

Definition with_acl_enabled (en : bool) (t : string) (r : AclRecord) : AclRecord :=
  mkAclRecord (ar_priority r) (ar_target_dn r) (ar_operations r) (ar_subject r) (ar_effect r) en (ar_created_at r) t (ar_created_by r).

Definition set_ldap_acl_enabled (now : Z) (id : string) (enabled : bool) : Db unit :=
  do! _ <- on_acls (update_where (fun k _ => String.eqb k id) (with_acl_enabled enabled (to_rfc3339 now))); mret ().

Definition group_has_member (group_dn member_dn : string) : Db bool :=
  do! o <- find_entry group_dn;
  mret (match o with
        | None => false
        | Some group => let target := normalize_dn member_dn in
                        is_some_and (existsb (fun m => String.eqb (normalize_dn m) target)) (attributes_map group !! "member")
        end).

Definition acl_subject_matches (s : LdapAclSubject) (bound_dn : option string) : Db bool :=
  match s with
  | Anyone => mret true
  | Anonymous => mret (negb (is_some bound_dn))
  | Authenticated => mret (is_some bound_dn)
  | SubjectDn dn => mret (bool_decide (normalize_dn <$> bound_dn = Some (normalize_dn dn)))
  | GroupMember group => match bound_dn with Some dn => group_has_member group dn | None => mret false end
  end.

Fixpoint first_match (rules : list LdapAclRule) (bound_dn : option string) (o : LdapAclOperation) (target : string) : Db bool :=
  match rules with
  | [] => mret false
  | rule :: rules' =>
      if negb (bool_decide (o ∈ operations rule)) || negb (dn_in_scope (target_dn rule) target)
      then first_match rules' bound_dn o target
      else
        do! matches <- acl_subject_matches (subject rule) bound_dn;
        if matches : bool then mret (bool_decide (effect rule = Allow)) else first_match rules' bound_dn o target
  end.

Definition evaluate_ldap_acl (now : Z) (bound_dn : option string) (o : LdapAclOperation) (target : string) : Db bool :=
  do! all <- list_ldap_acls now;
  match List.filter acl_enabled all with
  | [] => mret true
  | rules => first_match rules bound_dn o (normalize_dn target)
  end.

(** ** The store as a map and a log *)

(** What SurrealDB answers: a row created respects the unique index, and a query
    that fails does so with [DbError::Surreal]. *)
Context {UE : Unique TE EntryRecord er_dn} {FE : Fails TE EntryRecord} {FL : Fails TL LdapChangeRecord}.

Record view := mkView { entries : gmap string EntryRecord; log : list LdapChangeRecord }.

Definition abs (s : store) (v : view) : Prop :=
  keyed er_dn (entry s) (entries v) /\ map snd (rows (ldap_changelog s)) ≡ₚ log v.

Definition failure (e : DbError) : Prop := match e with Surreal | Surreal.PasswordHash _ => True | _ => False end.

(** The call acts on the view as [Q] says, or the database or Argon2 fails. *)
Definition vwp {A} (m : Db A) (Q : DbResult A -> view -> Prop) (v : view) : Prop :=
  forall s, abs s v -> wp m (fun r s' => (exists e, r = Err e /\ failure e) \/ exists v', abs s' v' /\ Q r v') s.

Definition on_view (f : gmap string EntryRecord -> gmap string EntryRecord) (v : view) : view := mkView (f (entries v)) (log v).

Lemma vwp_ret {A} (a : A) (Q : DbResult A -> view -> Prop) v : Q (Ok a) v -> vwp (mret a) Q v.
Proof. intros H s Hs. apply wp_ret. right. eauto. Qed.

Lemma vwp_fail {A} e (Q : DbResult A -> view -> Prop) v : Q (Err e) v -> vwp (mfail e) Q v.
Proof. intros H s Hs. apply wp_fail. right. eauto. Qed.

Lemma vwp_mono {A} (m : Db A) (P Q : DbResult A -> view -> Prop) v :
  vwp m P v -> (forall r v', P r v' -> Q r v') -> vwp m Q v.
Proof. intros H HPQ s Hs. apply (wp_mono _ _ _ _ (H s Hs)). intros r s' [Hf|(v' & Ha & Hp)]; [by left|right; eauto]. Qed.

Lemma vwp_bind {A B} (m : Db A) (k : A -> Db B) (Q : DbResult B -> view -> Prop) v :
  vwp m (fun r v' => match r with Ok a => vwp (k a) Q v' | Err e => Q (Err e) v' end) v -> vwp (mbind_ m k) Q v.
Proof.
  intros H s Hs. apply wp_bind, (wp_mono _ _ _ _ (H s Hs)). intros [a|e] s' [(e' & [= <-] & Hf)|(v' & Ha & HQ)].
  - by apply HQ.
  - left. eauto.
  - right. eauto.
Qed.

(** A call whose result only passes through a function. *)
Lemma vwp_map {A B} (m : Db A) (f : A -> B) (Q : DbResult B -> view -> Prop) v :
  vwp m (fun r v' => match r with Ok a => Q (Ok (f a)) v' | Err e => Q (Err e) v' end) v ->
  vwp (do! a <- m; mret (f a)) Q v.
Proof. intros H. apply vwp_bind, (vwp_mono _ _ _ _ H). intros [a|e] v'; [apply vwp_ret|done]. Qed.

Lemma vwp_run {A} (m : Db A) (Q : DbResult A -> view -> Prop) s v r s' :
  abs s v -> m s = (r, s') -> vwp m Q v -> (forall e, r = Err e -> ~ failure e) -> exists v', abs s' v' /\ Q r v'.
Proof.
  intros Hs E H Hf. pose proof (wp_run _ _ _ _ _ E (H s Hs)) as [(e & -> & He)|H']; [|done]. by destruct (Hf e eq_refl).
Qed.

Lemma abs_entries s v t m : abs s v -> keyed er_dn t m -> abs (put_entries t s) (mkView m (log v)).
Proof. intros [H1 H2] H. by split. Qed.

Lemma vwp_find_entry dn (Q : DbResult (option EntryRecord) -> view -> Prop) v :
  Q (Ok (entries v !! normalize_dn dn)) v -> vwp (find_entry dn) Q v.
Proof.
  intros H s Hs. unfold find_entry, wp, read_from, select_one. simpl. pose proof Hs as [Hk _].
  destruct (select _ _ _ _) as [l|e] eqn:E; simpl.
  - right. exists v. split; [done|].
    assert (wp (read_from entry (select_one (has_key er_dn (normalize_dn dn)))) (fun r _ => forall x, r = Ok x -> x = entries v !! normalize_dn dn) s) as Hw.
    { apply (wp_keyed_select er_dn entry _ (entries v)); [done|by intros x [= <-]|done]. }
    unfold wp, read_from, select_one in Hw. simpl in Hw. rewrite E in Hw. simpl in Hw. by rewrite (Hw _ eq_refl).
  - left. exists e. split; [done|]. by rewrite (select_fails _ _ _ _ _ E).
Qed.

Lemma vwp_find_row dn (Q : DbResult (option (string * EntryRecord)) -> view -> Prop) v :
  (forall k r, entries v !! normalize_dn dn = Some r -> Q (Ok (Some (k, r))) v) ->
  (entries v !! normalize_dn dn = None -> Q (Ok None) v) -> vwp (find_row dn) Q v.
Proof.
  intros H1 H2 s Hs. pose proof (vwp_find_entry dn (fun r _ => r = Ok (entries v !! normalize_dn dn)) v eq_refl s Hs) as H.
  unfold find_row, find_entry, wp, read_from, select_one, mbind_ in *. simpl in *.
  destruct (select _ _ _ _) as [l|e] eqn:E; simpl in *; [|left; exists e; split; [done|by rewrite (select_fails _ _ _ _ _ E)]].
  right. exists v. split; [done|]. destruct H as [(e & [=] & _)|(v' & _ & [= H])].
  destruct l as [|[k r] l]; simpl in *; [by apply H2|by apply H1].
Qed.

(** *** Updating one row *)

Definition upd (k : string) (f : EntryRecord -> EntryRecord) (r : EntryRecord) : EntryRecord := if has_key er_dn k r then f r else r.

Lemma map_snd_update k f (l : list (string * EntryRecord)) :
  map snd (map (fun kr => if at_dn k kr.1 kr.2 then (kr.1, f kr.2) else kr) l) = map (upd k f) (map snd l).
Proof. rewrite !map_map. apply map_ext. intros [k0 r]. unfold upd, at_dn. simpl. by destruct (has_key er_dn k r). Qed.

Lemma keyed_alter t t' m k f :
  (forall r, er_dn (f r) = er_dn r) ->
  rows t' ≡ₚ map (fun kr => if at_dn k kr.1 kr.2 then (kr.1, f kr.2) else kr) (rows t) ->
  keyed er_dn t m -> keyed er_dn t' (alter f k m).
Proof.
  intros Hf Hp H k0. apply option_list_perm. rewrite Hp, map_snd_update.
  assert (forall l, List.filter (has_key er_dn k0) (map (upd k f) l) = map (upd k f) (List.filter (has_key er_dn k0) l)) as Hfm.
  { intros l. induction l as [|r l IH]; [done|]. simpl.
    assert (has_key er_dn k0 (upd k f r) = has_key er_dn k0 r) as ->.
    { unfold upd. destruct (has_key er_dn k r); [|done]. unfold has_key. by rewrite Hf. }
    destruct (has_key er_dn k0 r); simpl; by rewrite IH. }
  rewrite Hfm, (H k0), lookup_alter. destruct (decide (k = k0)) as [<-|Hne].
  - destruct (m !! k) as [r|] eqn:E; [|done]. simpl. unfold upd, has_key. by rewrite (keyed_key er_dn _ _ _ _ H E), String.eqb_refl.
  - destruct (m !! k0) as [r|] eqn:E; [|done]. simpl. unfold upd, has_key. rewrite (keyed_key er_dn _ _ _ _ H E).
    by destruct (String.eqb_spec k0 k) as [->|].
Qed.

Lemma keyed_move t t' m k k' f r :
  m !! k = Some r -> m !! k' = None -> er_dn (f r) = k' ->
  rows t' ≡ₚ map (fun kr => if at_dn k kr.1 kr.2 then (kr.1, f kr.2) else kr) (rows t) ->
  keyed er_dn t m -> keyed er_dn t' (<[k' := f r]> (delete k m)).
Proof.
  intros Er En Hf Hp H k0. apply option_list_perm. rewrite Hp, map_snd_update.
  assert (k <> k') as Hne by congruence.
  assert (forall l, (forall x, In x l -> has_key er_dn k x = true -> x = r) ->
            List.filter (has_key er_dn k0) (map (upd k f) l) ≡ₚ
            (if decide (k0 = k') then map f (List.filter (has_key er_dn k) l) else []) ++
            (if decide (k0 = k) then [] else List.filter (has_key er_dn k0) l)) as Hfm.
  { intros l. induction l as [|x l IH]; intros Hx; [by do 2 case_decide|]. simpl.
    specialize (IH (fun y Hy => Hx y (or_intror Hy))). specialize (Hx x (or_introl eq_refl)).
    destruct (has_key er_dn k x) eqn:Ek; (assert (upd k f x = if has_key er_dn k x then f x else x) as Eu by done; rewrite Ek in Eu; rewrite Eu; clear Eu).
    - rewrite (Hx eq_refl) in *. apply String.eqb_eq in Ek.
      assert (has_key er_dn k0 (f r) = String.eqb k' k0) as -> by (unfold has_key; by rewrite Hf).
      assert (has_key er_dn k0 r = String.eqb k k0) as -> by (unfold has_key; by rewrite Ek).
      destruct (String.eqb_spec k' k0), (String.eqb_spec k k0), (decide (k0 = k')), (decide (k0 = k)); try congruence;
        simpl in *; by rewrite IH.
    - apply String.eqb_neq in Ek. destruct (has_key er_dn k0 x) eqn:Exk; [apply String.eqb_eq in Exk|].
      + rewrite IH. destruct (decide (k0 = k')), (decide (k0 = k)); try congruence; simpl; by rewrite ?Permutation_middle.
      + rewrite IH. by destruct (decide (k0 = k')), (decide (k0 = k)). }
  rewrite Hfm.
  - rewrite (H k), (H k0), Er. destruct (decide (k0 = k')) as [E1|E1], (decide (k0 = k)) as [E2|E2]; try congruence.
    + by rewrite E1, lookup_insert_eq, En.
    + by rewrite lookup_insert_ne, E2, lookup_delete_eq by done.
    + by rewrite lookup_insert_ne, lookup_delete_ne by done.
  - intros x Hx Hk. apply String.eqb_eq in Hk. apply (keyed_In er_dn _ _ _ H) in Hx. congruence.
Qed.

(** *** Rules for the queries *)

Lemma vwp_update k f (Q : DbResult unit -> view -> Prop) v :
  (forall r, er_dn (f r) = er_dn r) -> Q (Ok ()) (on_view (alter f k) v) ->
  vwp (do! _ <- on_entries (update_where (at_dn k) f); mret ()) Q v.
Proof.
  intros Hf HQ s Hs. unfold wp, on_entries, on_table, mbind_. destruct (update_where (at_dn k) f (entry s)) as [[l|e] t] eqn:E; simpl.
  - right. eexists. split; [|exact HQ]. apply abs_entries; [done|]. apply update_where_ok in E as [E _].
    destruct Hs. by eapply keyed_alter.
  - left. exists e. split; [done|]. by rewrite (update_where_fails _ _ _ _ _ E).
Qed.

Lemma vwp_update_place k k' f r (Q : DbResult (list (string * EntryRecord)) -> view -> Prop) v :
  entries v !! k = Some r -> (k' <> k -> entries v !! k' = None) -> (forall r, er_dn (f r) = k') ->
  (forall l, Q (Ok l) (on_view (fun m => <[k' := f r]> (delete k m)) v)) ->
  vwp (on_entries (update_where (at_dn k) f)) Q v.
Proof.
  intros Er En Hf HQ s Hs. unfold wp, on_entries, on_table. destruct (update_where (at_dn k) f (entry s)) as [[l|e] t] eqn:E; simpl.
  - right. eexists. split; [|apply HQ]. apply abs_entries; [done|]. apply update_where_ok in E as [E _].
    destruct Hs as [Hk _]. destruct (decide (k' = k)) as [->|Hne]; [|eapply keyed_move; eauto].
    rewrite insert_delete_eq. intros k0. apply option_list_perm.
    assert (keyed er_dn t (alter f k (entries v))) as Ha.
    { assert (rows t ≡ₚ map (fun kr => if at_dn k kr.1 kr.2 then (kr.1, (if String.eqb (er_dn kr.2) k then f kr.2 else kr.2)) else kr) (rows (entry s))) as E'.
      { rewrite E. erewrite map_ext; [reflexivity|]. intros [x y]. unfold at_dn, has_key. simpl. by destruct (String.eqb (er_dn y) k). }
      replace (alter f k (entries v)) with (alter (fun y => if String.eqb (er_dn y) k then f y else y) k (entries v)).
      - eapply (keyed_alter _ _ _ _ (fun y => if String.eqb (er_dn y) k then f y else y)); [|exact E'|done].
        intros y. destruct (String.eqb_spec (er_dn y) k); [by rewrite Hf|done].
      - apply map_eq. intros i. rewrite !lookup_alter. case_decide as Hi; [|done]. subst i. rewrite Er. simpl.
        by rewrite (keyed_key er_dn _ _ _ _ Hk Er), String.eqb_refl. }
    rewrite (Ha k0), lookup_alter. destruct (decide (k = k0)) as [<-|].
    + by rewrite lookup_insert_eq, Er.
    + by rewrite lookup_insert_ne.
  - left. exists e. split; [done|]. by rewrite (update_where_fails _ _ _ _ _ E).
Qed.

Lemma vwp_delete k (Q : DbResult unit -> view -> Prop) v :
  Q (Ok ()) (on_view (delete k) v) -> vwp (on_entries (delete_where (has_key er_dn k))) Q v.
Proof.
  intros HQ s Hs. pose proof Hs as [Hk _]. unfold wp, on_entries, on_table.
  destruct (delete_where (has_key er_dn k) (entry s)) as [[[]|e] t] eqn:E; simpl.
  - right. eexists. split; [|exact HQ]. apply abs_entries; [done|].
    pose proof (wp_keyed_delete_key er_dn entry put_entries (entries v) k (fun r s' => forall u, r = Ok u -> keyed er_dn (entry s') (delete k (entries v))) s Hk) as H.
    unfold wp, on_table in H. rewrite E in H. simpl in H. by apply (H (fun _ H _ _ => H) (fun _ _ _ _ H => ltac:(discriminate)) ()).
  - left. exists e. split; [done|]. by rewrite (delete_where_fails _ _ _ _ E).
Qed.

Lemma vwp_create r (Q : DbResult (option (string * EntryRecord)) -> view -> Prop) v :
  (forall k, entries v !! er_dn r = None -> Q (Ok (Some (k, r))) (on_view (<[er_dn r := r]>) v)) -> Q (Ok None) v ->
  vwp (on_entries (create r)) Q v.
Proof.
  intros H1 H2 s Hs. unfold wp, on_entries, on_table. destruct (create r (entry s)) as [[[[k r']|]|e] t] eqn:E; simpl.
  - right. pose proof (create_unique _ _ _ _ E) as Hu. apply create_ok in E as (-> & _ & E).
    assert (entries v !! er_dn r = None) as Hn.
    { destruct (entries v !! er_dn r) as [x|] eqn:Ex; [|done]. destruct Hu. destruct Hs as [Hk _].
      pose proof (keyed_key er_dn _ _ _ _ Hk Ex) as Ek. rewrite <- Ek in Ex. apply (keyed_In er_dn _ _ _ Hk) in Ex.
      rewrite <- Ek. apply list_elem_of_In, in_map, Ex. }
    eexists. split; [|by apply H1]. apply abs_entries; [done|]. destruct Hs. by eapply keyed_create.
  - right. exists v. split; [|done]. apply create_ok in E. destruct Hs. split; [by eapply keyed_perm|done].
  - left. exists e. split; [done|]. by rewrite (create_fails _ _ _ _ E).
Qed.

Lemma vwp_create_row r (Q : DbResult unit -> view -> Prop) v :
  (entries v !! er_dn r = None -> Q (Ok ()) (on_view (<[er_dn r := r]>) v)) -> vwp (on_entries (create_row r)) Q v.
Proof.
  intros H s Hs.
  pose proof (vwp_create r (fun x v' => x = Ok None \/ (Q (Ok ()) v' /\ is_ok x)) v) as Hc.
  assert (vwp (on_entries (create r)) (fun x v' => x = Ok None \/ (Q (Ok ()) v' /\ is_ok x)) v) as Hc'.
  { apply Hc; [|by left]. intros k Hn. right. split; [auto|by eexists]. }
  specialize (Hc' s Hs). unfold wp, on_entries, on_table, create_row in *. destruct (create r (entry s)) as [[[[k r']|]|e] t] eqn:E; simpl in *.
  - destruct Hc' as [(e & [=] & _)|(v' & Ha & [[=]|[HQ _]])]. right. eauto.
  - left. by eexists.
  - destruct Hc' as [(e' & [= <-] & Hf)|(v' & Ha & [[=]|[_ [x [=]]]])]. left. eauto.
Qed.

Lemma keyed_NoDup t m : keyed er_dn t m -> NoDup (map er_dn (map snd (rows t))).
Proof.
  intros H. assert (forall k, (length (List.filter (has_key er_dn k) (map snd (rows t))) <= 1)%nat) as Hl.
  { intros k. rewrite (H k). destruct (m !! k); simpl; lia. }
  clear H. revert Hl. generalize (map snd (rows t)). intros l. induction l as [|r l IH]; intros Hl; [constructor|].
  simpl. constructor.
  - intros (r' & E & Hin)%list_elem_of_fmap. specialize (Hl (er_dn r)). simpl in Hl. unfold has_key at 1 in Hl.
    rewrite String.eqb_refl in Hl. simpl in Hl. assert (In r' (List.filter (has_key er_dn (er_dn r)) l)) as Hf.
    { apply filter_In. split; [by apply list_elem_of_In|]. unfold has_key. rewrite E. apply String.eqb_refl. }
    destruct (List.filter (has_key er_dn (er_dn r)) l); [done|simpl in Hl; lia].
  - apply IH. intros k. specialize (Hl k). simpl in Hl. destruct (has_key er_dn k r); simpl in Hl; lia.
Qed.

Lemma dn_le_order : (forall x y, dn_le x y = true \/ dn_le y x = true) /\
  (forall x y z, dn_le x y = true -> dn_le y z = true -> dn_le x z = true).
Proof. apply (str_le_order er_dn). Qed.

Lemma vwp_select_entries p (Q : DbResult (list (string * EntryRecord)) -> view -> Prop) v :
  (forall l, (forall r, In r (map snd l) <-> p r = true /\ entries v !! er_dn r = Some r) -> NoDup (map (fun kr => er_dn kr.2) l) ->
     StronglySorted (fun a b => dn_le a.2 b.2 = true) l -> Q (Ok l) v) ->
  vwp (select_entries p) Q v.
Proof.
  intros H s Hs. pose proof Hs as [Hk _]. unfold select_entries, wp, read_from. simpl.
  destruct (select p dn_le None (entry s)) as [l|e] eqn:E; [right|left; exists e; split; [done|by rewrite (select_fails _ _ _ _ _ E)]].
  exists v. split; [done|]. destruct (select_ok _ _ _ _ _ E (proj1 dn_le_order) (proj2 dn_le_order)) as (all & Hp & Hsort & ->).
  simpl. assert (map snd all ≡ₚ List.filter p (map snd (rows (entry s)))) as Hp' by (rewrite Hp; by rewrite (filter_map_snd p)).
  apply H; [| |done].
  - intros r. rewrite Hp', filter_In, (keyed_In er_dn _ _ _ Hk). tauto.
  - rewrite <- (map_map snd er_dn), Hp'. apply NoDup_map_filter. by eapply keyed_NoDup.
Qed.

Lemma vwp_log now dn (Q : DbResult unit -> view -> Prop) v :
  Q (Ok ()) (mkView (entries v) (mkLdapChangeRecord dn (to_rfc3339 now) :: log v)) -> vwp (log_deletion now dn) Q v.
Proof.
  intros HQ s [Hk Hl]. unfold log_deletion, wp, on_changelog, on_table, create_row.
  destruct (create _ (ldap_changelog s)) as [[[[k r']|]|e] t] eqn:E; simpl.
  - right. apply create_ok in E as (-> & _ & E). eexists. split; [|exact HQ]. split; [done|]. simpl. by rewrite E, <- Hl.
  - left. by eexists.
  - left. exists e. split; [done|]. by rewrite (create_fails _ _ _ _ E).
Qed.

Lemma vwp_root (Q : DbResult (option string) -> view -> Prop) v :
  (forall r, entries v !! er_dn r = Some r -> er_structural_class r = OC_DOMAIN -> Q (Ok (Some (er_dn r))) v) ->
  ((forall k r, entries v !! k = Some r -> er_structural_class r <> OC_DOMAIN) -> Q (Ok None) v) ->
  vwp ldap_root_dn Q v.
Proof.
  intros H1 H2 s Hs. pose proof Hs as [Hk _]. unfold ldap_root_dn. apply wp_bind. unfold wp at 1, read_from, select_one. simpl.
  destruct (select _ _ _ _) as [l|e] eqn:E; simpl; [|left; exists e; split; [done|by rewrite (select_fails _ _ _ _ _ E)]].
  apply wp_ret. right. exists v. split; [done|].
  destruct (select_ok _ _ _ _ _ E) as (all & Hp & _ & ->); [by left|done|]. simpl. destruct all as [|[k r] all]; simpl.
  - apply H2. intros k r Hr Hc. pose proof (keyed_key er_dn _ _ _ _ Hk Hr) as Ek. rewrite <- Ek in Hr.
    apply (keyed_In er_dn _ _ _ Hk), in_map_iff in Hr as ([k' r'] & <- & Hin). apply Permutation_nil in Hp.
    assert (In (k', r') (List.filter (fun kr => structural_is OC_DOMAIN kr.2) (rows (entry s)))) as Hf.
    { apply filter_In. split; [done|]. by apply String.eqb_eq. }
    by rewrite Hp in Hf.
  - assert (In (k, r) (List.filter (fun kr => structural_is OC_DOMAIN kr.2) (rows (entry s)))) as [Hin Hc%String.eqb_eq]%filter_In.
    { apply (perm_In ((k, r) :: all)); [done|by left]. }
    apply H1; [|done]. apply (keyed_In er_dn _ _ _ Hk). by apply (in_map snd) in Hin.
Qed.

(** ** The operations on the view *)

Lemma vwp_set_has_children dn b (Q : DbResult unit -> view -> Prop) v :
  Q (Ok ()) (on_view (alter (with_flag b) (normalize_dn dn)) v) -> vwp (set_has_children dn b) Q v.
Proof. intros H. by apply vwp_update. Qed.

Lemma vwp_write_attributes now dn a (Q : DbResult unit -> view -> Prop) v :
  Q (Ok ()) (on_view (alter (with_attributes a (to_rfc3339 now)) (normalize_dn dn)) v) -> vwp (write_attributes now dn a) Q v.
Proof. intros H. by apply vwp_update. Qed.

Lemma vwp_parent_exists p (Q : DbResult bool -> view -> Prop) v :
  Q (Ok (is_some (entries v !! normalize_dn p))) v -> vwp (parent_exists p) Q v.
Proof. intros H. apply vwp_map, vwp_find_entry, H. Qed.

Lemma is_some_true {A} (o : option A) : is_some o = true <-> is_Some o.
Proof. destruct o; simpl; split; [by eexists|done..|]. by intros [? [=]]. Qed.

Definition inserted (rec : EntryRecord) (m : gmap string EntryRecord) : gmap string EntryRecord :=
  match er_parent_dn rec with
  | Some p => alter (with_flag true) p (<[er_dn rec := rec]> m)
  | None => <[er_dn rec := rec]> m
  end.

(** A row that can be entered into the tree. *)
Definition enterable (rec : EntryRecord) : Prop :=
  normalize_dn (er_dn rec) = er_dn rec /\ er_has_children rec = false /\
  forall p, er_parent_dn rec = Some p -> normalize_dn p = p /\ exists rdn, er_dn rec = rdn +:+ "," +:+ p.

Lemma insert_entry_spec now rec v : enterable rec ->
  vwp (insert_entry now rec)
    (fun r v' => match r with
                 | Ok e => e_dn e = er_dn rec /\ entries v !! er_dn rec = None /\
                           (forall p, er_parent_dn rec = Some p -> is_Some (entries v !! p)) /\ v' = on_view (inserted rec) v
                 | Err _ => v' = v
                 end) v.
Proof.
  intros (Hn & Hf & Hp). unfold insert_entry. apply vwp_bind, vwp_find_entry. rewrite Hn.
  destruct (entries v !! er_dn rec) as [x|] eqn:E; simpl; [by apply vwp_fail|].
  assert (forall (k : bool -> Db DirectoryEntry) Q,
    ((exists p, er_parent_dn rec = Some p /\ entries v !! p = None) -> vwp (k true) Q v) ->
    ((forall p, er_parent_dn rec = Some p -> is_Some (entries v !! p)) -> vwp (k false) Q v) ->
    vwp (mbind_ (match er_parent_dn rec with
                 | None => mret false
                 | Some parent => do! ok <- parent_exists parent; mret (negb ok)
                 end) k) Q v) as Hor.
  { intros k Q H1 H2. apply vwp_bind. destruct (er_parent_dn rec) as [p|]; [|apply vwp_ret; by apply H2].
    apply vwp_map, vwp_parent_exists. destruct (Hp p eq_refl) as [-> _].
    destruct (entries v !! p) as [y|] eqn:Ey; simpl; [apply H2|apply H1; by exists p]. intros p' [= <-]. by rewrite Ey. }
  apply Hor; [by intros _; apply vwp_fail|]. clear Hor. intros Hpar.
  apply vwp_bind, vwp_create; [|by apply vwp_fail]. intros k _. apply vwp_bind.
  unfold inserted. destruct (er_parent_dn rec) as [p|] eqn:Ep.
  - apply vwp_set_has_children. destruct (Hp p eq_refl) as [-> _]. by apply vwp_ret.
  - apply vwp_ret. by apply vwp_ret.
Qed.

Lemma tree_inserted rec m : enterable rec -> m !! er_dn rec = None ->
  (forall p, er_parent_dn rec = Some p -> is_Some (m !! p)) -> tree m -> tree (inserted rec m).
Proof.
  intros (Hn & Hf & Hp) Hnone Hpar Ht%tree_nodes. apply tree_nodes.
  assert (nodes (option_list (er_parent_dn rec) ++ []) (<[er_dn rec := rec]> m)) as Hi.
  { apply nodes_insert; try done. intros p Ep. split; [by apply Hpar|by apply Hp]. }
  unfold inserted. destruct (er_parent_dn rec) as [p|] eqn:Ep; [|done].
  apply nodes_flag; [done|]. intros _. split; [|done]. intros _. exists (er_dn rec), rec. by rewrite lookup_insert_eq.
Qed.

(** *** The loop over the groups *)

Definition normal_keys (m : gmap string EntryRecord) : Prop := forall k e, m !! k = Some e -> er_dn e = k /\ normalize_dn k = k.

Lemma tree_normal_keys m : tree m -> normal_keys m.
Proof. intros H k e He. destruct (H k e He). auto. Qed.

Definition edit (now : Z) (f : EntryRecord -> option string) (e : EntryRecord) : EntryRecord :=
  match f e with Some json => with_attributes json (to_rfc3339 now) e | None => e end.

Definition edit_group (now : Z) (f : EntryRecord -> option string) (e : EntryRecord) : EntryRecord :=
  if structural_is OC_GROUP e then edit now f e else e.

Lemma for_each_edit now f (l : list (string * EntryRecord)) : forall v, normal_keys (entries v) ->
  (forall kr, In kr l -> entries v !! er_dn kr.2 = Some kr.2) -> NoDup (map (fun kr => er_dn kr.2) l) ->
  vwp (for_each (fun kr => match f kr.2 with
                           | Some json => write_attributes now (er_dn kr.2) json
                           | None => mret ()
                           end) l)
    (fun r v' => r = Ok () /\ log v' = log v /\
       forall k, entries v' !! k = (if bool_decide (k ∈ map (fun kr => er_dn kr.2) l) then edit now f else id) <$> entries v !! k) v.
Proof.
  induction l as [|[k0 e0] l IH]; intros v Hk Hl Hd.
  - apply vwp_ret. split_and!; [done|done|]. intros k. simpl. by destruct (entries v !! k).
  - simpl in Hd. apply NoDup_cons in Hd as [Hnin Hd]. pose proof (Hl (k0, e0) (or_introl eq_refl)) as He0. simpl in He0.
    destruct (Hk _ _ He0) as [_ Hn0]. cbn [for_each]. apply vwp_bind.
    set (v1 := on_view (alter (edit now f) (er_dn e0)) v).
    assert (Hstep : vwp (match f e0 with Some json => write_attributes now (er_dn e0) json | None => mret () end)
              (fun r v' => r = Ok () /\ log v' = log v /\ entries v' = entries v1) v).
    { subst v1. unfold edit. destruct (f e0) as [json|] eqn:Ef.
      - apply vwp_write_attributes. split_and!; [done|done|]. rewrite Hn0. simpl. apply map_eq. intros i. rewrite !lookup_alter.
        destruct (decide (er_dn e0 = i)) as [<-|]; [|done]. rewrite He0. simpl. by rewrite Ef.
      - apply vwp_ret. split_and!; [done|done|]. simpl. apply map_eq. intros i. rewrite lookup_alter.
        destruct (decide (er_dn e0 = i)) as [<-|]; [|done]. rewrite He0. simpl. by rewrite Ef. }
    apply (vwp_mono _ _ _ _ Hstep). intros r v' (-> & Hlog & Hent).
    assert (forall k e, entries v' !! k = Some e -> exists e1, entries v !! k = Some e1 /\ er_dn e = er_dn e1) as Hback.
    { intros k e. rewrite Hent. unfold v1. simpl. rewrite lookup_alter. destruct (decide (er_dn e0 = k)) as [<-|]; [|eauto].
      rewrite He0. simpl. intros [= <-]. exists e0. split; [done|]. unfold edit. by destruct (f e0). }
    apply (vwp_mono _ _ _ _ (IH v' ltac:(intros k e (e1 & H1 & ->)%Hback; by apply Hk)
      ltac:(intros [k e] Hin; rewrite Hent; unfold v1; simpl; rewrite lookup_alter_ne;
            [by apply (Hl (k, e)); right
            |intros E; apply Hnin; rewrite E; apply list_elem_of_In, (in_map (fun kr => er_dn kr.2) _ _ Hin)]) Hd)).
    intros r v2 (-> & Hlog2 & Hall). split_and!; [done|congruence|]. intros k. rewrite Hall, Hent. unfold v1. simpl.
    rewrite lookup_alter. destruct (decide (er_dn e0 = k)) as [<-|Hne].
    + rewrite (bool_decide_false _ Hnin), (bool_decide_true (er_dn e0 ∈ _ :: _)) by (apply elem_of_cons; by left). rewrite He0. done.
    + by rewrite (bool_decide_ext (k ∈ er_dn e0 :: _) (k ∈ map (fun kr : string * EntryRecord => er_dn kr.2) l)) by (rewrite elem_of_cons; split; [by intros [->|?]|by right]).
Qed.

Lemma update_groups_spec now f v : normal_keys (entries v) ->
  vwp (update_groups now f) (fun r v' => r = Ok () /\ v' = on_view (fmap (edit_group now f)) v) v.
Proof.
  intros Hk. unfold update_groups. apply vwp_bind, vwp_select_entries. intros l Hl Hd _.
  assert (forall kr, In kr l -> entries v !! er_dn kr.2 = Some kr.2) as Hrows.
  { intros kr Hin. by apply (Hl kr.2), in_map. }
  apply (vwp_mono _ _ _ _ (for_each_edit now f l v Hk Hrows Hd)).
  intros r v' (-> & Hlog & Hall). split; [done|]. destruct v as [m lg], v' as [m' lg']. simpl in *. unfold on_view. simpl. f_equal; [|done].
  apply map_eq. intros k. rewrite Hall, lookup_fmap. destruct (m !! k) as [e|] eqn:E; [|done]. simpl. f_equal.
  destruct (Hk k e E) as [Hdn _]. unfold edit_group. destruct (structural_is OC_GROUP e) eqn:Es.
  - rewrite bool_decide_true; [done|]. assert (In e (map snd l)) as Hin by (apply Hl; by rewrite Hdn).
    apply in_map_iff in Hin as (kr & <- & Hin). rewrite <- Hdn. apply list_elem_of_In, (in_map (fun kr => er_dn kr.2) _ _ Hin).
  - rewrite bool_decide_false; [done|]. intros (kr & Ekr & Hin)%list_elem_of_fmap. apply list_elem_of_In, (in_map snd l kr), Hl in Hin as [Hs Hin].
    rewrite <- Ekr, E in Hin. injection Hin as ->. congruence.
Qed.

Lemma edit_group_shape now f e : shape (edit_group now f e) = shape e.
Proof. unfold edit_group, edit. destruct (structural_is OC_GROUP e), (f e); done. Qed.

Lemma edit_group_parent now f e : er_parent_dn (edit_group now f e) = er_parent_dn e.
Proof. unfold edit_group, edit. by destruct (structural_is OC_GROUP e), (f e). Qed.

Lemma tree_edit_groups now f m : tree m -> tree (edit_group now f <$> m).
Proof.
  apply tree_shape. intros k. rewrite lookup_fmap. destruct (m !! k); simpl; [|done]. by rewrite edit_group_shape.
Qed.

(** *** Deletion *)

Lemma vwp_recompute now p (Q : DbResult unit -> view -> Prop) v : normal_keys (entries v) -> normalize_dn p = p ->
  Q (Ok ()) (on_view (reflag p) v) -> vwp (recompute_children now p) Q v.
Proof.
  intros Hk Hp H. unfold recompute_children. apply vwp_bind. unfold list_children. apply vwp_map, vwp_select_entries.
  intros l Hl _ _. apply vwp_set_has_children. rewrite !Hp in *.
  assert (has_child (entries v) p = match map (fun kr => TreeNode_from (into_entry now kr)) l with [] => false | _ => true end) as <-; [|done].
  apply eq_true_iff_eq. rewrite has_child_iff. split.
  - intros (c & e & He & Hc). assert (In e (map snd l)) as Hin.
    { apply Hl. split; [by apply bool_decide_eq_true|]. by destruct (Hk c e He) as [-> _]. }
    by destruct l.
  - destruct l as [|[k e] l]; [done|]. intros _. destruct (proj1 (Hl e) (or_introl eq_refl)) as [Hc%bool_decide_eq_true He].
    by exists (er_dn e), e.
Qed.

Lemma node_parent_normal m k e p : tree m -> m !! k = Some e -> er_parent_dn e = Some p -> normalize_dn p = p.
Proof. intros Ht He Hp. destruct (node_parent _ _ _ (Ht k e He) p Hp) as [[x Hx] _]. by destruct (Ht p x Hx). Qed.

Lemma lookup_edit_groups now f (m : gmap string EntryRecord) k e : m !! k = Some e -> (edit_group now f <$> m) !! k = Some (edit_group now f e).
Proof. intros H. by rewrite lookup_fmap, H. Qed.

Lemma child_edit_groups now f m p c : child (edit_group now f <$> m) p c <-> child m p c.
Proof.
  split; apply child_shape; intros k; rewrite lookup_fmap; (destruct (m !! k); simpl; [|done]); by rewrite edit_group_shape.
Qed.

(** The directory after the deletion of [k], whose entry was [e]. *)
Definition deleted (now : Z) (k : string) (e : EntryRecord) (v : view) : view :=
  mkView (reflag_opt (er_parent_dn e) (delete k (edit_group now (strip_member k) <$> entries v)))
    (mkLdapChangeRecord k (to_rfc3339 now) :: log v).

Lemma tree_deleted now k e v : tree (entries v) -> entries v !! k = Some e -> (forall c, ~ child (entries v) k c) ->
  tree (entries (deleted now k e v)).
Proof.
  intros Ht He Hc. apply tree_nodes. simpl. apply nodes_reflag_opt.
  rewrite <- (edit_group_parent now (strip_member k) e). apply nodes_delete.
  - by apply tree_nodes, tree_edit_groups.
  - by apply lookup_edit_groups.
  - intros c. by rewrite child_edit_groups.
Qed.

Lemma delete_entry_spec now dn v : tree (entries v) ->
  vwp (delete_entry now dn)
    (fun r v' => let k := normalize_dn dn in
       match r with
       | Ok _ => exists e, entries v !! k = Some e /\ (forall c, ~ child (entries v) k c) /\ v' = deleted now k e v
       | Err e => v' = v /\ (e = NotFound /\ entries v !! k = None \/
                             e = Constraint MSG_OU_GUARD /\ exists c, child (entries v) k c)
       end) v.
Proof.
  intros Ht. unfold delete_entry. apply vwp_bind, vwp_find_entry. set (k := normalize_dn dn).
  destruct (entries v !! k) as [e|] eqn:E; [|apply vwp_fail; auto]. pose proof (Ht k e E) as Hn.
  destruct (er_has_children e) eqn:Ef; [apply vwp_fail; split; [done|right; split; [done|by apply Hn]]|].
  assert (forall c, ~ child (entries v) k c) as Hc.
  { intros c Hc. assert (er_has_children e = true) by (apply Hn; eauto). congruence. }
  apply vwp_bind. eapply vwp_mono; [by apply update_groups_spec, tree_normal_keys|]. intros r v1 (-> & ->).
  apply vwp_bind, vwp_delete, vwp_bind, vwp_log. unfold deleted. simpl.
  destruct (er_parent_dn e) as [p|] eqn:Ep.
  - apply vwp_recompute; [|by eapply node_parent_normal|exists e; split_and!; [done|done|by rewrite Ep]].
    intros k' e' He'. simpl in He'. apply lookup_delete_Some in He' as [_ He'].
    by apply (tree_normal_keys _ (tree_edit_groups now (strip_member k) _ Ht)).
  - apply vwp_ret. exists e. split_and!; [done|done|by rewrite Ep].
Qed.

(** *** Renaming *)

Definition new_parent_of (sup : option string) (e : EntryRecord) : option string :=
  match sup with Some s => Some (normalize_dn s) | None => er_parent_dn e end.
Definition new_dn_of (new_rdn : string) (sup : option string) (e : EntryRecord) : string :=
  match new_parent_of sup e with Some p => normalize_dn new_rdn +:+ "," +:+ p | None => normalize_dn new_rdn end.

(** The row of a renamed entry, and the directory around it. *)
Definition renamed_row (now : Z) (new_rdn : string) (del : bool) (sup : option string) (e : EntryRecord) : EntryRecord :=
  with_place (new_dn_of new_rdn sup e) (normalize_dn new_rdn) (new_parent_of sup e)
    (unwrap_or "{}" (to_string (renamed_attributes del (er_rdn e) (normalize_dn new_rdn) (attributes_map e)))) (to_rfc3339 now) e.

Definition renamed (now : Z) (k new_rdn : string) (del : bool) (sup : option string) (e : EntryRecord) (v : view) : view :=
  let e' := renamed_row now new_rdn del sup e in
  mkView (reparented (er_parent_dn e) (er_parent_dn e')
            (moved k (er_dn e') e' (edit_group now (rename_member k (er_dn e')) <$> entries v)))
    (mkLdapChangeRecord k (to_rfc3339 now) :: log v).

(** Where an entry can be moved: a free name under an entry other than itself. *)
Definition movable (m : gmap string EntryRecord) (k : string) (e : EntryRecord) (e' : EntryRecord) : Prop :=
  (er_dn e' <> k -> m !! er_dn e' = None) /\
  forall p, er_parent_dn e' = Some p -> p <> k /\ is_Some (m !! p).

Lemma new_dn_normal m k e new_rdn sup : tree m -> m !! k = Some e ->
  normalize_dn (new_dn_of new_rdn sup e) = new_dn_of new_rdn sup e /\
  forall p, new_parent_of sup e = Some p -> normalize_dn p = p /\ exists rdn, new_dn_of new_rdn sup e = rdn +:+ "," +:+ p.
Proof.
  intros Ht He. assert (forall p, new_parent_of sup e = Some p -> normalize_dn p = p) as Hp.
  { intros p. unfold new_parent_of. destruct sup as [s|]; [intros [= <-]; apply normalize_dn_idem|by eapply node_parent_normal]. }
  unfold new_dn_of. destruct (new_parent_of sup e) as [p|]; [|split; [apply normalize_dn_idem|done]].
  split; [apply normalize_join; [apply normalize_dn_idem|by apply Hp]|]. intros p' [= <-]. split; [by apply Hp|eauto].
Qed.

Lemma tree_renamed now k new_rdn del sup e v :
  tree (entries v) -> entries v !! k = Some e -> (forall c, ~ child (entries v) k c) ->
  movable (entries v) k e (renamed_row now new_rdn del sup e) -> tree (entries (renamed now k new_rdn del sup e v)).
Proof.
  intros Ht He Hc [Hm1 Hm2]. set (e' := renamed_row now new_rdn del sup e) in *.
  destruct (new_dn_normal _ _ _ new_rdn sup Ht He) as [Hn Hp].
  set (g := edit_group now (rename_member k (er_dn e'))).
  change (tree (reparented (er_parent_dn e) (er_parent_dn e') (moved k (er_dn e') e' (g <$> entries v)))).
  assert (forall x, is_Some ((g <$> entries v) !! x) <-> is_Some (entries v !! x)) as His.
  { intros x. rewrite lookup_fmap. by rewrite fmap_is_Some. }
  rewrite <- (edit_group_parent now (rename_member k (er_dn e')) e : er_parent_dn (g e) = _). apply tree_moved.
  - by apply tree_edit_groups.
  - by apply lookup_edit_groups.
  - intros c. unfold g. by rewrite child_edit_groups.
  - intros Hne. apply eq_None_not_Some. rewrite His. rewrite (Hm1 Hne). by intros [? ?].
  - done.
  - exact Hn.
  - simpl. destruct (er_has_children e) eqn:E; [|done]. apply (Ht k e He) in E as [c Hcc]. by destruct (Hc c).
  - intros p Ep. destruct (Hm2 p Ep), (Hp p Ep). split_and!; [done|by apply His|done].
Qed.

Lemma with_place_edit now f e dn rdn p a t : with_place dn rdn p a t (edit_group now f e) = with_place dn rdn p a t e.
Proof. unfold edit_group, edit. by destruct (structural_is OC_GROUP e), (f e). Qed.

(** The guards of a move. *)
Lemma vwp_taken k k' (Q : DbResult bool -> view -> Prop) v : normalize_dn k' = k' ->
  (forall b, (b = false -> k' <> k -> entries v !! k' = None) -> Q (Ok b) v) ->
  vwp (if String.eqb k' k then mret false else do! found <- find_entry k'; mret (is_some found)) Q v.
Proof.
  intros Hn HQ. destruct (String.eqb_spec k' k) as [->|Hne]; [by apply vwp_ret, HQ|]. apply vwp_map, vwp_find_entry. rewrite Hn.
  apply HQ. by destruct (entries v !! k').
Qed.

Lemma vwp_orphan old new (Q : DbResult bool -> view -> Prop) v : (forall p, new = Some p -> normalize_dn p = p) ->
  (forall p, old = Some p -> is_Some (entries v !! p)) ->
  (forall b, (b = false -> forall p, new = Some p -> is_Some (entries v !! p)) -> Q (Ok b) v) ->
  vwp (match new with
       | None => mret false
       | Some parent => if bool_decide (old = Some parent) then mret false else do! ok <- parent_exists parent; mret (negb ok)
       end) Q v.
Proof.
  intros Hn Hold HQ. destruct new as [p|]; [|by apply vwp_ret, HQ]. case_bool_decide as E.
  - apply vwp_ret, HQ. intros _ p' [= <-]. auto.
  - apply vwp_map, vwp_parent_exists. rewrite (Hn p eq_refl). apply HQ. intros Hb p' [= <-].
    apply is_some_true. by apply negb_false_iff.
Qed.

Lemma vwp_reparent now old new (Q : DbResult unit -> view -> Prop) v : normal_keys (entries v) ->
  (forall p, old = Some p -> normalize_dn p = p) -> (forall p, new = Some p -> normalize_dn p = p) ->
  Q (Ok ()) (on_view (reparented old new) v) ->
  vwp (if bool_decide (old = new) then mret ()
       else do! _ <- match old with Some parent => recompute_children now parent | None => mret () end;
            match new with Some parent => set_has_children parent true | None => mret () end) Q v.
Proof.
  intros Hk Ho Hn HQ. unfold reparented in HQ. destruct (decide (old = new)) as [E|E].
  - rewrite bool_decide_true by done. apply vwp_ret. by destruct v.
  - rewrite bool_decide_false by done. apply vwp_bind.
    assert (vwp (match old with Some parent => recompute_children now parent | None => mret () end)
              (fun r v' => r = Ok () /\ v' = on_view (reflag_opt old) v) v) as Hr.
    { destruct old as [p|]; [by apply vwp_recompute; auto|]. apply vwp_ret. by destruct v. }
    apply (vwp_mono _ _ _ _ Hr). intros r v' (-> & ->). destruct new as [p|]; [|by apply vwp_ret].
    apply vwp_set_has_children. by rewrite (Hn p eq_refl).
Qed.

Lemma normal_keys_moved k k' e' m : normal_keys m -> er_dn e' = k' -> normalize_dn k' = k' -> normal_keys (moved k k' e' m).
Proof.
  intros Hm Hd Hn x y. unfold moved. destruct (decide (k' = x)) as [<-|Hne].
  - rewrite lookup_insert_eq. by intros [= <-].
  - rewrite lookup_insert_ne by done. intros [_ H]%lookup_delete_Some. by apply Hm.
Qed.

Lemma rename_entry_spec now dn new_rdn del sup v : tree (entries v) ->
  (forall s, sup = Some s -> normalize_dn s <> normalize_dn dn) ->
  vwp (rename_entry now dn new_rdn del sup)
    (fun r v' => match r with
                 | Ok d => exists e, entries v !! normalize_dn dn = Some e /\ (forall c, ~ child (entries v) (normalize_dn dn) c) /\
                             movable (entries v) (normalize_dn dn) e (renamed_row now new_rdn del sup e) /\
                             e_dn d = new_dn_of new_rdn sup e /\ v' = renamed now (normalize_dn dn) new_rdn del sup e v
                 | Err _ => v' = v
                 end) v.
Proof.
  intros Ht Hsup. unfold rename_entry. apply vwp_bind, vwp_find_row; [|by intros _; apply vwp_fail].
  intros key e He. set (k := normalize_dn dn) in *. pose proof (Ht k e He) as Hn.
  destruct (er_has_children e) eqn:Ef; [by apply vwp_fail|].
  assert (forall c, ~ child (entries v) k c) as Hc.
  { intros c Hc. assert (er_has_children e = true) by (apply Hn; eauto). congruence. }
  fold (new_parent_of sup e). fold (new_dn_of new_rdn sup e).
  destruct (new_dn_normal _ _ _ new_rdn sup Ht He) as [Hnn Hnp]. set (k' := new_dn_of new_rdn sup e) in *.
  assert (forall p, new_parent_of sup e = Some p -> normalize_dn p = p) as Hnp' by (intros p Ep; by destruct (Hnp p Ep)).
  assert (forall p, new_parent_of sup e = Some p -> p <> k) as Hpk.
  { intros p. unfold new_parent_of. destruct sup as [s|]; [intros [= <-]; by apply Hsup|]. intros Ep. by eapply tree_parent_ne. }
  apply vwp_bind, vwp_taken; [done|]. intros taken Hfree. destruct taken; [by apply vwp_fail|]. specialize (Hfree eq_refl).
  apply vwp_bind, vwp_orphan; [done|intros p Ep; by destruct (node_parent _ _ _ Hn p Ep)|].
  intros orphan Hpar. destruct orphan; [by apply vwp_fail|]. specialize (Hpar eq_refl).
  apply vwp_bind. eapply vwp_mono; [by apply update_groups_spec, tree_normal_keys|]. intros r v1 (-> & ->).
  apply vwp_bind. eapply (vwp_update_place k k'); [by apply lookup_edit_groups| |done|].
  { intros Hne. simpl. by rewrite lookup_fmap, Hfree. }
  intros l. apply vwp_bind, vwp_log, vwp_bind. rewrite with_place_edit. apply vwp_reparent; [|intros p; by eapply node_parent_normal|done|].
  - apply normal_keys_moved; [by apply tree_normal_keys, tree_edit_groups|done|done].
  - apply vwp_ret. exists e. split_and!; [done|done| |done|done]. split; [done|]. intros p Ep. auto.
Qed.

(** ** Names with a normal parent *)

(** No white space follows a comma. *)
Fixpoint plain (s : string) : bool :=
  match s with
  | EmptyString => true
  | String c s' => (negb (Ascii.eqb c ",") || negb (is_some (strip_one white_space s'))) && plain s'
  end.

Lemma plain_cons c s : plain (String c s) = (negb (Ascii.eqb c ",") || negb (is_some (strip_one white_space s))) && plain s.
Proof. done. Qed.

Lemma plain_app a b : plain (a +:+ b) = true -> plain b = true.
Proof.
  induction a as [|c a IH]; [done|]. change (String c a +:+ b) with (String c (a +:+ b)). rewrite plain_cons.
  intros [_ H]%andb_true_iff. by apply IH.
Qed.

Lemma plain_comma a b : plain (a +:+ String "," b) = true -> strip_one white_space b = None /\ plain b = true.
Proof.
  intros H%plain_app. rewrite plain_cons in H. apply andb_true_iff in H as [H1 H2]. split; [|done].
  by destruct (strip_one white_space b).
Qed.

Lemma plain_prefix a b : plain (a +:+ b) = true -> plain a = true.
Proof.
  induction a as [|c a IH]; [done|]. change (String c a +:+ b) with (String c (a +:+ b)). rewrite !plain_cons.
  intros [H1 H2]%andb_true_iff. apply andb_true_iff. split; [|by apply IH].
  destruct (Ascii.eqb c ","); [|done]. destruct (strip_one white_space a) eqn:E; [|done].
  assert (strip_one white_space (a +:+ b) = None) as Hn by (by destruct (strip_one white_space (a +:+ b))).
  apply strip_one_prefix in Hn. congruence.
Qed.

Lemma plain_lower s : plain (to_ascii_lowercase s) = plain s.
Proof.
  induction s as [|c s IH]; [done|].
  change (to_ascii_lowercase (String c s)) with (String (ascii_lower c) (to_ascii_lowercase s)).
  rewrite !plain_cons, ascii_lower_fixed, strip_one_lower, IH by done. by destruct (strip_one white_space s).
Qed.

Lemma plain_trim_start s : plain s = true -> plain (trim_start s) = true.
Proof.
  induction s as [s Hs|u r Hu IH] using trim_start_ind; [by rewrite trim_start_None|].
  rewrite trim_start_white by done. intros H%plain_app. auto.
Qed.

Lemma plain_normalize s : plain s = true -> plain (normalize_dn s) = true.
Proof.
  intros H. unfold normalize_dn. rewrite plain_lower. unfold trim. destruct (trim_end_split (trim_start s)) as (w & E & _).
  apply (plain_prefix _ w). unfold "+:+" in *. rewrite <- E. by apply plain_trim_start.
Qed.

Lemma normalize_cons a b : strip_one white_space a = None -> strip_one white_space b = None ->
  normalize_dn (a +:+ "," +:+ b) = to_ascii_lowercase a +:+ "," +:+ normalize_dn b.
Proof.
  intros Ha Hb. unfold normalize_dn, trim. change ("," +:+ b) with (String "," b).
  rewrite (trim_start_None (a +:+ _)), (trim_start_None b) by (try done; by apply strip_one_comma).
  by rewrite trim_end_comma, to_ascii_lowercase_app.
Qed.

Lemma normal_clean b : normalize_dn b = b -> strip_one white_space b = None.
Proof. intros [E _]%normalize_fixed. rewrite <- E. apply trim_clean. Qed.

Lemma contains_lower c s : is_ascii_alphabetic c = false -> contains_char c (to_ascii_lowercase s) = contains_char c s.
Proof.
  intros Hc. unfold contains_char. induction s as [|a s IH]; [done|]. cbn. rewrite (Ascii.eqb_sym c), ascii_lower_fixed, Ascii.eqb_sym by done.
  f_equal. exact IH.
Qed.

Lemma parent_of_cons a b : contains_char "," a = false -> parent_of (a +:+ "," +:+ b) = Some b.
Proof. intros H. unfold parent_of. change ("," +:+ b) with (String "," b). by rewrite split_once_app. Qed.

(** The parent of the name is normal. *)
Definition good_name (dn : string) : Prop := forall p, parent_of (normalize_dn dn) = Some p -> normalize_dn p = p.

Lemma good_name_cons a b : strip_one white_space a = None -> contains_char "," a = false -> strip_one white_space b = None ->
  good_name (a +:+ "," +:+ b).
Proof.
  intros Ha Hc Hb p. rewrite normalize_cons by done. rewrite parent_of_cons by (by rewrite contains_lower).
  intros [= <-]. apply normalize_dn_idem.
Qed.

Lemma parent_of_Some dn p : parent_of dn = Some p -> exists rdn, dn = rdn +:+ "," +:+ p.
Proof. intros ([l r] & E & ->)%fmap_Some. apply split_once_Some in E as [-> _]. by exists l. Qed.

Lemma plain_parent dn p : normalize_dn dn = dn -> plain dn = true -> parent_of dn = Some p ->
  normalize_dn p = p /\ plain p = true.
Proof.
  intros Hn Hpl [rdn ->]%parent_of_Some. change ("," +:+ p) with (String "," p) in *.
  destruct (plain_comma _ _ Hpl) as [Hs Hpp]. split; [|done]. apply normalize_fixed in Hn as [Ht Hl].
  destruct (trim_clean (rdn +:+ String "," p)) as [_ He]. rewrite Ht, trim_end_comma in He.
  rewrite to_ascii_lowercase_app in Hl. apply normalize_fixed.
  assert (forall a (x y : string), a +:+ String "," x = a +:+ String "," y -> x = y) as Hinj.
  { intros a x y. induction a as [|c a IH]; cbn; intros E; injection E; auto. }
  assert (forall a a' (x y : string), String.length a = String.length a' -> a +:+ x = a' +:+ y -> x = y) as Hinj'.
  { intros a. induction a as [|c a IH]; intros [|c' a'] x y; cbn; intros El E; try done. injection E. injection El. eauto. }
  split; [apply trim_fixed; [done|by apply Hinj in He]|].
  apply Hinj' in Hl; [by injection Hl|apply to_ascii_lowercase_length].
Qed.

Lemma good_name_plain dn : plain dn = true -> good_name dn.
Proof. intros H p Hp. by eapply (plain_parent (normalize_dn dn)); [apply normalize_dn_idem|apply plain_normalize|]. Qed.

(** ** The operations keep the tree *)

Definition keeps {A} (m : Db A) : Prop := forall v, tree (entries v) -> vwp m (fun _ v' => tree (entries v')) v.

Lemma keeps_tree_ret {A} (a : A) : keeps (mret a).
Proof. intros v H. by apply vwp_ret. Qed.

Lemma keeps_tree_fail {A} e : keeps (@mfail store A e).
Proof. intros v H. by apply vwp_fail. Qed.

(** With what is known of the result. *)
Lemma keeps_bind_with {A B} (P : A -> Prop) (m : Db A) (k : A -> Db B) :
  (forall v, tree (entries v) -> vwp m (fun r v' => tree (entries v') /\ match r with Ok a => P a | Err _ => True end) v) ->
  (forall a, P a -> keeps (k a)) -> keeps (mbind_ m k).
Proof.
  intros Hm Hk v Hv. apply vwp_bind, (vwp_mono _ _ _ _ (Hm v Hv)). intros [a|e] v' [Ht Ha]; [|done]. by apply Hk.
Qed.

Lemma keeps_tree_bind {A B} (m : Db A) (k : A -> Db B) : keeps m -> (forall a, keeps (k a)) -> keeps (mbind_ m k).
Proof.
  intros Hm Hk. apply (keeps_bind_with (fun _ => True)); [|auto]. intros v Hv. apply (vwp_mono _ _ _ _ (Hm v Hv)).
  by intros [a|e] v' Ht.
Qed.

Lemma keeps_find dn : keeps (find_entry dn).
Proof. intros v H. by apply vwp_find_entry. Qed.

Lemma keeps_update k f : (forall e, shape (f e) = shape e) -> keeps (do! _ <- on_entries (update_where (at_dn k) f); mret ()).
Proof.
  intros Hf v H. apply vwp_update; [|by apply tree_alter]. intros r. specialize (Hf r). unfold shape in Hf. congruence.
Qed.

Lemma keeps_write_attributes now dn a : keeps (write_attributes now dn a).
Proof. by apply keeps_update. Qed.

Lemma keeps_for_each {A} (f : A -> Db unit) l : (forall x, In x l -> keeps (f x)) -> keeps (for_each f l).
Proof.
  induction l as [|x l IH]; intros H; [apply keeps_tree_ret|]. apply keeps_tree_bind; [by apply H; left|]. intros _. apply IH.
  intros y Hy. apply H. by right.
Qed.

Lemma keeps_insert now rec : enterable rec -> keeps (insert_entry now rec).
Proof.
  intros Hr v Hv. eapply vwp_mono; [by apply insert_entry_spec|]. intros [e|e] v'.
  - intros (_ & Hn & Hp & ->). by apply tree_inserted.
  - by intros ->.
Qed.

Lemma enterable_new now actor dn classes structural a : good_name dn ->
  enterable (new_row now actor (normalize_dn dn) (first_component (normalize_dn dn)) (parent_of (normalize_dn dn)) classes structural a).
Proof.
  intros Hg. split_and!; [apply normalize_dn_idem|done|]. intros p Hp. split; [by apply Hg|by apply parent_of_Some].
Qed.

Lemma enterable_form now actor rdn0 rdn parent classes structural a :
  enterable (new_row now actor (normalize_dn (build_dn rdn parent)) rdn0 (Some (normalize_dn parent)) classes structural a).
Proof.
  split_and!; [apply normalize_dn_idem|done|]. simpl. intros p [= <-]. split; [apply normalize_dn_idem|].
  exists (normalize_dn rdn). apply normalize_build.
Qed.

Create HintDb ldap_keeps.
#[local] Hint Resolve keeps_tree_ret keeps_tree_fail keeps_find keeps_write_attributes : ldap_keeps.
#[local] Hint Extern 2 (keeps (mbind_ (on_entries (update_where _ _)) _)) => (apply keeps_update; done) : ldap_keeps.
#[local] Hint Extern 3 (keeps (mbind_ _ _)) => (apply keeps_tree_bind; [|intros ?]) : ldap_keeps.
#[local] Hint Extern 2 (keeps (if ?b then _ else _)) => destruct b : ldap_keeps.
#[local] Hint Extern 2 (keeps (match ?o with None => _ | Some _ => _ end)) => destruct o : ldap_keeps.

Ltac keep := repeat progress (eauto 20 with ldap_keeps).

Lemma keeps_reset_password now salt dn pw : keeps (reset_password now salt dn pw).
Proof.
  unfold reset_password. apply keeps_tree_bind; [apply keeps_find|]. intros [r|]; [|apply keeps_tree_fail].
  apply keeps_tree_bind; [|intros h; by apply keeps_update]. intros v Hv s Hs. unfold wp, hash_password. simpl.
  destruct (argon2 salt pw); [left; by eexists|right; by exists v].
Qed.
#[local] Hint Resolve keeps_reset_password : ldap_keeps.

Lemma keeps_set_user_enabled now dn b : keeps (set_user_enabled now dn b).
Proof. unfold set_user_enabled. keep. Qed.

Lemma keeps_modify now salt dn changes : keeps (modify_entry now salt dn changes).
Proof. unfold modify_entry. apply keeps_tree_bind; [keep|]. intros [r|]; [|keep]. destruct (fold_left _ _ _) as [m pw]. keep. Qed.
#[local] Hint Resolve keeps_modify : ldap_keeps.

Lemma keeps_create now salt dn classes a actor : good_name dn -> keeps (create_entry now salt dn classes a actor).
Proof.
  intros Hg. unfold create_entry. destruct (match find_key _ _ with None => _ | Some _ => _ end) as [m pw].
  apply keeps_tree_bind; [by apply keeps_insert, enterable_new|]. intros e. keep.
Qed.

Lemma keeps_create_user now parent uid cn sn mail actor : keeps (create_user now parent uid cn sn mail actor).
Proof. apply keeps_tree_bind; [apply keeps_insert, enterable_form|keep]. Qed.
Lemma keeps_create_group now parent cn d actor : keeps (create_group now parent cn d actor).
Proof. apply keeps_tree_bind; [apply keeps_insert, enterable_form|keep]. Qed.
Lemma keeps_create_ou now parent ou d actor : keeps (create_ou now parent ou d actor).
Proof. apply keeps_tree_bind; [apply keeps_insert, enterable_form|keep]. Qed.

Lemma keeps_add_member now g m : keeps (add_member now g m).
Proof. unfold add_member. keep. Qed.
Lemma keeps_remove_member now g m : keeps (remove_member now g m).
Proof. unfold remove_member. keep. Qed.

Lemma keeps_delete now dn : keeps (delete_entry now dn).
Proof.
  intros v Hv. eapply vwp_mono; [by apply delete_entry_spec|]. intros [u|e] v'; simpl.
  - intros (e & He & Hc & ->). by apply tree_deleted.
  - by intros (-> & _).
Qed.

Lemma keeps_rename now dn rdn del sup : (forall s, sup = Some s -> normalize_dn s <> normalize_dn dn) ->
  keeps (rename_entry now dn rdn del sup).
Proof.
  intros Hs v Hv. eapply vwp_mono; [by apply rename_entry_spec|]. intros [d|e] v'.
  - intros (e & He & Hc & Hm & _ & ->). by apply tree_renamed.
  - by intros ->.
Qed.

(** *** Seeding and projection *)

Lemma ensure_base_spec now base actor v : tree (entries v) ->
  vwp (ensure_ldap_base now base actor)
    (fun r v' => tree (entries v') /\ match r with Ok b => normalize_dn b = b | Err _ => True end) v.
Proof.
  intros Ht. unfold ensure_ldap_base. apply vwp_bind, vwp_root.
  - intros r Hr _. apply vwp_ret. split; [done|]. by destruct (Ht _ _ Hr).
  - intros _. apply vwp_bind, vwp_create_row. simpl. intros Hn. apply vwp_ret. split; [|apply normalize_dn_idem]. simpl.
    apply tree_nodes, (nodes_insert [] (entries v)); try done; [by apply tree_nodes|apply normalize_dn_idem].
Qed.

Lemma keeps_with_base {B} now base actor (k : string -> Db B) :
  (forall b, normalize_dn b = b -> strip_one white_space b = None -> keeps (k b)) -> keeps (mbind_ (ensure_ldap_base now base actor) k).
Proof.
  intros H. apply (keeps_bind_with (fun b => normalize_dn b = b)); [intros v Hv; by apply ensure_base_spec|].
  intros b Hb. apply H; [done|by apply normal_clean].
Qed.

Lemma keeps_container now dn structural actor : good_name dn -> keeps (ensure_container now dn structural actor).
Proof.
  intros Hg. unfold ensure_container. apply keeps_tree_bind; [keep|]. intros [r|]; simpl; [keep|].
  apply keeps_tree_bind; [by apply keeps_insert, enterable_new|keep].
Qed.

Lemma keeps_object now dn structural attrs actor : good_name dn -> keeps (ensure_object now dn structural attrs actor).
Proof.
  intros Hg. unfold ensure_object. apply keeps_tree_bind; [keep|]. intros [r|]; simpl; [keep|].
  apply keeps_tree_bind; [by apply keeps_insert, enterable_new|keep].
Qed.

(** A name that starts with a letter, over a name that does not start with white space. *)
Lemma graphic_clean c s : is_graphic c = true -> strip_one white_space (String c s) = None.
Proof. apply strip_one_graphic. Qed.

Lemma good_name_under c a b : is_graphic c = true -> contains_char "," (String c a) = false -> strip_one white_space b = None ->
  good_name (String c a +:+ "," +:+ b).
Proof. intros Hg Hc Hb. apply good_name_cons; [by apply graphic_clean|done|done]. Qed.

Lemma keeps_seed_containers now base actor : keeps (seed_domain_containers now base actor).
Proof.
  apply keeps_with_base. intros b _ Hb. apply keeps_tree_bind.
  - apply keeps_for_each. intros cn Hcn. apply keeps_container.
    change ("CN=" +:+ cn +:+ "," +:+ b) with (("CN=" +:+ cn) +:+ "," +:+ b).
    destruct Hcn as [<-|[<-|[<-|[]]]]; by apply good_name_under.
  - intros _. apply keeps_container. by apply (good_name_under "O" "U=Domain Controllers").
Qed.

(** The flat name of a domain has no comma: it is part of a piece between commas. *)
Lemma split_no_comma s x : In x (split "," s) -> contains_char "," x = false.
Proof.
  revert x. induction s as [|c s IH]; intros x; [by intros [<-|[]]|]. cbn [split].
  destruct (Ascii.eqb_spec c ",") as [->|Hc]; [intros [<-|H]; [done|by apply IH]|].
  destruct (split "," s) as [|w ws] eqn:E; intros [<-|H]; try done; [| |by apply IH; right].
  - unfold contains_char. cbn [str_existsb]. destruct (Ascii.eqb_spec "," c); [congruence|done].
  - unfold contains_char in *. cbn [str_existsb]. destruct (Ascii.eqb_spec "," c); [congruence|]. by apply IH; left.
Qed.

Lemma contains_strip_prefix p s r c : strip_prefix p s = Some r -> contains_char c s = false -> contains_char c r = false.
Proof. intros ->%strip_prefix_Some. rewrite contains_app. by intros [_ H]%orb_false_iff. Qed.

Lemma contains_trim c s : contains_char c s = false -> contains_char c (trim s) = false.
Proof.
  intros H. unfold trim. destruct (trim_end_split (trim_start s)) as (w & E & _).
  assert (contains_char c (trim_start s) = false) as Hs.
  { revert H. clear. induction s as [s Hs|u r Hu IH] using trim_start_ind; [by rewrite trim_start_None|].
    rewrite trim_start_white, contains_app by done. intros [_ H]%orb_false_iff. auto. }
  unfold "+:+" in *. rewrite E in Hs. pose proof (contains_app c (trim_end (trim_start s)) w) as Ha. unfold "+:+" in Ha.
  rewrite Ha in Hs. by apply orb_false_iff in Hs as [Hs _].
Qed.

Lemma dc_labels_no_comma base l : In l (dc_labels base) -> contains_char "," l = false.
Proof.
  unfold dc_labels. intros (c & Hc & E)%list_elem_of_In%list_elem_of_omap. apply list_elem_of_In in Hc.
  apply split_no_comma, contains_trim in Hc. cbv beta zeta in E.
  destruct (strip_prefix "dc=" (trim c)) as [x|] eqn:Ex; [injection E as <-|]; by eapply contains_strip_prefix.
Qed.

Lemma upper_no_comma s : contains_char "," s = false -> contains_char "," (to_ascii_uppercase s) = false.
Proof.
  unfold contains_char, to_ascii_uppercase. induction s as [|c s IH]; [done|]. cbn [str_existsb str_map].
  intros [H1 H2]%orb_false_iff. rewrite IH by done. rewrite orb_false_r.
  unfold ascii_upper. destruct (is_ascii_lower c) eqn:E; [|done]. apply Ascii.eqb_neq. intros Hc%(f_equal N_of_ascii).
  unfold is_ascii_lower, in_codes in E. apply andb_true_iff in E as [E1%Z.leb_le E2%Z.leb_le].
  rewrite N_ascii_embedding in Hc by lia. change (N_of_ascii ",") with 44%N in Hc. lia.
Qed.

Lemma take_chars_no_comma s : forall n, contains_char "," s = false -> contains_char "," (take_chars n s) = false.
Proof.
  unfold contains_char. induction s as [|c s IH]; intros n; [done|]. cbn [str_existsb]. intros [H1 H2]%orb_false_iff.
  cbn [take_chars]. destruct (in_codes 128 191 c); [cbn [str_existsb]; by rewrite H1, IH|].
  destruct n; [done|]. cbn [str_existsb]. by rewrite H1, IH.
Qed.

Lemma domain_netbios_no_comma base : contains_char "," (domain_netbios base) = false.
Proof.
  unfold domain_netbios. pose proof (dc_labels_no_comma base) as H. destruct (dc_labels base) as [|l ls]; [done|].
  apply take_chars_no_comma, upper_no_comma, H. by left.
Qed.

Lemma good_server netbios b : contains_char "," netbios = false ->
  good_name ("CN=" +:+ netbios +:+ "," +:+ servers_dn b) /\
  good_name ("CN=NTDS Settings,CN=" +:+ netbios +:+ "," +:+ servers_dn b).
Proof.
  intros Hn. split.
  - change ("CN=" +:+ netbios +:+ "," +:+ servers_dn b) with (String "C" ("N=" +:+ netbios) +:+ "," +:+ servers_dn b).
    apply good_name_under; [done|exact (eq_trans (contains_app "," "CN=" netbios) Hn)|done].
  - by apply (good_name_under "C" "N=NTDS Settings" ("CN=" +:+ netbios +:+ "," +:+ servers_dn b)).
Qed.

Lemma keeps_seed_fsmo now salt base netbios owners actor : contains_char "," netbios = false ->
  keeps (seed_fsmo_roles_owned now salt base netbios owners actor).
Proof.
  intros Hn. apply keeps_with_base. intros b _ Hb. destruct (good_server netbios b Hn) as [Hg1 Hg2].
  apply keeps_tree_bind; [by apply keeps_object, (good_name_under "C" "N=Configuration" b)|intros _].
  apply keeps_tree_bind; [by apply keeps_object, (good_name_under "C" "N=Sites" (config_dn b))|intros _].
  apply keeps_tree_bind; [by apply keeps_object, (good_name_under "C" "N=Default-First-Site-Name" ("CN=Sites," +:+ config_dn b))|intros _].
  apply keeps_tree_bind; [by apply keeps_object, (good_name_under "C" "N=Servers" ("CN=Default-First-Site-Name,CN=Sites," +:+ config_dn b))|intros _].
  apply keeps_tree_bind; [by apply keeps_object|intros _].
  apply keeps_tree_bind; [by apply keeps_object|intros _].
  apply keeps_tree_bind; [by apply keeps_object, (good_name_under "C" "N=Schema" (config_dn b))|intros _].
  apply keeps_tree_bind; [by apply keeps_object, (good_name_under "C" "N=Partitions" (config_dn b))|intros _].
  apply keeps_tree_bind; [|intros _].
  { destruct (is_empty (domain_netbios b)); [keep|]. apply keeps_object.
    change ("CN=" +:+ domain_netbios b +:+ "," +:+ partitions_dn b) with (String "C" ("N=" +:+ domain_netbios b) +:+ "," +:+ partitions_dn b).
    apply good_name_under; [done|exact (eq_trans (contains_app "," "CN=" (domain_netbios b)) (domain_netbios_no_comma b))|done]. }
  apply keeps_tree_bind; [by apply keeps_object, (good_name_under "C" "N=System" b)|intros _].
  apply keeps_tree_bind; [by apply keeps_object, (good_name_under "C" "N=RID Manager$" ("CN=System," +:+ b))|intros _].
  apply keeps_tree_bind; [by apply keeps_object, (good_name_under "C" "N=Infrastructure" b)|intros _].
  apply keeps_tree_bind; [|intros _].
  { apply keeps_for_each. intros [part o] Hin. cbn [fst snd]. apply keeps_tree_bind; [|intros _]; apply keeps_object.
    - destruct Hin as [[= <- <-]|[[= <- <-]|[]]]; [by apply (good_name_under "D" "C=DomainDnsZones" b)|by apply (good_name_under "D" "C=ForestDnsZones" b)].
    - by apply (good_name_under "C" "N=Infrastructure" ("DC=" +:+ part +:+ "," +:+ b)). }
  apply keeps_tree_bind; [keep|intros root]. destruct (is_some_and _ root); keep.
Qed.

Lemma keeps_seize now salt base netbios role : keeps (seize_fsmo_role now salt base netbios role).
Proof. apply keeps_with_base. intros b _ _. destruct (role_trigger role); keep. Qed.

Lemma keeps_computer now salt base sam host uac actor : contains_char "," sam = false ->
  keeps (ensure_computer_entry now salt base sam host uac actor).
Proof.
  intros Hs. apply keeps_with_base. intros b _ Hb. apply keeps_tree_bind; [keep|]. intros [r|]; simpl; [keep|].
  apply keeps_tree_bind; [|keep]. apply keeps_create. intros p. rewrite normalize_dn_idem.
  apply (good_name_under "c" ("n=" +:+ trim_end_matches "$" sam) b); [done| |done].
  refine (eq_trans (contains_app "," "cn=" (trim_end_matches "$" sam)) _). change (contains_char "," (trim_end_matches "$" sam) = false).
  revert Hs. unfold contains_char. induction sam as [|c s IH]; [done|]. cbn [str_existsb trim_end_matches].
  intros [H1 H2]%orb_false_iff. destruct (_ && _); [done|]. cbn [str_existsb]. by rewrite H1, IH.
Qed.

(** The fuel of the walk is enough: every step shortens the name. *)
Lemma missing_ancestors_fuel n : forall m o s, (forall p, o = Some p -> (String.length p < n)%nat /\ (String.length p < m)%nat) ->
  missing_ancestors n o s = missing_ancestors m o s.
Proof.
  induction n as [|n IH]; intros m [p|] s Ho; try by destruct m. { destruct (Ho p eq_refl). lia. }
  destruct (Ho p eq_refl) as [Hn Hm]. destruct m as [|m]; [lia|]. cbn [missing_ancestors]. destruct (is_empty p); [done|].
  unfold mbind_. destruct (find_entry p s) as [[found|e] s1]; [|done]. destruct (is_some found); [done|].
  rewrite (IH m); [done|]. intros q (x & [rdn ->]%parent_of_Some & ->)%fmap_Some.
  pose proof (normalize_dn_length x). rewrite !str_length_app in Hn, Hm. cbn [String.length] in Hn, Hm. lia.
Qed.

Lemma missing_ancestors_spec fuel : forall o v,
  (forall p, o = Some p -> normalize_dn p = p /\ plain p = true) ->
  vwp (missing_ancestors fuel o)
    (fun r v' => v' = v /\ match r with Ok l => Forall (fun p => plain p = true) l | Err _ => True end) v.
Proof.
  induction fuel as [|fuel IH]; intros o v Ho; [apply vwp_ret; by split|]. cbn [missing_ancestors].
  destruct o as [p|]; [|apply vwp_ret; by split]. destruct (is_empty p); [apply vwp_ret; by split|].
  destruct (Ho p eq_refl) as [Hn Hp]. apply vwp_bind, vwp_find_entry. destruct (entries v !! normalize_dn p); simpl; [apply vwp_ret; by split|].
  apply vwp_bind. eapply vwp_mono; [apply IH|].
  - intros q (x & Hx & ->)%fmap_Some. destruct (plain_parent p x Hn Hp Hx). split; [apply normalize_dn_idem|by apply plain_normalize].
  - intros [l|e] v' (-> & Hl); [|done]. apply vwp_ret. split; [done|]. by constructor.
Qed.

Lemma keeps_ancestors now dn actor : plain dn = true -> keeps (ensure_ancestors now dn actor).
Proof.
  intros Hp. unfold ensure_ancestors. apply (keeps_bind_with (Forall (fun p => plain p = true))).
  - intros v Hv. eapply vwp_mono; [apply missing_ancestors_spec|].
    + intros p (x & [rdn ->]%parent_of_Some & ->)%fmap_Some. split; [apply normalize_dn_idem|].
      apply plain_normalize. by apply plain_comma in Hp as [_ Hp].
    + by intros r v' (-> & Hr).
  - intros l Hl. apply keeps_for_each. intros x Hx. apply keeps_container, good_name_plain.
    rewrite Forall_forall in Hl. apply Hl, list_elem_of_In. by apply in_rev.
Qed.

Lemma keeps_upsert now salt dn classes a actor : plain dn = true -> keeps (upsert_projected_entry now salt dn classes a actor).
Proof.
  intros Hp. unfold upsert_projected_entry. apply keeps_tree_bind; [by apply keeps_ancestors|intros _]. apply keeps_tree_bind; [keep|].
  intros [r|]; simpl; [keep|]. apply keeps_tree_bind; [by apply keeps_create, good_name_plain|keep].
Qed.

Lemma container_exists now dn structural actor v : tree (entries v) -> good_name dn ->
  vwp (ensure_container now dn structural actor)
    (fun r v' => tree (entries v') /\ match r with Ok _ => is_Some (entries v' !! normalize_dn dn) | Err _ => True end) v.
Proof.
  intros Ht Hg. unfold ensure_container. apply vwp_bind, vwp_find_entry. rewrite normalize_dn_idem.
  destruct (entries v !! normalize_dn dn) as [r|] eqn:E; simpl; [apply vwp_ret; by rewrite E|].
  apply vwp_bind. eapply vwp_mono; [by apply insert_entry_spec, enterable_new|]. intros [e|e] v'.
  - intros (_ & Hn & Hp & ->). apply vwp_ret. split; [apply tree_inserted; [by apply enterable_new|done..]|].
    simpl. unfold inserted. simpl. destruct (parent_of (normalize_dn dn)) as [p|]; [|rewrite lookup_insert_eq; by eexists].
    rewrite lookup_alter. destruct (decide (p = normalize_dn dn)) as [->|]; rewrite lookup_insert_eq; by eexists.
  - by intros ->.
Qed.

(** The same where the parent of the name exists. *)
Lemma upsert_under now salt dn p classes a actor v : tree (entries v) -> good_name dn -> normalize_dn <$> parent_of dn = Some p ->
  is_Some (entries v !! normalize_dn p) -> vwp (upsert_projected_entry now salt dn classes a actor) (fun _ v' => tree (entries v')) v.
Proof.
  intros Ht Hg Hp [r Hr]. unfold upsert_projected_entry, ensure_ancestors. rewrite Hp. cbn [missing_ancestors].
  apply vwp_bind, vwp_bind. destruct (is_empty p).
  - apply vwp_ret, vwp_ret. by apply (keeps_tree_bind _ _ (keeps_find dn)); [intros [x|]; simpl; [keep|apply keeps_tree_bind; [by apply keeps_create|keep]]|].
  - apply vwp_bind, vwp_find_entry. rewrite Hr. simpl. apply vwp_ret, vwp_ret.
    by apply (keeps_tree_bind _ _ (keeps_find dn)); [intros [x|]; simpl; [keep|apply keeps_tree_bind; [by apply keeps_create|keep]]|].
Qed.

Lemma keeps_user now salt base sam sid uac actor : contains_char "," sam = false ->
  keeps (ensure_user_entry now salt base sam sid uac actor).
Proof.
  intros Hs. apply keeps_with_base. intros b Hn Hb v Hv. apply vwp_bind.
  assert (good_name ("CN=Users," +:+ b)) as Hg by (by apply (good_name_under "C" "N=Users" b)).
  eapply vwp_mono; [by apply container_exists|]. intros [[]|e] v' [Ht He]; [|done].
  set (users := "CN=Users," +:+ b) in *.
  assert (contains_char "," ("CN=" +:+ sam) = false) as Hc by exact (eq_trans (contains_app "," "CN=" sam) Hs).
  assert (normalize_dn ("CN=" +:+ sam +:+ "," +:+ users) = to_ascii_lowercase ("CN=" +:+ sam) +:+ "," +:+ normalize_dn users) as En.
  { rewrite <- (normalize_cons ("CN=" +:+ sam) users); [done|by apply (graphic_clean "C")|by apply (graphic_clean "C")]. }
  eapply (upsert_under _ _ _ (normalize_dn users)); [done| | |by rewrite normalize_dn_idem].
  - intros p. rewrite normalize_dn_idem, En, parent_of_cons by (by rewrite contains_lower). intros [= <-]. apply normalize_dn_idem.
  - rewrite En, parent_of_cons by (by rewrite contains_lower). simpl. by rewrite normalize_dn_idem.
Qed.

(** ** Sequences of operations *)

Inductive ldap_call :=
| CAdd (salt dn : string) (classes : list string) (attributes : Attributes) (actor : string)
| CUser (parent uid cn sn : string) (mail : option string) (actor : string)
| CGroup (parent cn : string) (description : option string) (actor : string)
| COu (parent ou : string) (description : option string) (actor : string)
| CModify (salt dn : string) (changes : list LdapAttrChange)
| CIdentity (salt dn sam sid : string)
| CRename (dn new_rdn : string) (delete_old_rdn : bool) (new_superior : option string)
| CDelete (dn : string)
| CEnable (dn : string) (enabled : bool)
| CPassword (salt dn password : string)
| CAddMember (group member : string)
| CRemoveMember (group member : string)
| CContainers (base actor : string)
| CRoles (salt base netbios : string) (owners : FsmoOwners) (actor : string)
| CSeize (salt base netbios role : string)
| CComputer (salt base sam host : string) (uac : Z) (actor : string)
| CProject (salt dn : string) (classes : list string) (attributes : Attributes) (actor : string)
| CProjectUser (salt base sam : string) (sid : bytes) (uac : Z) (actor : string).

Definition done_ {A} (m : Db A) : Db unit := do! _ <- m; mret ().

Definition exec (now : Z) (c : ldap_call) : Db unit :=
  match c with
  | CAdd salt dn classes a actor => done_ (create_entry now salt dn classes a actor)
  | CUser parent uid cn sn mail actor => done_ (create_user now parent uid cn sn mail actor)
  | CGroup parent cn d actor => done_ (create_group now parent cn d actor)
  | COu parent ou d actor => done_ (create_ou now parent ou d actor)
  | CModify salt dn changes => done_ (modify_entry now salt dn changes)
  | CIdentity salt dn sam sid => done_ (set_entry_ad_identity now salt dn sam sid)
  | CRename dn rdn del sup => done_ (rename_entry now dn rdn del sup)
  | CDelete dn => delete_entry now dn
  | CEnable dn b => set_user_enabled now dn b
  | CPassword salt dn pw => reset_password now salt dn pw
  | CAddMember g m => add_member now g m
  | CRemoveMember g m => remove_member now g m
  | CContainers base actor => seed_domain_containers now base actor
  | CRoles salt base netbios owners actor => seed_fsmo_roles_owned now salt base netbios owners actor
  | CSeize salt base netbios role => done_ (seize_fsmo_role now salt base netbios role)
  | CComputer salt base sam host uac actor => ensure_computer_entry now salt base sam host uac actor
  | CProject salt dn classes a actor => upsert_projected_entry now salt dn classes a actor
  | CProjectUser salt base sam sid uac actor => ensure_user_entry now salt base sam sid uac actor
  end.

(** No white space after a comma of a name, no comma in an account or host name, and
    no entry moved below itself. *)
Definition regular (c : ldap_call) : Prop :=
  match c with
  | CAdd _ dn _ _ _ | CProject _ dn _ _ _ => plain dn = true
  | CRename dn _ _ (Some sup) => normalize_dn sup <> normalize_dn dn
  | CRoles _ _ netbios _ _ => contains_char "," netbios = false
  | CComputer _ _ sam _ _ _ | CProjectUser _ _ sam _ _ _ => contains_char "," sam = false
  | _ => True
  end.

(** The calls one after the other, each at its time, whatever the answers. *)
Fixpoint run (cs : list (Z * ldap_call)) (s : store) : list (DbResult unit) * store :=
  match cs with
  | [] => ([], s)
  | (now, c) :: cs' =>
      let (r, s1) := exec now c s in
      let (rs, s2) := run cs' s1 in
      (r :: rs, s2)
  end.

Lemma keeps_done {A} (m : Db A) : keeps m -> keeps (done_ m).
Proof. intros H. apply keeps_tree_bind; [done|keep]. Qed.

Lemma keeps_exec now c : regular c -> keeps (exec now c).
Proof.
  destruct c; cbn [exec regular]; intros H; try apply keeps_done;
    first [ apply keeps_create, good_name_plain, H | apply keeps_create_user | apply keeps_create_group | apply keeps_create_ou | apply keeps_modify | apply keeps_delete
          | apply keeps_set_user_enabled | apply keeps_reset_password | apply keeps_add_member | apply keeps_remove_member
          | apply keeps_seed_containers | apply keeps_seed_fsmo, H | apply keeps_seize | apply keeps_computer, H
          | apply keeps_upsert, H | apply keeps_user, H | idtac ].
  apply keeps_rename. intros s ->. exact H.
Qed.

(** Following the parents from an entry reaches a root: names get shorter. *)
Inductive rooted (m : gmap string EntryRecord) : string -> Prop :=
| rooted_root k e : m !! k = Some e -> er_parent_dn e = None -> rooted m k
| rooted_child k e p : m !! k = Some e -> er_parent_dn e = Some p -> rooted m p -> rooted m k.

Lemma tree_rooted m : tree m -> forall k, is_Some (m !! k) -> rooted m k.
Proof.
  intros Ht k. remember (String.length k) as n eqn:En. assert (String.length k <= n)%nat as Hn by lia. clear En.
  revert k Hn. induction n as [|n IH]; intros k Hn [e He]; (destruct (er_parent_dn e) as [p|] eqn:Ep; [|by eapply rooted_root]);
    destruct (node_parent _ _ _ (Ht k e He) p Ep) as [Hs [rdn ->]]; rewrite !str_length_app in Hn; simpl in Hn; [lia|].
  eapply rooted_child; [done|done|]. apply IH; [lia|done].
Qed.

Lemma run_keeps_tree cs : Forall (fun tc => regular tc.2) cs -> forall s v rs s',
  abs s v -> tree (entries v) -> run cs s = (rs, s') -> (forall e, In (Err e) rs -> ~ failure e) ->
  exists v', abs s' v' /\ tree (entries v').
Proof.
  intros Hr. induction Hr as [|[now c] cs Hc Hr IH]; intros s v rs s' Ha Ht E Hf; cbn [run] in E.
  - injection E as <- <-. eauto.
  - destruct (exec now c s) as [r s1] eqn:E1. destruct (run cs s1) as [rs1 s2] eqn:E2. injection E as <- <-.
    destruct (vwp_run _ _ _ _ _ _ Ha E1 (keeps_exec now c Hc v Ht)) as (v1 & Ha1 & Ht1).
    { intros e ->. apply Hf. by left. }
    eapply (IH s1 v1); [done|done|exact E2|]. intros e He. apply Hf. by right.
Qed.


(** ** What the operations do *)

Definition members (e : EntryRecord) : option (list string) := attributes_map e !! "member".

Lemma attributes_map_text a t e : attributes_map (with_attributes (json_text a) t e) = a.
Proof. unfold attributes_map. simpl. by rewrite of_json_text. Qed.

Lemma with_flag_attributes b e : attributes_map (with_flag b e) = attributes_map e.
Proof. done. Qed.

(** Flags do not touch the rest of a row. *)
Lemma reflag_opt_lookup o m k e : reflag_opt o m !! k = Some e ->
  exists e0, m !! k = Some e0 /\ er_structural_class e = er_structural_class e0 /\ attributes_map e = attributes_map e0.
Proof.
  destruct o as [p|]; simpl; [|eauto]. unfold reflag. rewrite lookup_alter. destruct (decide (p = k)) as [<-|]; [|eauto].
  destruct (m !! p) as [x|]; [|done]. intros [= <-]. by exists x.
Qed.

Lemma reflag_opt_is_Some o m k : is_Some (reflag_opt o m !! k) <-> is_Some (m !! k).
Proof.
  destruct o as [p|]; [|done]. simpl. unfold reflag. rewrite lookup_alter. destruct (decide (p = k)) as [<-|]; [|done].
  apply fmap_is_Some.
Qed.

Lemma filter_length_lt {A} (f : A -> bool) l x : In x l -> f x = false -> (length (List.filter f l) < length l)%nat.
Proof.
  induction l as [|y l IH]; [done|]. simpl. intros [->|Hin] Hf.
  - rewrite Hf. pose proof (filter_length_le f l). lia.
  - specialize (IH Hin Hf). destruct (f y); simpl; lia.
Qed.

(** A group rewritten without a member does not list it. *)
Lemma stripped_members now k e ms m : structural_is OC_GROUP e = true ->
  members (edit_group now (strip_member k) e) = Some ms -> In m ms -> normalize_dn m <> k.
Proof.
  intros Hg. unfold edit_group. rewrite Hg. unfold edit, strip_member, members.
  destruct (attributes_map e !! "member") as [l|] eqn:E; [|by rewrite E].
  set (rest := List.filter (fun x => negb (String.eqb (normalize_dn x) k)) l).
  destruct (length rest =? length l)%nat eqn:El.
  - apply Nat.eqb_eq in El. rewrite E. intros [= <-] Hin Hk.
    pose proof (filter_length_lt (fun x => negb (String.eqb (normalize_dn x) k)) l m Hin) as Hlt.
    cbv beta in Hlt. rewrite Hk, String.eqb_refl in Hlt. specialize (Hlt eq_refl). unfold rest in El. lia.
  - rewrite attributes_map_text, lookup_insert_eq. intros [= <-]. unfold rest. intros [_ Hk]%filter_In Hkk.
    by rewrite Hkk, String.eqb_refl in Hk.
Qed.


(** *** Renaming *)

Lemma find_key_Some name m k : find_key name m = Some k -> eq_ignore_ascii_case k name = true.
Proof. by intros [_ H]%find_some. Qed.

Lemma add_attr_value_present m name value : exists k vs,
  add_attr_value m name value !! k = Some vs /\ eq_ignore_ascii_case k name = true /\
  existsb (fun v => eq_ignore_ascii_case v value) vs = true.
Proof.
  unfold add_attr_value. set (k := unwrap_or name (find_key name m)). eexists k, _. split; [apply lookup_insert_eq|].
  assert (forall x, eq_ignore_ascii_case x x = true) as Hr by (intros x; by apply eq_ignore_ascii_case_iff).
  split.
  - unfold k. destruct (find_key name m) as [k0|] eqn:E; [by eapply find_key_Some|apply Hr].
  - destruct (existsb _ (unwrap_or [] (m !! k))) eqn:E; [done|]. rewrite existsb_app, E. simpl. by rewrite Hr.
Qed.

(** Groups follow a rename. *)
Lemma renamed_members now k k' e ms : structural_is OC_GROUP e = true -> members e = Some ms ->
  members (edit_group now (rename_member k k') e) = Some (map (fun x => if String.eqb (normalize_dn x) k then k' else x) ms).
Proof.
  intros Hg Hm. unfold edit_group. rewrite Hg. unfold edit, rename_member, members in *. rewrite Hm.
  destruct (existsb _ ms) eqn:E; [by rewrite attributes_map_text, lookup_insert_eq|]. rewrite Hm. f_equal.
  rewrite <- (map_id ms) at 1. apply map_ext_in. intros x Hx. destruct (String.eqb (normalize_dn x) k) eqn:Ex; [|done].
  assert (existsb (fun x => String.eqb (normalize_dn x) k) ms = true) by (apply existsb_exists; eauto). congruence.
Qed.

Lemma reparented_lookup old new m k e : m !! k = Some e ->
  exists b, reparented old new m !! k = Some (with_flag b e).
Proof.
  intros H. assert (forall (m : gmap string EntryRecord) p b e0, m !! k = Some e0 -> exists b', alter (with_flag b) p m !! k = Some (with_flag b' e0)) as Ha.
  { intros m0 p b e0 H0. rewrite lookup_alter. destruct (decide (p = k)) as [<-|]; rewrite H0; [by exists b|]. exists (er_has_children e0). by destruct e0. }
  assert (exists b, m !! k = Some (with_flag b e)) as Hid by (exists (er_has_children e); rewrite H; by destruct e).
  unfold reparented. destruct (decide (old = new)); [done|]. cbv zeta.
  assert (exists b, reflag_opt old m !! k = Some (with_flag b e)) as [b Hb].
  { destruct old as [p|]; [by apply Ha|done]. }
  destruct new as [p|]; [|eauto]. destruct (Ha _ p true _ Hb) as [b' Hb']. exists b'. by rewrite Hb'.
Qed.

Lemma reparented_is_Some old new m k : is_Some (reparented old new m !! k) <-> is_Some (m !! k).
Proof.
  split; [|intros [e He]; destruct (reparented_lookup old new m k e He) as [b ->]; by eexists].
  intros H. destruct (m !! k) as [e|] eqn:E; [by eexists|]. exfalso. revert H. unfold reparented.
  destruct (decide (old = new)); [rewrite E; by intros [? [=]]|]. cbv zeta.
  assert (reflag_opt old m !! k = None) as Hn.
  { apply eq_None_not_Some. rewrite reflag_opt_is_Some, E. by intros [? [=]]. }
  destruct new as [p|]; [|rewrite Hn; by intros [? [=]]]. rewrite lookup_alter. destruct (decide (p = k)) as [<-|]; rewrite Hn; by intros [? [=]].
Qed.


(** *** Access control *)

(** The rules in force. *)
Definition in_force (now : Z) (s : store) (rule : LdapAclRule) : Prop :=
  acl_enabled rule = true /\ exists kr, In kr (rows (ldap_acl s)) /\ rule = into_model now kr.

(** The name is [target] or below it. *)
Definition covers (pattern dn : string) : Prop :=
  pattern = "*"%string \/ dn = normalize_dn pattern \/ exists pre, dn = pre +:+ "," +:+ normalize_dn pattern.

Lemma dn_in_scope_iff pattern dn : dn_in_scope pattern dn = true <-> covers pattern dn.
Proof.
  unfold dn_in_scope, covers. rewrite orb_true_iff, String.eqb_eq, orb_true_iff, String.eqb_eq, ends_with_iff. done.
Qed.

Definition is_subject (v : view) (bound : option string) (su : LdapAclSubject) : Prop :=
  match su with
  | Anyone => True
  | Anonymous => bound = None
  | Authenticated => is_Some bound
  | SubjectDn dn => exists b, bound = Some b /\ normalize_dn b = normalize_dn dn
  | GroupMember g => exists b e ms m, bound = Some b /\ entries v !! normalize_dn g = Some e /\ members e = Some ms /\
                       In m ms /\ normalize_dn m = normalize_dn b
  end.

Definition applies (v : view) (bound : option string) (o : LdapAclOperation) (target : string) (rule : LdapAclRule) : Prop :=
  o ∈ operations rule /\ covers (target_dn rule) (normalize_dn target) /\ is_subject v bound (subject rule).

Lemma find_entry_ok dn s v o s' : abs s v -> find_entry dn s = (Ok o, s') -> s' = s /\ o = entries v !! normalize_dn dn.
Proof.
  intros Ha E. pose proof (vwp_find_entry dn (fun r _ => r = Ok (entries v !! normalize_dn dn)) v eq_refl s Ha) as H.
  unfold wp in H. rewrite E in H. destruct H as [(e & [=] & _)|(v' & _ & [= ->])]. split; [|done].
  unfold find_entry, read_from in E. by injection E.
Qed.

Lemma subject_ok su bound s v b s' : abs s v -> acl_subject_matches su bound s = (Ok b, s') ->
  s' = s /\ (b = true <-> is_subject v bound su).
Proof.
  intros Ha. destruct su as [| | |dn|g]; simpl; try (intros [= <- <-]).
  - done.
  - split; [done|]. destruct bound; simpl; split; congruence.
  - split; [done|]. by rewrite is_some_true.
  - split; [done|]. rewrite bool_decide_eq_true, fmap_Some. split; intros (x & Hx & Hn); by exists x.
  - destruct bound as [x|]; [|intros [= <- <-]; split; [done|]; split; [done|]; by intros (? & ? & ? & ? & [=] & _)].
    unfold group_has_member. intros [(e & _ & [=])|(o & s1 & E & [= <- <-])]%mbind_inv.
    apply (find_entry_ok _ _ _ _ _ Ha) in E as [-> ->]. split; [done|].
    destruct (entries v !! normalize_dn g) as [e|] eqn:Eg; [|split; [done|by intros (? & ? & ? & ? & _ & [=] & _)]].
    fold (members e). destruct (members e) as [ms|] eqn:Em; simpl; [|split; [done|]; intros (? & ? & ? & ? & _ & [= <-] & Hms & _); congruence].
    rewrite existsb_exists. setoid_rewrite String.eqb_eq. split; [intros (m & Hm & En); by exists x, e, ms, m|].
    intros (? & ? & ? & m & [= <-] & [= <-] & ? & Hm & En). simplify_eq. eauto.
Qed.

(** The first rule of the list that applies decides. *)
Lemma first_match_ok rules bound o target s v : abs s v -> forall b s', first_match rules bound o (normalize_dn target) s = (Ok b, s') ->
  s' = s /\
  ((b = false /\ forall r, In r rules -> ~ applies v bound o target r) \/
   exists pre r post, rules = pre ++ r :: post /\ applies v bound o target r /\ (b = true <-> effect r = Allow) /\
     forall r', In r' pre -> ~ applies v bound o target r').
Proof.
  intros Ha. induction rules as [|r rules IH]; intros b s'; cbn [first_match].
  - intros [= <- <-]. split; [done|]. by left.
  - assert (forall b s', first_match rules bound o (normalize_dn target) s = (Ok b, s') -> ~ applies v bound o target r ->
              s' = s /\ ((b = false /\ forall r', In r' (r :: rules) -> ~ applies v bound o target r') \/
                exists pre r0 post, r :: rules = pre ++ r0 :: post /\ applies v bound o target r0 /\ (b = true <-> effect r0 = Allow) /\
                  forall r', In r' pre -> ~ applies v bound o target r')) as Hskip.
    { intros b0 s0 E Hn. apply IH in E as [-> [[-> Hall]|(pre & r0 & post & -> & Hap & He & Hpre)]]; (split; [done|]).
      - left. split; [done|]. intros r' [<-|Hr']; auto.
      - right. exists (r :: pre), r0, post. split_and!; try done. intros r' [<-|Hr']; auto. }
    destruct (negb (bool_decide (o ∈ operations r)) || negb (dn_in_scope (target_dn r) (normalize_dn target))) eqn:Eg.
    + intros E. apply Hskip; [done|]. intros (Ho & Hc & _). apply dn_in_scope_iff in Hc.
      rewrite bool_decide_true, Hc in Eg by done. done.
    + apply orb_false_iff in Eg as [Ho%negb_false_iff%bool_decide_eq_true Hc%negb_false_iff%dn_in_scope_iff].
      intros [(e & _ & [=])|(m & s1 & E & E')]%mbind_inv. apply (subject_ok _ _ _ _ _ _ Ha) in E as [-> Hm].
      destruct m; [|apply Hskip; [done|]; intros (_ & _ & Hs); apply Hm in Hs; done].
      injection E' as <- <-. split; [done|]. right. exists [], r, rules. split_and!; try done; [|apply bool_decide_eq_true].
      split_and!; [done|done|]. by apply Hm.
Qed.

Lemma sorted_app_le {A} (R : A -> A -> Prop) pre x post : StronglySorted R (pre ++ x :: post) -> forall y, In y post -> R x y.
Proof.
  induction pre as [|z pre IH]; simpl; intros H y Hy.
  - apply StronglySorted_inv in H as [_ H]. rewrite Forall_forall in H. by apply H, list_elem_of_In.
  - apply StronglySorted_inv in H as [H _]. by apply IH.
Qed.

Lemma rules_sorted now (rs : list (string * AclRecord)) : StronglySorted (fun a b => priority_le a.2 b.2 = true) rs ->
  StronglySorted (fun a b => priority a <= priority b) (List.filter acl_enabled (map (into_model now) rs)).
Proof.
  induction rs as [|[k r] rs IH]; simpl; intros H; [constructor|]. apply StronglySorted_inv in H as [Hs Hf].
  assert (Forall (fun b => priority (into_model now (k, r)) <= priority b) (List.filter acl_enabled (map (into_model now) rs))) as Hall.
  { apply Forall_forall. intros x ((kr & <- & Hin)%in_map_iff & _)%list_elem_of_In%filter_In.
    rewrite Forall_forall in Hf. specialize (Hf kr ltac:(by apply list_elem_of_In)). destruct kr as [k' r']. by apply Z.leb_le. }
  destruct (ar_enabled r); [constructor; auto|auto].
Qed.

(** C21: Access follows the rules: with no rule in force everything is allowed; otherwise
    access is granted only by a rule in force that applies and allows, and that no rule
    of smaller priority which applies precedes; it is refused only by such a rule that
    denies, or because no rule applies.  The evaluation changes nothing. *)
Theorem access_follows_the_rules now bound o target s v b s' :
  abs s v -> evaluate_ldap_acl now bound o target s = (Ok b, s') ->
  s' = s /\
  ((forall rule, ~ in_force now s rule) -> b = true) /\
  ((exists rule, in_force now s rule) ->
   if b then exists rule, in_force now s rule /\ applies v bound o target rule /\ effect rule = Allow /\
               forall rule', in_force now s rule' -> applies v bound o target rule' -> priority rule <= priority rule'
   else (forall rule, in_force now s rule -> ~ applies v bound o target rule) \/
        exists rule, in_force now s rule /\ applies v bound o target rule /\ effect rule = Deny /\
          forall rule', in_force now s rule' -> applies v bound o target rule' -> priority rule <= priority rule').
Proof.
  intros Ha. unfold evaluate_ldap_acl. intros [(e & _ & [=])|(all & s1 & E & E')]%mbind_inv.
  unfold list_ldap_acls in E. apply mbind_inv in E as [(e & _ & [=])|(l & s2 & E & E2)].
  unfold read_from in E. injection E as E <-. injection E2 as <- <-.
  destruct (select_ok _ _ _ _ _ E) as (rs & Hp & Hsort & ->).
  { intros x y. unfold priority_le. rewrite !Z.leb_le. lia. }
  { intros x y z. unfold priority_le. rewrite !Z.leb_le. lia. }
  change (from_option (fun n => take n rs) rs None) with rs in E'. rewrite filter_true in Hp.
  set (rules := List.filter acl_enabled (map (into_model now) rs)) in *.
  assert (forall rule, in_force now s rule <-> In rule rules) as Hin.
  { intros rule. unfold rules. rewrite filter_In, in_map_iff. unfold in_force. split.
    - intros (He & kr & Hkr & ->). split; [|done]. exists kr. split; [done|]. by rewrite Hp.
    - intros ((kr & <- & Hkr) & He). split; [done|]. exists kr. split; [|done]. by rewrite <- Hp. }
  assert (StronglySorted (fun a b => priority a <= priority b) rules) as Hs by (by apply rules_sorted).
  destruct rules as [|r0 rules0] eqn:Er.
  - injection E' as <- <-. split_and!; [done|done|]. intros [rule Hr]. by apply Hin in Hr.
  - rewrite <- Er in *. apply (first_match_ok _ _ _ _ _ _ Ha) in E' as [-> Hb]. split_and!; [done|intros Hno; destruct (Hno r0); apply Hin; rewrite Er; by left|].
    intros _. destruct Hb as [[-> Hno]|(pre & r & post & El & Hap & He & Hpre)].
    + left. intros rule Hr. by apply Hno, Hin.
    + assert (in_force now s r) as Hr by (apply Hin; rewrite El; apply in_elt).
      assert (forall rule', in_force now s rule' -> applies v bound o target rule' -> priority r <= priority rule') as Hle.
      { intros r' Hr' Hap'. apply Hin in Hr'. rewrite El in Hr', Hs. apply in_app_iff in Hr' as [Hr'|[<-|Hr']].
        - by destruct (Hpre r' Hr').
        - lia.
        - by apply (sorted_app_le _ _ _ _ Hs). }
      destruct b; [exists r; split_and!; try done; by apply He|]. right. exists r. split_and!; try done.
      destruct (effect r) eqn:Ee; [|done]. by destruct He as [_ He]; specialize (He eq_refl).
Qed.

(** *** Operation masters *)

Lemma keys_In (m : Attributes) k : In k (keys m) <-> is_Some (m !! k).
Proof.
  unfold keys. rewrite <- list_elem_of_In. rewrite (sort_by_perm str_le (map fst (map_to_list m))). rewrite list_elem_of_In, in_map_iff. split.
  - intros ([k' x] & <- & Hin%list_elem_of_In%elem_of_map_to_list). by eexists.
  - intros [x Hx]. exists (k, x). split; [done|]. by apply list_elem_of_In, elem_of_map_to_list.
Qed.

(** The attribute is spelt in one way. *)
Definition one_spelling (name : string) (m : Attributes) : Prop :=
  forall k, is_Some (m !! k) -> eq_ignore_ascii_case k name = true -> k = name.

Lemma find_key_set name x m : one_spelling name m -> find_key name (<[name := x]> m) = Some name.
Proof.
  intros H. assert (eq_ignore_ascii_case name name = true) as Hr by (by apply eq_ignore_ascii_case_iff).
  unfold find_key. destruct (find _ _) as [k|] eqn:E.
  - apply find_some in E as [Hin Hk]. apply keys_In in Hin. destruct (decide (name = k)) as [<-|Hne]; [done|].
    rewrite lookup_insert_ne in Hin by done. f_equal. by apply H.
  - assert (In name (keys (<[name := x]> m))) as Hin by (apply keys_In; rewrite lookup_insert_eq; by eexists).
    apply (find_none _ _ E) in Hin. congruence.
Qed.

Definition owner_in (e : EntryRecord) : option string :=
  let m := delete ATTR_PASSWORD (attributes_map e) in k ← find_key "fSMORoleOwner" m; m !! k ≫= head.

Definition owner_at (v : view) (base : string) (r : master) : option string := entries v !! normalize_dn (role_dn base r) ≫= owner_in.

Lemma fsmo_owners_spec now base roles v :
  vwp (fsmo_owners_of now base roles)
    (fun r v' => v' = v /\ match r with
                           | Ok l => l = map (fun r => (role_key r, role_dn base r, owner_at v base r)) roles
                           | Err _ => False
                           end) v.
Proof.
  induction roles as [|r roles IH]; cbn [fsmo_owners_of]; [by apply vwp_ret|]. apply vwp_bind. unfold get_entry. apply vwp_map.
  assert (forall x, x ≫= role_owner = owner_at v base r ->
            vwp (do! rest <- fsmo_owners_of now base roles; mret ((role_key r, role_dn base r, x ≫= role_owner) :: rest))
              (fun r0 v' => v' = v /\ match r0 with
                 | Ok l => l = map (fun r => (role_key r, role_dn base r, owner_at v base r)) (r :: roles)
                 | Err _ => False end) v) as Hrest.
  { intros x Hx. apply vwp_bind, (vwp_mono _ _ _ _ IH). intros [l|e] v' (-> & Hl); [|done]. apply vwp_ret. split; [done|]. by rewrite Hl, Hx. }
  apply vwp_find_row; [intros k e He|intros Hn]; apply Hrest; unfold owner_at; [by rewrite He|by rewrite Hn].
Qed.

Lemma modify_replace_spec now salt dn name x v : eq_ignore_ascii_case name "userPassword" = false ->
  vwp (modify_entry now salt dn [replace name [x]])
    (fun r v' => r = Ok (is_some (entries v !! normalize_dn dn)) /\
       v' = on_view (fun m => alter (fun e => with_attributes (json_text (<[name := [x]]> (attributes_map e))) (to_rfc3339 now) e) (normalize_dn dn) m) v) v.
Proof.
  intros Hn. unfold modify_entry. apply vwp_bind, vwp_find_entry. destruct (entries v !! normalize_dn dn) as [e|] eqn:E; simpl.
  - unfold replace. simpl. rewrite Hn. apply vwp_bind, vwp_write_attributes, vwp_bind, vwp_ret, vwp_ret. split; [done|].
    unfold on_view. f_equal. apply map_eq. intros k. rewrite !lookup_alter. destruct (decide (normalize_dn dn = k)) as [<-|]; [|done].
    rewrite E. simpl. by rewrite text_or_else.
  - apply vwp_ret. split; [done|]. unfold on_view. destruct v as [m l]. simpl in *. f_equal. apply map_eq. intros k. rewrite lookup_alter.
    destruct (decide (normalize_dn dn = k)) as [<-|]; [|done]. by rewrite E.
Qed.

Lemma role_dn_normal base r : normalize_dn base = base -> r <> PdcRole ->
  exists pre, normalize_dn (role_dn base r) = pre +:+ "," +:+ base /\
    pre = match r with
          | SchemaRole => "cn=schema,cn=configuration" | NamingRole => "cn=partitions,cn=configuration"
          | RidRole => "cn=rid manager$,cn=system" | InfrastructureRole => "cn=infrastructure" | PdcRole => EmptyString
          end%string.
Proof.
  intros Hb Hr. pose proof (normal_clean _ Hb) as Hc.
  assert (forall a, strip_one white_space a = None -> normalize_dn (a +:+ "," +:+ base) = to_ascii_lowercase a +:+ "," +:+ base) as Hn.
  { intros a Ha. rewrite normalize_cons by done. by rewrite Hb. }
  destruct r; try done; (eexists; split; [|reflexivity]);
    [ apply (Hn "CN=Schema,CN=Configuration"%string) | apply (Hn "CN=Partitions,CN=Configuration"%string)
    | apply (Hn "CN=RID Manager$,CN=System"%string) | apply (Hn "CN=Infrastructure"%string) ]; by apply (graphic_clean "C").
Qed.

Lemma role_names_distinct base r r' : normalize_dn base = base ->
  normalize_dn (role_dn base r) = normalize_dn (role_dn base r') -> r = r'.
Proof.
  intros Hb. assert (forall r, r <> PdcRole -> normalize_dn (role_dn base r) <> normalize_dn (role_dn base PdcRole)) as Hp.
  { intros r0 Hr. destruct (role_dn_normal base r0 Hb Hr) as (pre & -> & _). simpl. rewrite Hb. intros E. by apply (comma_longer pre base). }
  destruct (decide (r = PdcRole)) as [->|H1], (decide (r' = PdcRole)) as [->|H2]; [done|intros E; by destruct (Hp r' H2)|intros E; by destruct (Hp r H1)|].
  destruct (role_dn_normal base r Hb H1) as (p1 & -> & E1), (role_dn_normal base r' Hb H2) as (p2 & -> & E2). subst p1 p2.
  destruct r, r'; done.
Qed.

(** Seizing a role moves that role and no other: when the role's object is there, it
    names this domain controller afterwards, and the listing of the owners shows the
    other roles as before. *)
Theorem seizing_moves_one_role now now' salt base_dn netbios role_attr r e s v x s1 l s2 :
  let base := normalize_dn base_dn in
  abs s v -> tree (entries v) ->
  (exists root, entries v !! base = Some root /\ er_structural_class root = OC_DOMAIN) ->
  (forall k e, entries v !! k = Some e -> er_structural_class e = OC_DOMAIN -> k = base) ->
  role_trigger role_attr = Some r -> entries v !! normalize_dn (role_dn base r) = Some e ->
  one_spelling "fSMORoleOwner" (attributes_map e) ->
  seize_fsmo_role now salt base_dn netbios role_attr s = (Ok x, s1) -> fsmo_owners now' base_dn s1 = (Ok l, s2) ->
  x = Some (role_dn base r) /\
  l = map (fun r' => (role_key r', role_dn base r', if decide (r' = r) then Some (ntds_dn base netbios) else owner_at v base r')) all_roles.
Proof.
  intros base Ha Ht [root [Hroot Hclass]] Honly Hr He Hone Es El. pose proof (normalize_dn_idem base_dn : normalize_dn base = base) as Hb.
  set (k := normalize_dn (role_dn base r)) in *.
  set (f := fun e => with_attributes (json_text (<["fSMORoleOwner" := [ntds_dn base netbios]]> (attributes_map e))) (to_rfc3339 now) e).
  assert (vwp (seize_fsmo_role now salt base_dn netbios role_attr)
            (fun y v' => y = Ok (Some (role_dn base r)) /\ v' = on_view (alter f k) v) v) as Hs.
  { unfold seize_fsmo_role, ensure_ldap_base. apply vwp_bind, vwp_bind, vwp_root.
    - intros r0 Hr0 Hc0. rewrite (Honly _ _ Hr0 Hc0). apply vwp_ret. rewrite Hr. apply vwp_bind.
      eapply vwp_mono; [by apply modify_replace_spec|]. intros r1 v1 (-> & ->). apply vwp_ret. by split.
    - intros Hno. by destruct (Hno base root Hroot). }
  destruct (vwp_run _ _ _ _ _ _ Ha Es Hs ltac:(done)) as (v1 & Ha1 & [= ->] & ->). split; [done|].
  destruct (vwp_run _ _ _ _ _ _ Ha1 El (fsmo_owners_spec now' base all_roles (on_view (alter f k) v)) ltac:(done)) as (v2 & _ & _ & ->).
  apply map_ext. intros r'. f_equal. unfold owner_at. simpl. destruct (decide (r' = r)) as [->|Hne].
  - fold k. rewrite lookup_alter_eq, He. simpl. unfold owner_in. unfold f. rewrite attributes_map_text.
    rewrite delete_insert_ne by done. rewrite find_key_set.
    + simpl. by rewrite lookup_insert_eq.
    + intros k0 [y Hy]. apply lookup_delete_Some in Hy as [_ Hy]. apply Hone. by eexists.
  - rewrite lookup_alter_ne; [done|]. intros E. apply Hne. symmetry. by apply (role_names_distinct base).
Qed.

(** *** Passwords *)

Lemma vwp_reset now salt dn pw (Q : DbResult unit -> view -> Prop) v :
  (entries v !! normalize_dn dn = None -> Q (Err NotFound) v) ->
  (forall h e, entries v !! normalize_dn dn = Some e -> argon2 salt pw = inr h ->
     Q (Ok ()) (on_view (alter (with_password h (to_rfc3339 now)) (normalize_dn dn)) v)) ->
  vwp (reset_password now salt dn pw) Q v.
Proof.
  intros H1 H2. unfold reset_password. apply vwp_bind, vwp_find_entry. destruct (entries v !! normalize_dn dn) as [e|] eqn:E; [|apply vwp_fail; auto].
  apply vwp_bind. intros s Hs. unfold wp, hash_password. simpl. destruct (argon2 salt pw) as [m|h] eqn:Eh; [left; by eexists|].
  right. exists v. split; [done|]. apply vwp_update; [done|]. by apply (H2 h e).
Qed.

(** A password that was set binds: Argon2 accepts what it hashed, so after a reset the
    entry binds with the new password exactly if it is enabled. *)
Theorem reset_password_binds now salt dn pw s v s1 b s2 :
  (forall h, argon2 salt pw = inr h -> exists p, PasswordHash_new h = Some p /\ verify_password pw p = true) ->
  abs s v -> reset_password now salt dn pw s = (Ok (), s1) -> verify_ldap_bind dn pw s1 = (Ok b, s2) ->
  exists e, entries v !! normalize_dn dn = Some e /\ b = er_enabled e.
Proof.
  intros Hlaw Ha E1 E2.
  assert (vwp (reset_password now salt dn pw) (fun r v' => r = Err NotFound \/ exists h e, entries v !! normalize_dn dn = Some e /\
            argon2 salt pw = inr h /\ v' = on_view (alter (with_password h (to_rfc3339 now)) (normalize_dn dn)) v) v) as Hr.
  { apply vwp_reset; [by left|]. intros h e He Hh. right. by exists h, e. }
  destruct (vwp_run _ _ _ _ _ _ Ha E1 Hr ltac:(done)) as (v1 & Ha1 & [[=]|(h & e & He & Hh & ->)]).
  exists e. split; [done|]. unfold verify_ldap_bind in E2. apply mbind_inv in E2 as [(? & _ & [=])|(o & s3 & E2 & E3)].
  apply (find_entry_ok _ _ _ _ _ Ha1) in E2 as [-> ->]. simpl in E3. rewrite lookup_alter_eq, He in E3. simpl in E3.
  destruct (Hlaw h Hh) as (p & Hp & Hv). rewrite Hp, Hv, andb_true_r in E3. by injection E3.
Qed.
End repository.

(** ** A directory in memory *)

Module ldap_demo.

(** Rows with a unique name. *)
Record entry_rows := mkRows { row_table : list_table EntryRecord }.

Definition taken (r : EntryRecord) (t : entry_rows) : bool := existsb (has_key er_dn (er_dn r)) (map snd (rows (row_table t))).

#[local] Instance entry_rows_Table : Table entry_rows EntryRecord.
Proof.
  refine {|
    rows t := rows (row_table t);
    select p le n t := select p le n (row_table t);
    select_key k t := select_key k (row_table t);
    create r t := if taken r t then (Err Surreal, t) else let (o, t') := create r (row_table t) in (o, mkRows t');
    delete_where p t := let (o, t') := delete_where p (row_table t) in (o, mkRows t');
    delete_key k t := let (o, t') := delete_key k (row_table t) in (o, mkRows t');
    update_where p f t := let (o, t') := update_where p f (row_table t) in (o, mkRows t');
  |}.
  - intros t. apply rows_keys.
  - intros p le n t l. apply select_ok.
  - intros k t o. apply select_key_ok.
  - intros r t o t'. destruct (taken r t); [by intros [= <- <-]|]. destruct (create r (row_table t)) as [o0 t0] eqn:E. intros [= <- <-]. by apply create_ok in E.
  - intros p t o t'. destruct (delete_where p (row_table t)) as [o0 t0] eqn:E. intros [= <- <-]. by apply delete_where_ok in E.
  - intros k t o t'. destruct (delete_key k (row_table t)) as [o0 t0] eqn:E. intros [= <- <-]. by apply delete_key_ok in E.
  - intros p f t o t'. destruct (update_where p f (row_table t)) as [o0 t0] eqn:E. intros [= <- <-]. by apply update_where_ok in E.
Defined.

#[local] Instance entry_rows_Unique : Unique entry_rows EntryRecord er_dn.
Proof.
  intros r t x t'. simpl. destruct (taken r t) eqn:E; [done|]. intros _ Hin. apply list_elem_of_In, in_map_iff in Hin as (y & Ey & Hy).
  assert (taken r t = true); [|congruence]. apply existsb_exists. exists y. split; [done|]. by apply String.eqb_eq.
Qed.

#[local] Instance entry_rows_Fails : Fails entry_rows EntryRecord.
Proof.
  split; simpl; [done| |done..]. intros r t e t'. destruct (taken r t); [by intros [= <-]|done].
Qed.

#[local] Instance log_Fails : Fails (list_table LdapChangeRecord) LdapChangeRecord.
Proof. split; done. Qed.

Definition operation_code (o : LdapAclOperation) : Z :=
  match o with OpSearch => 0 | OpRead => 1 | OpAdd => 2 | OpModify => 3 | OpDelete => 4 | OpModifyDn => 5 | OpCompare => 6 end.
Definition code_operation (z : Z) : LdapAclOperation :=
  match z with 0 => OpSearch | 1 => OpRead | 2 => OpAdd | 3 => OpModify | 4 => OpDelete | 5 => OpModifyDn | _ => OpCompare end.
Definition subject_code (s : LdapAclSubject) : Z * string :=
  match s with
  | Anyone => (0, EmptyString) | Anonymous => (1, EmptyString) | Authenticated => (2, EmptyString)
  | SubjectDn d => (3, d) | GroupMember g => (4, g)
  end.
Definition code_subject (p : Z * string) : LdapAclSubject :=
  match p.1 with 0 => Anyone | 1 => Anonymous | 2 => Authenticated | 3 => SubjectDn p.2 | _ => GroupMember p.2 end.

#[local] Instance tree_operation : TreeSerde LdapAclOperation.
Proof. apply (tree_iso operation_code code_operation); [by intros []|apply _]. Defined.
#[local] Instance serde_attributes : Serde Attributes.
Proof. apply serde_of_tree, (tree_iso (fun m : Attributes => map_to_list m) list_to_map); [apply list_to_map_to_list|apply _]. Defined.
#[local] Instance serde_operations : Serde (list LdapAclOperation) := serde_of_tree tree_list.
#[local] Instance serde_subject : Serde LdapAclSubject.
Proof. apply serde_of_tree, (tree_iso subject_code code_subject); [by intros []|apply _]. Defined.
#[local] Instance serde_effect : Serde LdapAclEffect.
Proof. apply serde_of_tree, (tree_iso (fun e => match e with Allow => true | Deny => false end) (fun b : bool => if b then Allow else Deny)); [by intros []|apply _]. Defined.

Definition stamp (now : Z) : string := dec_string now.
Definition hash (salt pw : string) : string + string := inr (salt +:+ "$" +:+ pw).
Definition read_hash (h : string) : option (string * string) := split_once "$" h.
Definition check (pw : string) (p : string * string) : bool := String.eqb p.2 pw.

Abbreviation demo_store := (LdapStore entry_rows (list_table LdapChangeRecord) (list_table LdapSyncStateRecord) (list_table AclRecord)).
Definition empty_store : demo_store := mkLdapStore (mkRows lt_empty) lt_empty lt_empty lt_empty.
Definition empty_directory : view := mkView ∅ [].

Abbreviation demo_run := (run (ET := entry_rows_Table) stamp (fun _ => None) hash).

(** People and a group; one entry is renamed, one is moved, one is deleted. *)
Definition base : string := "dc=example,dc=com".
Definition demo_calls : list (Z * ldap_call) :=
  [ (10, CContainers base "admin");
    (11, COu base "People" None "admin");
    (12, COu base "Former" None "admin");
    (13, CUser "ou=People,dc=example,dc=com" "alice" "Alice" "A" None "admin");
    (14, CUser "ou=People,dc=example,dc=com" "bob" "Bob" "B" (Some "b@example.com") "admin");
    (15, CGroup base "staff" None "admin");
    (16, CAddMember "cn=staff,dc=example,dc=com" "UID=alice,OU=People,dc=example,dc=com");
    (17, CAddMember "cn=staff,dc=example,dc=com" "uid=bob,ou=people,dc=example,dc=com");
    (18, CRename "uid=alice,ou=people,dc=example,dc=com" "uid=alicia" true (Some "ou=Former,dc=example,dc=com"));
    (19, CPassword "salt" "uid=bob,ou=people,dc=example,dc=com" "secret");
    (20, CDelete "ou=people,dc=example,dc=com") ]%string.

Definition demo_result : list (DbResult unit) := (demo_run demo_calls empty_store).1.
Definition demo_directory : demo_store := (demo_run demo_calls empty_store).2.

Lemma empty_abs : abs empty_store empty_directory.
Proof. split; done. Qed.

Lemma tree_empty : tree (entries empty_directory).
Proof. by intros k e. Qed.

(** The last deletion is refused: [bob] is still there. *)
Lemma demo_results : demo_result = replicate 10 (Ok ()) ++ [Err (Constraint MSG_OU_GUARD)].
Proof. vm_compute. reflexivity. Qed.

Lemma demo_regular : Forall (fun tc => regular tc.2) demo_calls.
Proof. repeat (constructor; [done|]). constructor. Qed.

Lemma demo_ran : demo_run demo_calls empty_store = (demo_result, demo_directory).
Proof. exact (surjective_pairing (demo_run demo_calls empty_store)). Qed.

Lemma no_failures e : In (Err e) demo_result -> ~ failure e.
Proof. rewrite demo_results. intros [[=]|[[=]|[[=]|[[=]|[[=]|[[=]|[[=]|[[=]|[[=]|[[=]|[[= <-]|[]]]]]]]]]]]]. by intros []. Qed.


Lemma demo_view : exists v, abs demo_directory v /\ tree (entries v).
Proof.
  exact (run_keeps_tree stamp (fun _ => None) hash demo_calls demo_regular empty_store empty_directory demo_result demo_directory
           empty_abs tree_empty demo_ran no_failures).
Qed.

Lemma run_pair {A B} (p : A * B) a : p.1 = a -> p = (a, p.2).
Proof. by destruct p; intros <-. Qed.

(** [bob] is deleted: the group does not list him. *)
Definition bob : string := "uid=bob,ou=people,dc=example,dc=com".
Abbreviation bob_deleted := (delete_entry stamp (fun _ => None) 30 bob demo_directory).


(** [bob] becomes [robert], and the group follows. *)
Abbreviation bob_renamed := (rename_entry stamp (fun _ => None) 31 bob "uid=robert" true None demo_directory).


(** *** Access: staff may read, others may not *)

Definition rule (p : Z) (who : LdapAclSubject) (what : LdapAclEffect) : LdapAclRule :=
  mkLdapAclRule EmptyString 0 0 "admin" p "ou=People,dc=example,dc=com" [OpRead; OpSearch] who what true.
Definition guarded_directory : demo_store :=
  (create_ldap_acl stamp (fun _ => None) 32 (rule 20 Anyone Deny)
     (create_ldap_acl stamp (fun _ => None) 32 (rule 10 (GroupMember "cn=staff,dc=example,dc=com") Allow) demo_directory).2).2.

Lemma guarded_view : exists v, abs guarded_directory v.
Proof. destruct demo_view as (v & [H1 H2] & _). by exists v. Qed.

Lemma rule_in_force : exists r, in_force (fun _ => None) 33 guarded_directory r.
Proof.
  assert (existsb (fun kr => acl_enabled (into_model (fun _ => None) 33 kr)) (rows (ldap_acl guarded_directory)) = true) as E by (vm_compute; reflexivity).
  apply existsb_exists in E as (kr & Hin & He). exists (into_model (fun _ => None) 33 kr). split; [exact He|]. exists kr. split; [exact Hin|reflexivity].
Qed.

Abbreviation bob_reads := (evaluate_ldap_acl (fun _ => None) 33 (Some "UID=bob,OU=People,dc=example,dc=com"%string) OpRead bob guarded_directory).

Lemma access_follows_the_rules_witness :
  bob_reads.1 = Ok true /\
  (evaluate_ldap_acl (fun _ => None) 33 None OpRead bob guarded_directory).1 = Ok false /\
  exists v rule, abs guarded_directory v /\ in_force (fun _ => None) 33 guarded_directory rule /\
    applies v (Some "UID=bob,OU=People,dc=example,dc=com"%string) OpRead bob rule /\ effect rule = Allow.
Proof.
  assert (bob_reads.1 = Ok true) as E by (vm_compute; reflexivity).
  split; [done|]. split; [vm_compute; reflexivity|]. destruct guarded_view as (v & Ha).
  pose proof (run_pair _ _ E) as Ep.
  destruct (access_follows_the_rules (fun _ => None) 33 (Some "UID=bob,OU=People,dc=example,dc=com"%string) OpRead bob guarded_directory v true
              bob_reads.2 Ha Ep) as (_ & _ & Hb).
  destruct (Hb rule_in_force) as (r & Hr & Hap & He & _). exists v, r. split; [exact Ha|]. split; [exact Hr|]. split; [exact Hap|exact He].
Defined.

(** *** Names and attributes the operations do not expect *)

(** Moved below itself, an entry is left without its parent: [regular] excludes it. *)
Example moved_below_itself :
  let moved := rename_entry stamp (fun _ => None) 34 bob "uid=bob" false (Some bob) demo_directory in
  from_option (fun d => (e_dn d, e_parent_dn d)) (EmptyString, None) (match moved.1 with Ok d => Some d | Err _ => None end) =
    ("uid=bob,uid=bob,ou=people,dc=example,dc=com", Some bob)%string /\
  (get_entry (fun _ => None) 34 bob moved.2).1 = Ok None.
Proof. vm_compute. done. Qed.

(** A blank after the comma: the entry exists, and its unit does not list it. *)
Example blank_after_the_comma :
  let added := create_entry stamp (fun _ => None) hash 35 "salt" "uid=carol, ou=People,dc=example,dc=com" ["top"; OC_USER]%string ∅ "admin" demo_directory in
  let listed := (list_children (fun _ => None) 35 (Some "ou=People,dc=example,dc=com"%string) added.2).1 in
  (exists d, added.1 = Ok d) /\ (match listed with Ok l => map tn_dn l | Err _ => [] end) = [bob].
Proof. vm_compute. split; [eexists|]; reflexivity. Qed.

(** A second spelling of the password attribute stays in the attribute map, in clear. *)
Example second_spelling_stays :
  let added := create_entry stamp (fun _ => None) hash 36 "salt" "uid=carol,ou=people,dc=example,dc=com" ["top"; OC_USER]%string
                 (<["USERPASSWORD" := ["one"]%string]> (<["userPassword" := ["two"]%string]> ∅)) "admin" demo_directory in
  (match added.1 with Ok d => e_attributes d !! "userPassword"%string | Err _ => None end) = Some ["two"%string].
Proof. vm_compute. reflexivity. Qed.

End ldap_demo.
